(* ===== verification/_CoqProject ===== *)
-Q . S2P
Prelude.v
Hmsg.v
Hbuf.v
Hhash.v
StbHash.v
StbProbe.v
StbMem.v
StbArena.v
StbTable.v
StbArray.v
StbWalk.v
StbInv.v
StbOps.v
StbInstance.v
StbStrMap.v
StbStrNat.v
StbStrInv.v
StbStrProps.v
Hv.v
Hbroker.v
BrokerSpec.v
BrokerRep.v
BrokerProps.v
Hnode.v
NodeProps.v
Hrequest.v
RequestInv.v
RequestProps.v
System.v
Lru.v
Json.v
JsonLexer.v
JsonParser.v
JsonDump.v
JsonUtf8.v
JsonLexProps.v
JsonScan.v
JsonDom.v
JsonTotal.v
JsonParse.v
JsonNumeral.v
JsonNumber.v
JsonDumpInv.v
JsonEscape.v
JsonDumpText.v
JsonText.v
JsonRead.v
JsonBuild.v
JsonRound.v
JsonGrisu.v
JsonFloat.v
JsonDigits.v
JsonToChars.v
JsonStrtod.v
JsonAccess.v
JsonPointer.v
JsonPatch.v
JsonPointerProps.v
JsonAccessProps.v
JsonDiff.v
JsonPatchProps.v
JsonFlatten.v
JsonUnflatten.v
JsonBinary.v
JsonCbor.v
JsonMsgpack.v
JsonBinaryProps.v
JsonCborProps.v
JsonMsgpackProps.v
JsonBinaryTotal.v
JsonCborTotal.v
JsonMsgpackTotal.v
JsonBson.v
JsonBsonProps.v
JsonBsonTotal.v
JsonUbjson.v
JsonUbjsonScan.v
JsonUbjsonTotal.v
