(* ===== verification/Prelude.v ===== *)
(** hbus: a verification development.

    hbus is a publish/subscribe message bus: a broker process (src/src/hbroker.c)
    that forwards messages between the nodes connected to it, a client library
    (src/src/hnode.c, src/include/hnode.h), and the message format both share
    (src/include/hmsg.h).  It stands on the hcore headers (3rd/include/hcore: the
    stb_ds.h hash table, the macros of hhash.h and hbuf.h) and on the libhv event
    loop, which is compiled code.  Two header-only parts of the shipped libhv
    (3rd/include/hv), the LRU cache (LRUCache.h) and the JSON library (json.hpp), and
    the parts of stb_ds.h the bus leaves unused are modelled as components of their
    own.

    ** Files

    - Prelude.v (this file): faults, the state monad of the handlers, machine
      integers, bytes and little-endian layout, loops that search, generic lemmas.
    - Hmsg.v: [hmsg_t] as its 32 header bytes and payload, the cast of a receive
      buffer, [HMSG_HEAD_VALID], the topic keys [HMSG_TOPICEX] on 32-bit [int].
    - Hbuf.v: the macros of hbuf.h over the class [HBuf]; its functions are
      compiled, so [HBufSpec] and [HBufTotal] state what the callers rely on, and
      [list_hbuf] satisfies both.
    - Hhash.v: the macros of hhash.h as the class [HIHash] with the laws
      [HIHashSpec] of a finite map with stable-order iteration.
    - StbHash.v, StbProbe.v, StbTable.v, StbWalk.v, StbInv.v, StbOps.v,
      StbInstance.v: stb_ds.h.  StbHash: the hash functions ([stbds_hash_bytes] with
      its 4-byte, 8-byte and SipHash branches, [stbds_hash_string]).  StbProbe:
      buckets and probe sequence.  StbTable: the index and the operations
      [stbds_make_hash_index], [stbds_hm_find_slot], [stbds_hmget_key],
      [stbds_hmput_key], [stbds_hmdel_key].  StbWalk, StbInv, StbOps: the invariant
      of the table and what each operation does to it.  StbInstance: the table
      discharges [HIHashSpec].
    - StbMem.v: blocks of memory and the allocation log.  StbArena.v: the string
      arena.  StbArray.v: the plain arrays ([arrput] and the rest), a list with its
      capacity.  StbStrMap.v: the table in its three string modes (the caller's
      strings, [stbds_strdup], the arena).  StbStrNat.v, StbStrInv.v, StbStrProps.v:
      it is a map from the strings to the values, with the memory it owns.
    - Hv.v: the frame setting of libhv and its documented length formula; the calls
      into the event loop ([hv_call]), which are recorded in order.
    - Hbroker.v: every function of hbroker.c over explicit memory: sessions by
      address, the topic table, the user pointer of each connection.  A NULL or
      freed session, read, is a [Fault].
    - BrokerSpec.v: what the broker promises: a registry of clients and subscribers
      and the frames each event sends.  BrokerRep.v: the representation relation
      and the simulation of each handler.  BrokerProps.v: the theorems.
    - Hnode.v: every function of hnode.c except the concurrent part of requests: the
      subscription table under its mutex, sending, the callbacks of the I/O thread,
      reconnection, initialisation.  NodeProps.v: its invariant and theorems.
    - Hrequest.v: [hnode_request] and [hnode_on_respond] as interleaved atomic steps
      of any number of callers and the I/O thread.  RequestInv.v: the invariant,
      by a ghost table of slot owners.  RequestProps.v: the theorems.
    - System.v: nodes and broker composed over the frames they write.
    - Lru.v: the class LRUCache: a doubly linked list of nodes and a hash map of
      iterators into it, refined to a list of entries in the order of use.
    - Json.v: the values of json.hpp ([basic_json] as the inductive [json], objects
      as [std::map], a list in the order of the keys), its exceptions, and
      [NumberFloat], the interface of the floating-point functions.
    - JsonLexer.v: the class lexer: one definition per scanning function and per
      state of the number automaton, over the state of the class.  JsonParser.v: the
      class parser over the interface [Sax] of event handlers, with the handlers
      [json_sax_dom_parser] and [json_sax_acceptor], [json_parse] and [json_accept].
      JsonDump.v: the class serializer with its buffers, and [json_dump].
    - JsonUtf8.v: UTF-8 as encoded scalar values, and the decoder automaton of the
      serializer.  JsonLexProps.v, JsonScan.v: what the lexer accepts and returns.
      JsonDom.v: well-formed values and the invariant of the DOM handler.
      JsonTotal.v, JsonParse.v: the parser on any bytes.
    - JsonNumeral.v, JsonDumpInv.v, JsonEscape.v, JsonDumpText.v: what each part of
      [dump] writes.  JsonNumber.v, JsonText.v: the grammar of JSON texts.  JsonRead.v: the parser
      on a text of the grammar, as events.  JsonBuild.v: the value these events
      build.  JsonRound.v: [dump] and [parse] together.
    - JsonGrisu.v: namespace dtoa_impl and [to_chars], the conversion of a [double] (its
      64-bit representation) to its shortest digits, writing into a buffer.
      JsonFloat.v: the errors of its arithmetic, over rationals.  JsonDigits.v: the
      digit generation.  JsonToChars.v: the text, and [double] as [number_float_t].
      JsonStrtod.v: the C library's [strtod], and [dump] and [parse] over [double].
    - JsonAccess.v: the members of [basic_json] that read and change a value:
      comparison, element access, insertion, erasure, through places ([ref]) in a
      document.  JsonPointer.v: the class json_pointer, [flatten] and [unflatten].
      JsonPatch.v: [patch_inplace], [diff] and [merge_patch].
    - JsonPointerProps.v: pointers and their text.  JsonAccessProps.v: the value at a
      place, read and replaced.  JsonDiff.v, JsonPatchProps.v: patches.  JsonFlatten.v,
      JsonUnflatten.v: the flat form of a value, and the way back.
    - JsonBinary.v: what the binary formats share: the classes binary_reader and
      binary_writer, [double], [float] and half precision.  JsonCbor.v, JsonMsgpack.v,
      JsonBson.v and JsonUbjson.v (UBJSON and BJData): the formats, reader and writer.  JsonBinaryProps.v: the reader
      on what was written; JsonCborProps.v, JsonMsgpackProps.v, JsonBsonProps.v: the
      round trips, and the sizes BSON announces.  JsonBinaryTotal.v, JsonCborTotal.v,
      JsonMsgpackTotal.v, JsonBsonTotal.v, JsonUbjsonTotal.v: the readers on any bytes,
      against the interface of a handler that JsonTotal.v states.  JsonUbjsonScan.v: the
      lexer on the text of a high-precision number.

    ** Correspondence

    Definitions carry the names of the code.  The state of hbus_ctx_t is the record
    [broker], that of hnode_t is [hnode]; hsession_t, hrequest_ctx_t,
    hnode_subscrib_handler_t, stbds_hash_index and stbds_array_header are records of
    the same members.  Pointers are integers into an explicit heap; the user data of
    callbacks is the number the code passes.  A handler is a function of the state
    ([M S A]); its early returns, guards and calls into the loop are those of the
    code.  printf and the clocks used only for log lines are left out.

    ** What is shown

    - The stb_ds table is a finite map under every sequence of operations, through
      growth, shrinking, tombstones and rehashing; probing visits every slot once, so
      its loops end; stored hashes never collide with the reserved ones.  In each
      string mode the table refines a map from strings, and freeing it gives back
      every block it took; the plain arrays refine lists.
    - The broker refines its registry for every run of events that the loop can
      raise: no fault, exactly the specified frames to exactly the specified
      connections; topic buffers hold no dangling pointer; publish, subscribe,
      close and idempotence follow as statements about frames and memory.
    - The node keeps its invariant under all events; dispatch, subscription, the
      status reply, initialisation and the error returns are exact.
    - Requests: memory safety of reply buffers, mutual exclusion, exact replies,
      progress, and what a refused or timed-out call leaves behind, for every
      interleaving; the I/O steps refine the sequential [hnode_on_respond].
    - End to end: what a node publishes is what the subscriber's handler gets.
    - The LRU cache refines the recency list under every sequence of operations.
    - JSON: [parse] is total on any bytes: it returns a well-formed value or throws
      one of its documented errors, and [accept] agrees with it; strings are read by
      the grammar of RFC 8259; any text of the grammar gives the value it denotes;
      [dump] of any value stays inside its buffers, up to an indentation of 1024, and
      writes exactly its text.  [to_chars] of a finite [double] writes, inside its
      buffer, a JSON number nearer to it than to any other [double]; so what is
      dumped of a value is parsed back, floating-point numbers bit for bit.
    - JSON documents: a pointer is the text it prints; the array index of a pointer
      is the number its text denotes, or the error the text deserves; [patch] of
      [diff] gives back the target; a patch on a document returns a well-formed
      document or throws, except for one assertion; [merge_patch] is the recursive
      function of RFC 7396; [unflatten] of [flatten] gives back the value.
    - Binary formats: what [to_cbor], [to_msgpack] and [to_bson] write, [from_cbor],
      [from_msgpack] and [from_bson] read, up to what the format cannot tell apart;
      [to_bson] announces exactly the size it writes, or throws; the readers are total
      on any bytes.
    - Where the code does not do what it means to, the theorem states what it does:
      UNSUB handled as SUB, [hnode_unsubscribe] without effect, subscriptions lost
      by a reconnection, request timeouts of two seconds and more, failed
      allocations, a late response reported as a timeout, the JSON indentation string
      read past its end, a replaced string key that the caller may free, the assertion
      a patch can reach, [contains] that throws.

    ** Bounds and fuel

    The only recursions that are not structural are the probe loops (fuel: the
    number of buckets, enough by [probing_exhaustive]), [HC_GETMINPOW] (fuel 32,
    enough by [GETMINPOW_ok]), the table walk of [hnode_on_status] (fuel: the number
    of entries), the loops of the JSON lexer and parser (fuel: the bytes of the
    input, as every round but the last reads one), those of the binary readers (fuel:
    the bytes left and two, for the same reason; the counted loops of UBJSON, whose
    rounds may read nothing, run by recursion on the count), a length written within
    a number of UBJSON (fuel 2: the length of a numeral is one byte), and two loops of the serializer
    over the digits of a 64-bit number (fuel 5 and 10; each round takes four and two
    of at most 20 digits).  In [to_chars] normalisation takes at most 63 shifts (fuel
    64), the fraction at most 16 digits (fuel 17) and rounding at most 9 decrements
    of a digit (fuel 10).  Running out is the fault [OutOfFuel], which the safety
    theorems, [json_parse_total], [from_cbor_total], [from_msgpack_total], [from_bson_total],
    [from_ubjson_total], [json_dump_exact] and [to_chars_exact] exclude.
    Integers are [Z] with wrap-around where the C type wraps.

    ** Assumptions

    The event loop raises callbacks one at a time, accepts a connection under a
    handle that is not open with a session address from malloc that is not in use
    ([env_ok], [node_env_ok]), and gives read callbacks whole frames; hbuf functions
    meet [HBufSpec].  In Hrequest.v an access under a held mutex is atomic, and
    pthread_cond_timedwait may wake at any moment, rejects an invalid timespec at
    once with EINVAL, and reports ETIMEDOUT.  In the files of stb_ds.h a block of
    memory has a number that is not used again.  In the JSON files number_float_t is a
    parameter with the functions [NumberFloat] (strtod, snprintf and the
    shortest-digits conversion; JsonStrtod.v has them for [double], snprintf apart,
    which that type does not reach, and takes strtod to round correctly); the
    locale's decimal point is neither a digit nor part of a number ([point_ok]);
    the binary formats are read from memory on a little-endian machine, with number_float_t
    as [double]; the writer of an annotated array of BJData finds numbers where it reads
    the union of a value as a number, anything else being a fault; allocation succeeds (an array longer than [max_size] throws length_error) and
    recursion does not exhaust the stack.

    ** Not modelled

    libhv itself and hcore's compiled functions, logging, process start-up of the
    test programs; of stb_ds.h the statistics counters and the macros that only cast
    or rename; of json.hpp the parser with a callback, the iterators, the ordering operators, the conversions from and to C++ types, the
    document an exception leaves behind in [patch_inplace], the input adapters other
    than bytes, and Grisu2 for [float]; the C++ classes of libhv over the compiled
    event loop. *)

From Stdlib Require Export ZArith Lia.
From stdpp Require Export base numbers list gmap.

#[global] Open Scope Z_scope.

(** Keep integer operations folded when computing with [simpl] and [cbn]. *)
#[global] Arguments Z.eqb : simpl never.
#[global] Arguments Z.leb : simpl never.
#[global] Arguments Z.ltb : simpl never.
#[global] Arguments Z.land : simpl never.
#[global] Arguments Z.lor : simpl never.
#[global] Arguments Z.lxor : simpl never.
#[global] Arguments Z.shiftl : simpl never.
#[global] Arguments Z.shiftr : simpl never.
#[global] Arguments Z.modulo : simpl never.
#[global] Arguments Z.div : simpl never.
#[global] Arguments Z.add : simpl never.
#[global] Arguments Z.sub : simpl never.
#[global] Arguments Z.mul : simpl never.
#[global] Arguments Z.pow : simpl never.
#[global] Arguments Z.of_nat : simpl never.
#[global] Arguments Z.to_nat : simpl never.

(** ** Faults and the state monad of the handlers *)

(** The ways in which a run of the C code leaves its defined behaviour. *)
Inductive fault :=
  | NullDeref      (** a field of a NULL pointer is read *)
  | UseAfterFree   (** a field of a freed (or never allocated) object is read *)
  | OutOfBounds    (** bytes outside a buffer are read *)
  | Overflow       (** a shift leaves the range its type defines *)
  | Uninitialised  (** the value of memory that was never written is used *)
  | Deadlock       (** a thread locks a mutex that it holds already *)
  | OutOfFuel      (** a loop ran past the fuel the model gives it *)
  | AssertFailed   (** an [assert] of the code does not hold *)
  | Thrown (id : Z) (what : list Z).  (** a C++ exception leaves the function *)

#[global] Instance fault_eq_dec : EqDecision fault.
Proof. solve_decision. Defined.

(** The outcome of a piece of C code: a value or a fault. *)
Inductive res (A : Type) :=
  | Ok (a : A)
  | Fault (f : fault).
Arguments Ok {A} a.
Arguments Fault {A} f.

(** Code that threads a state [S] and may fault. *)
Definition M (S A : Type) : Type := S -> res (A * S).

#[global] Instance M_ret {S} : MRet (M S) := fun A a s => Ok (a, s).
#[global] Instance M_bind {S} : MBind (M S) := fun A B k m s =>
  match m s with
  | Ok (a, s') => k a s'
  | Fault f => Fault f
  end.

Definition fail {S A} (f : fault) : M S A := fun _ => Fault f.
Definition gets {S A} (f : S -> A) : M S A := fun s => Ok (f s, s).
Definition modify {S} (f : S -> S) : M S unit := fun s => Ok (tt, f s).

(** [res_ok r P]: the run [r] does not fault and its result satisfies [P]. *)
Definition res_ok {A} (r : res A) (P : A -> Prop) : Prop :=
  match r with Ok a => P a | Fault _ => False end.

Lemma res_ok_mono {A} (r : res A) (P Q : A -> Prop) :
  res_ok r P -> (forall a, P a -> Q a) -> res_ok r Q.
Proof. destruct r; simpl; auto. Qed.

(** The fault of a run, if it has one. *)
Definition faulted {A} (r : res A) : option fault :=
  match r with Ok _ => None | Fault f => Some f end.

Lemma faulted_Some {A} (r : res A) f : faulted r = Some f -> r = Fault f.
Proof. destruct r; simpl; congruence. Qed.

Lemma bind_ok {S A B} (m : M S A) (k : A -> M S B) s a s' :
  m s = Ok (a, s') -> (m ≫= k) s = k a s'.
Proof. intros H. unfold mbind, M_bind. by rewrite H. Qed.

Lemma bind_ok_inv {S A B} (m : M S A) (k : A -> M S B) s b s'' :
  (m ≫= k) s = Ok (b, s'') ->
  exists a s', m s = Ok (a, s') /\ k a s' = Ok (b, s'').
Proof.
  unfold mbind, M_bind. destruct (m s) as [[a s']|f]; [eauto | discriminate].
Qed.

(** A conjunction over a list, as a recursive definition needs it. *)
Lemma foldr_and {A} (P : A -> Prop) l : foldr (fun x Q => P x /\ Q) True l <-> Forall P l.
Proof.
  induction l as [|x l IH]; simpl; [split; [constructor|done]|]. rewrite IH, Forall_cons. done.
Qed.

(** ** Weakest preconditions *)

(** [m] started in [s] ends with a result and state in [Q], or with a fault in
    [E]. *)
Definition wp {S A} (E : fault -> Prop) (m : M S A) (s : S) (Q : A -> S -> Prop) : Prop :=
  match m s with Ok (a, s') => Q a s' | Fault f => E f end.

(** No fault at all. *)
Definition nofault : fault -> Prop := fun _ => False.

Section wp.
Context {S : Type} (E : fault -> Prop).
Implicit Types (s : S).

Lemma wp_ret {A} (a : A) s Q : Q a s -> wp E (mret a) s Q.
Proof. done. Qed.

Lemma wp_bind {A B} (m : M S A) (k : A -> M S B) s Q :
  wp E m s (fun a s' => wp E (k a) s' Q) -> wp E (m ≫= k) s Q.
Proof. unfold wp, mbind, M_bind. by destruct (m s) as [[a s']|f]. Qed.

Lemma wp_gets {A} (f : S -> A) s Q : Q (f s) s -> wp E (gets f) s Q.
Proof. done. Qed.

Lemma wp_modify (f : S -> S) s Q : Q tt (f s) -> wp E (modify f) s Q.
Proof. done. Qed.

Lemma wp_fail {A} f s (Q : A -> S -> Prop) : E f -> wp E (fail f) s Q.
Proof. done. Qed.

Lemma wp_mono {A} (m : M S A) s (P Q : A -> S -> Prop) :
  wp E m s P -> (forall a s', P a s' -> Q a s') -> wp E m s Q.
Proof. unfold wp. destruct (m s) as [[a s']|f]; auto. Qed.

Lemma wp_conj {A} (m : M S A) s (P Q : A -> S -> Prop) :
  wp E m s P -> wp E m s Q -> wp E m s (fun a s' => P a s' /\ Q a s').
Proof. unfold wp. destruct (m s) as [[a s']|f]; auto. Qed.

Lemma wp_fault {A} (E' : fault -> Prop) (m : M S A) s Q :
  wp E' m s Q -> (forall f, E' f -> E f) -> wp E m s Q.
Proof. unfold wp. destruct (m s) as [[a s']|f]; auto. Qed.

Lemma wp_run {A} (m : M S A) s a s' Q : m s = Ok (a, s') -> Q a s' -> wp E m s Q.
Proof. unfold wp. by intros ->. Qed.
End wp.

Lemma wp_ok {S A} (m : M S A) s Q :
  wp nofault m s Q -> exists a s', m s = Ok (a, s') /\ Q a s'.
Proof. unfold wp. destruct (m s) as [[a s']|f]; [eauto | done]. Qed.

(** Symbolic execution of the monad; [wp_steps] stops at calls. *)
Ltac wp_step :=
  lazymatch goal with
  | |- wp _ (mbind _ _) _ _ => apply wp_bind
  | |- wp _ (mret _) _ _ => apply wp_ret
  | |- wp _ (gets _) _ _ => apply wp_gets
  | |- wp _ (modify _) _ _ => apply wp_modify
  end.
Ltac wp_steps := repeat (wp_step; cbv beta).

(** ** Machine integers *)

(** An unsigned [w]-bit value: reduction modulo [2^w]. *)
Definition uwrap (w z : Z) : Z := z mod 2 ^ w.
(** A signed [w]-bit value: two's complement. *)
Definition swrap (w z : Z) : Z :=
  (z + 2 ^ (w - 1)) mod 2 ^ w - 2 ^ (w - 1).

Definition u8 := uwrap 8.
Definition u16 := uwrap 16.
Definition u32 := uwrap 32.
Definition u64 := uwrap 64.
Definition s32 := swrap 32.

Definition in_u (w z : Z) : Prop := 0 <= z < 2 ^ w.
Definition in_s (w z : Z) : Prop := - 2 ^ (w - 1) <= z < 2 ^ (w - 1).

#[global] Instance in_u_dec w z : Decision (in_u w z).
Proof. unfold in_u. apply _. Defined.
#[global] Instance in_s_dec w z : Decision (in_s w z).
Proof. unfold in_s. apply _. Defined.

Lemma uwrap_range w z : 0 <= w -> in_u w (uwrap w z).
Proof. intros Hw. unfold in_u, uwrap. apply Z.mod_pos_bound. lia. Qed.

Lemma uwrap_small w z : in_u w z -> uwrap w z = z.
Proof. intros H. unfold uwrap. by apply Z.mod_small. Qed.

Lemma swrap_range w z : 0 < w -> in_s w (swrap w z).
Proof.
  intros Hw. unfold in_s, swrap.
  pose proof (Z.mod_pos_bound (z + 2 ^ (w - 1)) (2 ^ w)) as Hm.
  assert (2 ^ w = 2 * 2 ^ (w - 1)) as Hp
    by (rewrite <- Z.pow_succ_r by lia; f_equal; lia).
  lia.
Qed.

Lemma swrap_small w z : 0 < w -> in_s w z -> swrap w z = z.
Proof.
  intros Hw H. unfold in_s, swrap in *.
  assert (2 ^ w = 2 * 2 ^ (w - 1)) as Hp
    by (rewrite <- Z.pow_succ_r by lia; f_equal; lia).
  rewrite Z.mod_small; lia.
Qed.

(** Two's complement is recovered from the unsigned image. *)
Lemma swrap_uwrap w z : 0 < w -> swrap w (uwrap w z) = swrap w z.
Proof.
  intros Hw. unfold swrap, uwrap.
  by rewrite Zplus_mod_idemp_l.
Qed.

Lemma uwrap_swrap w z : 0 < w -> uwrap w (swrap w z) = uwrap w z.
Proof.
  intros Hw. unfold swrap, uwrap. rewrite Zminus_mod_idemp_l. f_equal. lia.
Qed.

(** ** Little-endian bytes *)

(** A byte is a [Z] in [0, 256); memory is a list of bytes. *)
Definition is_byte (b : Z) : Prop := in_u 8 b.

(** The [n] low bytes of [z], least significant first. *)
Fixpoint le_bytes (n : nat) (z : Z) : list Z :=
  match n with
  | O => []
  | S n => z mod 256 :: le_bytes n (z / 256)
  end.

(** The number the bytes stand for. *)
Fixpoint le_val (l : list Z) : Z :=
  match l with
  | [] => 0
  | b :: l => b + 256 * le_val l
  end.

Lemma length_le_bytes n z : length (le_bytes n z) = n.
Proof. revert z; induction n as [|n IH]; intros z; simpl; [done|]. by rewrite IH. Qed.

Lemma pow256_S n : 256 ^ Z.of_nat (S n) = 256 * 256 ^ Z.of_nat n.
Proof. rewrite Nat2Z.inj_succ, Z.pow_succ_r; lia. Qed.

Lemma le_val_le_bytes n z : le_val (le_bytes n z) = z mod 256 ^ Z.of_nat n.
Proof.
  revert z; induction n as [|n IH]; intros z; simpl le_val.
  - by rewrite Z.mod_1_r.
  - rewrite IH, pow256_S. rewrite Z.rem_mul_r by lia. lia.
Qed.

Lemma le_val_le_bytes_u n w z :
  w = 8 * Z.of_nat n -> in_u w z -> le_val (le_bytes n z) = z.
Proof.
  intros -> [H0 H1]. rewrite le_val_le_bytes. apply Z.mod_small.
  change 256 with (2 ^ 8). rewrite <- Z.pow_mul_r by lia. lia.
Qed.

Lemma le_bytes_bytes n z : Forall is_byte (le_bytes n z).
Proof.
  revert z; induction n as [|n IH]; intros z; simpl; constructor; [|done].
  unfold is_byte, in_u. pose proof (Z.mod_pos_bound z 256). lia.
Qed.

Lemma le_val_range l : Forall is_byte l -> 0 <= le_val l < 256 ^ Z.of_nat (length l).
Proof.
  induction 1 as [|b l Hb _ IH]; simpl; [lia|].
  unfold is_byte, in_u in Hb. rewrite pow256_S in *. simpl in *. nia.
Qed.

(** Encoding what was decoded gives the bytes back. *)
Lemma le_bytes_le_val l : Forall is_byte l -> le_bytes (length l) (le_val l) = l.
Proof.
  induction 1 as [|b l Hb _ IH]; simpl; [done|].
  unfold is_byte, in_u in Hb.
  rewrite (Z.mul_comm 256), Z_mod_plus_full, Z.mod_small by lia.
  rewrite Z.div_add, (Z.div_small b), Z.add_0_l, IH by lia. done.
Qed.

(** Only the value modulo [256 ^ n] is encoded. *)
Lemma le_bytes_mod n z : le_bytes n (z mod 256 ^ Z.of_nat n) = le_bytes n z.
Proof.
  rewrite <- le_val_le_bytes.
  rewrite <- (length_le_bytes n z) at 1. apply le_bytes_le_val, le_bytes_bytes.
Qed.

(** ** Reading memory *)

(** The [w] bytes at offset [off], as an unsigned number. *)
Definition read_le (w off : nat) (mem : list Z) : Z :=
  le_val (take w (drop off mem)).

Lemma read_le_app w z pre post :
  0 <= z < 256 ^ Z.of_nat w ->
  read_le w (length pre) (pre ++ le_bytes w z ++ post) = z.
Proof.
  intros Hz. unfold read_le. rewrite drop_app_length.
  rewrite take_app_length' by (by rewrite length_le_bytes).
  rewrite le_val_le_bytes. by apply Z.mod_small.
Qed.

Lemma read_le_range w off mem :
  Forall is_byte mem -> (off + w <= length mem)%nat -> in_u (8 * Z.of_nat w) (read_le w off mem).
Proof.
  intros Hb Hl. unfold in_u. rewrite Z.pow_mul_r by lia. change (2 ^ 8) with 256.
  assert (length (take w (drop off mem)) = w) as <- by (rewrite length_take, length_drop; lia).
  unfold read_le. rewrite length_take, length_drop.
  replace (w `min` (length mem - off))%nat with w by lia.
  assert (length (take w (drop off mem)) = w) as E by (rewrite length_take, length_drop; lia).
  rewrite <- E at 3. apply le_val_range. by apply Forall_take, Forall_drop.
Qed.

(** A C array of [w]-byte cells laid out in memory. *)
Definition cells (w : nat) (xs : list Z) : list Z := xs ≫= le_bytes w.

Lemma cells_app w xs ys : cells w (xs ++ ys) = cells w xs ++ cells w ys.
Proof. unfold cells. by rewrite bind_app. Qed.

Lemma cells_singleton w x : cells w [x] = le_bytes w x.
Proof. unfold cells. simpl. by rewrite app_nil_r. Qed.

Lemma length_cells w xs : length (cells w xs) = (w * length xs)%nat.
Proof.
  induction xs as [|x xs IH]; simpl; [lia|].
  unfold cells in *. simpl. rewrite length_app, length_le_bytes, IH. lia.
Qed.

Lemma cells_take w xs i : take (i * w) (cells w xs) = cells w (take i xs).
Proof.
  revert i; induction xs as [|x xs IH]; intros [|i]; simpl; try done.
  - by rewrite !take_nil.
  - unfold cells in *; simpl. rewrite take_app, length_le_bytes.
    rewrite take_ge by (rewrite length_le_bytes; lia).
    replace (w + i * w - w)%nat with (i * w)%nat by lia. by rewrite IH.
Qed.

Lemma cells_drop w xs i : drop (i * w) (cells w xs) = cells w (drop i xs).
Proof.
  revert i; induction xs as [|x xs IH]; intros [|i]; simpl; try done.
  - by rewrite !drop_nil.
  - unfold cells in *; simpl. rewrite drop_app, length_le_bytes.
    rewrite drop_ge by (rewrite length_le_bytes; lia).
    replace (w + i * w - w)%nat with (i * w)%nat by lia. simpl. by rewrite IH.
Qed.

(** The cell at index [i] of the array. *)
Lemma read_cell w xs i x :
  xs !! i = Some x -> 0 <= x < 256 ^ Z.of_nat w ->
  read_le w (i * w) (cells w xs) = x.
Proof.
  intros Hi Hx. unfold read_le. rewrite cells_drop.
  erewrite drop_S by done. unfold cells; simpl.
  rewrite take_app_length' by (by rewrite length_le_bytes).
  rewrite le_val_le_bytes. by apply Z.mod_small.
Qed.

(** A struct laid out in memory: its members with their sizes. *)
Definition layout (fs : list (nat * Z)) : list Z := fs ≫= fun f => le_bytes f.1 f.2.

Definition offset_of (i : nat) (fs : list (nat * Z)) : nat :=
  foldr (fun f n => f.1 + n)%nat 0%nat (take i fs).

(** Members of the given sizes read one after the other from [off] on. *)
Fixpoint reads (off : nat) (ws : list nat) (mem : list Z) : list (nat * Z) :=
  match ws with
  | [] => []
  | w :: ws => (w, read_le w off mem) :: reads (off + w) ws mem
  end.

Lemma layout_cons f fs : layout (f :: fs) = le_bytes f.1 f.2 ++ layout fs.
Proof. done. Qed.

Lemma read_layout fs i w z post :
  fs !! i = Some (w, z) -> in_u (8 * Z.of_nat w) z ->
  read_le w (offset_of i fs) (layout fs ++ post) = z.
Proof.
  intros Hi Hz. revert i Hi; induction fs as [|f fs IH]; intros [|i] Hi; simplify_eq/=.
  - unfold in_u in Hz. rewrite Z.pow_mul_r in Hz by lia.
    unfold offset_of. cbn. rewrite <- app_assoc. by apply (read_le_app w z []).
  - unfold offset_of, read_le. cbn. rewrite <- app_assoc, drop_app, length_le_bytes.
    rewrite drop_ge by (rewrite length_le_bytes; lia). simpl.
    rewrite Nat.add_comm, Nat.add_sub. by apply IH.
Qed.

Lemma le_bytes_read_le w off mem :
  Forall is_byte mem -> (off + w <= length mem)%nat ->
  le_bytes w (read_le w off mem) = take w (drop off mem).
Proof.
  intros Hb Hl. unfold read_le.
  assert (length (take w (drop off mem)) = w) as Hlen
    by (rewrite length_take, length_drop; lia).
  rewrite <- Hlen at 1. apply le_bytes_le_val. by apply Forall_take, Forall_drop.
Qed.

Lemma layout_reads off ws mem :
  Forall is_byte mem -> (off + foldr Nat.add 0 ws <= length mem)%nat ->
  layout (reads off ws mem) = take (foldr Nat.add 0%nat ws) (drop off mem).
Proof.
  intros Hb. revert off; induction ws as [|w ws IH]; intros off Hl; cbn in *; [by rewrite take_0|].
  rewrite le_bytes_read_le by (done || lia).
  fold (layout (reads (off + w) ws mem)). rewrite IH by lia.
  rewrite <- (drop_drop mem), take_take_drop. done.
Qed.

(** ** Loops over an index *)

(** [for (i = from; i < from + n; ++i) if (p i) break;]: the index the loop
    stops at, or [None] when it runs to the end. *)
Fixpoint for_find (n from : nat) (p : nat -> bool) : option nat :=
  match n with
  | O => None
  | S n => if p from then Some from else for_find n (S from) p
  end.

Lemma for_find_Some n from p i :
  for_find n from p = Some i ->
  (from <= i < from + n)%nat /\ p i = true /\
  (forall j, (from <= j < i)%nat -> p j = false).
Proof.
  revert from; induction n as [|n IH]; intros from; simpl; [done|].
  destruct (p from) eqn:E; intros H.
  - simplify_eq. repeat split; [lia|lia|done|]. intros j; lia.
  - apply IH in H as (H1 & H2 & H3). repeat split; [lia|lia|done|].
    intros j Hj. destruct (decide (j = from)) as [->|]; [done|]. apply H3; lia.
Qed.

Lemma for_find_None n from p :
  for_find n from p = None <-> (forall j, (from <= j < from + n)%nat -> p j = false).
Proof.
  revert from; induction n as [|n IH]; intros from; simpl.
  - split; [intros _ j; lia | done].
  - destruct (p from) eqn:E.
    + split; [done|]. intros H. rewrite H in E; [done | lia].
    + rewrite IH. split; intros H j Hj.
      * destruct (decide (j = from)) as [->|]; [done|]. apply H; lia.
      * apply H; lia.
Qed.

Lemma for_find_ext n from p q :
  (forall i, (from <= i < from + n)%nat -> p i = q i) -> for_find n from p = for_find n from q.
Proof.
  revert from; induction n as [|n IH]; intros from H; simpl; [done|].
  rewrite H by lia. rewrite (IH (S from)); [done|]. intros i Hi. apply H. lia.
Qed.

(** ** Lists *)

(** On a duplicate-free list, removing by index is removing by value. *)
Lemma filter_all {A} (P : A -> Prop) `{!forall x, Decision (P x)} (l : list A) :
  Forall P l -> filter P l = l.
Proof. induction 1 as [|x l Hx _ IH]; [done|]. by rewrite filter_cons_True, IH. Qed.

Lemma delete_filter {A} `{EqDecision A} (l : list A) i x :
  NoDup l -> l !! i = Some x -> delete i l = filter (fun y => y <> x) l.
Proof.
  intros Hnd Hi. rewrite delete_take_drop.
  rewrite <- (take_drop_middle l i x Hi) at 3.
  rewrite <- (take_drop_middle l i x Hi) in Hnd.
  apply NoDup_app in Hnd as (_ & H1 & H2). apply NoDup_cons in H2 as [H2 _].
  rewrite filter_app, filter_cons_False by tauto.
  rewrite !filter_all; [done| |].
  - apply Forall_forall. intros y Hy ->. done.
  - apply Forall_forall. intros y Hy ->. apply (H1 x); [done|]. set_solver.
Qed.

Lemma NoDup_delete {A} (l : list A) i : NoDup l -> NoDup (delete i l).
Proof. intros H. eapply sublist_NoDup; [done|]. apply sublist_delete. Qed.

(** ** Bits *)

(** A disjoint [or] is a sum. *)
Lemma lor_shiftl_add a b n : 0 <= n -> 0 <= b < 2 ^ n -> Z.lor (Z.shiftl a n) b = a * 2 ^ n + b.
Proof.
  intros Hn Hb.
  assert (Z.land (Z.shiftl a n) b = 0) as H.
  { apply Z.bits_inj'. intros i Hi. rewrite Z.land_spec, Z.bits_0.
    destruct (decide (i < n)) as [Hlt|Hge].
    - rewrite Z.shiftl_spec_low by lia. done.
    - rewrite <- (Z.mod_small b (2 ^ n)), Z.mod_pow2_bits_high by lia.
      apply andb_false_r. }
  pose proof (Z.add_lor_land (Z.shiftl a n) b) as E.
  rewrite H, Z.shiftl_mul_pow2 in * by lia. lia.
Qed.

(** Masking with [2 ^ n - 1] is the remainder. *)
Lemma land_mask a n : 0 <= n -> Z.land a (2 ^ n - 1) = a mod 2 ^ n.
Proof.
  intros Hn. rewrite <- (Z.land_ones a n Hn). f_equal.
  rewrite Z.ones_equiv. lia.
Qed.

(** Writing a list over part of another. *)
Lemma inserts_middle {A} (l k : list A) i : (i + length k <= length l)%nat ->
  list_inserts i k l = take i l ++ k ++ drop (i + length k) l.
Proof.
  intros H. rewrite <- (take_drop i l) at 1.
  replace i with (length (take i l) + 0)%nat at 1 by (rewrite length_take; lia).
  rewrite list_inserts_app_r. f_equal.
  rewrite <- (take_drop (length k) (drop i l)), list_inserts_0_r, drop_drop; [done|].
  rewrite length_take, length_drop. lia.
Qed.

Lemma drop_inserts {A} (l k : list A) i n : (i + length k <= n)%nat ->
  drop n (list_inserts i k l) = drop n l.
Proof.
  intros H. apply list_eq. intros j. rewrite !lookup_drop. apply list_lookup_inserts_ge. lia.
Qed.

(** A property of bytes is decided by trying the 256 of them. *)
Lemma byte_forall (P : Z -> bool) :
  forallb P (seqZ 0 256) = true -> forall b, is_byte b -> P b = true.
Proof.
  intros H b Hb. rewrite forallb_forall in H. apply H.
  apply list_elem_of_In, elem_of_seqZ. unfold is_byte, in_u in Hb. lia.
Qed.

(** ** Ranges of bit operations *)

(** [in_range] proves that a machine-integer expression stays in its width. *)
Create HintDb in_range.

Lemma in_u_testbit w a : 0 <= w -> (in_u w a <-> 0 <= a /\ forall i, w <= i -> Z.testbit a i = false).
Proof.
  intros Hw. unfold in_u. split.
  - intros [H0 H1]. split; [done|]. intros i Hi.
    rewrite <- (Z.mod_small a (2 ^ w)) by lia. by apply Z.mod_pow2_bits_high.
  - intros [H0 H]. split; [done|].
    assert (a = a mod 2 ^ w) as ->; [|apply Z.mod_pos_bound; lia].
    apply Z.bits_inj'. intros i Hi. rewrite Z.testbit_mod_pow2 by done.
    destruct (decide (i < w)) as [Hlt|Hge].
    + by rewrite (proj2 (Z.ltb_lt i w)).
    + rewrite (proj2 (Z.ltb_ge i w)) by lia. rewrite H by lia. done.
Qed.

Lemma in_u_lxor w a b : 0 <= w -> in_u w a -> in_u w b -> in_u w (Z.lxor a b).
Proof.
  intros Hw. rewrite !in_u_testbit by done. intros [Ha Ha'] [Hb Hb']. split.
  - by apply Z.lxor_nonneg.
  - intros i Hi. by rewrite Z.lxor_spec, Ha', Hb'.
Qed.

Lemma in_u_lor w a b : 0 <= w -> in_u w a -> in_u w b -> in_u w (Z.lor a b).
Proof.
  intros Hw. rewrite !in_u_testbit by done. intros [Ha Ha'] [Hb Hb']. split.
  - by apply Z.lor_nonneg.
  - intros i Hi. by rewrite Z.lor_spec, Ha', Hb'.
Qed.

Lemma in_u_shiftr w a n : 0 <= n -> in_u w a -> in_u w (Z.shiftr a n).
Proof.
  unfold in_u. intros Hn H. rewrite Z.shiftr_div_pow2 by done.
  pose proof (Z.div_pos a (2 ^ n)). pose proof (Z.div_le_upper_bound a (2 ^ n) a).
  nia.
Qed.

Lemma in_u_weaken w w' a : 0 <= w <= w' -> in_u w a -> in_u w' a.
Proof. unfold in_u. intros Hw H. pose proof (Z.pow_le_mono_r 2 w w'). lia. Qed.

Lemma u64_range z : in_u 64 (u64 z).
Proof. by apply uwrap_range. Qed.
Lemma u32_range z : in_u 32 (u32 z).
Proof. by apply uwrap_range. Qed.

#[export] Hint Resolve in_u_lxor in_u_lor in_u_shiftr u64_range u32_range : in_range.
#[export] Hint Extern 1 (_ <= _) => lia : in_range.

Ltac in_range := eauto 20 with in_range.

(** Linear arithmetic with division and remainder by constants. *)
Ltac div_lia := Z.div_mod_to_equations; lia.

(** A closed decidable proposition is proved by evaluating its decision. *)
Ltac decided := apply (bool_decide_unpack _); vm_compute; exact I.
