(* ===== verification/Hmsg.v ===== *)
(** Hmsg: the message of the bus, [include/hmsg.h].

    The header [hmsg_t] is 32 bytes in memory, little-endian (x86-64 and
    aarch64, the targets of CMakeLists.txt; the unpack settings of both
    programs say [ENCODE_BY_LITTEL_ENDIAN]), followed by the payload (a flexible
    array member).  [hmsg_bytes] lays a message out, [hmsg_cast] is
    the cast of [buf] to [hmsg_t*].  The macros are definitions of the same name. *)

From S2P Require Import Prelude.

(** ** Constants *)

Definition HMSG_MAGIC : Z := 0x55AA.
Definition HMSG_APPID_BROKER : Z := 0xFFFE.
Definition HMSG_APPID_EVERYONR : Z := 0xFFFF.
Definition HMSG_FCMD_REGISTER : Z := 0x00.
Definition HMSG_FCMD_DATA : Z := 0x10.
Definition HMSG_FCMD_SUB : Z := 0x20.
Definition HMSG_FCMD_UNSUB : Z := 0x30.
Definition HMSG_FDATA_PUBSUB : Z := 0x00.
Definition HMSG_FDATA_REQUEST : Z := 0x01.
Definition HMSG_FDATA_REPOND : Z := 0x02.
Definition HMSG_MSGID_STATUS : Z := 0x0000.
Definition HMSG_PATLOAD_SIZE_MAX : Z := 1024 * 1024 * 64.

(** ** The message *)

Record hmsg_t := Hmsg {
  msg_magic : Z;          (* uint16_t *)
  msg_crc_head : Z;       (* uint16_t *)
  msg_version : Z;        (* uint8_t *)
  msg_flags : Z;          (* uint8_t *)
  msg_topic : Z;          (* uint16_t *)
  msg_from : Z;           (* uint16_t *)
  msg_to : Z;             (* uint16_t *)
  msg_seq : Z;            (* uint32_t *)
  msg_timestamp_us : Z;   (* uint64_t *)
  msg_crc_payload : Z;    (* uint32_t *)
  msg_payload_size : Z;   (* uint32_t *)
  msg_payload : list Z    (* char payload[] *)
}.

#[global] Instance hmsg_eq_dec : EqDecision hmsg_t.
Proof. solve_decision. Defined.

(** [sizeof(hmsg_t)] and [offsetof(hmsg_t, payload_size)]. *)
Definition sizeof_hmsg : Z := 32.
Definition offsetof_payload_size : Z := 28.

(** Every field is within the width of its C type. *)
Definition hmsg_wf (m : hmsg_t) : Prop :=
  in_u 16 (msg_magic m) /\ in_u 16 (msg_crc_head m) /\
  in_u 8 (msg_version m) /\ in_u 8 (msg_flags m) /\ in_u 16 (msg_topic m) /\
  in_u 16 (msg_from m) /\ in_u 16 (msg_to m) /\ in_u 32 (msg_seq m) /\
  in_u 64 (msg_timestamp_us m) /\ in_u 32 (msg_crc_payload m) /\
  in_u 32 (msg_payload_size m) /\ Forall is_byte (msg_payload m).

(** The members of the header in order, with their sizes: they need no
    padding. *)
Definition hmsg_fields (m : hmsg_t) : list (nat * Z) :=
  [(2, msg_magic m); (2, msg_crc_head m); (1, msg_version m); (1, msg_flags m);
   (2, msg_topic m); (2, msg_from m); (2, msg_to m); (4, msg_seq m);
   (8, msg_timestamp_us m); (4, msg_crc_payload m); (4, msg_payload_size m)]%nat.

(** The header in memory. *)
Definition hmsg_head (m : hmsg_t) : list Z := layout (hmsg_fields m).

Definition hmsg_bytes (m : hmsg_t) : list Z := hmsg_head m ++ msg_payload m.

(** The cast of [buf] to [hmsg_t*]: the fields as the memory at [buf] holds them.  [None]
    when the memory at [buf] ends within the header. *)
Definition hmsg_cast (buf : list Z) : option hmsg_t :=
  if decide (sizeof_hmsg <= Z.of_nat (length buf)) then
    Some (Hmsg (read_le 2 0 buf) (read_le 2 2 buf) (read_le 1 4 buf)
               (read_le 1 5 buf) (read_le 2 6 buf) (read_le 2 8 buf)
               (read_le 2 10 buf) (read_le 4 12 buf) (read_le 8 16 buf)
               (read_le 4 24 buf) (read_le 4 28 buf) (drop 32 buf))
  else None.

(** ** Macros *)

(** [HMSG_HEAD_VALID(msg,len)]; [len] is an [int], compared with [size_t]
    values after conversion and with the [int] constant before it. *)
Definition HMSG_HEAD_VALID (msg : hmsg_t) (len : Z) : bool :=
  (HMSG_MAGIC =? msg_magic msg) && (sizeof_hmsg <=? u64 len)
  && (len <=? HMSG_PATLOAD_SIZE_MAX)
  && (u64 len =? sizeof_hmsg + msg_payload_size msg).

Definition HMSG_FLAGS (FCMD FDATA : Z) : Z := Z.lor FCMD FDATA.
Definition HMSG_FLAGS_CMD (FLAGS : Z) : Z := Z.land FLAGS 0xF0.
Definition HMSG_FLAGS_DATA (FLAGS : Z) : Z := Z.land FLAGS 0x0F.

(** The value is an [int]; the shift of a version above 127 wraps, as gcc
    documents for a signed left shift. *)
Definition HMSG_TOPICEX (VER FLAGS TPC : Z) : Z :=
  s32 (Z.lor (Z.lor (Z.shiftl VER 24) (Z.shiftl FLAGS 16)) TPC).
Definition HMSG_TOPICEX_INMSG (msg : hmsg_t) : Z :=
  HMSG_TOPICEX (msg_version msg) (msg_flags msg) (msg_topic msg).

(** ** Layout lemmas *)

Lemma length_hmsg_head m : length (hmsg_head m) = 32%nat.
Proof. reflexivity. Qed.

Lemma length_hmsg_bytes m :
  Z.of_nat (length (hmsg_bytes m)) = sizeof_hmsg + Z.of_nat (length (msg_payload m)).
Proof. unfold hmsg_bytes. rewrite length_app, length_hmsg_head. unfold sizeof_hmsg. lia. Qed.

(** ** Round trips *)

(** Casting the bytes of a well-formed message gives the message back. *)
Lemma hmsg_cast_bytes (m : hmsg_t) :
  hmsg_wf m -> hmsg_cast (hmsg_bytes m) = Some m.
Proof.
  intros (H1 & H2 & H3 & H4 & H5 & H6 & H7 & H8 & H9 & H10 & H11 & _).
  unfold hmsg_cast.
  rewrite decide_True by (rewrite length_hmsg_bytes; unfold sizeof_hmsg; lia).
  pose proof (fun i w z => read_layout (hmsg_fields m) i w z (msg_payload m)) as R.
  unfold hmsg_bytes, hmsg_head.
  transitivity (Some (Hmsg (msg_magic m) (msg_crc_head m) (msg_version m) (msg_flags m)
    (msg_topic m) (msg_from m) (msg_to m) (msg_seq m) (msg_timestamp_us m)
    (msg_crc_payload m) (msg_payload_size m) (msg_payload m))); [|by destruct m].
  do 2 f_equal;
    [ exact (R 0%nat _ _ eq_refl H1) | exact (R 1%nat _ _ eq_refl H2)
    | exact (R 2%nat _ _ eq_refl H3) | exact (R 3%nat _ _ eq_refl H4)
    | exact (R 4%nat _ _ eq_refl H5) | exact (R 5%nat _ _ eq_refl H6)
    | exact (R 6%nat _ _ eq_refl H7) | exact (R 7%nat _ _ eq_refl H8)
    | exact (R 8%nat _ _ eq_refl H9) | exact (R 9%nat _ _ eq_refl H10)
    | exact (R 10%nat _ _ eq_refl H11) ].
Qed.

Lemma hmsg_cast_wf (buf : list Z) (m : hmsg_t) :
  Forall is_byte buf -> hmsg_cast buf = Some m -> hmsg_wf m.
Proof.
  intros Hb. unfold hmsg_cast. case_decide as Hl; [|done]. intros [= <-].
  unfold sizeof_hmsg in Hl. unfold hmsg_wf; cbn [msg_magic msg_crc_head msg_version msg_flags
    msg_topic msg_from msg_to msg_seq msg_timestamp_us msg_crc_payload msg_payload_size msg_payload].
  pose proof (fun w off => read_le_range w off buf Hb) as R.
  split_and!;
    [ apply (R 2 0)%nat | apply (R 2 2)%nat | apply (R 1 4)%nat | apply (R 1 5)%nat
    | apply (R 2 6)%nat | apply (R 2 8)%nat | apply (R 2 10)%nat | apply (R 4 12)%nat
    | apply (R 8 16)%nat | apply (R 4 24)%nat | apply (R 4 28)%nat | by apply Forall_drop ]; lia.
Qed.

(** Conversely the bytes of the message read from a buffer are the buffer. *)
Lemma hmsg_bytes_cast (buf : list Z) (m : hmsg_t) :
  Forall is_byte buf -> hmsg_cast buf = Some m -> hmsg_bytes m = buf.
Proof.
  intros Hb. unfold hmsg_cast. case_decide as Hl; [|done]. intros [= <-].
  unfold hmsg_bytes, hmsg_head, sizeof_hmsg in *.
  change (hmsg_fields _) with (reads 0 [2;2;1;1;2;2;2;4;8;4;4]%nat buf).
  rewrite layout_reads by (done || (simpl; lia)).
  apply take_drop.
Qed.


(** ** The checks on a received message *)

(** [HMSG_HEAD_VALID] accepts a buffer exactly when the magic matches, the
    buffer is at most 64 MiB and its length is the header plus the announced
    payload; then the payload bytes the handlers read are the bytes that follow
    the header, none missing and none left over. *)
Theorem head_valid_frame (buf : list Z) (m : hmsg_t) (len : Z) :
  hmsg_cast buf = Some m -> len = Z.of_nat (length buf) -> len < 2 ^ 31 ->
  HMSG_HEAD_VALID m len = true <->
  msg_magic m = HMSG_MAGIC /\ len <= HMSG_PATLOAD_SIZE_MAX /\
  Z.of_nat (length (msg_payload m)) = msg_payload_size m.
Proof.
  unfold hmsg_cast. case_decide as Hl; [|done]. intros [= <-] -> Hlt.
  unfold HMSG_HEAD_VALID, sizeof_hmsg in *. cbn -[read_le].
  rewrite length_drop. unfold u64. rewrite uwrap_small by (unfold in_u; lia).
  rewrite !andb_true_iff, !Z.eqb_eq, !Z.leb_le. lia.
Qed.

(** A message as a sender builds it: the magic, and a payload of the announced
    size within the limit. *)
Definition hmsg_frame (m : hmsg_t) : Prop :=
  hmsg_wf m /\ msg_magic m = HMSG_MAGIC /\
  Z.of_nat (length (msg_payload m)) = msg_payload_size m /\
  sizeof_hmsg + msg_payload_size m <= HMSG_PATLOAD_SIZE_MAX.

#[export] Instance is_byte_dec b : Decision (is_byte b).
Proof. unfold is_byte. apply _. Defined.
#[export] Instance hmsg_wf_dec m : Decision (hmsg_wf m).
Proof. unfold hmsg_wf. apply _. Defined.
#[export] Instance hmsg_frame_dec m : Decision (hmsg_frame m).
Proof. unfold hmsg_frame. apply _. Defined.

Lemma hmsg_frame_valid m :
  hmsg_frame m -> HMSG_HEAD_VALID m (Z.of_nat (length (hmsg_bytes m))) = true.
Proof.
  intros (_ & Hm & Hp & Hmax). unfold HMSG_HEAD_VALID. rewrite length_hmsg_bytes, Hm, Hp.
  unfold HMSG_PATLOAD_SIZE_MAX, sizeof_hmsg in *. unfold u64.
  rewrite uwrap_small by (unfold in_u; lia).
  rewrite !andb_true_iff, !Z.eqb_eq, !Z.leb_le. lia.
Qed.

Lemma hmsg_bytes_bytes m : hmsg_wf m -> Forall is_byte (hmsg_bytes m).
Proof.
  intros Hm. unfold hmsg_bytes. apply Forall_app. split; [|by apply Hm].
  unfold hmsg_head, layout. apply Forall_bind, Forall_true. intros f. apply le_bytes_bytes.
Qed.

(** A negative or oversized [readbytes] is refused whatever the bytes say. *)
Lemma head_valid_bounds m len :
  - 2 ^ 31 <= len < 2 ^ 31 -> HMSG_HEAD_VALID m len = true ->
  0 <= msg_payload_size m < 2 ^ 32 -> sizeof_hmsg <= len <= HMSG_PATLOAD_SIZE_MAX.
Proof.
  intros Hr H Hp. unfold HMSG_HEAD_VALID in H.
  rewrite !andb_true_iff, !Z.eqb_eq, !Z.leb_le in H.
  destruct H as [[[_ H1] H2] H3]. unfold sizeof_hmsg in *.
  destruct (decide (0 <= len)) as [Hn|Hn].
  - unfold u64 in *. rewrite uwrap_small in * by (unfold in_u; lia). lia.
  - exfalso. assert (u64 len = len + 2 ^ 64) as E; [|lia].
    unfold u64, uwrap. rewrite <- (Z.mod_add len 1) by lia. apply Z.mod_small. lia.
Qed.

(** ** Topic keys *)

Lemma topicex_sum ver flags tpc :
  in_u 8 flags -> in_u 16 tpc ->
  HMSG_TOPICEX ver flags tpc = s32 (ver * 2 ^ 24 + flags * 2 ^ 16 + tpc).
Proof.
  unfold in_u. intros Hf Ht. unfold HMSG_TOPICEX. f_equal.
  replace (Z.lor (Z.shiftl ver 24) (Z.shiftl flags 16))
    with (Z.shiftl (ver * 2 ^ 8 + flags) 16).
  - rewrite lor_shiftl_add by lia. lia.
  - rewrite <- (lor_shiftl_add ver flags 8), Z.shiftl_lor, Z.shiftl_shiftl by lia. done.
Qed.

(** With version 0 and flags below 128 the key is the plain number. *)
Lemma topicex_v0 flags tpc :
  0 <= flags < 128 -> in_u 16 tpc -> HMSG_TOPICEX 0 flags tpc = flags * 2 ^ 16 + tpc.
Proof.
  intros Hf Ht. rewrite topicex_sum by (unfold in_u in *; lia).
  unfold s32. rewrite swrap_small; unfold in_s, in_u in *; lia.
Qed.

Lemma topicex_range ver flags tpc : in_s 32 (HMSG_TOPICEX ver flags tpc).
Proof. by apply swrap_range. Qed.

Lemma topicex_inmsg_range m : in_s 32 (HMSG_TOPICEX_INMSG m).
Proof. exact (topicex_range (msg_version m) (msg_flags m) (msg_topic m)). Qed.

(** Two messages have the same topic key only when version, flags and topic
    agree. *)
Lemma topicex_inj ver ver' flags flags' tpc tpc' :
  in_u 8 ver -> in_u 8 flags -> in_u 16 tpc ->
  in_u 8 ver' -> in_u 8 flags' -> in_u 16 tpc' ->
  HMSG_TOPICEX ver flags tpc = HMSG_TOPICEX ver' flags' tpc' ->
  ver = ver' /\ flags = flags' /\ tpc = tpc'.
Proof.
  intros Hv Hf Ht Hv' Hf' Ht' H. rewrite !topicex_sum in H by done.
  unfold in_u in *.
  assert (ver * 2 ^ 24 + flags * 2 ^ 16 + tpc = ver' * 2 ^ 24 + flags' * 2 ^ 16 + tpc') as E.
  { apply (f_equal (uwrap 32)) in H. unfold s32 in H.
    rewrite !uwrap_swrap in H by lia. rewrite !uwrap_small in H by (unfold in_u; lia). done. }
  lia.
Qed.

(** The flags of a subscription key: the data kind with the [DATA] command. *)
Lemma flags_data_byte flags : in_u 8 flags -> 0 <= HMSG_FLAGS_DATA flags < 16.
Proof. intros H. unfold HMSG_FLAGS_DATA. change 0x0F with (2 ^ 4 - 1).
  rewrite land_mask by lia. apply Z.mod_pos_bound. lia. Qed.

Lemma flags_sub_range flags :
  in_u 8 flags -> 16 <= HMSG_FLAGS HMSG_FCMD_DATA (HMSG_FLAGS_DATA flags) < 32.
Proof.
  intros H. assert (((16 <=? HMSG_FLAGS HMSG_FCMD_DATA (HMSG_FLAGS_DATA flags))
    && (HMSG_FLAGS HMSG_FCMD_DATA (HMSG_FLAGS_DATA flags) <? 32)) = true) as E.
  { revert flags H. by apply byte_forall. }
  rewrite andb_true_iff in E. lia.
Qed.

Lemma flags_cmd_sub flags :
  HMSG_FLAGS_CMD flags = HMSG_FCMD_SUB -> Z.land HMSG_FCMD_SUB flags <> 0.
Proof.
  unfold HMSG_FLAGS_CMD. intros H E.
  assert (Z.land (Z.land flags 0xF0) HMSG_FCMD_SUB = 0) as E'; [|by rewrite H in E'].
  by rewrite <- Z.land_assoc, (Z.land_comm flags).
Qed.

(** The key that a subscription is kept under. *)
Lemma topicex_data_range flags tpc :
  in_u 8 flags -> in_u 16 tpc ->
  0 <= HMSG_TOPICEX 0 (u8 (HMSG_FLAGS HMSG_FCMD_DATA (HMSG_FLAGS_DATA flags))) tpc < 2 ^ 31.
Proof.
  intros Hf Ht. pose proof (flags_sub_range flags Hf) as Hr.
  unfold u8. rewrite uwrap_small by (unfold in_u; lia).
  rewrite topicex_v0 by (lia || done). unfold in_u in Ht. lia.
Qed.

(** The topic key of a message, [HMSG_TOPICEX] as a 32-bit [int], identifies
    version, flags and topic: it loses nothing, even where the version byte makes
    it negative; and a subscription to (data kind, topic) is kept under exactly
    the key of the version-0 data messages with that kind and topic. *)
Theorem topic_key_exact (ver flags tpc flags' tpc' : Z) :
  in_u 8 ver -> in_u 8 flags -> in_u 16 tpc -> in_u 8 flags' -> in_u 16 tpc' ->
  HMSG_TOPICEX ver flags tpc
    = HMSG_TOPICEX 0 (u8 (HMSG_FLAGS HMSG_FCMD_DATA (HMSG_FLAGS_DATA flags'))) tpc' <->
  ver = 0 /\ flags = HMSG_FLAGS HMSG_FCMD_DATA (HMSG_FLAGS_DATA flags') /\ tpc = tpc'.
Proof.
  intros Hv Hf Ht Hf' Ht'. pose proof (flags_sub_range flags' Hf') as Hr.
  set (k := HMSG_FLAGS HMSG_FCMD_DATA (HMSG_FLAGS_DATA flags')) in *.
  assert (in_u 8 k) as Hk by (unfold in_u; lia). unfold u8. rewrite (uwrap_small 8 k Hk). split.
  - by apply topicex_inj.
  - by intros (-> & -> & ->).
Qed.

(** ** Witnesses *)

Definition sample_msg : hmsg_t := Hmsg HMSG_MAGIC 0 0 0x10 5 7 8 3 0 0 3 [1; 2; 255].


Lemma head_valid_frame_witness : HMSG_HEAD_VALID sample_msg 35 = true.
Proof.
  apply (head_valid_frame (hmsg_bytes sample_msg) sample_msg 35);
    [decided|reflexivity|reflexivity|].
  split; [reflexivity|]. split; [discriminate|reflexivity].
Defined.

Lemma topic_key_exact_witness :
  HMSG_TOPICEX 200 16 5 <> HMSG_TOPICEX 0 (u8 (HMSG_FLAGS HMSG_FCMD_DATA (HMSG_FLAGS_DATA 32))) 5.
Proof.
  intros E. apply (topic_key_exact 200 16 5 32 5) in E; [|decided..].
  destruct E as [E _]. discriminate.
Defined.
