(* ===== verification/Hbuf.v ===== *)
(** Hbuf: the growable byte buffer of hcore, [3rd/include/hcore/hbuf.h].

    The functions [hbuf_init] ... [hbuf_clear] are compiled code (the sources of
    hcore are not in the repository): they are the fields of the class [HBuf],
    and what the callers rely on is the class [HBufSpec] (and [HBufTotal] where
    memory must not run out).  The macros of the header, which look at the
    [len] and [data] members directly, are definitions over the class.
    [list_hbuf] is an instance that satisfies both: the hypotheses can hold. *)

From S2P Require Import Prelude.

(** Return codes of hcore ([hdef.h]). *)
Definition HC_RET_OK : Z := 0.
Definition HC_RET_NOTFOUND : Z := 3.
Definition HC_RET_MALLOC : Z := 5.

(** ** The interface *)

(** [hbuf_data b] is the memory [b->data[0 .. b->len)]. A function that takes a
    [hbuf_t*] returns its code and the buffer after the call. *)
Class HBuf := {
  hbuf_t : Type;
  hbuf_data : hbuf_t -> list Z;
  hbuf_live : hbuf_t -> Prop;       (* initialised and not finalised *)
  hbuf_init : Z -> Z * hbuf_t;
  hbuf_fini : hbuf_t -> Z * hbuf_t;
  hbuf_push : hbuf_t -> list Z -> Z * hbuf_t;
  hbuf_remove : hbuf_t -> Z -> Z -> Z * hbuf_t;
  hbuf_clear : hbuf_t -> Z * hbuf_t
}.

(** What each function does to the bytes: [hbuf_push] appends (or fails and
    leaves the bytes alone), [hbuf_remove b index dSize] closes the gap of the
    [index]-th item of size [dSize]. *)
Class HBufSpec (HB : HBuf) : Prop := {
  hbuf_init_spec s b : hbuf_init s = (HC_RET_OK, b) -> hbuf_live b /\ hbuf_data b = [];
  hbuf_push_spec b d r b' :
    hbuf_live b -> hbuf_push b d = (r, b') ->
    hbuf_live b' /\
    ((r = HC_RET_OK /\ hbuf_data b' = hbuf_data b ++ d) \/
     (r <> HC_RET_OK /\ hbuf_data b' = hbuf_data b));
  hbuf_remove_spec b (i w n : nat) :
    hbuf_live b -> (0 < w)%nat -> length (hbuf_data b) = (n * w)%nat -> (i < n)%nat ->
    exists b', hbuf_remove b (Z.of_nat i) (Z.of_nat w) = (HC_RET_OK, b') /\ hbuf_live b' /\
      hbuf_data b' = take (i * w) (hbuf_data b) ++ drop (S i * w) (hbuf_data b);
  hbuf_clear_spec b : hbuf_live b ->
    hbuf_live (hbuf_clear b).2 /\ hbuf_data (hbuf_clear b).2 = []
}.

(** Memory does not run out: initialisation and a push of at least one byte
    succeed. *)
Class HBufTotal (HB : HBuf) : Prop := {
  hbuf_init_total s : 0 <= s <= 2 ^ 30 -> (hbuf_init s).1 = HC_RET_OK;
  hbuf_push_total b d : hbuf_live b -> d <> [] -> (hbuf_push b d).1 = HC_RET_OK
}.

(** ** The macros of the header *)

Section macros.
Context {HB : HBuf}.

Definition hbuf_len (b : hbuf_t) : Z := Z.of_nat (length (hbuf_data b)).

(** [HBUF_ITEM_COUNT(BUF,TYPE)], with [w = sizeof(TYPE)]. *)
Definition HBUF_ITEM_COUNT (b : hbuf_t) (w : nat) : nat :=
  (length (hbuf_data b) / w)%nat.

(** Reading through [HBUF_ITEM_AT(BUF,TYPE,INDEX)] for a [TYPE] of [w] bytes;
    unsigned, the callers convert. *)
Definition HBUF_ITEM_AT (b : hbuf_t) (w i : nat) : Z :=
  read_le w (i * w) (hbuf_data b).

(** The pointer macros: [sizeof(intptr_t)] is 8. *)
Definition HBUF_PTR_COUNT (b : hbuf_t) : nat := HBUF_ITEM_COUNT b 8.
Definition HBUF_PTR_AT (b : hbuf_t) (i : nat) : Z := HBUF_ITEM_AT b 8 i.
Definition HBUF_PTR_PUSH (b : hbuf_t) (ptr : Z) : Z * hbuf_t := hbuf_push b (le_bytes 8 ptr).

(** [holds w b xs]: the live buffer [b] holds exactly the items [xs], each
    [w] bytes wide. *)
Definition holds (w : nat) (b : hbuf_t) (xs : list Z) : Prop :=
  hbuf_live b /\ hbuf_data b = cells w xs /\ Forall (in_u (8 * Z.of_nat w)) xs.
End macros.

(** ** An instance: a buffer is its list of bytes *)

Record lbuf := LBuf { lb_live : bool; lb_data : list Z }.

#[export] Instance list_hbuf : HBuf := {
  hbuf_t := lbuf;
  hbuf_data := lb_data;
  hbuf_live b := lb_live b = true;
  hbuf_init _ := (HC_RET_OK, LBuf true []);
  hbuf_fini _ := (HC_RET_OK, LBuf false []);
  hbuf_push b d :=
    if lb_live b && negb (bool_decide (d = []))
    then (HC_RET_OK, LBuf true (lb_data b ++ d)) else (0xF0, b);
  hbuf_remove b i w :=
    if lb_live b && (0 <? w) && ((i + 1) * w <=? Z.of_nat (length (lb_data b)))
    then (HC_RET_OK, LBuf true (take (Z.to_nat (i * w)) (lb_data b)
                                ++ drop (Z.to_nat ((i + 1) * w)) (lb_data b)))
    else (0xF0, b);
  hbuf_clear b := (HC_RET_OK, LBuf (lb_live b) [])
}.

#[export] Instance list_hbuf_spec : HBufSpec list_hbuf.
Proof.
  split; cbn.
  - by intros s b [= <-].
  - intros b d r b' Hl. rewrite Hl. simpl. case_bool_decide; simpl; intros [= <- <-].
    + split; [done|]. right. split; [done|reflexivity].
    + split; [done|]. left. split; reflexivity.
  - intros [lv dt] i w n Hl Hw Hlen Hi. cbn in *. subst lv.
    assert (((0 <? Z.of_nat w) && ((Z.of_nat i + 1) * Z.of_nat w <=? Z.of_nat (length dt))) = true)
      as E by (rewrite andb_true_iff, Z.ltb_lt, Z.leb_le; nia).
    rewrite andb_true_l, E. eexists; split; [done|]. split; [done|]. cbn.
    do 2 f_equal; lia.
  - intros b Hb. split; [exact Hb|reflexivity].
Qed.

#[export] Instance list_hbuf_total : HBufTotal list_hbuf.
Proof.
  split; [done|]. intros b d Hl Hd. cbn in *. rewrite Hl.
  by rewrite bool_decide_false.
Qed.

(** ** Buffers of items *)

Section items.
Context {HB : HBuf} {HS : HBufSpec HB}.
Implicit Types (b : hbuf_t) (xs : list Z).

Lemma holds_count w b xs :
  (0 < w)%nat -> holds w b xs -> HBUF_ITEM_COUNT b w = length xs.
Proof.
  intros Hw (_ & Hd & _). unfold HBUF_ITEM_COUNT. rewrite Hd, length_cells.
  rewrite Nat.mul_comm. apply Nat.div_mul. lia.
Qed.

Lemma holds_at w b xs i x :
  holds w b xs -> xs !! i = Some x -> HBUF_ITEM_AT b w i = x.
Proof.
  intros (_ & Hd & Hr) Hi. unfold HBUF_ITEM_AT. rewrite Hd. apply read_cell; [done|].
  rewrite Forall_lookup in Hr. specialize (Hr i x Hi). unfold in_u in Hr.
  rewrite Z.pow_mul_r in Hr by lia. exact Hr.
Qed.

Lemma holds_inj w b xs ys : (0 < w)%nat -> holds w b xs -> holds w b ys -> xs = ys.
Proof.
  intros Hw Hx Hy. apply list_eq_same_length with (length xs); [|done|].
  { by rewrite <- (holds_count w b xs), <- (holds_count w b ys). }
  intros i x y _ H1 H2. rewrite <- (holds_at w b xs i x), <- (holds_at w b ys i y); done.
Qed.

(** The search loop [for (i...) if (item == x) break] over a buffer. *)
Lemma holds_find w b xs x :
  (0 < w)%nat -> holds w b xs -> 
  for_find (HBUF_ITEM_COUNT b w) 0 (fun i => HBUF_ITEM_AT b w i =? x)
  = fst <$> list_find (fun y => y = x) xs.
Proof.
  intros Hw Hh. rewrite (holds_count w b xs) by done.
  destruct (for_find _ _ _) as [i|] eqn:E.
  - apply for_find_Some in E as (H1 & H2 & H3).
    destruct (lookup_lt_is_Some_2 xs i) as [y Hy]; [lia|].
    rewrite (holds_at w b xs i y) in H2 by done. apply Z.eqb_eq in H2 as ->.
    enough (list_find (fun y => y = x) xs = Some (i, x)) as -> by done.
    apply list_find_Some. split_and!; [done..|]. intros j z Hj Hlt ->.
    specialize (H3 j ltac:(lia)). by rewrite (holds_at w b xs j x), Z.eqb_refl in H3.
  - assert (list_find (fun y => y = x) xs = None) as ->; [|done].
    apply list_find_None, Forall_lookup. intros j z Hj ->.
    rewrite for_find_None in E. apply lookup_lt_Some in Hj as Hlt.
    specialize (E j ltac:(lia)). by rewrite (holds_at w b xs j x), Z.eqb_refl in E.
Qed.

Lemma holds_nil w s b : hbuf_init s = (HC_RET_OK, b) -> holds w b [].
Proof. intros H. apply hbuf_init_spec in H as [Hl Hd]. split_and!; [done|done|constructor]. Qed.

Lemma holds_clear w b xs : holds w b xs -> holds w (hbuf_clear b).2 [].
Proof. intros (Hl & _). apply hbuf_clear_spec in Hl as [Hl Hd]. split_and!; [done|done|constructor]. Qed.

Lemma holds_push {HT : HBufTotal HB} w b xs x :
  (0 < w)%nat -> holds w b xs -> in_u (8 * Z.of_nat w) x ->
  exists b', hbuf_push b (le_bytes w x) = (HC_RET_OK, b') /\ holds w b' (xs ++ [x]).
Proof.
  intros Hw (Hl & Hd & Hr) Hx.
  pose proof (hbuf_push_total b (le_bytes w x) Hl) as Hok.
  destruct (hbuf_push b (le_bytes w x)) as [r b'] eqn:E; simpl in Hok.
  destruct (hbuf_push_spec _ _ _ _ Hl E) as [Hl' Hc].
  assert (r = HC_RET_OK) as ->. { apply Hok. by destruct w; [lia|]. }
  destruct Hc as [[_ Hd']|[? _]]; [|done].
  exists b'. split; [done|]. split_and!; [done| |].
  - by rewrite Hd', Hd, cells_app, cells_singleton.
  - apply Forall_app; split; [done|]. by constructor.
Qed.

Lemma holds_remove w b xs i :
  (0 < w)%nat -> holds w b xs -> (i < length xs)%nat ->
  exists b', hbuf_remove b (Z.of_nat i) (Z.of_nat w) = (HC_RET_OK, b') /\
    holds w b' (delete i xs).
Proof.
  intros Hw (Hl & Hd & Hr) Hi.
  destruct (hbuf_remove_spec b i w (length xs)) as (b' & E & Hl' & Hd'); [done|done| |done|].
  { rewrite Hd, length_cells. lia. }
  exists b'. split; [done|]. split_and!; [done| |].
  - rewrite Hd', Hd, cells_take, cells_drop, <- cells_app. by rewrite delete_take_drop.
  - rewrite delete_take_drop. apply Forall_app; split; [by apply Forall_take | by apply Forall_drop].
Qed.
End items.
