(* ===== verification/Hhash.v ===== *)
(** Hhash: the integer-keyed hash map of hcore, [3rd/include/hcore/hhash.h].

    The macros [HIHASH_*] of the header are thin names for the [hm*] macros of
    stb_ds.  Broker and node see a map only through them, so this file states
    them as an interface: the class [HIHash] has one field per macro and
    [HIHashSpec] says what each does to the map's array of (key, value) entries,
    in the order the array has them (iteration and [hnode_on_status] expose the
    order).  StbInstance.v discharges the class with the stb_ds table itself.
    The second half derives what the clients use: the map as a [gmap]. *)

From S2P Require Import Prelude.

(** Swap-delete: the last entry moves into the gap. *)
Definition swap_delete {A} (n : nat) (l : list A) : list A :=
  match last l with
  | Some x => if decide (S n = length l) then take n l
              else <[n := x]> (take (length l - 1) l)
  | None => l
  end.

(** The index of a key in the array of entries. *)
Definition key_index {K V} `{EqDecision K} (k : K) (l : list (K * V)) : option nat :=
  fst <$> list_find (fun kv => kv.1 = k) l.

(** ** The interface *)

(** [hhash V] is the C handle [t] (possibly NULL) with everything it points to.
    [hmgeti] and [hmdel] assign to [t], so they return the handle too. *)
Class HIHash := {
  hhash : Type -> Type;
  hh_view {V} : hhash V -> list (Z * V);     (* t[0 .. hmlen(t)) *)
  hh_ok {V} : hhash V -> Prop;               (* well formed *)
  HIHASH_INIT {V} : hhash V;                 (* h = NULL *)
  HIHASH_SIZE {V} : hhash V -> Z;            (* hmlen *)
  HIHASH_FIND {V} : hhash V -> Z -> res (Z * hhash V);     (* hmgeti *)
  HIHASH_SET {V} : hhash V -> Z -> V -> res (hhash V);     (* hmput *)
  HIHASH_DEL {V} : hhash V -> Z -> res (hhash V);          (* hmdel *)
  hh_at {V} : hhash V -> Z -> option (Z * V);              (* h[it] *)
  hh_store {V} : hhash V -> Z -> V -> hhash V              (* *(&h[it].value) = v *)
}.

(** Keys are [int32_t]: the laws are for keys in that range. *)
Class HIHashSpec (HH : HIHash) : Prop := {
  hh_init_ok V : hh_ok (V := V) HIHASH_INIT;
  hh_init_view V : hh_view (V := V) HIHASH_INIT = [];
  hh_keys V (h : hhash V) : hh_ok h -> NoDup (hh_view h).*1 /\ Forall (in_s 32) (hh_view h).*1;
  hh_size V (h : hhash V) : hh_ok h -> HIHASH_SIZE h = Z.of_nat (length (hh_view h));
  hh_find V (h : hhash V) k : hh_ok h -> in_s 32 k ->
    exists h', HIHASH_FIND h k = Ok (from_option Z.of_nat (-1) (key_index k (hh_view h)), h') /\
      hh_ok h' /\ hh_view h' = hh_view h;
  hh_set V (h : hhash V) k v : hh_ok h -> in_s 32 k ->
    exists h', HIHASH_SET h k v = Ok h' /\ hh_ok h' /\
      hh_view h' = match key_index k (hh_view h) with
                   | Some n => <[n := (k, v)]> (hh_view h)
                   | None => hh_view h ++ [(k, v)]
                   end;
  hh_del V (h : hhash V) k : hh_ok h -> in_s 32 k ->
    exists h', HIHASH_DEL h k = Ok h' /\ hh_ok h' /\
      hh_view h' = match key_index k (hh_view h) with
                   | Some n => swap_delete n (hh_view h)
                   | None => hh_view h
                   end;
  hh_at_spec V (h : hhash V) (n : nat) : hh_ok h -> hh_at h (Z.of_nat n) = hh_view h !! n;
  hh_store_spec V (h : hhash V) (n : nat) k v v' : hh_ok h -> hh_view h !! n = Some (k, v) ->
    hh_ok (hh_store h (Z.of_nat n) v') /\
    hh_view (hh_store h (Z.of_nat n) v') = <[n := (k, v')]> (hh_view h)
}.

(** ** The iteration macros *)

Section macros.
Context {HH : HIHash} {V : Type}.

Definition HIHASH_ITERATE_VALID (h : hhash V) (IT : Z) : bool :=
  (0 <=? IT) && (IT <? HIHASH_SIZE h).
Definition HIHASH_ITERATE_BEGIN (h : hhash V) : Z := 0.
Definition HIHASH_ITERATE_NEXT (IT : Z) : Z := IT + 1.
Definition HIHASH_GETK (h : hhash V) (it : Z) : option Z := fst <$> hh_at h it.
Definition HIHASH_GETV (h : hhash V) (it : Z) : option V := snd <$> hh_at h it.
End macros.

Definition HC_NOTFOUND : Z := 3.

(** [HIHASH_EXIST(h,k)]: [HC_RET_OK] when the key is present. *)
Definition HIHASH_EXIST {HH : HIHash} {V} (h : hhash V) (k : Z) : res (Z * hhash V) :=
  match HIHASH_FIND h k with
  | Ok (i, h') => Ok (if 0 <=? i then 0 else HC_NOTFOUND, h')
  | Fault f => Fault f
  end.

(** ** Lists of entries *)

Lemma key_index_Some {K V} `{EqDecision K} (k : K) (l : list (K * V)) n :
  key_index k l = Some n -> exists v, l !! n = Some (k, v).
Proof.
  unfold key_index. intros H. apply fmap_Some in H as ([i [k' v]] & H & ->).
  apply list_find_Some in H as (H1 & H2 & _). simpl in *. subst. eauto.
Qed.

Lemma key_index_None {K V} `{EqDecision K} (k : K) (l : list (K * V)) : key_index k l = None <-> k ∉ l.*1.
Proof.
  unfold key_index. rewrite fmap_None, list_find_None, Forall_forall. split.
  - intros H Hin. apply list_elem_of_fmap in Hin as ([k' v] & -> & Hin).
    by apply (H _ Hin).
  - intros H [k' v] Hin E. simpl in E. subst k'. apply H, list_elem_of_fmap.
    by exists (k, v).
Qed.

Lemma key_index_lookup {K V} `{EqDecision K} (k : K) (v : V) (l : list (K * V)) n :
  NoDup l.*1 -> l !! n = Some (k, v) -> key_index k l = Some n.
Proof.
  intros Hnd Hn. destruct (key_index k l) as [m|] eqn:E.
  - apply key_index_Some in E as [v' Hm]. f_equal.
    eapply NoDup_lookup; [done| |]; by rewrite list_lookup_fmap, ?Hm, ?Hn.
  - apply key_index_None in E. exfalso. apply E. apply list_elem_of_fmap.
    exists (k, v). split; [done|]. by eapply list_elem_of_lookup_2.
Qed.

Lemma Permutation_insert_swap {A} (l : list A) n x y :
  l !! n = Some x -> y :: l ≡ₚ x :: <[n := y]> l.
Proof.
  intros Hn. apply lookup_lt_Some in Hn as Hlt.
  rewrite insert_take_drop by done. rewrite <- (take_drop_middle l n x Hn) at 1.
  rewrite <- !Permutation_middle. apply perm_swap.
Qed.

Lemma swap_delete_perm {A} (l : list A) n x :
  l !! n = Some x -> l ≡ₚ x :: swap_delete n l.
Proof.
  intros Hn. unfold swap_delete.
  destruct (last l) as [y|] eqn:E; [|by apply last_None in E as ->].
  apply last_Some in E as [l' ->].
  rewrite length_app in *; simpl. replace (length l' + 1 - 1)%nat with (length l') by lia.
  case_decide as Hd.
  - assert (n = length l') as -> by lia.
    rewrite take_app_length. rewrite lookup_app_r, Nat.sub_diag in Hn by lia.
    simplify_eq/=. by rewrite Permutation_app_comm.
  - apply lookup_lt_Some in Hn as Hlt. rewrite length_app in Hlt; simpl in Hlt.
    rewrite take_app_length. rewrite lookup_app_l in Hn by lia.
    rewrite (Permutation_app_comm l' [y]); simpl.
    by apply (Permutation_insert_swap l' n x y).
Qed.

(** ** Entries as a finite map *)

Section entries_map.
Context {K V : Type} `{Countable K}.
Implicit Types (l : list (K * V)) (k : K) (v : V).

Lemma list_to_map_insert_at l n k v v0 :
  NoDup l.*1 -> l !! n = Some (k, v0) ->
  (list_to_map (<[n := (k, v)]> l) : gmap K V) = <[k := v]> (list_to_map l).
Proof.
  intros Hnd Hn. apply lookup_lt_Some in Hn as Hlt.
  assert ((<[n := (k, v)]> l).*1 = l.*1) as Hf.
  { rewrite list_fmap_insert. apply list_insert_id. by rewrite list_lookup_fmap, Hn. }
  assert (l ≡ₚ (k, v0) :: delete n l) as Hp by by apply delete_Permutation.
  assert (<[n := (k, v)]> l ≡ₚ (k, v) :: delete n l) as Hp'.
  { rewrite insert_take_drop, delete_take_drop, Permutation_middle by done. done. }
  rewrite (list_to_map_proper l _ Hnd Hp).
  rewrite (list_to_map_proper (<[n := (k, v)]> l) ((k, v) :: delete n l)); [|by rewrite Hf|done].
  simpl. by rewrite insert_insert_eq.
Qed.

(** [hmput]: in place, or at the end. *)
Lemma list_to_map_put l k v : NoDup l.*1 ->
  (list_to_map match key_index k l with
               | Some n => <[n := (k, v)]> l
               | None => l ++ [(k, v)]
               end : gmap K V) = <[k := v]> (list_to_map l).
Proof.
  intros Hnd. destruct (key_index k l) as [n|] eqn:Ek.
  - apply key_index_Some in Ek as [v0 Hn]. by eapply list_to_map_insert_at.
  - apply key_index_None in Ek. rewrite list_to_map_app. simpl.
    rewrite insert_empty. symmetry. apply insert_union_singleton_r.
    by apply not_elem_of_list_to_map.
Qed.

(** [hmdel]. *)
Lemma list_to_map_del l k : NoDup l.*1 ->
  (list_to_map match key_index k l with
               | Some n => swap_delete n l
               | None => l
               end : gmap K V) = delete k (list_to_map l).
Proof.
  intros Hnd. destruct (key_index k l) as [n|] eqn:Ek.
  - apply key_index_Some in Ek as [v0 Hn].
    apply swap_delete_perm in Hn as Hp.
    rewrite (list_to_map_proper l _ Hnd Hp). simpl.
    rewrite delete_insert_id; [done|].
    apply not_elem_of_list_to_map. rewrite Hp in Hnd. by apply NoDup_cons in Hnd as [? _].
  - rewrite delete_id; [done|]. apply key_index_None in Ek.
    by apply not_elem_of_list_to_map.
Qed.

(** [hmgeti]. *)
Lemma list_to_map_get l k : NoDup l.*1 ->
  match key_index k l with
  | Some n => exists v, l !! n = Some (k, v) /\ (list_to_map l : gmap K V) !! k = Some v
  | None => (list_to_map l : gmap K V) !! k = None
  end.
Proof.
  intros Hnd. destruct (key_index k l) as [n|] eqn:Ek.
  - apply key_index_Some in Ek as [v Hn]. exists v. split; [done|].
    apply elem_of_list_to_map; [done|]. by eapply list_elem_of_lookup_2.
  - by apply not_elem_of_list_to_map, key_index_None.
Qed.
End entries_map.

(** ** The map as a finite map *)

Section as_gmap.
Context {HH : HIHash} {HHS : HIHashSpec HH} {V : Type}.
Implicit Types (h : hhash V) (k : Z) (v : V).

Definition hh_map h : gmap Z V := list_to_map (hh_view h).

Lemma hh_map_elem h k v : hh_ok h -> hh_map h !! k = Some v <-> (k, v) ∈ hh_view h.
Proof.
  intros Hok. apply hh_keys in Hok as [Hnd _]. unfold hh_map.
  symmetry. by apply elem_of_list_to_map.
Qed.

Lemma hh_map_at h k v n : hh_ok h -> hh_view h !! n = Some (k, v) -> hh_map h !! k = Some v.
Proof. intros Hok Hn. apply hh_map_elem; [done|]. by eapply list_elem_of_lookup_2. Qed.

Lemma hh_map_init : hh_map HIHASH_INIT = ∅.
Proof. unfold hh_map. by rewrite hh_init_view. Qed.

Lemma hh_map_None h k : hh_ok h -> hh_map h !! k = None <-> key_index k (hh_view h) = None.
Proof.
  intros Hok. rewrite key_index_None. unfold hh_map. symmetry.
  apply not_elem_of_list_to_map.
Qed.

Lemma hh_map_key h k v : hh_ok h -> hh_map h !! k = Some v -> in_s 32 k.
Proof.
  intros Hok Hk. apply hh_map_elem in Hk; [|done]. apply hh_keys in Hok as [_ Hr].
  rewrite Forall_forall in Hr. apply Hr. apply list_elem_of_fmap. by exists (k, v).
Qed.

(** [HIHASH_FIND] followed by [HIHASH_ITERATE_VALID]: a valid iterator stands
    for the entry of the key, an invalid one for its absence. *)
Lemma hh_find_cases h k : hh_ok h -> in_s 32 k ->
  exists i h', HIHASH_FIND h k = Ok (i, h') /\ hh_ok h' /\ hh_view h' = hh_view h /\
    hh_map h' = hh_map h /\
    ((exists v n, i = Z.of_nat n /\ hh_view h !! n = Some (k, v) /\ hh_map h !! k = Some v /\
        HIHASH_ITERATE_VALID h' i = true /\ HIHASH_GETV h' i = Some v) \/
     (hh_map h !! k = None /\ i = -1 /\ HIHASH_ITERATE_VALID h' i = false)).
Proof.
  intros Hok Hk. destruct (hh_find V h k Hok Hk) as (h' & E & Hok' & Hv).
  eexists _, h'. split; [exact E|]. split; [done|]. split; [done|].
  split; [unfold hh_map; by rewrite Hv|].
  unfold HIHASH_ITERATE_VALID, HIHASH_GETV. rewrite hh_size, Hv by done.
  destruct (key_index k (hh_view h)) as [n|] eqn:Ek; simpl.
  - left. apply key_index_Some in Ek as [v Hn]. exists v, n.
    apply lookup_lt_Some in Hn as Hlt.
    rewrite hh_at_spec, Hv, Hn by done. split_and!; try done.
    + by eapply hh_map_at.
    + rewrite andb_true_iff, Z.leb_le, Z.ltb_lt. lia.
  - right. split_and!; [|done|done]. by apply hh_map_None.
Qed.

Lemma hh_exist h k : hh_ok h -> in_s 32 k ->
  exists r h', HIHASH_EXIST h k = Ok (r, h') /\ hh_ok h' /\ hh_map h' = hh_map h /\
    hh_view h' = hh_view h /\ (r = 0 <-> is_Some (hh_map h !! k)).
Proof.
  intros Hok Hk. destruct (hh_find_cases h k Hok Hk) as (i & h' & E & Hok' & Hv & Hm & Hc).
  unfold HIHASH_EXIST. rewrite E. eexists _, h'. split; [done|]. split_and!; try done.
  destruct Hc as [(v & n & -> & Hn & Hs & _ & _)|(Hs & -> & _)]; rewrite Hs.
  - rewrite (proj2 (Z.leb_le _ _)) by lia. split; eauto.
  - split; [done|]. by intros [].
Qed.

Lemma hh_set_map h k v : hh_ok h -> in_s 32 k ->
  exists h', HIHASH_SET h k v = Ok h' /\ hh_ok h' /\ hh_map h' = <[k := v]> (hh_map h).
Proof.
  intros Hok Hk. destruct (hh_set V h k v Hok Hk) as (h' & E & Hok' & Hv).
  exists h'. split_and!; [done|done|]. unfold hh_map. rewrite Hv.
  pose proof (hh_keys V h Hok) as [Hnd _]. by apply list_to_map_put.
Qed.

Lemma hh_del_map h k : hh_ok h -> in_s 32 k ->
  exists h', HIHASH_DEL h k = Ok h' /\ hh_ok h' /\ hh_map h' = delete k (hh_map h).
Proof.
  intros Hok Hk. destruct (hh_del V h k Hok Hk) as (h' & E & Hok' & Hv).
  exists h'. split_and!; [done|done|]. unfold hh_map. rewrite Hv.
  pose proof (hh_keys V h Hok) as [Hnd _]. by apply list_to_map_del.
Qed.

Lemma hh_store_map h n k v v' : hh_ok h -> hh_view h !! n = Some (k, v) ->
  hh_ok (hh_store h (Z.of_nat n) v') /\
  hh_map (hh_store h (Z.of_nat n) v') = <[k := v']> (hh_map h).
Proof.
  intros Hok Hn. destruct (hh_store_spec V h n k v v' Hok Hn) as [Hok' Hv].
  split; [done|]. unfold hh_map. rewrite Hv.
  eapply list_to_map_insert_at; [|done]. by apply hh_keys in Hok as [? _].
Qed.
End as_gmap.
