(* ===== verification/StbHash.v ===== *)
(** StbHash: the hash functions and small arithmetic of stb_ds,
    [3rd/include/hcore/stb_ds.h].  [size_t] is 64 bits wide and a byte string is
    a list of bytes; every operation wraps at the width of its C type.  Where C
    computes in [int] (a byte shifted left by 24) the value is sign-extended
    before it meets a [size_t], as the code does. *)

From S2P Require Import Prelude.

Definition STBDS_BUCKET_LENGTH : Z := 8.
Definition STBDS_BUCKET_SHIFT : Z := 3.
Definition STBDS_BUCKET_MASK : Z := 7.
Definition STBDS_INDEX_EMPTY : Z := -1.
Definition STBDS_INDEX_DELETED : Z := -2.
Definition STBDS_INDEX_IN_USE (x : Z) : bool := 0 <=? x.
Definition STBDS_HASH_EMPTY : Z := 0.
Definition STBDS_HASH_DELETED : Z := 1.
Definition STBDS_SIZE_T_BITS : Z := 64.

(** ** Arithmetic on [size_t] *)

Definition STBDS_ROTATE_LEFT (val n : Z) : Z :=
  Z.lor (u64 (Z.shiftl val n)) (Z.shiftr val (STBDS_SIZE_T_BITS - n)).
Definition STBDS_ROTATE_RIGHT (val n : Z) : Z :=
  Z.lor (Z.shiftr val n) (u64 (Z.shiftl val (STBDS_SIZE_T_BITS - n))).

(** [~x] on [size_t]. *)
Definition not64 (x : Z) : Z := u64 (Z.lnot x).

(** The macro that loads a 64-bit constant from its halves. *)
Definition stbds_load_32_or_64 (v32 v64_hi v64_lo : Z) : Z :=
  let temp := Z.lxor v64_lo v32 in
  let temp := Z.shiftr (Z.shiftr (u64 (Z.shiftl (u64 (Z.shiftl temp 16)) 16)) 16) 16 in
  let var := u64 (Z.shiftl (u64 (Z.shiftl v64_hi 16)) 16) in
  Z.lxor var (Z.lxor temp v32).

(** The step of the global seed [stbds_hash_seed] when a table is created. *)
Definition stbds_next_seed (stbds_hash_seed : Z) : Z :=
  let a := stbds_load_32_or_64 2147001325 0x27bb2ee6 0x87b0b0fd in
  let b := stbds_load_32_or_64 715136305 0 0xb504f32d in
  u64 (stbds_hash_seed * a + b).

Definition stbds_probe_position (hash slot_count slot_log2 : Z) : Z :=
  Z.land hash (slot_count - 1).

(** [while (slot_count > 1) { slot_count >>= 1; ++n; }], at most 64 rounds. *)
Fixpoint stbds_log2_loop (fuel : nat) (slot_count n : Z) : Z :=
  match fuel with
  | O => n
  | S fuel => if 1 <? slot_count then stbds_log2_loop fuel (Z.shiftr slot_count 1) (n + 1) else n
  end.
Definition stbds_log2 (slot_count : Z) : Z := stbds_log2_loop 64 slot_count 0.

(** ** Hash functions *)

(** [d[0] | (d[1] << 8) | (d[2] << 16) | (d[3] << 24)], an [int]. *)
Definition load_int (d0 d1 d2 d3 : Z) : Z :=
  s32 (Z.lor (Z.lor d0 (Z.shiftl d1 8)) (Z.lor (Z.shiftl d2 16) (Z.shiftl d3 24))).

(** The 8-byte word of the siphash loop and of the 8-byte hash. *)
Definition load_word (d : list Z) : Z :=
  let b i := nth i d 0 in
  Z.lor (u64 (load_int (b 0%nat) (b 1%nat) (b 2%nat) (b 3%nat)))
        (u64 (Z.shiftl (u64 (Z.shiftl (u64 (load_int (b 4%nat) (b 5%nat) (b 6%nat) (b 7%nat))) 16)) 16)).

Record sipstate := Sip { sip_v0 : Z; sip_v1 : Z; sip_v2 : Z; sip_v3 : Z }.

Definition STBDS_SIPROUND (s : sipstate) : sipstate :=
  let '(Sip v0 v1 v2 v3) := s in
  let v0 := u64 (v0 + v1) in let v1 := STBDS_ROTATE_LEFT v1 13 in
  let v1 := Z.lxor v1 v0 in let v0 := STBDS_ROTATE_LEFT v0 (STBDS_SIZE_T_BITS / 2) in
  let v2 := u64 (v2 + v3) in let v3 := STBDS_ROTATE_LEFT v3 16 in
  let v3 := Z.lxor v3 v2 in
  let v2 := u64 (v2 + v1) in let v1 := STBDS_ROTATE_LEFT v1 17 in
  let v1 := Z.lxor v1 v2 in let v2 := STBDS_ROTATE_LEFT v2 (STBDS_SIZE_T_BITS / 2) in
  let v0 := u64 (v0 + v3) in let v3 := STBDS_ROTATE_LEFT v3 21 in
  let v3 := Z.lxor v3 v0 in
  Sip v0 v1 v2 v3.

(** One word of input; [STBDS_SIPHASH_C_ROUNDS] is 1. *)
Definition sip_absorb (s : sipstate) (data : Z) : sipstate :=
  let s := Sip (sip_v0 s) (sip_v1 s) (sip_v2 s) (Z.lxor (sip_v3 s) data) in
  let s := STBDS_SIPROUND s in
  Sip (Z.lxor (sip_v0 s) data) (sip_v1 s) (sip_v2 s) (sip_v3 s).

(** The loop over whole words; [n] counts them. *)
Fixpoint sip_words (n : nat) (d : list Z) (s : sipstate) : sipstate :=
  match n with
  | O => s
  | S n => sip_words n (drop 8 d) (sip_absorb s (load_word (take 8 d)))
  end.

(** The [switch (len - i)]: the cases fall through from the top byte down, the
    low four bytes are [int]s. *)
Definition sip_tail (len : Z) (d : list Z) : Z :=
  let b i := nth i d 0 in
  let data := u64 (Z.shiftl len (STBDS_SIZE_T_BITS - 8)) in
  let data := if (7 <=? length d)%nat then Z.lor data (u64 (Z.shiftl (b 6%nat) 48)) else data in
  let data := if (6 <=? length d)%nat then Z.lor data (u64 (Z.shiftl (b 5%nat) 40)) else data in
  let data := if (5 <=? length d)%nat then Z.lor data (u64 (Z.shiftl (b 4%nat) 32)) else data in
  let data := if (4 <=? length d)%nat then Z.lor data (u64 (s32 (Z.shiftl (b 3%nat) 24))) else data in
  let data := if (3 <=? length d)%nat then Z.lor data (Z.shiftl (b 2%nat) 16) else data in
  let data := if (2 <=? length d)%nat then Z.lor data (Z.shiftl (b 1%nat) 8) else data in
  if (1 <=? length d)%nat then Z.lor data (b 0%nat) else data.

Definition stbds_siphash_bytes (p : list Z) (seed : Z) : Z :=
  let len := Z.of_nat (length p) in
  let c hi lo := u64 (Z.shiftl (Z.shiftl hi 16) 16 + lo) in
  let s := Sip (Z.lxor (c 0x736f6d65 0x70736575) seed) (Z.lxor (c 0x646f7261 0x6e646f6d) (not64 seed))
               (Z.lxor (c 0x6c796765 0x6e657261) seed) (Z.lxor (c 0x74656462 0x79746573) (not64 seed)) in
  let words := (length p / 8)%nat in
  let s := sip_words words p s in
  let s := sip_absorb s (sip_tail len (drop (8 * words) p)) in
  let s := Sip (sip_v0 s) (sip_v1 s) (Z.lxor (sip_v2 s) 0xff) (sip_v3 s) in
  let s := STBDS_SIPROUND s in
  Z.lxor (Z.lxor (sip_v1 s) (sip_v2 s)) (sip_v3 s).

(** The 4-byte hash (HASH32-BB), in [unsigned int]. *)
Definition stbds_hash_4 (d : list Z) (seed : Z) : Z :=
  let b i := nth i d 0 in
  let hash := u32 (load_int (b 0%nat) (b 1%nat) (b 2%nat) (b 3%nat)) in
  let hash := u32 (Z.lxor hash seed) in
  let hash := Z.lxor (Z.lxor hash 61) (Z.shiftr hash 16) in
  let hash := u32 (hash + u32 (Z.shiftl hash 3)) in
  let hash := Z.lxor hash (Z.shiftr hash 4) in
  let hash := u32 (hash * 0x27d4eb2d) in
  let hash := u32 (Z.lxor hash seed) in
  let hash := Z.lxor hash (Z.shiftr hash 15) in
  Z.lxor (Z.lor (u64 (Z.shiftl (u64 (Z.shiftl hash 16)) 16)) hash) seed.

(** The 8-byte hash. *)
Definition stbds_hash_8 (d : list Z) (seed : Z) : Z :=
  let hash := load_word d in
  let hash := Z.lxor hash seed in
  let hash := u64 (not64 hash + Z.shiftl hash 21) in
  let hash := Z.lxor hash (STBDS_ROTATE_RIGHT hash 24) in
  let hash := u64 (hash * 265) in
  let hash := Z.lxor hash (STBDS_ROTATE_RIGHT hash 14) in
  let hash := Z.lxor hash seed in
  let hash := u64 (hash * 21) in
  let hash := Z.lxor hash (STBDS_ROTATE_RIGHT hash 28) in
  let hash := u64 (hash + Z.shiftl hash 31) in
  u64 (not64 hash + Z.shiftl hash 18).

Definition stbds_hash_bytes (p : list Z) (seed : Z) : Z :=
  let len := Z.of_nat (length p) in
  if len =? 4 then stbds_hash_4 p seed
  else if len =? 8 then stbds_hash_8 p seed
  else stbds_siphash_bytes p seed.

(** The string hash; [str] is the bytes before the terminating NUL. *)
Definition stbds_hash_string (str : list Z) (seed : Z) : Z :=
  let hash := foldl (fun hash c => u64 (STBDS_ROTATE_LEFT hash 9 + c)) seed str in
  let hash := Z.lxor hash seed in
  let hash := u64 (not64 hash + Z.shiftl hash 18) in
  let hash := Z.lxor hash (Z.lxor hash (STBDS_ROTATE_RIGHT hash 31)) in
  let hash := u64 (hash * 21) in
  let hash := Z.lxor hash (Z.lxor hash (STBDS_ROTATE_RIGHT hash 11)) in
  let hash := u64 (hash + Z.shiftl hash 6) in
  let hash := Z.lxor hash (STBDS_ROTATE_RIGHT hash 22) in
  u64 (hash + seed).

(** The constants the comments of the source give for a 64-bit build. *)
Example stbds_lcg_constants :
  stbds_load_32_or_64 2147001325 0x27bb2ee6 0x87b0b0fd = 2862933555777941757 /\
  stbds_load_32_or_64 715136305 0 0xb504f32d = 3037000493.
Proof. by vm_compute. Qed.

(** ** Ranges *)

Lemma rotate_left_range x n : 0 <= n <= 64 -> in_u 64 x -> in_u 64 (STBDS_ROTATE_LEFT x n).
Proof. intros Hn Hx. unfold STBDS_ROTATE_LEFT, STBDS_SIZE_T_BITS. in_range. Qed.
Lemma rotate_right_range x n : 0 <= n <= 64 -> in_u 64 x -> in_u 64 (STBDS_ROTATE_RIGHT x n).
Proof. intros Hn Hx. unfold STBDS_ROTATE_RIGHT, STBDS_SIZE_T_BITS. in_range. Qed.
Lemma not64_range x : in_u 64 (not64 x).
Proof. apply u64_range. Qed.
#[export] Hint Resolve rotate_left_range rotate_right_range not64_range : in_range.

Definition sip_range (s : sipstate) : Prop :=
  in_u 64 (sip_v0 s) /\ in_u 64 (sip_v1 s) /\ in_u 64 (sip_v2 s) /\ in_u 64 (sip_v3 s).

Lemma sipround_range s : sip_range s -> sip_range (STBDS_SIPROUND s).
Proof.
  destruct s as [v0 v1 v2 v3]. intros (H0 & H1 & H2 & H3). unfold STBDS_SIPROUND, sip_range in *.
  cbn in *. change (STBDS_SIZE_T_BITS / 2) with 32. split_and!; in_range.
Qed.

Lemma sip_absorb_range s d : in_u 64 d -> sip_range s -> sip_range (sip_absorb s d).
Proof.
  intros Hd (H0 & H1 & H2 & H3). unfold sip_absorb.
  pose proof (sipround_range (Sip (sip_v0 s) (sip_v1 s) (sip_v2 s) (Z.lxor (sip_v3 s) d))) as R.
  destruct R as (R0 & R1 & R2 & R3); [split_and!; cbn; in_range|].
  split_and!; cbn; in_range.
Qed.

Lemma load_word_range d : in_u 64 (load_word d).
Proof. unfold load_word. in_range. Qed.

Lemma sip_words_range n d s : sip_range s -> sip_range (sip_words n d s).
Proof.
  revert d s; induction n as [|n IH]; intros d s Hs; [done|].
  apply IH, sip_absorb_range; [apply load_word_range|done].
Qed.

Lemma nth_byte d i : Forall is_byte d -> is_byte (nth i d 0).
Proof.
  intros H. destruct (nth_in_or_default i d 0) as [Hin| ->].
  - rewrite Forall_forall in H. by apply H, list_elem_of_In.
  - by vm_compute.
Qed.

Lemma shiftl_byte_range b n : is_byte b -> 0 <= n <= 56 -> in_u 64 (Z.shiftl b n).
Proof.
  unfold is_byte, in_u. intros Hb Hn. rewrite Z.shiftl_mul_pow2 by lia.
  pose proof (Z.pow_le_mono_r 2 n 56). pose proof (Z.pow_pos_nonneg 2 n).
  change (2 ^ 64) with (2 ^ 8 * 2 ^ 56). nia.
Qed.

Lemma byte_range64 b : is_byte b -> in_u 64 b.
Proof. by apply in_u_weaken. Qed.
#[export] Hint Resolve load_word_range nth_byte shiftl_byte_range byte_range64 : in_range.

Lemma sip_tail_range len d : Forall is_byte d -> in_u 64 (sip_tail len d).
Proof. intros Hd. unfold sip_tail. repeat case_match; in_range. Qed.
#[export] Hint Resolve sip_tail_range : in_range.

(** The arithmetic of the three byte hashes stays within 64 bits. *)
Lemma stbds_hash_bytes_range (p : list Z) (sd : Z) :
  Forall is_byte p -> in_u 64 sd -> in_u 64 (stbds_hash_bytes p sd).
Proof.
  intros Hp Hs. unfold stbds_hash_bytes. repeat case_match.
  - unfold stbds_hash_4. apply in_u_lxor; [done| |done]. apply in_u_lor; [done|in_range|].
    apply (in_u_weaken 32); [lia|]. in_range.
  - unfold stbds_hash_8. in_range.
  - unfold stbds_siphash_bytes. 
    match goal with |- context [sip_absorb ?s ?d] => assert (sip_range (sip_absorb s d)) as R end.
    { apply sip_absorb_range; [apply sip_tail_range; by apply Forall_drop|].
      apply sip_words_range. split_and!; cbn; in_range. }
    destruct R as (R0 & R1 & R2 & R3).
    match goal with |- context [STBDS_SIPROUND ?s] => assert (sip_range (STBDS_SIPROUND s)) as R end.
    { apply sipround_range. split_and!; cbn; try done. apply in_u_lxor; done. }
    destruct R as (R0' & R1' & R2' & R3'). in_range.
Qed.

Lemma stbds_hash_string_range (str : list Z) (sd : Z) : in_u 64 (stbds_hash_string str sd).
Proof. apply u64_range. Qed.

Lemma next_seed_range sd : in_u 64 (stbds_next_seed sd).
Proof. apply u64_range. Qed.
