(* ===== verification/StbProbe.v ===== *)
(** StbProbe: the order in which stb_ds probes the slots of a table.

    All the probing loops of stb_ds ([stbds_hm_find_slot], [stbds_hmput_key], the
    copy loop of [stbds_make_hash_index]) go from the start position to the end
    of its 8-slot bucket, then from the beginning of the bucket to the start
    position, then to the bucket [step] slots further, where [step] grows by one
    bucket each time.  [probe_seq] is that order.  The main fact is that in a
    table of [8 * 2 ^ k] slots it reaches every slot, so that a loop that stops
    at an empty slot stops. *)

From S2P Require Import Prelude StbHash.

(** The slots of one bucket, in the order of the two inner loops. *)
Definition bucket_order (pos : Z) : list nat :=
  let limit := Z.to_nat (Z.land pos STBDS_BUCKET_MASK) in
  seq limit (8 - limit) ++ seq 0 limit.

(** [pos & ~STBDS_BUCKET_MASK]. *)
Definition bucket_base (pos : Z) : Z := Z.land pos (Z.lnot STBDS_BUCKET_MASK).

(** The slots the outer loop visits in [rounds] rounds. *)
Fixpoint probe_seq (rounds : nat) (slot_count pos step : Z) : list Z :=
  match rounds with
  | O => []
  | S rounds =>
      map (fun i => bucket_base pos + Z.of_nat i) (bucket_order pos) ++
      probe_seq rounds slot_count (Z.land (pos + step) (slot_count - 1))
                (step + STBDS_BUCKET_LENGTH)
  end.

(** ** Buckets *)

Lemma bucket_base_eq pos : bucket_base pos = 8 * (pos / 8).
Proof.
  unfold bucket_base, STBDS_BUCKET_MASK.
  assert (Z.land pos (Z.lnot 7) = Z.ldiff pos 7) as -> by (by rewrite <- Z.ldiff_land).
  change 7 with (Z.ones 3). rewrite Z.ldiff_ones_r by lia.
  rewrite Z.shiftl_mul_pow2, Z.shiftr_div_pow2 by lia. change (2 ^ 3) with 8. lia.
Qed.

Lemma bucket_off_eq pos : Z.land pos STBDS_BUCKET_MASK = pos mod 8.
Proof. unfold STBDS_BUCKET_MASK. by apply (land_mask pos 3). Qed.

Lemma bucket_order_perm pos : bucket_order pos ≡ₚ seq 0 8.
Proof.
  unfold bucket_order. rewrite bucket_off_eq.
  pose proof (Z.mod_pos_bound pos 8 ltac:(lia)).
  rewrite Permutation_app_comm. rewrite <- seq_app.
  by replace (Z.to_nat (pos mod 8) + (8 - Z.to_nat (pos mod 8)))%nat with 8%nat by lia.
Qed.

(** ** Triangular steps *)

(** The bucket of round [j], for a table of [m] buckets: quadratic probing. *)
Definition tri (j : Z) : Z := j * (j + 1) / 2.

Lemma tri_double j : 2 * tri j = j * (j + 1).
Proof.
  unfold tri. assert ((j * (j + 1)) mod 2 = 0) as Hm.
  { rewrite Zmult_mod, Zplus_mod.
    assert (j mod 2 = 0 \/ j mod 2 = 1) as [->| ->]
      by (pose proof (Z.mod_pos_bound j 2); lia); done. }
  pose proof (Z.div_mod (j * (j + 1)) 2). lia.
Qed.

Lemma tri_S j : tri (j + 1) = tri j + (j + 1).
Proof. pose proof (tri_double j). pose proof (tri_double (j + 1)). lia. Qed.

(** A power of two that divides a product of which one factor is odd divides
    the other. *)
Lemma pow2_divide_odd k a b :
  0 <= k -> Z.odd a = true -> (2 ^ k | a * b) -> (2 ^ k | b).
Proof.
  intros Hk Ho Hd. apply Z.gauss with a; [done|].
  apply Z.coprime_pow_l; [done|].
  apply Z.odd_spec in Ho as [q Hq].
  apply Z.bezout_1_gcd. exists (- q), 1. lia.
Qed.

Lemma pow2_divide_small k a : 0 <= k -> (2 ^ k | a) -> - 2 ^ k < a < 2 ^ k -> a = 0.
Proof.
  intros Hk [q ->] Hr.
  destruct (decide (q = 0)) as [->|]; [done|]. exfalso. nia.
Qed.

(** The first [2 ^ k] triangular numbers are distinct modulo [2 ^ k]. *)
Lemma tri_inj k i j :
  0 <= k -> 0 <= i < 2 ^ k -> 0 <= j < 2 ^ k ->
  tri i mod 2 ^ k = tri j mod 2 ^ k -> i = j.
Proof.
  intros Hk Hi Hj H.
  assert (2 ^ (k + 1) = 2 * 2 ^ k) as Hp by (rewrite Z.pow_add_r by lia; lia).
  assert (2 ^ (k + 1) | (i - j) * (i + j + 1)) as Hd.
  { assert (2 ^ k | tri i - tri j) as [q Hq].
    { apply Z.mod_divide; [lia|]. rewrite Zminus_mod, H, Z.sub_diag. done. }
    exists q. pose proof (tri_double i). pose proof (tri_double j). lia. }
  destruct (Z.odd (i - j)) eqn:Ho.
  - apply pow2_divide_odd in Hd; [|lia|done].
    apply pow2_divide_small in Hd; lia.
  - rewrite Z.mul_comm in Hd. apply pow2_divide_odd in Hd; [|lia|].
    + apply pow2_divide_small in Hd; lia.
    + replace (i + j + 1) with ((i - j) + (1 + 2 * j)) by lia.
      rewrite Z.odd_add, Ho, Z.odd_add_mul_2. done.
Qed.

(** ** The order in closed form *)

Definition round_slots (k pos j : Z) : list Z :=
  map (fun i => 8 * ((pos / 8 + tri j) mod 2 ^ k) + Z.of_nat i) (bucket_order pos).

Lemma probe_seq_rounds k pos r j :
  0 <= k -> 0 <= j ->
  probe_seq r (8 * 2 ^ k) ((pos + 8 * tri j) mod (8 * 2 ^ k)) (8 * (j + 1))
  = seqZ j (Z.of_nat r) ≫= round_slots k pos.
Proof.
  intros Hk. revert j; induction r as [|r IH]; intros j Hj; [done|].
  rewrite seqZ_cons by lia. simpl probe_seq.
  rewrite bind_cons. f_equal.
  - assert (((pos + 8 * tri j) mod (8 * 2 ^ k)) / 8 = (pos / 8 + tri j) mod 2 ^ k) as Eb.
    { rewrite Z.rem_mul_r by lia. rewrite (Z.mul_comm 8 (tri j)), Z.div_add by lia.
      rewrite Z.mod_add by lia.
      rewrite (Z.mul_comm 8 (_ mod _)), Z.div_add by lia.
      rewrite Z.div_small by (apply Z.mod_pos_bound; lia). lia. }
    assert (((pos + 8 * tri j) mod (8 * 2 ^ k)) mod 8 = pos mod 8) as Eo.
    { rewrite Z.rem_mul_r by lia. rewrite (Z.mul_comm 8 (tri j)), Z.mod_add by lia.
      rewrite (Z.mul_comm 8 (_ mod _)), Z.mod_add, Z.mod_mod by lia. done. }
    unfold round_slots, bucket_order. rewrite bucket_base_eq, !bucket_off_eq, Eb, Eo. done.
  - unfold STBDS_BUCKET_LENGTH.
    replace (8 * 2 ^ k - 1) with (2 ^ (k + 3) - 1) by (rewrite Z.pow_add_r by lia; lia).
    rewrite land_mask by lia.
    replace (2 ^ (k + 3)) with (8 * 2 ^ k) by (rewrite Z.pow_add_r by lia; lia).
    rewrite Zplus_mod_idemp_l.
    replace (pos + 8 * tri j + 8 * (j + 1)) with (pos + 8 * tri (j + 1)) by (rewrite tri_S; lia).
    replace (8 * (j + 1) + 8) with (8 * (j + 1 + 1)) by lia.
    rewrite IH by lia. do 2 f_equal; lia.
Qed.

(** The probe sequence of a hash value in a table of [8 * 2 ^ k] slots. *)
Definition probes (slot_count pos : Z) : list Z :=
  probe_seq (Z.to_nat (slot_count / 8)) slot_count pos STBDS_BUCKET_LENGTH.

Lemma probes_rounds k pos :
  0 <= k -> 0 <= pos < 8 * 2 ^ k ->
  probes (8 * 2 ^ k) pos = seqZ 0 (2 ^ k) ≫= round_slots k pos.
Proof.
  intros Hk Hpos. unfold probes.
  pose proof (probe_seq_rounds k pos (Z.to_nat (8 * 2 ^ k / 8)) 0 Hk ltac:(lia)) as H.
  change (tri 0) with 0 in H. rewrite Z.mul_0_r, Z.add_0_r, Z.mod_small in H by done.
  rewrite Z.mul_comm, Z.div_mul in * by lia.
  rewrite Z2Nat.id in H by lia. exact H.
Qed.

Lemma round_slots_elem k pos j x :
  x ∈ round_slots k pos j -> 0 <= k -> x / 8 = (pos / 8 + tri j) mod 2 ^ k.
Proof.
  unfold round_slots. intros Hx Hk. apply list_elem_of_fmap in Hx as (i & -> & Hi).
  rewrite bucket_order_perm in Hi. apply elem_of_seq in Hi.
  rewrite Z.mul_comm, Z.div_add_l, (Z.div_small (Z.of_nat i)) by lia. lia.
Qed.

(** Quadratic probing by whole buckets permutes the slots of the table. *)
Lemma probes_permutation (k pos : Z) :
  0 <= k -> 0 <= pos < 8 * 2 ^ k ->
  probes (8 * 2 ^ k) pos ≡ₚ seqZ 0 (8 * 2 ^ k).
Proof.
  intros Hk Hpos. rewrite probes_rounds by done.
  assert (length (seqZ 0 (2 ^ k) ≫= round_slots k pos) = Z.to_nat (8 * 2 ^ k)) as Hlen.
  { assert (forall l, length (l ≫= round_slots k pos) = (8 * length l)%nat) as ->.
    { induction l as [|j l IH]; [done|]. rewrite bind_cons, length_app, IH.
      unfold round_slots. rewrite length_map, bucket_order_perm, length_seq. simpl; lia. }
    rewrite length_seqZ. lia. }
  apply submseteq_length_Permutation; [|rewrite Hlen, length_seqZ; lia].
  apply NoDup_submseteq.
  - apply NoDup_bind.
    + intros i j x Hi Hj Hxi Hxj. apply elem_of_seqZ in Hi, Hj.
      apply round_slots_elem in Hxi, Hxj; [|done..].
      apply (tri_inj k); [lia..|].
      assert (((pos / 8 + tri i) - pos / 8) mod 2 ^ k = ((pos / 8 + tri j) - pos / 8) mod 2 ^ k) as E.
      { rewrite Zminus_mod, <- Hxi, Hxj, <- Zminus_mod. done. }
      replace (pos / 8 + tri i - pos / 8) with (tri i) in E by lia.
      by replace (pos / 8 + tri j - pos / 8) with (tri j) in E by lia.
    + intros j Hj. unfold round_slots. apply NoDup_fmap_2_strong.
      * intros x y _ _ H. lia.
      * rewrite bucket_order_perm. apply NoDup_seq.
    + apply NoDup_seqZ.
  - intros x Hx. apply list_elem_of_bind in Hx as (j & Hx & _).
    apply elem_of_seqZ. pose proof (round_slots_elem _ _ _ _ Hx Hk) as Hd.
    pose proof (Z.mod_pos_bound (pos / 8 + tri j) (2 ^ k) ltac:(lia)).
    pose proof (Z.div_mod x 8). pose proof (Z.mod_pos_bound x 8). lia.
Qed.

Lemma probe_position_range k hash :
  0 <= k -> 0 <= stbds_probe_position hash (8 * 2 ^ k) (k + 3) < 8 * 2 ^ k.
Proof.
  intros Hk. unfold stbds_probe_position.
  replace (8 * 2 ^ k) with (2 ^ (k + 3)) by (rewrite Z.pow_add_r by lia; lia).
  rewrite land_mask by lia. apply Z.mod_pos_bound. lia.
Qed.

(** C37 Probing is exhaustive: whatever the hash, the probe sequence of a table
    of [8 * 2 ^ k] slots visits every slot, and visits it exactly once, before it
    has made as many steps as the table has buckets; so a search that stops at an
    empty slot terminates when there is one. *)
Theorem probing_exhaustive (k hash x : Z) :
  0 <= k -> 0 <= x < 8 * 2 ^ k ->
  exists i, probes (8 * 2 ^ k) (stbds_probe_position hash (8 * 2 ^ k) (k + 3)) !! i = Some x /\
    forall j, probes (8 * 2 ^ k) (stbds_probe_position hash (8 * 2 ^ k) (k + 3)) !! j = Some x -> j = i.
Proof.
  intros Hk Hx.
  pose proof (probes_permutation k _ Hk (probe_position_range k hash Hk)) as Hp.
  assert (x ∈ seqZ 0 (8 * 2 ^ k)) as Hin by (apply elem_of_seqZ; lia).
  rewrite <- Hp in Hin. apply list_elem_of_lookup in Hin as [i Hi].
  exists i. split; [done|]. intros j Hj. eapply NoDup_lookup; [|done|done].
  rewrite Hp. apply NoDup_seqZ.
Qed.

Lemma probing_exhaustive_witness :
  exists i, probes (8 * 2 ^ 2) (stbds_probe_position 0xDEADBEEF (8 * 2 ^ 2) (2 + 3)) !! i = Some 7.
Proof.
  destruct (probing_exhaustive 2 0xDEADBEEF 7) as (i & Hi & _); [lia|lia|]. exists i. exact Hi.
Defined.
