(* ===== verification/StbMem.v ===== *)
(** StbMem: strings in memory and the string arena of stb_ds,
    [3rd/include/hcore/stb_ds.h].

    The string mode of the hash table works on [char *] keys: it compares them,
    copies them with [stbds_strdup] or into an arena of blocks with
    [stbds_stralloc], and frees them.  Memory is a map from block numbers to
    bytes that are written or not; a block number is never used twice, so that a
    dangling pointer stays one.  Allocation succeeds (the code never tests it). *)

From S2P Require Import Prelude.

(** ** Memory *)

(** A [char *]: a block and an offset into it; block 0 is NULL. *)
Definition ptr : Type := Z * Z.
Definition NULL : ptr := (0, 0).

Record mem := Mem {
  m_next : Z;                              (* the next block [malloc] returns *)
  m_blocks : gmap Z (list (option Z))      (* the bytes; [None]: not written *)
}.

(** [malloc]: a block of bytes that are not written. *)
Definition mem_alloc (size : Z) : M mem Z := fun m =>
  Ok (m_next m, Mem (m_next m + 1)
                  (<[m_next m := replicate (Z.to_nat size) None]> (m_blocks m))).

(** [free]: of the start of a live block, or of NULL. *)
Definition mem_free (p : ptr) : M mem unit := fun m =>
  if p.1 =? 0 then Ok (tt, m)
  else match m_blocks m !! p.1 with
       | None => Fault UseAfterFree
       | Some _ => if p.2 =? 0 then Ok (tt, Mem (m_next m) (delete p.1 (m_blocks m)))
                   else Fault OutOfBounds
       end.

(** The bytes from a pointer to the end of its block. *)
Definition mem_at (m : mem) (p : ptr) : res (list (option Z)) :=
  if p.1 =? 0 then Fault NullDeref
  else match m_blocks m !! p.1 with
       | None => Fault UseAfterFree
       | Some bs => if (0 <=? p.2) && (p.2 <=? Z.of_nat (length bs))
                    then Ok (drop (Z.to_nat p.2) bs) else Fault OutOfBounds
       end.

(** [memmove(dst, src, len)]. *)
Definition mem_move (dst src : ptr) (len : Z) : M mem unit := fun m =>
  match mem_at m src, mem_at m dst with
  | Fault f, _ | _, Fault f => Fault f
  | Ok s, Ok d =>
      if (Z.of_nat (length s) <? len) || (Z.of_nat (length d) <? len) then Fault OutOfBounds
      else Ok (tt, Mem (m_next m)
                     (alter (list_inserts (Z.to_nat dst.2) (take (Z.to_nat len) s)) dst.1
                            (m_blocks m)))
  end.

(** The string at the head of some bytes: up to the NUL. *)
Fixpoint read_cstr (bs : list (option Z)) : res (list Z) :=
  match bs with
  | [] => Fault OutOfBounds
  | None :: _ => Fault Uninitialised
  | Some c :: bs =>
      if c =? 0 then Ok []
      else match read_cstr bs with Ok s => Ok (c :: s) | Fault f => Fault f end
  end.

(** The string at a pointer, as [strlen], [strcmp] and the hash read it. *)
Definition cstr (m : mem) (p : ptr) : res (list Z) :=
  match mem_at m p with Ok bs => read_cstr bs | Fault f => Fault f end.

Definition strlen (p : ptr) : M mem Z := fun m =>
  match cstr m p with Ok s => Ok (Z.of_nat (length s), m) | Fault f => Fault f end.

(** ** The arena *)

(** [stbds_string_arena].  The blocks are linked by their first member, [next],
    which nothing else reads: [sa_storage] is the chain from [storage] on. *)
Record stbds_string_arena := Arena {
  sa_storage : list Z;
  sa_remaining : Z;
  sa_block : Z;
  sa_mode : Z
}.

(** [memset(a, 0, sizeof( *a))]. *)
Definition empty_arena : stbds_string_arena := Arena [] 0 0 0.

(** [sizeof(stbds_string_block) - 8]: where [storage] starts in a block. *)
Definition BLOCK_STORAGE : Z := 8.

Definition STBDS_STRING_ARENA_BLOCKSIZE_MIN : Z := 512.
Definition STBDS_STRING_ARENA_BLOCKSIZE_MAX : Z := Z.shiftl 1 20.

Definition stbds_strdup (str : ptr) : M mem ptr :=
  len ← strlen str;
  let len := len + 1 in
  b ← mem_alloc len;
  mem_move (b, 0) str len;;
  mret (b, 0).

(** The size of the arena's next block, and [block] once it was taken. *)
Definition arena_blocksize (block : Z) : Z :=
  Z.shiftl STBDS_STRING_ARENA_BLOCKSIZE_MIN (Z.shiftr block 1).
Definition arena_next (block : Z) : Z :=
  if arena_blocksize block <? STBDS_STRING_ARENA_BLOCKSIZE_MAX then u8 (block + 1) else block.

(** The end of [stbds_stralloc]: the string goes at the end of what remains of
    the first block. *)
Definition arena_take (a : stbds_string_arena) (str : ptr) (len : Z)
    : M mem (ptr * stbds_string_arena) :=
  match sa_storage a with
  | [] => fail NullDeref
  | sb :: _ =>
      let p := (sb, BLOCK_STORAGE + sa_remaining a - len) in
      mem_move p str len;;
      mret (p, Arena (sa_storage a) (sa_remaining a - len) (sa_block a) (sa_mode a))
  end.

Definition stbds_stralloc (a : stbds_string_arena) (str : ptr) : M mem (ptr * stbds_string_arena) :=
  len ← strlen str;
  let len := len + 1 in
  if sa_remaining a <? len then
    let blocksize := arena_blocksize (sa_block a) in
    let block := arena_next (sa_block a) in
    if blocksize <? len then
      sb ← mem_alloc (BLOCK_STORAGE + len);
      mem_move (sb, BLOCK_STORAGE) str len;;
      mret ((sb, BLOCK_STORAGE),
        match sa_storage a with
        | x :: rest => Arena (x :: sb :: rest) (sa_remaining a) block (sa_mode a)
        | [] => Arena [sb] 0 block (sa_mode a)
        end)
    else
      sb ← mem_alloc (BLOCK_STORAGE + blocksize);
      arena_take (Arena (sb :: sa_storage a) blocksize block (sa_mode a)) str len
  else arena_take a str len.

(** The loop of [stbds_strreset]. *)
Fixpoint free_blocks (bs : list Z) : M mem unit :=
  match bs with
  | [] => mret tt
  | x :: bs => mem_free (x, 0);; free_blocks bs
  end.

Definition stbds_strreset (a : stbds_string_arena) : M mem stbds_string_arena :=
  free_blocks (sa_storage a);; mret empty_arena.

(** ** Strings in memory *)

(** [str_at m p s]: the string [s] with its NUL lies at [p]. *)
Definition str_at (m : mem) (p : ptr) (s : list Z) : Prop := cstr m p = Ok s.

(** The bytes of a string. *)
Definition str_ok (s : list Z) : Prop := Forall (fun c => c <> 0) s.

(** The bytes a string occupies. *)
Definition str_bytes (s : list Z) : list (option Z) := (Some <$> s) ++ [Some 0].

Lemma read_cstr_spec bs s : read_cstr bs = Ok s <-> str_ok s /\ exists rest, bs = str_bytes s ++ rest.
Proof.
  unfold str_bytes, str_ok. revert s; induction bs as [|[c|] bs IH]; intros s; simpl.
  - split; [done|]. intros (_ & rest & E). destruct s; done.
  - destruct (Z.eqb_spec c 0) as [->|Hc].
    + split; [intros [= <-]; split; [done|]; by exists bs|].
      intros (Hs & rest & E). destruct s as [|d s]; [done|]. injection E as <- _.
      apply Forall_cons in Hs as [? _]. done.
    + destruct (read_cstr bs) as [s'|f] eqn:E'.
      * destruct (proj1 (IH s') eq_refl) as (Hs' & rest & ->). split.
        -- intros [= <-]. split; [by constructor|]. by exists rest.
        -- intros (Hs & rest' & E). destruct s as [|d s]; [by simplify_eq/=|].
           simpl in E. injection E as <- E. f_equal. f_equal.
           assert (Ok s' = Ok s) as [= <-]; [|done]. apply IH. split; [by inversion Hs|eauto].
      * split; [done|]. intros (Hs & rest & E). destruct s as [|d s]; [by simplify_eq/=|].
        injection E as <- E. exfalso. apply Forall_cons in Hs as [_ Hs].
        assert (Fault f = Ok s) by (apply IH; eauto). done.
  - split; [done|]. intros (_ & rest & E). by destruct s.
Qed.

Lemma length_str_bytes s : length (str_bytes s) = S (length s).
Proof. unfold str_bytes. rewrite length_app, length_fmap. simpl. lia. Qed.

Lemma str_at_spec m p s :
  str_at m p s <-> str_ok s /\ p.1 <> 0 /\ 0 <= p.2 /\
    exists pre rest, m_blocks m !! p.1 = Some (pre ++ str_bytes s ++ rest) /\
      length pre = Z.to_nat p.2.
Proof.
  unfold str_at, cstr, mem_at. destruct (Z.eqb_spec p.1 0) as [->|Hp].
  { split; [done|]. by intros (_ & ? & _). }
  destruct (m_blocks m !! p.1) as [bs|].
  2:{ split; [done|]. by intros (_ & _ & _ & ? & ? & ? & _). }
  destruct (_ && _) eqn:E; [apply andb_true_iff in E as [E1%Z.leb_le E2%Z.leb_le]|].
  - rewrite read_cstr_spec. split.
    + intros (Hs & rest & Hd). split_and!; [done..|].
      exists (take (Z.to_nat p.2) bs), rest. rewrite <- Hd, take_drop.
      split; [done|]. rewrite length_take. lia.
    + intros (Hs & _ & _ & pre & rest & [= ->] & Hl). split; [done|]. exists rest.
      by rewrite <- Hl, drop_app_length.
  - split; [done|]. intros (_ & _ & H & pre & rest & [= ->] & Hl).
    apply andb_false_iff in E as [E%Z.leb_gt|E%Z.leb_gt]; [lia|].
    rewrite length_app in E. lia.
Qed.

(** A string is not disturbed by what happens to other blocks. *)
Lemma str_at_block m m' p s :
  m_blocks m' !! p.1 = m_blocks m !! p.1 -> str_at m p s -> str_at m' p s.
Proof. intros E. unfold str_at, cstr, mem_at. by rewrite E. Qed.
