(* ===== verification/StbArena.v ===== *)
(** StbArena: copies of strings, by [stbds_strdup] and in the arena of
    [stbds_stralloc] (StbMem.v).

    [arena_ok] is the invariant of an arena: its chain has no block twice, every
    block is live, and the first one has room for what remains.  A string that
    the arena gave out lies in a block of the chain, past what remains of the
    first: no later call writes there. *)

From S2P Require Import Prelude StbMem.

(** ** Memory *)

(** Block numbers in use are below the next one; 0 is NULL. *)
Definition mem_ok (m : mem) : Prop :=
  0 < m_next m /\ forall b, is_Some (m_blocks m !! b) -> 0 < b < m_next m.

(** The memory after a new block [bs] was allocated and written. *)
Definition mem_new (bs : list (option Z)) (m : mem) : mem :=
  Mem (m_next m + 1) (<[m_next m := bs]> (m_blocks m)).

(** The memory with block [b] written. *)
Definition mem_set (b : Z) (bs : list (option Z)) (m : mem) : mem :=
  Mem (m_next m) (<[b := bs]> (m_blocks m)).

Lemma mem_ok_fresh m : mem_ok m -> m_blocks m !! m_next m = None /\ m_next m <> 0.
Proof.
  intros [H0 H]. split; [|lia]. destruct (m_blocks m !! m_next m) eqn:E; [|done].
  assert (0 < m_next m < m_next m) by (apply H; eauto). lia.
Qed.

Lemma mem_ok_new bs m : mem_ok m -> mem_ok (mem_new bs m).
Proof.
  intros [H0 H]. split; simpl; [lia|]. intros b [x Hb]. simpl in Hb.
  apply lookup_insert_Some in Hb as [[<- _]|[_ Hb]]; [lia|].
  assert (0 < b < m_next m) by (apply H; eauto). lia.
Qed.

Lemma mem_ok_set b bs m : mem_ok m -> is_Some (m_blocks m !! b) -> mem_ok (mem_set b bs m).
Proof.
  intros [H0 H] Hb. split; [done|]. intros b' [x Hb']. simpl in Hb'.
  apply lookup_insert_Some in Hb' as [[<- _]|[_ Hb']]; [by apply H|apply H; eauto].
Qed.

Lemma mem_ok_str m p s : mem_ok m -> str_at m p s -> p.1 <> m_next m /\ is_Some (m_blocks m !! p.1).
Proof.
  intros Hm (_ & _ & _ & pre & rest & E & _)%str_at_spec. split; [|eauto].
  intros Ep. destruct (mem_ok_fresh m Hm) as [F _]. by rewrite <- Ep, E in F.
Qed.

Lemma strlen_spec m p s : str_at m p s -> strlen p m = Ok (Z.of_nat (length s), m).
Proof. unfold strlen. by intros ->. Qed.

(** [memmove] of a string with its NUL into a block. *)
Lemma mem_move_spec m src s dst bs :
  str_at m src s -> dst.1 <> 0 -> m_blocks m !! dst.1 = Some bs -> 0 <= dst.2 ->
  dst.2 + (Z.of_nat (length s) + 1) <= Z.of_nat (length bs) ->
  mem_move dst src (Z.of_nat (length s) + 1) m
    = Ok (tt, mem_set dst.1 (list_inserts (Z.to_nat dst.2) (str_bytes s) bs) m).
Proof.
  intros Hs H0 Hb Hlo Hhi. pose proof (length_str_bytes s) as Ls.
  unfold str_at, cstr in Hs. unfold mem_move.
  destruct (mem_at m src) as [sb|f]; [|done]. apply read_cstr_spec in Hs as (_ & rest & ->).
  unfold mem_at. rewrite (proj2 (Z.eqb_neq _ _) H0), Hb.
  rewrite (proj2 (Z.leb_le _ _) Hlo), (proj2 (Z.leb_le dst.2 _)) by lia. simpl.
  rewrite (proj2 (Z.ltb_ge (Z.of_nat (length (str_bytes s ++ rest))) _)) by (rewrite length_app; lia).
  rewrite (proj2 (Z.ltb_ge (Z.of_nat (length (drop _ bs))) _)) by (rewrite length_drop; lia). simpl.
  rewrite take_app_length' by lia. unfold mem_set. do 3 f_equal.
  apply map_eq. intros b. destruct (decide (b = dst.1)) as [->|Hne].
  - by rewrite lookup_alter_eq, Hb, lookup_insert_eq.
  - by rewrite lookup_alter_ne, lookup_insert_ne.
Qed.

(** The string is then there, and what lies behind it is as it was. *)
Lemma str_at_written m s dst bs :
  str_ok s -> dst.1 <> 0 -> 0 <= dst.2 ->
  dst.2 + (Z.of_nat (length s) + 1) <= Z.of_nat (length bs) ->
  str_at (mem_set dst.1 (list_inserts (Z.to_nat dst.2) (str_bytes s) bs) m) dst s.
Proof.
  intros Hs H0 Hlo Hhi. pose proof (length_str_bytes s) as Ls. apply str_at_spec.
  split_and!; [done..|]. exists (take (Z.to_nat dst.2) bs), (drop (Z.to_nat dst.2 + length (str_bytes s)) bs).
  simpl. rewrite lookup_insert_eq, inserts_middle by lia. split; [done|]. rewrite length_take. lia.
Qed.

Lemma str_at_behind m b bs i k p s :
  m_blocks m !! b = Some bs -> (b = p.1 -> Z.of_nat (i + length k) <= p.2) ->
  str_at m p s -> str_at (mem_set b (list_inserts i k bs) m) p s.
Proof.
  intros Hb Hp. destruct (decide (b = p.1)) as [->|Hne].
  - unfold str_at, cstr, mem_at. simpl. rewrite Hb, lookup_insert_eq, length_inserts.
    rewrite drop_inserts by (specialize (Hp eq_refl); lia). done.
  - apply str_at_block. simpl. by rewrite lookup_insert_ne.
Qed.

(** ** [stbds_strdup] *)

Lemma strdup_spec m str s :
  mem_ok m -> str_at m str s ->
  exists m', stbds_strdup str m = Ok ((m_next m, 0), m') /\
    m' = mem_new (str_bytes s) m /\ str_at m' (m_next m, 0) s.
Proof.
  intros Hm Hs. pose proof (mem_ok_fresh m Hm) as [_ Hn0]. pose proof (length_str_bytes s) as Ls.
  unfold stbds_strdup. rewrite (bind_ok _ _ _ _ _ (strlen_spec m str s Hs)). cbn zeta.
  set (len := Z.of_nat (length s) + 1). set (m1 := mem_new (replicate (Z.to_nat len) None) m).
  rewrite (bind_ok (mem_alloc len) _ m (m_next m) m1) by done.
  assert (str_at m1 str s) as Hs1.
  { apply (str_at_block m); [|done]. simpl. rewrite lookup_insert_ne; [done|].
    destruct (mem_ok_str m str s Hm Hs) as [? _]. done. }
  assert (m_blocks m1 !! m_next m = Some (replicate (Z.to_nat len) None)) as Hb1
    by apply lookup_insert_eq.
  rewrite (bind_ok _ _ _ _ _ (mem_move_spec m1 str s (m_next m, 0) _ Hs1 Hn0 Hb1 ltac:(done)
    ltac:(rewrite length_replicate; simpl; lia))).
  assert (list_inserts (Z.to_nat 0) (str_bytes s) (replicate (Z.to_nat len) None) = str_bytes s) as Ei.
  { rewrite <- (app_nil_r (str_bytes s)) at 1. apply list_inserts_0_l. rewrite length_replicate. lia. }
  cbn [fst snd]. rewrite Ei.
  assert (mem_set (m_next m) (str_bytes s) m1 = mem_new (str_bytes s) m) as ->.
  { unfold mem_set, m1, mem_new. simpl. by rewrite insert_insert_eq. }
  eexists. split_and!; [done|done|]. apply str_at_spec.
  assert (str_ok s) by (by apply str_at_spec in Hs as [? _]).
  split_and!; [done|done|done|]. exists [], []. simpl. rewrite app_nil_r. by rewrite lookup_insert_eq.
Qed.

(** ** The arena *)

(** [unsigned char block] stays in the range where blocks grow. *)
Definition block_ok (block : Z) : Prop := 0 <= block <= 22.

Definition arena_ok (m : mem) (a : stbds_string_arena) : Prop :=
  NoDup (sa_storage a) /\ Forall (fun b => is_Some (m_blocks m !! b)) (sa_storage a) /\
  block_ok (sa_block a) /\ 0 <= sa_remaining a /\
  match sa_storage a with
  | [] => sa_remaining a = 0
  | sb :: _ => exists bs, m_blocks m !! sb = Some bs /\
      BLOCK_STORAGE + sa_remaining a <= Z.of_nat (length bs)
  end.

(** A place the arena has given out. *)
Definition in_arena (a : stbds_string_arena) (p : ptr) : Prop :=
  p.1 ∈ sa_storage a /\
  (head (sa_storage a) = Some p.1 -> BLOCK_STORAGE + sa_remaining a <= p.2).

(** Blocks have 512 bytes to 1 MiB. *)
Lemma arena_blocksize_range block : block_ok block ->
  512 <= arena_blocksize block <= 1048576 /\ block_ok (arena_next block).
Proof.
  intros Hb.
  assert (forallb (fun b => (512 <=? arena_blocksize b) && (arena_blocksize b <=? 1048576) &&
    (0 <=? arena_next b) && (arena_next b <=? 22)) (seqZ 0 23) = true) as H by by vm_compute.
  rewrite forallb_forall in H. specialize (H block).
  rewrite !andb_true_iff, !Z.leb_le in H. unfold block_ok.
  destruct H as [[[H1 H2] H3] H4]; [apply list_elem_of_In, elem_of_seqZ; unfold block_ok in Hb; lia|]. lia.
Qed.

Lemma arena_live m a b : mem_ok m -> arena_ok m a -> b ∈ sa_storage a -> 0 < b < m_next m.
Proof. intros [_ Hm] (_ & Hl & _) Hb. apply Hm. rewrite Forall_forall in Hl. by apply Hl. Qed.

(** What a call of [stbds_stralloc] keeps: everything given out before and every
    other block; the chain grows by new blocks only. *)
Definition arena_step (m : mem) (a : stbds_string_arena) (m' : mem) (a' : stbds_string_arena) : Prop :=
  mem_ok m' /\ arena_ok m' a' /\ m_next m <= m_next m' /\ sa_mode a' = sa_mode a /\
  (forall q, in_arena a q -> in_arena a' q) /\
  (forall q s, in_arena a q -> str_at m q s -> str_at m' q s) /\
  (forall b, b ∉ sa_storage a' -> m_blocks m' !! b = m_blocks m !! b) /\
  (forall b, b ∈ sa_storage a' -> b ∈ sa_storage a \/ m_next m <= b) /\
  (forall b, b ∈ sa_storage a -> b ∈ sa_storage a').

(** The string goes into the first block, which has room. *)
Lemma arena_take_spec m a str s :
  mem_ok m -> arena_ok m a -> str_at m str s -> Z.of_nat (length s) + 1 <= sa_remaining a ->
  exists p a' m', arena_take a str (Z.of_nat (length s) + 1) m = Ok ((p, a'), m') /\
    str_at m' p s /\ in_arena a' p /\ arena_step m a m' a'.
Proof.
  intros Hm Ha Hs Hlen. pose proof Ha as (Hnd & Hl & Hblk & Hr & Hh).
  unfold arena_take. destruct (sa_storage a) as [|sb rest] eqn:Est; [lia|].
  destruct Hh as (bs & Hb & Hroom). pose proof (length_str_bytes s) as Ls.
  assert (0 < sb < m_next m) as Hsb by (apply (arena_live m a sb Hm Ha); rewrite Est; left).
  set (off := BLOCK_STORAGE + sa_remaining a - (Z.of_nat (length s) + 1)).
  assert (8 <= off /\ off + (Z.of_nat (length s) + 1) <= Z.of_nat (length bs)) as [Ho1 Ho2]
    by (unfold off, BLOCK_STORAGE in *; lia).
  rewrite (bind_ok _ _ _ _ _ (mem_move_spec m str s (sb, off) bs Hs ltac:(simpl; lia) Hb
    ltac:(simpl; lia) ltac:(simpl; lia))).
  eexists _, _, _. split; [done|]. cbn [fst snd].
  assert (str_ok s) as Hok by (by apply str_at_spec in Hs as [? _]). unfold arena_step.
  split_and!.
  - apply (str_at_written m s (sb, off)); simpl; try done; lia.
  - split; simpl; [left|]. intros _. unfold off. lia.
  - by apply mem_ok_set.
  - unfold arena_ok. simpl. split_and!; [done| |done|lia|].
    + eapply Forall_impl; [exact Hl|]. intros b [x Hx]. simpl.
      destruct (decide (sb = b)) as [->|]; [rewrite lookup_insert_eq|rewrite lookup_insert_ne by done]; eauto.
    + eexists. rewrite lookup_insert_eq. split; [done|]. rewrite length_inserts. unfold BLOCK_STORAGE in *. lia.
  - done.
  - done.
  - intros q [H1 H2]. unfold in_arena in *. rewrite Est in *. split; [done|]. simpl in *.
    intros E. specialize (H2 E). lia.
  - intros q t [H1 H2]. apply str_at_behind; [done|]. intros ->. rewrite Est in H2.
    specialize (H2 eq_refl). unfold off, BLOCK_STORAGE in *. lia.
  - intros b Hb'. simpl in *. rewrite lookup_insert_ne; [done|]. intros ->. apply Hb'. left.
  - intros b Hb'. left. by rewrite Est.
  - rewrite Est. done.
Qed.

Lemma arena_step_trans m a m1 a1 m2 a2 :
  mem_ok m -> arena_ok m a ->
  arena_step m a m1 a1 -> arena_step m1 a1 m2 a2 -> arena_step m a m2 a2.
Proof.
  intros Hm Ha (A1 & A2 & A3 & A4 & A5 & A6 & A7 & A8 & A9) (B1 & B2 & B3 & B4 & B5 & B6 & B7 & B8 & B9).
  unfold arena_step. split_and!; [done|done|lia|congruence|by auto|by eauto| | |by auto].
  - intros b Hb. rewrite B7 by done. apply A7. by intros ?%B9.
  - intros b Hb. destruct (B8 b Hb) as [Hb1|]; [|right; lia]. by apply A8.
Qed.

(** A new block joins the chain, first or second, and is not given out yet. *)
Lemma arena_grow m a bs storage remaining :
  mem_ok m -> arena_ok m a ->
  (forall b, b ∈ storage <-> b = m_next m \/ b ∈ sa_storage a) -> NoDup storage ->
  0 <= remaining ->
  (head storage = Some (m_next m) /\ BLOCK_STORAGE + remaining <= Z.of_nat (length bs) \/
   head storage = head (sa_storage a) /\ sa_storage a <> [] /\ remaining = sa_remaining a) ->
  arena_step m a (mem_new bs m) (Arena storage remaining (arena_next (sa_block a)) (sa_mode a)).
Proof.
  intros Hm Ha Hin Hnd Hr Hhead. pose proof Ha as (_ & Hl & Hblk & _ & Hh).
  pose proof (mem_ok_fresh m Hm) as [Hf _]. pose proof Hm as [Hm0 Hmb].
  assert (forall b, b ∈ sa_storage a -> b <> m_next m) as Hne
    by (intros b Hb; pose proof (arena_live m a b Hm Ha Hb); lia).
  unfold arena_step. cbn [sa_storage sa_remaining sa_block sa_mode].
  split_and!; [by apply mem_ok_new| |simpl; lia|done| | | | |].
  - unfold arena_ok. cbn [sa_storage sa_remaining sa_block sa_mode].
    split_and!; [done| |by apply arena_blocksize_range|done|].
    + apply Forall_forall. intros b Hb. simpl. apply Hin in Hb as [->|Hb]; [rewrite lookup_insert_eq; eauto|].
      rewrite lookup_insert_ne by (by apply not_eq_sym, Hne). rewrite Forall_forall in Hl. by apply Hl.
    + destruct storage as [|b storage]; simpl in *.
      { exfalso. pose proof (proj2 (Hin (m_next m)) (or_introl eq_refl)) as H. by apply elem_of_nil in H. }
      destruct Hhead as [[[= ->] Hroom]|(E & Hnn & ->)].
      * exists bs. by rewrite lookup_insert_eq.
      * destruct (sa_storage a) as [|b' rest] eqn:Est; [done|]. injection E as ->.
        destruct Hh as (bs' & Hb' & Hroom). exists bs'. rewrite lookup_insert_ne; [done|].
        apply not_eq_sym, Hne. left.
  - intros q [H1 H2]. split; simpl; [apply Hin; by right|]. intros E.
    destruct Hhead as [[E' _]|(E' & _ & ->)].
    + rewrite E in E'. injection E' as E'. by apply Hne in H1.
    + apply H2. by rewrite <- E'.
  - intros q s [H1 _] Hs. apply (str_at_block m); [|done]. simpl.
    rewrite lookup_insert_ne; [done|]. by apply not_eq_sym, Hne.
  - intros b Hb. simpl. rewrite lookup_insert_ne; [done|]. intros <-. apply Hb, Hin. by left.
  - intros b Hb. apply Hin in Hb as [->|Hb]; [right; lia|by left].
  - intros b Hb. apply Hin. by right.
Qed.

(** [stbds_stralloc] returns a copy of the string and disturbs nothing. *)
Lemma stralloc_spec m a str s :
  mem_ok m -> arena_ok m a -> str_at m str s ->
  exists p a' m', stbds_stralloc a str m = Ok ((p, a'), m') /\
    str_at m' p s /\ in_arena a' p /\ arena_step m a m' a'.
Proof.
  intros Hm Ha Hs. unfold stbds_stralloc. rewrite (bind_ok _ _ _ _ _ (strlen_spec m str s Hs)). cbn zeta.
  destruct (Z.ltb_spec (sa_remaining a) (Z.of_nat (length s) + 1)) as [Hlt|Hge];
    [|by apply arena_take_spec].
  pose proof Ha as (Hnd & _ & Hblk & Hr & Hh). pose proof (mem_ok_fresh m Hm) as [Hf Hn0].
  destruct (arena_blocksize_range (sa_block a) Hblk) as [Hbs _].
  pose proof (length_str_bytes s) as Ls.
  assert (m_next m ∉ sa_storage a) as Hnin
    by (intros Hin; pose proof (arena_live m a _ Hm Ha Hin); lia).
  assert (forall bs, str_at (mem_new bs m) str s) as Hs1.
  { intros bs. apply (str_at_block m); [|done]. simpl. rewrite lookup_insert_ne; [done|].
    destruct (mem_ok_str m str s Hm Hs) as [? _]. done. }
  assert (str_ok s) as Hok by (by apply str_at_spec in Hs as [? _]).
  destruct (Z.ltb_spec (arena_blocksize (sa_block a)) (Z.of_nat (length s) + 1)) as [Hbig|Hfit].
  - set (sz := BLOCK_STORAGE + (Z.of_nat (length s) + 1)).
    rewrite (bind_ok (mem_alloc sz) _ m (m_next m) (mem_new (replicate (Z.to_nat sz) None) m)) by done.
    rewrite (bind_ok _ _ _ _ _ (mem_move_spec _ str s (m_next m, BLOCK_STORAGE)
      (replicate (Z.to_nat sz) None) (Hs1 _) Hn0 (lookup_insert_eq _ _ _) ltac:(done)
      ltac:(rewrite length_replicate; unfold sz; simpl; lia))).
    cbn [fst snd]. set (bs := list_inserts _ _ _).
    assert (mem_set (m_next m) bs (mem_new (replicate (Z.to_nat sz) None) m) = mem_new bs m) as ->
      by (unfold mem_set, mem_new; simpl; by rewrite insert_insert_eq).
    eexists _, _, _. split; [done|].
    assert (str_at (mem_new bs m) (m_next m, BLOCK_STORAGE) s) as Hcopy.
    { apply (str_at_written (mem_new bs m) s (m_next m, BLOCK_STORAGE) (replicate (Z.to_nat sz) None)) in Hok;
        [|done|done|rewrite length_replicate; unfold sz; simpl; lia].
      revert Hok. unfold mem_set. simpl. rewrite insert_insert_eq. done. }
    split; [done|]. assert (length bs = Z.to_nat sz) as Lb by (unfold bs; by rewrite length_inserts, length_replicate).
    destruct (sa_storage a) as [|x rest] eqn:Est.
    + split; [split; simpl; [left|intros _; lia]|]. apply (arena_grow m a bs [m_next m] 0 Hm Ha).
      * intros b. rewrite Est, list_elem_of_singleton, elem_of_nil. tauto.
      * apply NoDup_singleton.
      * done.
      * left. split; [done|]. rewrite Lb. unfold sz, BLOCK_STORAGE. lia.
    + split.
      { split; simpl; [right; left|]. intros [= ->]. exfalso. apply Hnin. left. }
      apply (arena_grow m a bs (x :: m_next m :: rest) (sa_remaining a) Hm Ha).
      * intros b. rewrite Est, !elem_of_cons. tauto.
      * apply NoDup_cons in Hnd as [Hx Hnd]. rewrite not_elem_of_cons in Hnin. destruct Hnin as [Hnx Hnin].
        apply NoDup_cons. split; [|by apply NoDup_cons]. rewrite not_elem_of_cons. done.
      * done.
      * right. by rewrite Est.
  - set (sz := BLOCK_STORAGE + arena_blocksize (sa_block a)).
    rewrite (bind_ok (mem_alloc sz) _ m (m_next m) (mem_new (replicate (Z.to_nat sz) None) m)) by done.
    set (m1 := mem_new _ m). set (a1 := Arena _ _ _ _).
    assert (arena_step m a m1 a1) as Hst.
    { apply arena_grow; [done|done| | |lia|].
      - intros b. rewrite elem_of_cons. done.
      - by apply NoDup_cons.
      - left. split; [done|]. rewrite length_replicate. unfold sz, BLOCK_STORAGE. lia. }
    pose proof Hst as (Hm1 & Ha1 & _).
    destruct (arena_take_spec m1 a1 str s Hm1 Ha1 (Hs1 _) Hfit) as (p & a' & m' & E & H1 & H2 & H3).
    exists p, a', m'. split_and!; [done..|]. by eapply arena_step_trans.
Qed.

(** ** [stbds_strreset] *)

Lemma free_blocks_spec bs m :
  NoDup bs -> Forall (fun b => b <> 0 /\ is_Some (m_blocks m !! b)) bs ->
  free_blocks bs m = Ok (tt, Mem (m_next m) (filter (fun kv => kv.1 ∉ bs) (m_blocks m))).
Proof.
  revert m; induction bs as [|b bs IH]; intros m Hnd Hl.
  - simpl. unfold mret, M_ret. do 2 f_equal. destruct m as [n bl]. simpl. f_equal.
    symmetry. apply map_filter_id. intros. apply not_elem_of_nil.
  - apply NoDup_cons in Hnd as [Hb Hnd]. apply Forall_cons in Hl as [[H0 [x Hx]] Hl]. simpl.
    unfold mem_free at 1, mbind, M_bind. simpl. rewrite (proj2 (Z.eqb_neq _ _) H0), Hx. simpl.
    rewrite IH; [|done|].
    + do 3 f_equal. simpl. apply map_eq. intros i. apply option_eq. intros y.
      rewrite !map_lookup_filter_Some, lookup_delete_Some. simpl. rewrite not_elem_of_cons.
      split; intros (? & ? & ?) || intros [[? ?] ?]; split_and!; done || by apply not_eq_sym.
    + rewrite Forall_forall in Hl |- *. intros b' Hb'. destruct (Hl b' Hb') as [? ?]. split; [done|].
      simpl. rewrite lookup_delete_ne; [done|]. by intros ->.
Qed.

Lemma strreset_spec m a :
  mem_ok m -> arena_ok m a ->
  stbds_strreset a m
    = Ok (empty_arena, Mem (m_next m) (filter (fun kv => kv.1 ∉ sa_storage a) (m_blocks m))).
Proof.
  intros Hm Ha. pose proof Ha as (Hnd & Hl & _). unfold stbds_strreset.
  erewrite bind_ok; [|apply free_blocks_spec; [done|]]; [done|].
  apply Forall_forall. intros b Hb. pose proof (arena_live m a b Hm Ha Hb).
  split; [lia|]. rewrite Forall_forall in Hl. by apply Hl.
Qed.
