(* ===== verification/StbTable.v ===== *)
(** StbTable: the hash table of stb_ds, [3rd/include/hcore/stb_ds.h].

    A map is a dynamic array of entries, element 0 being a default that the
    handle [t] points past, plus a table of slots (hash, index into the array)
    grouped in buckets of 8.  [stbds_array] is the array with its header,
    [stbds_hash_index] the table; a handle is an [option stbds_array], [None]
    for NULL.  The operations are written over how a key is read and hashed, which
    the [mode] argument of the code decides; [stbds_hmput_key] and
    [stbds_hmdel_key] are those of the binary mode ([STBDS_HM_BINARY]), which the
    integer maps of hcore use; StbStrMap.v has those of the string mode.
    Allocation succeeds (the code never tests it); [size_t] counts do not wrap, as
    they count objects in memory.  Loops over probes take the number of buckets as
    fuel and report [OutOfFuel] beyond it. *)

From S2P Require Import Prelude StbHash StbProbe StbMem.

(** ** Data *)

Record stbds_hash_bucket := Bucket {
  b_hash : list Z;      (* size_t hash[8] *)
  b_index : list Z      (* ptrdiff_t index[8] *)
}.

(** [temp_key] is not written before the first insertion in string mode. *)
Record stbds_hash_index := HashIndex {
  temp_key : option ptr;
  slot_count : Z;
  used_count : Z;
  used_count_threshold : Z;
  used_count_shrink_threshold : Z;
  tombstone_count : Z;
  tombstone_count_threshold : Z;
  seed : Z;
  slot_count_log2 : Z;
  string : stbds_string_arena;
  storage : list stbds_hash_bucket
}.

(** The array header, the default element (its value; [None]: the zero bytes of
    [memset]) and the elements after it: [stbds_header(a)->length] is
    [1 + length a_items]. *)
Record stbds_array (K V : Type) := Arr {
  a_capacity : Z;
  a_temp : Z;
  a_hash_table : option stbds_hash_index;
  a_default : option V;
  a_items : list (K * V)
}.
Arguments Arr {K V}.
Arguments a_capacity {K V}.
Arguments a_temp {K V}.
Arguments a_hash_table {K V}.
Arguments a_default {K V}.
Arguments a_items {K V}.

(** ** Slots *)

Definition empty_bucket : stbds_hash_bucket :=
  Bucket (replicate 8 STBDS_HASH_EMPTY) (replicate 8 STBDS_INDEX_EMPTY).

(** All slots in order: bucket after bucket, eight per bucket. *)
Definition flat_slots (st : list stbds_hash_bucket) : list (Z * Z) :=
  st ≫= fun b => zip (b_hash b) (b_index b).

(** [storage[pos >> 3].hash[pos & 7] = h; storage[pos >> 3].index[pos & 7] = ix]. *)
Definition set_slot (pos h ix : Z) (st : list stbds_hash_bucket) : list stbds_hash_bucket :=
  let i := Z.to_nat (Z.land pos STBDS_BUCKET_MASK) in
  alter (fun b => Bucket (<[i := h]> (b_hash b)) (<[i := ix]> (b_index b)))
        (Z.to_nat (Z.shiftr pos STBDS_BUCKET_SHIFT)) st.

(** ** The probing loops *)

(** What a loop body does with one slot: go on with a new accumulator, or leave
    the loops with a result. *)
Inductive flow (A R : Type) :=
  | Continue (a : A)
  | Return (r : R).
Arguments Continue {A R} a.
Arguments Return {A R} r.

Section walk.
Context {A R : Type}.

(** An inner loop over the slots [ixs] of a bucket; the body sees the slot's
    position, its hash and its index. *)
Fixpoint bucket_walk (body : Z -> Z -> Z -> A -> res (flow A R)) (b : stbds_hash_bucket) (base : Z) (ixs : list nat) (a : A)
    : res (flow A R) :=
  match ixs with
  | [] => Ok (Continue a)
  | i :: ixs =>
      match b_hash b !! i, b_index b !! i with
      | Some h, Some ix =>
          match body (base + Z.of_nat i) h ix a with
          | Ok (Continue a) => bucket_walk body b base ixs a
          | r => r
          end
      | _, _ => Fault OutOfBounds
      end
  end.

(** The outer [for (;;)]: the two inner loops with their bodies, from [pos] to the
    end of the bucket and from its beginning to [pos]; then the next bucket. *)
Fixpoint probe_walk (first second : Z -> Z -> Z -> A -> res (flow A R)) (fuel : nat) (st : list stbds_hash_bucket) (slot_count pos step : Z)
    (a : A) : res R :=
  match fuel with
  | O => Fault OutOfFuel
  | S fuel =>
      match st !! Z.to_nat (Z.shiftr pos STBDS_BUCKET_SHIFT) with
      | None => Fault OutOfBounds
      | Some bucket =>
          let limit := Z.to_nat (Z.land pos STBDS_BUCKET_MASK) in
          match bucket_walk first bucket (bucket_base pos) (seq limit (8 - limit)) a with
          | Fault f => Fault f
          | Ok (Return r) => Ok r
          | Ok (Continue a) =>
              match bucket_walk second bucket (bucket_base pos) (seq 0 limit) a with
              | Fault f => Fault f
              | Ok (Return r) => Ok r
              | Ok (Continue a) =>
                  probe_walk first second fuel st slot_count
                    (Z.land (pos + step) (slot_count - 1)) (step + STBDS_BUCKET_LENGTH) a
              end
          end
      end
  end.
End walk.

(** ** [stbds_make_hash_index] *)

(** The loop body that looks for a free slot of the new table. *)
Definition rehash_body (pos h ix : Z) (_ : unit) : res (flow unit Z) :=
  if h =? 0 then Ok (Return pos) else Ok (Continue tt).

(** Copy the slots of the old table that are in use, in order. *)
Fixpoint rehash (slots : list (Z * Z)) (slot_count log2 : Z) (st : list stbds_hash_bucket)
    : res (list stbds_hash_bucket) :=
  match slots with
  | [] => Ok st
  | (hash, index) :: slots =>
      if STBDS_INDEX_IN_USE index then
        let pos := stbds_probe_position hash slot_count log2 in
        match probe_walk rehash_body rehash_body (length st) st slot_count pos STBDS_BUCKET_LENGTH tt with
        | Ok p => rehash slots slot_count log2 (set_slot p hash index st)
        | Fault f => Fault f
        end
      else rehash slots slot_count log2 st
  end.

(** Returns the table and the global seed after the call. *)
Definition stbds_make_hash_index (sc : Z) (ot : option stbds_hash_index) (stbds_hash_seed : Z)
    : res (stbds_hash_index * Z) :=
  let st := replicate (Z.to_nat (Z.shiftr sc STBDS_BUCKET_SHIFT)) empty_bucket in
  let mk used sd str st :=
    HashIndex None sc used (sc - Z.shiftr sc 2)
      (if sc <=? STBDS_BUCKET_LENGTH then 0 else Z.shiftr sc 2)
      0 (Z.shiftr sc 3 + Z.shiftr sc 4) sd (stbds_log2 sc) str st in
  match ot with
  | None => Ok (mk 0 stbds_hash_seed empty_arena st, stbds_next_seed stbds_hash_seed)
  | Some ot =>
      match rehash (flat_slots (storage ot)) sc (stbds_log2 sc) st with
      | Ok st => Ok (mk (used_count ot) (seed ot) (string ot) st, stbds_hash_seed)
      | Fault f => Fault f
      end
  end.

(** ** Operations *)

(** The capacity [stbds_arrgrowf] gives an array of the given length and
    capacity. *)
Definition stbds_arrgrowf (len cap addlen min_cap : Z) : Z :=
  let min_len := len + addlen in
  let min_cap := if min_cap <? min_len then min_len else min_cap in
  if min_cap <=? cap then cap
  else if min_cap <? 2 * cap then 2 * cap
  else if min_cap <? 4 then 4 else min_cap.

(** [stbds_arrgrowf] makes room for what is asked. *)
Lemma arrgrowf_bounds len cap addlen mc :
  len + addlen <= stbds_arrgrowf len cap addlen mc /\ mc <= stbds_arrgrowf len cap addlen mc /\
  cap <= stbds_arrgrowf len cap addlen mc.
Proof.
  unfold stbds_arrgrowf.
  destruct (Z.ltb_spec mc (len + addlen)), (Z.leb_spec mc cap), (Z.leb_spec (len + addlen) cap),
    (Z.ltb_spec mc (2 * cap)), (Z.ltb_spec (len + addlen) (2 * cap)),
    (Z.ltb_spec mc 4), (Z.ltb_spec (len + addlen) 4); lia.
Qed.

(** [if (hash < 2) hash += 2]: a stored hash is never 0 or 1. *)
Definition stored_hash (hash : Z) : Z := if hash <? 2 then hash + 2 else hash.

Section ops.
Context {K V : Type}.

(** The [mode]: the bytes of a key, [keysize] of them or those of the string it
    points to, and the hash function for them. *)
Context (key_bytes : K -> res (list Z)) (hash_bytes : list Z -> Z -> Z).
Abbreviation arr := (stbds_array K V).

(** The array the functions start with when the handle is NULL: room for one
    element, which is the zeroed default. *)
Definition stbds_new_array (temp : Z) : arr := Arr (stbds_arrgrowf 0 0 0 1) temp None None [].

Definition stbds_arrlen (a : arr) : Z := 1 + Z.of_nat (length (a_items a)).

(** The key bytes at element [i] of the handle's array. *)
Definition key_at (items : list (K * V)) (i : Z) : res K :=
  if 0 <=? i then
    match items !! Z.to_nat i with Some kv => Ok kv.1 | None => Fault OutOfBounds end
  else Fault OutOfBounds.

(** [memcmp] or [strcmp] of the key with the key of element [i]. *)
Definition stbds_is_key_equal (items : list (K * V)) (key : K) (i : Z) : res bool :=
  match key_at items i with
  | Fault f => Fault f
  | Ok k =>
      match key_bytes key, key_bytes k with
      | Fault f, _ | _, Fault f => Fault f
      | Ok s, Ok s' => Ok (bool_decide (s = s'))
      end
  end.

(** The hash of a key under the table's seed, as a slot stores it. *)
Definition key_hash (sd : Z) (key : K) : res Z :=
  match key_bytes key with
  | Ok s => Ok (stored_hash (hash_bytes s sd))
  | Fault f => Fault f
  end.

Definition find_body (items : list (K * V)) (hash : Z) (key : K) (pos h ix : Z) (_ : unit)
    : res (flow unit Z) :=
  if h =? hash then
    match stbds_is_key_equal items key ix with
    | Ok true => Ok (Return pos)
    | Ok false => Ok (Continue tt)
    | Fault f => Fault f
    end
  else if h =? STBDS_HASH_EMPTY then Ok (Return (-1)) else Ok (Continue tt).

Definition stbds_hm_find_slot (items : list (K * V)) (table : stbds_hash_index) (key : K) : res Z :=
  match key_hash (seed table) key with
  | Fault f => Fault f
  | Ok hash =>
      let pos := stbds_probe_position hash (slot_count table) (slot_count_log2 table) in
      probe_walk (find_body items hash key) (find_body items hash key)
        (length (storage table)) (storage table) (slot_count table) pos STBDS_BUCKET_LENGTH tt
  end.

(** [storage[slot >> 3].index[slot & 7]]. *)
Definition slot_index (table : stbds_hash_index) (slot : Z) : res Z :=
  match flat_slots (storage table) !! Z.to_nat slot with
  | Some (_, ix) => Ok ix
  | None => Fault OutOfBounds
  end.

(** [stbds_hmget_key_ts]: the handle after the call and [*temp]. *)
Definition stbds_hmget_key_ts (a : option arr) (key : K) : res (arr * Z) :=
  match a with
  | None => Ok (stbds_new_array 0, STBDS_INDEX_EMPTY)
  | Some a =>
      match a_hash_table a with
      | None => Ok (a, -1)
      | Some table =>
          match stbds_hm_find_slot (a_items a) table key with
          | Fault f => Fault f
          | Ok slot =>
              if slot <? 0 then Ok (a, STBDS_INDEX_EMPTY)
              else match slot_index table slot with Ok ix => Ok (a, ix) | Fault f => Fault f end
          end
      end
  end.

(** [stbds_temp(a) = temp]. *)
Definition with_temp (a : arr) (temp : Z) : arr :=
  Arr (a_capacity a) temp (a_hash_table a) (a_default a) (a_items a).

(** [stbds_hmget_key]: the index goes to the header's [temp]. *)
Definition stbds_hmget_key (a : option arr) (key : K) : res arr :=
  match stbds_hmget_key_ts a key with
  | Ok (a, temp) => Ok (with_temp a temp)
  | Fault f => Fault f
  end.

(** Where the probing loops of [stbds_hmput_key] stop. *)
Inductive put_result :=
  | PutFound (ix : Z)                   (* the key is there, at this index *)
  | PutEmpty (pos tombstone : Z).       (* an empty slot; a tombstone seen before *)

Definition put_body (items : list (K * V)) (hash : Z) (key : K) (pos h ix : Z) (tombstone : Z)
    : res (flow Z put_result) :=
  if h =? hash then
    match stbds_is_key_equal items key ix with
    | Ok true => Ok (Return (PutFound ix))
    | Ok false => Ok (Continue tombstone)
    | Fault f => Fault f
    end
  else if h =? 0 then Ok (Return (PutEmpty pos tombstone))
  else if (tombstone <? 0) && (ix =? STBDS_INDEX_DELETED) then Ok (Continue pos)
  else Ok (Continue tombstone).

(** The growth of the table before the probing. *)
Definition put_table (gs : Z) (a : arr) : res (stbds_hash_index * Z) :=
  match a_hash_table a with
  | None => stbds_make_hash_index STBDS_BUCKET_LENGTH None gs
  | Some table =>
      if used_count_threshold table <=? used_count table then
        stbds_make_hash_index (slot_count table * 2) (Some table) gs
      else Ok (table, gs)
  end.

(** The table with another slot array and counts. *)
Definition with_slots (table : stbds_hash_index) (used tombs : Z) (st : list stbds_hash_bucket)
    : stbds_hash_index :=
  HashIndex (temp_key table) (slot_count table) used (used_count_threshold table)
    (used_count_shrink_threshold table) tombs (tombstone_count_threshold table)
    (seed table) (slot_count_log2 table) (string table) st.

(** [found_empty_slot]: take the slot (the tombstone, when one was seen) and
    append an element with the key. [junk] is the value of the new element,
    which the function does not write. *)
Definition put_new (a : arr) (table : stbds_hash_index) (hash : Z) (key : K) (junk : V)
    (pos tombstone : Z) : arr :=
  let pos' := if 0 <=? tombstone then tombstone else pos in
  let tombs := if 0 <=? tombstone then tombstone_count table - 1 else tombstone_count table in
  let i := stbds_arrlen a in
  let cap := if a_capacity a <? i + 1 then stbds_arrgrowf i (a_capacity a) 1 0 else a_capacity a in
  let table' :=
    with_slots table (used_count table + 1) tombs (set_slot pos' hash (i - 1) (storage table)) in
  Arr cap (i - 1) (Some table') (a_default a) (a_items a ++ [(key, junk)]).

(** [stbds_hmput_key] in binary mode. Returns the handle and the global seed after
    the call. *)
Definition stbds_hmput_key (gs : Z) (a : option arr) (key : K) (junk : V) : res (arr * Z) :=
  let a := match a with None => stbds_new_array 0 | Some a => a end in
  match put_table gs a with
  | Fault f => Fault f
  | Ok (table, gs) =>
      match key_hash (seed table) key with
      | Fault f => Fault f
      | Ok hash =>
          let pos := stbds_probe_position hash (slot_count table) (slot_count_log2 table) in
          match probe_walk (put_body (a_items a) hash key) (put_body (a_items a) hash key)
                  (length (storage table)) (storage table)
                  (slot_count table) pos STBDS_BUCKET_LENGTH (-1) with
          | Fault f => Fault f
          | Ok (PutFound ix) =>
              Ok (Arr (a_capacity a) ix (Some table) (a_default a) (a_items a), gs)
          | Ok (PutEmpty pos tombstone) => Ok (put_new a table hash key junk pos tombstone, gs)
          end
      end
  end.

(** [(t)[stbds_temp((t)-1)] = (key, v)]. *)
Definition store_at_temp (a : arr) (kv : K * V) : res arr :=
  if bool_decide (0 <= a_temp a < Z.of_nat (length (a_items a))) then
    Ok (Arr (a_capacity a) (a_temp a) (a_hash_table a) (a_default a)
            (<[Z.to_nat (a_temp a) := kv]> (a_items a)))
  else Fault OutOfBounds.

(** The macro [stbds_hmput]: the element at [temp] gets key and value. *)
Definition stbds_hmput (gs : Z) (a : option arr) (key : K) (v : V) : res (arr * Z) :=
  match stbds_hmput_key gs a key v with
  | Fault f => Fault f
  | Ok (a, gs) =>
      match store_at_temp a (key, v) with Ok a => Ok (a, gs) | Fault f => Fault f end
  end.

(** The macro [stbds_hmputs]: the element at [temp] becomes the structure. *)
Definition stbds_hmputs (gs : Z) (a : option arr) (s : K * V) : res (arr * Z) :=
  match stbds_hmput_key gs a s.1 s.2 with
  | Fault f => Fault f
  | Ok (a, gs) =>
      match store_at_temp a s with Ok a => Ok (a, gs) | Fault f => Fault f end
  end.

(** The macro [stbds_hmgeti], and [stbds_hmgeti_ts] with its own [temp]. *)
Definition stbds_hmgeti (a : option arr) (key : K) : res (Z * arr) :=
  match stbds_hmget_key a key with Ok a => Ok (a_temp a, a) | Fault f => Fault f end.

Definition stbds_hmgeti_ts (a : option arr) (key : K) : res (Z * arr) :=
  match stbds_hmget_key_ts a key with Ok (a, temp) => Ok (temp, a) | Fault f => Fault f end.

(** After a deletion: shrink or rebuild the table. *)
Definition del_table (table : stbds_hash_index) (gs : Z) : res (stbds_hash_index * Z) :=
  if (used_count table <? used_count_shrink_threshold table)
     && (STBDS_BUCKET_LENGTH <? slot_count table) then
    stbds_make_hash_index (Z.shiftr (slot_count table) 1) (Some table) gs
  else if tombstone_count_threshold table <? tombstone_count table then
    stbds_make_hash_index (slot_count table) (Some table) gs
  else Ok (table, gs).

(** The slot of the deleted element becomes a tombstone. *)
Definition del_mark (table : stbds_hash_index) (slot : Z) : stbds_hash_index :=
  with_slots table (used_count table - 1) (tombstone_count table + 1)
    (set_slot slot STBDS_HASH_DELETED STBDS_INDEX_DELETED (storage table)).

(** The swap of the last element into the gap: the array and the slots. *)
Definition del_swap (items : list (K * V)) (table : stbds_hash_index) (old_index final_index : Z)
    : res (list (K * V) * stbds_hash_index) :=
  if old_index =? final_index then Ok (items, table)
  else
    match items !! Z.to_nat final_index with
    | None => Fault OutOfBounds
    | Some last =>
        let items' := <[Z.to_nat old_index := last]> items in
        match stbds_hm_find_slot items' table last.1 with
        | Fault f => Fault f
        | Ok slot =>
            if slot <? 0 then Fault OutOfBounds else
            match flat_slots (storage table) !! Z.to_nat slot with
            | Some (h, _) =>
                Ok (items', with_slots table (used_count table) (tombstone_count table)
                              (set_slot slot h old_index (storage table)))
            | None => Fault OutOfBounds
            end
        end
    end.

(** [stbds_hmdel_key] in binary mode. *)
Definition stbds_hmdel_key (gs : Z) (a : option arr) (key : K) : res (option arr * Z) :=
  match a with
  | None => Ok (None, gs)
  | Some a =>
      match a_hash_table a with
      | None => Ok (Some (with_temp a 0), gs)
      | Some table =>
          match stbds_hm_find_slot (a_items a) table key with
          | Fault f => Fault f
          | Ok slot =>
              if slot <? 0 then Ok (Some (with_temp a 0), gs)
              else
                match slot_index table slot with
                | Fault f => Fault f
                | Ok old_index =>
                    let final_index := stbds_arrlen a - 1 - 1 in
                    match del_swap (a_items a) (del_mark table slot) old_index final_index with
                    | Fault f => Fault f
                    | Ok (items, table) =>
                        let items := take (length items - 1) items in
                        match del_table table gs with
                        | Fault f => Fault f
                        | Ok (table, gs) => Ok (Some (Arr (a_capacity a) 1 (Some table) (a_default a) items), gs)
                        end
                    end
                end
          end
      end
  end.

(** The macro [stbds_hmdel]: its value is 1 when the key was there. *)
Definition stbds_hmdel (gs : Z) (a : option arr) (key : K) : res (Z * option arr * Z) :=
  match stbds_hmdel_key gs a key with
  | Ok (a, gs) => Ok (from_option a_temp 0 a, a, gs)
  | Fault f => Fault f
  end.

(** [stbds_hmlen]. *)
Definition stbds_hmlen (a : option arr) : Z :=
  match a with None => 0 | Some a => stbds_arrlen a - 1 end.

(** ** The default element *)

(** [stbds_hmput_default]. The other condition of the code, a length of 0, holds
    for no array: the functions that allocate one count the default element. *)
Definition stbds_hmput_default (a : option arr) : arr :=
  match a with None => stbds_new_array 0 | Some a => a end.

(** The macro [stbds_hmdefault]: [(t)[-1].value = (v)]. *)
Definition stbds_hmdefault (a : option arr) (v : V) : arr :=
  let a := stbds_hmput_default a in
  Arr (a_capacity a) (a_temp a) (a_hash_table a) (Some v) (a_items a).

(** [(t)[i].value] at an index of [stbds_hmgeti]; [zero] is the value with all
    bytes zero. *)
Definition value_at (zero : V) (a : arr) (i : Z) : res V :=
  if i =? -1 then Ok (default zero (a_default a))
  else if 0 <=? i then
    match a_items a !! Z.to_nat i with Some kv => Ok kv.2 | None => Fault OutOfBounds end
  else Fault OutOfBounds.

(** The macro [stbds_hmget], and [stbds_hmget_ts] with its own [temp]. *)
Definition stbds_hmget (zero : V) (a : option arr) (key : K) : res (V * arr) :=
  match stbds_hmget_key a key with
  | Fault f => Fault f
  | Ok a =>
      match value_at zero a (a_temp a) with Ok v => Ok (v, a) | Fault f => Fault f end
  end.

Definition stbds_hmget_ts (zero : V) (a : option arr) (key : K) : res (V * arr) :=
  match stbds_hmget_key_ts a key with
  | Fault f => Fault f
  | Ok (a, temp) =>
      match value_at zero a temp with Ok v => Ok (v, a) | Fault f => Fault f end
  end.

(** [stbds_hmgetp_null]: a pointer to the element, [None] for NULL. *)
Definition stbds_hmgetp_null (a : option arr) (key : K) : res (option Z * arr) :=
  match stbds_hmget_key a key with
  | Fault f => Fault f
  | Ok a => Ok (if a_temp a =? -1 then None else Some (a_temp a), a)
  end.
End ops.

(** A stored hash is a 64-bit value that can be told from an empty and from a
    deleted slot, for keys of every length and every seed: neither the three byte
    hashes nor the string hash leave the width of [size_t], and the two reserved
    values are skipped. *)
Theorem stored_hash_in_use (p : list Z) (sd : Z) :
  Forall is_byte p -> in_u 64 sd ->
  (in_u 64 (stbds_hash_bytes p sd) /\ in_u 64 (stored_hash (stbds_hash_bytes p sd)) /\
   stored_hash (stbds_hash_bytes p sd) <> STBDS_HASH_EMPTY /\
   stored_hash (stbds_hash_bytes p sd) <> STBDS_HASH_DELETED) /\
  in_u 64 (stbds_hash_string p sd) /\ in_u 64 (stored_hash (stbds_hash_string p sd)) /\
  stored_hash (stbds_hash_string p sd) <> STBDS_HASH_EMPTY /\
  stored_hash (stbds_hash_string p sd) <> STBDS_HASH_DELETED.
Proof.
  intros Hp Hs. pose proof (stbds_hash_bytes_range p sd Hp Hs) as Hr.
  pose proof (stbds_hash_string_range p sd) as Hr'.
  unfold stored_hash, STBDS_HASH_EMPTY, STBDS_HASH_DELETED, in_u in *.
  destruct (Z.ltb_spec (stbds_hash_bytes p sd) 2), (Z.ltb_spec (stbds_hash_string p sd) 2); lia.
Qed.

Lemma stored_hash_in_use_witness : stored_hash (stbds_hash_bytes [1; 2; 3] 12345) <> STBDS_HASH_DELETED.
Proof. apply (stored_hash_in_use [1; 2; 3] 12345); decided. Defined.
