(* ===== verification/StbArray.v ===== *)
(** StbArray: the dynamic arrays of stb_ds, the [arr*] macros of
    [3rd/include/hcore/stb_ds.h].

    An array is NULL or a header and the slots behind it; a slot that was never
    written is [None].  The macros assign to the array variable, so each returns
    the new one.  Counts are [size_t] and do not wrap on the way up, as they count
    objects in memory.  A count that would go below zero is a huge [size_t], which
    no array reaches: such an access is the fault [OutOfBounds]. *)

From S2P Require Import Prelude Hhash StbMem StbTable.

(** ** Data *)

Record stbds_arr (T : Type) := DynArr {
  d_length : Z;
  d_slots : list (option T)      (* [capacity] of them *)
}.
Arguments DynArr {T}.
Arguments d_length {T}.
Arguments d_slots {T}.

Definition d_capacity {T} (d : stbds_arr T) : Z := Z.of_nat (length (d_slots d)).

Section macros.
Context {T : Type}.
Abbreviation dyn := (option (stbds_arr T)).

Definition stbds_arrcap (a : dyn) : Z := match a with None => 0 | Some d => d_capacity d end.
Definition stbds_arrlenu (a : dyn) : Z := match a with None => 0 | Some d => d_length d end.

(** [stbds_arrgrow]: [stbds_arrgrowf] with its [realloc]; the old slots are kept. *)
Definition stbds_arrgrow (a : dyn) (addlen min_cap : Z) : stbds_arr T :=
  let cap := stbds_arrgrowf (stbds_arrlenu a) (stbds_arrcap a) addlen min_cap in
  match a with
  | None => DynArr 0 (replicate (Z.to_nat cap) None)
  | Some d => DynArr (d_length d) (d_slots d ++ replicate (Z.to_nat cap - length (d_slots d)) None)
  end.

Definition stbds_arrmaybegrow (a : dyn) (n : Z) : stbds_arr T :=
  match a with
  | None => stbds_arrgrow None n 0
  | Some d => if d_capacity d <? d_length d + n then stbds_arrgrow (Some d) n 0 else d
  end.

(** [(a)[i]] and [(a)[i] = v]. *)
Definition slot_get (d : stbds_arr T) (i : Z) : res T :=
  if 0 <=? i then
    match d_slots d !! Z.to_nat i with
    | Some (Some v) => Ok v
    | Some None => Fault Uninitialised
    | None => Fault OutOfBounds
    end
  else Fault OutOfBounds.

Definition slot_set (d : stbds_arr T) (i : Z) (v : T) : res (stbds_arr T) :=
  if (0 <=? i) && (i <? d_capacity d)
  then Ok (DynArr (d_length d) (<[Z.to_nat i := Some v]> (d_slots d)))
  else Fault OutOfBounds.

(** [memmove(&(a)[dst], &(a)[src], sizeof *(a) * count)]. *)
Definition slots_move (d : stbds_arr T) (dst src count : Z) : res (stbds_arr T) :=
  if (0 <=? count) && (0 <=? src) && (src + count <=? d_capacity d)
     && (0 <=? dst) && (dst + count <=? d_capacity d)
  then Ok (DynArr (d_length d)
             (list_inserts (Z.to_nat dst) (take (Z.to_nat count) (drop (Z.to_nat src) (d_slots d)))
                           (d_slots d)))
  else Fault OutOfBounds.

(** [stbds_header(a)->length = n]. *)
Definition with_length (d : stbds_arr T) (n : Z) : stbds_arr T := DynArr n (d_slots d).

Definition stbds_arrput (a : dyn) (v : T) : res dyn :=
  let d := stbds_arrmaybegrow a 1 in
  match slot_set d (d_length d) v with
  | Ok d => Ok (Some (with_length d (d_length d + 1)))
  | Fault f => Fault f
  end.

Definition stbds_arrpop (a : dyn) : res (T * dyn) :=
  match a with
  | None => Fault NullDeref
  | Some d =>
      let d := with_length d (d_length d - 1) in
      match slot_get d (d_length d) with Ok v => Ok (v, Some d) | Fault f => Fault f end
  end.

Definition stbds_arrlast (a : dyn) : res T :=
  match a with
  | None => Fault NullDeref
  | Some d => slot_get d (d_length d - 1)
  end.

(** The index of the first item added; [n] is not 0 or nothing is added. *)
Definition stbds_arraddnindex (a : dyn) (n : Z) : Z * dyn :=
  let d := stbds_arrmaybegrow a n in
  if n =? 0 then (d_length d, Some d) else (d_length d, Some (with_length d (d_length d + n))).

(** The pointer, as an index: without items it is the start of the array. *)
Definition stbds_arraddnptr (a : dyn) (n : Z) : Z * dyn :=
  let d := stbds_arrmaybegrow a n in
  if n =? 0 then (0, Some d) else (d_length d, Some (with_length d (d_length d + n))).

Definition stbds_arraddn (a : dyn) (n : Z) : dyn := (stbds_arraddnindex a n).2.

Definition stbds_arrdeln (a : dyn) (i n : Z) : res dyn :=
  match a with
  | None => Fault NullDeref
  | Some d =>
      match slots_move d i (i + n) (d_length d - n - i) with
      | Ok d => Ok (Some (with_length d (d_length d - n)))
      | Fault f => Fault f
      end
  end.

Definition stbds_arrdel (a : dyn) (i : Z) : res dyn := stbds_arrdeln a i 1.

Definition stbds_arrdelswap (a : dyn) (i : Z) : res dyn :=
  match a with
  | None => Fault NullDeref
  | Some d =>
      match stbds_arrlast a with
      | Fault f => Fault f
      | Ok v =>
          match slot_set d i v with
          | Ok d => Ok (Some (with_length d (d_length d - 1)))
          | Fault f => Fault f
          end
      end
  end.

Definition stbds_arrinsn (a : dyn) (i n : Z) : res dyn :=
  match stbds_arraddn a n with
  | None => Fault NullDeref
  | Some d =>
      match slots_move d (i + n) i (d_length d - n - i) with
      | Ok d => Ok (Some d)
      | Fault f => Fault f
      end
  end.

Definition stbds_arrins (a : dyn) (i : Z) (v : T) : res dyn :=
  match stbds_arrinsn a i 1 with
  | Ok (Some d) => match slot_set d i v with Ok d => Ok (Some d) | Fault f => Fault f end
  | Ok None => Fault NullDeref
  | Fault f => Fault f
  end.

Definition stbds_arrsetcap (a : dyn) (n : Z) : dyn := Some (stbds_arrgrow a 0 n).

Definition stbds_arrsetlen (a : dyn) (n : Z) : dyn :=
  let a := if stbds_arrcap a <? n then stbds_arrsetcap a n else a in
  (fun d => with_length d n) <$> a.

Definition stbds_arrfree (a : dyn) : dyn := None.

(** ** What an array holds *)

(** The first [length] slots are written, with the elements [l]. *)
Definition holds (a : dyn) (l : list T) : Prop :=
  match a with
  | None => l = []
  | Some d => d_length d = Z.of_nat (length l) /\ exists spare, d_slots d = (Some <$> l) ++ spare
  end.

Lemma holds_intro l spare : holds (Some (DynArr (Z.of_nat (length l)) ((Some <$> l) ++ spare))) l.
Proof. split; [done|]. by exists spare. Qed.

Lemma holds_len a l : holds a l -> stbds_arrlenu a = Z.of_nat (length l).
Proof. destruct a as [d|]; simpl; [by intros [? _]|by intros ->]. Qed.

Lemma holds_get d l i v : holds (Some d) l -> l !! i = Some v -> slot_get d (Z.of_nat i) = Ok v.
Proof.
  intros [_ [spare E]] Hv. unfold slot_get. rewrite (proj2 (Z.leb_le 0 _)), Nat2Z.id, E by lia.
  rewrite lookup_app_l, list_lookup_fmap, Hv by (rewrite length_fmap; by eapply lookup_lt_Some). done.
Qed.

Lemma holds_set d l i v : holds (Some d) l -> (i < length l)%nat ->
  exists d', slot_set d (Z.of_nat i) v = Ok d' /\ holds (Some d') (<[i := v]> l) /\
    d_capacity d' = d_capacity d.
Proof.
  intros [El [spare E]] Hi. unfold slot_set, d_capacity. rewrite E, length_app, length_fmap.
  rewrite (proj2 (Z.leb_le 0 _)), (proj2 (Z.ltb_lt _ _)), Nat2Z.id by lia. simpl.
  eexists. split; [done|]. split.
  - split; simpl; [by rewrite length_insert|]. exists spare.
    rewrite list_fmap_insert, insert_app_l; [done|by rewrite length_fmap].
  - simpl. by rewrite length_insert, length_app, length_fmap.
Qed.

(** Room for [n] more: the elements stay, and the array is big enough. *)
Lemma maybegrow_spec a l n : holds a l -> 0 <= n ->
  holds (Some (stbds_arrmaybegrow a n)) l /\
  Z.of_nat (length l) + n <= d_capacity (stbds_arrmaybegrow a n).
Proof.
  intros Ha Hn. unfold stbds_arrmaybegrow. destruct a as [d|].
  - pose proof Ha as [El [spare E]]. destruct (Z.ltb_spec (d_capacity d) (d_length d + n)) as [Hg|Hg].
    + unfold stbds_arrgrow. simpl. set (cap := stbds_arrgrowf _ _ _ _).
      assert (d_length d + n <= cap) as Hcap by apply arrgrowf_bounds. split.
      * split; [done|]. simpl. rewrite E, <- app_assoc. eauto.
      * unfold d_capacity. simpl. rewrite length_app, length_replicate. lia.
    + split; [done|]. lia.
  - simpl in Ha. subst l. unfold stbds_arrgrow. simpl. split.
    + split; [done|]. by eexists.
    + unfold d_capacity. simpl. rewrite length_replicate.
      pose proof (arrgrowf_bounds 0 0 n 0). lia.
Qed.

(** ** Each macro *)

Lemma arrput_spec a l v : holds a l ->
  exists a', stbds_arrput a v = Ok a' /\ holds a' (l ++ [v]).
Proof.
  intros Ha. destruct (maybegrow_spec a l 1 Ha) as [[El [spare E]] Hcap]; [lia|]. unfold stbds_arrput.
  destruct (stbds_arrmaybegrow a 1) as [n slots]. unfold d_capacity in Hcap. simpl in *. subst n slots.
  rewrite length_app, length_fmap in Hcap. destruct spare as [|x spare]; [simpl in Hcap; lia|].
  unfold slot_set, d_capacity. simpl. rewrite length_app, length_fmap. simpl.
  rewrite (proj2 (Z.leb_le 0 _)), (proj2 (Z.ltb_lt _ _)) by lia. simpl. eexists. split; [done|].
  split; simpl; [rewrite length_app; simpl; lia|]. exists spare.
  rewrite fmap_app, <- app_assoc. simpl.
  rewrite Nat2Z.id, insert_app_r_alt, length_fmap, Nat.sub_diag by (rewrite length_fmap; lia). done.
Qed.

Lemma arrpop_spec a l v : holds a (l ++ [v]) ->
  exists a', stbds_arrpop a = Ok (v, a') /\ holds a' l.
Proof.
  intros Ha. destruct a as [d|]; [|by destruct l]. unfold stbds_arrpop.
  pose proof Ha as [El [spare E]]. rewrite length_app in El. simpl in El.
  assert (d_length d - 1 = Z.of_nat (length l)) as El' by lia.
  assert (slot_get (with_length d (d_length d - 1)) (d_length (with_length d (d_length d - 1))) = Ok v) as ->.
  { simpl. rewrite El'. change (slot_get d (Z.of_nat (length l)) = Ok v).
    apply (holds_get d (l ++ [v])); [done|]. by rewrite lookup_app_r, Nat.sub_diag. }
  eexists. split; [done|]. split; simpl; [done|]. rewrite E, fmap_app, <- app_assoc. eauto.
Qed.

Lemma arrlast_spec a l v : holds a (l ++ [v]) -> stbds_arrlast a = Ok v.
Proof.
  intros Ha. destruct a as [d|]; [|by destruct l]. unfold stbds_arrlast. pose proof Ha as [El _].
  rewrite length_app in El. simpl in El.
  replace (d_length d - 1) with (Z.of_nat (length l)) by lia.
  apply (holds_get d (l ++ [v])); [done|]. by rewrite lookup_app_r, Nat.sub_diag.
Qed.

Lemma arrdeln_spec a l1 l2 l3 : holds a (l1 ++ l2 ++ l3) -> l1 ++ l2 ++ l3 <> [] ->
  exists a', stbds_arrdeln a (Z.of_nat (length l1)) (Z.of_nat (length l2)) = Ok a' /\ holds a' (l1 ++ l3).
Proof.
  intros Ha Hne. destruct a as [d|]; [|by rewrite Ha in Hne]. destruct Ha as [El [spare E]].
  unfold stbds_arrdeln, slots_move, d_capacity. rewrite E, El.
  repeat rewrite ?length_app, ?length_fmap.
  match goal with |- context [if ?b then _ else _] => replace b with true end.
  2:{ symmetry. rewrite !andb_true_iff, !Z.leb_le. lia. }
  eexists. split; [done|]. unfold with_length. simpl. split; simpl; [rewrite length_app; lia|].
  rewrite Nat2Z.id.
  assert (take (Z.to_nat (Z.of_nat (length l1 + (length l2 + length l3)) - Z.of_nat (length l2) - Z.of_nat (length l1)))
    (drop (Z.to_nat (Z.of_nat (length l1) + Z.of_nat (length l2))) ((Some <$> l1 ++ l2 ++ l3) ++ spare))
    = Some <$> l3) as ->.
  { rewrite !fmap_app, app_assoc, <- (app_assoc (_ ++ _)), drop_app_length'.
    - apply take_app_length'. rewrite length_fmap. lia.
    - rewrite length_app, !length_fmap. lia. }
  rewrite inserts_middle by (repeat rewrite ?length_app, ?length_fmap; lia).
  eexists. rewrite (fmap_app Some l1 l3), <- app_assoc. f_equal.
  rewrite fmap_app, <- app_assoc. apply take_app_length'. by rewrite length_fmap.
Qed.

Lemma arrdelswap_spec a l i : holds a l -> (i < length l)%nat ->
  exists a', stbds_arrdelswap a (Z.of_nat i) = Ok a' /\ holds a' (swap_delete i l).
Proof.
  intros Ha Hi. destruct (last l) as [x|] eqn:Ex; [|apply last_None in Ex as ->; simpl in Hi; lia].
  pose proof Ex as Ex'. apply last_Some in Ex' as [l' El].
  destruct a as [d|]; [|simpl in Ha; by subst]. unfold stbds_arrdelswap.
  rewrite El in Ha. rewrite (arrlast_spec (Some d) l' x Ha). rewrite <- El in Ha.
  destruct (holds_set d l i x Ha Hi) as (d' & -> & [Ed [spare E]] & _).
  eexists. split; [done|]. unfold with_length. rewrite length_insert in Ed.
  assert (swap_delete i l ++ (drop (length l - 1) (<[i := x]> l)) = <[i := x]> l) as Esw.
  { unfold swap_delete. rewrite Ex. case_decide as Hd.
    - rewrite <- (take_drop (length l - 1) (<[i := x]> l)) at 2. f_equal.
      rewrite take_insert_ge by lia. f_equal. lia.
    - rewrite <- take_insert_lt by lia. apply take_drop. }
  split; simpl.
  - rewrite Ed. apply (f_equal length) in Esw. rewrite length_app, length_drop, length_insert in Esw. lia.
  - rewrite E, <- Esw, fmap_app, <- app_assoc. eauto.
Qed.

(** [arrinsn] makes a gap of [n] slots whose contents are old ones. *)
Lemma arrinsn_spec a l1 l2 n : holds a (l1 ++ l2) ->
  exists gap spare, stbds_arrinsn a (Z.of_nat (length l1)) (Z.of_nat n)
    = Ok (Some (DynArr (Z.of_nat (length l1 + n + length l2))
                 ((Some <$> l1) ++ gap ++ (Some <$> l2) ++ spare))) /\ length gap = n.
Proof.
  intros Ha. destruct (maybegrow_spec a _ (Z.of_nat n) Ha) as [[El [spare E]] Hcap]; [lia|].
  unfold stbds_arrinsn, stbds_arraddn, stbds_arraddnindex.
  destruct (stbds_arrmaybegrow a (Z.of_nat n)) as [m slots]. unfold d_capacity in Hcap. simpl in *. subst m slots.
  assert ((if Z.of_nat n =? 0 then (Z.of_nat (length (l1 ++ l2)), Some (DynArr (Z.of_nat (length (l1 ++ l2))) ((Some <$> l1 ++ l2) ++ spare)))
    else (Z.of_nat (length (l1 ++ l2)), Some (with_length (DynArr (Z.of_nat (length (l1 ++ l2))) ((Some <$> l1 ++ l2) ++ spare))
      (Z.of_nat (length (l1 ++ l2)) + Z.of_nat n)))).2
    = Some (DynArr (Z.of_nat (length l1 + n + length l2)) ((Some <$> l1 ++ l2) ++ spare))) as ->.
  { destruct (Z.eqb_spec (Z.of_nat n) 0) as [E|_]; simpl; unfold with_length; simpl;
      do 2 f_equal; rewrite length_app; lia. }
  repeat rewrite ?length_app, ?length_fmap in Hcap.
  unfold slots_move, d_capacity. simpl. repeat rewrite ?length_app, ?length_fmap.
  match goal with |- context [if ?b then _ else _] => replace b with true end.
  2:{ symmetry. rewrite !andb_true_iff, !Z.leb_le. lia. }
  rewrite Nat2Z.id.
  assert (take (Z.to_nat (Z.of_nat (length l1 + n + length l2) - Z.of_nat n - Z.of_nat (length l1)))
    (drop (length l1) ((Some <$> l1 ++ l2) ++ spare)) = Some <$> l2) as ->.
  { rewrite fmap_app, <- app_assoc, drop_app_length' by (by rewrite length_fmap).
    apply take_app_length'. rewrite length_fmap. lia. }
  rewrite inserts_middle by (repeat rewrite ?length_app, ?length_fmap; lia).
  exists (take n ((Some <$> l2) ++ spare)). eexists. split.
  - assert (take (Z.to_nat (Z.of_nat (length l1) + Z.of_nat n)) ((Some <$> l1 ++ l2) ++ spare)
      = (Some <$> l1) ++ take n ((Some <$> l2) ++ spare)) as ->; [|by rewrite <- app_assoc].
    rewrite fmap_app, <- app_assoc, take_app, length_fmap, take_ge by (rewrite length_fmap; lia).
    do 2 f_equal. lia.
  - rewrite length_take, length_app, length_fmap. lia.
Qed.

Lemma arrins_spec a l1 l2 v : holds a (l1 ++ l2) ->
  exists a', stbds_arrins a (Z.of_nat (length l1)) v = Ok a' /\ holds a' (l1 ++ v :: l2).
Proof.
  intros Ha. destruct (arrinsn_spec a l1 l2 1 Ha) as (gap & spare & E & Hg).
  unfold stbds_arrins. rewrite (E : stbds_arrinsn a (Z.of_nat (length l1)) 1 = _).
  destruct gap as [|g [|]]; [done| |done]. unfold slot_set, d_capacity. simpl.
  rewrite (proj2 (Z.leb_le 0 _)), (proj2 (Z.ltb_lt _ _)), Nat2Z.id
    by (repeat rewrite ?length_app, ?length_fmap; simpl; lia). simpl.
  eexists. split; [done|]. split; simpl; [rewrite length_app; simpl; lia|]. exists spare.
  rewrite insert_app_r_alt, length_fmap, Nat.sub_diag by (rewrite length_fmap; lia).
  by rewrite fmap_app, <- app_assoc.
Qed.

(** Cutting to a shorter length keeps the front; room asked for is there. *)
Lemma arrsetlen_spec a l n : holds a l -> (n <= length l)%nat ->
  holds (stbds_arrsetlen a (Z.of_nat n)) (take n l).
Proof.
  intros Ha Hn. unfold stbds_arrsetlen. destruct a as [d|]; simpl in *.
  - destruct Ha as [El [spare E]].
    rewrite (proj2 (Z.ltb_ge _ _)) by (unfold d_capacity; rewrite E, length_app, length_fmap; lia).
    split; simpl; [rewrite length_take; lia|].
    exists ((Some <$> drop n l) ++ spare). by rewrite app_assoc, <- fmap_app, take_drop.
  - subst l. simpl in Hn. assert (n = 0%nat) as -> by lia. done.
Qed.

Lemma arrsetcap_spec a l n : holds a l ->
  holds (stbds_arrsetcap a n) l /\ n <= stbds_arrcap (stbds_arrsetcap a n).
Proof.
  intros Ha. unfold stbds_arrsetcap, stbds_arrgrow. simpl.
  set (cap := stbds_arrgrowf _ _ _ _). assert (n <= cap) as Hcap by apply arrgrowf_bounds.
  destruct a as [d|]; simpl in *.
  - destruct Ha as [El [spare E]]. split.
    + split; [done|]. simpl. rewrite E, <- app_assoc. eauto.
    + unfold d_capacity. simpl. rewrite length_app, length_replicate. lia.
  - subst l. split; [by split; [|eexists]|]. unfold d_capacity. simpl. rewrite length_replicate. lia.
Qed.
End macros.

(** ** Refinement: any sequence of macros *)

Inductive arr_op (T : Type) :=
  | ArrPut (v : T)
  | ArrPop
  | ArrLast
  | ArrIns (i : nat) (v : T)
  | ArrDeln (i n : nat)
  | ArrDelswap (i : nat)
  | ArrSetlen (n : nat)
  | ArrSetcap (n : nat)
  | ArrLen
  | ArrFree.
Arguments ArrPut {T}.
Arguments ArrPop {T}.
Arguments ArrLast {T}.
Arguments ArrIns {T}.
Arguments ArrDeln {T}.
Arguments ArrDelswap {T}.
Arguments ArrSetlen {T}.
Arguments ArrSetcap {T}.
Arguments ArrLen {T}.
Arguments ArrFree {T}.

Section run.
Context {T : Type}.
Abbreviation dyn := (option (stbds_arr T)).

(** A macro's value, where it has one. *)
Definition res_dyn (r : res dyn) : res (option (T + Z) * dyn) :=
  match r with Ok a => Ok (None, a) | Fault f => Fault f end.

Definition arr_step (op : arr_op T) (a : dyn) : res (option (T + Z) * dyn) :=
  match op with
  | ArrPut v => res_dyn (stbds_arrput a v)
  | ArrPop => match stbds_arrpop a with Ok (v, a) => Ok (Some (inl v), a) | Fault f => Fault f end
  | ArrLast => match stbds_arrlast a with Ok v => Ok (Some (inl v), a) | Fault f => Fault f end
  | ArrIns i v => res_dyn (stbds_arrins a (Z.of_nat i) v)
  | ArrDeln i n => res_dyn (stbds_arrdeln a (Z.of_nat i) (Z.of_nat n))
  | ArrDelswap i => res_dyn (stbds_arrdelswap a (Z.of_nat i))
  | ArrSetlen n => Ok (None, stbds_arrsetlen a (Z.of_nat n))
  | ArrSetcap n => Ok (None, stbds_arrsetcap a (Z.of_nat n))
  | ArrLen => Ok (Some (inr (stbds_arrlenu a)), a)
  | ArrFree => Ok (None, stbds_arrfree a)
  end.

Fixpoint arr_run (ops : list (arr_op T)) (a : dyn) : res (list (option (T + Z)) * dyn) :=
  match ops with
  | [] => Ok ([], a)
  | op :: ops =>
      match arr_step op a with
      | Ok (o, a) => match arr_run ops a with Ok (os, a) => Ok (o :: os, a) | Fault f => Fault f end
      | Fault f => Fault f
      end
  end.

(** The specification on lists; [None] where a macro is used outside the array. *)
Definition list_step (op : arr_op T) (l : list T) : option (option (T + Z) * list T) :=
  match op with
  | ArrPut v => Some (None, l ++ [v])
  | ArrPop => (fun v => (Some (inl v), take (length l - 1) l)) <$> last l
  | ArrLast => (fun v => (Some (inl v), l)) <$> last l
  | ArrIns i v => if decide (i <= length l)%nat then Some (None, take i l ++ v :: drop i l) else None
  | ArrDeln i n =>
      if decide (l <> [] /\ i + n <= length l)%nat then Some (None, take i l ++ drop (i + n) l) else None
  | ArrDelswap i => if decide (i < length l)%nat then Some (None, swap_delete i l) else None
  | ArrSetlen n => if decide (n <= length l)%nat then Some (None, take n l) else None
  | ArrSetcap _ => Some (None, l)
  | ArrLen => Some (Some (inr (Z.of_nat (length l))), l)
  | ArrFree => Some (None, [])
  end.

Fixpoint list_run (ops : list (arr_op T)) (l : list T) : option (list (option (T + Z)) * list T) :=
  match ops with
  | [] => Some ([], l)
  | op :: ops =>
      match list_step op l with
      | Some (o, l) => (fun '(os, l) => (o :: os, l)) <$> list_run ops l
      | None => None
      end
  end.

Lemma arr_step_refines op a l o l' :
  holds a l -> list_step op l = Some (o, l') ->
  exists a', arr_step op a = Ok (o, a') /\ holds a' l'.
Proof.
  intros Ha. destruct op as [v| | |i v|i n|i|n|n| |]; simpl; intros E;
    try (apply fmap_Some in E as (v & Ev & E); apply last_Some in Ev as [l0 ->]);
    try case_decide as Hd; simplify_eq/=.
  - destruct (arrput_spec a l v Ha) as (a' & -> & H). by exists a'.
  - destruct (arrpop_spec a l0 v Ha) as (a' & -> & H). exists a'. split; [done|].
    rewrite length_app. simpl. replace (length l0 + 1 - 1)%nat with (length l0) by lia.
    by rewrite take_app_length.
  - rewrite (arrlast_spec a l0 v Ha). by exists a.
  - rewrite <- (take_drop i l) in Ha. destruct (arrins_spec a _ _ v Ha) as (a' & E & H).
    rewrite length_take, Nat.min_l in E by done. rewrite E. by exists a'.
  - destruct Hd as [Hne Hin].
    assert (l = take i l ++ take n (drop i l) ++ drop (i + n) l) as El
      by (by rewrite <- (drop_drop l n i), !take_drop).
    rewrite El in Ha. destruct (arrdeln_spec a _ _ _ Ha) as (a' & E & H); [by rewrite <- El|].
    rewrite !length_take, length_drop, !Nat.min_l in E by lia. rewrite E. by exists a'.
  - destruct (arrdelswap_spec a l i Ha) as (a' & -> & Hh); [done|]. by exists a'.
  - eexists. split; [done|]. by apply arrsetlen_spec.
  - eexists. split; [done|]. by apply (arrsetcap_spec a l').
  - rewrite (holds_len a l') by done. by exists a.
  - by exists None.
Qed.

(** C15 Refinement of the stb_ds dynamic array to lists: any sequence of the array
    macros (append, pop, insert, delete a range, swap-delete, cut, reserve, free),
    each used inside the bounds the array has then, runs without an access outside
    the allocation or to a slot never written, through every reallocation, and its
    values are those of the list operations. *)
Theorem arr_refines_list (ops : list (arr_op T)) (os : list (option (T + Z))) (l' : list T) :
  list_run ops [] = Some (os, l') ->
  exists a', arr_run ops None = Ok (os, a') /\ holds a' l'.
Proof.
  assert (forall ops a l os l', holds a l -> list_run ops l = Some (os, l') ->
    exists a', arr_run ops a = Ok (os, a') /\ holds a' l') as H; [|by apply H].
  clear. intros ops; induction ops as [|op ops IH]; intros a l os l' Ha E; simpl in *.
  - injection E as <- <-. by exists a.
  - destruct (list_step op l) as [[o l1]|] eqn:E1; [|done].
    destruct (arr_step_refines op a l o l1 Ha E1) as (a1 & -> & Ha1).
    apply fmap_Some in E as ([os1 l2] & E2 & [= -> ->]).
    destruct (IH a1 l1 os1 l2 Ha1 E2) as (a2 & -> & Ha2). by exists a2.
Qed.

(** ** Amortised cost *)

(** The elements [realloc] copies for one [arrput]. *)
Definition put_copies (a : dyn) : Z :=
  match a with
  | None => 0
  | Some d => if d_capacity d <? d_length d + 1 then d_length d else 0
  end.

(** Appending a list, with the elements copied on the way. *)
Fixpoint arrput_all (a : dyn) (vs : list T) (copies : Z) : res (dyn * Z) :=
  match vs with
  | [] => Ok (a, copies)
  | v :: vs =>
      match stbds_arrput a v with
      | Ok a' => arrput_all a' vs (copies + put_copies a)
      | Fault f => Fault f
      end
  end.

(** After some appends to NULL: what was copied is paid for by the capacity, and
    the capacity by the length. *)
Definition paid (a : dyn) (copies : Z) : Prop :=
  match a with
  | None => copies = 0
  | Some d => 4 <= d_capacity d /\ d_length d <= d_capacity d /\ copies <= d_capacity d - 4 /\
      d_capacity d <= Z.max 4 (2 * d_length d)
  end.

Lemma slot_set_header (d d' : stbds_arr T) i v : slot_set d i v = Ok d' ->
  d_capacity d' = d_capacity d /\ d_length d' = d_length d.
Proof.
  unfold slot_set. destruct (_ && _); [|done]. intros [= <-]. unfold d_capacity. simpl.
  by rewrite length_insert.
Qed.

Lemma put_paid a l v copies a' : holds a l -> paid a copies -> stbds_arrput a v = Ok a' ->
  paid a' (copies + put_copies a).
Proof.
  intros Ha Hp. unfold stbds_arrput, put_copies, paid in *.
  destruct a as [d|]; [|intros [= <-]; subst copies; by vm_compute].
  unfold stbds_arrmaybegrow. destruct (Z.ltb_spec (d_capacity d) (d_length d + 1)) as [Hg|Hg].
  - assert (d_length d = d_capacity d) as El by lia.
    assert (d_capacity (stbds_arrgrow (Some d) 1 0) = 2 * d_capacity d) as Ec.
    { unfold stbds_arrgrow, d_capacity. simpl. rewrite length_app, length_replicate.
      fold (d_capacity d). rewrite El. unfold stbds_arrgrowf.
      rewrite (proj2 (Z.ltb_lt _ _)), (proj2 (Z.leb_gt _ _)), (proj2 (Z.ltb_lt _ _)) by lia.
      unfold d_capacity in *. lia. }
    destruct (slot_set _ _ _) as [d'|] eqn:E; [|done]. intros [= <-].
    apply slot_set_header in E as [E1 E2]. change (d_capacity (with_length d' (d_length d' + 1))) with (d_capacity d').
    simpl. rewrite E1, E2, Ec. simpl. lia.
  - destruct (slot_set _ _ _) as [d'|] eqn:E; [|done]. intros [= <-].
    apply slot_set_header in E as [E1 E2]. change (d_capacity (with_length d' (d_length d' + 1))) with (d_capacity d').
    simpl. rewrite E1, E2. lia.
Qed.

(** Appending is amortised constant time: appending any [n] elements to an empty
    array with [arrput] reallocates so that at most [2 * n] elements are copied
    in all, and leaves room for at most twice as many elements as there are (four,
    for a short array). *)
Theorem arrput_amortised (vs : list T) :
  exists a copies, arrput_all None vs 0 = Ok (a, copies) /\ holds a vs /\
    copies <= 2 * Z.of_nat (length vs) /\
    stbds_arrcap a <= Z.max 4 (2 * Z.of_nat (length vs)).
Proof.
  assert (forall vs a l c, holds a l -> paid a c -> exists a' c',
    arrput_all a vs c = Ok (a', c') /\ holds a' (l ++ vs) /\ paid a' c') as H.
  { clear vs. intros vs; induction vs as [|v vs IH]; intros a l c Ha Hp.
    - exists a, c. by rewrite app_nil_r.
    - simpl. destruct (arrput_spec a l v Ha) as (a1 & E & Ha1).
      pose proof (put_paid a l v c a1 Ha Hp E) as Hp1. rewrite E.
      destruct (IH a1 _ _ Ha1 Hp1) as (a2 & c2 & -> & Ha2 & Hp2).
      rewrite <- app_assoc in Ha2. by exists a2, c2. }
  destruct (H vs None [] 0) as (a & c & E & Ha & Hp); [done..|]. exists a, c. split_and!; [done|done|..];
    destruct a as [d|]; simpl in *; try lia; destruct Ha as [El _]; lia.
Qed.
End run.

Lemma arr_refines_list_witness :
  exists a', arr_run [ArrPut 1; ArrPut 2; ArrIns 1 5; ArrDelswap 0; ArrPop; ArrLen] None
    = Ok ([None; None; None; None; Some (inl 5); Some (inr 1)], a') /\ holds a' [2].
Proof.
  apply (arr_refines_list [ArrPut 1; ArrPut 2; ArrIns 1 5; ArrDelswap 0; ArrPop; ArrLen]
    [None; None; None; None; Some (inl 5); Some (inr 1)] [2]). by vm_compute.
Defined.

(** Popping and reading the last element of an empty array leave it. *)
Example arrpop_empty : stbds_arrpop (T := Z) (Some (DynArr 0 [None; None; None; None])) = Fault OutOfBounds
  /\ stbds_arrlast (T := Z) None = Fault NullDeref.
Proof. done. Qed.

(** The scenarios of [stbds_unit_tests] with arrays. *)
Definition four : list (arr_op Z) := [ArrPut 1; ArrPut 2; ArrPut 3; ArrPut 4].

Example arr_unit_del (i : nat) : (i < 4)%nat ->
  match arr_run (four ++ [ArrDeln i 1]) None, arr_run (four ++ [ArrDelswap i]) None with
  | Ok (_, Some d), Ok (_, Some d') => d_length d = 3 /\ d_length d' = 3
  | _, _ => False
  end.
Proof. intros H. do 4 (destruct i as [|i]; [by vm_compute|]). lia. Qed.

Example arr_unit_ins (i : nat) : (i < 5)%nat ->
  match arr_run (four ++ [ArrIns i 5]) None with
  | Ok (_, Some d) => slot_get d (Z.of_nat i) = Ok 5 /\ ((i < 4)%nat -> slot_get d 4 = Ok 4)
  | _ => False
  end.
Proof. intros H. do 5 (destruct i as [|i]; [by vm_compute; split; intros; try lia|]). lia. Qed.
