(* ===== verification/StbWalk.v ===== *)
(** StbWalk: the probing loops of StbTable.v as a walk along a list of slots.

    [flat_slots] turns the buckets into one list of slots; [lin_walk] runs a
    loop body along a list of positions of it.  [probe_walk_lin] says that the
    nested loops of stb_ds are that walk along [probe_seq], and [lin_walk_run]
    is the rule to reason about where it stops. *)

From S2P Require Import Prelude StbHash StbProbe StbTable.

(** ** Buckets as one list of slots *)

Definition bucket_ok (b : stbds_hash_bucket) : Prop :=
  length (b_hash b) = 8%nat /\ length (b_index b) = 8%nat.

Lemma zip_lookup (b : stbds_hash_bucket) i :
  zip (b_hash b) (b_index b) !! i =
  match b_hash b !! i, b_index b !! i with Some h, Some ix => Some (h, ix) | _, _ => None end.
Proof.
  generalize (b_hash b) (b_index b). intros l k. revert i k.
  induction l as [|x l IH]; intros i [|y k]; simpl; try (by destruct i); try by repeat case_match.
  destruct i; simpl; [done|]. apply IH.
Qed.

Lemma length_zip_bucket b : bucket_ok b -> length (zip (b_hash b) (b_index b)) = 8%nat.
Proof. intros [H1 H2]. rewrite length_zip. lia. Qed.

Lemma length_flat st : Forall bucket_ok st -> length (flat_slots st) = (8 * length st)%nat.
Proof.
  induction 1 as [|b st Hb _ IH]; [done|]. unfold flat_slots in *.
  rewrite bind_cons, length_app, length_zip_bucket, IH by done. simpl. lia.
Qed.

Lemma flat_lookup st j i b :
  Forall bucket_ok st -> (i < 8)%nat -> st !! j = Some b ->
  flat_slots st !! (8 * j + i)%nat = zip (b_hash b) (b_index b) !! i.
Proof.
  intros Hok Hi. revert j; induction Hok as [|b' st Hb Hok IH]; intros j Hj; [done|].
  unfold flat_slots in *. rewrite bind_cons.
  destruct j as [|j]; simplify_eq/=.
  - rewrite lookup_app_l; [done|]. by rewrite length_zip_bucket.
  - rewrite lookup_app_r by (rewrite length_zip_bucket by done; lia).
    rewrite length_zip_bucket by done. rewrite <- (IH j Hj). f_equal. lia.
Qed.

Lemma pos_split pos : 0 <= pos ->
  Z.to_nat pos = (8 * Z.to_nat (Z.shiftr pos STBDS_BUCKET_SHIFT)
                  + Z.to_nat (Z.land pos STBDS_BUCKET_MASK))%nat /\
  (Z.to_nat (Z.land pos STBDS_BUCKET_MASK) < 8)%nat.
Proof.
  intros H. rewrite bucket_off_eq. unfold STBDS_BUCKET_SHIFT.
  rewrite Z.shiftr_div_pow2 by lia. change (2 ^ 3) with 8.
  pose proof (Z.div_mod pos 8 ltac:(lia)). pose proof (Z.mod_pos_bound pos 8 ltac:(lia)).
  pose proof (Z.div_pos pos 8). lia.
Qed.

Lemma set_slot_ok pos h ix st : Forall bucket_ok st -> Forall bucket_ok (set_slot pos h ix st).
Proof.
  intros Hok. unfold set_slot. apply Forall_alter; [done|].
  intros b _ [H1 H2]. split; simpl; by rewrite length_insert.
Qed.

Lemma length_set_slot pos h ix st : length (set_slot pos h ix st) = length st.
Proof. unfold set_slot. apply length_alter. Qed.

(** Writing a slot of a bucket writes that position of the list of slots. *)
Lemma flat_set_slot pos h ix st :
  Forall bucket_ok st -> 0 <= pos < 8 * Z.of_nat (length st) ->
  flat_slots (set_slot pos h ix st) = <[Z.to_nat pos := (h, ix)]> (flat_slots st).
Proof.
  intros Hok Hpos. destruct (pos_split pos) as [-> Hi]; [lia|]. unfold set_slot.
  assert (Z.to_nat (Z.shiftr pos STBDS_BUCKET_SHIFT) < length st)%nat as Hj
    by (destruct (pos_split pos); lia).
  revert Hi Hj. generalize (Z.to_nat (Z.land pos STBDS_BUCKET_MASK)) as i.
  generalize (Z.to_nat (Z.shiftr pos STBDS_BUCKET_SHIFT)) as j. clear Hpos.
  intros j i Hi. revert j. induction Hok as [|b st Hb Hok IH]; intros [|j] Hj; simpl in Hj; try lia.
  - unfold flat_slots. cbn [alter list_alter]. rewrite !bind_cons. rewrite Nat.mul_0_r, Nat.add_0_l.
    rewrite insert_app_l by (by rewrite length_zip_bucket). f_equal.
    apply list_eq. intros n. rewrite zip_lookup. simpl.
    destruct (decide (n = i)) as [->|Hn].
    + destruct Hb as [H1 H2].
      rewrite !list_lookup_insert_eq by (rewrite ?length_zip; lia). done.
    + by rewrite !list_lookup_insert_ne, zip_lookup by done.
  - unfold flat_slots in *. cbn [alter list_alter]. rewrite !bind_cons.
    replace (8 * S j + i)%nat with (length (zip (b_hash b) (b_index b)) + (8 * j + i))%nat
      by (rewrite length_zip_bucket by done; lia).
    rewrite insert_app_r. rewrite IH by lia. done.
Qed.

Lemma flat_empty n : flat_slots (replicate n empty_bucket) = replicate (8 * n) (0, -1).
Proof.
  induction n as [|n IH]; [done|].
  replace (8 * S n)%nat with (8 + 8 * n)%nat by lia.
  rewrite replicate_add, <- IH. reflexivity.
Qed.

(** ** The walk *)

Section walk.
Context {A R : Type} (body : Z -> Z -> Z -> A -> res (flow A R)) (flat : list (Z * Z)).

Fixpoint lin_walk (ps : list Z) (a : A) : res (flow A R) :=
  match ps with
  | [] => Ok (Continue a)
  | p :: ps =>
      match flat !! Z.to_nat p with
      | None => Fault OutOfBounds
      | Some (h, ix) =>
          match body p h ix a with
          | Ok (Continue a) => lin_walk ps a
          | r => r
          end
      end
  end.

Lemma lin_walk_app ps qs a :
  lin_walk (ps ++ qs) a =
  match lin_walk ps a with Ok (Continue a) => lin_walk qs a | r => r end.
Proof.
  revert a; induction ps as [|p ps IH]; intros a; [done|]. simpl.
  destruct (flat !! Z.to_nat p) as [[h ix]|]; [|done].
  destruct (body p h ix a) as [[a'|r]|f]; [apply IH|done|done].
Qed.

(** The walk reaches position [t] when the body goes on at all earlier ones;
    [I] describes the accumulator. *)
Lemma lin_walk_run (I : nat -> A -> Prop) ps a t p h ix :
  I 0%nat a ->
  (forall s q h ix a, (s < t)%nat -> ps !! s = Some q -> flat !! Z.to_nat q = Some (h, ix) ->
    I s a -> exists a', body q h ix a = Ok (Continue a') /\ I (S s) a') ->
  (forall s q, (s < t)%nat -> ps !! s = Some q -> is_Some (flat !! Z.to_nat q)) ->
  ps !! t = Some p -> flat !! Z.to_nat p = Some (h, ix) ->
  exists a', I t a' /\
    forall r, body p h ix a' = Ok (Return r) -> lin_walk ps a = Ok (Return r).
Proof.
  revert I a t; induction ps as [|q ps IH]; intros I a t HI Hstep Hin Hp Hs; [done|].
  destruct t as [|t]; simplify_eq/=.
  - exists a. split; [done|]. intros r Hr. by rewrite Hs, Hr.
  - destruct (Hin 0%nat q) as [[h' ix'] Hq]; [lia|done|].
    destruct (Hstep 0%nat q h' ix' a) as (a' & Hb & HI'); [lia|done..|].
    destruct (IH (fun s => I (S s)) a' t) as (b & Hb1 & Hb2); try done.
    + intros s q' h1 ix1 a1 Hst Hq' Hf. apply (Hstep (S s)); [lia|done|done].
    + intros s q' Hst Hq'. apply (Hin (S s)); [lia|done].
    + exists b. split; [done|]. intros r Hr. rewrite Hq, Hb. by apply Hb2.
Qed.
End walk.

Section link.
Context {A R : Type} (body : Z -> Z -> Z -> A -> res (flow A R)).

(** An inner loop walks along its slots. *)
Lemma bucket_walk_lin st j b ixs a :
  Forall bucket_ok st -> st !! j = Some b -> Forall (fun i => i < 8)%nat ixs ->
  bucket_walk body b (8 * Z.of_nat j) ixs a
  = lin_walk body (flat_slots st) (map (fun i => 8 * Z.of_nat j + Z.of_nat i) ixs) a.
Proof.
  intros Hok Hb. revert a; induction ixs as [|i ixs IH]; intros a Hi; [done|]. simpl.
  apply Forall_cons in Hi as [Hi Hixs].
  replace (Z.to_nat (8 * Z.of_nat j + Z.of_nat i)) with (8 * j + i)%nat by lia.
  rewrite (flat_lookup st j i b), zip_lookup by done.
  assert (bucket_ok b) as [H1 H2] by (by eapply Forall_lookup_1).
  destruct (lookup_lt_is_Some_2 (b_hash b) i) as [h ->]; [lia|].
  destruct (lookup_lt_is_Some_2 (b_index b) i) as [ix ->]; [lia|].
  destruct (body _ h ix a) as [[a'|r]|f]; [by apply IH|done|done].
Qed.

(** The loops of stb_ds are a walk along the probe sequence. *)
Lemma probe_walk_lin fuel st k pos step a :
  Forall bucket_ok st -> 0 <= k -> Z.of_nat (length st) = 2 ^ k -> 0 <= pos < 8 * 2 ^ k ->
  probe_walk body body fuel st (8 * 2 ^ k) pos step a =
  match lin_walk body (flat_slots st) (probe_seq fuel (8 * 2 ^ k) pos step) a with
  | Ok (Return r) => Ok r
  | Ok (Continue _) => Fault OutOfFuel
  | Fault f => Fault f
  end.
Proof.
  intros Hok Hk Hlen. revert pos step a; induction fuel as [|fuel IH]; intros pos step a Hpos; [done|].
  simpl. destruct (pos_split pos) as [Hsp Hlt]; [lia|].
  destruct (lookup_lt_is_Some_2 st (Z.to_nat (Z.shiftr pos STBDS_BUCKET_SHIFT))) as [b Hb]; [lia|].
  rewrite Hb.
  assert (bucket_base pos = 8 * Z.of_nat (Z.to_nat (Z.shiftr pos STBDS_BUCKET_SHIFT))) as Hbase.
  { rewrite bucket_base_eq. unfold STBDS_BUCKET_SHIFT.
    rewrite Z.shiftr_div_pow2 by lia. change (2 ^ 3) with 8.
    rewrite Z2Nat.id; [done|]. apply Z.div_pos; lia. }
  rewrite lin_walk_app. unfold bucket_order. rewrite map_app, lin_walk_app, Hbase.
  assert (forall m n, (m + n <= 8)%nat -> Forall (fun i => i < 8)%nat (seq m n)) as Hseq
    by (intros m n ?; apply Forall_forall; intros i Hi; apply elem_of_seq in Hi; lia).
  rewrite (bucket_walk_lin st _ b) by (done || (apply Hseq; lia)).
  destruct (lin_walk _ _ (map _ (seq _ (8 - _))) a) as [[a1|r]|f]; [|done|done].
  rewrite (bucket_walk_lin st _ b) by (done || (apply Hseq; lia)).
  destruct (lin_walk _ _ (map _ (seq 0 _)) a1) as [[a2|r]|f]; [|done|done].
  apply IH.
  replace (8 * 2 ^ k - 1) with (2 ^ (k + 3) - 1) by (rewrite Z.pow_add_r by lia; lia).
  rewrite land_mask by lia. rewrite Z.pow_add_r by lia.
  replace (2 ^ k * 2 ^ 3) with (8 * 2 ^ k) by lia. apply Z.mod_pos_bound. lia.
Qed.
End link.
