(* ===== verification/StbInv.v ===== *)
(** StbInv: the invariant of the stb_ds table and what the probing loops find.

    [core] describes the slots alone: each is empty, deleted or in use, at least
    one is empty, and every slot in use is reached from its hash without passing
    an empty slot.  [entries] ties the slots in use to the array of elements. *)

From S2P Require Import Prelude StbHash StbProbe StbTable StbWalk.

(** ** Slots *)

Definition slot_ok (s : Z * Z) : Prop :=
  s = (STBDS_HASH_EMPTY, STBDS_INDEX_EMPTY) \/ s = (STBDS_HASH_DELETED, STBDS_INDEX_DELETED)
  \/ (2 <= s.1 /\ 0 <= s.2).

Definition used (flat : list (Z * Z)) : list (Z * Z) := filter (fun s => 0 <= s.2) flat.
Definition empties (flat : list (Z * Z)) : list (Z * Z) := filter (fun s => s.1 = 0) flat.
Definition tombs (flat : list (Z * Z)) : list (Z * Z) := filter (fun s => s.1 = 1) flat.

(** The slots before position [t] of the probe sequence from [pos] are not
    empty. *)
Definition full_before (k pos : Z) (flat : list (Z * Z)) (t : nat) : Prop :=
  forall s q, (s < t)%nat -> probes (8 * 2 ^ k) pos !! s = Some q ->
    exists h ix, flat !! Z.to_nat q = Some (h, ix) /\ h <> 0.

Definition reaches (k h : Z) (flat : list (Z * Z)) (p : nat) : Prop :=
  exists t, probes (8 * 2 ^ k) (h mod (8 * 2 ^ k)) !! t = Some (Z.of_nat p) /\
    full_before k (h mod (8 * 2 ^ k)) flat t.

Definition core (k : Z) (flat : list (Z * Z)) : Prop :=
  0 <= k /\ Z.of_nat (length flat) = 8 * 2 ^ k /\ Forall slot_ok flat /\
  (forall p h ix, flat !! p = Some (h, ix) -> 2 <= h -> reaches k h flat p) /\
  Z.of_nat (length (used flat) + length (tombs flat)) < 8 * 2 ^ k.

Lemma probe_position_mod h k l : 0 <= k -> stbds_probe_position h (8 * 2 ^ k) l = h mod (8 * 2 ^ k).
Proof.
  intros Hk. unfold stbds_probe_position.
  replace (8 * 2 ^ k) with (2 ^ (k + 3)) by (rewrite Z.pow_add_r by lia; lia).
  apply land_mask. lia.
Qed.

Lemma mod_pos_range h k : 0 <= k -> 0 <= h mod (8 * 2 ^ k) < 8 * 2 ^ k.
Proof. intros Hk. apply Z.mod_pos_bound. lia. Qed.

Lemma probes_range k pos s q :
  0 <= k -> 0 <= pos < 8 * 2 ^ k -> probes (8 * 2 ^ k) pos !! s = Some q -> 0 <= q < 8 * 2 ^ k.
Proof.
  intros Hk Hp Hq. apply list_elem_of_lookup_2 in Hq.
  rewrite probes_permutation in Hq by done. apply elem_of_seqZ in Hq. lia.
Qed.

Lemma probes_NoDup k pos : 0 <= k -> 0 <= pos < 8 * 2 ^ k -> NoDup (probes (8 * 2 ^ k) pos).
Proof. intros Hk Hp. rewrite probes_permutation by done. apply NoDup_seqZ. Qed.

Lemma probes_all k pos p : 0 <= k -> 0 <= pos < 8 * 2 ^ k -> 0 <= p < 8 * 2 ^ k ->
  exists t, probes (8 * 2 ^ k) pos !! t = Some p.
Proof.
  intros Hk Hp Hq. apply list_elem_of_lookup_1. rewrite probes_permutation by done.
  apply elem_of_seqZ. lia.
Qed.

Lemma core_lookup k flat q : core k flat -> 0 <= q < 8 * 2 ^ k ->
  exists h ix, flat !! Z.to_nat q = Some (h, ix) /\ slot_ok (h, ix).
Proof.
  intros (Hk & Hl & Hok & _) Hq.
  destruct (lookup_lt_is_Some_2 flat (Z.to_nat q)) as [[h ix] Hs]; [lia|].
  exists h, ix. split; [done|]. by eapply Forall_lookup_1 in Hok.
Qed.

(** ** Replacing one slot *)

Lemma filter_replace {B} (P : B -> Prop) `{!forall x, Decision (P x)} (l : list B) p x y :
  l !! p = Some x ->
  (if decide (P x) then [x] else []) ++ filter P (<[p := y]> l)
  ≡ₚ (if decide (P y) then [y] else []) ++ filter P l.
Proof.
  intros Hp. apply lookup_lt_Some in Hp as Hlt.
  rewrite insert_take_drop by done. rewrite <- (take_drop_middle l p x Hp) at 3.
  rewrite !filter_app, !filter_cons.
  repeat case_decide; simpl; solve [done | by rewrite <- ?Permutation_middle; try apply perm_swap].
Qed.

Lemma used_replace flat p h ix h' ix' :
  flat !! p = Some (h, ix) ->
  (if decide (0 <= ix) then [(h, ix)] else []) ++ used (<[p := (h', ix')]> flat)
  ≡ₚ (if decide (0 <= ix') then [(h', ix')] else []) ++ used flat.
Proof.
  intros Hp. pose proof (filter_replace (fun s : Z * Z => 0 <= s.2) flat p (h, ix) (h', ix') Hp) as H.
  simpl in H. unfold used. repeat case_decide; done.
Qed.

Lemma tombs_replace flat p h ix h' ix' :
  flat !! p = Some (h, ix) ->
  (if decide (h = 1) then [(h, ix)] else []) ++ tombs (<[p := (h', ix')]> flat)
  ≡ₚ (if decide (h' = 1) then [(h', ix')] else []) ++ tombs flat.
Proof.
  intros Hp. pose proof (filter_replace (fun s : Z * Z => s.1 = 1) flat p (h, ix) (h', ix') Hp) as H.
  simpl in H. unfold tombs. repeat case_decide; done.
Qed.

(** Filling a slot keeps the paths of the other slots. *)
Lemma full_before_set k pos flat t p h ix :
  h <> 0 -> full_before k pos flat t -> full_before k pos (<[p := (h, ix)]> flat) t.
Proof.
  intros Hh Hf s q Hs Hq. destruct (Hf s q Hs Hq) as (h' & ix' & Hl & Hn).
  destruct (decide (p = Z.to_nat q)) as [->|].
  - exists h, ix. split; [|done]. apply list_lookup_insert_eq. by eapply lookup_lt_Some.
  - exists h', ix'. by rewrite list_lookup_insert_ne.
Qed.

Lemma reach_set k flat p h ix :
  h <> 0 ->
  (forall p h ix, flat !! p = Some (h, ix) -> 2 <= h -> reaches k h flat p) ->
  (2 <= h -> reaches k h flat p) ->
  (forall p' h' ix', <[p := (h, ix)]> flat !! p' = Some (h', ix') -> 2 <= h' ->
    reaches k h' (<[p := (h, ix)]> flat) p').
Proof.
  intros Hh Hr Hn p' h' ix' Hp' H2.
  assert (reaches k h' flat p') as (t & Ht & Hf).
  { apply list_lookup_insert_Some in Hp' as [(-> & [= <- <-] & _)|[_ Hp']]; [by apply Hn|].
    by eapply Hr. }
  exists t. split; [done|]. by apply full_before_set.
Qed.

(** ** An empty slot is always reached *)

Lemma slot_classes flat : Forall slot_ok flat ->
  (length (used flat) + length (tombs flat) +
   length (empties flat) = length flat)%nat.
Proof.
  unfold used, tombs, empties.
  induction 1 as [|s flat Hs _ IH]; [done|]. rewrite !filter_cons.
  destruct Hs as [->|[->|[H1 H2]]]; repeat case_decide; simpl in *;
    unfold STBDS_HASH_EMPTY, STBDS_HASH_DELETED, STBDS_INDEX_EMPTY, STBDS_INDEX_DELETED in *; lia.
Qed.

Lemma first_empty k flat pos :
  core k flat -> 0 <= pos < 8 * 2 ^ k ->
  exists t p, probes (8 * 2 ^ k) pos !! t = Some p /\ flat !! Z.to_nat p = Some (0, -1) /\
    full_before k pos flat t.
Proof.
  intros Hc Hpos. pose proof Hc as (Hk & Hl & Hok & _ & Hcnt).
  pose proof (slot_classes flat Hok) as Hcl.
  destruct (empties flat) as [|s0 l0] eqn:Ef; [simpl in Hcl; lia|].
  assert (s0 ∈ empties flat) as Hin by (rewrite Ef; left).
  apply list_elem_of_filter in Hin as [Hs0 Hin].
  apply list_elem_of_lookup_1 in Hin as [p0 Hp0].
  destruct (probes_all k pos (Z.of_nat p0)) as [t0 Ht0]; [done|done| |].
  { apply lookup_lt_Some in Hp0. lia. }
  set (P := fun q : Z => fst <$> flat !! Z.to_nat q = Some 0).
  destruct (list_find P (probes (8 * 2 ^ k) pos)) as [[t p]|] eqn:Efind.
  - apply list_find_Some in Efind as (Ht & HP & Hmin). unfold P in *.
    pose proof (probes_range k pos t p Hk Hpos Ht) as Hr.
    destruct (core_lookup k flat p Hc Hr) as (h & ix & Hs & Hsok).
    rewrite Hs in HP. simpl in HP. injection HP as ->.
    exists t, p. split_and!; [done| |].
    + destruct Hsok as [[= ->]|[[=]|[H _]]]; [done|]. simpl in H. lia.
    + intros s q Hst Hq. pose proof (probes_range k pos s q Hk Hpos Hq) as Hrq.
      destruct (core_lookup k flat q Hc Hrq) as (h' & ix' & Hsq & _).
      exists h', ix'. split; [done|]. intros ->. apply (Hmin s q Hq Hst). by rewrite Hsq.
  - exfalso. apply list_find_None in Efind. rewrite Forall_lookup in Efind.
    apply (Efind t0 _ Ht0). unfold P. rewrite Nat2Z.id, Hp0. simpl. by rewrite Hs0.
Qed.

(** ** The walk with the invariant *)

Section walk_core.
Context {A R : Type} (body : Z -> Z -> Z -> A -> res (flow A R)).

(** The loops stop with what the body returns at the [t]-th slot of the probe
    sequence when it goes on at the slots before. *)
Lemma probe_walk_core k st pos (I : nat -> A -> Prop) a t p h ix :
  core k (flat_slots st) -> Forall bucket_ok st -> Z.of_nat (length st) = 2 ^ k ->
  0 <= pos < 8 * 2 ^ k ->
  probes (8 * 2 ^ k) pos !! t = Some p -> flat_slots st !! Z.to_nat p = Some (h, ix) ->
  I 0%nat a ->
  (forall s q h ix a, (s < t)%nat -> probes (8 * 2 ^ k) pos !! s = Some q ->
    flat_slots st !! Z.to_nat q = Some (h, ix) -> slot_ok (h, ix) ->
    I s a -> exists a', body q h ix a = Ok (Continue a') /\ I (S s) a') ->
  exists a', I t a' /\
    forall r, body p h ix a' = Ok (Return r) ->
      probe_walk body body (length st) st (8 * 2 ^ k) pos STBDS_BUCKET_LENGTH a = Ok r.
Proof.
  intros Hc Hb Hlen Hpos Ht Hp HI Hstep. pose proof Hc as (Hk & Hl & Hok & _).
  destruct (lin_walk_run body (flat_slots st) I (probes (8 * 2 ^ k) pos) a t p h ix)
    as (a' & Ha' & Hr); [done| | |done|done|].
  - intros s q h' ix' a0 Hs Hq Hf HIs. eapply Hstep; try done. by eapply Forall_lookup_1 in Hok.
  - intros s q Hs Hq. pose proof (probes_range k pos s q Hk Hpos Hq) as Hr.
    destruct (core_lookup k _ q Hc Hr) as (h' & ix' & -> & _). eauto.
  - exists a'. split; [done|]. intros r Hb'. rewrite (probe_walk_lin body _ _ k) by done.
    replace (length st) with (Z.to_nat (8 * 2 ^ k / 8)).
    + unfold probes in Hr. by rewrite (Hr r Hb').
    + rewrite Z.mul_comm, Z.div_mul by lia. lia.
Qed.
End walk_core.
