(* ===== verification/StbOps.v ===== *)
(** StbOps: the operations of the stb_ds table implement an association array.

    [table_inv] is the representation invariant (slots against elements, counts
    against slots, thresholds); [find_slot], [make_hash_index], [hmput] and
    [hmdel] preserve it, never fault, never run out of fuel, and act on the
    array of elements as lookup, in-place update or append, and swap-delete. *)

From S2P Require Import Prelude Hhash StbHash StbProbe StbMem StbTable StbWalk StbInv.

(** Reduce the projections of tables and arrays. *)
Ltac table_cbn :=
  cbn [slot_count used_count used_count_threshold used_count_shrink_threshold tombstone_count
       tombstone_count_threshold seed slot_count_log2 storage with_slots
       a_items a_capacity a_hash_table a_temp].

Section ops.
Context {K V : Type} `{EqDecision K} (key_bytes : K -> list Z) (hash_bytes : list Z -> Z -> Z).
Context (kvalid : K -> Prop).
Context (Hhash : forall k sd, kvalid k -> in_u 64 sd -> 0 <= hash_bytes (key_bytes k) sd).
Context (Hinj : forall k k', kvalid k -> kvalid k' -> key_bytes k = key_bytes k' -> k = k').
Implicit Types (items : list (K * V)) (T : stbds_hash_index).

(** Every key can be read. *)
Definition readable (k : K) : res (list Z) := Ok (key_bytes k).

(** The hash a slot stores for a key. *)
Definition slot_hash (sd : Z) (key : K) : Z := stored_hash (hash_bytes (key_bytes key) sd).

Lemma key_hash_eq sd key : key_hash readable hash_bytes sd key = Ok (slot_hash sd key).
Proof. done. Qed.

(** The slots the elements must have: hash of the key, index in the array. *)
Definition entries (sd : Z) (items : list (K * V)) : list (Z * Z) :=
  imap (fun i kv => (slot_hash sd kv.1, Z.of_nat i)) items.

Definition table_core (k : Z) (T : stbds_hash_index) : Prop :=
  slot_count T = 8 * 2 ^ k /\ Forall bucket_ok (storage T) /\
  Z.of_nat (length (storage T)) = 2 ^ k /\ core k (flat_slots (storage T)) /\
  in_u 64 (seed T) /\
  used_count T = Z.of_nat (length (used (flat_slots (storage T)))) /\
  tombstone_count T = Z.of_nat (length (tombs (flat_slots (storage T)))) /\
  used_count_threshold T = 6 * 2 ^ k /\
  used_count_shrink_threshold T = (if decide (k = 0) then 0 else 2 * 2 ^ k) /\
  tombstone_count_threshold T = 2 ^ k + 2 ^ k / 2.

Definition table_inv (items : list (K * V)) (T : stbds_hash_index) : Prop :=
  exists k, table_core k T /\
    used (flat_slots (storage T)) ≡ₚ entries (seed T) items /\
    used_count T <= used_count_threshold T /\
    tombstone_count T <= tombstone_count_threshold T.

Definition items_ok (items : list (K * V)) : Prop :=
  NoDup items.*1 /\ Forall kvalid items.*1.

Lemma items_ok_valid items i kv : items_ok items -> items !! i = Some kv -> kvalid kv.1.
Proof.
  intros [_ Hv] Hi. rewrite Forall_lookup in Hv. apply (Hv i). by rewrite list_lookup_fmap, Hi.
Qed.

Lemma stored_hash_range sd key : in_u 64 sd -> kvalid key -> 2 <= slot_hash sd key.
Proof.
  intros Hs Hk. unfold slot_hash, stored_hash. pose proof (Hhash key sd Hk Hs).
  destruct (Z.ltb_spec (hash_bytes (key_bytes key) sd) 2); lia.
Qed.

(** ** Entries and slots *)

Lemma entries_lookup sd items i :
  entries sd items !! i = (fun kv => (slot_hash sd kv.1, Z.of_nat i)) <$> items !! i.
Proof. apply list_lookup_imap. Qed.

Lemma entries_NoDup sd items : NoDup (entries sd items).
Proof.
  apply NoDup_alt. intros i j x Hi Hj. rewrite entries_lookup in *.
  apply fmap_Some in Hi as (? & _ & ->). apply fmap_Some in Hj as (? & _ & [= _ ?]). lia.
Qed.

Lemma entries_elem sd items h ix :
  (h, ix) ∈ entries sd items <->
  0 <= ix /\ exists kv, items !! Z.to_nat ix = Some kv /\ h = slot_hash sd kv.1.
Proof.
  rewrite list_elem_of_lookup. split.
  - intros [i Hi]. rewrite entries_lookup in Hi. apply fmap_Some in Hi as (kv & Hkv & [= -> ->]).
    split; [lia|]. exists kv. by rewrite Nat2Z.id.
  - intros (Hix & kv & Hkv & ->). exists (Z.to_nat ix). rewrite entries_lookup, Hkv. simpl.
    do 2 f_equal. lia.
Qed.

Lemma used_elem flat p h ix : flat !! p = Some (h, ix) -> 0 <= ix -> (h, ix) ∈ used flat.
Proof. intros Hp Hix. apply list_elem_of_filter. split; [done|]. by eapply list_elem_of_lookup_2. Qed.

Lemma NoDup_filter_inj {B} (P : B -> Prop) `{!forall x, Decision (P x)} (l : list B) i j x :
  NoDup (filter P l) -> P x -> l !! i = Some x -> l !! j = Some x -> i = j.
Proof.
  intros Hnd HP. revert i j; induction l as [|y l IH]; intros i j Hi Hj; [done|].
  rewrite filter_cons in Hnd.
  assert (NoDup (filter P l)) as Hnd'
    by (case_decide; [by apply NoDup_cons in Hnd as [_ ?]|done]).
  assert (forall n, l !! n = Some x -> y = x -> False) as Hdup.
  { intros n Hn ->. rewrite decide_True in Hnd by done. apply NoDup_cons in Hnd as [Hnd _].
    apply Hnd, list_elem_of_filter. split; [done|]. by eapply list_elem_of_lookup_2. }
  destruct i as [|i], j as [|j]; simplify_eq/=; [done|exfalso; eauto|exfalso; eauto|].
  f_equal. by apply IH.
Qed.

Lemma slot_unique sd items flat p q h ix :
  used flat ≡ₚ entries sd items -> 0 <= ix ->
  flat !! p = Some (h, ix) -> flat !! q = Some (h, ix) -> p = q.
Proof.
  intros Hu Hix Hp Hq. apply (NoDup_filter_inj (fun s : Z * Z => 0 <= s.2) flat p q (h, ix)); try done.
  change (NoDup (used flat)). rewrite Hu. apply entries_NoDup.
Qed.

Lemma elem_used_slot flat s : s ∈ used flat -> exists p, flat !! p = Some s /\ 0 <= s.2.
Proof.
  intros Hs. apply list_elem_of_filter in Hs as [? Hs].
  apply list_elem_of_lookup_1 in Hs as [p Hp]. eauto.
Qed.

(** ** Finding a slot *)

Lemma is_key_equal_at items key ix kv :
  0 <= ix -> items !! Z.to_nat ix = Some kv ->
  stbds_is_key_equal readable items key ix = Ok (bool_decide (key_bytes key = key_bytes kv.1)).
Proof.
  intros Hix Hkv. unfold stbds_is_key_equal, key_at.
  rewrite (proj2 (Z.leb_le 0 ix)) by done. by rewrite Hkv.
Qed.

(** Every slot in use that has the key's hash holds a real element; no other
    slot than [p] holds the key. *)
Definition only_slot (items : list (K * V)) (T : stbds_hash_index) (key : K) (p : nat) : Prop :=
  forall q ix, flat_slots (storage T) !! q = Some (slot_hash (seed T) key, ix) ->
    0 <= ix -> exists kv, items !! Z.to_nat ix = Some kv /\
      (key_bytes key = key_bytes kv.1 -> q = p).

(** The loop body goes on at a slot that is not empty and holds no element
    with the key. *)
Lemma find_body_skip items H key q h ix :
  slot_ok (h, ix) -> h <> 0 -> 2 <= H ->
  (h = H -> 0 <= ix -> exists kv, items !! Z.to_nat ix = Some kv /\ key_bytes key <> key_bytes kv.1) ->
  find_body readable items H key q h ix tt = Ok (Continue tt).
Proof.
  intros Hok Hnz H2 Hno. unfold find_body.
  destruct (Z.eqb_spec h H) as [->|Hne].
  - assert (0 <= ix) as Hix
      by (destruct Hok as [[= ]|[[= ]|[_ ?]]]; unfold STBDS_HASH_EMPTY, STBDS_HASH_DELETED in *; simpl in *; lia).
    destruct (Hno eq_refl Hix) as (kv & Hkv & Hd).
    rewrite (is_key_equal_at items key ix kv) by done. by rewrite bool_decide_false.
  - by rewrite (proj2 (Z.eqb_neq h STBDS_HASH_EMPTY)) by done.
Qed.

Lemma find_slot_hit k items T key p ix kv :
  table_core k T -> kvalid key ->
  flat_slots (storage T) !! p = Some (slot_hash (seed T) key, ix) -> 0 <= ix ->
  items !! Z.to_nat ix = Some kv -> key_bytes key = key_bytes kv.1 ->
  only_slot items T key p ->
  stbds_hm_find_slot readable hash_bytes items T key = Ok (Z.of_nat p).
Proof.
  intros (Hn & Hb & Hlen & Hc & Hsd & _) Hk Hp Hix Hkv Heq Honly.
  pose proof (stored_hash_range (seed T) key Hsd Hk) as H2.
  pose proof Hc as (Hk0 & _ & _ & Hreach & _).
  destruct (Hreach p _ _ Hp H2) as (t & Ht & Hf).
  unfold stbds_hm_find_slot. rewrite key_hash_eq, Hn, probe_position_mod by done.
  pose proof (mod_pos_range (slot_hash (seed T) key) k Hk0) as Hr.
  destruct (probe_walk_core (find_body readable items (slot_hash (seed T) key) key)
    k (storage T) _ (fun _ _ => True) tt t (Z.of_nat p) (slot_hash (seed T) key) ix
    Hc Hb Hlen Hr Ht) as (a' & _ & Hres); [by rewrite Nat2Z.id|done| |].
  - intros s q h' ix' [] Hs Hq Hfq Hok _. exists tt. split; [|done].
    destruct (Hf s q Hs Hq) as (h1 & ix1 & Hs1 & Hnz). simplify_eq.
    apply find_body_skip; [done..|]. intros -> Hix'.
    destruct (Honly _ _ Hfq Hix') as (kv' & Hkv' & Hu). exists kv'. split; [done|].
    intros E. apply Hu in E. pose proof (probes_range _ _ _ _ Hk0 Hr Hq).
    assert (q = Z.of_nat p) as -> by lia.
    pose proof (NoDup_lookup _ _ _ _ (probes_NoDup k _ Hk0 Hr) Hq Ht). lia.
  - apply Hres. unfold find_body. rewrite Z.eqb_refl.
    rewrite (is_key_equal_at items key ix kv) by done. by rewrite bool_decide_true.
Qed.

Lemma find_slot_miss k items T key :
  table_core k T -> kvalid key ->
  (forall q ix, flat_slots (storage T) !! q = Some (slot_hash (seed T) key, ix) ->
    0 <= ix -> exists kv, items !! Z.to_nat ix = Some kv /\ key_bytes key <> key_bytes kv.1) ->
  stbds_hm_find_slot readable hash_bytes items T key = Ok (-1).
Proof.
  intros (Hn & Hb & Hlen & Hc & Hsd & _) Hk Hno.
  pose proof (stored_hash_range (seed T) key Hsd Hk) as H2.
  pose proof Hc as (Hk0 & _). unfold stbds_hm_find_slot.
  rewrite key_hash_eq, Hn, probe_position_mod by done.
  pose proof (mod_pos_range (slot_hash (seed T) key) k Hk0) as Hr.
  destruct (first_empty k _ _ Hc Hr) as (t & p & Ht & Hp & Hf).
  destruct (probe_walk_core (find_body readable items (slot_hash (seed T) key) key)
    k (storage T) _ (fun _ _ => True) tt t p 0 (-1) Hc Hb Hlen Hr Ht Hp) as (a' & _ & Hres); [done| |].
  - intros s q h' ix' [] Hs Hq Hfq Hok _. exists tt. split; [|done].
    destruct (Hf s q Hs Hq) as (h1 & ix1 & Hs1 & Hnz). simplify_eq.
    apply find_body_skip; [done..|]. intros -> Hix'. by eapply Hno.
  - apply Hres. unfold find_body.
    by rewrite (proj2 (Z.eqb_neq 0 (slot_hash (seed T) key))) by lia.
Qed.

(** What the table knows about a key: either it is an element, with the slot
    that holds it, or no slot holds it. *)
Lemma inv_only_slot k items T key p i v :
  table_core k T -> used (flat_slots (storage T)) ≡ₚ entries (seed T) items ->
  items_ok items -> items !! i = Some (key, v) ->
  flat_slots (storage T) !! p = Some (slot_hash (seed T) key, Z.of_nat i) ->
  only_slot items T key p.
Proof.
  intros Hc Hu Hok Hi Hp q ix Hq Hix.
  pose proof (used_elem _ _ _ _ Hq Hix) as Hin. rewrite Hu in Hin.
  apply entries_elem in Hin as (_ & kv & Hkv & _). exists kv. split; [done|].
  intros E. apply Hinj in E; [|by eapply (items_ok_valid items i (key, v))|by eapply items_ok_valid].
  destruct Hok as [Hnd _].
  assert (i = Z.to_nat ix) as Ei.
  { eapply NoDup_lookup; [done| |]; rewrite list_lookup_fmap, ?Hi, ?Hkv; simpl; [done|by rewrite E]. }
  eapply slot_unique; [done|exact Hix|exact Hq|].
  rewrite Hp. do 2 f_equal. lia.
Qed.

Lemma inv_slot k items T i key v :
  table_core k T -> used (flat_slots (storage T)) ≡ₚ entries (seed T) items ->
  items !! i = Some (key, v) ->
  exists p, flat_slots (storage T) !! p = Some (slot_hash (seed T) key, Z.of_nat i).
Proof.
  intros Hc Hu Hi. 
  destruct (elem_used_slot (flat_slots (storage T)) (slot_hash (seed T) key, Z.of_nat i))
    as (p & Hp & _); [|eauto].
  rewrite Hu. apply entries_elem. split; [lia|]. exists (key, v). by rewrite Nat2Z.id.
Qed.

Lemma inv_no_slot k items T key :
  table_core k T -> used (flat_slots (storage T)) ≡ₚ entries (seed T) items ->
  items_ok items -> kvalid key -> key ∉ items.*1 ->
  forall q ix, flat_slots (storage T) !! q = Some (slot_hash (seed T) key, ix) ->
    0 <= ix -> exists kv, items !! Z.to_nat ix = Some kv /\ key_bytes key <> key_bytes kv.1.
Proof.
  intros Hc Hu Hok Hk Hno q ix Hq Hix.
  pose proof (used_elem _ _ _ _ Hq Hix) as Hin. rewrite Hu in Hin.
  apply entries_elem in Hin as (_ & kv & Hkv & _). exists kv. split; [done|].
  intros E. apply Hinj in E; [|done|by eapply items_ok_valid].
  apply Hno. apply list_elem_of_fmap. exists kv. split; [done|]. by eapply list_elem_of_lookup_2.
Qed.

(** [stbds_hm_find_slot] finds the slot of a key that is present and reports
    -1 for a key that is not. *)
Lemma find_slot_spec items T key :
  table_inv items T -> items_ok items -> kvalid key ->
  (exists i v p, (items !! i = Some (key, v)) /\
     flat_slots (storage T) !! p = Some (slot_hash (seed T) key, Z.of_nat i) /\
     stbds_hm_find_slot readable hash_bytes items T key = Ok (Z.of_nat p)) \/
  ((key ∉ items.*1) /\ stbds_hm_find_slot readable hash_bytes items T key = Ok (-1)).
Proof.
  intros (k & Hc & Hu & _) Hok Hk. destruct (decide (key ∈ items.*1)) as [Hin|Hno].
  - left. apply list_elem_of_fmap in Hin as ([key' v] & -> & Hin).
    apply list_elem_of_lookup_1 in Hin as [i Hi].
    destruct (inv_slot k items T i key' v) as [p Hp]; [done..|].
    exists i, v, p. split_and!; [done..|].
    eapply (find_slot_hit k items T key' p (Z.of_nat i) (key', v)); try done; [lia|by rewrite Nat2Z.id|].
    by eapply inv_only_slot.
  - right. split; [done|]. eapply find_slot_miss; [done|done|]. by eapply inv_no_slot.
Qed.

(** ** Writing a slot *)

Lemma core_set k flat p h0 ix0 h ix :
  core k flat -> flat !! p = Some (h0, ix0) -> slot_ok (h, ix) -> h <> 0 ->
  (2 <= h -> reaches k h flat p) ->
  Z.of_nat (length (used (<[p := (h, ix)]> flat)) + length (tombs (<[p := (h, ix)]> flat)))
    < 8 * 2 ^ k ->
  core k (<[p := (h, ix)]> flat).
Proof.
  intros (Hk & Hl & Hok & Hr & _) Hp Hs Hh Hreach Hcnt.
  split_and!; [done|by rewrite length_insert| |by apply reach_set|done].
  by apply Forall_insert.
Qed.

Lemma in_use_idx h ix : slot_ok (h, ix) -> 2 <= h -> 0 <= ix.
Proof.
  intros [[= ]|[[= ]|[_ ?]]]; unfold STBDS_HASH_EMPTY, STBDS_HASH_DELETED in *; simpl in *; lia.
Qed.

(** Numbers: the thresholds of a table of [8 * 2 ^ k] slots. *)
Lemma thresholds_eq k :
  0 <= k ->
  8 * 2 ^ k - Z.shiftr (8 * 2 ^ k) 2 = 6 * 2 ^ k /\
  Z.shiftr (8 * 2 ^ k) 3 + Z.shiftr (8 * 2 ^ k) 4 = 2 ^ k + 2 ^ k / 2 /\
  (if 8 * 2 ^ k <=? STBDS_BUCKET_LENGTH then 0 else Z.shiftr (8 * 2 ^ k) 2) =
    (if decide (k = 0) then 0 else 2 * 2 ^ k).
Proof.
  intros Hk. rewrite !Z.shiftr_div_pow2 by lia.
  change (2 ^ 2) with 4. change (2 ^ 3) with 8. change (2 ^ 4) with (8 * 2).
  rewrite <- Z.div_div by lia. rewrite (Z.mul_comm 8), Z.div_mul by lia.
  assert (2 ^ k * 8 / 4 = 2 * 2 ^ k) as ->.
  { replace (2 ^ k * 8) with (2 * 2 ^ k * 4) by lia. by apply Z.div_mul. }
  split_and!; [lia|lia|]. unfold STBDS_BUCKET_LENGTH.
  case_decide as Hd; [by subst|].
  assert (2 ^ 1 <= 2 ^ k) by (apply Z.pow_le_mono_r; lia).
  rewrite (proj2 (Z.leb_gt _ _)) by lia. done.
Qed.

(** ** Rebuilding the table *)

Lemma rehash_step k st h ix :
  core k (flat_slots st) -> Forall bucket_ok st -> Z.of_nat (length st) = 2 ^ k ->
  tombs (flat_slots st) = [] -> 2 <= h -> 0 <= ix ->
  Z.of_nat (length (used (flat_slots st))) + 1 < 8 * 2 ^ k ->
  exists p, probe_walk rehash_body rehash_body (length st) st (8 * 2 ^ k) (h mod (8 * 2 ^ k))
      STBDS_BUCKET_LENGTH tt = Ok p /\
    core k (flat_slots (set_slot p h ix st)) /\
    tombs (flat_slots (set_slot p h ix st)) = [] /\
    used (flat_slots (set_slot p h ix st)) ≡ₚ (h, ix) :: used (flat_slots st).
Proof.
  intros Hc Hb Hlen Ht Hh Hix Hcnt. pose proof Hc as (Hk & Hl & Hok & _).
  pose proof (mod_pos_range h k Hk) as Hr.
  destruct (first_empty k _ _ Hc Hr) as (t & p & Hpt & Hp & Hf).
  pose proof (probes_range _ _ _ _ Hk Hr Hpt) as Hpr.
  destruct (probe_walk_core rehash_body k st _ (fun _ _ => True) tt t p 0 (-1) Hc Hb Hlen Hr Hpt Hp)
    as (a' & _ & Hres); [done| |].
  { intros s q h' ix' [] Hs Hq Hfq _ _. exists tt. split; [|done].
    destruct (Hf s q Hs Hq) as (h1 & ix1 & Hs1 & Hnz). simplify_eq. unfold rehash_body.
    by rewrite (proj2 (Z.eqb_neq h' 0)). }
  exists p. rewrite flat_set_slot by (done || lia).
  pose proof (used_replace _ _ _ _ h ix Hp) as Hu.
  pose proof (tombs_replace _ _ _ _ h ix Hp) as Htb.
  rewrite decide_False, decide_True in Hu by lia. rewrite !decide_False in Htb by lia.
  simpl in Hu, Htb. rewrite Ht in Htb. apply Permutation_nil_r in Htb.
  split; [by apply Hres|]. split_and!; [|done|done].
  eapply core_set; [done|done|by right; right|lia| |].
  - intros _. exists t. by rewrite Z2Nat.id by lia.
  - rewrite Hu, Htb. simpl. lia.
Qed.

Lemma rehash_spec k slots l2 st :
  core k (flat_slots st) -> Forall bucket_ok st -> Z.of_nat (length st) = 2 ^ k ->
  tombs (flat_slots st) = [] -> Forall slot_ok slots ->
  Z.of_nat (length (used slots) + length (used (flat_slots st))) < 8 * 2 ^ k ->
  exists st', rehash slots (8 * 2 ^ k) l2 st = Ok st' /\
    core k (flat_slots st') /\ Forall bucket_ok st' /\ Z.of_nat (length st') = 2 ^ k /\
    tombs (flat_slots st') = [] /\
    used (flat_slots st') ≡ₚ used slots ++ used (flat_slots st).
Proof.
  revert st; induction slots as [|[h ix] slots IH]; intros st Hc Hb Hlen Ht Hok Hcnt.
  { exists st. by split_and!. }
  apply Forall_cons in Hok as [Hs Hok]. pose proof Hc as (Hk & _).
  unfold used in Hcnt. rewrite filter_cons in Hcnt. simpl in Hcnt.
  unfold used at 2. rewrite filter_cons. simpl.
  unfold STBDS_INDEX_IN_USE. case_decide as Hix.
  - rewrite (proj2 (Z.leb_le 0 ix)), probe_position_mod by done.
    assert (2 <= h) as Hh by (destruct Hs as [[= ]|[[= ]|[? _]]]; unfold STBDS_INDEX_EMPTY, STBDS_INDEX_DELETED in *; simpl in *; lia).
    destruct (rehash_step k st h ix) as (p & Hw & Hc' & Ht' & Hu'); try done.
    { unfold used. simpl in Hcnt. lia. }
    rewrite Hw. destruct (IH (set_slot p h ix st)) as (st' & Hr & H1 & H2 & H3 & H4 & H5); try done.
    + by apply set_slot_ok.
    + by rewrite length_set_slot.
    + rewrite Hu'. unfold used. simpl in *. lia.
    + exists st'. split_and!; [done..|]. rewrite H5, Hu'. simpl.
      by rewrite Permutation_middle.
  - rewrite (proj2 (Z.leb_gt 0 ix)) by lia. by apply IH.
Qed.

Lemma core_empty k : 0 <= k ->
  core k (flat_slots (replicate (Z.to_nat (2 ^ k)) empty_bucket)) /\
  used (flat_slots (replicate (Z.to_nat (2 ^ k)) empty_bucket)) = [] /\
  tombs (flat_slots (replicate (Z.to_nat (2 ^ k)) empty_bucket)) = [].
Proof.
  intros Hk. rewrite flat_empty.
  assert (forall n, used (replicate n (0, -1)) = [] /\ tombs (replicate n (0, -1)) = []) as Hn.
  { induction n as [|n [H1 H2]]; [done|]. unfold used, tombs in *. simpl replicate.
    rewrite !filter_cons, !decide_False by (simpl; lia). done. }
  destruct (Hn (8 * Z.to_nat (2 ^ k))%nat) as [H1 H2]. split; [|done].
  pose proof (Z.pow_pos_nonneg 2 k). split_and!; [done| | | |].
  - rewrite length_replicate. lia.
  - apply Forall_replicate. by left.
  - intros p h ix Hp Hge. apply lookup_replicate in Hp as [[= -> ->] _]. lia.
  - rewrite H1, H2. simpl. lia.
Qed.

Lemma shiftr_slots k : 0 <= k ->
  Z.to_nat (Z.shiftr (8 * 2 ^ k) STBDS_BUCKET_SHIFT) = Z.to_nat (2 ^ k).
Proof.
  intros Hk. unfold STBDS_BUCKET_SHIFT. rewrite Z.shiftr_div_pow2 by lia.
  change (2 ^ 3) with 8. by rewrite Z.mul_comm, Z.div_mul by lia.
Qed.

Lemma replicate_bucket_ok n : Forall bucket_ok (replicate n empty_bucket).
Proof. by apply Forall_replicate. Qed.

(** A new table: 8 empty slots, the current global seed. *)
Lemma make_new_spec gs : in_u 64 gs ->
  exists T, stbds_make_hash_index STBDS_BUCKET_LENGTH None gs = Ok (T, stbds_next_seed gs) /\
    table_core 0 T /\ used (flat_slots (storage T)) = [] /\ seed T = gs /\
    used_count T = 0 /\ tombstone_count T = 0.
Proof.
  intros Hgs. destruct (core_empty 0) as (Hc & Hu & Ht); [lia|].
  eexists. split; [reflexivity|]. split_and!; try done.
  unfold table_core. split_and!; try done. apply replicate_bucket_ok.
Qed.

(** The copy of a table into [8 * 2 ^ k'] slots, when they are enough. *)
Lemma make_copy_spec k k' T gs :
  table_core k T -> 0 <= k' -> used_count T < 8 * 2 ^ k' ->
  exists T', stbds_make_hash_index (8 * 2 ^ k') (Some T) gs = Ok (T', gs) /\
    table_core k' T' /\ used (flat_slots (storage T')) ≡ₚ used (flat_slots (storage T)) /\
    seed T' = seed T /\ used_count T' = used_count T /\ tombstone_count T' = 0.
Proof.
  intros (Hn & Hb & Hlen & Hc & Hsd & Hus & Htb & _) Hk' Hcnt.
  unfold stbds_make_hash_index. rewrite shiftr_slots by done.
  destruct (core_empty k' Hk') as (Hc0 & Hu0 & Ht0).
  destruct Hc as (_ & _ & Hok & _).
  destruct (rehash_spec k' (flat_slots (storage T)) (stbds_log2 (8 * 2 ^ k'))
    (replicate (Z.to_nat (2 ^ k')) empty_bucket))
    as (st' & Hr & Hc' & Hb' & Hlen' & Ht' & Hu'); try done.
  - apply replicate_bucket_ok.
  - rewrite length_replicate. pose proof (Z.pow_pos_nonneg 2 k'). lia.
  - rewrite Hu0. simpl. lia.
  - rewrite Hr. eexists. split; [done|]. rewrite Hu0, app_nil_r in Hu'. simpl.
    destruct (thresholds_eq k' Hk') as (E1 & E2 & E3).
    split_and!; try done. unfold table_core. simpl. rewrite E1, E2, E3, Ht'.
    split_and!; try done. by rewrite Hu'.
Qed.

(** ** Insertion *)

Lemma put_body_skip items H key q h ix tb :
  slot_ok (h, ix) -> h <> 0 -> 2 <= H ->
  (h = H -> 0 <= ix -> exists kv, items !! Z.to_nat ix = Some kv /\ key_bytes key <> key_bytes kv.1) ->
  exists tb', put_body readable items H key q h ix tb = Ok (Continue tb') /\
    (tb' = tb \/ (tb' = q /\ h = 1 /\ ix = -2)).
Proof.
  intros Hok Hnz H2 Hno. unfold put_body.
  destruct (Z.eqb_spec h H) as [->|Hne].
  - destruct (Hno eq_refl (in_use_idx _ _ Hok H2)) as (kv & Hkv & Hd).
    rewrite (is_key_equal_at items key ix kv) by (done || by eapply in_use_idx).
    rewrite bool_decide_false by done. eauto.
  - rewrite (proj2 (Z.eqb_neq h 0)) by done.
    destruct ((tb <? 0) && (ix =? STBDS_INDEX_DELETED)) eqn:E; [|eauto].
    apply andb_true_iff in E as [_ E]. apply Z.eqb_eq in E. subst ix.
    eexists; split; [done|]. right. split; [done|].
    destruct Hok as [[= ]|[[= ->]|[_ Hx]]]; [done|]. by simpl in Hx.
Qed.

(** The accumulator of the put loop: a deleted slot passed on the way. *)
Definition tomb_seen (k pos : Z) (flat : list (Z * Z)) (t : nat) (tb : Z) : Prop :=
  tb = -1 \/ exists s, (s < t)%nat /\ probes (8 * 2 ^ k) pos !! s = Some tb /\
    flat !! Z.to_nat tb = Some (STBDS_HASH_DELETED, STBDS_INDEX_DELETED).

Lemma put_step k pos items T key t p :
  only_slot items T key p \/
  (forall q ix, flat_slots (storage T) !! q = Some (slot_hash (seed T) key, ix) ->
    0 <= ix -> exists kv, items !! Z.to_nat ix = Some kv /\ key_bytes key <> key_bytes kv.1) ->
  0 <= k -> 0 <= pos < 8 * 2 ^ k -> 2 <= slot_hash (seed T) key ->
  (probes (8 * 2 ^ k) pos !! t = Some (Z.of_nat p)) ->
  full_before k pos (flat_slots (storage T)) t ->
  forall s q h ix a, (s < t)%nat -> probes (8 * 2 ^ k) pos !! s = Some q ->
    flat_slots (storage T) !! Z.to_nat q = Some (h, ix) -> slot_ok (h, ix) ->
    tomb_seen k pos (flat_slots (storage T)) s a ->
    exists a', put_body readable items (slot_hash (seed T) key) key q h ix a
               = Ok (Continue a') /\
      tomb_seen k pos (flat_slots (storage T)) (S s) a'.
Proof.
  intros Hno Hk Hpos H2 Ht Hf s q h ix a Hs Hq Hfq Hok HI.
  destruct (Hf s q Hs Hq) as (h1 & ix1 & Hs1 & Hnz). simplify_eq.
  destruct (put_body_skip items (slot_hash (seed T) key) key q h ix a)
    as (a' & Hb & Ha'); try done.
  - intros -> Hix. destruct Hno as [Honly|Hno]; [|by eapply Hno].
    destruct (Honly _ _ Hfq Hix) as (kv & Hkv & Hu). exists kv. split; [done|].
    intros E. apply Hu in E. pose proof (probes_range _ _ _ _ Hk Hpos Hq).
    assert (q = Z.of_nat p) as -> by lia.
    pose proof (NoDup_lookup _ _ _ _ (probes_NoDup k _ Hk Hpos) Hq Ht). lia.
  - exists a'. split; [done|]. destruct Ha' as [->|(-> & -> & ->)].
    + destruct HI as [->|(s' & Hs' & Hp' & Hd')]; [by left|]. right. exists s'. split; [lia|done].
    + right. exists s. split; [lia|]. done.
Qed.

(** The put loop finds a present key. *)
Lemma put_walk_found k items T key i v :
  table_core k T -> used (flat_slots (storage T)) ≡ₚ entries (seed T) items ->
  items_ok items -> kvalid key -> items !! i = Some (key, v) ->
  probe_walk (put_body readable items (slot_hash (seed T) key) key)
    (put_body readable items (slot_hash (seed T) key) key)
    (length (storage T)) (storage T) (8 * 2 ^ k)
    (slot_hash (seed T) key mod (8 * 2 ^ k)) STBDS_BUCKET_LENGTH (-1)
  = Ok (PutFound (Z.of_nat i)).
Proof.
  intros Hct Hu Hok Hk Hi. pose proof Hct as (Hn & Hb & Hlen & Hc & Hsd & _).
  pose proof (stored_hash_range (seed T) key Hsd Hk) as H2.
  destruct (inv_slot k items T i key v Hct Hu Hi) as [p Hp].
  pose proof Hc as (Hk0 & _ & _ & Hreach & _).
  destruct (Hreach p _ _ Hp H2) as (t & Ht & Hf).
  pose proof (mod_pos_range (slot_hash (seed T) key) k Hk0) as Hr.
  destruct (probe_walk_core (put_body readable items (slot_hash (seed T) key) key)
    k (storage T) _ (tomb_seen k (slot_hash (seed T) key mod (8 * 2 ^ k)) (flat_slots (storage T)))
    (-1) t (Z.of_nat p)
    (slot_hash (seed T) key) (Z.of_nat i) Hc Hb Hlen Hr Ht) as (a' & _ & Hres).
  - by rewrite Nat2Z.id.
  - by left.
  - eapply put_step; try done. left. by eapply inv_only_slot.
  - apply Hres. unfold put_body. rewrite Z.eqb_refl.
    rewrite (is_key_equal_at items key _ (key, v)) by (lia || by rewrite Nat2Z.id).
    by rewrite bool_decide_true.
Qed.

(** The put loop stops at an empty slot when the key is absent; the slot the
    code then takes (the tombstone, if any) is reached from the hash. *)
Lemma put_walk_new k items T key :
  table_core k T -> used (flat_slots (storage T)) ≡ₚ entries (seed T) items ->
  items_ok items -> kvalid key -> key ∉ items.*1 ->
  exists pos tb, probe_walk (put_body readable items (slot_hash (seed T) key) key)
    (put_body readable items (slot_hash (seed T) key) key)
      (length (storage T)) (storage T) (8 * 2 ^ k)
      (slot_hash (seed T) key mod (8 * 2 ^ k)) STBDS_BUCKET_LENGTH (-1)
    = Ok (PutEmpty pos tb) /\
    exists p, (if 0 <=? tb then tb else pos) = Z.of_nat p /\
      reaches k (slot_hash (seed T) key) (flat_slots (storage T)) p /\
      flat_slots (storage T) !! p = Some (if 0 <=? tb then (1, -2) else (0, -1)).
Proof.
  intros Hct Hu Hok Hk Hno. pose proof Hct as (Hn & Hb & Hlen & Hc & Hsd & _).
  pose proof (stored_hash_range (seed T) key Hsd Hk) as H2.
  pose proof Hc as (Hk0 & _).
  pose proof (mod_pos_range (slot_hash (seed T) key) k Hk0) as Hr.
  destruct (first_empty k _ _ Hc Hr) as (t & p & Ht & Hp & Hf).
  pose proof (probes_range _ _ _ _ Hk0 Hr Ht) as Hpr.
  destruct (probe_walk_core (put_body readable items (slot_hash (seed T) key) key)
    k (storage T) _ (tomb_seen k (slot_hash (seed T) key mod (8 * 2 ^ k)) (flat_slots (storage T)))
    (-1) t p 0 (-1) Hc Hb Hlen Hr Ht Hp) as (tb & Htb & Hres).
  - by left.
  - eapply (put_step k _ items T key t (Z.to_nat p)); try done.
    + right. by eapply inv_no_slot.
    + by rewrite Z2Nat.id by lia.
  - exists p, tb. split.
    { apply Hres. unfold put_body.
      rewrite (proj2 (Z.eqb_neq 0 (slot_hash (seed T) key))) by lia. done. }
    destruct Htb as [->|(s & Hs & Hsp & Hsd')].
    + exists (Z.to_nat p). simpl. split_and!; [lia| |done].
      exists t. by rewrite Z2Nat.id by lia.
    + pose proof (probes_range _ _ _ _ Hk0 Hr Hsp) as Hsr.
      rewrite (proj2 (Z.leb_le 0 tb)) by lia.
      exists (Z.to_nat tb). split_and!; [lia| |done].
      exists s. rewrite Z2Nat.id by lia. split; [done|].
      intros s' q Hs' Hq. apply (Hf s' q); [lia|done].
Qed.

(** ** The array *)

Definition arr_inv (a : stbds_array K V) : Prop :=
  items_ok (a_items a) /\ stbds_arrlen a <= a_capacity a /\
  match a_hash_table a with
  | None => a_items a = []
  | Some T => table_inv (a_items a) T
  end.

(** The well-formed handles; NULL is the empty map. *)
Definition handle_inv (a : option (stbds_array K V)) : Prop := default True (arr_inv <$> a).
Definition handle_items (a : option (stbds_array K V)) : list (K * V) := default [] (a_items <$> a).

Lemma new_array_inv temp : arr_inv (stbds_new_array temp).
Proof. unfold arr_inv. simpl. split_and!; [split; constructor|by vm_compute|done]. Qed.

(** ** [stbds_hmget_key] *)

Lemma key_index_cases items key : items_ok items ->
  (exists i v, key_index key items = Some i /\ items !! i = Some (key, v)) \/
  (key_index key items = None /\ (key ∉ items.*1)).
Proof.
  intros _. destruct (key_index key items) as [i|] eqn:E.
  - left. apply key_index_Some in E as Hv. destruct Hv as [v Hv]. eauto.
  - right. split; [done|]. by apply key_index_None.
Qed.

Lemma hmget_key_ts_spec a key :
  handle_inv a -> kvalid key ->
  exists a', stbds_hmget_key_ts readable hash_bytes a key
      = Ok (a', from_option Z.of_nat (-1) (key_index key (handle_items a))) /\
    arr_inv a' /\ a_items a' = handle_items a /\ a_default a' = (a ≫= a_default) /\
    (forall x, a = Some x -> a' = x).
Proof.
  intros Ha Hk. destruct a as [a|]; simpl in *.
  2:{ eexists. split; [reflexivity|]. split_and!; try done. apply new_array_inv. }
  pose proof Ha as (Hok & Hcap & Ht). destruct (a_hash_table a) as [T|] eqn:ET.
  - exists a. destruct (find_slot_spec (a_items a) T key Ht Hok Hk) as [(i & v & p & Hi & Hp & ->)|[Hno ->]].
    + rewrite (proj2 (Z.ltb_ge (Z.of_nat p) 0)) by lia.
      unfold slot_index. rewrite Nat2Z.id, Hp.
      erewrite key_index_lookup; [|apply Hok|done]. split_and!; try done. by intros x [= ->].
    + simpl. rewrite (proj2 (key_index_None key (a_items a)) Hno). split_and!; try done. by intros x [= ->].
  - exists a. unfold handle_items. simpl. rewrite Ht. split_and!; try done. by intros x [= ->].
Qed.

Lemma hmget_key_spec a key :
  handle_inv a -> kvalid key ->
  exists a', stbds_hmget_key readable hash_bytes a key = Ok a' /\ arr_inv a' /\
    a_items a' = handle_items a /\
    a_temp a' = from_option Z.of_nat (-1) (key_index key (handle_items a)).
Proof.
  intros Ha Hk. destruct (hmget_key_ts_spec a key Ha Hk) as (a' & E & Hinv & Hit & _).
  unfold stbds_hmget_key. rewrite E. by eexists.
Qed.

(** ** [stbds_hmput] *)

Definition table_room (k : Z) (items : list (K * V)) (T : stbds_hash_index) : Prop :=
  table_core k T /\ used (flat_slots (storage T)) ≡ₚ entries (seed T) items /\
  used_count T < 6 * 2 ^ k /\ tombstone_count T <= 2 ^ k + 2 ^ k / 2.

Lemma put_table_spec gs a :
  arr_inv a -> in_u 64 gs ->
  exists T gs' k, put_table gs a = Ok (T, gs') /\ in_u 64 gs' /\ table_room k (a_items a) T.
Proof.
  intros (Hok & Hcap & Ht) Hgs. unfold put_table. destruct (a_hash_table a) as [T|].
  - destruct Ht as (k & Hc & Hu & Hus & Htb).
    pose proof Hc as (Hn & _ & _ & (Hk & _) & _ & _ & _ & Ethr & _ & Etb).
    pose proof (Z.pow_pos_nonneg 2 k).
    rewrite Ethr, Etb in *. destruct (Z.leb_spec (6 * 2 ^ k) (used_count T)) as [Hg|Hl].
    + rewrite Hn. replace (8 * 2 ^ k * 2) with (8 * 2 ^ (k + 1)) by (rewrite Z.pow_add_r by lia; lia).
      assert (2 ^ (k + 1) = 2 * 2 ^ k) as Hp2 by (rewrite Z.pow_add_r by lia; lia).
      destruct (make_copy_spec k (k + 1) T gs Hc) as (T' & E & Hc' & Hu' & Esd & Eus & Etm); [lia|lia|].
      exists T', gs, (k + 1). split_and!; [done|done|]. unfold table_room.
      rewrite Eus, Etm, Esd, Hu', Hp2. split_and!; [done|done|lia|].
      pose proof (Z.div_pos (2 * 2 ^ k) 2). lia.
    + exists T, gs, k. done.
  - destruct (make_new_spec gs Hgs) as (T & E & Hc & Hu & Esd & Eus & Etb).
    exists T, (stbds_next_seed gs), 0. split_and!; [done|apply next_seed_range|].
    unfold table_room. rewrite Hu, Ht, Eus, Etb. by split_and!.
Qed.

Lemma entries_snoc sd items key v :
  entries sd (items ++ [(key, v)])
  = entries sd items ++ [(slot_hash sd key, Z.of_nat (length items))].
Proof. unfold entries. rewrite imap_app. simpl. by rewrite Nat.add_0_r. Qed.

Lemma put_new_spec k a T key v pos tb p :
  arr_inv a -> table_room k (a_items a) T -> kvalid key -> key ∉ (a_items a).*1 ->
  (if 0 <=? tb then tb else pos) = Z.of_nat p ->
  reaches k (slot_hash (seed T) key) (flat_slots (storage T)) p ->
  flat_slots (storage T) !! p = Some (if 0 <=? tb then (1, -2) else (0, -1)) ->
  arr_inv (put_new a T (slot_hash (seed T) key) key v pos tb).
Proof.
  intros (Hok & Hcap & _) (Hct & Hu & Hus & Htb) Hk Hno Ep Hreach Hp.
  pose proof Hct as (Hn & Hb & Hlen & Hc & Hsd & Eus & Etm & Ethr & Esh & Ett).
  pose proof (stored_hash_range (seed T) key Hsd Hk) as H2.
  pose proof Hc as (Hk0 & Hl & _ & _ & Hcnt).
  assert (0 < 2 ^ k) as Hp0 by (apply Z.pow_pos_nonneg; lia).
  assert (2 ^ k / 2 < 2 ^ k) as Hp2 by (apply Z.div_lt; lia).
  set (h := slot_hash (seed T) key) in *.
  set (ix := Z.of_nat (length (a_items a))).
  assert (stbds_arrlen a - 1 = ix) as Eix by (unfold stbds_arrlen; lia).
  assert (used (<[p := (h, ix)]> (flat_slots (storage T))) ≡ₚ
    (h, ix) :: used (flat_slots (storage T)) /\
    Z.of_nat (length (tombs (<[p := (h, ix)]> (flat_slots (storage T))))) =
      (if 0 <=? tb then tombstone_count T - 1 else tombstone_count T)) as [Hu' Ht'].
  { destruct (0 <=? tb);
      pose proof (used_replace _ _ _ _ h ix Hp) as R1; pose proof (tombs_replace _ _ _ _ h ix Hp) as R2;
      rewrite decide_False, decide_True in R1 by lia; simpl in R1; (split; [done|]).
    - rewrite decide_True, decide_False in R2 by lia. apply Permutation_length in R2. simpl in R2. lia.
    - rewrite !decide_False in R2 by lia. apply Permutation_length in R2. simpl in R2. lia. }
  assert (flat_slots (set_slot (if 0 <=? tb then tb else pos) h ix (storage T))
    = <[p := (h, ix)]> (flat_slots (storage T))) as Hflat.
  { rewrite Ep, flat_set_slot, Nat2Z.id; [done|done|]. apply lookup_lt_Some in Hp.
    rewrite length_flat in Hp by done. lia. }
  unfold put_new. rewrite Eix. unfold arr_inv. cbn [a_items a_capacity a_hash_table a_temp].
  split_and!.
  - destruct Hok as [Hnd Hv]. split; rewrite fmap_app; simpl.
    + apply NoDup_app. split_and!; [done| |apply NoDup_singleton].
      intros x Hx Hx'. by apply list_elem_of_singleton in Hx' as ->.
    + apply Forall_app; split; [done|by constructor].
  - destruct (Z.ltb_spec (a_capacity a) (stbds_arrlen a + 1)) as [Hg|Hg];
      unfold stbds_arrlen at 1; cbn [a_items]; rewrite length_app; simpl.
    + pose proof (arrgrowf_bounds (stbds_arrlen a) (a_capacity a) 1 0). unfold stbds_arrlen in *. lia.
    + unfold stbds_arrlen in *. lia.
  - assert (Z.of_nat (length (used (<[p := (h, ix)]> (flat_slots (storage T))))) = used_count T + 1)
      as Eus' by (rewrite Hu'; simpl; lia).
    assert (core k (<[p:=(h, ix)]> (flat_slots (storage T)))) as Hc'.
    { destruct (if 0 <=? tb then (1, -2) else (0, -1)) as [h0 ix0] eqn:E0.
      eapply core_set; [done|exact Hp|right; right; simpl; lia|lia|done|].
      destruct (0 <=? tb); lia. }
    exists k. unfold table_core. table_cbn. rewrite Hflat, entries_snoc, Eus', Ht'.
    split_and!; try done; try (destruct (0 <=? tb); lia).
    + by apply set_slot_ok.
    + by rewrite length_set_slot.
    + by rewrite Hu', Hu, Permutation_app_comm.
Qed.

Lemma items_ok_set items i key v v' :
  items_ok items -> items !! i = Some (key, v) -> items_ok (<[i := (key, v')]> items) /\
  forall sd, entries sd (<[i := (key, v')]> items) = entries sd items.
Proof.
  intros [Hnd Hv] Hi.
  assert ((<[i := (key, v')]> items).*1 = items.*1) as E.
  { rewrite list_fmap_insert. apply list_insert_id. by rewrite list_lookup_fmap, Hi. }
  split; [split; by rewrite E|]. intros sd. apply list_eq. intros j.
  rewrite !entries_lookup. destruct (decide (i = j)) as [->|Hj].
  - rewrite list_lookup_insert_eq, Hi by (by eapply lookup_lt_Some). done.
  - by rewrite list_lookup_insert_ne.
Qed.

Lemma arr_inv_set a i key v v' temp :
  arr_inv a -> a_items a !! i = Some (key, v) ->
  arr_inv (Arr (a_capacity a) temp (a_hash_table a) (a_default a) (<[i := (key, v')]> (a_items a))).
Proof.
  intros (Hok & Hcap & Ht) Hi. destruct (items_ok_set _ _ _ _ v' Hok Hi) as [Hok' He].
  unfold arr_inv, stbds_arrlen in *. cbn. rewrite length_insert. split_and!; [done|done|].
  destruct (a_hash_table a) as [T|].
  - destruct Ht as (k & Hc & Hu & Hr). exists k. by rewrite He.
  - by rewrite Ht in Hi.
Qed.

(** The two ends of the put loop: the key is found where it is, or there is room
    for a new element. *)
Lemma put_walk_cases k a T key :
  arr_inv a -> table_room k (a_items a) T -> kvalid key ->
  let hash := slot_hash (seed T) key in
  let walk := probe_walk (put_body readable (a_items a) hash key) (put_body readable (a_items a) hash key)
    (length (storage T)) (storage T) (slot_count T)
    (stbds_probe_position hash (slot_count T) (slot_count_log2 T)) STBDS_BUCKET_LENGTH (-1) in
  (exists i v, key_index key (a_items a) = Some i /\ (a_items a !! i = Some (key, v)) /\
     walk = Ok (PutFound (Z.of_nat i))) \/
  (key_index key (a_items a) = None /\ (key ∉ (a_items a).*1) /\ exists pos tb,
     walk = Ok (PutEmpty pos tb) /\ forall v, arr_inv (put_new a T hash key v pos tb)).
Proof.
  intros Ha Hroom Hk. cbn zeta. pose proof Hroom as (Hct & Hu & _). pose proof Ha as (Hok & _ & _).
  pose proof Hct as (Hn & _ & _ & (Hk0 & _) & _). rewrite Hn, probe_position_mod by done.
  destruct (key_index_cases (a_items a) key Hok) as [(i & v & -> & Hi)|[-> Hno]]; [left|right].
  - exists i, v. split_and!; [done..|]. by apply (put_walk_found k (a_items a) T key i v).
  - split_and!; [done..|].
    destruct (put_walk_new k (a_items a) T key) as (pos & tb & -> & p & Ep & Hreach & Hp); try done.
    exists pos, tb. split; [done|]. intros v. by apply (put_new_spec k a T key v pos tb p).
Qed.

Lemma room_inv k items T : table_room k items T -> table_inv items T.
Proof.
  intros (Hct & Hu & Hus & Htm). pose proof Hct as (_ & _ & _ & _ & _ & _ & _ & Ethr & _ & Ett).
  exists k. split_and!; [done..| |]; lia.
Qed.

(** Writing the element the put loop found. *)
Lemma store_found k a T i key v v' :
  arr_inv a -> table_room k (a_items a) T -> a_items a !! i = Some (key, v) ->
  exists a', store_at_temp (Arr (a_capacity a) (Z.of_nat i) (Some T) (a_default a) (a_items a))
      (key, v') = Ok a' /\ arr_inv a' /\ a_items a' = <[i := (key, v')]> (a_items a) /\
    a_default a' = a_default a.
Proof.
  intros (Hok & Hcap & _) Hroom Hi. apply lookup_lt_Some in Hi as Hlt.
  unfold store_at_temp. cbn. rewrite bool_decide_true by lia. rewrite Nat2Z.id.
  eexists. split; [done|]. split_and!; try done.
  apply (arr_inv_set (Arr (a_capacity a) (Z.of_nat i) (Some T) (a_default a) (a_items a)) i key v v'); [|done].
  split_and!; [done|done|]. by eapply room_inv.
Qed.

(** Writing the element the put loop appended. *)
Lemma store_new {K' : Type} (a : stbds_array K' V) T hash key v key' v' pos tb :
  store_at_temp (put_new a T hash key v pos tb) (key', v') = Ok (put_new a T hash key' v' pos tb).
Proof.
  unfold store_at_temp, put_new, stbds_arrlen. cbn. rewrite length_app. simpl.
  rewrite bool_decide_true by lia. do 2 f_equal.
  rewrite insert_app_r_alt by lia.
  replace (Z.to_nat _ - _)%nat with 0%nat by lia. done.
Qed.

Lemma hmput_spec gs a key v :
  handle_inv a -> in_u 64 gs -> kvalid key ->
  exists a' gs', stbds_hmput readable hash_bytes gs a key v = Ok (a', gs') /\ in_u 64 gs' /\ arr_inv a' /\
    a_items a' = match key_index key (handle_items a) with
                 | Some n => <[n := (key, v)]> (handle_items a)
                 | None => handle_items a ++ [(key, v)]
                 end.
Proof.
  intros Ha Hgs Hk.
  assert (exists a0, match a with None => stbds_new_array 0 | Some a => a end = a0 /\
    arr_inv a0 /\ a_items a0 = handle_items a) as (a0 & E0 & Ha0 & <-).
  { destruct a as [a|]; simpl in *; eexists; split_and!; try done. apply new_array_inv. }
  unfold stbds_hmput, stbds_hmput_key. rewrite E0. clear E0 Ha a.
  destruct (put_table_spec gs a0 Ha0 Hgs) as (T & gs' & k & -> & Hgs' & Hroom).
  rewrite key_hash_eq.
  destruct (put_walk_cases k a0 T key Ha0 Hroom Hk) as [(i & v0 & -> & Hi & ->)|(-> & _ & pos & tb & -> & Hnew)].
  - destruct (store_found k a0 T i key v0 v Ha0 Hroom Hi) as (a' & -> & Hinv & Hit & _).
    by exists a', gs'.
  - rewrite store_new. by exists (put_new a0 T (slot_hash (seed T) key) key v pos tb), gs'.
Qed.

(** ** [stbds_hmdel_key] *)

(** Writing [h'], [ix'] over the slot [p] of a table and adjusting the counts
    by what was there. *)
Lemma table_core_set k T p h ix h' ix' us tb :
  table_core k T -> flat_slots (storage T) !! p = Some (h, ix) -> slot_ok (h', ix') -> h' <> 0 ->
  (2 <= h' -> reaches k h' (flat_slots (storage T)) p) ->
  us = Z.of_nat (length (used (<[p := (h', ix')]> (flat_slots (storage T))))) ->
  tb = Z.of_nat (length (tombs (<[p := (h', ix')]> (flat_slots (storage T))))) ->
  us + tb < 8 * 2 ^ k ->
  table_core k (with_slots T us tb (set_slot (Z.of_nat p) h' ix' (storage T))) /\
  flat_slots (set_slot (Z.of_nat p) h' ix' (storage T)) = <[p := (h', ix')]> (flat_slots (storage T)).
Proof.
  intros (Hn & Hb & Hlen & Hc & Hsd & Eus & Etm & Ethr & Esh & Ett) Hp Hs Hh Hr Hus Htb Hcnt.
  assert (flat_slots (set_slot (Z.of_nat p) h' ix' (storage T))
    = <[p := (h', ix')]> (flat_slots (storage T))) as E.
  { rewrite flat_set_slot, Nat2Z.id; [done|done|]. apply lookup_lt_Some in Hp.
    rewrite length_flat in Hp by done. lia. }
  split; [|done]. unfold table_core. table_cbn. rewrite E.
  split_and!; try done; [by apply set_slot_ok|by rewrite length_set_slot|].
  eapply core_set; try done. lia.
Qed.

Lemma del_table_spec k T items gs :
  table_core k T -> used (flat_slots (storage T)) ≡ₚ entries (seed T) items ->
  used_count T <= 6 * 2 ^ k ->
  exists T', del_table T gs = Ok (T', gs) /\ table_inv items T'.
Proof.
  intros Hc Hu Hus.
  pose proof Hc as (Hn & _ & _ & (Hk & _) & _ & _ & _ & Ethr & Esh & Ett).
  unfold del_table. rewrite Hn, Esh, Ett. unfold STBDS_BUCKET_LENGTH.
  assert (forall k', 0 <= k' -> used_count T <= 6 * 2 ^ k' ->
    exists T', stbds_make_hash_index (8 * 2 ^ k') (Some T) gs = Ok (T', gs) /\ table_inv items T')
    as Hcopy.
  { intros k' Hk' Hcnt. pose proof (Z.pow_pos_nonneg 2 k').
    destruct (make_copy_spec k k' T gs Hc Hk') as (T' & E & Hc' & Hu' & Esd & Eus & Etm); [lia|].
    exists T'. split; [done|]. exists k'. rewrite Eus, Etm, Esd, Hu'.
    destruct Hc' as (? & ? & ? & ? & ? & ? & ? & E1 & ? & E2). rewrite E1, E2.
    split_and!; [by unfold table_core|done|done|].
    pose proof (Z.div_pos (2 ^ k') 2). lia. }
  destruct ((used_count T <? _) && (8 <? 8 * 2 ^ k)) eqn:Eb.
  - apply andb_true_iff in Eb as [E1 E2]. apply Z.ltb_lt in E1, E2.
    assert (k <> 0) by (intros ->; simpl in E2; lia).
    rewrite decide_False in E1 by done.
    assert (2 ^ k = 2 * 2 ^ (k - 1)) as Hp.
    { replace (2 * 2 ^ (k - 1)) with (2 ^ 1 * 2 ^ (k - 1)) by done.
      rewrite <- Z.pow_add_r by lia. f_equal. lia. }
    replace (Z.shiftr (8 * 2 ^ k) 1) with (8 * 2 ^ (k - 1)).
    + apply Hcopy; lia.
    + rewrite Z.shiftr_div_pow2 by lia. change (2 ^ 1) with 2. rewrite Hp.
      replace (8 * (2 * 2 ^ (k - 1))) with (8 * 2 ^ (k - 1) * 2) by lia. by rewrite Z.div_mul.
  - destruct (Z.ltb_spec (2 ^ k + 2 ^ k / 2) (tombstone_count T)) as [Ht|Ht].
    + by apply Hcopy.
    + exists T. split; [done|]. exists k. rewrite Ethr, Ett. done.
Qed.

(** The slots after the deletion of element [i] match the array after the
    swap. *)
Lemma swap_delete_entries sd items i key v last :
  items !! i = Some (key, v) -> items !! (length items - 1)%nat = Some last ->
  i <> (length items - 1)%nat ->
  exists D, entries sd items ≡ₚ
      (slot_hash sd key, Z.of_nat i) ::
      (slot_hash sd last.1, Z.of_nat (length items - 1)) :: D /\
    entries sd (swap_delete i items) ≡ₚ (slot_hash sd last.1, Z.of_nat i) :: D /\
    swap_delete i items = take (length items - 1) (<[i := last]> items).
Proof.
  intros Hi Hl Hne. apply lookup_lt_Some in Hl as Hlt.
  destruct (last_is_Some items) as [_ Hls]. destruct Hls as [x Hx]; [by intros ->|].
  apply last_Some in Hx as [init ->]. rewrite length_app in *. simpl in *.
  replace (length init + 1 - 1)%nat with (length init) in * by lia.
  rewrite lookup_app_r, Nat.sub_diag in Hl by lia. simplify_eq/=.
  apply lookup_lt_Some in Hi as Hilt. rewrite length_app in Hilt. simpl in Hilt.
  assert (i < length init)%nat as Hii by lia.
  rewrite lookup_app_l in Hi by done.
  assert (swap_delete i (init ++ [last]) = <[i := last]> init) as Esw.
  { unfold swap_delete. rewrite last_snoc, length_app. simpl. rewrite decide_False by lia.
    replace (length init + 1 - 1)%nat with (length init) by lia. by rewrite take_app_length. }
  exists (delete i (entries sd init)). rewrite Esw. split_and!.
  - destruct last as [lk lv]. rewrite entries_snoc. simpl.
    rewrite Permutation_app_comm. simpl. rewrite perm_swap. apply perm_skip.
    apply delete_Permutation. by rewrite entries_lookup, Hi.
  - assert (entries sd (<[i := last]> init)
      = <[i := (slot_hash sd last.1, Z.of_nat i)]> (entries sd init)) as ->.
    { apply list_eq. intros j. rewrite entries_lookup.
      assert (length (entries sd init) = length init) as Hle by apply length_imap.
      destruct (decide (i = j)) as [<-|Hj].
      - by rewrite !list_lookup_insert_eq by lia.
      - by rewrite !list_lookup_insert_ne, entries_lookup. }
    rewrite delete_take_drop, insert_take_drop by (unfold entries; rewrite length_imap; lia).
    by rewrite Permutation_middle.
  - rewrite insert_app_l by done. rewrite take_app_length' by (by rewrite length_insert). done.
Qed.

Lemma items_ok_swap_delete items i key v :
  items_ok items -> items !! i = Some (key, v) -> items_ok (swap_delete i items).
Proof.
  intros [Hnd Hv] Hi. pose proof (swap_delete_perm items i (key, v) Hi) as Hp.
  apply (fmap_Permutation fst) in Hp. simpl in Hp. split.
  - rewrite Hp in Hnd. by apply NoDup_cons in Hnd as [_ ?].
  - rewrite Hp in Hv. by apply Forall_cons in Hv as [_ ?].
Qed.

(** The table once the slot of element [i] is marked deleted. *)
Lemma mark_deleted k T items i key v p :
  table_core k T -> used (flat_slots (storage T)) ≡ₚ entries (seed T) items ->
  items !! i = Some (key, v) ->
  flat_slots (storage T) !! p = Some (slot_hash (seed T) key, Z.of_nat i) ->
  2 <= slot_hash (seed T) key ->
  let T1 := with_slots T (used_count T - 1) (tombstone_count T + 1)
    (set_slot (Z.of_nat p) STBDS_HASH_DELETED STBDS_INDEX_DELETED (storage T)) in
  table_core k T1 /\
  flat_slots (storage T1) = <[p := (STBDS_HASH_DELETED, STBDS_INDEX_DELETED)]> (flat_slots (storage T)) /\
  used (flat_slots (storage T)) ≡ₚ
    (slot_hash (seed T) key, Z.of_nat i) :: used (flat_slots (storage T1)).
Proof.
  intros Hc Hu Hi Hp H2. cbn zeta. pose proof Hc as (_ & _ & _ & Hcore & _ & Eus & Etm & _).
  destruct Hcore as (_ & _ & _ & _ & Hcnt).
  pose proof (used_replace _ _ _ _ STBDS_HASH_DELETED STBDS_INDEX_DELETED Hp) as R1.
  pose proof (tombs_replace _ _ _ _ STBDS_HASH_DELETED STBDS_INDEX_DELETED Hp) as R2.
  unfold STBDS_HASH_DELETED, STBDS_INDEX_DELETED in *.
  rewrite decide_True, decide_False in R1 by lia. rewrite decide_False, decide_True in R2 by lia.
  simpl in R1, R2. pose proof (Permutation_length R1) as L1. pose proof (Permutation_length R2) as L2.
  simpl in L1, L2.
  destruct (table_core_set k T p _ _ 1 (-2) (used_count T - 1) (tombstone_count T + 1) Hc Hp)
    as [Hc' Hf]; [by right; left|lia|lia|lia|lia|lia|].
  split_and!; [done|done|]. table_cbn. by rewrite Hf.
Qed.

(** Deleting the last element moves nothing. *)
Lemma swap_delete_last sd items i key v :
  items !! i = Some (key, v) -> Z.of_nat i = Z.of_nat (length items) - 1 ->
  take (length items - 1) items = swap_delete i items /\
  entries sd items ≡ₚ (slot_hash sd key, Z.of_nat i) :: entries sd (swap_delete i items).
Proof.
  intros Hi Ei. apply lookup_lt_Some in Hi as Hilt.
  assert (swap_delete i items = take i items) as ->.
  { unfold swap_delete. destruct (last items) as [x|] eqn:El; [|by apply last_None in El as ->].
    by rewrite decide_True by lia. }
  split; [f_equal; lia|]. rewrite <- (take_drop_middle items i (key, v) Hi) at 1.
  rewrite drop_ge by lia. rewrite entries_snoc, length_take, Nat.min_l by lia.
  by rewrite Permutation_app_comm.
Qed.

(** The last element, copied to the gap [i], is found at its old slot. *)
Lemma find_moved k T T1 items i key v p p2 last :
  table_core k T1 -> seed T1 = seed T ->
  flat_slots (storage T1) = <[p := (STBDS_HASH_DELETED, STBDS_INDEX_DELETED)]> (flat_slots (storage T)) ->
  used (flat_slots (storage T)) ≡ₚ entries (seed T) items -> in_u 64 (seed T) ->
  items_ok items -> items !! i = Some (key, v) -> items !! (length items - 1)%nat = Some last ->
  i <> (length items - 1)%nat ->
  flat_slots (storage T) !! p = Some (slot_hash (seed T) key, Z.of_nat i) ->
  flat_slots (storage T1) !! p2
    = Some (slot_hash (seed T1) last.1, Z.of_nat (length items - 1)) ->
  flat_slots (storage T) !! p2
    = Some (slot_hash (seed T) last.1, Z.of_nat (length items - 1)) ->
  stbds_hm_find_slot readable hash_bytes (<[i := last]> items) T1 last.1 = Ok (Z.of_nat p2).
Proof.
  intros Hc1 Es1 Hf1 Hu Hsd Hok Hi Hl Hne Hp Hp2' Hp2.
  assert (kvalid last.1) as Hkl by (by eapply items_ok_valid).
  pose proof (stored_hash_range (seed T) last.1 Hsd Hkl) as H2l.
  apply (find_slot_hit k (<[i:=last]> items) T1 last.1 p2 (Z.of_nat (length items - 1)) last);
    [done|done|done|lia|by rewrite Nat2Z.id, list_lookup_insert_ne by done|done|].
  intros q ix Hq Hix. rewrite Hf1 in Hq.
  apply list_lookup_insert_Some in Hq as [(_ & [= E _] & _)|[Hqp Hq]].
  { rewrite Es1 in E. unfold STBDS_HASH_DELETED in E. lia. }
  rewrite Es1 in Hq.
  pose proof (used_elem _ _ _ _ Hq Hix) as Hin. rewrite Hu in Hin.
  apply entries_elem in Hin as (_ & kv & Hkv & Eh). simpl in Eh.
  pose proof (fun p0 => slot_unique (seed T) items _ p0 q (slot_hash (seed T) last.1) ix Hu Hix)
    as Huniq.
  assert (i <> Z.to_nat ix) as Hii.
  { intros ->. rewrite Hi in Hkv. injection Hkv as <-. apply Hqp. apply Huniq; [|exact Hq].
    rewrite Hp, Eh. do 2 f_equal. lia. }
  exists kv. rewrite list_lookup_insert_ne by done. split; [done|]. intros Ek.
  apply Hinj in Ek; [|done|by eapply items_ok_valid]. destruct Hok as [Hnd _].
  assert (length items - 1 = Z.to_nat ix)%nat as El.
  { eapply NoDup_lookup; [exact Hnd| |]; rewrite list_lookup_fmap, ?Hl, ?Hkv; simpl; [done|by rewrite Ek]. }
  symmetry. apply Huniq; [|exact Hq]. rewrite Hp2. do 2 f_equal. lia.
Qed.

(** A used slot gets another index. *)
Lemma repoint_slot k T p h ix ix' :
  table_core k T -> flat_slots (storage T) !! p = Some (h, ix) -> 2 <= h -> 0 <= ix -> 0 <= ix' ->
  let T' := with_slots T (used_count T) (tombstone_count T) (set_slot (Z.of_nat p) h ix' (storage T)) in
  table_core k T' /\
  (h, ix) :: used (flat_slots (storage T')) ≡ₚ (h, ix') :: used (flat_slots (storage T)).
Proof.
  intros Hc Hp H2 Hix Hix'. cbn zeta. pose proof Hc as (_ & _ & _ & Hcore & _ & Eus & Etm & _).
  pose proof Hcore as (_ & _ & _ & Hreach & Hcnt).
  pose proof (used_replace _ _ _ _ h ix' Hp) as R1.
  pose proof (tombs_replace _ _ _ _ h ix' Hp) as R2.
  rewrite !decide_True in R1 by lia. rewrite !decide_False in R2 by lia. simpl in R1, R2.
  destruct (table_core_set k T p _ _ h ix' (used_count T) (tombstone_count T) Hc Hp) as [Hc2 Hf2];
    [right; right; simpl; lia|lia| | | |lia|].
  { intros _. by apply (Hreach p _ _ Hp). }
  { rewrite Eus. apply Permutation_length in R1. simpl in R1. lia. }
  { rewrite Etm. apply Permutation_length in R2. simpl in R2. lia. }
  split; [done|]. table_cbn. by rewrite Hf2.
Qed.

(** [del_swap] moves the last element to the gap and repoints its slot. *)
Lemma del_swap_spec k T items i key v p :
  table_core k T -> used (flat_slots (storage T)) ≡ₚ entries (seed T) items ->
  items_ok items -> items !! i = Some (key, v) ->
  flat_slots (storage T) !! p = Some (slot_hash (seed T) key, Z.of_nat i) ->
  let T1 := with_slots T (used_count T - 1) (tombstone_count T + 1)
    (set_slot (Z.of_nat p) STBDS_HASH_DELETED STBDS_INDEX_DELETED (storage T)) in
  exists items' T2,
    del_swap readable hash_bytes items T1 (Z.of_nat i) (Z.of_nat (length items) - 1) = Ok (items', T2) /\
    take (length items' - 1) items' = swap_delete i items /\
    table_core k T2 /\ seed T2 = seed T /\ used_count T2 = used_count T - 1 /\
    used (flat_slots (storage T2)) ≡ₚ entries (seed T) (swap_delete i items).
Proof.
  intros Hc Hu Hok Hi Hp T1. pose proof Hc as (_ & _ & _ & _ & Hsd & _).
  assert (kvalid key) as Hk by (by apply (items_ok_valid items i (key, v))).
  pose proof (stored_hash_range (seed T) key Hsd Hk) as H2.
  destruct (mark_deleted k T items i key v p Hc Hu Hi Hp H2) as (Hc1 & Hf1 & Hu1). fold T1 in Hc1, Hf1, Hu1.
  assert (seed T1 = seed T) as Es1 by done.
  assert (used_count T1 = used_count T - 1) as Eu1 by done. clearbody T1.
  apply lookup_lt_Some in Hi as Hilt. unfold del_swap.
  destruct (Z.eqb_spec (Z.of_nat i) (Z.of_nat (length items) - 1)) as [Ei|Ei].
  { destruct (swap_delete_last (seed T) items i key v Hi Ei) as [Htk Hen].
    exists items, T1. split_and!; try done.
    apply (Permutation_cons_inv (a := (slot_hash (seed T) key, Z.of_nat i))).
    by rewrite <- Hu1, Hu. }
  replace (Z.to_nat (Z.of_nat (length items) - 1)) with (length items - 1)%nat by lia.
  destruct (lookup_lt_is_Some_2 items (length items - 1)) as [last Hl]; [lia|]. rewrite Hl.
  assert (i <> length items - 1)%nat as Hne by lia.
  destruct (swap_delete_entries (seed T) items i key v last Hi Hl Hne) as (D & HD1 & HD2 & Htake).
  assert (kvalid last.1) as Hkl by (by eapply items_ok_valid).
  pose proof (stored_hash_range (seed T) last.1 Hsd Hkl) as H2l.
  destruct (inv_slot k items T (length items - 1) last.1 last.2 Hc Hu) as [p2 Hp2]; [by destruct last|].
  assert (p <> p2) as Hpp by (intros ->; rewrite Hp in Hp2; injection Hp2; lia).
  assert (flat_slots (storage T1) !! p2
    = Some (slot_hash (seed T) last.1, Z.of_nat (length items - 1))) as Hp2'
    by (rewrite Hf1, list_lookup_insert_ne by done; exact Hp2).
  rewrite Nat2Z.id. rewrite (find_moved k T T1 items i key v p p2 last) by (done || by rewrite Es1).
  rewrite (proj2 (Z.ltb_ge (Z.of_nat p2) 0)) by lia. rewrite Nat2Z.id, Hp2'.
  destruct (repoint_slot k T1 p2 _ _ (Z.of_nat i) Hc1 Hp2') as [Hc2 R]; [lia..|].
  eexists _, _. split; [reflexivity|]. split_and!; try done; [by rewrite length_insert, Htake|].
  rewrite HD2. apply (Permutation_cons_inv
    (a := (slot_hash (seed T) last.1, Z.of_nat (length items - 1)))).
  rewrite R, perm_swap. f_equiv.
  apply (Permutation_cons_inv (a := (slot_hash (seed T) key, Z.of_nat i))).
  by rewrite <- Hu1, Hu.
Qed.

(** The deletion of element [i], once its slot [p] is known. *)
Lemma del_hit a T i key v p gs :
  arr_inv a -> a_hash_table a = Some T -> a_items a !! i = Some (key, v) ->
  flat_slots (storage T) !! p = Some (slot_hash (seed T) key, Z.of_nat i) ->
  exists items' T2 T3,
    del_swap readable hash_bytes (a_items a) (del_mark T (Z.of_nat p)) (Z.of_nat i) (stbds_arrlen a - 1 - 1)
      = Ok (items', T2) /\
    take (length items' - 1) items' = swap_delete i (a_items a) /\
    del_table T2 gs = Ok (T3, gs) /\
    arr_inv (Arr (a_capacity a) 1 (Some T3) (a_default a) (swap_delete i (a_items a))).
Proof.
  intros (Hok & Hcap & Ht) ET Hi Hp. rewrite ET in Ht. destruct Ht as (k & Hc & Hu & Hus & Htb).
  destruct (del_swap_spec k T (a_items a) i key v p Hc Hu Hok Hi Hp)
    as (items' & T2 & E & Htake & Hc2 & Esd & Eus & Hu2).
  replace (stbds_arrlen a - 1 - 1) with (Z.of_nat (length (a_items a)) - 1) by (unfold stbds_arrlen; lia).
  pose proof Hc as (_ & _ & _ & _ & _ & _ & _ & Ethr & _).
  destruct (del_table_spec k T2 (swap_delete i (a_items a)) gs Hc2) as (T3 & E3 & Hinv3).
  { by rewrite Esd. }
  { lia. }
  exists items', T2, T3. split_and!; [done..|].
  unfold arr_inv, stbds_arrlen in *. table_cbn. split_and!; [by eapply items_ok_swap_delete| |done].
  pose proof (Permutation_length (swap_delete_perm _ _ _ Hi)) as L. simpl in L. lia.
Qed.

Lemma hmdel_spec gs a key :
  handle_inv a -> in_u 64 gs -> kvalid key ->
  exists a', stbds_hmdel_key readable hash_bytes gs a key = Ok (a', gs) /\ handle_inv a' /\
    handle_items a' = match key_index key (handle_items a) with
                      | Some n => swap_delete n (handle_items a)
                      | None => handle_items a
                      end.
Proof.
  intros Ha Hgs Hk. destruct a as [a|]; [|by exists None].
  simpl in Ha. pose proof Ha as (Hok & Hcap & Ht).
  unfold stbds_hmdel_key. destruct (a_hash_table a) as [T|] eqn:ET.
  2:{ exists (Some (with_temp a 0)). split; [done|]. split; [exact Ha|].
      unfold handle_items. simpl. by rewrite Ht. }
  destruct (find_slot_spec (a_items a) T key Ht Hok Hk) as [(i & v & p & Hi & Hp & ->)|[Hno ->]].
  - rewrite (proj2 (Z.ltb_ge (Z.of_nat p) 0)) by lia. unfold slot_index. rewrite Nat2Z.id, Hp.
    destruct (del_hit a T i key v p gs Ha ET Hi Hp) as (items' & T2 & T3 & -> & -> & -> & Hinv).
    eexists. split; [done|]. unfold handle_inv, handle_items. simpl.
    by erewrite key_index_lookup by (done || apply Hok).
  - exists (Some (with_temp a 0)). split; [done|]. split; [exact Ha|].
    unfold handle_items. simpl. by rewrite (proj2 (key_index_None key (a_items a)) Hno).
Qed.
End ops.
