(* ===== verification/StbInstance.v ===== *)
(** StbInstance: the stb_ds table implements the map interface of Hhash.v.

    An [int32_t] key is its 4 bytes ([memcmp] compares them); the state of a map
    is the handle beside the library's global [stbds_hash_seed], which tables
    draw their seed from.  Each map owns a copy of the global: the theorems hold
    for every seed, so maps need not agree on it. *)

From S2P Require Import Prelude Hhash StbHash StbProbe StbMem StbTable StbWalk StbInv StbOps.

(** [STBDS_ADDRESSOF((t)->key, (k))]: the bytes of an [int32_t]. *)
Definition int32_bytes (k : Z) : list Z := le_bytes 4 k.

Lemma int32_bytes_ok k : in_s 32 k -> Forall is_byte (int32_bytes k).
Proof. intros _. apply le_bytes_bytes. Qed.

Lemma int32_bytes_inj k k' :
  in_s 32 k -> in_s 32 k' -> int32_bytes k = int32_bytes k' -> k = k'.
Proof.
  intros Hk Hk' E. apply (f_equal le_val) in E. unfold int32_bytes in E.
  rewrite !le_val_le_bytes in E. change (256 ^ Z.of_nat 4) with (2 ^ 32) in E.
  rewrite <- (swrap_small 32 k), <- (swrap_small 32 k') by (done || lia).
  rewrite <- (swrap_uwrap 32 k), <- (swrap_uwrap 32 k') by lia.
  unfold uwrap. by rewrite E.
Qed.

(** How the code reads and hashes an integer key. *)
Definition int32_key : Z -> res (list Z) := readable int32_bytes.

Lemma int32_hash k sd : in_s 32 k -> in_u 64 sd -> 0 <= stbds_hash_bytes (int32_bytes k) sd.
Proof.
  intros Hk Hs. pose proof (stbds_hash_bytes_range (int32_bytes k) sd (int32_bytes_ok k Hk) Hs) as [? _].
  done.
Qed.

(** The initial value of the library's [stbds_hash_seed]. *)
Definition stbds_hash_seed_init : Z := 0x31415926.

Definition stb_map (V : Type) : Type := Z * option (stbds_array Z V).

Definition stb_find {V} (h : stb_map V) (k : Z) : res (Z * stb_map V) :=
  match stbds_hmget_key int32_key stbds_hash_bytes h.2 k with
  | Ok a => Ok (a_temp a, (h.1, Some a))
  | Fault f => Fault f
  end.

Definition stb_set {V} (h : stb_map V) (k : Z) (v : V) : res (stb_map V) :=
  match stbds_hmput int32_key stbds_hash_bytes h.1 h.2 k v with
  | Ok (a, g) => Ok (g, Some a)
  | Fault f => Fault f
  end.

Definition stb_del {V} (h : stb_map V) (k : Z) : res (stb_map V) :=
  match stbds_hmdel_key int32_key stbds_hash_bytes h.1 h.2 k with
  | Ok (a, g) => Ok (g, a)
  | Fault f => Fault f
  end.

Definition stb_at {V} (h : stb_map V) (i : Z) : option (Z * V) :=
  if 0 <=? i then handle_items h.2 !! Z.to_nat i else None.

(** [t[i].value = v]. *)
Definition stb_store {V} (h : stb_map V) (i : Z) (v : V) : stb_map V :=
  (h.1, (fun a => Arr (a_capacity a) (a_temp a) (a_hash_table a) (a_default a)
           (alter (fun kv => (kv.1, v)) (Z.to_nat i) (a_items a))) <$> h.2).

#[export] Instance stb_hihash : HIHash := {
  hhash := stb_map;
  hh_view V h := handle_items h.2;
  hh_ok V h := in_u 64 h.1 /\ handle_inv int32_bytes stbds_hash_bytes (in_s 32) h.2;
  HIHASH_INIT V := (stbds_hash_seed_init, None);
  HIHASH_SIZE V h := stbds_hmlen h.2;
  HIHASH_FIND V h k := stb_find h k;
  HIHASH_SET V h k v := stb_set h k v;
  HIHASH_DEL V h k := stb_del h k;
  hh_at V h i := stb_at h i;
  hh_store V h i v := stb_store h i v
}.

(** The interface laws, from the operations' specifications. *)
#[export] Instance stb_hihash_spec : HIHashSpec stb_hihash.
Proof.
  split; cbn.
  - intros V. by vm_compute.
  - done.
  - intros V [g [a|]] [Hg Ha]; simpl in *; [apply Ha|]. split; constructor.
  - intros V [g [a|]] [Hg Ha]; simpl; [|done]. unfold stbds_arrlen, handle_items. simpl. lia.
  - intros V [g a] k [Hg Ha] Hk. cbn in *.
    destruct (hmget_key_spec int32_bytes stbds_hash_bytes (in_s 32) int32_hash int32_bytes_inj a k Ha Hk)
      as (a' & E & Hinv & Hit & Htmp).
    unfold stb_find, int32_key. cbn. rewrite E. exists (g, Some a'). rewrite Htmp.
    split_and!; [done|done|done|exact Hit].
  - intros V [g a] k v [Hg Ha] Hk. cbn in *.
    destruct (hmput_spec int32_bytes stbds_hash_bytes (in_s 32) int32_hash int32_bytes_inj g a k v Ha Hg Hk)
      as (a' & g' & E & Hg' & Hinv & Hit).
    unfold stb_set, int32_key. cbn. rewrite E. exists (g', Some a'). by split_and!.
  - intros V [g a] k [Hg Ha] Hk. cbn in *.
    destruct (hmdel_spec int32_bytes stbds_hash_bytes (in_s 32) int32_hash int32_bytes_inj g a k Ha Hg Hk)
      as (a' & E & Hinv & Hit).
    unfold stb_del, int32_key. cbn. rewrite E. exists (g, a'). split_and!; done.
  - intros V [g a] n _. unfold stb_at. rewrite (proj2 (Z.leb_le 0 (Z.of_nat n))) by lia.
    by rewrite Nat2Z.id.
  - intros V [g [a|]] n k v v' [Hg Ha] Hn; cbn in *; [|done]. rewrite Nat2Z.id.
    unfold handle_items in *. simpl in *.
    assert (alter (fun kv : Z * V => (kv.1, v')) n (a_items a) = <[n := (k, v')]> (a_items a)) as ->.
    { apply list_eq. intros j. destruct (decide (n = j)) as [<-|Hj].
      - rewrite list_lookup_alter_eq, list_lookup_insert_eq, Hn by (by eapply lookup_lt_Some). done.
      - by rewrite list_lookup_alter_ne, list_lookup_insert_ne. }
    split; [|done]. split; [done|]. by apply (arr_inv_set int32_bytes stbds_hash_bytes (in_s 32) a n k v v').
Qed.

(** ** Refinement: any sequence of operations *)

(** One call through the macros. *)
Inductive map_op (V : Type) :=
  | OpFind (k : Z)
  | OpSet (k : Z) (v : V)
  | OpDel (k : Z).
Arguments OpFind {V} k.
Arguments OpSet {V} k v.
Arguments OpDel {V} k.

Definition op_key {V} (op : map_op V) : Z :=
  match op with OpFind k | OpSet k _ | OpDel k => k end.

(** What the call shows: the value found, if any. *)
Definition stb_step {V} (op : map_op V) (h : stb_map V) : res (option V * stb_map V) :=
  match op with
  | OpFind k =>
      match stb_find h k with
      | Ok (i, h') => Ok (if HIHASH_ITERATE_VALID (HH := stb_hihash) h' i then HIHASH_GETV (HH := stb_hihash) h' i else None, h')
      | Fault f => Fault f
      end
  | OpSet k v => match stb_set h k v with Ok h' => Ok (None, h') | Fault f => Fault f end
  | OpDel k => match stb_del h k with Ok h' => Ok (None, h') | Fault f => Fault f end
  end.

Fixpoint stb_run {V} (ops : list (map_op V)) (h : stb_map V) : res (list (option V) * stb_map V) :=
  match ops with
  | [] => Ok ([], h)
  | op :: ops =>
      match stb_step op h with
      | Ok (r, h) =>
          match stb_run ops h with Ok (rs, h) => Ok (r :: rs, h) | Fault f => Fault f end
      | Fault f => Fault f
      end
  end.

(** The finite map a handle stands for, and what its operations keep. *)
Definition stb_abs {V} (h : stb_map V) : gmap Z V := hh_map (HH := stb_hihash) h.
Definition stb_ok {V} (h : stb_map V) : Prop := @hh_ok stb_hihash V h.

(** The specification: a finite map. *)
Definition map_step {V} (op : map_op V) (m : gmap Z V) : option V * gmap Z V :=
  match op with
  | OpFind k => (m !! k, m)
  | OpSet k v => (None, <[k := v]> m)
  | OpDel k => (None, delete k m)
  end.

Fixpoint map_run {V} (ops : list (map_op V)) (m : gmap Z V) : list (option V) * gmap Z V :=
  match ops with
  | [] => ([], m)
  | op :: ops =>
      let '(r, m) := map_step op m in
      let '(rs, m) := map_run ops m in (r :: rs, m)
  end.

Lemma stb_step_refines {V} (op : map_op V) (h : stb_map V) :
  stb_ok h -> in_s 32 (op_key op) ->
  exists h', stb_step op h = Ok ((map_step op (stb_abs h)).1, h') /\
    stb_ok h' /\ stb_abs h' = (map_step op (stb_abs h)).2.
Proof.
  unfold stb_abs, stb_ok. intros Hok Hk. destruct op as [k|k v|k]; simpl in *.
  - destruct (hh_find_cases (HH := stb_hihash) h k Hok Hk) as (i & h' & E & Hok' & _ & Hm & Hc).
    change (@HIHASH_FIND stb_hihash V h k) with (stb_find h k) in E. rewrite E. exists h'.
    destruct Hc as [(v & n & _ & _ & -> & -> & ->)|(-> & _ & ->)]; done.
  - destruct (hh_set_map (HH := stb_hihash) h k v Hok Hk) as (h' & E & Hok' & Hm).
    change (@HIHASH_SET stb_hihash V h k v) with (stb_set h k v) in E. rewrite E. by exists h'.
  - destruct (hh_del_map (HH := stb_hihash) h k Hok Hk) as (h' & E & Hok' & Hm).
    change (@HIHASH_DEL stb_hihash V h k) with (stb_del h k) in E. rewrite E. by exists h'.
Qed.

Lemma stb_run_refines {V} (ops : list (map_op V)) (h : stb_map V) :
  stb_ok h -> Forall (fun op => in_s 32 (op_key op)) ops ->
  exists h', stb_run ops h = Ok ((map_run ops (stb_abs h)).1, h') /\
    stb_ok h' /\ stb_abs h' = (map_run ops (stb_abs h)).2.
Proof.
  revert h; induction ops as [|op ops IH]; intros h Hok Hk; [by exists h|].
  apply Forall_cons in Hk as [Hk Hks]. simpl.
  destruct (stb_step_refines op h Hok Hk) as (h1 & -> & Hok1 & Hm1).
  destruct (map_step op (stb_abs h)) as [r m1]. simpl in *. subst m1.
  destruct (IH h1 Hok1 Hks) as (h2 & -> & Hok2 & Hm2).
  destruct (map_run ops (stb_abs h1)) as [rs m2]. simpl in *. by exists h2.
Qed.

(** C2 Refinement of the stb_ds hash table to a finite map: any sequence of
    lookups, insertions and deletions of [int32_t] keys, started from a NULL
    handle with any seed, runs to its end (no fault, no endless probe) and every
    lookup returns what the finite map returns. *)
Theorem stb_refines_map {V} (ops : list (map_op V)) (sd : Z) :
  in_u 64 sd -> Forall (fun op => in_s 32 (op_key op)) ops ->
  exists h', stb_run ops (sd, None) = Ok ((map_run ops ∅).1, h') /\
    stb_abs h' = (map_run ops ∅).2.
Proof.
  intros Hsd Hk.
  destruct (stb_run_refines ops (sd, None)) as (h' & E & _ & Hm); [by split|done|].
  by exists h'.
Qed.

Lemma stb_refines_map_witness :
  exists h', stb_run [OpSet 1 10; OpSet (-1) 20; OpSet 1 30; OpFind 1; OpDel 1; OpFind 1; OpFind (-1)]
      (stbds_hash_seed_init, None)
    = Ok ([None; None; None; Some 30; None; None; Some 20], h').
Proof.
  destruct (stb_refines_map
    [OpSet 1 10; OpSet (-1) 20; OpSet 1 30; OpFind 1; OpDel 1; OpFind 1; OpFind (-1)]
    stbds_hash_seed_init) as (h' & E & _); [decided|repeat (constructor; [decided|]); constructor|].
  exists h'. exact E.
Defined.
