(* ===== verification/StbStrMap.v ===== *)
(** StbStrMap: the hash table of stb_ds in the string mode ([STBDS_HM_STRING]),
    [3rd/include/hcore/stb_ds.h], and the macros [HSHASH_*] of hhash.h over it.

    Keys are [char *] into the memory of StbMem.v, compared and hashed as
    strings.  The table's arena has a [mode] that says whose they are:
    [STBDS_SH_DEFAULT] the caller's, [STBDS_SH_STRDUP] copies that the table
    frees, [STBDS_SH_ARENA] copies in the arena.  The functions share the probing,
    the table and the array with the binary mode (StbTable.v). *)

From S2P Require Import Prelude Hhash StbHash StbProbe StbMem StbTable.

(** The enumeration of [string.mode]. *)
Definition STBDS_SH_NONE : Z := 0.
Definition STBDS_SH_DEFAULT : Z := 1.
Definition STBDS_SH_STRDUP : Z := 2.
Definition STBDS_SH_ARENA : Z := 3.

(** Which of the two inner loops of the probing a body runs in. *)
Definition tag {A R} (first : bool) (body : Z -> Z -> Z -> A -> res (flow A R))
    (pos h ix : Z) (a : A) : res (flow A (R * bool)) :=
  match body pos h ix a with
  | Ok (Continue a) => Ok (Continue a)
  | Ok (Return r) => Ok (Return (r, first))
  | Fault f => Fault f
  end.

(** The table with other string members. *)
Definition with_string (table : stbds_hash_index) (tk : option ptr) (str : stbds_string_arena)
    : stbds_hash_index :=
  HashIndex tk (slot_count table) (used_count table) (used_count_threshold table)
    (used_count_shrink_threshold table) (tombstone_count table) (tombstone_count_threshold table)
    (seed table) (slot_count_log2 table) str (storage table).

Definition with_mode (str : stbds_string_arena) (mode : Z) : stbds_string_arena :=
  Arena (sa_storage str) (sa_remaining str) (sa_block str) mode.

Section ops.
Context {V : Type}.
Abbreviation arr := (stbds_array ptr V).

(** The growth of the table before the probing; a new table gets its mode. *)
Definition put_table_str (gs : Z) (a : arr) : res (stbds_hash_index * Z) :=
  match put_table gs a with
  | Fault f => Fault f
  | Ok (nt, gs) =>
      Ok (match a_hash_table a with
          | None => with_string nt (temp_key nt) (with_mode (string nt) STBDS_SH_DEFAULT)
          | Some _ => nt
          end, gs)
  end.

(** The [switch] at the end of [stbds_hmput_key]: the key of the new element and
    the arena. A table made in binary mode would get the first bytes of the string
    for a pointer, which points to no object. *)
Definition store_key (str : stbds_string_arena) (key : ptr) : M mem (ptr * stbds_string_arena) :=
  if sa_mode str =? STBDS_SH_STRDUP then (p ← stbds_strdup key; mret (p, str))
  else if sa_mode str =? STBDS_SH_ARENA then stbds_stralloc str key
  else if sa_mode str =? STBDS_SH_DEFAULT then mret (key, str)
  else fail UseAfterFree.

(** The probing loops of [stbds_hmput_key]; the result says in which of the two
    inner loops they ended. *)
Definition put_probe (m : mem) (a : arr) (table : stbds_hash_index) (hash : Z) (key : ptr)
    : res (put_result * bool) :=
  let pos := stbds_probe_position hash (slot_count table) (slot_count_log2 table) in
  let body := put_body (cstr m) (a_items a) hash key in
  probe_walk (tag true body) (tag false body) (length (storage table)) (storage table)
    (slot_count table) pos STBDS_BUCKET_LENGTH (-1).

(** The key was found at [ix]: [temp], and [temp_key] where the loop writes it. *)
Definition put_found (a : arr) (table : stbds_hash_index) (ix : Z) (first : bool) : res arr :=
  match (if first then match key_at (a_items a) ix with
                       | Ok k => Ok (with_string table (Some k) (string table))
                       | Fault f => Fault f
                       end
         else Ok table) with
  | Ok table => Ok (Arr (a_capacity a) ix (Some table) (a_default a) (a_items a))
  | Fault f => Fault f
  end.

(** [stbds_hmput_key] in string mode: the handle and the global seed after the
    call. *)
Definition stbds_hmput_key_string (gs : Z) (a : option arr) (key : ptr) (junk : V)
    : M mem (arr * Z) := fun m =>
  let a := match a with None => stbds_new_array 0 | Some a => a end in
  match put_table_str gs a with
  | Fault f => Fault f
  | Ok (table, gs) =>
      match key_hash (cstr m) stbds_hash_string (seed table) key with
      | Fault f => Fault f
      | Ok hash =>
          match put_probe m a table hash key with
          | Fault f => Fault f
          | Ok (PutFound ix, first) =>
              match put_found a table ix first with
              | Ok a => Ok ((a, gs), m)
              | Fault f => Fault f
              end
          | Ok (PutEmpty pos tombstone, _) =>
              match store_key (string table) key m with
              | Fault f => Fault f
              | Ok ((p, str), m) =>
                  Ok ((put_new a (with_string table (Some p) str) hash p junk pos tombstone, gs), m)
              end
          end
      end
  end.

(** [(t)[stbds_temp((t)-1)].value = v]. *)
Definition store_value (a : arr) (v : V) : res arr :=
  match key_at (a_items a) (a_temp a) with
  | Ok k => store_at_temp a (k, v)
  | Fault f => Fault f
  end.

(** The macro [stbds_shput]. *)
Definition stbds_shput (gs : Z) (a : option arr) (key : ptr) (v : V) : M mem (arr * Z) := fun m =>
  match stbds_hmput_key_string gs a key v m with
  | Fault f => Fault f
  | Ok ((a, gs), m) =>
      match store_value a v with Ok a => Ok ((a, gs), m) | Fault f => Fault f end
  end.

(** The macro [stbds_shputi]: with the index. *)
Definition stbds_shputi (gs : Z) (a : option arr) (key : ptr) (v : V) : M mem (Z * arr * Z) := fun m =>
  match stbds_shput gs a key v m with
  | Ok ((a, gs), m) => Ok ((a_temp a, a, gs), m)
  | Fault f => Fault f
  end.

(** The macro [stbds_shputs]: the element becomes the structure, then its key
    [temp_key]. *)
Definition stbds_shputs (gs : Z) (a : option arr) (s : ptr * V) : M mem (arr * Z) := fun m =>
  match stbds_hmput_key_string gs a s.1 s.2 m with
  | Fault f => Fault f
  | Ok ((a, gs), m) =>
      match a_hash_table a with
      | None => Fault NullDeref
      | Some table =>
          match temp_key table with
          | None => Fault Uninitialised
          | Some k =>
              match store_at_temp a (k, s.2) with Ok a => Ok ((a, gs), m) | Fault f => Fault f end
          end
      end
  end.

(** The macros [stbds_shgeti], [stbds_shget] and [stbds_shgetp_null]. *)
Definition stbds_shgeti (m : mem) (a : option arr) (key : ptr) : res (Z * arr) :=
  match stbds_hmget_key (cstr m) stbds_hash_string a key with
  | Ok a => Ok (a_temp a, a)
  | Fault f => Fault f
  end.

Definition stbds_shget (m : mem) (zero : V) (a : option arr) (key : ptr) : res (V * arr) :=
  stbds_hmget (cstr m) stbds_hash_string zero a key.

Definition stbds_shgetp_null (m : mem) (a : option arr) (key : ptr) : res (option Z * arr) :=
  stbds_hmgetp_null (cstr m) stbds_hash_string a key.

(** [stbds_hmdel_key] in string mode: as in binary mode, but the key of the element
    is freed before the last element takes its place. *)
Definition stbds_hmdel_key_string (gs : Z) (a : option arr) (key : ptr)
    : M mem (option arr * Z) := fun m =>
  match a with
  | None => Ok ((None, gs), m)
  | Some a =>
      match a_hash_table a with
      | None => Ok ((Some (with_temp a 0), gs), m)
      | Some table =>
          match stbds_hm_find_slot (cstr m) stbds_hash_string (a_items a) table key with
          | Fault f => Fault f
          | Ok slot =>
              if slot <? 0 then Ok ((Some (with_temp a 0), gs), m)
              else
                match slot_index table slot with
                | Fault f => Fault f
                | Ok old_index =>
                    let final_index := stbds_arrlen a - 1 - 1 in
                    let table := del_mark table slot in
                    match (if sa_mode (string table) =? STBDS_SH_STRDUP then
                             match key_at (a_items a) old_index with
                             | Ok k => mem_free k m
                             | Fault f => Fault f
                             end
                           else Ok (tt, m)) with
                    | Fault f => Fault f
                    | Ok (_, m) =>
                        match del_swap (cstr m) stbds_hash_string (a_items a) table
                                old_index final_index with
                        | Fault f => Fault f
                        | Ok (items, table) =>
                            let items := take (length items - 1) items in
                            match del_table table gs with
                            | Fault f => Fault f
                            | Ok (table, gs) =>
                                Ok ((Some (Arr (a_capacity a) 1 (Some table) (a_default a) items), gs), m)
                            end
                        end
                    end
                end
          end
      end
  end.

(** The macro [stbds_shdel]: its value is 1 when the key was there. *)
Definition stbds_shdel (gs : Z) (a : option arr) (key : ptr) : M mem (Z * option arr * Z) := fun m =>
  match stbds_hmdel_key_string gs a key m with
  | Ok ((a, gs), m) => Ok ((from_option a_temp 0 a, a, gs), m)
  | Fault f => Fault f
  end.

(** [stbds_shmode_func], the macros [stbds_sh_new_strdup] and
    [stbds_sh_new_arena]. *)
Definition stbds_shmode_func (gs : Z) (mode : Z) : res (arr * Z) :=
  match stbds_make_hash_index STBDS_BUCKET_LENGTH None gs with
  | Ok (h, gs) =>
      Ok (Arr (stbds_arrgrowf 0 0 0 1) 0
            (Some (with_string h (temp_key h) (with_mode (string h) mode))) None [], gs)
  | Fault f => Fault f
  end.

Definition stbds_sh_new_strdup (gs : Z) : res (arr * Z) := stbds_shmode_func gs STBDS_SH_STRDUP.
Definition stbds_sh_new_arena (gs : Z) : res (arr * Z) := stbds_shmode_func gs STBDS_SH_ARENA.

(** The loop of [stbds_hmfree_func] over the elements after the default. *)
Fixpoint free_keys (items : list (ptr * V)) : M mem unit :=
  match items with
  | [] => mret tt
  | kv :: items => mem_free kv.1;; free_keys items
  end.

(** [stbds_hmfree_func], the macros [stbds_shfree] and [stbds_hmfree] of a string
    map: what it does to the strings. The array and the table are freed too; the
    handle is NULL afterwards. *)
Definition stbds_hmfree_func (a : option arr) : M mem (option arr) :=
  match a with
  | None => mret None
  | Some a =>
      match a_hash_table a with
      | None => mret None
      | Some table =>
          (if sa_mode (string table) =? STBDS_SH_STRDUP then free_keys (a_items a) else mret tt);;
          stbds_strreset (string table);;
          mret None
      end
  end.

(** ** The macros [HSHASH_*] of hhash.h *)

Definition HSHASH_INIT (gs : Z) : res (arr * Z) := stbds_sh_new_strdup gs.
Definition HSHASH_FINI (h : option arr) : M mem (option arr) := stbds_hmfree_func h.
Definition HSHASH_SET (gs : Z) (h : option arr) (k : ptr) (v : V) : M mem (arr * Z) :=
  stbds_shput gs h k v.
Definition HSHASH_DEL (gs : Z) (h : option arr) (k : ptr) : M mem (Z * option arr * Z) :=
  stbds_shdel gs h k.
Definition HSHASH_SIZE (h : option arr) : Z := stbds_hmlen h.
Definition HSHASH_FIND (m : mem) (h : option arr) (k : ptr) : res (Z * arr) := stbds_shgeti m h k.

(** [HC_RET_OK], or [HC_RET_NOTFOUND]. *)
Definition HSHASH_EXIST (m : mem) (h : option arr) (k : ptr) : res (Z * arr) :=
  match stbds_shgeti m h k with
  | Ok (i, h) => Ok (if 0 <=? i then 0 else HC_NOTFOUND, h)
  | Fault f => Fault f
  end.

Definition HSHASH_ITERATE_VALID (h : option arr) (IT : Z) : bool :=
  (0 <=? IT) && (IT <? stbds_hmlen h).
Definition HSHASH_GETK (h : arr) (it : Z) : option ptr := fst <$> a_items h !! Z.to_nat it.
Definition HSHASH_GETV (h : arr) (it : Z) : option V := snd <$> a_items h !! Z.to_nat it.
End ops.
