(* ===== verification/StbStrNat.v ===== *)
(** StbStrNat: the string mode of the stb_ds table reads its keys only through
    their contents.

    When the pointers of the elements point to the strings of another array,
    whose keys are strings, then probing, finding and swapping do the same on both
    arrays.  What StbOps.v shows of arrays of strings so holds of arrays of
    pointers. *)

From S2P Require Import Prelude Hhash StbHash StbProbe StbMem StbTable StbWalk StbInv StbOps StbStrMap.

(** ** The probing loops *)

Lemma bucket_walk_ext {A R} (f g : Z -> Z -> Z -> A -> res (flow A R)) b base ixs a :
  (forall p h ix a, f p h ix a = g p h ix a) ->
  bucket_walk f b base ixs a = bucket_walk g b base ixs a.
Proof.
  intros Hfg. revert a; induction ixs as [|i ixs IH]; intros a; [done|]. simpl.
  destruct (b_hash b !! i), (b_index b !! i); try done. rewrite Hfg. by repeat case_match.
Qed.

(** Only what the bodies return counts. *)
Lemma probe_walk_ext {A R} (f1 f2 g1 g2 : Z -> Z -> Z -> A -> res (flow A R)) fuel st sc pos step a :
  (forall p h ix a, f1 p h ix a = g1 p h ix a) -> (forall p h ix a, f2 p h ix a = g2 p h ix a) ->
  probe_walk f1 f2 fuel st sc pos step a = probe_walk g1 g2 fuel st sc pos step a.
Proof.
  intros H1 H2. revert pos step a; induction fuel as [|fuel IH]; intros pos step a; [done|]. simpl.
  destruct (st !! _) as [b|]; [|done].
  rewrite (bucket_walk_ext f1 g1) by done. destruct (bucket_walk g1 _ _ _ _) as [[a'|]|]; [|done..].
  rewrite (bucket_walk_ext f2 g2) by done. destruct (bucket_walk g2 _ _ _ _) as [[a''|]|]; [apply IH|done..].
Qed.

Lemma bucket_walk_tag {A R} first (f : Z -> Z -> Z -> A -> res (flow A R)) b base ixs a :
  bucket_walk (tag first f) b base ixs a =
  match bucket_walk f b base ixs a with
  | Ok (Continue a) => Ok (Continue a)
  | Ok (Return r) => Ok (Return (r, first))
  | Fault e => Fault e
  end.
Proof.
  revert a; induction ixs as [|i ixs IH]; intros a; [done|]. simpl.
  destruct (b_hash b !! i), (b_index b !! i); try done. unfold tag at 1.
  by destruct (f _ _ _ a) as [[a'|r]|e].
Qed.

(** Tagging the inner loop changes nothing else. *)
Lemma probe_walk_tag {A R} (f : Z -> Z -> Z -> A -> res (flow A R)) fuel st sc pos step a r :
  probe_walk f f fuel st sc pos step a = Ok r ->
  exists first, probe_walk (tag true f) (tag false f) fuel st sc pos step a = Ok (r, first).
Proof.
  revert pos step a; induction fuel as [|fuel IH]; intros pos step a; [done|]. simpl.
  destruct (st !! _) as [b|]; [|done]. rewrite !bucket_walk_tag.
  destruct (bucket_walk f _ _ _ _) as [[a'|r']|e]; [|intros [= ->]; eauto|done].
  rewrite !bucket_walk_tag.
  destruct (bucket_walk f _ _ _ _) as [[a''|r']|e]; [apply IH|intros [= ->]; eauto|done].
Qed.

(** ** Elements *)

(** A string as its own key. *)
Abbreviation as_key := (readable id).

Section nat.
Context {V : Type}.
Implicit Types (items : list (ptr * V)) (strs : list (list Z * V)).

(** The element's key points to the string; the values agree. *)
Definition elem_at (m : mem) (kv : ptr * V) (sv : list Z * V) : Prop :=
  str_at m kv.1 sv.1 /\ kv.2 = sv.2.

Definition elems_at (m : mem) items strs : Prop := Forall2 (elem_at m) items strs.

Lemma elems_at_lookup m items strs i : elems_at m items strs ->
  match items !! i, strs !! i with
  | Some kv, Some sv => elem_at m kv sv
  | None, None => True
  | _, _ => False
  end.
Proof.
  intros H. destruct (items !! i) as [kv|] eqn:E1, (strs !! i) as [sv|] eqn:E2; [|..|done].
  - by eapply Forall2_lookup_lr.
  - eapply Forall2_lookup_l in E1 as (? & E & _); [|done]. by rewrite E in E2.
  - eapply Forall2_lookup_r in E2 as (? & E & _); [|done]. by rewrite E in E1.
Qed.

Lemma is_key_equal_nat m items strs key s i :
  elems_at m items strs -> str_at m key s ->
  stbds_is_key_equal (cstr m) items key i = stbds_is_key_equal as_key strs s i.
Proof.
  intros Hit Hk. unfold stbds_is_key_equal, key_at. destruct (0 <=? i); [|done].
  pose proof (elems_at_lookup m items strs (Z.to_nat i) Hit) as H.
  destruct (items !! Z.to_nat i) as [kv|], (strs !! Z.to_nat i) as [sv|]; try done.
  destruct H as [H _]. unfold str_at in *. by rewrite Hk, H.
Qed.

Lemma key_hash_nat m key s sd : str_at m key s ->
  key_hash (cstr m) stbds_hash_string sd key = key_hash as_key stbds_hash_string sd s.
Proof. intros Hk. unfold key_hash. unfold str_at in Hk. by rewrite Hk. Qed.

Lemma find_slot_nat m items strs T key s :
  elems_at m items strs -> str_at m key s ->
  stbds_hm_find_slot (cstr m) stbds_hash_string items T key
  = stbds_hm_find_slot as_key stbds_hash_string strs T s.
Proof.
  intros Hit Hk. unfold stbds_hm_find_slot. rewrite (key_hash_nat m key s) by done.
  destruct (key_hash _ _ _ _) as [h|]; [|done].
  assert (forall p h' ix a, find_body (cstr m) items h key p h' ix a = find_body as_key strs h s p h' ix a)
    as Hb by (intros; unfold find_body; by rewrite (is_key_equal_nat m items strs key s)).
  by apply probe_walk_ext.
Qed.

(** The put loops end where they end for the strings. *)
Lemma put_probe_nat m (a : stbds_array ptr V) strs T key s hash r :
  elems_at m (a_items a) strs -> str_at m key s ->
  probe_walk (put_body as_key strs hash s) (put_body as_key strs hash s)
    (length (storage T)) (storage T) (slot_count T)
    (stbds_probe_position hash (slot_count T) (slot_count_log2 T)) STBDS_BUCKET_LENGTH (-1) = Ok r ->
  exists first, put_probe m a T hash key = Ok (r, first).
Proof.
  intros Hit Hk E. unfold put_probe.
  assert (forall p h' ix t, put_body (cstr m) (a_items a) hash key p h' ix t = put_body as_key strs hash s p h' ix t)
    as Hb by (intros; unfold put_body; by rewrite (is_key_equal_nat m (a_items a) strs key s)).
  destruct (probe_walk_tag _ _ _ _ _ _ _ _ E) as [first E']. exists first. rewrite <- E'.
  apply probe_walk_ext; intros; unfold tag; by rewrite Hb.
Qed.

(** ** The swap of a deletion *)

(** What [del_swap] leaves, less the last element, is the swap-delete. *)
Definition swapped {A} (i : nat) (l : list A) : list A :=
  if decide (Z.of_nat i = Z.of_nat (length l) - 1) then l
  else match last l with Some x => <[i := x]> l | None => l end.

Lemma take_swapped {A} (l : list A) i : (i < length l)%nat ->
  take (length (swapped i l) - 1) (swapped i l) = swap_delete i l.
Proof.
  intros Hi. unfold swapped, swap_delete. destruct (last l) as [x|] eqn:El; [|apply last_None in El as ->; simpl in Hi; lia].
  destruct (decide (S i = length l)) as [E|E].
  - rewrite decide_True by lia. f_equal. lia.
  - rewrite decide_False by lia. rewrite length_insert, take_insert_lt by lia. done.
Qed.

Lemma del_swap_items {K} (kb : K -> res (list Z)) hb (items items' : list (K * V)) T T' i :
  (i < length items)%nat ->
  del_swap kb hb items T (Z.of_nat i) (Z.of_nat (length items) - 1) = Ok (items', T') ->
  items' = swapped i items.
Proof.
  intros Hi. unfold del_swap, swapped. rewrite last_lookup.
  replace (Z.to_nat (Z.of_nat (length items) - 1)) with (pred (length items)) by lia.
  destruct (Z.eqb_spec (Z.of_nat i) (Z.of_nat (length items) - 1)) as [E|E].
  { rewrite decide_True by done. by intros [= <- _]. }
  rewrite decide_False by done. rewrite Nat2Z.id.
  destruct (items !! pred (length items)) as [x|]; [|done]. by repeat case_match; intros; simplify_eq.
Qed.

(** The swap on pointers, in a memory where the deleted key may be gone. *)
Lemma del_swap_nat m items strs T i strs' T' :
  length items = length strs -> (i < length items)%nat ->
  elems_at m (swap_delete i items) (swap_delete i strs) ->
  del_swap as_key stbds_hash_string strs T (Z.of_nat i) (Z.of_nat (length strs) - 1) = Ok (strs', T') ->
  del_swap (cstr m) stbds_hash_string items T (Z.of_nat i) (Z.of_nat (length items) - 1)
    = Ok (swapped i items, T').
Proof.
  intros Hl Hi Hit. unfold del_swap, swapped. rewrite <- Hl, last_lookup.
  replace (Z.to_nat (Z.of_nat (length items) - 1)) with (pred (length items)) by lia.
  destruct (Z.eqb_spec (Z.of_nat i) (Z.of_nat (length items) - 1)) as [E|E].
  { rewrite decide_True by done. by intros [= _ <-]. }
  rewrite decide_False by done. rewrite !Nat2Z.id.
  destruct (lookup_lt_is_Some_2 items (pred (length items))) as [x Hx]; [lia|].
  destruct (lookup_lt_is_Some_2 strs (pred (length items))) as [y Hy]; [lia|].
  rewrite Hx, Hy. intros Hdel.
  assert (elems_at m (<[i := x]> items) (<[i := y]> strs)) as Hins.
  { assert (forall A (l : list A) z, length l = length items -> l !! pred (length items) = Some z ->
      <[i := z]> l = swap_delete i l ++ [z]) as Hsw.
    { intros A l z Hll Hz. rewrite <- take_swapped by lia. unfold swapped.
      rewrite decide_False by (rewrite Hll; done). rewrite last_lookup, Hll, Hz, length_insert, Hll.
      rewrite <- (take_drop (length items - 1) (<[i := z]> l)) at 1. f_equal.
      apply list_eq. intros j. rewrite lookup_drop. destruct j as [|j].
      - rewrite Nat.add_0_r, list_lookup_insert_ne by lia. simpl.
        by replace (length items - 1)%nat with (pred (length items)) by lia.
      - simpl. apply lookup_ge_None_2. rewrite length_insert. lia. }
    rewrite (Hsw _ items x), (Hsw _ strs y) by done. apply Forall2_app; [done|].
    constructor; [|done].
    assert (swap_delete i items !! i = Some x /\ swap_delete i strs !! i = Some y) as [Hx' Hy'].
    { pose proof (Hsw _ items x eq_refl Hx) as S1. pose proof (Hsw _ strs y (eq_sym Hl) Hy) as S2.
      pose proof (f_equal (fun l => l !! i) S1) as L1. pose proof (f_equal (fun l => l !! i) S2) as L2.
      cbv beta in L1, L2.
      rewrite list_lookup_insert_eq in L1 by lia. rewrite list_lookup_insert_eq in L2 by lia.
      assert (i < length (swap_delete i items))%nat.
      { apply (f_equal length) in S1. rewrite length_insert, length_app in S1. simpl in S1. lia. }
      assert (i < length (swap_delete i strs))%nat.
      { apply (f_equal length) in S2. rewrite length_insert, length_app in S2. simpl in S2. lia. }
      rewrite lookup_app_l in L1 by done. by rewrite lookup_app_l in L2 by done. }
    by eapply Forall2_lookup_lr. }
  assert (str_at m x.1 y.1) as Hxy.
  { pose proof (elems_at_lookup _ _ _ i Hins) as H. rewrite !list_lookup_insert_eq in H by lia. apply H. }
  rewrite (find_slot_nat m _ (<[i := y]> strs) T x.1 y.1) by done.
  by repeat case_match; simplify_eq.
Qed.
End nat.
