(* ===== verification/StbStrInv.v ===== *)
(** StbStrInv: what each operation of a stb_ds string map does to the map and to
    the memory (StbStrMap.v).

    [sh_inv m0 m h strs] says that the handle [h], in memory [m], holds the entries
    [strs] (their keys as strings), and that apart from what the map owns the
    memory is [m0]: the copies of the keys in the mode [STBDS_SH_STRDUP], the
    arena's blocks in [STBDS_SH_ARENA], nothing in [STBDS_SH_DEFAULT]. *)

From S2P Require Import Prelude Hhash StbHash StbProbe StbMem StbArena StbTable StbWalk StbInv StbOps StbStrMap StbStrNat.

(** ** Memory the map owns *)

Definition heap_inv (m0 m : mem) (own : list Z) : Prop :=
  mem_ok m0 /\ mem_ok m /\ m_next m0 <= m_next m /\ m_blocks m0 ⊆ m_blocks m /\ NoDup own /\
  Forall (fun b => m_next m0 <= b /\ is_Some (m_blocks m !! b)) own /\
  (forall b, is_Some (m_blocks m !! b) -> is_Some (m_blocks m0 !! b) \/ b ∈ own).

(** Without what is owned, the memory is the initial one. *)
Lemma heap_inv_rest m0 m own : heap_inv m0 m own ->
  filter (fun kv => kv.1 ∉ own) (m_blocks m) = m_blocks m0.
Proof.
  intros (H0 & _ & _ & Hsub & _ & Hown & Hdom). apply map_eq. intros b. apply option_eq. intros x.
  rewrite map_lookup_filter_Some. simpl. split.
  - intros [Hb Hn]. destruct (Hdom b) as [[y Hy]|]; [by exists x| |done].
    pose proof (lookup_weaken _ _ _ _ Hy Hsub). by simplify_eq.
  - intros Hb. split; [by eapply lookup_weaken|]. intros Hin. rewrite Forall_forall in Hown.
    destruct (Hown b Hin) as [Hle _]. destruct H0 as [_ H0].
    assert (0 < b < m_next m0) by (apply H0; eauto). lia.
Qed.

(** A new owned block. *)
Lemma heap_inv_new m0 m own bs : heap_inv m0 m own -> heap_inv m0 (mem_new bs m) (own ++ [m_next m]).
Proof.
  intros (H0 & Hm & Hn & Hsub & Hnd & Hown & Hdom). pose proof (mem_ok_fresh m Hm) as [Hf _].
  unfold heap_inv. split_and!; [done|by apply mem_ok_new|simpl; lia| | | |].
  - simpl. apply insert_subseteq_r; [|done]. by eapply lookup_weaken_None.
  - apply NoDup_app. split_and!; [done| |apply NoDup_singleton]. intros b Hb ->%list_elem_of_singleton.
    rewrite Forall_forall in Hown. destruct (Hown _ Hb) as [_ [x Hx]]. by rewrite Hf in Hx.
  - apply Forall_app. split; [|constructor; [|done]]; simpl.
    + eapply Forall_impl; [exact Hown|]. simpl. intros b [? [x Hx]]. split; [done|].
      rewrite lookup_insert_ne by (intros <-; by rewrite Hf in Hx). eauto.
    + rewrite lookup_insert_eq. split; [lia|eauto].
  - simpl. intros b [x Hb]. rewrite elem_of_app, list_elem_of_singleton.
    apply lookup_insert_Some in Hb as [[-> _]|[_ Hb]]; [tauto|].
    destruct (Hdom b); [eauto|by left|right; by left].
Qed.

(** The arena's blocks are owned. *)
Lemma heap_inv_arena m0 m a m' a' :
  arena_step m a m' a' -> heap_inv m0 m (sa_storage a) -> heap_inv m0 m' (sa_storage a').
Proof.
  intros (Hm' & Ha' & Hn' & _ & _ & _ & Hsame & Hnew & Hold) (H0 & Hm & Hn & Hsub & Hnd & Hown & Hdom).
  destruct Ha' as (Hnd' & Hl' & _). rewrite Forall_forall in Hown, Hl'.
  assert (forall b, b ∈ sa_storage a' -> m_next m0 <= b) as Hlo.
  { intros b Hb. destruct (Hnew b Hb) as [Hb'|]; [by apply Hown|lia]. }
  unfold heap_inv. split_and!; [done|done|lia| |done| |].
  - apply map_subseteq_spec. intros b x Hb. rewrite Hsame; [by eapply lookup_weaken|].
    intros Hin%Hlo. destruct H0 as [_ H0]. assert (0 < b < m_next m0) by (apply H0; eauto). lia.
  - apply Forall_forall. intros b Hb. split; [by apply Hlo|by apply Hl'].
  - intros b Hb. destruct (decide (b ∈ sa_storage a')) as [|Hnin]; [by right|].
    rewrite Hsame in Hb by done. destruct (Hdom b Hb) as [|Hin]; [by left|]. right. by apply Hold.
Qed.

(** An owned block is freed. *)
Lemma heap_inv_free m0 m own own' b :
  heap_inv m0 m own -> own ≡ₚ b :: own' ->
  mem_free (b, 0) m = Ok (tt, Mem (m_next m) (delete b (m_blocks m))) /\
  heap_inv m0 (Mem (m_next m) (delete b (m_blocks m))) own'.
Proof.
  intros (H0 & Hm & Hn & Hsub & Hnd & Hown & Hdom) Hp. rewrite Hp in Hnd, Hown.
  apply NoDup_cons in Hnd as [Hb Hnd]. apply Forall_cons in Hown as [[Hlo [x Hx]] Hown].
  assert (0 < b < m_next m) as Hr by (apply Hm; eauto). split.
  { unfold mem_free. simpl. by rewrite (proj2 (Z.eqb_neq b 0)), Hx by lia. }
  unfold heap_inv. simpl. split_and!; [done| |done| |done| |].
  - destruct Hm as [? Hm]. split; [done|]. simpl. intros b' [y [_ Hb']%lookup_delete_Some]. apply Hm; eauto.
  - apply map_subseteq_spec. intros b' y Hb'. apply lookup_delete_Some. split; [|by eapply lookup_weaken].
    intros <-. destruct H0 as [_ H0]. assert (0 < b < m_next m0) by (apply H0; eauto). lia.
  - rewrite Forall_forall in Hown |- *. intros b' Hin. destruct (Hown b' Hin) as [? ?].
    split; [done|]. rewrite lookup_delete_ne; [done|]. by intros ->.
  - intros b' [y [Hne Hb']%lookup_delete_Some]. destruct (Hdom b') as [|Hin]; [eauto|by left|].
    rewrite Hp in Hin. apply elem_of_cons in Hin as [->|]; [done|by right].
Qed.

(** ** The invariant *)

Lemma str_hash_ok (k : list Z) sd : True -> in_u 64 sd -> 0 <= stbds_hash_string (id k) sd.
Proof. intros _ _. pose proof (stbds_hash_string_range k sd) as [? _]. done. Qed.

Lemma str_key_inj (k k' : list Z) : True -> True -> id k = id k' -> k = k'.
Proof. done. Qed.

Section inv.
Context {V : Type}.
Abbreviation arr := (stbds_array ptr V).
Abbreviation valid := (fun _ : list Z => True).
Abbreviation sarr_inv := (arr_inv (V := V) id stbds_hash_string valid).
Abbreviation shandle_inv := (handle_inv (V := V) id stbds_hash_string valid).
Implicit Types (h : option arr) (items : list (ptr * V)) (strs : list (list Z * V)).

(** The array with its elements' keys as strings. *)
Definition strs_of (strs : list (list Z * V)) (a : arr) : stbds_array (list Z) V :=
  Arr (a_capacity a) (a_temp a) (a_hash_table a) (a_default a) strs.

(** The arena of a handle; one without a table gets the mode DEFAULT with it. *)
Definition sh_string h : stbds_string_arena :=
  match h ≫= a_hash_table with
  | Some T => string T
  | None => with_mode empty_arena STBDS_SH_DEFAULT
  end.

Definition owned (str : stbds_string_arena) items : list Z :=
  if sa_mode str =? STBDS_SH_STRDUP then items.*1.*1 else sa_storage str.

Definition key_ok (m0 : mem) (str : stbds_string_arena) (p : ptr) : Prop :=
  if sa_mode str =? STBDS_SH_STRDUP then p.2 = 0
  else if sa_mode str =? STBDS_SH_ARENA then in_arena str p
  else is_Some (m_blocks m0 !! p.1).

(** The strings of a map: the memory with what is owned, the arena, the keys. *)
Definition strings_inv (m0 m : mem) (str : stbds_string_arena) items strs : Prop :=
  heap_inv m0 m (owned str items) /\ elems_at m items strs /\ arena_ok m str /\
  1 <= sa_mode str <= 3 /\ (sa_mode str <> STBDS_SH_ARENA -> sa_storage str = []) /\
  Forall (key_ok m0 str) items.*1.

Definition sh_inv (m0 m : mem) h strs : Prop :=
  strings_inv m0 m (sh_string h) (handle_items h) strs /\ shandle_inv (strs_of strs <$> h).

(** ** Keys that are stored *)

Lemma elems_at_mono m m' items strs :
  elems_at m items strs ->
  (forall p s, p ∈ items.*1 -> str_at m p s -> str_at m' p s) -> elems_at m' items strs.
Proof.
  intros Hit Hkeep. induction Hit as [|kv sv items strs [Hs Hv] Hit IH]; [constructor|].
  constructor.
  - split; [|done]. apply Hkeep; [|done]. simpl. left.
  - apply IH. intros p s Hp. apply Hkeep. simpl. by right.
Qed.

Lemma store_key_spec m0 m str items strs key s v :
  strings_inv m0 m str items strs -> str_at m key s ->
  exists p str' m', store_key str key m = Ok ((p, str'), m') /\ sa_mode str' = sa_mode str /\
    strings_inv m0 m' str' (items ++ [(p, v)]) (strs ++ [(s, v)]).
Proof.
  intros (Hh & Hit & Ha & Hmode & Hnost & Hkeys) Hs. pose proof Hh as (H0 & Hm & _ & Hsub & _ & _ & Hdom).
  unfold strings_inv, owned, key_ok, store_key in *.
  destruct (Z.eqb_spec (sa_mode str) STBDS_SH_STRDUP) as [Em|Em];
    [|destruct (Z.eqb_spec (sa_mode str) STBDS_SH_ARENA) as [Em'|Em']].
  - destruct (strdup_spec m key s Hm Hs) as (m' & E & -> & Hp). rewrite (bind_ok _ _ _ _ _ E).
    exists (m_next m, 0), str, (mem_new (str_bytes s) m). rewrite Em. change (2 =? 2) with true. cbn match. rewrite !fmap_app, Forall_app.
    assert (forall b, is_Some (m_blocks m !! b) -> b <> m_next m) as Hne.
    { intros b [x Hx] ->. pose proof (mem_ok_fresh m Hm) as [Hf _]. by rewrite Hf in Hx. }
    split_and!; try done.
    + by apply heap_inv_new.
    + apply Forall2_app; [|by repeat constructor]. eapply elems_at_mono; [done|].
      intros p t _ Hpt. apply (str_at_block m); [|done]. simpl. rewrite lookup_insert_ne; [done|].
      apply not_eq_sym, Hne. by eapply (mem_ok_str m p t).
    + destruct Ha as (Hnd & Hl & ? & ? & ?). rewrite Hnost in * by (rewrite Em; done).
      unfold arena_ok. rewrite Hnost by (rewrite Em; done). by split_and!.
    + intros _. apply Hnost. by rewrite Em.
    + by repeat constructor.
  - destruct (stralloc_spec m str key s Hm Ha Hs) as (p & str' & m' & E & Hp & Hin & Hst).
    exists p, str', m'. pose proof Hst as (Hm' & Ha' & _ & Emode & Hup & Hkeep & _).
    rewrite Emode, Em'. change (3 =? 2) with false. change (3 =? 3) with true. cbn match.
    rewrite fmap_app, Forall_app. split_and!; try done.
    + by eapply heap_inv_arena.
    + apply Forall2_app; [|by repeat constructor]. eapply elems_at_mono; [done|].
      intros q t Hq Hqt. apply Hkeep; [|done]. rewrite Forall_forall in Hkeys. by apply Hkeys.
    + eapply Forall_impl; [exact Hkeys|]. by apply Hup.
    + cbn. by constructor.
  - assert (sa_mode str = 1) as Em1 by (unfold STBDS_SH_STRDUP, STBDS_SH_ARENA in *; lia).
    rewrite Em1. change (1 =? STBDS_SH_DEFAULT) with true. cbn match.
    exists key, str, m. rewrite Em1. change (1 =? 2) with false. change (1 =? 3) with false. cbn match.
    rewrite fmap_app, Forall_app. split_and!; try done.
    + apply Forall2_app; [done|]. by repeat constructor.
    + intros _. by apply Hnost.
    + constructor; [|done]. destruct (mem_ok_str m key s Hm Hs) as [_ Hk].
      destruct (Hdom _ Hk) as [|Hin]; [done|]. rewrite Hnost in Hin by done. by apply elem_of_nil in Hin.
Qed.
(** ** [stbds_shput] *)

Lemma put_table_string (gs gs' : Z) {K : Type} (a : stbds_array K V) T :
  put_table gs a = Ok (T, gs') ->
  string T = match a_hash_table a with Some T0 => string T0 | None => empty_arena end.
Proof.
  unfold put_table, stbds_make_hash_index. destruct (a_hash_table a) as [T0|]; [|by intros [= <- _]].
  destruct (_ <=? _); [|by intros [= <- _]]. destruct (rehash _ _ _ _); [|done]. by intros [= <- _].
Qed.

Lemma put_table_str_spec gs (a : arr) strs :
  sarr_inv (strs_of strs a) -> in_u 64 gs ->
  exists T gs' k, put_table_str gs a = Ok (T, gs') /\ in_u 64 gs' /\
    table_room id stbds_hash_string k strs T /\ string T = sh_string (Some a).
Proof.
  intros Ha Hgs.
  destruct (put_table_spec id stbds_hash_string valid gs (strs_of strs a) Ha Hgs)
    as (T & gs' & k & E & Hgs' & Hroom).
  change (put_table gs (strs_of strs a)) with (put_table gs a) in E.
  pose proof (put_table_string gs gs' a T E) as Es. unfold put_table_str, sh_string. rewrite E. simpl.
  destruct (a_hash_table a) as [T0|].
  - by exists T, gs', k.
  - exists (with_string T (temp_key T) (with_mode (string T) STBDS_SH_DEFAULT)), gs', k.
    split_and!; [done|done|exact Hroom|]. simpl. by rewrite Es.
Qed.

(** The entries after an insertion. *)
Definition put_entry (s : list Z) (v : V) strs : list (list Z * V) :=
  match key_index s strs with
  | Some n => <[n := (s, v)]> strs
  | None => strs ++ [(s, v)]
  end.

Lemma strings_inv_set m0 m str items strs i k s v v0 v1 :
  strings_inv m0 m str items strs -> items !! i = Some (k, v0) -> strs !! i = Some (s, v1) ->
  strings_inv m0 m str (<[i := (k, v)]> items) (<[i := (s, v)]> strs).
Proof.
  intros (Hh & Hit & Ha & Hmode & Hnost & Hkeys) Hi Hs.
  assert ((<[i := (k, v)]> items).*1 = items.*1) as Ek.
  { rewrite list_fmap_insert. apply list_insert_id. by rewrite list_lookup_fmap, Hi. }
  unfold strings_inv, owned in *. rewrite Ek. split_and!; try done; try lia.
  apply Forall2_insert; [done|]. pose proof (elems_at_lookup m items strs i Hit) as H.
  rewrite Hi, Hs in H. split; [apply H|done].
Qed.

(** The array of strings after an insertion at the end. *)
Lemma strs_of_put_new (a : arr) T hash p s v pos tb strs :
  length (a_items a) = length strs ->
  strs_of (strs ++ [(s, v)]) (put_new a T hash p v pos tb)
  = put_new (strs_of strs a) T hash s v pos tb.
Proof. intros Hl. unfold strs_of, put_new, stbds_arrlen. simpl. by rewrite Hl. Qed.

Lemma shput_spec m0 m gs h key s v strs :
  sh_inv m0 m h strs -> in_u 64 gs -> str_at m key s ->
  exists a gs' m', stbds_shput gs h key v m = Ok ((a, gs'), m') /\ in_u 64 gs' /\
    sh_inv m0 m' (Some a) (put_entry s v strs) /\ a_default a = h ≫= a_default /\
    sa_mode (sh_string (Some a)) = sa_mode (sh_string h).
Proof.
  intros [Hs Ha] Hgs Hkey.
  assert (exists a0, match h with None => stbds_new_array 0 | Some a => a end = a0 /\
    strings_inv m0 m (sh_string (Some a0)) (a_items a0) strs /\ sarr_inv (strs_of strs a0) /\
    a_default a0 = h ≫= a_default /\ sh_string (Some a0) = sh_string h)
    as (a0 & E0 & Hs0 & Ha0 & Ed & Em).
  { destruct h as [a|]; simpl in *; eexists; split_and!; try done.
    destruct Hs as (_ & Hit & _). apply Forall2_length in Hit. destruct strs; [|done].
    apply new_array_inv. }
  clear Hs Ha. unfold stbds_shput, stbds_hmput_key_string. rewrite E0. clear E0.
  destruct (put_table_str_spec gs a0 strs Ha0 Hgs) as (T & gs' & k & -> & Hgs' & Hroom & Est).
  rewrite (key_hash_nat m key s) by done. rewrite key_hash_eq.
  pose proof Hs0 as (_ & Hit & _). pose proof (Forall2_length _ _ _ Hit) as Hl.
  rewrite <- Em, <- Ed, <- Est. rewrite <- Est in Hs0. unfold put_entry. clear Em Ed h.
  destruct (put_walk_cases id stbds_hash_string valid str_hash_ok str_key_inj k (strs_of strs a0) T s Ha0 Hroom I)
    as [(i & v0 & Ei & Hi & Ew)|(Ei & _ & pos & tb & Ew & Hnew)];
    simpl in Ei; rewrite Ei; destruct (put_probe_nat m a0 strs T key s _ _ Hit Hkey Ew) as [first ->].
  - simpl in Hi. pose proof (elems_at_lookup m (a_items a0) strs i Hit) as Hel.
    rewrite Hi in Hel. destruct (a_items a0 !! i) as [[k' v1]|] eqn:Hk'; [|done].
    assert (key_at (a_items a0) (Z.of_nat i) = Ok k') as Eat.
    { unfold key_at. rewrite (proj2 (Z.leb_le 0 _)), Nat2Z.id, Hk' by lia. done. }
    assert (exists T', put_found a0 T (Z.of_nat i) first
        = Ok (Arr (a_capacity a0) (Z.of_nat i) (Some T') (a_default a0) (a_items a0)) /\
      table_room id stbds_hash_string k strs T' /\ string T' = string T) as (T' & -> & Hroom' & Est').
    { unfold put_found. rewrite Eat. destruct first; eexists; (split; [done|]); (split; [exact Hroom|done]). }
    unfold store_value. cbn. rewrite Eat. unfold store_at_temp. cbn.
    apply lookup_lt_Some in Hk' as Hlt. rewrite bool_decide_true, Nat2Z.id by lia.
    eexists _, gs', m. split_and!; [done|done| |done|unfold sh_string; simpl; by rewrite Est'].
    split; [rewrite <- Est' in Hs0; by eapply strings_inv_set|].
    apply (arr_inv_set id stbds_hash_string valid
      (Arr (a_capacity a0) (Z.of_nat i) (Some T') (a_default a0) strs) i s v0 v); [|done].
    destruct Ha0 as (Hok & Hcap & _). split_and!; [done|done|]. by eapply room_inv.
  - destruct (store_key_spec m0 m (string T) (a_items a0) strs key s v Hs0 Hkey)
      as (p & str' & m' & -> & Emode & Hs').
    unfold store_value.
    assert (key_at (a_items (put_new a0 (with_string T (Some p) str') (slot_hash id stbds_hash_string (seed T) s) p v pos tb))
      (a_temp (put_new a0 (with_string T (Some p) str') (slot_hash id stbds_hash_string (seed T) s) p v pos tb)) = Ok p) as Eat.
    { unfold key_at, put_new, stbds_arrlen. cbn. rewrite (proj2 (Z.leb_le 0 _)) by lia.
      rewrite lookup_app_r by lia. by replace (Z.to_nat _ - _)%nat with 0%nat by lia. }
    rewrite Eat, store_new. eexists _, gs', m'. split_and!; [done|done| |done|done].
    split; [exact Hs'|]. simpl.
    rewrite (strs_of_put_new a0 (with_string T (Some p) str') _ p s v pos tb strs Hl).
    exact (Hnew v).
Qed.

(** ** [stbds_shget] *)

(** What a lookup finds: the value, or the default. *)
Definition get_entry (s : list Z) strs : option V := key_index s strs ≫= fun n => snd <$> strs !! n.

Lemma shget_spec m0 m h key s strs zero :
  sh_inv m0 m h strs -> str_at m key s ->
  exists a, stbds_shget m zero h key = Ok (default (default zero (h ≫= a_default)) (get_entry s strs), a) /\
    stbds_shgeti m h key = Ok (from_option Z.of_nat (-1) (key_index s strs), a) /\
    sh_inv m0 m (Some a) strs /\ a_default a = h ≫= a_default /\ sh_string (Some a) = sh_string h.
Proof.
  intros [Hs Ha] Hkey. pose proof Hs as (_ & Hit & _).
  destruct (hmget_key_ts_spec id stbds_hash_string valid str_hash_ok str_key_inj (strs_of strs <$> h) s Ha I)
    as (a' & E & _).
  assert (handle_items (strs_of strs <$> h) = strs) as Hv.
  { destruct h; [done|]. apply Forall2_length in Hit. by destruct strs. }
  rewrite Hv in E. set (temp := from_option Z.of_nat (-1) (key_index s strs)) in *.
  assert (exists a, stbds_hmget_key_ts (cstr m) stbds_hash_string h key = Ok (a, temp) /\
    a_items a = handle_items h /\ sarr_inv (strs_of strs a) /\ a_default a = h ≫= a_default /\
    a_hash_table a = h ≫= a_hash_table) as (a & Ea & Hai & Hainv & Hd & Ht).
  { destruct h as [a|]; simpl in *.
    - exists a. split; [|done]. unfold stbds_hmget_key_ts in *. simpl in E.
      destruct (a_hash_table a) as [T|]; [|by injection E as _ <-].
      rewrite (find_slot_nat m (a_items a) strs T key s) by done.
      destruct (stbds_hm_find_slot _ _ _ _ _) as [slot|]; [|done].
      destruct (slot <? 0); [by injection E as _ <-|]. destruct (slot_index T slot); [|done]. by injection E as _ <-.
    - exists (stbds_new_array 0). injection E as _ <-. split_and!; try done.
      apply Forall2_length in Hit. destruct strs; [|done]. apply new_array_inv. }
  exists (with_temp a temp). unfold stbds_shget, stbds_hmget, stbds_shgeti, stbds_hmget_key. rewrite Ea.
  split_and!; [|done| |done|unfold sh_string; simpl; by rewrite Ht].
  - unfold value_at. cbn. rewrite Hd. unfold get_entry, temp.
    destruct (key_index s strs) as [n|] eqn:En; [|done]. cbn.
    rewrite (proj2 (Z.eqb_neq _ _)), (proj2 (Z.leb_le 0 _)), Nat2Z.id by lia.
    apply key_index_Some in En as [v Hn]. pose proof (elems_at_lookup _ _ _ n Hit) as Hel.
    rewrite Hai. rewrite Hn in *. destruct (handle_items h !! n) as [kv|]; [|done]. simpl.
    destruct Hel as [_ ->]. done.
  - split; [|exact Hainv]. unfold sh_string, handle_items in *. simpl. rewrite Ht, Hai. exact Hs.
Qed.
(** ** [stbds_shdel] *)

Lemma Forall2_swap_delete {A B} (R : A -> B -> Prop) (l : list A) (k : list B) i :
  Forall2 R l k -> Forall2 R (swap_delete i l) (swap_delete i k).
Proof.
  intros H. unfold swap_delete. destruct (last l) as [x|] eqn:El.
  - apply last_Some in El as [l' ->]. apply Forall2_app_inv_l in H as (k' & k2 & Hl & H2 & ->).
    apply Forall2_cons_inv_l in H2 as (y & k3 & Hxy & ->%Forall2_nil_inv_l & ->).
    rewrite last_snoc, !length_app. pose proof (Forall2_length _ _ _ Hl) as El. simpl. rewrite El.
    case_decide.
    + apply Forall2_take. by apply Forall2_app; [|constructor].
    + apply Forall2_insert; [|done]. apply Forall2_take. by apply Forall2_app; [|constructor].
  - apply last_None in El as ->. apply Forall2_nil_inv_l in H as ->. constructor.
Qed.

(** The key of a deleted element goes, when the map owns it. *)
Lemma strings_inv_del m0 m str items strs i k v :
  strings_inv m0 m str items strs -> items !! i = Some (k, v) ->
  exists m', (if sa_mode str =? STBDS_SH_STRDUP then mem_free k m else Ok (tt, m)) = Ok (tt, m') /\
    strings_inv m0 m' str (swap_delete i items) (swap_delete i strs).
Proof.
  intros (Hh & Hit & Ha & Hmode & Hnost & Hkeys) Hi.
  pose proof (swap_delete_perm items i (k, v) Hi) as Hp.
  assert (items.*1 ≡ₚ k :: (swap_delete i items).*1) as Hp1 by by rewrite Hp at 1.
  assert (items.*1.*1 ≡ₚ k.1 :: (swap_delete i items).*1.*1) as Hp2 by by rewrite Hp1.
  assert (Forall (key_ok m0 str) (k :: (swap_delete i items).*1)) as Hkeys' by by rewrite <- Hp1.
  apply Forall_cons in Hkeys' as [Hk Hkeys'].
  pose proof (Forall2_swap_delete _ _ _ i Hit) as Hit'.
  unfold strings_inv, owned in *. destruct (Z.eqb_spec (sa_mode str) STBDS_SH_STRDUP) as [Em|Em].
  - pose proof Hh as (_ & _ & _ & _ & Hnd & _). rewrite Hp2 in Hnd. apply NoDup_cons in Hnd as [Hnin _].
    destruct (heap_inv_free m0 m _ _ _ Hh Hp2) as [Ef Hh'].
    assert (k = (k.1, 0)) as Ek.
    { unfold key_ok in Hk. rewrite Em in Hk. destruct k as [b o]. simpl in *. by subst. }
    rewrite Ek, Ef. eexists. split; [done|]. split_and!; try done; try lia.
    + eapply elems_at_mono; [done|]. intros p t Hpin. apply str_at_block. simpl.
      rewrite lookup_delete_ne; [done|]. intros E. apply Hnin. rewrite E.
      apply list_elem_of_fmap. by exists p.
    + destruct Ha as (? & ? & ? & ? & ?). unfold arena_ok. rewrite Hnost in * by (rewrite Em; done). by split_and!.
  - exists m. split_and!; try done; lia.
Qed.

Lemma del_table_string T gs T' gs' : del_table T gs = Ok (T', gs') -> string T' = string T.
Proof.
  unfold del_table, stbds_make_hash_index.
  repeat case_match; intros; by simplify_eq.
Qed.

Lemma del_swap_string {K V' : Type} kb hb (items items' : list (K * V')) T T' i j :
  del_swap kb hb items T i j = Ok (items', T') -> string T' = string T.
Proof. unfold del_swap. repeat case_match; intros; by simplify_eq. Qed.

(** The entries after a deletion. *)
Definition del_entry (s : list Z) strs : list (list Z * V) :=
  match key_index s strs with Some n => swap_delete n strs | None => strs end.

Lemma shdel_spec m0 m gs h key s strs :
  sh_inv m0 m h strs -> in_u 64 gs -> str_at m key s ->
  exists h' m', stbds_shdel gs h key m = Ok ((match key_index s strs with Some _ => 1 | None => 0 end, h', gs), m') /\
    sh_inv m0 m' h' (del_entry s strs) /\ h' ≫= a_default = h ≫= a_default /\
    sa_mode (sh_string h') = sa_mode (sh_string h).
Proof.
  intros [Hs Ha] Hgs Hkey. pose proof Hs as (_ & Hit & _). pose proof (Forall2_length _ _ _ Hit) as Hl.
  unfold stbds_shdel, stbds_hmdel_key_string, del_entry.
  destruct h as [a|]; [|destruct strs; [|done]; by exists None, m]. unfold handle_items in Hit, Hl. cbn in Hit, Hl.
  assert (key_index s strs = None -> exists h' m',
    Ok (from_option a_temp 0 (Some (with_temp a 0)), Some (with_temp a 0), gs, m)
      = Ok ((match key_index s strs with Some _ => 1 | None => 0 end, h', gs), m') /\
    sh_inv m0 m' h' (match key_index s strs with Some n => swap_delete n strs | None => strs end) /\
    h' ≫= a_default = Some a ≫= a_default /\
    sa_mode (sh_string h') = sa_mode (sh_string (Some a))) as Hmiss.
  { intros ->. by exists (Some (with_temp a 0)), m. }
  pose proof Ha as (Hok & Hcap & Ht). simpl in Ht. unfold handle_items in Hs. cbn in Hs.
  destruct (a_hash_table a) as [T|] eqn:ET.
  2:{ apply Hmiss. by rewrite Ht. }
  rewrite (find_slot_nat m (a_items a) strs T key s) by done.
  destruct (find_slot_spec id stbds_hash_string valid str_hash_ok str_key_inj strs T s Ht Hok I)
    as [(i & v & p & Hi & Hp & ->)|[Hno ->]].
  2:{ simpl. apply Hmiss. by apply key_index_None. }
  clear Hmiss. rewrite (proj2 (Z.ltb_ge (Z.of_nat p) 0)) by lia. unfold slot_index. rewrite Nat2Z.id, Hp.
  rewrite (key_index_lookup s v strs i) by (done || apply Hok). cbn zeta.
  destruct (del_hit id stbds_hash_string valid str_hash_ok str_key_inj (strs_of strs a) T i s v p gs Ha ET Hi Hp)
    as (strs' & T2 & T3 & E1 & _ & E3 & Hinv). simpl in E1, Hinv.
  pose proof (del_swap_string _ _ _ _ _ _ _ _ E1) as S1. pose proof (del_table_string _ _ _ _ E3) as S3.
  replace (stbds_arrlen (strs_of strs a) - 1 - 1) with (Z.of_nat (length strs) - 1) in E1
    by (unfold stbds_arrlen; simpl; lia).
  replace (stbds_arrlen a - 1 - 1) with (Z.of_nat (length (a_items a)) - 1) by (unfold stbds_arrlen; lia).
  apply lookup_lt_Some in Hi as Hlt.
  destruct (lookup_lt_is_Some_2 (a_items a) i) as [[k' v'] Hk']; [lia|].
  assert (key_at (a_items a) (Z.of_nat i) = Ok k') as ->.
  { unfold key_at. by rewrite (proj2 (Z.leb_le 0 _)), Nat2Z.id, Hk' by lia. }
  assert (sh_string (Some a) = string T) as Est by (unfold sh_string; simpl; by rewrite ET).
  rewrite Est in Hs. destruct (strings_inv_del m0 m _ _ _ i k' v' Hs Hk') as (m' & Ef & Hs').
  change (string (del_mark T (Z.of_nat p))) with (string T) in S1 |- *. rewrite Ef.
  assert (elems_at m' (swap_delete i (a_items a)) (swap_delete i strs)) as Hit' by apply Hs'.
  rewrite (del_swap_nat m' (a_items a) strs _ i strs' T2 Hl ltac:(lia) Hit' E1).
  rewrite take_swapped, E3 by lia.
  eexists _, m'. split; [done|]. split; [split|split; [done|]].
  - unfold sh_string, handle_items. simpl. rewrite S3, S1. exact Hs'.
  - exact Hinv.
  - unfold sh_string. simpl. by rewrite ET, S3, S1.
Qed.

(** ** [stbds_shfree] and the new maps *)

Lemma free_keys_spec m0 m items :
  heap_inv m0 m items.*1.*1 -> Forall (fun p => p.2 = 0) items.*1 ->
  exists m', free_keys items m = Ok (tt, m') /\ heap_inv m0 m' [].
Proof.
  revert m; induction items as [|[[b o] v] items IH]; intros m Hh Hk; [by exists m|].
  apply Forall_cons in Hk as [Ho Hk]. simpl in Ho. subst o. simpl in *.
  destruct (heap_inv_free m0 m _ items.*1.*1 b Hh) as [Ef Hh']; [done|].
  rewrite (bind_ok _ _ _ _ _ Ef). by apply IH.
Qed.

Lemma heap_inv_nil m0 m : heap_inv m0 m [] -> m_blocks m = m_blocks m0.
Proof.
  intros Hh. rewrite <- (heap_inv_rest _ _ _ Hh). symmetry. apply map_filter_id.
  intros. apply not_elem_of_nil.
Qed.

(** [stbds_shfree] gives back all that the map owns, once, and nothing else. *)
Lemma hmfree_spec m0 m h strs :
  sh_inv m0 m h strs ->
  exists m', stbds_hmfree_func h m = Ok (None, m') /\ m_blocks m' = m_blocks m0.
Proof.
  intros [(Hh & Hit & Ha & Hmode & Hnost & Hkeys) Hinv]. pose proof Hh as (_ & Hm & _).
  unfold stbds_hmfree_func. destruct h as [a|].
  2:{ exists m. split; [done|]. by apply heap_inv_nil. }
  unfold sh_string, handle_items in *. cbn in *. destruct (a_hash_table a) as [T|] eqn:ET.
  2:{ exists m. split; [done|]. by apply heap_inv_nil. }
  unfold owned, key_ok in *. destruct (Z.eqb_spec (sa_mode (string T)) STBDS_SH_STRDUP) as [Em|Em].
  - destruct (free_keys_spec m0 m (a_items a) Hh Hkeys) as (m' & E & Hh').
    rewrite (bind_ok _ _ _ _ _ E). unfold stbds_strreset.
    rewrite Hnost by (rewrite Em; done). exists m'. split; [done|]. by apply heap_inv_nil.
  - unfold mbind at 1, M_bind at 1, mret at 1, M_ret at 1. cbn.
    rewrite (bind_ok _ _ _ _ _ (strreset_spec m _ Hm Ha)). eexists. split; [done|]. simpl.
    by apply heap_inv_rest.
Qed.

Lemma heap_inv_start m : mem_ok m -> heap_inv m m [].
Proof.
  intros Hm. unfold heap_inv. split_and!; try done; [constructor|]. intros b Hb. by left.
Qed.

Lemma empty_arena_ok m mode : arena_ok m (with_mode empty_arena mode).
Proof. unfold arena_ok, block_ok. simpl. split_and!; try done; constructor. Qed.

Lemma strings_inv_start m mode : mem_ok m -> 1 <= mode <= 3 ->
  strings_inv m m (with_mode empty_arena mode) ([] : list (ptr * V)) [].
Proof.
  intros Hm Hmode. unfold strings_inv. split_and!; try done; try (simpl; lia).
  - unfold owned. simpl. destruct (_ =? _); by apply heap_inv_start.
  - constructor.
  - apply empty_arena_ok.
Qed.

(** A NULL handle, for strings of the caller. *)
Lemma sh_null_inv m : mem_ok m -> sh_inv m m None [].
Proof. intros Hm. split; [|done]. by apply strings_inv_start. Qed.

(** [stbds_sh_new_strdup] and [stbds_sh_new_arena]. *)
Lemma shmode_spec m gs mode : mem_ok m -> in_u 64 gs -> 1 <= mode <= 3 ->
  exists a gs', stbds_shmode_func gs mode = Ok (a, gs') /\ in_u 64 gs' /\
    sh_inv m m (Some a) [] /\ a_default a = None /\ sa_mode (sh_string (Some a)) = mode.
Proof.
  intros Hm Hgs Hmode. destruct (make_new_spec gs Hgs) as (T & E & Hc & Hu & Es & Eus & Etm).
  assert (string T = empty_arena) as Est by (unfold stbds_make_hash_index in E; by injection E as <-).
  unfold stbds_shmode_func. rewrite E. eexists _, _. split; [done|].
  split_and!; [apply next_seed_range| |done|done]. split.
  - unfold sh_string. simpl. rewrite Est. by apply strings_inv_start.
  - unfold handle_inv, arr_inv. simpl. split_and!; [split; constructor|by vm_compute|].
    exists 0. simpl. unfold entries. simpl. rewrite Hu.
    pose proof Hc as (_ & _ & _ & _ & _ & _ & _ & Ethr & _ & Ett).
    split_and!; [exact Hc|done| |]; rewrite ?Ethr, ?Ett, ?Eus, ?Etm; by vm_compute.
Qed.
End inv.
