(* ===== verification/StbStrProps.v ===== *)
(** StbStrProps: the theorems on stb_ds string maps and on the string arena. *)

From S2P Require Import Prelude Hhash StbHash StbProbe StbMem StbArena StbTable StbWalk StbInv StbOps StbStrMap StbStrNat StbStrInv.

(** ** Refinement: any sequence of operations *)

(** One use of the macros; keys are pointers to strings of the caller. *)
Inductive sh_op (V : Type) :=
  | ShPut (k : ptr) (v : V)        (* shput, HSHASH_SET *)
  | ShGet (k : ptr)                (* shget *)
  | ShExist (k : ptr)              (* HSHASH_EXIST *)
  | ShDel (k : ptr)                (* shdel, HSHASH_DEL *)
  | ShDefault (v : V)              (* shdefault *)
  | ShLen.                         (* shlen, HSHASH_SIZE *)
Arguments ShPut {V}.
Arguments ShGet {V}.
Arguments ShExist {V}.
Arguments ShDel {V}.
Arguments ShDefault {V}.
Arguments ShLen {V}.

(** What the caller sees of it. *)
Inductive sh_obs (V : Type) :=
  | ObsDone
  | ObsValue (v : V)
  | ObsInt (i : Z).
Arguments ObsDone {V}.
Arguments ObsValue {V}.
Arguments ObsInt {V}.

Section run.
Context {V : Type} (zero : V).
Abbreviation arr := (stbds_array ptr V).

(** The global seed, the handle and the memory. *)
Definition sh_state : Type := Z * option arr * mem.

Definition sh_step (op : sh_op V) (st : sh_state) : res (sh_obs V * sh_state) :=
  let '(gs, h, m) := st in
  match op with
  | ShPut k v =>
      match HSHASH_SET gs h k v m with
      | Ok ((a, gs), m) => Ok (ObsDone, (gs, Some a, m))
      | Fault f => Fault f
      end
  | ShGet k =>
      match stbds_shget m zero h k with
      | Ok (v, a) => Ok (ObsValue v, (gs, Some a, m))
      | Fault f => Fault f
      end
  | ShExist k =>
      match HSHASH_EXIST m h k with
      | Ok (r, a) => Ok (ObsInt r, (gs, Some a, m))
      | Fault f => Fault f
      end
  | ShDel k =>
      match HSHASH_DEL gs h k m with
      | Ok ((r, h, gs), m) => Ok (ObsInt r, (gs, h, m))
      | Fault f => Fault f
      end
  | ShDefault v => Ok (ObsDone, (gs, Some (stbds_hmdefault h v), m))
  | ShLen => Ok (ObsInt (HSHASH_SIZE h), st)
  end.

Fixpoint sh_run (ops : list (sh_op V)) (st : sh_state) : res (list (sh_obs V) * sh_state) :=
  match ops with
  | [] => Ok ([], st)
  | op :: ops =>
      match sh_step op st with
      | Ok (o, st) =>
          match sh_run ops st with Ok (os, st) => Ok (o :: os, st) | Fault f => Fault f end
      | Fault f => Fault f
      end
  end.

(** A new map in one of the three modes; NULL is a map of the caller's strings. *)
Definition sh_new (mode gs : Z) : res (option arr * Z) :=
  if mode =? STBDS_SH_DEFAULT then Ok (None, gs)
  else match stbds_shmode_func gs mode with Ok (a, gs) => Ok (Some a, gs) | Fault f => Fault f end.

(** The life of a map: made, used, freed. *)
Definition sh_life (mode gs : Z) (ops : list (sh_op V)) (m : mem) : res (list (sh_obs V) * mem) :=
  match sh_new mode gs with
  | Fault f => Fault f
  | Ok (h, gs) =>
      match sh_run ops (gs, h, m) with
      | Fault f => Fault f
      | Ok (os, (gs, h, m)) =>
          match HSHASH_FINI h m with Ok (_, m) => Ok (os, m) | Fault f => Fault f end
      end
  end.

(** The specification: a finite map from strings, and a default. *)
Definition str_of (m : mem) (p : ptr) : list Z := match cstr m p with Ok s => s | Fault _ => [] end.

Definition spec_state : Type := gmap (list Z) V * V.

Definition spec_step (m0 : mem) (op : sh_op V) (st : spec_state) : sh_obs V * spec_state :=
  let '(M, d) := st in
  match op with
  | ShPut k v => (ObsDone, (<[str_of m0 k := v]> M, d))
  | ShGet k => (ObsValue (default d (M !! str_of m0 k)), st)
  | ShExist k => (ObsInt (match M !! str_of m0 k with Some _ => 0 | None => HC_NOTFOUND end), st)
  | ShDel k => (ObsInt (match M !! str_of m0 k with Some _ => 1 | None => 0 end),
                (delete (str_of m0 k) M, d))
  | ShDefault v => (ObsDone, (M, v))
  | ShLen => (ObsInt (Z.of_nat (size M)), st)
  end.

Fixpoint spec_run (m0 : mem) (ops : list (sh_op V)) (st : spec_state) : list (sh_obs V) :=
  match ops with
  | [] => []
  | op :: ops => let '(o, st) := spec_step m0 op st in o :: spec_run m0 ops st
  end.

(** The keys of an operation are strings in the initial memory. *)
Definition op_ok (m0 : mem) (op : sh_op V) : Prop :=
  match op with
  | ShPut k _ | ShGet k | ShExist k | ShDel k => exists s, str_at m0 k s
  | ShDefault _ | ShLen => True
  end.

(** ** The simulation *)

Definition sim (m0 : mem) (st : sh_state) (sp : spec_state) : Prop :=
  let '(gs, h, m) := st in
  in_u 64 gs /\ exists strs, sh_inv m0 m h strs /\ sp.1 = list_to_map strs /\
    sp.2 = default zero (h ≫= a_default).

Lemma sh_inv_NoDup m0 m (h : option arr) strs : sh_inv m0 m h strs -> NoDup strs.*1.
Proof.
  intros [(_ & Hit & _) Ha]. destruct h as [a|]; [apply Ha|].
  apply Forall2_length in Hit. destruct strs; [constructor|done].
Qed.

Lemma sh_inv_str m0 m (h : option arr) strs p s : sh_inv m0 m h strs -> str_at m0 p s -> str_at m p s.
Proof.
  intros [((H0 & Hm & _ & Hsub & _) & _) _] Hs. apply (str_at_block m0); [|done].
  destruct (mem_ok_str m0 p s H0 Hs) as [_ [x Hx]]. rewrite Hx. by eapply lookup_weaken.
Qed.

Lemma get_entry_map strs s : NoDup strs.*1 ->
  get_entry (V := V) s strs = (list_to_map strs : gmap (list Z) V) !! s /\
  match key_index s strs, (list_to_map strs : gmap (list Z) V) !! s with
  | Some _, Some _ | None, None => True
  | _, _ => False
  end.
Proof.
  intros Hnd. pose proof (list_to_map_get strs s Hnd) as H. unfold get_entry.
  destruct (key_index s strs) as [n|]; [|by rewrite H]. destruct H as (v & Hn & ->). simpl. by rewrite Hn.
Qed.

Lemma sh_inv_size m0 m (h : option arr) strs : sh_inv m0 m h strs ->
  stbds_hmlen h = Z.of_nat (size (list_to_map strs : gmap (list Z) V)).
Proof.
  intros Hi. pose proof (sh_inv_NoDup _ _ _ _ Hi) as Hnd. destruct Hi as [(_ & Hit & _) _].
  apply Forall2_length in Hit. rewrite map_size_list_to_map by done. rewrite <- Hit.
  destruct h as [a|]; unfold stbds_hmlen, stbds_arrlen, handle_items; simpl; lia.
Qed.

Lemma sh_step_sim m0 op st sp :
  sim m0 st sp -> op_ok m0 op ->
  exists st', sh_step op st = Ok ((spec_step m0 op sp).1, st') /\ sim m0 st' (spec_step m0 op sp).2.
Proof.
  destruct st as [[gs h] m], sp as [M d]. intros (Hgs & strs & Hi & HM & Hd) Hop. simpl in HM, Hd. subst M d.
  pose proof (sh_inv_NoDup m0 m h strs Hi) as Hnd.
  destruct op as [k v|k|k|k|v|]; simpl in *.
  1-4: destruct Hop as [s Hs0]; pose proof (sh_inv_str m0 m h strs k s Hi Hs0) as Hs;
    assert (str_of m0 k = s) as -> by (unfold str_of; unfold str_at in Hs0; by rewrite Hs0);
    destruct (get_entry_map strs s Hnd) as [Hget Hcase].
  - destruct (shput_spec m0 m gs h k s v strs Hi Hgs Hs) as (a & gs' & m' & E & Hgs' & Hi' & Hd & _).
    unfold HSHASH_SET. rewrite E. eexists. split; [done|]. split; [done|].
    exists (put_entry s v strs). simpl. rewrite Hd. split_and!; [done| |done].
    symmetry. by apply list_to_map_put.
  - destruct (shget_spec m0 m h k s strs zero Hi Hs) as (a & -> & _ & Hi' & Hd & _).
    rewrite Hget. eexists. split; [done|]. split; [done|]. exists strs. simpl. by rewrite Hd.
  - destruct (shget_spec m0 m h k s strs zero Hi Hs) as (a & _ & E & Hi' & Hd & _).
    unfold HSHASH_EXIST. rewrite E. eexists. split.
    { destruct (key_index s strs), (list_to_map strs !! s); simpl; try done.
      by rewrite (proj2 (Z.leb_le 0 _)) by lia. }
    split; [done|]. exists strs. simpl. by rewrite Hd.
  - destruct (shdel_spec m0 m gs h k s strs Hi Hgs Hs) as (h' & m' & E & Hi' & Hd & _).
    unfold HSHASH_DEL. rewrite E. eexists. split.
    { destruct (key_index s strs), (list_to_map strs !! s); done. }
    split; [done|]. exists (del_entry s strs). rewrite Hd. split_and!; [done| |done].
    symmetry. by apply list_to_map_del.
  - eexists. split; [done|]. split; [done|]. exists strs. split_and!; [|done..].
    destruct h as [a|]; [exact Hi|]. destruct Hi as [Hs _]. split; [exact Hs|].
    pose proof Hs as (_ & Hit & _). apply Forall2_length in Hit. destruct strs; [|done].
    unfold handle_inv, arr_inv. simpl. split_and!; [split; constructor|by vm_compute|done].
  - exists (gs, h, m). unfold HSHASH_SIZE. rewrite (sh_inv_size m0 m h strs Hi).
    split; [done|]. split; [done|]. by exists strs.
Qed.

Lemma sh_run_sim m0 ops st sp :
  sim m0 st sp -> Forall (op_ok m0) ops ->
  exists st' sp', sh_run ops st = Ok (spec_run m0 ops sp, st') /\ sim m0 st' sp'.
Proof.
  revert st sp; induction ops as [|op ops IH]; intros st sp Hsim Hops; [by exists st, sp|].
  apply Forall_cons in Hops as [Hop Hops]. simpl.
  destruct (sh_step_sim m0 op st sp Hsim Hop) as (st1 & -> & Hsim1).
  destruct (spec_step m0 op sp) as [o sp1]. simpl in *.
  destruct (IH st1 sp1 Hsim1 Hops) as (st2 & sp2 & -> & Hsim2). by exists st2, sp2.
Qed.

Lemma sh_new_sim m mode gs : mem_ok m -> in_u 64 gs -> 1 <= mode <= 3 ->
  exists h gs', sh_new mode gs = Ok (h, gs') /\ sim m (gs', h, m) (∅, zero).
Proof.
  intros Hm Hgs Hmode. unfold sh_new. destruct (mode =? STBDS_SH_DEFAULT).
  - exists None, gs. split; [done|]. split; [done|]. exists []. split_and!; [by apply sh_null_inv|done|done].
  - destruct (shmode_spec (V := V) m gs mode Hm Hgs Hmode) as (a & gs' & -> & Hgs' & Hi & Hd & _).
    exists (Some a), gs'. split; [done|]. split; [done|]. exists []. simpl. by rewrite Hd.
Qed.

End run.

(** The strings "a", "l" and "d" of a caller. *)
Definition sample_mem : mem :=
  Mem 4 (list_to_map [(1, str_bytes [97]); (2, str_bytes [108]); (3, str_bytes [100])]).

Lemma sample_mem_ok : mem_ok sample_mem.
Proof.
  split; [by vm_compute|]. intros b [x Hb]. simpl in *.
  repeat (apply lookup_insert_Some in Hb as [[<- _]|[_ Hb]]; [lia|]). by rewrite lookup_empty in Hb.
Qed.


(** ** Strings in an arena *)

(** A sequence of calls of [stbds_stralloc]. *)
Fixpoint stralloc_list (a : stbds_string_arena) (ps : list ptr) : M mem (list ptr * stbds_string_arena) :=
  match ps with
  | [] => mret ([], a)
  | p :: ps =>
      r ← stbds_stralloc a p;
      rs ← stralloc_list r.2 ps;
      mret (r.1 :: rs.1, rs.2)
  end.

Lemma stralloc_list_spec m0 ps : forall m a,
  heap_inv m0 m (sa_storage a) -> arena_ok m a -> Forall (fun p => exists s, str_at m0 p s) ps ->
  exists qs a' m', stralloc_list a ps m = Ok ((qs, a'), m') /\
    heap_inv m0 m' (sa_storage a') /\ arena_ok m' a' /\
    Forall2 (fun p q => in_arena a' q /\ forall s, str_at m0 p s -> str_at m' q s) ps qs /\
    (forall q s, in_arena a q -> str_at m q s -> in_arena a' q /\ str_at m' q s).
Proof.
  induction ps as [|p ps IH]; intros m a Hh Ha Hps; [by exists [], a, m|].
  apply Forall_cons in Hps as [[s Hs0] Hps]. pose proof Hh as (H0 & Hm & _ & Hsub & _).
  assert (str_at m p s) as Hs.
  { apply (str_at_block m0); [|done]. destruct (mem_ok_str m0 p s H0 Hs0) as [_ [x Hx]].
    rewrite Hx. by eapply lookup_weaken. }
  destruct (stralloc_spec m a p s Hm Ha Hs) as (q & a1 & m1 & E1 & Hq & Hin & Hst).
  pose proof (heap_inv_arena m0 m a m1 a1 Hst Hh) as Hh1.
  pose proof Hst as (_ & Ha1 & _ & _ & Hup & Hkeep & _).
  destruct (IH m1 a1 Hh1 Ha1 Hps) as (qs & a2 & m2 & E2 & Hh2 & Ha2 & Hqs & Hkeep2).
  exists (q :: qs), a2, m2. simpl. rewrite (bind_ok _ _ _ _ _ E1). simpl. rewrite (bind_ok _ _ _ _ _ E2).
  split_and!; try done.
  - constructor; [|done]. destruct (Hkeep2 q s Hin Hq) as [Hin2 Hq2]. split; [done|].
    intros s' Hs'. unfold str_at in Hs0, Hs'. rewrite Hs0 in Hs'. by injection Hs' as <-.
  - intros q' s' Hin' Hs'. apply Hkeep2; [by apply Hup|by apply Hkeep].
Qed.

(** The string arena: any sequence of strings, of any length (small ones packed
    into blocks of 512 bytes to 1 MiB, larger ones in blocks of their own), is
    copied without a write outside a block; every pointer ever returned still holds
    its string at the end, and [stbds_strreset] frees exactly the arena's blocks. *)
Theorem arena_strings (m : mem) (ps : list ptr) :
  mem_ok m -> Forall (fun p => exists s, str_at m p s) ps ->
  exists qs a m', stralloc_list empty_arena ps m = Ok ((qs, a), m') /\
    Forall2 (fun p q => forall s, str_at m p s -> str_at m' q s) ps qs /\
    m_blocks m ⊆ m_blocks m' /\
    exists m'', stbds_strreset a m' = Ok (empty_arena, m'') /\ m_blocks m'' = m_blocks m.
Proof.
  intros Hm Hps.
  destruct (stralloc_list_spec m ps m empty_arena) as (qs & a & m' & E & Hh & Ha & Hqs & _);
    [by apply heap_inv_start|exact (empty_arena_ok m 0)|done|].
  pose proof Hh as (_ & Hm' & _ & Hsub & _).
  exists qs, a, m'. split_and!; [done| |done|].
  - eapply Forall2_impl; [exact Hqs|]. by intros p q [_ H].
  - rewrite (strreset_spec m' a Hm' Ha). eexists. split; [done|]. by apply heap_inv_rest.
Qed.

(** ** [stbds_shputs] on a key that is there *)

(** A map of copies: "d", then "l" (which the hash puts into the slots before "d",
    where the second inner loop finds it), then "a"; then [shputs] on "l". *)
Definition shputs_run : res (stbds_array ptr Z * mem) :=
  match HSHASH_INIT 0x31415926 with
  | Fault f => Fault f
  | Ok (h, gs) =>
      match sh_run 0 [ShPut (3, 0) 1; ShPut (2, 0) 2; ShPut (1, 0) 3] (gs, Some h, sample_mem) with
      | Ok (_, (gs, h, m)) =>
          match stbds_shputs gs h ((2, 0), 4) m with
          | Ok ((a, _), m) => Ok (a, m)
          | Fault f => Fault f
          end
      | Fault f => Fault f
      end
  end.

(** [stbds_shputs] of a key that is present may store another element's key:
    the second inner loop of [stbds_hmput_key] leaves [temp_key] as the last call
    set it. In this run the map of copies "d", "l", "a" gets the value for "l" under
    the key of "a": "l" is not found any more, two elements share one key, and
    freeing the map frees that key twice. *)
Theorem shputs_stale_key :
  res_ok shputs_run (fun '(a, m) =>
    a_items a = [((4, 0), 1); ((6, 0), 4); ((6, 0), 3)] /\
    str_at m (6, 0) [97] /\ str_at m (5, 0) [108] /\
    fst <$> (match stbds_shgeti m (Some a) (2, 0) with Ok r => Some r | _ => None end) = Some (-1) /\
    stbds_hmfree_func (Some a) m = Fault UseAfterFree).
Proof. by vm_compute. Qed.

(** The scenarios of [stbds_unit_tests] with strings: [shputs] into a map of the
    caller's strings, of copies, and in an arena. *)
Example shputs_new_key (mode : Z) : In mode [STBDS_SH_DEFAULT; STBDS_SH_STRDUP; STBDS_SH_ARENA] ->
  match sh_new (V := Z) mode 0x31415926 with
  | Ok (h, gs) =>
      match stbds_shputs gs h ((1, 0), 1) sample_mem with
      | Ok ((a, _), m) =>
          match a_items a with
          | [(k, v)] => str_at m k [97] /\ v = 1 /\ (k = (1, 0) <-> mode = STBDS_SH_DEFAULT)
          | _ => False
          end
      | Fault _ => False
      end
  | Fault _ => False
  end.
Proof. intros [<-|[<-|[<-|[]]]]; vm_compute; repeat split; intros; try done. Qed.
