(* ===== verification/Hv.v ===== *)
(** Hv: what broker and node use of libhv ([3rd/include/hv/hloop.h]).

    The library is compiled code: a call into it is recorded, in order, as an
    [hv_call]; its results are arguments of the models that use them.  The frame
    setting is a struct of the header, and [package_len] is the formula its
    comment gives for [UNPACK_BY_LENGTH_FIELD]. *)

From S2P Require Import Prelude Hmsg.

(** ** Frame settings *)

Definition UNPACK_MODE_NONE : Z := 0.
Definition UNPACK_BY_LENGTH_FIELD : Z := 3.
Definition ENCODE_BY_LITTEL_ENDIAN : Z := 1234.

(** [unpack_setting_t], the members of the length-field mode. *)
Record unpack_setting_t := Unpack {
  mode : Z;
  package_max_length : Z;
  body_offset : Z;
  length_field_offset : Z;
  length_field_bytes : Z;
  length_adjustment : Z;
  length_field_coding : Z
}.

(** [memset(&unpack_setting, 0, sizeof(unpack_setting_t))]. *)
Definition unpack_zero : unpack_setting_t := Unpack 0 0 0 0 0 0 0.

(** [package_len = head_len + body_len + length_adjustment], with the body
    length read from the length field (little-endian coding). *)
Definition package_len (s : unpack_setting_t) (mem : list Z) : Z :=
  body_offset s
  + read_le (Z.to_nat (length_field_bytes s)) (Z.to_nat (length_field_offset s)) mem
  + length_adjustment s.

(** ** Calls into the event loop *)

(** The read callback a connection can be given. *)
Inductive read_cb := BrokerOnRead | NodeOnRead.

Inductive hv_call :=
  | hio_write (io : Z) (buf : list Z)
  | hio_setcb_read (io : Z) (cb : read_cb)
  | hio_setcb_close (io : Z)
  | hio_set_unpack (io : Z) (s : unpack_setting_t)
  | hio_set_context (io : Z) (p : Z)
  | hio_read_start (io : Z)
  | hio_close (io : Z)
  | hloop_create_tcp_client (io : Z) (port : Z)
  | hloop_create_tcp_server (port : Z)
  | htimer_add (ms : Z)
  | htimer_del
  | hloop_run
  | hloop_stop
  | hloop_free.

(** The bytes written to connections, in order. *)
Definition writes (cs : list hv_call) : list (Z * list Z) :=
  omap (fun c => match c with hio_write io buf => Some (io, buf) | _ => None end) cs.

(** The bytes one connection is sent. *)
Definition sent_to (io : Z) (cs : list hv_call) : list (list Z) :=
  snd <$> filter (fun w => w.1 = io) (writes cs).

Lemma writes_app cs ds : writes (cs ++ ds) = writes cs ++ writes ds.
Proof. unfold writes. by rewrite omap_app. Qed.

Lemma sent_to_app io cs ds : sent_to io (cs ++ ds) = sent_to io cs ++ sent_to io ds.
Proof. unfold sent_to. by rewrite writes_app, filter_app, fmap_app. Qed.

(** ** The setting both programs build *)

(** The static variables [flag_init] and [unpack_setting] of
    [hbus_unpack_setting_get] and [hnode_unpack_setting_get]; the two functions
    have the same body. *)
Definition unpack_static : Type := Z * unpack_setting_t.
Definition unpack_static_init : unpack_static := (0, unpack_zero).

Definition unpack_setting_get (st : unpack_static) : unpack_setting_t * unpack_static :=
  if 0 =? st.1 then
    let s := Unpack UNPACK_BY_LENGTH_FIELD (1024 * 1024) sizeof_hmsg
               offsetof_payload_size 4 0 ENCODE_BY_LITTEL_ENDIAN in
    (s, (1, s))
  else (st.2, st).

(** What the static variables can be. *)
Definition unpack_static_ok (st : unpack_static) : Prop :=
  st = unpack_static_init \/ st = (unpack_setting_get unpack_static_init).2.

Lemma unpack_setting_get_ok st :
  unpack_static_ok st -> unpack_static_ok (unpack_setting_get st).2.
Proof. intros [->| ->]; by right. Qed.

Lemma unpack_setting_get_const st :
  unpack_static_ok st -> (unpack_setting_get st).1 = (unpack_setting_get unpack_static_init).1.
Proof. by intros [->| ->]. Qed.

Lemma package_len_msg st m rest :
  unpack_static_ok st -> hmsg_wf m ->
  package_len (unpack_setting_get st).1 (hmsg_bytes m ++ rest) = sizeof_hmsg + msg_payload_size m.
Proof.
  intros Hst (H1 & H2 & H3 & H4 & H5 & H6 & H7 & H8 & H9 & H10 & H11 & _).
  rewrite unpack_setting_get_const by done. unfold package_len. cbn -[hmsg_bytes read_le].
  unfold hmsg_bytes, hmsg_head. rewrite <- app_assoc.
  change (Z.to_nat 4) with 4%nat. change (Z.to_nat offsetof_payload_size) with (offset_of 10 (hmsg_fields m)).
  rewrite (read_layout (hmsg_fields m) 10 4 (msg_payload_size m)) by done. change (32 + msg_payload_size m + 0 = 32 + msg_payload_size m). lia.
Qed.

(** Framing agrees with the header check: for a message whose payload has
    the announced size, the frame length the event loop computes from the
    setting is the length [HMSG_HEAD_VALID] demands, whatever follows in the
    stream and however often the setting was fetched before. *)
Theorem frame_is_valid (st : unpack_static) (m : hmsg_t) (rest : list Z) :
  unpack_static_ok st -> hmsg_wf m -> msg_magic m = HMSG_MAGIC ->
  Z.of_nat (length (msg_payload m)) = msg_payload_size m ->
  package_len (unpack_setting_get st).1 (hmsg_bytes m ++ rest)
    <= package_max_length (unpack_setting_get st).1 ->
  let n := Z.to_nat (package_len (unpack_setting_get st).1 (hmsg_bytes m ++ rest)) in
  take n (hmsg_bytes m ++ rest) = hmsg_bytes m /\
  HMSG_HEAD_VALID m (Z.of_nat n) = true.
Proof.
  intros Hst Hwf Hm Hp. rewrite package_len_msg by done.
  rewrite unpack_setting_get_const by done.
  change (package_max_length _) with (1024 * 1024). intros Hmax. cbv zeta.
  assert (0 <= msg_payload_size m) by lia. unfold sizeof_hmsg in *. split.
  - apply take_app_length'. pose proof (length_hmsg_bytes m). unfold sizeof_hmsg in *. lia.
  - unfold HMSG_HEAD_VALID, HMSG_PATLOAD_SIZE_MAX, sizeof_hmsg, u64.
    rewrite uwrap_small by (unfold in_u; lia).
    rewrite Hm, !andb_true_iff, !Z.eqb_eq, !Z.leb_le. lia.
Qed.

Lemma frame_is_valid_witness :
  take 35 (hmsg_bytes sample_msg ++ [9; 9]) = hmsg_bytes sample_msg /\
  HMSG_HEAD_VALID sample_msg 35 = true.
Proof.
  apply (frame_is_valid unpack_static_init sample_msg [9; 9]);
    [by left|decided|reflexivity|reflexivity|vm_compute; discriminate].
Defined.
