(* ===== verification/Hbroker.v ===== *)
(** Hbroker: the broker, [src/hbroker.c].

    The broker is single threaded: the event loop calls [on_accept], [on_read],
    [on_close] and [on_timer], one after the other.  The state is the global
    context ([map_topic_sessions]), the sessions allocated with [malloc] by
    address, the user pointer of each connection ([hio_context]) and the calls
    made into the event loop.  Pointers are addresses ([Z]); a field read through
    NULL or through a freed session is a fault.

    The handlers are written against the interfaces of Hbuf.v and Hhash.v. *)

From S2P Require Import Prelude Hmsg Hbuf Hhash Hv.

Definition HSESSION_TIMEOUT_SEC : Z := 30.
Definition HBROKER_LISTEN_PORT : Z := 55000.
Definition HBROKER_RET_OK : Z := 0.

Section broker.
Context {HB : HBuf} {HH : HIHash}.

(** [hsession_t]. *)
Record hsession_t := Session {
  s_io : Z;
  buf_topics : hbuf_t;
  node_id : Z;
  timeout_sec : Z
}.

Record broker := Broker {
  map_topic_sessions : hhash hbuf_t;   (* hbus_ctx_get()->map_topic_sessions *)
  heap : gmap Z hsession_t;            (* live sessions by address *)
  contexts : gmap Z Z;                 (* hio_context: connection -> pointer *)
  b_unpack : unpack_static;            (* statics of hbus_unpack_setting_get *)
  calls : list hv_call                 (* calls into the event loop *)
}.

(** The context as [static] leaves it: zeroed. *)
Definition broker_init : broker := Broker HIHASH_INIT ∅ ∅ unpack_static_init [].

Implicit Types (st : broker) (io p topic it : Z).

(** ** Access to the state *)

Definition set_map h st : broker := Broker h (heap st) (contexts st) (b_unpack st) (calls st).
Definition set_heap H st : broker := Broker (map_topic_sessions st) H (contexts st) (b_unpack st) (calls st).
Definition add_call c st : broker :=
  Broker (map_topic_sessions st) (heap st) (contexts st) (b_unpack st) (calls st ++ [c]).

Definition call (c : hv_call) : M broker unit := modify (add_call c).

(** [s->field]: the session at the address. *)
Definition deref (p : Z) : M broker hsession_t := fun st =>
  if p =? 0 then Fault NullDeref
  else match heap st !! p with Some s => Ok (s, st) | None => Fault UseAfterFree end.

Definition store_session (p : Z) (s : hsession_t) : M broker unit :=
  modify (fun st => set_heap (<[p := s]> (heap st)) st).

(** [HIHASH_FIND(hbus_ctx->map_topic_sessions, topic)]. *)
Definition map_find (topic : Z) : M broker Z := fun st =>
  match HIHASH_FIND (map_topic_sessions st) topic with
  | Ok (it, h) => Ok (it, set_map h st)
  | Fault f => Fault f
  end.

(** [HIHASH_ITERATE_VALID(hbus_ctx->map_topic_sessions, it)]. *)
Definition map_valid (it : Z) : M broker bool :=
  gets (fun st => HIHASH_ITERATE_VALID (map_topic_sessions st) it).

(** Reading and writing through [HIHASH_GETVPTR(map, it)]. *)
Definition map_getv (it : Z) : M broker hbuf_t := fun st =>
  match HIHASH_GETV (map_topic_sessions st) it with
  | Some b => Ok (b, st)
  | None => Fault OutOfBounds
  end.
Definition map_setv (it : Z) (b : hbuf_t) : M broker unit :=
  modify (fun st => set_map (hh_store (map_topic_sessions st) it b) st).

Definition map_set (topic : Z) (b : hbuf_t) : M broker unit := fun st =>
  match HIHASH_SET (map_topic_sessions st) topic b with
  | Ok h => Ok (tt, set_map h st)
  | Fault f => Fault f
  end.
Definition map_del (topic : Z) : M broker unit := fun st =>
  match HIHASH_DEL (map_topic_sessions st) topic with
  | Ok h => Ok (tt, set_map h st)
  | Fault f => Fault f
  end.

(** [HROKER_LOG("node(%d,%d)...", s->node_id, hio_fd(s->io), ...)] reads two
    fields of the session. *)
Definition HROKER_LOG (p : Z) : M broker unit := deref p ≫= fun _ => mret tt.

(** [HBUF_PTR_AT(buf, hsession_t, i) == s] for the first [i]. *)
Definition ptr_search (b : hbuf_t) (p : Z) : option nat :=
  for_find (HBUF_PTR_COUNT b) 0 (fun i => HBUF_PTR_AT b i =? p).

(** [*HBUF_ITEM_AT(buf, int32_t, i)] for the [int32_t] items of a session. *)
Definition topic_at (b : hbuf_t) (i : nat) : Z := s32 (HBUF_ITEM_AT b 4 i).
Definition topic_search (b : hbuf_t) (topic : Z) : option nat :=
  for_find (HBUF_ITEM_COUNT b 4) 0 (fun i => topic_at b i =? topic).

(** ** Sessions and topics *)

Definition hbus_ctx_session_add (topic s : Z) : M broker Z :=
  it ← map_find topic;
  valid ← map_valid it;
  if (valid : bool) then
    b ← map_getv it;
    match ptr_search b s with
    | Some _ => HROKER_LOG s ≫= fun _ => mret HBROKER_RET_OK
    | None =>
        map_setv it (HBUF_PTR_PUSH b s).2 ≫= fun _ =>
        HROKER_LOG s ≫= fun _ => mret HBROKER_RET_OK
    end
  else
    let b := (hbuf_init 64).2 in
    let b := (HBUF_PTR_PUSH b s).2 in
    map_set topic b ≫= fun _ =>
    HROKER_LOG s ≫= fun _ => mret HBROKER_RET_OK.

Definition hbus_ctx_session_rm (topic_ex s : Z) : M broker Z :=
  it ← map_find topic_ex;
  valid ← map_valid it;
  if negb valid then HROKER_LOG s ≫= fun _ => mret HBROKER_RET_OK
  else
    b ← map_getv it;
    match ptr_search b s with
    | Some i =>
        map_setv it (hbuf_remove b (Z.of_nat i) 8).2 ≫= fun _ => HROKER_LOG s
    | None => mret tt
    end ≫= fun _ =>
    b ← map_getv it;
    (if Nat.eqb 0 (HBUF_PTR_COUNT b) then
       map_setv it (hbuf_fini b).2 ≫= fun _ => map_del topic_ex
     else mret tt) ≫= fun _ =>
    mret HBROKER_RET_OK.

(** [malloc] returns the address [p], 0 when it fails. *)
Definition hbus_seesion_alloc (io p : Z) : M broker Z :=
  if p =? 0 then mret 0
  else
    let '(r, b) := hbuf_init 32 in
    if r =? 0 then
      store_session p (Session io b 0 HSESSION_TIMEOUT_SEC) ≫= fun _ => mret p
    else mret 0.

(** The loop of [hbus_seesion_free], from topic [i] on, [n] topics left. *)
Fixpoint session_rm_loop (n i : nat) (s : Z) : M broker unit :=
  match n with
  | O => mret tt
  | S n =>
      x ← deref s;
      hbus_ctx_session_rm (topic_at (buf_topics x) i) s ≫= fun _ =>
      session_rm_loop n (S i) s
  end.

Definition hbus_seesion_free (s : Z) : M broker unit :=
  x ← deref s;
  let topic_num := HBUF_ITEM_COUNT (buf_topics x) 4 in
  session_rm_loop topic_num 0 s ≫= fun _ =>
  x ← deref s;
  store_session s (Session (s_io x) (hbuf_fini (buf_topics x)).2 (node_id x) (timeout_sec x)) ≫= fun _ =>
  modify (fun st => set_heap (delete s (heap st)) st).

(** [HIHASH_FINI] frees the table. *)
Definition hbus_ctx_free : M broker unit := modify (set_map HIHASH_INIT).

(** ** The handlers *)

(** The forwarding loop of [on_read]; the result is [send_num]. *)
Fixpoint forward_loop (n i : nat) (b : hbuf_t) (to : Z) (buf : list Z) (send_num : Z)
    : M broker Z :=
  match n with
  | O => mret send_num
  | S n =>
      x ← deref (HBUF_PTR_AT b i);
      if (to =? node_id x) || (HMSG_APPID_EVERYONR =? to) then
        call (hio_write (s_io x) buf) ≫= fun _ => forward_loop n (S i) b to buf (send_num + 1)
      else forward_loop n (S i) b to buf send_num
  end.

(** The cast of [buf] to a message: the header must lie within the memory. *)
Definition cast_msg (buf : list Z) : M broker hmsg_t := fun st =>
  match hmsg_cast buf with Some m => Ok (m, st) | None => Fault OutOfBounds end.

(** A message for other nodes. *)
Definition on_read_forward (msg : hmsg_t) (buf : list Z) (readbytes topic_ex : Z) : M broker unit :=
  it ← map_find topic_ex;
  valid ← map_valid it;
  if (valid : bool) then
    b ← map_getv it;
    forward_loop (HBUF_PTR_COUNT b) 0 b (msg_to msg) (take (Z.to_nat readbytes) buf) 0 ≫= fun _ =>
    mret tt
  else mret tt.

(** The topic key that [SUB] and [UNSUB] build: version 0 and the flags of the
    data message. *)
Definition topic_to_sub (msg : hmsg_t) : Z :=
  HMSG_TOPICEX 0 (u8 (HMSG_FLAGS HMSG_FCMD_DATA (HMSG_FLAGS_DATA (msg_flags msg)))) (msg_topic msg).

Definition on_read_sub (msg : hmsg_t) (session : Z) : M broker unit :=
  x ← deref session;
  let topic := topic_to_sub msg in
  match topic_search (buf_topics x) topic with
  | Some _ => HROKER_LOG session
  | None =>
      hbus_ctx_session_add topic session ≫= fun _ =>
      x ← deref session;
      store_session session
        (Session (s_io x) (hbuf_push (buf_topics x) (le_bytes 4 topic)).2 (node_id x) (timeout_sec x))
  end.

Definition on_read_unsub (msg : hmsg_t) (session : Z) : M broker unit :=
  x ← deref session;
  let topic := topic_to_sub msg in
  match topic_search (buf_topics x) topic with
  | Some j =>
      store_session session
        (Session (s_io x) (hbuf_remove (buf_topics x) (Z.of_nat j) 4).2 (node_id x) (timeout_sec x))
      ≫= fun _ =>
      hbus_ctx_session_rm topic session ≫= fun _ => mret tt
  | None => mret tt
  end.

Definition on_read_register (msg : hmsg_t) (session : Z) : M broker unit :=
  x ← deref session;
  store_session session (Session (s_io x) (buf_topics x) (msg_from msg) (timeout_sec x)) ≫= fun _ =>
  HROKER_LOG session.

(** The broker's own commands: the tests in the order of the source. *)
Definition on_read_command (msg : hmsg_t) (session : Z) : M broker unit :=
  if negb (Z.land HMSG_FCMD_SUB (msg_flags msg) =? 0) then on_read_sub msg session
  else if HMSG_FCMD_UNSUB =? msg_flags msg then on_read_unsub msg session
  else if HMSG_FCMD_REGISTER =? msg_flags msg then on_read_register msg session
  else mret tt.

(** [buf] is the memory at the pointer, [readbytes] the length of the frame. *)
Definition on_read (io : Z) (buf : list Z) (readbytes : Z) : M broker unit :=
  msg ← cast_msg buf;
  if negb (HMSG_HEAD_VALID msg readbytes) then mret tt
  else
    session ← gets (fun st => default 0 (contexts st !! io));
    let topic_ex := HMSG_TOPICEX (msg_version msg) (msg_flags msg) (msg_topic msg) in
    if negb (HMSG_APPID_BROKER =? msg_to msg) then on_read_forward msg buf readbytes topic_ex
    else on_read_command msg session.

Definition on_close (io : Z) : M broker unit :=
  s ← gets (fun st => default 0 (contexts st !! io));
  hbus_seesion_free s.

Definition hbus_unpack_setting_get : M broker unpack_setting_t := fun st =>
  let '(s, u) := unpack_setting_get (b_unpack st) in
  Ok (s, Broker (map_topic_sessions st) (heap st) (contexts st) u (calls st)).

(** [p] is what [malloc] returns in [hbus_seesion_alloc]. *)
Definition on_accept (io p : Z) : M broker unit :=
  call (hio_setcb_read io BrokerOnRead) ≫= fun _ =>
  call (hio_setcb_close io) ≫= fun _ =>
  u ← hbus_unpack_setting_get;
  call (hio_set_unpack io u) ≫= fun _ =>
  s ← hbus_seesion_alloc io p;
  modify (fun st => Broker (map_topic_sessions st) (heap st) (<[io := s]> (contexts st))
                      (b_unpack st) (calls st)) ≫= fun _ =>
  call (hio_set_context io s) ≫= fun _ =>
  call (hio_read_start io).

(** The inner loop of [on_timer]: it reads two fields of every session. *)
Fixpoint timer_sessions (n i : nat) (b : hbuf_t) : M broker unit :=
  match n with
  | O => mret tt
  | S n => HROKER_LOG (HBUF_PTR_AT b i) ≫= fun _ => timer_sessions n (S i) b
  end.

(** The outer loop; [fuel] bounds the number of topics. *)
Fixpoint timer_topics (fuel : nat) (it : Z) : M broker unit :=
  valid ← map_valid it;
  if negb valid then mret tt
  else match fuel with
  | O => fail OutOfFuel
  | S fuel =>
      b ← map_getv it;
      timer_sessions (HBUF_PTR_COUNT b) 0 b ≫= fun _ =>
      timer_topics fuel (HIHASH_ITERATE_NEXT it)
  end.

(** [hmlen] steps are enough. *)
Definition on_timer : M broker unit :=
  it ← gets (fun st => HIHASH_ITERATE_BEGIN (map_topic_sessions st));
  fuel ← gets (fun st => Z.to_nat (HIHASH_SIZE (map_topic_sessions st)));
  timer_topics fuel it.

(** ** The event loop *)

(** What [hloop_run] calls back, with the data of the event. *)
Inductive event :=
  | EvAccept (io p : Z)
  | EvRead (io : Z) (buf : list Z) (readbytes : Z)
  | EvClose (io : Z)
  | EvTimer.

Definition handle (ev : event) : M broker unit :=
  match ev with
  | EvAccept io p => on_accept io p
  | EvRead io buf readbytes => on_read io buf readbytes
  | EvClose io => on_close io
  | EvTimer => on_timer
  end.

(** The events of [hloop_run], in order. *)
Fixpoint run_events (evs : list event) : M broker unit :=
  match evs with
  | [] => mret tt
  | ev :: evs => handle ev ≫= fun _ => run_events evs
  end.

(** [main]: the listening socket (or NULL) and the events until the loop
    ends; the result is the exit status. *)
Definition main (argc : Z) (argv1 : Z) (listen_ok : bool) (evs : list event) : M broker Z :=
  let port := if 1 <? argc then argv1 else HBROKER_LISTEN_PORT in
  call (hloop_create_tcp_server port) ≫= fun _ =>
  if negb listen_ok then mret (-1)
  else
    call (htimer_add 15000) ≫= fun _ =>
    call hloop_run ≫= fun _ =>
    run_events evs ≫= fun _ =>
    call hloop_free ≫= fun _ =>
    hbus_ctx_free ≫= fun _ => mret 0.

(** ** What the handlers do where they refuse *)

(** A frame that fails [HMSG_HEAD_VALID] is dropped: no session is looked at,
    nothing is sent, the state is unchanged. *)
Theorem invalid_frame_dropped st (io : Z) (buf : list Z) (readbytes : Z) (m : hmsg_t) :
  hmsg_cast buf = Some m -> HMSG_HEAD_VALID m readbytes = false ->
  on_read io buf readbytes st = Ok (tt, st).
Proof.
  intros Hm Hv. unfold on_read, cast_msg. rewrite (bind_ok _ _ st m st) by by rewrite Hm.
  by rewrite Hv.
Qed.

(** The broker never unsubscribes: an [UNSUB] command (0x30) satisfies the
    test [HMSG_FCMD_SUB & flags] that is tried first, so it is handled as a
    subscription, and the [UNSUB] branch is reached by no flags byte. *)
Theorem unsub_is_sub st (m : hmsg_t) (session : Z) :
  (msg_flags m = HMSG_FCMD_UNSUB -> on_read_command m session st = on_read_sub m session st) /\
  (Z.land HMSG_FCMD_SUB (msg_flags m) = 0 -> (HMSG_FCMD_UNSUB =? msg_flags m) = false).
Proof.
  split.
  - intros E. unfold on_read_command. by rewrite E.
  - intros E. apply Z.eqb_neq. intros E'. by rewrite <- E' in E.
Qed.

(** When [malloc] fails in [on_accept] the connection is set up all the same,
    with NULL as its context: closing it, or a [SUB] or [REGISTER] frame on it,
    reads through the NULL pointer. *)
Theorem accept_without_memory_faults st st' (io : Z) (m : hmsg_t) :
  on_accept io 0 st = Ok (tt, st') ->
  on_close io st' = Fault NullDeref /\
  on_read_sub m (default 0 (contexts st' !! io)) st' = Fault NullDeref /\
  on_read_register m (default 0 (contexts st' !! io)) st' = Fault NullDeref.
Proof.
  intros E.
  assert (default 0 (contexts st' !! io) = 0) as Hp.
  { apply bind_ok_inv in E as (? & s1 & E1 & E). apply bind_ok_inv in E as (? & s2 & E2 & E).
    apply bind_ok_inv in E as (u & s3 & E3 & E). apply bind_ok_inv in E as (? & s4 & E4 & E).
    apply bind_ok_inv in E as (a & s5 & E5 & E). apply bind_ok_inv in E as (? & s6 & E6 & E).
    apply bind_ok_inv in E as (? & s7 & E7 & E). unfold hbus_seesion_alloc in E5.
    injection E5 as <- <-. injection E6 as _ <-. injection E7 as _ <-. injection E as <-.
    cbn. by rewrite lookup_insert_eq. }
  unfold on_read_sub, on_read_register. rewrite Hp. split_and!; [|done|done].
  unfold on_close. rewrite (bind_ok (gets _) _ st' 0 st') by (unfold gets; by rewrite Hp).
  done.
Qed.

End broker.
