(* ===== verification/BrokerSpec.v ===== *)
(** BrokerSpec: what the broker promises, without memory.

    A registry has the connected clients (node id and topics, in the order they
    subscribed) and, for each topic, the connections subscribed to it, in order.
    [reg_event] is the meaning of one event: the next registry and the frames
    sent.  BrokerRep.v shows that the handlers of Hbroker.v implement it. *)

From S2P Require Import Prelude Hmsg Hbuf Hhash Hv Hbroker.

Record client := Client { c_id : Z; c_topics : list Z }.

Record registry := Registry {
  clients : gmap Z client;       (* connection -> client *)
  subs : gmap Z (list Z)         (* topic key -> connections *)
}.

Definition reg_init : registry := Registry ∅ ∅.

Definition subs_add (t x : Z) (S : gmap Z (list Z)) : gmap Z (list Z) :=
  match S !! t with
  | Some xs => if decide (x ∈ xs) then S else <[t := xs ++ [x]]> S
  | None => <[t := [x]]> S
  end.

(** A topic without subscribers is removed. *)
Definition sub_without (x : Z) (xs : list Z) : option (list Z) :=
  match filter (fun y => y <> x) xs with [] => None | ys => Some ys end.
Definition subs_rm (t x : Z) (S : gmap Z (list Z)) : gmap Z (list Z) :=
  partial_alter (fun o => o ≫= sub_without x) t S.

Definition reg_accept (io : Z) (r : registry) : registry :=
  Registry (<[io := Client 0 []]> (clients r)) (subs r).

Definition reg_subscribe (io t : Z) (r : registry) : registry :=
  match clients r !! io with
  | Some c =>
      if decide (t ∈ c_topics c) then r
      else Registry (<[io := Client (c_id c) (c_topics c ++ [t])]> (clients r)) (subs_add t io (subs r))
  | None => r
  end.

Definition reg_register (io id : Z) (r : registry) : registry :=
  match clients r !! io with
  | Some c => Registry (<[io := Client id (c_topics c)]> (clients r)) (subs r)
  | None => r
  end.

Definition subs_rm_all (ts : list Z) (x : Z) (S : gmap Z (list Z)) : gmap Z (list Z) :=
  foldl (fun S t => subs_rm t x S) S ts.

Definition reg_close (io : Z) (r : registry) : registry :=
  Registry (delete io (clients r))
    (subs_rm_all (from_option c_topics [] (clients r !! io)) io (subs r)).

(** The connections that get a message: the subscribers of the topic, in
    order, all of them or those registered under the destination. *)
Definition addressed (r : registry) (to io : Z) : bool :=
  bool_decide (HMSG_APPID_EVERYONR = to) ||
  from_option (fun c => bool_decide (to = c_id c)) false (clients r !! io).
Definition recipients (r : registry) (t to : Z) : list Z :=
  filter (fun io => addressed r to io) (default [] (subs r !! t)).

Definition reg_command (io : Z) (m : hmsg_t) (r : registry) : registry :=
  if negb (Z.land HMSG_FCMD_SUB (msg_flags m) =? 0) then reg_subscribe io (topic_to_sub m) r
  else if HMSG_FCMD_REGISTER =? msg_flags m then reg_register io (msg_from m) r
  else r.

Definition reg_frame (io : Z) (m : hmsg_t) (bytes : list Z) (r : registry)
    : registry * list (Z * list Z) :=
  if HMSG_APPID_BROKER =? msg_to m then (reg_command io m r, [])
  else (r, (fun o => (o, bytes)) <$> recipients r (HMSG_TOPICEX_INMSG m) (msg_to m)).

Definition reg_event (ev : event) (r : registry) : registry * list (Z * list Z) :=
  match ev with
  | EvAccept io _ => (reg_accept io r, [])
  | EvRead io buf n =>
      match hmsg_cast buf with
      | Some m => if HMSG_HEAD_VALID m n then reg_frame io m (take (Z.to_nat n) buf) r else (r, [])
      | None => (r, [])
      end
  | EvClose io => (reg_close io r, [])
  | EvTimer => (r, [])
  end.

Fixpoint reg_events (evs : list event) (r : registry) : registry * list (Z * list Z) :=
  match evs with
  | [] => (r, [])
  | ev :: evs =>
      let '(r, out) := reg_event ev r in
      let '(r, out') := reg_events evs r in (r, out ++ out')
  end.

(** ** Well-formed registries *)

(** The two tables agree: a connection is listed under a topic exactly when the
    topic is listed under the client. *)
Record reg_wf (r : registry) : Prop := {
  wf_subs t xs : subs r !! t = Some xs -> NoDup xs /\ xs <> [];
  wf_sub_client t xs io : subs r !! t = Some xs -> io ∈ xs ->
    exists c, clients r !! io = Some c /\ t ∈ c_topics c;
  wf_client io c : clients r !! io = Some c ->
    NoDup (c_topics c) /\ Forall (fun t => 0 <= t < 2 ^ 31) (c_topics c);
  wf_client_sub io c t : clients r !! io = Some c -> t ∈ c_topics c ->
    exists xs, subs r !! t = Some xs /\ io ∈ xs
}.

(** ** Lemmas *)

Lemma sub_without_Some x xs ys :
  sub_without x xs = Some ys <-> ys = filter (fun y => y <> x) xs /\ ys <> [].
Proof.
  unfold sub_without. destruct (filter _ xs); split.
  - done.
  - by intros [-> ?].
  - by intros [= <-].
  - by intros [-> _].
Qed.

Lemma sub_without_None x xs : sub_without x xs = None <-> filter (fun y => y <> x) xs = [].
Proof. unfold sub_without. by destruct (filter _ xs). Qed.

Lemma sub_without_idem x o : (o ≫= sub_without x) ≫= sub_without x = o ≫= sub_without x.
Proof.
  destruct o as [xs|]; [|done]. simpl. destruct (sub_without x xs) as [ys|] eqn:E; [|done].
  simpl. apply sub_without_Some in E as [-> E]. apply sub_without_Some.
  rewrite list_filter_filter. split; [|done]. apply list_filter_iff. tauto.
Qed.

Lemma subs_rm_all_lookup ts x S t :
  subs_rm_all ts x S !! t = if decide (t ∈ ts) then S !! t ≫= sub_without x else S !! t.
Proof.
  revert S; induction ts as [|t0 ts IH]; intros S.
  - case_decide as H; [by apply not_elem_of_nil in H|done].
  - change (subs_rm_all (t0 :: ts) x S) with (subs_rm_all ts x (subs_rm t0 x S)). rewrite IH. unfold subs_rm.
    destruct (decide (t = t0)) as [->|Hne].
    + rewrite lookup_partial_alter_eq, sub_without_idem.
      rewrite (decide_True (P := t0 ∈ t0 :: ts)) by left. by case_decide.
    + rewrite lookup_partial_alter_ne by done. apply decide_ext.
      rewrite elem_of_cons. tauto.
Qed.

(** Without a subscription nothing changes. *)
Lemma sub_without_id x xs : x ∉ xs -> xs <> [] -> sub_without x xs = Some xs.
Proof.
  intros Hx Hn. apply sub_without_Some. split; [|done]. symmetry. apply filter_all.
  apply Forall_forall. by intros y Hy ->.
Qed.

(** After a close the connection is subscribed to nothing, and the others to
    what they were. *)
Lemma reg_close_lookup r io t :
  reg_wf r -> subs (reg_close io r) !! t = subs r !! t ≫= sub_without io.
Proof.
  intros W. unfold reg_close. simpl. rewrite subs_rm_all_lookup.
  destruct (subs r !! t) as [xs|] eqn:E; [|by case_decide]. simpl.
  case_decide as Hd; [done|]. symmetry. apply sub_without_id.
  - intros Hin. destruct (wf_sub_client r W t xs io E Hin) as (c & Hc & Ht).
    apply Hd. by rewrite Hc.
  - by apply (wf_subs r W t xs).
Qed.

Lemma subs_add_lookup_ne t t' x S : t <> t' -> subs_add t x S !! t' = S !! t'.
Proof.
  intros H. unfold subs_add. destruct (S !! t); [case_decide|]; [done|..];
    by rewrite lookup_insert_ne.
Qed.

Lemma subs_add_lookup t x S :
  subs_add t x S !! t =
    Some (match S !! t with Some xs => if decide (x ∈ xs) then xs else xs ++ [x] | None => [x] end).
Proof.
  unfold subs_add. destruct (S !! t) as [xs|] eqn:E; [case_decide|]; [done|..];
    by rewrite lookup_insert_eq.
Qed.

(** ** Preservation *)

Lemma reg_init_wf : reg_wf reg_init.
Proof. split; cbn; intros *; rewrite ?lookup_empty; done. Qed.

Lemma reg_accept_wf r io : reg_wf r -> clients r !! io = None -> reg_wf (reg_accept io r).
Proof.
  intros W Hio. split; cbn.
  - apply W.
  - intros t xs io' Hs Hin. destruct (wf_sub_client r W t xs io' Hs Hin) as (c & Hc & Ht).
    exists c. by rewrite lookup_insert_ne by congruence.
  - intros io' c. rewrite lookup_insert_Some. intros [[_ <-]|[_ Hc]]; [|by apply (wf_client r W io')].
    split; constructor.
  - intros io' c t. rewrite lookup_insert_Some. intros [[_ <-]|[_ Hc]]; [by intros ?%not_elem_of_nil|].
    by apply (wf_client_sub r W).
Qed.

Lemma reg_register_wf r io id : reg_wf r -> reg_wf (reg_register io id r).
Proof.
  intros W. unfold reg_register. destruct (clients r !! io) as [c|] eqn:Hc; [|done].
  split; cbn.
  - apply W.
  - intros t xs io' Hs Hin. destruct (wf_sub_client r W t xs io' Hs Hin) as (c' & Hc' & Ht).
    destruct (decide (io = io')) as [<-|Hne].
    + rewrite lookup_insert_eq. eexists. split; [done|]. by simplify_eq.
    + rewrite lookup_insert_ne by done. eauto.
  - intros io' c'. rewrite lookup_insert_Some. intros [[<- <-]|[_ Hc']];
      [by apply (wf_client r W) in Hc | by apply (wf_client r W) in Hc'].
  - intros io' c' t. rewrite lookup_insert_Some. intros [[<- <-]|[_ Hc']]; simpl;
      eapply (wf_client_sub r W); done.
Qed.

Lemma reg_subscribe_wf r io t :
  reg_wf r -> 0 <= t < 2 ^ 31 -> reg_wf (reg_subscribe io t r).
Proof.
  intros W Ht. unfold reg_subscribe. destruct (clients r !! io) as [c|] eqn:Hc; [|done].
  case_decide as Hin; [done|].
  assert (match subs r !! t with Some xs => io ∉ xs | None => True end) as Hno.
  { destruct (subs r !! t) as [xs|] eqn:Hs; [|done]. intros Hx. apply Hin.
    destruct (wf_sub_client r W t xs io Hs Hx) as (c' & Hc' & ?). by simplify_eq. }
  split; cbn.
  - intros t' xs. destruct (decide (t = t')) as [<-|Hne].
    + rewrite subs_add_lookup. intros [= <-]. destruct (subs r !! t) as [xs|] eqn:Hs.
      * rewrite decide_False by done. split; [|by destruct xs].
        apply NoDup_app. destruct (wf_subs r W t xs Hs) as [Hnd _].
        split; [done|]. split; [|apply NoDup_singleton]. intros y Hy ->%list_elem_of_singleton. done.
      * split; [apply NoDup_singleton|done].
    + rewrite subs_add_lookup_ne by done. apply W.
  - intros t' xs io' Hs Hx.
    assert (io' = io /\ t' = t \/ exists xs0, subs r !! t' = Some xs0 /\ io' ∈ xs0) as Hc0.
    { destruct (decide (t = t')) as [<-|Hne].
      - rewrite subs_add_lookup in Hs. injection Hs as <-. destruct (subs r !! t) as [xs|] eqn:E.
        + rewrite decide_False in Hx by done. apply elem_of_app in Hx as [Hx|Hx]; [eauto|].
          apply list_elem_of_singleton in Hx. by left.
        + apply list_elem_of_singleton in Hx. by left.
      - rewrite subs_add_lookup_ne in Hs by done. eauto. }
    destruct Hc0 as [[-> ->]|(xs0 & Hs0 & Hx0)].
    + rewrite lookup_insert_eq. eexists. split; [done|]. simpl. set_solver.
    + destruct (wf_sub_client r W t' xs0 io' Hs0 Hx0) as (c' & Hc' & Ht').
      destruct (decide (io = io')) as [<-|Hne].
      * rewrite lookup_insert_eq. eexists. split; [done|]. simplify_eq. simpl. set_solver.
      * rewrite lookup_insert_ne by done. eauto.
  - intros io' c'. rewrite lookup_insert_Some. intros [[<- <-]|[_ Hc']]; [|by apply (wf_client r W io')].
    destruct (wf_client r W io c Hc) as [Hnd Hr]. simpl. split.
    + apply NoDup_app. split; [done|]. split; [|apply NoDup_singleton].
      intros y Hy ->%list_elem_of_singleton. done.
    + apply Forall_app. split; [done|]. by constructor.
  - intros io' c' t' Hc' Ht'.
    assert ((io' = io /\ t' = t) \/ exists xs, subs r !! t' = Some xs /\ io' ∈ xs) as [[-> ->]|(xs & Hs & Hx)].
    { rewrite lookup_insert_Some in Hc'. destruct Hc' as [[<- <-]|[_ Hc']].
      - simpl in Ht'. apply elem_of_app in Ht' as [Ht'|Ht'].
        + right. by apply (wf_client_sub r W io c).
        + apply list_elem_of_singleton in Ht'. by left.
      - right. by apply (wf_client_sub r W io' c'). }
    + rewrite subs_add_lookup. eexists. split; [done|].
      destruct (subs r !! t) as [xs|]; [case_decide|]; set_solver.
    + destruct (decide (t = t')) as [<-|Hne].
      * rewrite subs_add_lookup, Hs. eexists. split; [done|]. case_decide; set_solver.
      * rewrite subs_add_lookup_ne by done. eauto.
Qed.

Lemma topic_to_sub_range m : hmsg_wf m -> 0 <= topic_to_sub m < 2 ^ 31.
Proof. intros (_ & _ & _ & Hf & Ht & _). exact (topicex_data_range _ _ Hf Ht). Qed.

Lemma reg_command_wf r io m : reg_wf r -> hmsg_wf m -> reg_wf (reg_command io m r).
Proof.
  intros W Hm. unfold reg_command. destruct (negb _).
  - apply reg_subscribe_wf; [exact W|]. exact (topic_to_sub_range m Hm).
  - destruct (_ =? _); [by apply reg_register_wf|done].
Qed.

Lemma reg_close_wf r io : reg_wf r -> reg_wf (reg_close io r).
Proof.
  intros W.
  assert (forall t xs, subs (reg_close io r) !! t = Some xs ->
    exists ys, subs r !! t = Some ys /\ xs = filter (fun y => y <> io) ys /\ xs <> []) as Hinv.
  { intros t xs. rewrite reg_close_lookup by done. intros (ys & Hs & E)%bind_Some.
    apply sub_without_Some in E as [-> E]. eauto. }
  split.
  - intros t xs (ys & Hs & -> & Hn)%Hinv. split; [|done].
    by apply NoDup_filter, (wf_subs r W t ys).
  - intros t xs io' (ys & Hs & -> & Hn)%Hinv Hin. apply list_elem_of_filter in Hin as [Hne Hin].
    destruct (wf_sub_client r W t ys io' Hs Hin) as (c & Hc & Ht). exists c.
    split; [|done]. simpl. by rewrite lookup_delete_ne.
  - intros io' c. cbn. rewrite lookup_delete_Some. intros [_ Hc]. by apply (wf_client r W io').
  - intros io' c t. cbn. rewrite lookup_delete_Some. intros [Hne Hc] Ht.
    destruct (wf_client_sub r W io' c t Hc Ht) as (xs & Hs & Hx).
    change (subs_rm_all _ io (subs r)) with (subs (reg_close io r)).
    rewrite reg_close_lookup, Hs by done. simpl.
    assert (io' ∈ filter (fun y => y <> io) xs) as Hf by (apply list_elem_of_filter; naive_solver).
    exists (filter (fun y => y <> io) xs). split; [|done].
    apply sub_without_Some. split; [done|]. intros E. rewrite E in Hf. by apply not_elem_of_nil in Hf.
Qed.
