(* ===== verification/BrokerRep.v ===== *)
(** BrokerRep: the handlers of Hbroker.v implement the registry of BrokerSpec.v.

    [rep st r] relates the memory of the broker to a registry: every topic buffer
    holds the addresses of the sessions of the subscribed connections, every
    session is live and belongs to one connection, no other session exists. *)

From S2P Require Import Prelude Hmsg Hbuf Hhash Hv Hbroker BrokerSpec.

Section rep.
Context {HB : HBuf} {HBS : HBufSpec HB} {HBT : HBufTotal HB}.
Context {HH : HIHash} {HHS : HIHashSpec HH}.
Implicit Types (st : broker) (r : registry) (s : hsession_t) (h : hhash hbuf_t).

(** [hio_context(io)]. *)
Definition ptr st (io : Z) : Z := default 0 (contexts st !! io).

(** A buffer of session addresses; [f] gives the address of a connection. *)
Definition sub_ok (f : Z -> Z) (b : hbuf_t) (xs : list Z) : Prop :=
  holds 8 b (f <$> xs) /\ NoDup (f <$> xs) /\ xs <> [].

Definition subs_rel (f : Z -> Z) h (S : gmap Z (list Z)) : Prop :=
  forall t, option_Forall2 (sub_ok f) (hh_map h !! t) (S !! t).

Definition client_rel (io : Z) s (c : client) : Prop :=
  s_io s = io /\ node_id s = c_id c /\ holds 4 (buf_topics s) (c_topics c).

Record rep st r : Prop := {
  rep_map : hh_ok (map_topic_sessions st);
  rep_unpack : unpack_static_ok (b_unpack st);
  rep_subs : subs_rel (ptr st) (map_topic_sessions st) (subs r);
  rep_clients io c : clients r !! io = Some c ->
    exists s, heap st !! ptr st io = Some s /\ client_rel io s c;
  rep_heap p s : heap st !! p = Some s ->
    0 < p < 2 ^ 64 /\ ptr st (s_io s) = p /\ is_Some (clients r !! s_io s)
}.

(** ** Pointers to live sessions *)

Lemma deref_ok st p s : heap st !! p = Some s -> p <> 0 -> deref p st = Ok (s, st).
Proof. intros Hs Hp. unfold deref. rewrite (proj2 (Z.eqb_neq p 0)) by done. by rewrite Hs. Qed.

Lemma HROKER_LOG_ok st p s : heap st !! p = Some s -> p <> 0 -> HROKER_LOG p st = Ok (tt, st).
Proof. intros Hs Hp. unfold HROKER_LOG. by rewrite (bind_ok _ _ _ _ _ (deref_ok st p s Hs Hp)). Qed.

Lemma rep_ptr_inj st r io io' c c' :
  rep st r -> clients r !! io = Some c -> clients r !! io' = Some c' ->
  ptr st io = ptr st io' -> io = io'.
Proof.
  intros R Hc Hc' E.
  destruct (rep_clients st r R io c Hc) as (s & Hs & <- & _).
  destruct (rep_clients st r R io' c' Hc') as (s' & Hs' & <- & _).
  rewrite E in Hs. congruence.
Qed.

(** ** The pieces the topic operations are made of *)

(** [HIHASH_FIND] and [HIHASH_ITERATE_VALID]: the two cases the handlers
    branch on. *)
Lemma map_find_ok st t :
  hh_ok (map_topic_sessions st) -> in_s 32 t ->
  exists it h', map_find t st = Ok (it, set_map h' st) /\ hh_ok h' /\
    hh_map h' = hh_map (map_topic_sessions st) /\
    ((exists b n, it = Z.of_nat n /\ hh_view h' !! n = Some (t, b) /\
        hh_map h' !! t = Some b /\
        map_valid it (set_map h' st) = Ok (true, set_map h' st) /\
        map_getv it (set_map h' st) = Ok (b, set_map h' st)) \/
     (hh_map h' !! t = None /\ map_valid it (set_map h' st) = Ok (false, set_map h' st))).
Proof.
  intros Hok Ht. destruct (hh_find_cases _ t Hok Ht) as (it & h' & E & Hok' & Hv & Hm & Hc).
  exists it, h'. unfold map_find, map_valid, map_getv, gets.
  change (map_topic_sessions (set_map h' st)) with h'. rewrite E. split_and!; [done..|].
  destruct Hc as [(b & n & -> & Hn & Hl & -> & ->)|(Hl & -> & ->)].
  - left. exists b, n. rewrite Hv, Hm. by split_and!.
  - right. by rewrite Hm.
Qed.

Lemma subs_rel_map f h h' S : hh_map h' = hh_map h -> subs_rel f h S -> subs_rel f h' S.
Proof. intros E H t. rewrite E. apply H. Qed.

Lemma subs_rel_Some f h S t b :
  subs_rel f h S -> hh_map h !! t = Some b -> exists xs, S !! t = Some xs /\ sub_ok f b xs.
Proof. intros H E. specialize (H t). rewrite E in H. inversion H; subst. eauto. Qed.

Lemma subs_rel_None f h S t : subs_rel f h S -> hh_map h !! t = None -> S !! t = None.
Proof. intros H E. specialize (H t). rewrite E in H. by inversion H. Qed.

(** One topic's buffer changes. *)
Lemma subs_rel_insert f h h' S t b xs :
  subs_rel f h S -> hh_map h' = <[t := b]> (hh_map h) -> sub_ok f b xs ->
  subs_rel f h' (<[t := xs]> S).
Proof.
  intros H E Hb t'. rewrite E. destruct (decide (t = t')) as [<-|Hne].
  - rewrite !lookup_insert_eq. by constructor.
  - rewrite !lookup_insert_ne by done. apply H.
Qed.

Lemma ptr_search_ok f b xs p :
  sub_ok f b xs -> ptr_search b p = fst <$> list_find (fun y => y = p) (f <$> xs).
Proof. intros (Hh & _). unfold ptr_search, HBUF_PTR_COUNT, HBUF_PTR_AT. apply holds_find; [lia|done]. Qed.

Lemma find_fmap_elem (f : Z -> Z) (xs : list Z) x p :
  f x = p -> (forall y, y ∈ xs -> f y = p -> y = x) ->
  match list_find (fun y => y = p) (f <$> xs) with
  | Some (i, _) => xs !! i = Some x
  | None => x ∉ xs
  end.
Proof.
  intros Hx Hinj. destruct (list_find _ _) as [[i y]|] eqn:E.
  - apply list_find_Some in E as (E & -> & _). rewrite list_lookup_fmap in E.
    destruct (xs !! i) as [z|] eqn:Hz; simplify_eq/=. f_equal. apply Hinj; [|done].
    by eapply list_elem_of_lookup_2.
  - apply list_find_None in E. intros Hin. rewrite Forall_forall in E.
    apply (E (f x)); [|done]. by apply list_elem_of_fmap_2.
Qed.

Lemma sub_ok_push f b xs x :
  sub_ok f b xs -> in_u 64 (f x) -> (forall y, y ∈ xs -> f y = f x -> y = x) -> x ∉ xs ->
  sub_ok f (HBUF_PTR_PUSH b (f x)).2 (xs ++ [x]).
Proof.
  intros (Hh & Hnd & Hne) Hu Hinj Hx.
  destruct (holds_push 8 b (f <$> xs) (f x)) as (b' & E & Hh'); [lia|done|done|].
  unfold HBUF_PTR_PUSH. rewrite E. split_and!.
  - by rewrite fmap_app.
  - rewrite fmap_app. apply NoDup_app. split; [done|]. split; [|apply NoDup_singleton].
    intros q Hq ->%list_elem_of_singleton. apply list_elem_of_fmap in Hq as (y & E' & Hy).
    apply Hx. by rewrite <- (Hinj y).
  - by destruct xs.
Qed.

Lemma sub_ok_new f n x : in_u 64 (f x) -> 0 <= n <= 2 ^ 30 ->
  sub_ok f (HBUF_PTR_PUSH (hbuf_init n).2 (f x)).2 [x].
Proof.
  intros Hu Hn. pose proof (hbuf_init_total n Hn) as Ei.
  destruct (hbuf_init n) as [r0 b] eqn:E. simpl in Ei. subst r0.
  destruct (holds_push 8 b [] (f x)) as (b' & E' & Hh'); [lia|by eapply holds_nil|done|].
  unfold HBUF_PTR_PUSH. cbn [snd]. rewrite E'. split_and!; [done|apply NoDup_singleton|done].
Qed.

(** Removing the address at index [i] removes the connection. *)
Lemma sub_ok_remove f b xs i x :
  sub_ok f b xs -> xs !! i = Some x ->
  holds 8 (hbuf_remove b (Z.of_nat i) 8).2 (f <$> filter (fun y => y <> x) xs) /\
  NoDup (f <$> filter (fun y => y <> x) xs).
Proof.
  intros (Hh & Hnd & _) Hi.
  assert (NoDup xs) as Hndx by by apply NoDup_fmap_1 in Hnd.
  destruct (holds_remove 8 b (f <$> xs) i) as (b' & E & Hh'); [lia|done| |].
  { rewrite length_fmap. by eapply lookup_lt_Some. }
  change (Z.of_nat 8) with 8 in E. rewrite E. rewrite <- (delete_filter xs i x) by done.
  rewrite list_fmap_delete. split; [done|]. by apply NoDup_delete.
Qed.

(** ** [hbus_ctx_session_add] and [hbus_ctx_session_rm] *)

Lemma session_add_ok f st S t x s :
  hh_ok (map_topic_sessions st) -> subs_rel f (map_topic_sessions st) S -> in_s 32 t ->
  0 < f x < 2 ^ 64 -> heap st !! f x = Some s ->
  (forall xs y, S !! t = Some xs -> y ∈ xs -> f y = f x -> y = x) ->
  exists h', hbus_ctx_session_add t (f x) st = Ok (HBROKER_RET_OK, set_map h' st) /\
    hh_ok h' /\ subs_rel f h' (subs_add t x S).
Proof.
  intros Hok Hr Ht Hp Hs Hinj. unfold hbus_ctx_session_add.
  destruct (map_find_ok st t Hok Ht) as (it & h1 & E1 & Hok1 & Hm1 & Hc).
  rewrite (bind_ok _ _ _ _ _ E1). apply (subs_rel_map f _ h1) in Hr as Hr1; [|done].
  destruct Hc as [(b & n & -> & Hn & Hb & Ev & Eg)|(Hb & Ev)]; rewrite (bind_ok _ _ _ _ _ Ev).
  - rewrite (bind_ok _ _ _ _ _ Eg).
    destruct (subs_rel_Some f h1 S t b Hr1 Hb) as (xs & Hx & Hsub).
    rewrite (ptr_search_ok f b xs) by done. unfold subs_add. rewrite Hx.
    pose proof (find_fmap_elem f xs x (f x) eq_refl (fun y => Hinj xs y Hx)) as Hf.
    destruct (list_find _ _) as [[i q]|]; simpl.
    + rewrite (bind_ok _ _ _ _ _ (HROKER_LOG_ok (set_map h1 st) (f x) s Hs ltac:(lia))).
      exists h1. split; [done|]. split; [done|].
      rewrite decide_True by (by eapply list_elem_of_lookup_2). done.
    + destruct (hh_store_map h1 n t b (HBUF_PTR_PUSH b (f x)).2 Hok1 Hn) as [Hok2 Hm2].
      set (h2 := hh_store h1 (Z.of_nat n) (HBUF_PTR_PUSH b (f x)).2) in *.
      rewrite (bind_ok (map_setv _ _) _ _ tt (set_map h2 st)) by done.
      rewrite (bind_ok _ _ _ _ _ (HROKER_LOG_ok (set_map h2 st) (f x) s Hs ltac:(lia))).
      exists h2. split; [done|]. split; [done|]. rewrite decide_False by done.
      apply (subs_rel_insert f h1 h2 S t (HBUF_PTR_PUSH b (f x)).2); [done|done|].
      apply sub_ok_push; [done|unfold in_u; lia|intros y; by apply Hinj|done].
  - set (b := (HBUF_PTR_PUSH (hbuf_init 64).2 (f x)).2).
    destruct (hh_set_map h1 t b Hok1 Ht) as (h2 & E2 & Hok2 & Hm2).
    rewrite (bind_ok (map_set t b) _ _ tt (set_map h2 st)) by (unfold map_set; simpl; by rewrite E2).
    rewrite (bind_ok _ _ _ _ _ (HROKER_LOG_ok (set_map h2 st) (f x) s Hs ltac:(lia))).
    exists h2. split; [done|]. split; [done|]. unfold subs_add.
    rewrite (subs_rel_None f h1 S t Hr1 Hb).
    apply (subs_rel_insert f h1 h2 S t b); [done|done|].
    apply sub_ok_new; [unfold in_u; lia|lia].
Qed.

(** The end of [hbus_ctx_session_rm]: the entry of a topic whose last
    subscriber left is deleted. *)
Lemma rm_tail_ok f st h1 h2 (n : nat) t b S x xs :
  hh_ok h2 -> hh_view h2 !! n = Some (t, b) -> hh_map h2 = <[t := b]> (hh_map h1) ->
  in_s 32 t -> subs_rel f h1 S -> S !! t = Some xs ->
  holds 8 b (f <$> filter (fun y => y <> x) xs) -> NoDup (f <$> filter (fun y => y <> x) xs) ->
  exists h', (b ← map_getv (Z.of_nat n);
      (if Nat.eqb 0 (HBUF_PTR_COUNT b) then
         map_setv (Z.of_nat n) (hbuf_fini b).2 ≫= fun _ => map_del t
       else mret tt) ≫= fun _ => mret HBROKER_RET_OK) (set_map h2 st)
    = Ok (HBROKER_RET_OK, set_map h' st) /\ hh_ok h' /\ subs_rel f h' (subs_rm t x S).
Proof.
  intros Hok Hn Hm Ht Hr Hx Hh Hnd.
  rewrite (bind_ok (map_getv _) _ _ b (set_map h2 st)).
  2: { unfold map_getv, HIHASH_GETV. simpl. by rewrite hh_at_spec, Hn. }
  unfold HBUF_PTR_COUNT. rewrite (holds_count 8 b _) by (lia || done). rewrite length_fmap.
  unfold subs_rm. destruct (filter _ xs) as [|y ys] eqn:E; cbn [length Nat.eqb].
  - destruct (hh_store_map h2 n t b (hbuf_fini b).2 Hok Hn) as [Hok3 Hm3].
    set (h3 := hh_store h2 (Z.of_nat n) (hbuf_fini b).2) in *.
    destruct (hh_del_map h3 t Hok3 Ht) as (h4 & E4 & Hok4 & Hm4).
    rewrite (bind_ok _ _ _ tt (set_map h4 st)).
    2: { rewrite (bind_ok (map_setv _ _) _ _ tt (set_map h3 st)) by done.
         unfold map_del. simpl. by rewrite E4. }
    exists h4. split_and!; [done|done|]. intros t'.
    rewrite Hm4, Hm3, Hm. destruct (decide (t = t')) as [<-|Hne].
    + rewrite lookup_delete_eq, lookup_partial_alter_eq, Hx. simpl.
      unfold sub_without. rewrite E. constructor.
    + rewrite lookup_delete_ne, !lookup_insert_ne, lookup_partial_alter_ne by done. apply Hr.
  - exists h2. split_and!; [done|done|]. intros t'. rewrite Hm.
    destruct (decide (t = t')) as [<-|Hne].
    + rewrite lookup_insert_eq, lookup_partial_alter_eq, Hx. simpl.
      unfold sub_without. rewrite E. by constructor.
    + rewrite lookup_insert_ne, lookup_partial_alter_ne by done. apply Hr.
Qed.

Lemma session_rm_ok f st S t x s :
  hh_ok (map_topic_sessions st) -> subs_rel f (map_topic_sessions st) S -> in_s 32 t ->
  0 < f x < 2 ^ 64 -> heap st !! f x = Some s ->
  (forall xs y, S !! t = Some xs -> y ∈ xs -> f y = f x -> y = x) ->
  exists h', hbus_ctx_session_rm t (f x) st = Ok (HBROKER_RET_OK, set_map h' st) /\
    hh_ok h' /\ subs_rel f h' (subs_rm t x S).
Proof.
  intros Hok Hr Ht Hp Hs Hinj. unfold hbus_ctx_session_rm.
  destruct (map_find_ok st t Hok Ht) as (it & h1 & E1 & Hok1 & Hm1 & Hc).
  rewrite (bind_ok _ _ _ _ _ E1). apply (subs_rel_map f _ h1) in Hr as Hr1; [|done].
  destruct Hc as [(b & n & -> & Hn & Hb & Ev & Eg)|(Hb & Ev)]; rewrite (bind_ok _ _ _ _ _ Ev); cbn [negb].
  - destruct (subs_rel_Some f h1 S t b Hr1 Hb) as (xs & Hx & Hsub).
    rewrite (bind_ok _ _ _ _ _ Eg). rewrite (ptr_search_ok f b xs) by done.
    pose proof (find_fmap_elem f xs x (f x) eq_refl (fun y => Hinj xs y Hx)) as Hf.
    destruct (list_find _ _) as [[i q]|]; cbn [fmap option_fmap option_map fst].
    + destruct (sub_ok_remove f b xs i x Hsub Hf) as [Hh' Hnd'].
      set (b' := (hbuf_remove b (Z.of_nat i) 8).2) in *.
      destruct (hh_store_map h1 n t b b' Hok1 Hn) as [Hok2 Hm2].
      pose proof (hh_store_spec _ h1 n t b b' Hok1 Hn) as [_ Hv2].
      set (h2 := hh_store h1 (Z.of_nat n) b') in *.
      rewrite (bind_ok (_ ≫= _) _ _ tt (set_map h2 st)).
      2: { rewrite (bind_ok (map_setv _ _) _ _ tt (set_map h2 st)) by done.
           by apply (HROKER_LOG_ok _ _ s); [|lia]. }
      apply (rm_tail_ok f st h1 h2 n t b' S x xs); try done.
      rewrite Hv2. apply list_lookup_insert_eq. by eapply lookup_lt_Some.
    + rewrite (bind_ok (mret tt) _ _ tt (set_map h1 st)) by done.
      destruct Hsub as (Hh & Hnd & Hne).
      apply (rm_tail_ok f st h1 h1 n t b S x xs); try done.
      * by rewrite insert_id.
      * rewrite filter_all; [done|]. apply Forall_forall. by intros y Hy ->.
      * rewrite filter_all; [done|]. apply Forall_forall. by intros y Hy ->.
  - rewrite (bind_ok _ _ _ _ _ (HROKER_LOG_ok (set_map h1 st) (f x) s Hs ltac:(lia))).
    exists h1. split; [done|]. split; [done|].
    unfold subs_rm. rewrite partial_alter_id; [done|].
    by rewrite (subs_rel_None f h1 S t Hr1 Hb).
Qed.

(** ** Updating the relation *)

Definition inj_on (f : Z -> Z) (x : Z) (S : gmap Z (list Z)) : Prop :=
  forall t xs y, S !! t = Some xs -> y ∈ xs -> f y = f x -> y = x.

Lemma rep_inj st r io c :
  rep st r -> reg_wf r -> clients r !! io = Some c -> inj_on (ptr st) io (subs r).
Proof.
  intros R W Hc t xs y Hs Hy E.
  destruct (wf_sub_client r W t xs y Hs Hy) as (c' & Hc' & _).
  by apply (rep_ptr_inj st r y io c' c).
Qed.

Lemma inj_on_rm f x S t : inj_on f x S -> inj_on f x (subs_rm t x S).
Proof.
  intros H t' xs y Hs Hy. unfold subs_rm in Hs.
  destruct (decide (t = t')) as [<-|Hne].
  - rewrite lookup_partial_alter_eq in Hs. apply bind_Some in Hs as (ys & Hs & E).
    apply sub_without_Some in E as [-> _]. apply list_elem_of_filter in Hy as [_ Hy].
    by apply (H t ys).
  - rewrite lookup_partial_alter_ne in Hs by done. by apply (H t' xs).
Qed.

Lemma subs_rel_ext f g h S :
  (forall t xs y, S !! t = Some xs -> y ∈ xs -> f y = g y) -> subs_rel f h S -> subs_rel g h S.
Proof.
  intros E H t. specialize (H t). inversion H as [b xs Hb Hm Hs|Hm Hs]; constructor.
  destruct Hb as (Hh & Hnd & Hne).
  assert (f <$> xs = g <$> xs) as Hfg
    by (apply list_fmap_ext; intros i y Hy; eapply E; [done|by eapply list_elem_of_lookup_2]).
  rewrite Hfg in *. by split_and!.
Qed.

Lemma rep_session st r io c :
  rep st r -> clients r !! io = Some c ->
  exists s, heap st !! ptr st io = Some s /\ 0 < ptr st io < 2 ^ 64 /\ client_rel io s c.
Proof.
  intros R Hc. destruct (rep_clients st r R io c Hc) as (s & Hs & Hcl).
  exists s. split; [done|]. split; [|done]. by apply (rep_heap st r R) in Hs as [? _].
Qed.

(** The session of one client and the topic table change. *)
Lemma rep_store st r io c s' c' h' S' :
  rep st r -> clients r !! io = Some c -> client_rel io s' c' ->
  hh_ok h' -> subs_rel (ptr st) h' S' ->
  rep (set_heap (<[ptr st io := s']> (heap st)) (set_map h' st))
      (Registry (<[io := c']> (clients r)) S').
Proof.
  intros R Hc Hcl Hok Hsub. destruct (rep_session st r io c R Hc) as (s & Hs & Hp & _).
  split; cbn; [done|apply R|done|..].
  - intros io' c0. rewrite lookup_insert_Some. intros [[<- <-]|[Hne Hc0]].
    + exists s'. by rewrite lookup_insert_eq.
    + destruct (rep_clients st r R io' c0 Hc0) as (s0 & Hs0 & Hcl0). exists s0.
      rewrite lookup_insert_ne; [done|]. intros E. apply Hne. by apply (rep_ptr_inj st r io io' c c0).
  - intros p s0. rewrite lookup_insert_Some. intros [[<- <-]|[Hne Hs0]].
    + destruct Hcl as (-> & _). split_and!; [lia..|done|]. by rewrite lookup_insert_eq.
    + destruct (rep_heap st r R p s0 Hs0) as (H1 & H2 & H3). split_and!; [lia..|done|].
      destruct (decide (io = s_io s0)) as [<-|Hio]; [by rewrite lookup_insert_eq|].
      by rewrite lookup_insert_ne.
Qed.

Lemma rep_set_map st r h' : rep st r -> hh_ok h' -> hh_map h' = hh_map (map_topic_sessions st) ->
  rep (set_map h' st) r.
Proof.
  intros R Hok Hm. split; cbn; try apply R; [done|]. eapply subs_rel_map; [done|]. apply R.
Qed.

Definition add_calls cs st : broker :=
  Broker (map_topic_sessions st) (heap st) (contexts st) (b_unpack st) (calls st ++ cs).

Lemma rep_add_calls cs st r : rep st r -> rep (add_calls cs st) r.
Proof. intros R. split; cbn; apply R. Qed.

(** ** [on_read]: the broker's commands *)

Lemma topic_search_ok b ts t :
  holds 4 b ts -> Forall (fun t => 0 <= t < 2 ^ 31) ts ->
  topic_search b t = fst <$> list_find (fun y => y = t) ts.
Proof.
  intros Hh Hr. rewrite <- (holds_find 4 b ts t) by (lia || done). apply for_find_ext.
  intros i [_ Hi]. rewrite (holds_count 4 b ts) in Hi by (lia || done).
  destruct (lookup_lt_is_Some_2 ts i) as [x Hx]; [lia|].
  unfold topic_at. rewrite (holds_at 4 b ts i x) by done.
  rewrite Forall_lookup in Hr. apply Hr in Hx. unfold s32. by rewrite swrap_small by (unfold in_s; lia).
Qed.

(** What a simulated handler does: it returns, keeps the relation and sends
    [out]. *)
Definition simulates (m : M broker unit) st r' (out : list (Z * list Z)) : Prop :=
  exists st', m st = Ok (tt, st') /\ rep st' r' /\ writes (calls st') = writes (calls st) ++ out.

Lemma simulates_same m st r : rep st r -> m st = Ok (tt, st) -> simulates m st r [].
Proof. intros R E. exists st. by rewrite app_nil_r. Qed.

Lemma list_find_elem (ts : list Z) t :
  match list_find (fun y => y = t) ts with Some _ => t ∈ ts | None => t ∉ ts end.
Proof.
  destruct (list_find _ ts) as [[i y]|] eqn:E.
  - apply list_find_Some in E as (E & -> & _). by eapply list_elem_of_lookup_2.
  - apply list_find_None in E. rewrite Forall_forall in E. intros Hin. by apply (E t).
Qed.

Lemma on_read_sub_sim st r io c m :
  rep st r -> reg_wf r -> clients r !! io = Some c -> hmsg_wf m ->
  simulates (on_read_sub m (ptr st io)) st (reg_subscribe io (topic_to_sub m) r) [].
Proof.
  intros R W Hc Hm. pose proof (topic_to_sub_range m Hm) as Ht. set (t := topic_to_sub m) in *.
  destruct (rep_session st r io c R Hc) as (s & Hs & Hp & Hio & Hid & Hh).
  destruct (wf_client r W io c Hc) as [Hnd Hr].
  unfold on_read_sub, reg_subscribe. rewrite Hc. fold t.
  unfold simulates. rewrite (bind_ok _ _ _ _ _ (deref_ok st _ s Hs ltac:(lia))).
  rewrite (topic_search_ok _ (c_topics c)) by done.
  pose proof (list_find_elem (c_topics c) t) as Hf.
  destruct (list_find _ _) as [[i y]|]; cbn [fmap option_fmap option_map].
  - rewrite decide_True by done. apply simulates_same; [done|].
    by apply (HROKER_LOG_ok _ _ s); [|lia].
  - rewrite decide_False by done.
    destruct (session_add_ok (ptr st) st (subs r) t io s) as (h' & E & Hok' & Hsub');
      [apply R|apply R|unfold in_s; lia|done|done| |].
    { intros xs y Hx Hy. by apply (rep_inj st r io c R W Hc t xs). }
    rewrite (bind_ok _ _ _ _ _ E).
    rewrite (bind_ok _ _ _ _ _ (deref_ok (set_map h' st) _ s Hs ltac:(lia))).
    destruct (holds_push 4 (buf_topics s) (c_topics c) t) as (b' & Ep & Hh');
      [lia|done|unfold in_u; simpl; lia|].
    rewrite Ep. eexists. split; [done|]. split; [|by rewrite app_nil_r].
    by apply (rep_store st r io c).
Qed.

Lemma on_read_register_sim st r io c m :
  rep st r -> clients r !! io = Some c ->
  simulates (on_read_register m (ptr st io)) st (reg_register io (msg_from m) r) [].
Proof.
  intros R Hc. destruct (rep_session st r io c R Hc) as (s & Hs & Hp & Hio & Hid & Hh).
  unfold on_read_register, reg_register, simulates. rewrite Hc.
  rewrite (bind_ok _ _ _ _ _ (deref_ok st _ s Hs ltac:(lia))).
  set (s' := Session (s_io s) (buf_topics s) (msg_from m) (timeout_sec s)).
  set (st' := set_heap (<[ptr st io := s']> (heap st)) st).
  rewrite (bind_ok _ _ _ tt st') by done.
  rewrite (HROKER_LOG_ok st' _ s'); [|by apply lookup_insert_eq|lia].
  exists st'. split; [done|]. split; [|by rewrite app_nil_r].
  apply (rep_store st r io c s' (Client (msg_from m) (c_topics c)) (map_topic_sessions st) (subs r));
    [done|done|done|apply R|apply R].
Qed.

Lemma on_read_command_sim st r io c m :
  rep st r -> reg_wf r -> clients r !! io = Some c -> hmsg_wf m ->
  simulates (on_read_command m (ptr st io)) st (reg_command io m r) [].
Proof.
  intros R W Hc Hm. unfold on_read_command, reg_command.
  destruct (negb _) eqn:Esub; [by apply (on_read_sub_sim st r io c)|].
  destruct (HMSG_FCMD_UNSUB =? msg_flags m) eqn:Eu.
  - apply Z.eqb_eq in Eu. by rewrite <- Eu in Esub.
  - destruct (HMSG_FCMD_REGISTER =? msg_flags m); [by apply (on_read_register_sim st r io c)|].
    by apply simulates_same.
Qed.

(** ** [on_read]: forwarding *)

Lemma addressed_client st r to io c s :
  clients r !! io = Some c -> client_rel io s c ->
  (to =? node_id s) || (HMSG_APPID_EVERYONR =? to) = addressed r to io.
Proof.
  intros Hc (_ & Hid & _). unfold addressed. rewrite Hc, Hid. simpl.
  rewrite orb_comm. f_equal; apply eq_true_iff_eq; by rewrite Z.eqb_eq, bool_decide_eq_true.
Qed.

Definition send_all (bytes : list Z) (ios : list Z) : list hv_call :=
  (fun io => hio_write io bytes) <$> ios.

Lemma writes_send_all bytes ios : writes (send_all bytes ios) = (fun io => (io, bytes)) <$> ios.
Proof. induction ios as [|io ios IH]; [done|]. cbn. by f_equal. Qed.

Lemma forward_loop_ok st0 r b xs to bytes n i k st :
  rep st0 r -> Forall (fun io => is_Some (clients r !! io)) xs ->
  sub_ok (ptr st0) b xs -> heap st = heap st0 -> (i + n = length xs)%nat ->
  exists k', forward_loop n i b to bytes k st
    = Ok (k', add_calls (send_all bytes (filter (fun io => addressed r to io) (drop i xs))) st).
Proof.
  intros R Hcl (Hh & Hnd & Hne). revert i k st; induction n as [|n IH]; intros i k st Hheap Hlen.
  - rewrite drop_ge by lia. exists k. simpl. unfold add_calls. simpl. rewrite app_nil_r. by destruct st.
  - destruct (lookup_lt_is_Some_2 xs i) as [io Hio]; [lia|].
    rewrite Forall_lookup in Hcl. destruct (Hcl i io Hio) as [c Hc].
    destruct (rep_session st0 r io c R Hc) as (s & Hs & Hp & Hrel).
    simpl. unfold HBUF_PTR_AT.
    rewrite (holds_at 8 b (ptr st0 <$> xs) i (ptr st0 io)) by (done || by rewrite list_lookup_fmap, Hio).
    rewrite (bind_ok _ _ _ _ _ (deref_ok st _ s ltac:(by rewrite Hheap) ltac:(lia))).
    rewrite (addressed_client st0 r to io c s Hc Hrel).
    rewrite (drop_S xs io i Hio), filter_cons.
    destruct (addressed r to io) eqn:Ea.
    + rewrite decide_True by done. destruct Hrel as (-> & _).
      rewrite (bind_ok (call _) _ _ tt (add_calls [hio_write io bytes] st)) by done.
      destruct (IH (S i) (k + 1) (add_calls [hio_write io bytes] st)) as [k' ->]; [done|lia|].
      exists k'. unfold add_calls, send_all. simpl. by rewrite <- app_assoc.
    + rewrite decide_False by (by rewrite Is_true_false). apply IH; [done|lia].
Qed.

Lemma recipients_None r t to : subs r !! t = None -> recipients r t to = [].
Proof. intros H. unfold recipients. by rewrite H. Qed.

Lemma on_read_forward_sim st r m buf n :
  rep st r -> reg_wf r -> hmsg_wf m ->
  simulates (on_read_forward m buf n (HMSG_TOPICEX_INMSG m)) st r
    ((fun o => (o, take (Z.to_nat n) buf)) <$> recipients r (HMSG_TOPICEX_INMSG m) (msg_to m)).
Proof.
  intros R W Hm. set (t := HMSG_TOPICEX_INMSG m). unfold on_read_forward, simulates.
  assert (in_s 32 t) as Ht by exact (topicex_inmsg_range m).
  clearbody t.
  destruct (map_find_ok st t (rep_map st r R) Ht) as (it & h1 & E1 & Hok1 & Hm1 & Hc).
  rewrite (bind_ok _ _ _ _ _ E1).
  pose proof (rep_set_map st r h1 R Hok1 Hm1) as R1.
  pose proof (rep_subs _ _ R1) as Hr1. change (ptr (set_map h1 st)) with (ptr st) in Hr1.
  destruct Hc as [(b & j & -> & Hn & Hb & Ev & Eg)|(Hb & Ev)]; rewrite (bind_ok _ _ _ _ _ Ev).
  - rewrite (bind_ok _ _ _ _ _ Eg).
    destruct (subs_rel_Some _ _ _ _ _ Hr1 Hb) as (xs & Hx & Hsub).
    destruct (forward_loop_ok (set_map h1 st) r b xs (msg_to m) (take (Z.to_nat n) buf)
                (length xs) 0 0 (set_map h1 st) R1) as [k' E]; [|done|done|lia|].
    { apply Forall_forall. intros io Hio.
      destruct (wf_sub_client r W t xs io Hx Hio) as (c & Hc & _). by exists c. }
    unfold HBUF_PTR_COUNT. destruct Hsub as (Hh & _).
    rewrite (holds_count 8 b _) by (lia || done). rewrite length_fmap.
    rewrite (bind_ok _ _ _ _ _ E). eexists. split; [done|]. split; [by apply rep_add_calls|].
    simpl. rewrite writes_app, writes_send_all, drop_0. unfold recipients. by rewrite Hx.
  - exists (set_map h1 st). split; [done|]. split; [done|].
    rewrite recipients_None by (by eapply subs_rel_None). simpl. by rewrite app_nil_r.
Qed.

Lemma on_read_sim st r io c buf n :
  rep st r -> reg_wf r -> clients r !! io = Some c ->
  Forall is_byte buf -> sizeof_hmsg <= Z.of_nat (length buf) ->
  simulates (on_read io buf n) st (reg_event (EvRead io buf n) r).1 (reg_event (EvRead io buf n) r).2.
Proof.
  intros R W Hc Hb Hl. unfold simulates, on_read. simpl.
  destruct (hmsg_cast buf) as [m|] eqn:Em; [|unfold hmsg_cast in Em; by rewrite decide_True in Em].
  pose proof (hmsg_cast_wf buf m Hb Em) as Hm.
  rewrite (bind_ok (cast_msg buf) _ _ m st) by (unfold cast_msg; by rewrite Em).
  destruct (HMSG_HEAD_VALID m n); [|by apply simulates_same]. simpl.
  rewrite (bind_ok (gets _) _ _ (ptr st io) st) by done.
  unfold reg_frame. destruct (HMSG_APPID_BROKER =? msg_to m); simpl.
  - by apply (on_read_command_sim st r io c).
  - by apply on_read_forward_sim.
Qed.

(** ** [on_close] *)

Lemma topic_at_ok b ts i t :
  holds 4 b ts -> Forall (fun t => 0 <= t < 2 ^ 31) ts -> ts !! i = Some t -> topic_at b i = t.
Proof.
  intros Hh Hr Hi. unfold topic_at. rewrite (holds_at 4 b ts i t) by done.
  rewrite Forall_lookup in Hr. apply Hr in Hi. unfold s32. by rewrite swrap_small by (unfold in_s; lia).
Qed.

Lemma session_rm_loop_ok f io s ts n i st T :
  holds 4 (buf_topics s) ts -> Forall (fun t => 0 <= t < 2 ^ 31) ts ->
  (i + n = length ts)%nat -> hh_ok (map_topic_sessions st) ->
  subs_rel f (map_topic_sessions st) T -> 0 < f io < 2 ^ 64 -> heap st !! f io = Some s ->
  inj_on f io T ->
  exists h', session_rm_loop n i (f io) st = Ok (tt, set_map h' st) /\
    hh_ok h' /\ subs_rel f h' (subs_rm_all (drop i ts) io T).
Proof.
  intros Hh Hr. revert i st T; induction n as [|n IH]; intros i st T Hlen Hok Hsub Hp Hs Hinj.
  - exists (map_topic_sessions st). rewrite drop_ge by lia. split_and!; [by destruct st|done|done].
  - destruct (lookup_lt_is_Some_2 ts i) as [t Hi]; [lia|]. simpl.
    rewrite (bind_ok _ _ _ _ _ (deref_ok st _ s Hs ltac:(lia))).
    rewrite (topic_at_ok _ ts i t) by done.
    assert (0 <= t < 2 ^ 31) as Ht by (rewrite Forall_lookup in Hr; by apply (Hr i)).
    destruct (session_rm_ok f st T t io s) as (h1 & E1 & Hok1 & Hsub1);
      [done|done|unfold in_s; lia|done|done|by apply Hinj|].
    rewrite (bind_ok _ _ _ _ _ E1).
    destruct (IH (S i) (set_map h1 st) (subs_rm t io T)) as (h2 & E2 & Hok2 & Hsub2);
      [lia|done|done|done|done|by apply inj_on_rm|].
    exists h2. rewrite E2. split_and!; [done|done|].
    by rewrite (drop_S ts t i Hi).
Qed.

Lemma on_close_sim st r io c :
  rep st r -> reg_wf r -> clients r !! io = Some c ->
  simulates (on_close io) st (reg_close io r) [].
Proof.
  intros R W Hc. destruct (rep_session st r io c R Hc) as (s & Hs & Hp & Hio & Hid & Hh).
  destruct (wf_client r W io c Hc) as [Hnd Hr].
  unfold on_close, simulates. rewrite (bind_ok (gets _) _ _ (ptr st io) st) by done.
  unfold hbus_seesion_free. rewrite (bind_ok _ _ _ _ _ (deref_ok st _ s Hs ltac:(lia))).
  rewrite (holds_count 4 _ (c_topics c)) by (lia || done).
  destruct (session_rm_loop_ok (ptr st) io s (c_topics c) (length (c_topics c)) 0 st (subs r))
    as (h' & E & Hok' & Hsub'); try done; try apply R; [by apply (rep_inj st r io c)|].
  rewrite (bind_ok _ _ _ _ _ E).
  rewrite (bind_ok _ _ _ _ _ (deref_ok (set_map h' st) _ s Hs ltac:(lia))).
  eexists. split; [done|]. split; [|by rewrite app_nil_r].
  unfold reg_close. rewrite Hc. split; cbn; [done|apply R|done|..].
  - intros io' c'. rewrite lookup_delete_Some. intros [Hne Hc'].
    destruct (rep_clients st r R io' c' Hc') as (s' & Hs' & Hcl). exists s'.
    split; [|done]. assert (ptr st io <> ptr st io') as Hpne
      by (intros Ep; apply Hne; by apply (rep_ptr_inj st r io io' c c')).
    change (ptr _ io') with (ptr st io'). by rewrite lookup_delete_ne, lookup_insert_ne.
  - intros p s'. rewrite lookup_delete_Some. intros [Hne Hs'].
    rewrite lookup_insert_ne in Hs' by done.
    destruct (rep_heap st r R p s' Hs') as (H1 & H2 & H3).
    split_and!; [lia..|done|]. rewrite lookup_delete_ne; [done|]. intros Ex. apply Hne. by rewrite Ex.
Qed.

(** ** [on_accept] *)

Lemma on_accept_eq ms hp cx un cl io p b u u' :
  unpack_setting_get un = (u, u') -> hbuf_init 32 = (HC_RET_OK, b) -> 0 < p < 2 ^ 64 ->
  on_accept io p (Broker ms hp cx un cl) =
    Ok (tt, Broker ms (<[p := Session io b 0 HSESSION_TIMEOUT_SEC]> hp) (<[io := p]> cx) u'
      (cl ++ [hio_setcb_read io BrokerOnRead; hio_setcb_close io; hio_set_unpack io u;
              hio_set_context io p; hio_read_start io])).
Proof.
  intros Hu Hb Hp. unfold on_accept, hbus_unpack_setting_get, hbus_seesion_alloc.
  rewrite (proj2 (Z.eqb_neq p 0)) by lia. rewrite Hb.
  change (HC_RET_OK =? 0) with true.
  unfold call, modify, store_session, mbind, M_bind, mret, M_ret, add_call, set_heap.
  cbn -[unpack_setting_get]. rewrite Hu. cbn. by rewrite <- !app_assoc.
Qed.

Lemma on_accept_sim st r io p :
  rep st r -> reg_wf r -> clients r !! io = None -> 0 < p < 2 ^ 64 -> heap st !! p = None ->
  simulates (on_accept io p) st (reg_accept io r) [].
Proof.
  intros R W Hio Hp Hfree. unfold simulates.
  set (u := unpack_setting_get (b_unpack st)).
  set (cs := [hio_setcb_read io BrokerOnRead; hio_setcb_close io; hio_set_unpack io u.1]).
  pose proof (hbuf_init_total 32 ltac:(lia)) as Ei.
  destruct (hbuf_init 32) as [r0 b] eqn:Eb. simpl in Ei. subst r0.
  set (s := Session io b 0 HSESSION_TIMEOUT_SEC).
  set (st' := Broker (map_topic_sessions st) (<[p := s]> (heap st)) (<[io := p]> (contexts st)) u.2
    (calls st ++ cs ++ [hio_set_context io p; hio_read_start io])).
  exists st'. split; [|split].
  - destruct st as [ms hp cx un cl]. unfold st', cs. cbn in u. subst u.
    destruct (unpack_setting_get un) as [u u'] eqn:Eu.
    by rewrite (on_accept_eq ms hp cx un cl io p b u u').
  - assert (forall x, x <> io -> ptr st' x = ptr st x) as Hptr
      by (intros x Hx; unfold ptr, st'; cbn; by rewrite lookup_insert_ne).
    split; cbn; [apply R|by apply unpack_setting_get_ok, R| | |].
    + apply (subs_rel_ext (ptr st)); [|apply R]. intros t xs y Hs Hy. symmetry. apply Hptr.
      intros ->. destruct (wf_sub_client r W t xs io Hs Hy) as (c & Hc & _). congruence.
    + intros io' c. rewrite lookup_insert_Some. intros [[<- <-]|[Hne Hc]].
      * exists s. unfold ptr; cbn. rewrite !lookup_insert_eq. cbn. rewrite ?lookup_insert_eq.
        split; [done|]. split_and!; [done|done|]. by eapply holds_nil.
      * destruct (rep_clients st r R io' c Hc) as (s' & Hs' & Hcl). exists s'.
        rewrite Hptr by done. rewrite lookup_insert_ne by congruence. done.
    + intros p' s'. rewrite lookup_insert_Some. intros [[<- <-]|[Hne Hs']].
      * split_and!; [lia..| |]; unfold ptr; cbn; by rewrite lookup_insert_eq.
      * destruct (rep_heap st r R p' s' Hs') as (H1 & H2 & H3).
        assert (s_io s' <> io) as Hx by (intros E; rewrite E, Hio in H3; by destruct H3).
        rewrite Hptr, lookup_insert_ne by done. by split; [|split].
  - unfold st'. cbn [calls]. rewrite !writes_app. done.
Qed.

(** ** [on_timer] *)

Lemma timer_sessions_ok b ps n i st :
  holds 8 b ps -> Forall (fun p => p <> 0 /\ is_Some (heap st !! p)) ps ->
  (i + n = length ps)%nat -> timer_sessions n i b st = Ok (tt, st).
Proof.
  intros Hh Hl. revert i; induction n as [|n IH]; intros i Hlen; [done|].
  destruct (lookup_lt_is_Some_2 ps i) as [p Hp]; [lia|].
  rewrite Forall_lookup in Hl. destruct (Hl i p Hp) as [Hnz [s Hs]].
  simpl. unfold HBUF_PTR_AT. rewrite (holds_at 8 b ps i p) by done.
  rewrite (bind_ok _ _ _ _ _ (HROKER_LOG_ok st p s Hs Hnz)). apply IH. lia.
Qed.

Lemma subs_live st r t xs :
  rep st r -> reg_wf r -> subs r !! t = Some xs ->
  Forall (fun p => p <> 0 /\ is_Some (heap st !! p)) (ptr st <$> xs).
Proof.
  intros R W Hx. apply Forall_fmap, Forall_forall. intros io Hio.
  destruct (wf_sub_client r W t xs io Hx Hio) as (c & Hc & _).
  destruct (rep_session st r io c R Hc) as (s & Hs & Hp & _). simpl. split; [lia|by exists s].
Qed.

Lemma timer_topics_ok st r n i :
  rep st r -> reg_wf r -> (i + n = length (hh_view (map_topic_sessions st)))%nat ->
  timer_topics n (Z.of_nat i) st = Ok (tt, st).
Proof.
  intros R W. revert i; induction n as [|n IH]; intros i Hlen; simpl.
  - rewrite (bind_ok (map_valid _) _ _ false st); [done|].
    unfold map_valid, gets, HIHASH_ITERATE_VALID. rewrite hh_size by apply R.
    rewrite (proj2 (Z.ltb_ge _ _)) by lia. by rewrite andb_false_r.
  - destruct (lookup_lt_is_Some_2 (hh_view (map_topic_sessions st)) i) as [[t b] Hi]; [lia|].
    rewrite (bind_ok (map_valid _) _ _ true st).
    2: { unfold map_valid, gets, HIHASH_ITERATE_VALID. rewrite hh_size by apply R.
         rewrite (proj2 (Z.leb_le _ _)), (proj2 (Z.ltb_lt _ _)) by lia. done. }
    simpl. rewrite (bind_ok (map_getv _) _ _ b st).
    2: { unfold map_getv, HIHASH_GETV. by rewrite hh_at_spec, Hi by apply R. }
    destruct (subs_rel_Some (ptr st) _ _ _ _ (rep_subs st r R) (hh_map_at _ t b i (rep_map st r R) Hi))
      as (xs & Hx & Hh & _).
    unfold HBUF_PTR_COUNT. rewrite (holds_count 8 b _) by (lia || done).
    rewrite (bind_ok _ _ _ _ _ (timer_sessions_ok b _ _ 0 st Hh (subs_live st r t xs R W Hx) eq_refl)).
    unfold HIHASH_ITERATE_NEXT. replace (Z.of_nat i + 1) with (Z.of_nat (S i)) by lia.
    apply IH. lia.
Qed.

Lemma on_timer_sim st r : rep st r -> reg_wf r -> simulates on_timer st r [].
Proof.
  intros R W. apply simulates_same; [done|]. unfold on_timer.
  rewrite (bind_ok (gets _) _ _ 0 st) by done.
  rewrite (bind_ok (gets _) _ _ (length (hh_view (map_topic_sessions st))) st).
  - by apply (timer_topics_ok st r _ 0).
  - unfold gets. rewrite hh_size by apply R. by rewrite Nat2Z.id.
Qed.

End rep.
