(* ===== verification/BrokerProps.v ===== *)
(** BrokerProps: the correctness of the broker.

    [env_ok] is what the event loop guarantees of the next event; [env_trace]
    says so along a run.  The theorems hold for every map and buffer that
    satisfy the interfaces; the witnesses use the stb_ds table of StbTable.v and
    the list buffer of Hbuf.v. *)

From S2P Require Import Prelude Hmsg Hbuf Hhash StbInstance Hv Hbroker BrokerSpec BrokerRep.

Section props.
Context {HB : HBuf} {HBS : HBufSpec HB} {HBT : HBufTotal HB}.
Context {HH : HIHash} {HHS : HIHashSpec HH}.
Implicit Types (st : broker) (r : registry) (s : hsession_t).

(** ** The environment *)

(** The connection is open: its context is its session. *)
Definition live st (io : Z) : bool :=
  match heap st !! ptr st io with Some s => s_io s =? io | None => false end.

(** A connection is accepted when it is not open, with a fresh session from
    [malloc]; it is read and closed while it is open; [buf] holds the frame of
    [readbytes] bytes and at least a header. *)
Definition env_ok st (ev : event) : bool :=
  match ev with
  | EvAccept io p =>
      negb (live st io) && (0 <? p) && (p <? 2 ^ 64)
      && match heap st !! p with None => true | Some _ => false end
  | EvRead io buf n =>
      live st io && forallb (fun b => (0 <=? b) && (b <? 256)) buf
      && (sizeof_hmsg <=? Z.of_nat (length buf)) && (n <=? Z.of_nat (length buf))
  | EvClose io => live st io
  | EvTimer => true
  end.

(** Every event of the run is one the loop can raise (as long as the handlers
    have not faulted). *)
Fixpoint env_trace st (evs : list event) : bool :=
  match evs with
  | [] => true
  | ev :: evs =>
      env_ok st ev &&
      match handle ev st with Ok (_, st') => env_trace st' evs | Fault _ => true end
  end.

Lemma live_client st r io : rep st r -> live st io = true <-> is_Some (clients r !! io).
Proof.
  intros R. unfold live. split.
  - destruct (heap st !! ptr st io) as [s|] eqn:Hs; [|done]. intros <-%Z.eqb_eq.
    by apply (rep_heap st r R) in Hs as (_ & _ & ?).
  - intros [c Hc]. destruct (rep_session st r io c R Hc) as (s & -> & _ & <- & _).
    apply Z.eqb_refl.
Qed.

Lemma live_None st r io : rep st r -> live st io = false -> clients r !! io = None.
Proof.
  intros R H. destruct (clients r !! io) as [c|] eqn:E; [|done].
  assert (live st io = true) by (apply (live_client st r io R); by exists c). congruence.
Qed.

Lemma bytes_ok buf : forallb (fun b => (0 <=? b) && (b <? 256)) buf = true -> Forall is_byte buf.
Proof.
  rewrite forallb_forall, Forall_forall. intros H b Hb%list_elem_of_In.
  apply H in Hb. unfold is_byte, in_u. simpl. lia.
Qed.

(** ** Simulation *)

Lemma reg_event_wf st r ev :
  rep st r -> reg_wf r -> env_ok st ev = true -> reg_wf (reg_event ev r).1.
Proof.
  intros R W Henv. destruct ev as [io p|io buf n|io|]; simpl in *; [| | |done].
  - rewrite !andb_true_iff, negb_true_iff in Henv. destruct Henv as [[[Hl _] _] _].
    apply reg_accept_wf; [done|]. by apply (live_None st).
  - rewrite !andb_true_iff in Henv. destruct Henv as [[[_ Hb] _] _].
    destruct (hmsg_cast buf) as [m|] eqn:Em; [|done]. destruct (HMSG_HEAD_VALID m n); [|done].
    unfold reg_frame. destruct (_ =? _); [|done].
    apply reg_command_wf; [done|]. by apply (hmsg_cast_wf buf); [apply bytes_ok|].
  - by apply reg_close_wf.
Qed.

Lemma handle_sim st r ev :
  rep st r -> reg_wf r -> env_ok st ev = true ->
  simulates (handle ev) st (reg_event ev r).1 (reg_event ev r).2.
Proof.
  intros R W Henv. destruct ev as [io p|io buf n|io|]; cbn [env_ok] in Henv.
  - rewrite !andb_true_iff, negb_true_iff in Henv. destruct Henv as [[[Hl H0] H1] Hf].
    apply on_accept_sim; [done|done|by apply (live_None st)|lia|].
    by destruct (heap st !! p).
  - rewrite !andb_true_iff in Henv. destruct Henv as [[[Hl Hb] Hs] _].
    apply (live_client st r io R) in Hl as [c Hc].
    apply (on_read_sim st r io c); [done|done|done|by apply bytes_ok|lia].
  - apply (live_client st r io R) in Henv as [c Hc]. by apply (on_close_sim st r io c).
  - by apply on_timer_sim.
Qed.

Lemma rep_init : rep broker_init reg_init.
Proof.
  split; cbn.
  - apply hh_init_ok.
  - by left.
  - intros t. rewrite hh_map_init, !lookup_empty. constructor.
  - intros io c. by rewrite lookup_empty.
  - intros p s. by rewrite lookup_empty.
Qed.

Lemma run_sim st r evs :
  rep st r -> reg_wf r -> env_trace st evs = true ->
  exists st', run_events evs st = Ok (tt, st') /\ rep st' (reg_events evs r).1 /\
    reg_wf (reg_events evs r).1 /\ writes (calls st') = writes (calls st) ++ (reg_events evs r).2.
Proof.
  revert st r; induction evs as [|ev evs IH]; intros st r R W Henv.
  - exists st. simpl. by rewrite app_nil_r.
  - cbn [env_trace] in Henv. apply andb_true_iff in Henv as [He Ht].
    destruct (handle_sim st r ev R W He) as (st1 & E & R1 & Hw1).
    pose proof (reg_event_wf st r ev R W He) as W1.
    rewrite E in Ht. destruct (IH st1 _ R1 W1 Ht) as (st2 & E2 & R2 & W2 & Hw2).
    exists st2. cbn [run_events reg_events]. rewrite (bind_ok _ _ _ _ _ E).
    destruct (reg_event ev r) as [r1 out1]. simpl in *.
    destruct (reg_events evs r1) as [r2 out2]. simpl in *.
    split; [done|]. split; [done|]. split; [done|]. by rewrite Hw2, Hw1, app_assoc.
Qed.

Lemma run_init_sim evs :
  env_trace broker_init evs = true ->
  exists st, run_events evs broker_init = Ok (tt, st) /\ rep st (reg_events evs reg_init).1 /\
    reg_wf (reg_events evs reg_init).1 /\ writes (calls st) = (reg_events evs reg_init).2.
Proof. apply (run_sim _ _ _ rep_init reg_init_wf). Qed.

(** A reachable state has a registry. *)
Lemma reach_rep evs st :
  env_trace broker_init evs = true -> run_events evs broker_init = Ok (tt, st) ->
  exists r, rep st r /\ reg_wf r.
Proof.
  intros He E. destruct (run_init_sim evs He) as (st' & E' & R & W & _).
  rewrite E in E'. injection E' as <-. eauto.
Qed.

(** ** Who receives a message, read off the memory *)

(** The connection is open, its session lists the topic and is addressed. *)
Definition delivers st (t to io : Z) : bool :=
  match heap st !! ptr st io with
  | Some s =>
      (s_io s =? io) && bool_decide (is_Some (topic_search (buf_topics s) t))
      && ((to =? node_id s) || (HMSG_APPID_EVERYONR =? to))
  | None => false
  end.

Lemma delivers_rep st r t to io :
  rep st r -> reg_wf r -> delivers st t to io = true <-> io ∈ recipients r t to.
Proof.
  intros R W. unfold recipients. rewrite list_elem_of_filter, Is_true_true. unfold delivers. split.
  - destruct (heap st !! ptr st io) as [s|] eqn:Hs; [|done].
    rewrite !andb_true_iff, Z.eqb_eq, bool_decide_eq_true. intros [[Hio Ht] Ha].
    destruct (rep_heap st r R _ s Hs) as (_ & _ & c & Hc). rewrite Hio in Hc.
    destruct (rep_session st r io c R Hc) as (s' & Hs' & _ & Hrel).
    rewrite Hs in Hs'. injection Hs' as <-.
    rewrite <- (addressed_client st r to _ c s Hc Hrel). split; [done|].
    destruct Hrel as (_ & _ & Hh). destruct (wf_client r W _ c Hc) as [_ Hr].
    rewrite (topic_search_ok _ (c_topics c)) in Ht by done.
    pose proof (list_find_elem (c_topics c) t) as Hf.
    destruct (list_find _ _); [|by destruct Ht].
    destruct (wf_client_sub r W _ c t Hc Hf) as (xs & -> & Hx). done.
  - intros [Ha Hin]. destruct (subs r !! t) as [xs|] eqn:Hx; [|by apply not_elem_of_nil in Hin].
    destruct (wf_sub_client r W t xs io Hx Hin) as (c & Hc & Ht).
    destruct (rep_session st r io c R Hc) as (s & -> & _ & Hrel).
    rewrite (addressed_client st r to io c s Hc Hrel), Ha.
    destruct Hrel as (-> & _ & Hh). destruct (wf_client r W _ c Hc) as [_ Hr].
    rewrite Z.eqb_refl, (topic_search_ok _ (c_topics c)) by done.
    pose proof (list_find_elem (c_topics c) t) as Hf. by destruct (list_find _ _).
Qed.

Definition copies (io : Z) (ws : list (Z * list Z)) : list (list Z) :=
  snd <$> filter (fun w => w.1 = io) ws.

Lemma copies_app io ws us : copies io (ws ++ us) = copies io ws ++ copies io us.
Proof. unfold copies. by rewrite filter_app, fmap_app. Qed.

Lemma copies_send io bytes xs :
  NoDup xs -> copies io ((fun o => (o, bytes)) <$> xs) = if decide (io ∈ xs) then [bytes] else [].
Proof.
  intros Hnd. induction Hnd as [|x xs Hx Hnd IH].
  - by rewrite decide_False by apply not_elem_of_nil.
  - change (copies io ((fun o => (o, bytes)) <$> x :: xs))
      with (copies io ([(x, bytes)] ++ ((fun o => (o, bytes)) <$> xs))).
    rewrite copies_app, IH. unfold copies. rewrite filter_cons. simpl.
    destruct (decide (x = io)) as [->|Hne]; simpl.
    + rewrite (decide_False (P := io ∈ xs)), decide_True by (done || by left). done.
    + apply decide_ext. rewrite elem_of_cons. intuition congruence.
Qed.

Lemma recipients_nodup r t to : reg_wf r -> NoDup (recipients r t to).
Proof.
  intros W. unfold recipients. apply NoDup_filter.
  destruct (subs r !! t) as [xs|] eqn:Hx; simpl; [by apply (wf_subs r W t xs)|constructor].
Qed.

(** Handling a valid frame from an open connection. *)
Lemma read_frame_sim st r io m :
  rep st r -> reg_wf r -> live st io = true -> hmsg_frame m ->
  simulates (on_read io (hmsg_bytes m) (Z.of_nat (length (hmsg_bytes m)))) st
    (reg_frame io m (hmsg_bytes m) r).1 (reg_frame io m (hmsg_bytes m) r).2.
Proof.
  intros R W Hl Hf. pose proof (hmsg_frame_valid m Hf) as Hv. destruct Hf as (Hwf & _ & Hp & _).
  apply (live_client st r io R) in Hl as [c Hc].
  pose proof (length_hmsg_bytes m) as Hlen.
  pose proof (on_read_sim st r io c (hmsg_bytes m) (Z.of_nat (length (hmsg_bytes m))) R W Hc
                (hmsg_bytes_bytes m Hwf) ltac:(lia)) as H.
  cbn [reg_event] in H. rewrite (hmsg_cast_bytes m Hwf), Hv in H.
  by rewrite Nat2Z.id, firstn_all in H.
Qed.

Lemma publish_sim st r io m :
  rep st r -> reg_wf r -> live st io = true -> hmsg_frame m -> msg_to m <> HMSG_APPID_BROKER ->
  exists st', on_read io (hmsg_bytes m) (Z.of_nat (length (hmsg_bytes m))) st = Ok (tt, st') /\
    rep st' r /\
    forall io', sent_to io' (calls st') = sent_to io' (calls st) ++
      (if delivers st (HMSG_TOPICEX_INMSG m) (msg_to m) io' then [hmsg_bytes m] else []).
Proof.
  intros R W Hl Hf Hto. destruct (read_frame_sim st r io m R W Hl Hf) as (st' & E & R' & Hw).
  unfold reg_frame in *. rewrite (proj2 (Z.eqb_neq _ _)) in R', Hw by congruence. simpl in *.
  exists st'. split; [done|]. split; [done|]. intros io'.
  change (sent_to io' (calls st')) with (copies io' (writes (calls st'))).
  rewrite Hw, copies_app, copies_send by by apply recipients_nodup. f_equal.
  pose proof (delivers_rep st r (HMSG_TOPICEX_INMSG m) (msg_to m) io' R W) as Hd.
  case_decide as Hin; [by rewrite (proj2 Hd Hin)|].
  destruct (delivers _ _ _ _); [|done]. by destruct Hin; apply Hd.
Qed.

Lemma sub_frame_sim st r io m :
  rep st r -> reg_wf r -> live st io = true -> hmsg_frame m ->
  msg_to m = HMSG_APPID_BROKER -> Z.land HMSG_FCMD_SUB (msg_flags m) <> 0 ->
  exists st', on_read io (hmsg_bytes m) (Z.of_nat (length (hmsg_bytes m))) st = Ok (tt, st') /\
    rep st' (reg_subscribe io (topic_to_sub m) r) /\
    reg_wf (reg_subscribe io (topic_to_sub m) r) /\ writes (calls st') = writes (calls st).
Proof.
  intros R W Hl Hf Hto Hfl. destruct (read_frame_sim st r io m R W Hl Hf) as (st' & E & R' & Hw).
  unfold reg_frame in *. rewrite (proj2 (Z.eqb_eq _ _)) in R', Hw by congruence. simpl in *.
  unfold reg_command in R'. rewrite (proj2 (Z.eqb_neq _ _)) in R' by done. simpl in R'.
  rewrite app_nil_r in Hw. exists st'. split_and!; try done.
  apply reg_subscribe_wf; [done|]. apply topic_to_sub_range, Hf.
Qed.

Lemma reg_subscribe_recipient r io t :
  reg_wf r -> is_Some (clients r !! io) -> 0 <= t < 2 ^ 31 ->
  io ∈ recipients (reg_subscribe io t r) t HMSG_APPID_EVERYONR.
Proof.
  intros W [c Hc] Ht. unfold recipients. apply list_elem_of_filter.
  split; [unfold addressed; by rewrite bool_decide_true|].
  pose proof (reg_subscribe_wf r io t W Ht) as W'.
  assert (exists c', clients (reg_subscribe io t r) !! io = Some c' /\ t ∈ c_topics c')
    as (c' & Hc' & Hin).
  { unfold reg_subscribe. rewrite Hc. case_decide as Hd; [by exists c|].
    eexists. cbn. rewrite lookup_insert_eq. split; [done|]. simpl. set_solver. }
  destruct (wf_client_sub _ W' io c' t Hc' Hin) as (xs & -> & Hx). done.
Qed.

(** A connection that is closed and not accepted again is sent nothing. *)
Definition accepts (io : Z) (ev : event) : bool :=
  match ev with EvAccept io' _ => io' =? io | _ => false end.

Lemma reg_event_silent io ev r :
  reg_wf r -> clients r !! io = None -> accepts io ev = false ->
  clients (reg_event ev r).1 !! io = None /\ copies io (reg_event ev r).2 = [].
Proof.
  intros W Hc Ha. destruct ev as [io' p|io' buf n|io'|]; simpl in *.
  - apply Z.eqb_neq in Ha. by rewrite lookup_insert_ne.
  - destruct (hmsg_cast buf) as [m|]; [|done]. destruct (HMSG_HEAD_VALID m n); [|done].
    unfold reg_frame. destruct (HMSG_APPID_BROKER =? msg_to m); simpl.
    + split; [|done]. unfold reg_command, reg_subscribe, reg_register.
      destruct (negb _), (HMSG_FCMD_REGISTER =? msg_flags m), (clients r !! io') as [c|] eqn:E; try done;
        try case_decide; try done; cbn; rewrite lookup_insert_ne; congruence.
    + split; [done|]. rewrite copies_send by by apply recipients_nodup.
      rewrite decide_False; [done|]. unfold recipients. rewrite list_elem_of_filter.
      intros [_ Hin]. destruct (subs r !! _) as [xs|] eqn:Hx; [|by apply not_elem_of_nil in Hin].
      destruct (wf_sub_client r W _ xs io Hx Hin) as (c & Hc' & _). congruence.
  - split; [|done]. rewrite lookup_delete_None. by right.
  - done.
Qed.

Lemma run_silent st r io evs :
  rep st r -> reg_wf r -> clients r !! io = None -> env_trace st evs = true ->
  Forall (fun ev => accepts io ev = false) evs ->
  exists st', run_events evs st = Ok (tt, st') /\ sent_to io (calls st') = sent_to io (calls st).
Proof.
  revert st r; induction evs as [|ev evs IH]; intros st r R W Hc Henv Ha; [by exists st|].
  cbn [env_trace] in Henv. apply andb_true_iff in Henv as [He Ht]. apply Forall_cons in Ha as [Ha Has].
  destruct (handle_sim st r ev R W He) as (st1 & E & R1 & Hw1).
  pose proof (reg_event_wf st r ev R W He) as W1. rewrite E in Ht.
  destruct (reg_event_silent io ev r W Hc Ha) as [Hc1 Hs1].
  destruct (IH st1 _ R1 W1 Hc1 Ht Has) as (st2 & E2 & Hs2).
  exists st2. cbn [run_events]. rewrite (bind_ok _ _ _ _ _ E). split; [done|]. rewrite Hs2.
  change (sent_to io (calls st1)) with (copies io (writes (calls st1))).
  by rewrite Hw1, copies_app, Hs1, app_nil_r.
Qed.

(** ** Theorems *)

(** C1 Refinement and memory safety of the broker: along any run the event loop
    can raise, no handler faults (no NULL or freed session is read, no probe of
    the hash table fails), every event is handled, the memory represents the
    registry that the specification computes, and the frames written to the
    connections are exactly the specification's, in order. *)
Theorem broker_refines (evs : list event) :
  env_trace broker_init evs = true ->
  exists st, run_events evs broker_init = Ok (tt, st) /\
    rep st (reg_events evs reg_init).1 /\
    writes (calls st) = (reg_events evs reg_init).2.
Proof.
  intros He. destruct (run_init_sim evs He) as (st & E & R & _ & Hw). by exists st.
Qed.

(** C9 Invariant of the broker's memory: in every reachable state a topic buffer
    holds at least one session pointer, no pointer twice, and every pointer is
    a live session of an open connection that lists the topic among its own; so
    no event can leave a dangling or stale pointer behind. *)
Theorem broker_no_dangling (evs : list event) (st : broker) (t : Z) (b : hbuf_t) :
  env_trace broker_init evs = true -> run_events evs broker_init = Ok (tt, st) ->
  hh_map (map_topic_sessions st) !! t = Some b ->
  exists ps, holds 8 b ps /\ ps <> [] /\ NoDup ps /\
    forall p, p ∈ ps -> exists s ts, heap st !! p = Some s /\ live st (s_io s) = true /\
      ptr st (s_io s) = p /\ holds 4 (buf_topics s) ts /\ t ∈ ts.
Proof.
  intros He E Hb. destruct (reach_rep evs st He E) as (r & R & W).
  destruct (subs_rel_Some _ _ _ _ _ (rep_subs st r R) Hb) as (xs & Hx & Hh & Hnd & Hne).
  exists (ptr st <$> xs). split_and!; [done|by destruct xs|done|].
  intros p (io & -> & Hio)%list_elem_of_fmap.
  destruct (wf_sub_client r W t xs io Hx Hio) as (c & Hc & Ht).
  destruct (rep_session st r io c R Hc) as (s & Hs & _ & Hsio & _ & Hts).
  exists s, (c_topics c). rewrite Hsio.
  split_and!; try done. apply (live_client st r io R). by exists c.
Qed.

(** C10 Publishing: in every reachable state a valid frame for other nodes is
    forwarded, byte for byte and exactly once, to each connection whose session
    subscribed to its topic and is addressed (by node id or as everyone), and to
    no other connection. *)
Theorem publish_exact (evs : list event) (st : broker) (io io' : Z) (m : hmsg_t) :
  env_trace broker_init evs = true -> run_events evs broker_init = Ok (tt, st) ->
  live st io = true -> hmsg_frame m -> msg_to m <> HMSG_APPID_BROKER ->
  exists st', on_read io (hmsg_bytes m) (Z.of_nat (length (hmsg_bytes m))) st = Ok (tt, st') /\
    sent_to io' (calls st') = sent_to io' (calls st) ++
      (if delivers st (HMSG_TOPICEX_INMSG m) (msg_to m) io' then [hmsg_bytes m] else []).
Proof.
  intros He E Hl Hf Hto. destruct (reach_rep evs st He E) as (r & R & W).
  destruct (publish_sim st r io m R W Hl Hf Hto) as (st' & E' & _ & Hs). by exists st'.
Qed.

(** Subscribe, then publish: once the broker has handled a valid [SUB] frame
    from a connection, a message to everyone under the data key of that frame is
    delivered to it, once and unchanged, whichever open connection it comes from. *)
Theorem subscribe_then_publish (evs : list event) (st : broker) (io io2 : Z) (m m2 : hmsg_t) :
  env_trace broker_init evs = true -> run_events evs broker_init = Ok (tt, st) ->
  live st io = true -> live st io2 = true -> hmsg_frame m -> hmsg_frame m2 ->
  msg_to m = HMSG_APPID_BROKER -> HMSG_FLAGS_CMD (msg_flags m) = HMSG_FCMD_SUB ->
  msg_to m2 = HMSG_APPID_EVERYONR -> HMSG_TOPICEX_INMSG m2 = topic_to_sub m ->
  exists st', run_events
      [EvRead io (hmsg_bytes m) (Z.of_nat (length (hmsg_bytes m)));
       EvRead io2 (hmsg_bytes m2) (Z.of_nat (length (hmsg_bytes m2)))] st = Ok (tt, st') /\
    sent_to io (calls st') = sent_to io (calls st) ++ [hmsg_bytes m2].
Proof.
  intros He E Hl Hl2 Hf Hf2 Hto Hfl Hto2 Hkey. destruct (reach_rep evs st He E) as (r & R & W).
  assert (Z.land HMSG_FCMD_SUB (msg_flags m) <> 0) as Hsub by by apply flags_cmd_sub.
  destruct (sub_frame_sim st r io m R W Hl Hf Hto Hsub) as (st1 & E1 & R1 & W1 & Hw1).
  assert (is_Some (clients r !! io)) as Hc by by apply (live_client st r io R).
  assert (live st1 io2 = true) as Hl1.
  { apply (live_client st1 _ io2 R1). apply (live_client st r io2 R) in Hl2 as [c2 Hc2].
    unfold reg_subscribe. destruct Hc as [c ->]. case_decide; [by exists c2|].
    cbn. destruct (decide (io = io2)) as [->|]; [by rewrite lookup_insert_eq|].
    rewrite lookup_insert_ne by done. by exists c2. }
  destruct (publish_sim st1 _ io2 m2 R1 W1 Hl1 Hf2 ltac:(by rewrite Hto2)) as (st2 & E2 & _ & Hs).
  exists st2. cbn [run_events handle]. rewrite (bind_ok _ _ _ _ _ E1), (bind_ok _ _ _ _ _ E2).
  split; [done|]. rewrite Hs.
  assert (delivers st1 (HMSG_TOPICEX_INMSG m2) (msg_to m2) io = true) as ->.
  { apply (delivers_rep st1 _ _ _ io R1 W1). rewrite Hkey, Hto2.
    apply reg_subscribe_recipient; [done|done|]. apply topic_to_sub_range, Hf. }
  unfold sent_to. by rewrite Hw1.
Qed.

(** A repeated subscription is idempotent: a [SUB] frame handled a second
    time changes nothing at all in the broker's memory and sends nothing. *)
Theorem subscribe_idempotent (evs : list event) (st st1 : broker) (io : Z) (m : hmsg_t) :
  env_trace broker_init evs = true -> run_events evs broker_init = Ok (tt, st) ->
  live st io = true -> hmsg_frame m ->
  msg_to m = HMSG_APPID_BROKER -> HMSG_FLAGS_CMD (msg_flags m) = HMSG_FCMD_SUB ->
  on_read io (hmsg_bytes m) (Z.of_nat (length (hmsg_bytes m))) st = Ok (tt, st1) ->
  on_read io (hmsg_bytes m) (Z.of_nat (length (hmsg_bytes m))) st1 = Ok (tt, st1).
Proof.
  intros He E Hl Hf Hto Hfl E1. destruct (reach_rep evs st He E) as (r & R & W).
  assert (Z.land HMSG_FCMD_SUB (msg_flags m) <> 0) as Hsub by by apply flags_cmd_sub.
  destruct (sub_frame_sim st r io m R W Hl Hf Hto Hsub) as (st1' & E1' & R1 & W1 & Hw1).
  rewrite E1 in E1'. injection E1' as <-.
  set (t := topic_to_sub m) in *. apply (live_client st r io R) in Hl as [c Hc].
  assert (exists c', clients (reg_subscribe io t r) !! io = Some c' /\ t ∈ c_topics c')
    as (c' & Hc' & Hin).
  { unfold reg_subscribe. rewrite Hc. case_decide as Hd; [by exists c|].
    eexists. cbn. rewrite lookup_insert_eq. split; [done|]. simpl. set_solver. }
  destruct (rep_session st1 _ io c' R1 Hc') as (s & Hs & Hp & _ & _ & Hh).
  destruct (wf_client _ W1 io c' Hc') as [_ Hr].
  unfold on_read, cast_msg. pose proof (hmsg_frame_valid m Hf) as Hv. destruct Hf as (Hwf & _).
  rewrite (bind_ok _ _ st1 m st1) by (by rewrite hmsg_cast_bytes). rewrite Hv. cbn [negb].
  rewrite (bind_ok (gets _) _ st1 (ptr st1 io) st1) by done.
  rewrite (proj2 (Z.eqb_eq _ _)) by congruence. cbn [negb].
  unfold on_read_command. rewrite (proj2 (Z.eqb_neq _ 0)) by done. cbn [negb].
  unfold on_read_sub. rewrite (bind_ok _ _ _ _ _ (deref_ok st1 _ s Hs ltac:(lia))). fold t.
  rewrite (topic_search_ok _ (c_topics c')) by done.
  pose proof (list_find_elem (c_topics c') t) as Hfnd.
  destruct (list_find _ _); [|done]. by apply (HROKER_LOG_ok _ _ s); [|lia].
Qed.

(** C11 Disconnect releases everything: after a connection is closed, and until
    a new connection is accepted under that handle, the rest of the run is
    handled and nothing more is written to it, whatever the other clients
    publish. *)
Theorem close_silences (evs1 evs2 : list event) (io : Z) (st1 : broker) :
  env_trace broker_init evs1 = true -> run_events evs1 broker_init = Ok (tt, st1) ->
  env_trace st1 (EvClose io :: evs2) = true ->
  Forall (fun ev => accepts io ev = false) evs2 ->
  exists st2, run_events (EvClose io :: evs2) st1 = Ok (tt, st2) /\
    sent_to io (calls st2) = sent_to io (calls st1).
Proof.
  intros He1 E1 He2 Ha. destruct (reach_rep evs1 st1 He1 E1) as (r & R & W).
  cbn [env_trace] in He2. apply andb_true_iff in He2 as [Hc Ht].
  destruct (handle_sim st1 r (EvClose io) R W Hc) as (st & E & R1 & Hw1).
  pose proof (reg_event_wf st1 r (EvClose io) R W Hc) as W1. rewrite E in Ht.
  destruct (run_silent st _ io evs2 R1 W1) as (st2 & E2 & Hs2); [|done|done|].
  { simpl. by rewrite lookup_delete_eq. }
  exists st2. cbn [run_events]. rewrite (bind_ok _ _ _ _ _ E). split; [done|].
  rewrite Hs2. unfold sent_to. by rewrite Hw1, app_nil_r.
Qed.

(** [main] runs to its end: with a listening socket and any events the loop
    can raise it returns 0, after freeing the topic table; when the port cannot
    be bound it returns -1 without handling an event. *)
Theorem main_returns (argc argv1 : Z) (evs : list event) :
  env_trace (add_calls [hloop_create_tcp_server
      (if 1 <? argc then argv1 else HBROKER_LISTEN_PORT); htimer_add 15000; hloop_run] broker_init) evs = true ->
  (exists st, main argc argv1 true evs broker_init = Ok (0, st) /\ map_topic_sessions st = HIHASH_INIT) /\
  (exists st, main argc argv1 false evs broker_init = Ok (-1, st) /\ writes (calls st) = []).
Proof.
  intros He. split.
  - destruct (run_sim _ reg_init evs (rep_add_calls _ _ _ rep_init) reg_init_wf He) as (st & E & _).
    eexists. split; [|shelve]. unfold main.
    rewrite (bind_ok (call _) _ _ tt (add_call _ broker_init) eq_refl). cbn [negb].
    rewrite (bind_ok (call _) _ _ tt (add_call _ (add_call _ broker_init)) eq_refl).
    rewrite (bind_ok (call _) _ _ tt (add_call _ (add_call _ (add_call _ broker_init))) eq_refl).
    rewrite (bind_ok _ _ _ _ _ E). done. Unshelve. done.
  - eexists. split; [done|]. done.
Qed.

End props.

(** ** A concrete broker *)

#[local] Existing Instance stb_hihash.
#[local] Existing Instance list_hbuf.

Definition example_msg (flags topic from to : Z) (payload : list Z) : hmsg_t :=
  Hmsg HMSG_MAGIC 0 0 flags topic from to 0 0 0 (Z.of_nat (length payload)) payload.

Definition example_read (io : Z) (m : hmsg_t) : event :=
  EvRead io (hmsg_bytes m) (Z.of_nat (length (hmsg_bytes m))).

(** Two clients: node 7 on connection 3 subscribes to topic 5, node 8 on
    connection 4 does too. *)
Definition example_evs : list event :=
  [EvAccept 3 4096; example_read 3 (example_msg 0 0 7 HMSG_APPID_BROKER []);
   EvAccept 4 8192; example_read 4 (example_msg 0 0 8 HMSG_APPID_BROKER []);
   example_read 3 (example_msg 0x20 5 7 HMSG_APPID_BROKER []);
   example_read 4 (example_msg 0x20 5 8 HMSG_APPID_BROKER []); EvTimer].

Definition run_state (evs : list event) (st : broker) : broker :=
  match run_events evs st with Ok (_, st') => st' | Fault _ => st end.

Definition example_st : broker := run_state example_evs broker_init.

(** A message of node 7 to everyone on topic 5. *)
Definition example_pub : hmsg_t := example_msg 0x10 5 7 HMSG_APPID_EVERYONR [104; 105].

Lemma example_evs_ok : env_trace broker_init example_evs = true.
Proof. vm_compute. reflexivity. Qed.

Lemma example_evs_run : run_events example_evs broker_init = Ok (tt, example_st).
Proof.
  destruct (run_init_sim example_evs example_evs_ok) as (st & E & _).
  unfold example_st, run_state. by rewrite E.
Qed.

Lemma broker_refines_witness :
  exists st, run_events (example_evs ++ [example_read 3 example_pub]) broker_init = Ok (tt, st) /\
    writes (calls st) = [(3, hmsg_bytes example_pub); (4, hmsg_bytes example_pub)].
Proof.
  destruct (broker_refines (example_evs ++ [example_read 3 example_pub])) as (st & E & _ & Hw);
    [vm_compute; reflexivity|].
  exists st. split; [exact E|]. rewrite Hw. vm_compute. reflexivity.
Defined.

Lemma broker_no_dangling_witness :
  exists b ps, hh_map (map_topic_sessions example_st) !! (0x10 * 2 ^ 16 + 5) = Some b /\
    holds 8 b ps /\ ps <> [].
Proof.
  destruct (hh_map (map_topic_sessions example_st) !! (0x10 * 2 ^ 16 + 5)) as [b|] eqn:E;
    [|apply (f_equal (from_option (fun _ => true) false)) in E; vm_compute in E; discriminate].
  destruct (broker_no_dangling example_evs example_st _ b example_evs_ok example_evs_run E)
    as (ps & H1 & H2 & _).
  exists b, ps. split; [reflexivity|]. split; [exact H1|exact H2].
Defined.

Lemma publish_exact_witness :
  exists st', on_read 3 (hmsg_bytes example_pub) 34 example_st = Ok (tt, st') /\
    sent_to 4 (calls st') = [hmsg_bytes example_pub].
Proof.
  destruct (publish_exact example_evs example_st 3 4 example_pub example_evs_ok example_evs_run)
    as (st' & E & Hs); [vm_compute; reflexivity|decided|discriminate|].
  exists st'. split; [exact E|]. rewrite Hs. vm_compute. reflexivity.
Defined.

Lemma subscribe_then_publish_witness :
  exists st', run_events [example_read 4 (example_msg 0x20 9 8 HMSG_APPID_BROKER []);
      example_read 3 (example_msg 0x10 9 7 HMSG_APPID_EVERYONR [1])] example_st = Ok (tt, st') /\
    sent_to 4 (calls st') = [hmsg_bytes (example_msg 0x10 9 7 HMSG_APPID_EVERYONR [1])].
Proof.
  destruct (subscribe_then_publish example_evs example_st 4 3
    (example_msg 0x20 9 8 HMSG_APPID_BROKER []) (example_msg 0x10 9 7 HMSG_APPID_EVERYONR [1])
    example_evs_ok example_evs_run) as (st' & E & Hs);
    [vm_compute; reflexivity|vm_compute; reflexivity|decided|decided|vm_compute; reflexivity..|].
  exists st'. split; [exact E|]. rewrite Hs. vm_compute. reflexivity.
Defined.

Lemma subscribe_idempotent_witness :
  let m := example_msg 0x20 9 7 HMSG_APPID_BROKER [] in
  exists st1, on_read 3 (hmsg_bytes m) 32 example_st = Ok (tt, st1) /\
    on_read 3 (hmsg_bytes m) 32 st1 = Ok (tt, st1).
Proof.
  cbv zeta. set (m := example_msg 0x20 9 7 HMSG_APPID_BROKER []).
  destruct (on_read 3 (hmsg_bytes m) 32 example_st) as [[[] st1]|f] eqn:E.
  - exists st1. split; [reflexivity|].
    apply (subscribe_idempotent example_evs example_st st1 3 m example_evs_ok example_evs_run);
      [vm_compute; reflexivity|decided|reflexivity|reflexivity|exact E].
  - exfalso. apply (f_equal faulted) in E. vm_compute in E. discriminate.
Defined.

Lemma close_silences_witness :
  exists st2, run_events (EvClose 4 :: [example_read 3 example_pub]) example_st = Ok (tt, st2) /\
    sent_to 4 (calls st2) = [].
Proof.
  destruct (close_silences example_evs [example_read 3 example_pub] 4 example_st
    example_evs_ok example_evs_run) as (st2 & E & Hs);
    [vm_compute; reflexivity|repeat constructor|].
  exists st2. split; [exact E|]. rewrite Hs. vm_compute. reflexivity.
Defined.

(** The announced size is one byte too large. *)
Lemma invalid_frame_dropped_witness :
  let m := Hmsg HMSG_MAGIC 0 0 0x10 5 7 8 0 0 0 1 [] in
  on_read 3 (hmsg_bytes m) 32 example_st = Ok (tt, example_st).
Proof.
  apply (invalid_frame_dropped example_st 3 _ 32 (Hmsg HMSG_MAGIC 0 0 0x10 5 7 8 0 0 0 1 []));
    [decided|vm_compute; reflexivity].
Defined.

Lemma accept_without_memory_faults_witness :
  exists st', on_accept 5 0 example_st = Ok (tt, st') /\ on_close 5 st' = Fault NullDeref.
Proof.
  destruct (on_accept 5 0 example_st) as [[[] st']|f] eqn:E;
    [|apply (f_equal faulted) in E; vm_compute in E; discriminate].
  exists st'. split; [reflexivity|].
  exact (proj1 (accept_without_memory_faults example_st st' 5 example_pub E)).
Defined.

Lemma main_returns_witness :
  exists st, main 1 0 true example_evs broker_init = Ok (0, st) /\ map_topic_sessions st = HIHASH_INIT.
Proof.
  destruct (main_returns 1 0 example_evs) as [H _]; [vm_compute; reflexivity|exact H].
Defined.

(** ** Out of memory in [hbuf_push] *)

(** A buffer that cannot grow by the 4 bytes of a topic: [hbuf_push] reports
    the failure and leaves the bytes alone, as [HBufSpec] says. *)
Definition short_hbuf : HBuf := {|
  hbuf_t := lbuf;
  hbuf_data := lb_data;
  hbuf_live b := lb_live b = true;
  hbuf_init := @hbuf_init list_hbuf;
  hbuf_fini := @hbuf_fini list_hbuf;
  hbuf_push b d :=
    if bool_decide (length d = 4%nat) then (HC_RET_MALLOC, b) else @hbuf_push list_hbuf b d;
  hbuf_remove := @hbuf_remove list_hbuf;
  hbuf_clear := @hbuf_clear list_hbuf
|}.

Lemma short_hbuf_spec : HBufSpec short_hbuf.
Proof.
  destruct list_hbuf_spec as [H1 H2 H3 H4]. split; [exact H1| |exact H3|exact H4].
  intros b d r b' Hl. cbn. case_bool_decide as Hd; [|exact (H2 b d r b' Hl)].
  intros [= <- <-]. split; [exact Hl|]. right. split; [discriminate|reflexivity].
Qed.

(** A failed [hbuf_push] is ignored, and memory safety is lost with it: with
    a buffer that cannot grow, a client that subscribes and disconnects stays in
    the topic table, and the next message on the topic reads its freed session. *)
Theorem push_failure_use_after_free :
  HBufSpec short_hbuf /\
  env_trace (HB := short_hbuf) broker_init (example_evs ++ [EvClose 3; example_read 4 example_pub]) = true /\
  run_events (HB := short_hbuf) (example_evs ++ [EvClose 3; example_read 4 example_pub]) broker_init
    = Fault UseAfterFree.
Proof.
  split; [exact short_hbuf_spec|]. split; [vm_compute; reflexivity|].
  apply faulted_Some. vm_compute. reflexivity.
Qed.
