(* ===== verification/Hnode.v ===== *)
(** Hnode: the client library, [src/hnode.c] and [include/hnode.h].

    The state is the [hnode_t] with what it points to: the subscription table,
    the request slots, the reply buffers that callers passed in (by address) and
    the calls made into the event loop.  The functions here run to their end
    before the next one starts; the interleaving of requesters and the I/O
    thread inside [hnode_request] is Hrequest.v.  [map_subpool_mtx] is a flag:
    locking it twice is a [Deadlock].

    A handler is the name of a function: the two of the library, or the user's
    own, which is the parameter [user_handler].  The results of [hio_write] come
    from the environment ([n_write_ret]). *)

From S2P Require Import Prelude Hmsg Hbuf Hhash Hv.

(** ** Constants *)

Definition HNODE_STATUS_INIT : Z := 0.
Definition HNODE_STATUS_DISCONNECT : Z := 1.
Definition HNODE_STATUS_CONNECTING : Z := 2.
Definition HNODE_STATUS_CONNECTED : Z := 3.

Definition HNODE_RET_OK : Z := 0.
Definition HNODE_RET_EPARAM : Z := 1.
Definition HNODE_RET_EDISCONNECT : Z := 2.
Definition HNODE_RET_ETIMEOUT : Z := 3.
Definition HNODE_RET_ESEND : Z := 4.
Definition HNODE_RET_EBUSY : Z := 5.

Definition HREQUEST_CTX_STATUS_IDLE : Z := 0.
Definition HREQUEST_CTX_STATUS_BUSY : Z := 1.
Definition HREQUEST_CTX_STATUS_DONE : Z := 2.

Definition HNODE_REQUEST_TIMEOUT_MAX : Z := 10000.
Definition HNODE_REQUEST_COUNT_INIT : Z := 16.
Definition HNODE_RECONN_INTERVAL : Z := 2.

(** ** Data *)

(** [hnode_subscrib_handler_func_t]. *)
Inductive handler_func :=
  | HNull
  | HOnStatus            (* hnode_on_status *)
  | HOnRespond           (* hnode_on_respond *)
  | HUser (f : Z).       (* a function of the program *)

#[global] Instance handler_func_eq_dec : EqDecision handler_func.
Proof. solve_decision. Defined.

Record hnode_subscrib_handler_t := SubHandler {
  h_handle : handler_func;
  h_param : Z
}.

(** [hrequest_ctx_t]; [rc_mtx] is the thread that holds the mutex. *)
Record hrequest_ctx_t := ReqCtx {
  rc_mtx : option Z;
  rc_rep : Z;
  rc_seq : Z;
  rc_status : Z
}.

(** A slot as [calloc] and the initialisation loop leave it. *)
Definition req_ctx_zero : hrequest_ctx_t := ReqCtx None 0 0 HREQUEST_CTX_STATUS_IDLE.

(** [hnode_register_request_ctx] and [hnode_unregister_request_ctx], left from
    an earlier design and called by nothing: a slot of its own on the heap. *)
Definition hnode_register_request_ctx (seq rep : Z) : hrequest_ctx_t :=
  ReqCtx None rep seq HREQUEST_CTX_STATUS_IDLE.
Definition hnode_unregister_request_ctx (ctx : hrequest_ctx_t) : option hrequest_ctx_t := None.

(** ** Timeouts *)

(** [hnode_time_offset]: a [timespec] is (seconds, nanoseconds). *)
Definition hnode_time_offset (ts : Z * Z) (mill : Z) : Z * Z :=
  let '(tv_sec, tv_nsec) := ts in
  let tv_nsec := tv_nsec + mill * 1000000 in
  if 1000000000 <=? tv_nsec then (tv_sec + 1, tv_nsec - 1000000000) else (tv_sec, tv_nsec).

(** POSIX: a time whose nanoseconds are not below one second is invalid. *)
Definition timespec_valid (ts : Z * Z) : bool := (0 <=? ts.2) && (ts.2 <? 1000000000).

(** ** [HC_GETMINPOW] *)

(** [while (INITV < V) INITV <<= 1] on [int]. *)
Fixpoint HC_GETMINPOW (fuel : nat) (V INITV : Z) : res Z :=
  if INITV <? V then
    if 2 ^ 31 <=? 2 * INITV then Fault Overflow
    else match fuel with
         | O => Fault OutOfFuel
         | S fuel => HC_GETMINPOW fuel V (Z.shiftl INITV 1)
         end
  else Ok INITV.

(** [strncpy(dst, src, 15)] into 16 zeroed bytes. *)
Fixpoint strncpy (n : nat) (src : list Z) : list Z :=
  match n with
  | O => []
  | S n => match src with
           | [] => 0 :: strncpy n []
           | c :: src => if c =? 0 then 0 :: strncpy n [] else c :: strncpy n src
           end
  end.

Definition server_ip_of (svr_ip : list Z) : list Z := strncpy 15 svr_ip ++ [0].

(** ** Messages the library builds *)

(** The designated initialisers leave the other members zero. *)
Definition mk_msg (flags topic from to seq : Z) (payload_size : Z) (payload : list Z) : hmsg_t :=
  Hmsg HMSG_MAGIC 0 0 (u8 flags) (u16 topic) (u16 from) (u16 to) (u32 seq) 0 0
    (u32 payload_size) payload.

(** C38 The deadline of a request keeps the total time, but it carries at most
    one second: the result is a valid [timespec] exactly when nanoseconds and
    timeout stay below two seconds, so for every clock reading when the timeout is
    at most 1000 ms, and for none when it is 2000 ms or more. *)
Theorem time_offset_exact (sec nsec mill : Z) :
  0 <= nsec < 1000000000 -> 0 <= mill ->
  let ts := hnode_time_offset (sec, nsec) mill in
  ts.1 * 1000000000 + ts.2 = sec * 1000000000 + nsec + mill * 1000000 /\
  (timespec_valid ts = true <-> nsec + mill * 1000000 < 2000000000) /\
  (mill <= 1000 -> timespec_valid ts = true) /\ (2000 <= mill -> timespec_valid ts = false).
Proof.
  intros Hn Hm. unfold hnode_time_offset, timespec_valid.
  destruct (Z.leb_spec 1000000000 (nsec + mill * 1000000)); cbn [fst snd];
    rewrite ?andb_true_iff, ?andb_false_iff, ?Z.leb_le, ?Z.ltb_lt, ?Z.leb_gt, ?Z.ltb_ge; lia.
Qed.

Lemma time_offset_exact_witness : timespec_valid (hnode_time_offset (5, 999999999) 1000) = true.
Proof. apply (time_offset_exact 5 999999999 1000); lia. Defined.

Section node.
Context {HB : HBuf} {HH : HIHash}.

Record hnode := Node {
  n_id : Z;
  n_server_port : Z;
  n_status : Z;
  n_reconn_cnt : Z;                (* uint8_t *)
  n_reconn_interval : Z;           (* uint8_t, seconds *)
  n_reconn_max_retry_cnt : Z;      (* uint8_t *)
  n_server_ip : list Z;            (* char[16] *)
  n_map_subpool : hhash hnode_subscrib_handler_t;
  n_io : Z;                        (* 0 for NULL *)
  n_ato_req_seq : Z;               (* uint32_t *)
  n_subpool_mtx : bool;            (* map_subpool_mtx is held *)
  n_req_ctx_count : Z;
  n_req_ctx : list hrequest_ctx_t;
  n_unpack : unpack_static;        (* statics of hnode_unpack_setting_get *)
  n_bufs : gmap Z hbuf_t;          (* buffers passed in by callers *)
  n_write_ret : Z;                 (* what hio_write returns *)
  n_calls : list hv_call
}.

Implicit Types (node : hnode) (topic_ex : Z).

Definition set_status s node : hnode :=
  Node (n_id node) (n_server_port node) s (n_reconn_cnt node) (n_reconn_interval node)
    (n_reconn_max_retry_cnt node) (n_server_ip node) (n_map_subpool node) (n_io node)
    (n_ato_req_seq node) (n_subpool_mtx node) (n_req_ctx_count node) (n_req_ctx node)
    (n_unpack node) (n_bufs node) (n_write_ret node) (n_calls node).
Definition set_reconn_cnt c node : hnode :=
  Node (n_id node) (n_server_port node) (n_status node) c (n_reconn_interval node)
    (n_reconn_max_retry_cnt node) (n_server_ip node) (n_map_subpool node) (n_io node)
    (n_ato_req_seq node) (n_subpool_mtx node) (n_req_ctx_count node) (n_req_ctx node)
    (n_unpack node) (n_bufs node) (n_write_ret node) (n_calls node).
Definition set_subpool m mtx node : hnode :=
  Node (n_id node) (n_server_port node) (n_status node) (n_reconn_cnt node) (n_reconn_interval node)
    (n_reconn_max_retry_cnt node) (n_server_ip node) m (n_io node)
    (n_ato_req_seq node) mtx (n_req_ctx_count node) (n_req_ctx node)
    (n_unpack node) (n_bufs node) (n_write_ret node) (n_calls node).
Definition set_io i node : hnode :=
  Node (n_id node) (n_server_port node) (n_status node) (n_reconn_cnt node) (n_reconn_interval node)
    (n_reconn_max_retry_cnt node) (n_server_ip node) (n_map_subpool node) i
    (n_ato_req_seq node) (n_subpool_mtx node) (n_req_ctx_count node) (n_req_ctx node)
    (n_unpack node) (n_bufs node) (n_write_ret node) (n_calls node).
Definition set_slots seq cs bufs node : hnode :=
  Node (n_id node) (n_server_port node) (n_status node) (n_reconn_cnt node) (n_reconn_interval node)
    (n_reconn_max_retry_cnt node) (n_server_ip node) (n_map_subpool node) (n_io node)
    seq (n_subpool_mtx node) (n_req_ctx_count node) cs
    (n_unpack node) bufs (n_write_ret node) (n_calls node).
Definition set_env u cs node : hnode :=
  Node (n_id node) (n_server_port node) (n_status node) (n_reconn_cnt node) (n_reconn_interval node)
    (n_reconn_max_retry_cnt node) (n_server_ip node) (n_map_subpool node) (n_io node)
    (n_ato_req_seq node) (n_subpool_mtx node) (n_req_ctx_count node) (n_req_ctx node)
    u (n_bufs node) (n_write_ret node) cs.

Definition set_write_ret r node : hnode :=
  Node (n_id node) (n_server_port node) (n_status node) (n_reconn_cnt node) (n_reconn_interval node)
    (n_reconn_max_retry_cnt node) (n_server_ip node) (n_map_subpool node) (n_io node)
    (n_ato_req_seq node) (n_subpool_mtx node) (n_req_ctx_count node) (n_req_ctx node)
    (n_unpack node) (n_bufs node) r (n_calls node).

Definition hv (c : hv_call) : M hnode unit :=
  modify (fun node => set_env (n_unpack node) (n_calls node ++ [c]) node).

(** A libhv function on the node's connection: it reads the object. *)
Definition with_io {A} (f : Z -> M hnode A) : M hnode A :=
  i ← gets n_io;
  if i =? 0 then fail NullDeref else f i.

Definition node_write (buf : list Z) : M hnode Z :=
  with_io (fun i => hv (hio_write i buf) ≫= fun _ => gets n_write_ret).

(** ** The subscription table *)

Definition subpool_lock : M hnode unit := fun node =>
  if n_subpool_mtx node then Fault Deadlock
  else Ok (tt, set_subpool (n_map_subpool node) true node).
Definition subpool_unlock : M hnode unit :=
  modify (fun node => set_subpool (n_map_subpool node) false node).

(** Run a macro on [node->map_subpool]. *)
Definition on_subpool {A}
    (f : hhash hnode_subscrib_handler_t -> res (A * hhash hnode_subscrib_handler_t)) : M hnode A :=
  fun node =>
    match f (n_map_subpool node) with
    | Ok (a, m) => Ok (a, set_subpool m (n_subpool_mtx node) node)
    | Fault e => Fault e
    end.

Definition subpool_set topic_ex (h : hnode_subscrib_handler_t) : M hnode unit :=
  on_subpool (fun m => match HIHASH_SET m topic_ex h with Ok m => Ok (tt, m) | Fault e => Fault e end).
Definition subpool_del topic_ex : M hnode unit :=
  on_subpool (fun m => match HIHASH_DEL m topic_ex with Ok m => Ok (tt, m) | Fault e => Fault e end).

Definition hnode_topic_had_sub topic_ex : M hnode Z :=
  subpool_lock ≫= fun _ =>
  r ← on_subpool (fun m => HIHASH_EXIST m topic_ex);
  subpool_unlock ≫= fun _ => mret r.

Definition hnode_subscribe_i (flag_data topic : Z) (handle_func : handler_func) (param : Z) : M hnode Z :=
  st ← gets n_status;
  if negb (st =? HNODE_STATUS_CONNECTED) then mret HNODE_RET_EDISCONNECT
  else
    let flags := u8 (HMSG_FLAGS HMSG_FCMD_DATA flag_data) in
    let topic_ex := HMSG_TOPICEX 0 flags topic in
    had ← hnode_topic_had_sub topic_ex;
    if HNODE_RET_OK =? had then mret HNODE_RET_OK
    else
      let flags := u8 (HMSG_FLAGS HMSG_FCMD_SUB flag_data) in
      i ← gets n_id;
      r ← node_write (hmsg_bytes (mk_msg flags topic i HMSG_APPID_BROKER 0 0 []));
      if negb (r =? 0) then
        subpool_lock ≫= fun _ =>
        subpool_set topic_ex (SubHandler handle_func param) ≫= fun _ =>
        subpool_unlock ≫= fun _ => mret HNODE_RET_OK
      else mret HNODE_RET_ESEND.

Definition hnode_unsubscribe_i (flags topic : Z) : M hnode Z :=
  st ← gets n_status;
  if negb (st =? HNODE_STATUS_CONNECTED) then mret HNODE_RET_EDISCONNECT
  else
    let topic_ex := HMSG_TOPICEX 0 flags topic in
    had ← hnode_topic_had_sub topic_ex;
    if negb (HNODE_RET_OK =? had) then mret HNODE_RET_OK
    else
      i ← gets n_id;
      r ← node_write (hmsg_bytes (mk_msg flags topic i HMSG_APPID_BROKER 0 0 []));
      if negb (r =? 0) then
        subpool_lock ≫= fun _ =>
        subpool_del topic_ex ≫= fun _ =>
        subpool_unlock ≫= fun _ => mret HNODE_RET_OK
      else mret HNODE_RET_ESEND.

Definition hnode_subscribe (topic : Z) (f : handler_func) (param : Z) : M hnode Z :=
  hnode_subscribe_i HMSG_FDATA_PUBSUB topic f param.
Definition hnode_respond (topic : Z) (f : handler_func) (param : Z) : M hnode Z :=
  hnode_subscribe_i HMSG_FDATA_REQUEST topic f param.
Definition hnode_unsubscribe (topic : Z) : M hnode Z :=
  hnode_unsubscribe_i (HMSG_FLAGS HMSG_FCMD_UNSUB HMSG_FDATA_PUBSUB) topic.

(** ** Sending *)

Definition hnode_register : M hnode unit :=
  i ← gets n_id;
  node_write (hmsg_bytes (mk_msg HMSG_FCMD_REGISTER 0 i HMSG_APPID_BROKER 0 0 [])) ≫= fun _ => mret tt.

(** [memcpy(dst, src, n)]: the source must have that many bytes. *)
Definition memcpy (src : list Z) (n : Z) : M hnode (list Z) :=
  if n <=? Z.of_nat (length src) then mret (take (Z.to_nat n) src) else fail OutOfBounds.

Definition hnode_publish (topic to_node_id : Z) (payload : list Z) (payload_size : Z) : M hnode Z :=
  st ← gets n_status;
  if negb (st =? HNODE_STATUS_CONNECTED) then mret HNODE_RET_EDISCONNECT
  else
    i ← gets n_id;
    body ← memcpy payload payload_size;
    node_write (hmsg_bytes
      (mk_msg (HMSG_FLAGS HMSG_FCMD_DATA HMSG_FDATA_PUBSUB) topic i to_node_id 0 payload_size body))
    ≫= fun _ => mret HNODE_RET_OK.

(** ** The library's own handlers *)

(** The loop of [hnode_on_status] that appends the topics; [fuel] bounds the
    number of subscriptions. *)
Fixpoint status_loop (fuel : nat) (m : hhash hnode_subscrib_handler_t) (it : Z)
    (buf : hbuf_t) (payload_size : Z) : res (hbuf_t * Z) :=
  if HIHASH_ITERATE_VALID m it then
    match fuel with
    | O => Fault OutOfFuel
    | S fuel =>
        match HIHASH_GETK m it with
        | None => Fault OutOfBounds
        | Some k =>
            let tpc := u16 k in
            status_loop fuel m (HIHASH_ITERATE_NEXT it)
              (hbuf_push buf (le_bytes 2 tpc)).2 (u32 (payload_size + 2))
        end
    end
  else Ok (buf, payload_size).

(** [p_msg_ret->payload_size = payload_size] in the bytes of the buffer. *)
Definition patch_payload_size (bytes : list Z) (payload_size : Z) : list Z :=
  let off := Z.to_nat offsetof_payload_size in
  take off bytes ++ le_bytes 4 payload_size ++ drop (off + 4) bytes.

Definition hnode_on_status (msg : hmsg_t) : M hnode unit :=
  i ← gets n_id;
  let msg_ret := mk_msg (HMSG_FLAGS HMSG_FCMD_DATA HMSG_FDATA_REPOND) (msg_topic msg) i
                   (msg_from msg) (msg_seq msg) 0 [] in
  let buf := (hbuf_init 64).2 in
  let buf := (hbuf_push buf (hmsg_bytes msg_ret)).2 in
  subpool_lock ≫= fun _ =>
  r ← (fun node =>
         match status_loop (Z.to_nat (HIHASH_SIZE (n_map_subpool node))) (n_map_subpool node)
                 (HIHASH_ITERATE_BEGIN (n_map_subpool node)) buf 0 with
         | Ok r => Ok (r, node)
         | Fault e => Fault e
         end);
  subpool_unlock ≫= fun _ =>
  let '(buf, payload_size) := r in
  if Z.of_nat (length (hbuf_data buf)) <? sizeof_hmsg then fail OutOfBounds
  else node_write (patch_payload_size (hbuf_data buf) payload_size) ≫= fun _ => mret tt.

(** [&node->req_ctx[msg->seq & (node->req_ctx_count - 1)]]. *)
Definition req_ctx_index (node : hnode) (seq : Z) : nat :=
  Z.to_nat (Z.land seq (n_req_ctx_count node - 1)).

(** [tid] is the thread that runs it; nobody else holds the mutex. *)
Definition hnode_on_respond (tid : Z) (msg : hmsg_t) : M hnode unit := fun node =>
  let i := req_ctx_index node (msg_seq msg) in
  match n_req_ctx node !! i with
  | None => Fault OutOfBounds
  | Some ctx =>
      match rc_mtx ctx with
      | Some _ => Fault Deadlock
      | None =>
          if (HREQUEST_CTX_STATUS_BUSY =? rc_status ctx) && (msg_seq msg =? rc_seq ctx) then
            match n_bufs node !! rc_rep ctx with
            | None => Fault UseAfterFree
            | Some rep =>
                let rep := (hbuf_push rep (take (Z.to_nat (msg_payload_size msg)) (msg_payload msg))).2 in
                let ctx' := ReqCtx None (rc_rep ctx) (rc_seq ctx) HREQUEST_CTX_STATUS_DONE in
                Ok (tt, set_slots (n_ato_req_seq node) (<[i := ctx']> (n_req_ctx node))
                          (<[rc_rep ctx := rep]> (n_bufs node)) node)
            end
          else Ok (tt, node)
      end
  end.

(** ** Callbacks of the event loop *)

Definition hnode_unpack_setting_get : M hnode unpack_setting_t := fun node =>
  let '(s, u) := unpack_setting_get (n_unpack node) in Ok (s, set_env u (n_calls node) node).

(** [new_io] is what [hloop_create_tcp_client] returns. *)
Definition hnode_reconnect (new_io : Z) : M hnode unit :=
  st ← gets n_status;
  if HNODE_STATUS_DISCONNECT =? st then
    modify (set_status HNODE_STATUS_CONNECTING) ≫= fun _ =>
    modify (fun node => set_reconn_cnt (u8 (n_reconn_cnt node + 1)) node) ≫= fun _ =>
    i ← gets n_io;
    (if i =? 0 then mret tt else hv (hio_close i)) ≫= fun _ =>
    port ← gets n_server_port;
    hv (hloop_create_tcp_client new_io port) ≫= fun _ =>
    modify (set_io new_io) ≫= fun _ =>
    with_io (fun i => hv (hio_set_context i 1))
  else mret tt.

Definition hnode_on_close : M hnode unit := modify (set_status HNODE_STATUS_DISCONNECT).

(** [err] is [hio_error(io)]. *)
Definition hnode_on_connect (io err : Z) : M hnode unit :=
  if negb (err =? 0) then modify (set_status HNODE_STATUS_DISCONNECT)
  else
    modify (set_reconn_cnt 0) ≫= fun _ =>
    hnode_register ≫= fun _ =>
    u ← hnode_unpack_setting_get;
    hv (hio_set_unpack io u) ≫= fun _ =>
    hv (hio_setcb_read io NodeOnRead) ≫= fun _ =>
    hv (hio_read_start io) ≫= fun _ =>
    modify (set_status HNODE_STATUS_CONNECTED) ≫= fun _ =>
    hnode_subscribe_i HMSG_FDATA_REQUEST HMSG_MSGID_STATUS HOnStatus 1 ≫= fun _ => mret tt.

Section callbacks.
(** The program's own handlers: function, [handle_param], message. *)
Context (user_handler : Z -> Z -> hmsg_t -> M hnode unit).

(** [handler.handle(msg, handler.handle_param)], on the I/O thread. *)
Definition call_handler (h : hnode_subscrib_handler_t) (msg : hmsg_t) : M hnode unit :=
  match h_handle h with
  | HNull => mret tt
  | HOnStatus => hnode_on_status msg
  | HOnRespond => hnode_on_respond 0 msg
  | HUser f => user_handler f (h_param h) msg
  end.

(** The handler of a topic, or [{0}]. *)
Definition find_handler topic_ex : M hnode hnode_subscrib_handler_t :=
  subpool_lock ≫= fun _ =>
  h ← on_subpool (fun m =>
        match HIHASH_FIND m topic_ex with
        | Ok (it, m) =>
            if HIHASH_ITERATE_VALID m it then
              match HIHASH_GETV m it with Some h => Ok (h, m) | None => Fault OutOfBounds end
            else Ok (SubHandler HNull 0, m)
        | Fault e => Fault e
        end);
  subpool_unlock ≫= fun _ => mret h.

Definition hnode_on_read (buf : list Z) (readbytes : Z) : M hnode unit :=
  msg ← (fun node => match hmsg_cast buf with Some m => Ok (m, node) | None => Fault OutOfBounds end);
  let topic_ex := HMSG_TOPICEX_INMSG msg in
  if negb (HMSG_HEAD_VALID msg readbytes) then mret tt
  else if Z.land HMSG_FCMD_DATA (msg_flags msg) =? 0 then mret tt
  else
    h ← find_handler topic_ex;
    call_handler h msg.

(** ** Life cycle *)

(** The callbacks of [hloop_run] on the I/O thread, and between them the calls
    of the program's threads; [NWriteRet r]: from now on [hio_write] returns [r]. *)
Inductive node_event :=
  | NConnect (io err : Z)
  | NRead (buf : list Z) (readbytes : Z)
  | NClose
  | NTimer (new_io : Z)
  | NSubscribe (topic : Z) (f : Z) (param : Z)
  | NRespond (topic : Z) (f : Z) (param : Z)
  | NUnsubscribe (topic : Z)
  | NPublish (topic to : Z) (payload : list Z)
  | NWriteRet (r : Z).

Definition node_handle (ev : node_event) : M hnode unit :=
  match ev with
  | NConnect io err => hnode_on_connect io err
  | NRead buf n => hnode_on_read buf n
  | NClose => hnode_on_close
  | NTimer new_io => hnode_reconnect new_io
  | NSubscribe topic f param => hnode_subscribe topic (HUser f) param ≫= fun _ => mret tt
  | NRespond topic f param => hnode_respond topic (HUser f) param ≫= fun _ => mret tt
  | NUnsubscribe topic => hnode_unsubscribe topic ≫= fun _ => mret tt
  | NPublish topic to payload =>
      hnode_publish topic to payload (Z.of_nat (length payload)) ≫= fun _ => mret tt
  | NWriteRet r => modify (set_write_ret r)
  end.

Fixpoint node_run (evs : list node_event) : M hnode unit :=
  match evs with
  | [] => mret tt
  | ev :: evs => node_handle ev ≫= fun _ => node_run evs
  end.

(** [hnode_thread_io_main]: before, around and after [hloop_run]. *)
Definition thread_start (new_io : Z) : M hnode unit :=
  modify (set_subpool HIHASH_INIT false) ≫= fun _ =>
  ms ← gets (fun node => n_reconn_interval node * 1000);
  hv (htimer_add ms) ≫= fun _ =>
  modify (set_status HNODE_STATUS_DISCONNECT) ≫= fun _ =>
  hnode_reconnect new_io ≫= fun _ =>
  hv hloop_run.

Definition thread_stop : M hnode unit :=
  hv htimer_del ≫= fun _ =>
  hv hloop_free ≫= fun _ =>
  modify (fun node => set_subpool HIHASH_INIT (n_subpool_mtx node) node).

Definition hnode_thread_io_main (new_io : Z) (evs : list node_event) : M hnode unit :=
  thread_start new_io ≫= fun _ => node_run evs ≫= fun _ => thread_stop.
End callbacks.

(** [hnode_init] up to [pthread_create]; [calloc] succeeds. *)
Definition hnode_init (id : Z) (svr_ip : list Z) (svr_port request_count : Z) : res hnode :=
  match HC_GETMINPOW 32 request_count HNODE_REQUEST_COUNT_INIT with
  | Fault e => Fault e
  | Ok count =>
      Ok (Node id svr_port HNODE_STATUS_INIT 0 HNODE_RECONN_INTERVAL 10 (server_ip_of svr_ip)
            HIHASH_INIT 0 0 false count (replicate (Z.to_nat count) req_ctx_zero)
            unpack_static_init ∅ 0 [])
  end.

(** [node] is NULL or the node; [in_io_thread] says who calls.  [None] is the
    node after [free]. *)
Definition hnode_destroy (node : option hnode) (in_io_thread : bool) : Z * option hnode :=
  match node with
  | None => (HNODE_RET_OK, None)
  | Some node => if in_io_thread then (1, Some node) else (HNODE_RET_OK, None)
  end.

(** The getters of the public interface. *)
Definition hnode_status : M hnode Z := gets n_status.
Definition hnode_id : M hnode Z := gets n_id.

(** ** What the interface refuses *)

(** Nothing is sent or recorded unless the node is connected: publishing,
    subscribing, responding and unsubscribing return [HNODE_RET_EDISCONNECT] and
    leave the node as it is, in any other state. *)
Theorem disconnected_refused node (topic to param : Z) (payload : list Z) (f : handler_func) :
  n_status node <> HNODE_STATUS_CONNECTED ->
  hnode_publish topic to payload (Z.of_nat (length payload)) node = Ok (HNODE_RET_EDISCONNECT, node) /\
  hnode_subscribe topic f param node = Ok (HNODE_RET_EDISCONNECT, node) /\
  hnode_respond topic f param node = Ok (HNODE_RET_EDISCONNECT, node) /\
  hnode_unsubscribe topic node = Ok (HNODE_RET_EDISCONNECT, node).
Proof.
  intros H. apply Z.eqb_neq in H.
  unfold hnode_publish, hnode_subscribe, hnode_respond, hnode_subscribe_i, hnode_unsubscribe,
    hnode_unsubscribe_i, mbind, M_bind, gets. by rewrite H.
Qed.

(** [hloop_create_tcp_client] may return NULL; [hnode_reconnect] does not
    test it and hands NULL to [hio_set_context].  Outside the state
    [DISCONNECT] the timer does nothing. *)
Theorem reconnect_null node (new_io : Z) :
  (n_status node = HNODE_STATUS_DISCONNECT -> hnode_reconnect 0 node = Fault NullDeref) /\
  (n_status node <> HNODE_STATUS_DISCONNECT -> hnode_reconnect new_io node = Ok (tt, node)).
Proof.
  unfold hnode_reconnect. split; intros H.
  - rewrite (bind_ok (gets _) _ node HNODE_STATUS_DISCONNECT node) by (unfold gets; by rewrite H).
    rewrite Z.eqb_refl. unfold mbind, M_bind, modify, gets. simpl.
    by destruct (n_io node =? 0).
  - rewrite (bind_ok (gets _) _ node (n_status node) node) by done.
    by rewrite (proj2 (Z.eqb_neq _ _)) by congruence.
Qed.

End node.
