(* ===== verification/NodeProps.v ===== *)
(** NodeProps: the correctness of the client library, apart from requests.

    [node_wf] is the invariant of an initialised node.  [node_upd node node' T cs]
    says that [node'] is [node] with the subscription table [T] and the calls [cs]
    into the event loop appended. *)

From S2P Require Import Prelude Hmsg Hbuf Hhash StbInstance Hv Hnode.

Section props.
Context {HB : HBuf} {HBS : HBufSpec HB} {HBT : HBufTotal HB}.
Context {HH : HIHash} {HHS : HIHashSpec HH}.
Implicit Types (node : hnode).

Abbreviation table := (gmap Z hnode_subscrib_handler_t).

Definition subs_of node : table := hh_map (n_map_subpool node).

(** The slots: a power of two of them, none locked; a busy one has its caller's
    buffer. *)
Definition slots_ok node : Prop :=
  (exists k, 0 <= k /\ n_req_ctx_count node = 2 ^ k) /\
  Z.of_nat (length (n_req_ctx node)) = n_req_ctx_count node /\
  Forall (fun c => rc_mtx c = None /\
    (rc_status c = HREQUEST_CTX_STATUS_BUSY -> is_Some (n_bufs node !! rc_rep c))) (n_req_ctx node).

(** The table keys are those of data messages of version 0. *)
Definition keys_ok (T : table) : Prop := forall k, is_Some (T !! k) -> 2 ^ 20 <= k < 2 ^ 21.

Record node_wf node : Prop := {
  wf_subpool : hh_ok (n_map_subpool node);
  wf_mtx : n_subpool_mtx node = false;
  wf_unpack : unpack_static_ok (n_unpack node);
  wf_id : in_u 16 (n_id node);
  wf_io : n_status node = HNODE_STATUS_CONNECTED -> n_io node <> 0;
  wf_keys : keys_ok (subs_of node);
  wf_slots : slots_ok node
}.

Definition node_upd node node' (T : table) (cs : list hv_call) : Prop :=
  hh_ok (n_map_subpool node') /\ subs_of node' = T /\
  node' = set_env (n_unpack node) (n_calls node ++ cs) (set_subpool (n_map_subpool node') false node).

Lemma node_upd_trans node1 node2 node3 T2 T3 cs ds :
  node_upd node1 node2 T2 cs -> node_upd node2 node3 T3 ds ->
  node_upd node1 node3 T3 (cs ++ ds).
Proof.
  intros (_ & _ & E2) (Hok & HT & E3). split_and!; [done|done|].
  rewrite E3. rewrite E2. unfold set_env, set_subpool; simpl. by rewrite app_assoc.
Qed.

Lemma node_upd_wf node node' T cs :
  node_wf node -> node_upd node node' T cs -> keys_ok T -> node_wf node'.
Proof. intros W (Hok & HT & E) HK. destruct W. subst T. rewrite E in *. split; done. Qed.

Lemma node_upd_refl node : node_wf node -> node_upd node node (subs_of node) [].
Proof.
  intros W. split_and!; [apply W|done|]. rewrite app_nil_r.
  pose proof (wf_mtx node W) as E. destruct node. simpl in *. by rewrite E.
Qed.

(** ** The pieces *)

Lemma node_write_ok node buf :
  n_io node <> 0 ->
  node_write buf node = Ok (n_write_ret node,
    set_env (n_unpack node) (n_calls node ++ [hio_write (n_io node) buf]) node).
Proof.
  intros Hio. unfold node_write, with_io. rewrite (bind_ok (gets _) _ node (n_io node) node) by done.
  by rewrite (proj2 (Z.eqb_neq _ 0)).
Qed.

Lemma had_sub_ok node k :
  node_wf node -> in_s 32 k ->
  exists r node', hnode_topic_had_sub k node = Ok (r, node') /\
    node_upd node node' (subs_of node) [] /\ (r = HNODE_RET_OK <-> is_Some (subs_of node !! k)).
Proof.
  intros W Hk. destruct (hh_exist (n_map_subpool node) k (wf_subpool node W) Hk)
    as (r & m' & E & Hok' & Hm & _ & Hr).
  exists r, (set_subpool m' false node). split; [|split; [split_and!|]]; [|done|done| |done].
  - unfold hnode_topic_had_sub, subpool_lock, mbind, M_bind. rewrite (wf_mtx node W).
    unfold on_subpool. simpl. by rewrite E.
  - unfold set_env, set_subpool. simpl. by rewrite app_nil_r.
Qed.

Lemma subpool_update_ok node k h :
  node_wf node -> in_s 32 k ->
  exists node', (subpool_lock ≫= fun _ => subpool_set k h ≫= fun _ =>
      subpool_unlock ≫= fun _ => mret HNODE_RET_OK) node = Ok (HNODE_RET_OK, node') /\
    node_upd node node' (<[k := h]> (subs_of node)) [].
Proof.
  intros W Hk. destruct (hh_set_map (n_map_subpool node) k h (wf_subpool node W) Hk)
    as (m' & E & Hok' & Hm).
  exists (set_subpool m' false node). split; [|split_and!; [done|done|]].
  - unfold subpool_lock, subpool_set, mbind, M_bind. rewrite (wf_mtx node W).
    unfold on_subpool. simpl. by rewrite E.
  - unfold set_env, set_subpool. simpl. by rewrite app_nil_r.
Qed.

(** The table key of a subscription of the given kind. *)
Definition sub_key (flag_data topic : Z) : Z :=
  HMSG_TOPICEX 0 (u8 (HMSG_FLAGS HMSG_FCMD_DATA flag_data)) topic.

(** The [SUB] frame the node sends for it. *)
Definition sub_frame node (flag_data topic : Z) : list Z :=
  hmsg_bytes (mk_msg (HMSG_FLAGS HMSG_FCMD_SUB flag_data) topic (n_id node) HMSG_APPID_BROKER 0 0 []).

Lemma sub_key_range flag_data topic : in_s 32 (sub_key flag_data topic).
Proof. exact (topicex_range 0 _ topic). Qed.

Lemma mk_msg_u8 flags topic from to seq n p :
  mk_msg (u8 flags) topic from to seq n p = mk_msg flags topic from to seq n p.
Proof. unfold mk_msg, u8, uwrap. by rewrite Zmod_mod. Qed.

(** [hnode_subscribe_i] on a connected node, by cases: already subscribed,
    the write reports 0 bytes, the write reports anything else. *)
Lemma subscribe_i_connected node flag_data topic f param :
  node_wf node -> n_status node = HNODE_STATUS_CONNECTED ->
  exists r node', hnode_subscribe_i flag_data topic f param node = Ok (r, node') /\
    match subs_of node !! sub_key flag_data topic with
    | Some _ => r = HNODE_RET_OK /\ node_upd node node' (subs_of node) []
    | None =>
        if n_write_ret node =? 0 then
          r = HNODE_RET_ESEND /\
          node_upd node node' (subs_of node) [hio_write (n_io node) (sub_frame node flag_data topic)]
        else
          r = HNODE_RET_OK /\
          node_upd node node' (<[sub_key flag_data topic := SubHandler f param]> (subs_of node))
            [hio_write (n_io node) (sub_frame node flag_data topic)]
    end.
Proof.
  intros W Hst. unfold hnode_subscribe_i. cbv zeta.
  rewrite (bind_ok (gets _) _ node HNODE_STATUS_CONNECTED node) by (unfold gets; by rewrite Hst).
  rewrite Z.eqb_refl. cbn [negb]. fold (sub_key flag_data topic).
  destruct (had_sub_ok node (sub_key flag_data topic) W (sub_key_range _ _)) as (r0 & node1 & E1 & U1 & Hr).
  rewrite (bind_ok _ _ _ _ _ E1).
  pose proof (node_upd_wf _ _ _ _ W U1 (wf_keys node W)) as W1. pose proof U1 as (_ & HT1 & Eq1).
  assert (n_io node1 = n_io node /\ n_id node1 = n_id node /\ n_write_ret node1 = n_write_ret node)
    as (Hio & Hid & Hwr) by (rewrite Eq1; done).
  destruct (subs_of node !! sub_key flag_data topic) as [h|] eqn:Eh.
  { assert (r0 = HNODE_RET_OK) as -> by (apply Hr; by exists h).
    exists HNODE_RET_OK, node1. by split. }
  rewrite (proj2 (Z.eqb_neq _ r0)) by (intros <-; destruct (proj1 Hr eq_refl); discriminate).
  rewrite (bind_ok (gets _) _ node1 (n_id node) node1) by (unfold gets; by rewrite Hid).
  rewrite mk_msg_u8.
  rewrite (bind_ok _ _ _ _ _ (node_write_ok node1 _ ltac:(rewrite Hio; by apply (wf_io node W)))).
  set (node2 := set_env _ _ node1). rewrite Hwr.
  assert (node_upd node node2 (subs_of node) [hio_write (n_io node) (sub_frame node flag_data topic)]) as U2.
  { apply (node_upd_trans node node1 node2 _ _ [] _ U1). split_and!; [apply W1|done|].
    unfold node2. rewrite Hio. pose proof (wf_mtx node1 W1) as Em. destruct node1; simpl in *. by rewrite Em. }
  pose proof (node_upd_wf _ _ _ _ W U2 (wf_keys node W)) as W2.
  destruct (n_write_ret node =? 0); cbn [negb]; [by exists HNODE_RET_ESEND, node2|].
  destruct (subpool_update_ok node2 (sub_key flag_data topic) (SubHandler f param) W2 (sub_key_range _ _))
    as (node3 & E3 & U3). exists HNODE_RET_OK, node3. split; [done|]. split; [done|].
  rewrite <- (app_nil_r [_]). destruct U2 as (H1 & <- & H3).
  by apply (node_upd_trans node node2 node3 (subs_of node2)).
Qed.

Lemma find_handler_ok node k :
  node_wf node -> in_s 32 k ->
  exists node', find_handler k node
      = Ok (default (SubHandler HNull 0) (subs_of node !! k), node') /\
    node_upd node node' (subs_of node) [].
Proof.
  intros W Hk. destruct (hh_find_cases (n_map_subpool node) k (wf_subpool node W) Hk)
    as (it & m' & E & Hok' & _ & Hm & Hc).
  exists (set_subpool m' false node). split; [|split_and!; [done|done|]].
  - unfold find_handler, subpool_lock, mbind, M_bind. rewrite (wf_mtx node W).
    unfold on_subpool. simpl. rewrite E. unfold subs_of.
    destruct Hc as [(h & n & _ & _ & -> & -> & ->)|(-> & _ & ->)]; done.
  - unfold set_env, set_subpool. simpl. by rewrite app_nil_r.
Qed.

(** ** [hnode_on_status] *)

(** The reply: the low 16 bits of every subscription key, in table order. *)
Definition status_topics node : list Z := u16 <$> (hh_view (n_map_subpool node)).*1.
Definition status_reply node (msg : hmsg_t) : hmsg_t :=
  mk_msg (HMSG_FLAGS HMSG_FCMD_DATA HMSG_FDATA_REPOND) (msg_topic msg) (n_id node)
    (msg_from msg) (msg_seq msg) (2 * Z.of_nat (length (status_topics node)))
    (cells 2 (status_topics node)).

Lemma push_ok b d : hbuf_live b -> d <> [] ->
  hbuf_live (hbuf_push b d).2 /\ hbuf_data (hbuf_push b d).2 = hbuf_data b ++ d.
Proof.
  intros Hl Hd. pose proof (hbuf_push_total b d Hl Hd) as Ht.
  destruct (hbuf_push b d) as [r b'] eqn:E.
  destruct (hbuf_push_spec b d r b' Hl E) as [Hl' [[_ H]|[H _]]]; done.
Qed.

Lemma status_loop_ok m n i buf sz :
  hh_ok m -> (i + n = length (hh_view m))%nat -> hbuf_live buf ->
  exists buf', status_loop n m (Z.of_nat i) buf (u32 sz)
      = Ok (buf', u32 (sz + 2 * Z.of_nat n)) /\ hbuf_live buf' /\
    hbuf_data buf' = hbuf_data buf ++ cells 2 (u16 <$> drop i (hh_view m).*1).
Proof.
  intros Hok. revert i buf sz; induction n as [|n IH]; intros i buf sz Hlen Hl; cbn [status_loop].
  - unfold HIHASH_ITERATE_VALID. rewrite hh_size by done.
    rewrite (proj2 (Z.ltb_ge _ _)) by lia. rewrite andb_false_r. exists buf.
    rewrite drop_ge by (rewrite length_fmap; lia). split_and!; [by replace (sz + 2 * Z.of_nat 0) with sz by lia|done|].
    simpl. by rewrite app_nil_r.
  - destruct (lookup_lt_is_Some_2 (hh_view m) i) as [[k h] Hi]; [lia|].
    unfold HIHASH_ITERATE_VALID. rewrite hh_size by done.
    rewrite (proj2 (Z.leb_le _ _)), (proj2 (Z.ltb_lt _ _)) by lia. cbn [andb].
    unfold HIHASH_GETK. rewrite hh_at_spec, Hi by done. cbn [fmap option_fmap option_map fst].
    destruct (push_ok buf (le_bytes 2 (u16 k)) Hl) as [Hl' Hd']; [done|].
    unfold HIHASH_ITERATE_NEXT. replace (Z.of_nat i + 1) with (Z.of_nat (S i)) by lia.
    replace (u32 (u32 sz + 2)) with (u32 (sz + 2)) by (unfold u32, uwrap; by rewrite Zplus_mod_idemp_l).
    destruct (IH (S i) (hbuf_push buf (le_bytes 2 (u16 k))).2 (sz + 2)) as (buf' & E & Hlb & Hdb); [lia|done|].
    exists buf'. rewrite E. split_and!; [|done|].
    { by replace (sz + 2 + 2 * Z.of_nat n) with (sz + 2 * Z.of_nat (S n)) by lia. }
    rewrite Hdb, Hd', <- app_assoc. f_equal.
    rewrite (drop_S (hh_view m).*1 k i) by (by rewrite list_lookup_fmap, Hi).
    cbn [fmap list_fmap]. fold (fmap (M := list) u16).
    by change (u16 k :: ?l) with ([u16 k] ++ l); rewrite cells_app, cells_singleton.
Qed.

Lemma patch_head flags topic from to seq n body :
  patch_payload_size (hmsg_bytes (mk_msg flags topic from to seq 0 []) ++ body) (u32 n)
  = hmsg_bytes (mk_msg flags topic from to seq n body).
Proof. reflexivity. Qed.

Lemma hnode_on_status_ok node msg :
  node_wf node -> n_io node <> 0 ->
  exists node', hnode_on_status msg node = Ok (tt, node') /\
    node_upd node node' (subs_of node) [hio_write (n_io node) (hmsg_bytes (status_reply node msg))].
Proof.
  intros W Hio. unfold hnode_on_status.
  rewrite (bind_ok (gets _) _ node (n_id node) node) by done. cbv zeta.
  set (m0 := mk_msg _ _ _ _ _ 0 []).
  pose proof (hbuf_init_total 64 ltac:(lia)) as Ei. destruct (hbuf_init 64) as [r0 b0] eqn:E0.
  cbn [fst snd] in *. subst r0. destruct (hbuf_init_spec 64 b0 E0) as [Hl0 Hd0].
  destruct (push_ok b0 (hmsg_bytes m0) Hl0) as [Hl1 Hd1]; [done|].
  set (b1 := (hbuf_push b0 (hmsg_bytes m0)).2) in *.
  destruct (status_loop_ok (n_map_subpool node) (length (hh_view (n_map_subpool node))) 0 b1 0)
    as (b2 & E2 & Hl2 & Hd2); [apply W|done|done|].
  change (u32 0) with 0 in E2.
  rewrite Hd1, Hd0 in Hd2. cbn [app] in Hd2. rewrite drop_0 in Hd2.
  set (node1 := set_subpool (n_map_subpool node) true node).
  rewrite (bind_ok subpool_lock _ node tt node1) by (unfold subpool_lock; by rewrite (wf_mtx node W)).
  rewrite (bind_ok _ _ node1 (b2, u32 (0 + 2 * Z.of_nat (length (hh_view (n_map_subpool node))))) node1).
  2: { change (n_map_subpool node1) with (n_map_subpool node). rewrite hh_size, Nat2Z.id by apply W.
       change (HIHASH_ITERATE_BEGIN (n_map_subpool node)) with (Z.of_nat 0). by rewrite E2. }
  set (node2 := set_subpool (n_map_subpool node) false node1).
  rewrite (bind_ok subpool_unlock _ node1 tt node2) by done. cbn [fst snd].
  rewrite Hd2. rewrite (proj2 (Z.ltb_ge _ _)).
  2: { rewrite length_app. pose proof (length_hmsg_bytes m0). unfold sizeof_hmsg in *. lia. }
  unfold m0. rewrite patch_head.
  rewrite (bind_ok _ _ _ _ _ (node_write_ok node2 _ Hio)).
  eexists. split; [done|]. split_and!; [apply W|done|].
  unfold status_reply, status_topics. rewrite !length_fmap. done.
Qed.

(** ** [hnode_on_respond] *)

Lemma req_ctx_index_lt node seq : slots_ok node -> (req_ctx_index node seq < length (n_req_ctx node))%nat.
Proof.
  intros ((k & Hk & Hc) & Hlen & _). unfold req_ctx_index. rewrite Hc, land_mask by done.
  pose proof (Z.mod_pos_bound seq (2 ^ k)). lia.
Qed.

Lemma hnode_on_respond_ok node tid msg :
  node_wf node -> exists node', hnode_on_respond tid msg node = Ok (tt, node') /\ node_wf node' /\
    subs_of node' = subs_of node /\ n_calls node' = n_calls node /\ n_io node' = n_io node.
Proof.
  intros W. unfold hnode_on_respond. pose proof (wf_slots node W) as Hs.
  destruct (lookup_lt_is_Some_2 _ _ (req_ctx_index_lt node (msg_seq msg) Hs)) as [c Hc]. rewrite Hc.
  destruct Hs as (Hk & Hlen & Hall).
  assert (rc_mtx c = None /\ (rc_status c = HREQUEST_CTX_STATUS_BUSY -> is_Some (n_bufs node !! rc_rep c)))
    as [Hm Hb] by (rewrite Forall_lookup in Hall; by apply (Hall _ c Hc)).
  rewrite Hm. destruct (_ && _) eqn:E; [|by exists node].
  apply andb_true_iff in E as [E1 E2]. apply Z.eqb_eq in E1. destruct (Hb (eq_sym E1)) as [rep Hrep].
  rewrite Hrep. eexists. split; [done|]. split; [|done]. destruct W. split; try done.
  split_and!; [done|simpl; by rewrite length_insert|]. simpl. apply Forall_insert; [|done].
  apply Forall_forall. intros c' Hc'. rewrite Forall_forall in Hall.
  destruct (Hall c' Hc') as [H1 H2]. split; [done|]. intros Hst. rewrite lookup_insert_is_Some.
  destruct (decide (rc_rep c = rc_rep c')); [by left|by right; split; [|apply H2]].
Qed.

(** ** The invariant along events *)

Lemma sub_key_data flag_data topic :
  0 <= flag_data < 16 -> in_u 16 topic ->
  sub_key flag_data topic = HMSG_FLAGS HMSG_FCMD_DATA flag_data * 2 ^ 16 + topic /\
  2 ^ 20 <= sub_key flag_data topic < 2 ^ 21.
Proof.
  intros Hf Ht. unfold sub_key.
  assert (HMSG_FLAGS HMSG_FCMD_DATA flag_data = 16 + flag_data) as ->.
  { unfold HMSG_FLAGS. change HMSG_FCMD_DATA with (Z.shiftl 1 4). rewrite lor_shiftl_add by lia. lia. }
  unfold u8. rewrite uwrap_small by (unfold in_u; lia). rewrite topicex_v0 by (lia || done).
  unfold in_u in Ht. lia.
Qed.

Lemma keys_ok_insert (T : table) k h : keys_ok T -> 2 ^ 20 <= k < 2 ^ 21 -> keys_ok (<[k := h]> T).
Proof.
  intros HT Hk k' Hk'. apply lookup_insert_is_Some in Hk' as [<-|[_ Hk']]; [done|by apply HT].
Qed.

Lemma set_status_wf s node : node_wf node -> (s = HNODE_STATUS_CONNECTED -> n_io node <> 0) ->
  node_wf (set_status s node).
Proof. intros [] H. split; done. Qed.

Lemma subscribe_i_ok flag_data topic f param node :
  node_wf node -> 0 <= flag_data < 16 -> in_u 16 topic ->
  exists r node', hnode_subscribe_i flag_data topic f param node = Ok (r, node') /\ node_wf node' /\
    n_io node' = n_io node /\ n_status node' = n_status node.
Proof.
  intros W Hf Ht. destruct (decide (n_status node = HNODE_STATUS_CONNECTED)) as [Hst|Hst].
  - destruct (subscribe_i_connected node flag_data topic f param W Hst) as (r & node' & E & H).
    exists r, node'. split; [done|]. pose proof (sub_key_data flag_data topic Hf Ht) as [_ Hk].
    assert (exists T cs, node_upd node node' T cs /\ keys_ok T) as (T & cs & U & HK).
    { destruct (subs_of node !! _); [|destruct (_ =? 0)]; destruct H as [_ U];
        eexists _, _; (split; [exact U|]); try apply W. by apply keys_ok_insert; [apply W|]. }
    split; [by eapply node_upd_wf|]. destruct U as (_ & _ & ->). done.
  - exists HNODE_RET_EDISCONNECT, node. split; [|done]. unfold hnode_subscribe_i.
    rewrite (bind_ok (gets _) _ node (n_status node) node) by done.
    by rewrite (proj2 (Z.eqb_neq _ _)).
Qed.

Lemma unsubscribe_noop topic node :
  node_wf node -> in_u 16 topic -> n_status node = HNODE_STATUS_CONNECTED ->
  exists node', hnode_unsubscribe topic node = Ok (HNODE_RET_OK, node') /\
    node_upd node node' (subs_of node) [].
Proof.
  intros W Ht Hst. unfold hnode_unsubscribe, hnode_unsubscribe_i.
  rewrite (bind_ok (gets _) _ node HNODE_STATUS_CONNECTED node) by (unfold gets; by rewrite Hst).
  rewrite Z.eqb_refl. cbn [negb]. cbv zeta. change (HMSG_FLAGS HMSG_FCMD_UNSUB HMSG_FDATA_PUBSUB) with 0x30.
  set (k := HMSG_TOPICEX 0 0x30 topic).
  assert (k = 0x30 * 2 ^ 16 + topic) as Hk by (apply topicex_v0; [lia|done]).
  destruct (had_sub_ok node k W (topicex_range 0 0x30 topic)) as (r & node' & E & U & Hr).
  rewrite (bind_ok _ _ _ _ _ E). exists node'. split; [|done].
  assert (r <> HNODE_RET_OK) as Hne.
  { intros Hr0. apply Hr in Hr0. apply (wf_keys node W) in Hr0. unfold in_u in Ht. lia. }
  by rewrite (proj2 (Z.eqb_neq _ _)).
Qed.

Lemma publish_ok topic to payload node :
  node_wf node -> n_status node = HNODE_STATUS_CONNECTED ->
  hnode_publish topic to payload (Z.of_nat (length payload)) node = Ok (HNODE_RET_OK,
    set_env (n_unpack node) (n_calls node ++ [hio_write (n_io node)
      (hmsg_bytes (mk_msg (HMSG_FLAGS HMSG_FCMD_DATA HMSG_FDATA_PUBSUB) topic (n_id node) to 0
        (Z.of_nat (length payload)) payload))]) node).
Proof.
  intros W Hst. unfold hnode_publish.
  rewrite (bind_ok (gets _) _ node HNODE_STATUS_CONNECTED node) by (unfold gets; by rewrite Hst).
  rewrite Z.eqb_refl. cbn [negb].
  rewrite (bind_ok (gets _) _ node (n_id node) node) by done.
  unfold memcpy. rewrite Z.leb_refl, Nat2Z.id, firstn_all.
  rewrite (bind_ok (mret payload) _ node payload node) by done.
  by rewrite (bind_ok _ _ _ _ _ (node_write_ok node _ (wf_io node W Hst))).
Qed.

Lemma set_env_wf u cs node : node_wf node -> unpack_static_ok u -> node_wf (set_env u cs node).
Proof. intros [] H. split; done. Qed.

(** ** Callbacks and the program's handlers *)

Section callbacks.
Context (user_handler : Z -> Z -> hmsg_t -> M hnode unit).

(** The program's handlers return and keep the node well formed; they may call
    the library. *)
Context (user_keeps : forall f param msg node, node_wf node -> hmsg_wf msg ->
  exists node', user_handler f param msg node = Ok (tt, node') /\ node_wf node').

Lemma call_handler_ok h msg node :
  node_wf node -> hmsg_wf msg -> n_io node <> 0 ->
  exists node', call_handler user_handler h msg node = Ok (tt, node') /\ node_wf node'.
Proof.
  intros W Hm Hio. unfold call_handler. destruct (h_handle h) as [| | |f].
  - by exists node.
  - destruct (hnode_on_status_ok node msg W Hio) as (node' & E & U). exists node'.
    split; [done|]. apply (node_upd_wf _ _ _ _ W U), W.
  - destruct (hnode_on_respond_ok node 0 msg W) as (node' & E & W' & _). by exists node'.
  - by apply user_keeps.
Qed.

Lemma on_read_dispatch node m :
  node_wf node -> hmsg_frame m -> Z.land HMSG_FCMD_DATA (msg_flags m) <> 0 ->
  exists node1, node_upd node node1 (subs_of node) [] /\
    hnode_on_read user_handler (hmsg_bytes m) (Z.of_nat (length (hmsg_bytes m))) node
    = call_handler user_handler (default (SubHandler HNull 0) (subs_of node !! HMSG_TOPICEX_INMSG m)) m node1.
Proof.
  intros W Hf Hfl. unfold hnode_on_read.
  rewrite (bind_ok _ _ node m node) by (by rewrite hmsg_cast_bytes by apply Hf).
  rewrite (hmsg_frame_valid m Hf). cbn [negb]. rewrite (proj2 (Z.eqb_neq _ 0)) by done.
  destruct (find_handler_ok node _ W (topicex_inmsg_range m)) as (node1 & E & U).
  exists node1. split; [done|]. by rewrite (bind_ok _ _ _ _ _ E).
Qed.

Lemma on_read_ok node buf n :
  node_wf node -> Forall is_byte buf -> sizeof_hmsg <= Z.of_nat (length buf) -> n_io node <> 0 ->
  exists node', hnode_on_read user_handler buf n node = Ok (tt, node') /\ node_wf node'.
Proof.
  intros W Hb Hl Hio. unfold hnode_on_read.
  destruct (hmsg_cast buf) as [m|] eqn:Em; [|unfold hmsg_cast in Em; by rewrite decide_True in Em].
  rewrite (bind_ok _ _ node m node) by done. pose proof (hmsg_cast_wf buf m Hb Em) as Hm.
  destruct (HMSG_HEAD_VALID m n); [|by exists node]. cbn [negb].
  destruct (_ =? 0); [by exists node|].
  destruct (find_handler_ok node _ W (topicex_inmsg_range m)) as (node1 & E & U).
  rewrite (bind_ok _ _ _ _ _ E). apply call_handler_ok; [|done|].
  - apply (node_upd_wf _ _ _ _ W U), W.
  - by destruct U as (_ & _ & ->).
Qed.

Lemma reconnect_ok node new_io :
  node_wf node -> new_io <> 0 ->
  exists node', hnode_reconnect new_io node = Ok (tt, node') /\ node_wf node' /\
    subs_of node' = subs_of node /\
    (n_status node = HNODE_STATUS_DISCONNECT ->
       n_status node' = HNODE_STATUS_CONNECTING /\ n_io node' = new_io /\
       n_id node' = n_id node /\ writes (n_calls node') = writes (n_calls node)) /\
    (n_status node <> HNODE_STATUS_DISCONNECT -> node' = node).
Proof.
  intros W Hio. unfold hnode_reconnect.
  rewrite (bind_ok (gets _) _ node (n_status node) node) by done.
  destruct (Z.eqb_spec HNODE_STATUS_DISCONNECT (n_status node)) as [E|E];
    [|exists node; split_and!; try done; congruence].
  rewrite (bind_ok (modify _) _ node tt (set_status HNODE_STATUS_CONNECTING node)) by done.
  set (node1 := set_status _ node).
  rewrite (bind_ok (modify _) _ node1 tt (set_reconn_cnt (u8 (n_reconn_cnt node1 + 1)) node1)) by done.
  set (node2 := set_reconn_cnt _ node1).
  rewrite (bind_ok (gets _) _ node2 (n_io node) node2) by done.
  set (cs := if n_io node =? 0 then n_calls node else n_calls node ++ [hio_close (n_io node)]).
  set (node3 := set_env (n_unpack node) cs node2).
  rewrite (bind_ok _ _ node2 tt node3)
    by (unfold node3, cs, node2, node1; destruct (n_io node =? 0); by destruct node).
  rewrite (bind_ok (gets _) _ node3 (n_server_port node) node3) by done.
  set (node4 := set_env (n_unpack node) (cs ++ [hloop_create_tcp_client new_io (n_server_port node)]) node3).
  rewrite (bind_ok (hv _) _ node3 tt node4) by done.
  rewrite (bind_ok (modify _) _ node4 tt (set_io new_io node4)) by done.
  unfold with_io. rewrite (bind_ok (gets _) _ (set_io new_io node4) new_io (set_io new_io node4)) by done.
  rewrite (proj2 (Z.eqb_neq new_io 0)) by done.
  eexists. split; [done|]. split; [destruct W; split; done|]. split; [done|]. split; [|congruence].
  intros _. split_and!; [done|done|done|]. cbn. rewrite !writes_app, !app_nil_r.
  unfold cs. destruct (n_io node =? 0); [done|]. by rewrite writes_app, app_nil_r.
Qed.

Lemma reconnect_exact node new_io :
  node_wf node -> new_io <> 0 -> n_status node = HNODE_STATUS_DISCONNECT ->
  exists node', hnode_reconnect new_io node = Ok (tt, node') /\ node_wf node' /\
    subs_of node' = subs_of node /\ n_io node' = new_io /\ n_id node' = n_id node /\
    writes (n_calls node') = writes (n_calls node).
Proof.
  intros W Hio Hst. destruct (reconnect_ok node new_io W Hio) as (node' & E & W' & HT & H & _).
  destruct (H Hst) as (_ & Hi & Hid & Hw). by exists node'.
Qed.

Lemma on_connect_ok node io err :
  node_wf node -> n_io node = io -> io <> 0 ->
  exists node', hnode_on_connect io err node = Ok (tt, node') /\ node_wf node'.
Proof.
  intros W Hio Hnz. unfold hnode_on_connect. destruct (err =? 0); cbn [negb];
    [|eexists; split; [done|]; by apply set_status_wf].
  rewrite (bind_ok (modify _) _ node tt (set_reconn_cnt 0 node)) by done.
  set (node1 := set_reconn_cnt 0 node).
  assert (exists node2, hnode_register node1 = Ok (tt, node2) /\ node_wf node2 /\ n_io node2 = io)
    as (node2 & E2 & W2 & Hio2).
  { unfold hnode_register. rewrite (bind_ok (gets _) _ node1 (n_id node) node1) by done.
    rewrite (bind_ok _ _ _ _ _ (node_write_ok node1 _ ltac:(by rewrite <- Hio in Hnz))).
    eexists. split; [done|]. split; [|done]. destruct W. split; done. }
  rewrite (bind_ok _ _ _ _ _ E2). unfold hnode_unpack_setting_get.
  destruct (unpack_setting_get (n_unpack node2)) as [us u'] eqn:Eu.
  set (node3 := set_env u' (n_calls node2) node2).
  rewrite (bind_ok _ _ node2 us node3) by (by rewrite Eu).
  assert (node_wf node3) as W3.
  { apply set_env_wf; [done|]. pose proof (unpack_setting_get_ok _ (wf_unpack node2 W2)) as H. by rewrite Eu in H. }
  set (node4 := set_env u' (n_calls node2 ++ [hio_set_unpack io us]) node2).
  rewrite (bind_ok (hv _) _ node3 tt node4) by done.
  set (node5 := set_env u' ((n_calls node2 ++ [hio_set_unpack io us]) ++ [hio_setcb_read io NodeOnRead]) node2).
  rewrite (bind_ok (hv _) _ node4 tt node5) by done.
  set (node6 := set_env u' (((n_calls node2 ++ [hio_set_unpack io us])
                   ++ [hio_setcb_read io NodeOnRead]) ++ [hio_read_start io]) node2).
  rewrite (bind_ok (hv _) _ node5 tt node6) by done.
  rewrite (bind_ok (modify _) _ node6 tt (set_status HNODE_STATUS_CONNECTED node6)) by done.
  assert (node_wf (set_status HNODE_STATUS_CONNECTED node6)) as W7.
  { apply set_status_wf; [|intros _; simpl; by rewrite Hio2].
    apply set_env_wf; [done|apply W3]. }
  destruct (subscribe_i_ok HMSG_FDATA_REQUEST HMSG_MSGID_STATUS HOnStatus 1 _ W7)
    as (r & node8 & E8 & W8 & _); [unfold HMSG_FDATA_REQUEST; lia|decided|].
  rewrite (bind_ok _ _ _ _ _ E8). by exists node8.
Qed.

(** What the event loop and the program's threads can do next: callbacks of the
    connection come while there is one, a frame has a header, topics are 16-bit
    values, and [hloop_create_tcp_client] does not fail. *)
Definition node_env_ok node (ev : node_event) : bool :=
  match ev with
  | NConnect io err => (n_io node =? io) && negb (io =? 0)
  | NRead buf n =>
      negb (n_io node =? 0) && forallb (fun b => (0 <=? b) && (b <? 256)) buf
      && (sizeof_hmsg <=? Z.of_nat (length buf))
  | NTimer new_io => negb (new_io =? 0)
  | NSubscribe topic _ _ | NRespond topic _ _ | NUnsubscribe topic => (0 <=? topic) && (topic <? 2 ^ 16)
  | NClose | NPublish _ _ _ | NWriteRet _ => true
  end.

Fixpoint node_trace node (evs : list node_event) : bool :=
  match evs with
  | [] => true
  | ev :: evs =>
      node_env_ok node ev &&
      match node_handle user_handler ev node with Ok (_, node') => node_trace node' evs | Fault _ => true end
  end.

Lemma node_handle_ok node ev :
  node_wf node -> node_env_ok node ev = true ->
  exists node', node_handle user_handler ev node = Ok (tt, node') /\ node_wf node'.
Proof.
  intros W He. destruct ev as [io err|buf n| |new_io|t f p|t f p|t|t to payload|wr];
    cbn [node_env_ok node_handle] in *; rewrite ?andb_true_iff, ?negb_true_iff in He.
  - destruct He as [He1 He2]. by apply on_connect_ok; [|lia|lia].
  - destruct He as [[He1 He2] He3]. apply on_read_ok; [done| |lia|lia].
    rewrite forallb_forall in He2. apply Forall_forall. intros b Hb%list_elem_of_In.
    apply He2 in Hb. unfold is_byte, in_u. simpl. lia.
  - eexists. split; [done|]. by apply set_status_wf.
  - destruct (reconnect_ok node new_io W) as (node' & E & W' & _); [lia|]. by exists node'.
  - destruct (subscribe_i_ok HMSG_FDATA_PUBSUB t (HUser f) p node W) as (r & node' & E & W' & _);
      [unfold HMSG_FDATA_PUBSUB; lia|unfold in_u; lia|].
    unfold hnode_subscribe. rewrite (bind_ok _ _ _ _ _ E). by exists node'.
  - destruct (subscribe_i_ok HMSG_FDATA_REQUEST t (HUser f) p node W) as (r & node' & E & W' & _);
      [unfold HMSG_FDATA_REQUEST; lia|unfold in_u; lia|].
    unfold hnode_respond. rewrite (bind_ok _ _ _ _ _ E). by exists node'.
  - destruct (decide (n_status node = HNODE_STATUS_CONNECTED)) as [Hst|Hst].
    + destruct (unsubscribe_noop t node W ltac:(unfold in_u; lia) Hst) as (node' & E & U).
      rewrite (bind_ok _ _ _ _ _ E). exists node'. split; [done|].
      apply (node_upd_wf _ _ _ _ W U), W.
    + exists node. split; [|done]. unfold hnode_unsubscribe, hnode_unsubscribe_i.
      unfold mbind, M_bind, gets. by rewrite (proj2 (Z.eqb_neq _ _)).
  - destruct (decide (n_status node = HNODE_STATUS_CONNECTED)) as [Hst|Hst].
    + rewrite (bind_ok _ _ _ _ _ (publish_ok t to payload node W Hst)).
      eexists. split; [done|]. apply set_env_wf; [done|apply W].
    + exists node. split; [|done]. unfold hnode_publish.
      unfold mbind, M_bind, gets. by rewrite (proj2 (Z.eqb_neq _ _)).
  - eexists. split; [done|]. destruct W. split; done.
Qed.

Lemma node_run_ok node evs :
  node_wf node -> node_trace node evs = true ->
  exists node', node_run user_handler evs node = Ok (tt, node') /\ node_wf node'.
Proof.
  revert node; induction evs as [|ev evs IH]; intros node W Ht; [by exists node|].
  cbn [node_trace] in Ht. apply andb_true_iff in Ht as [He Ht].
  destruct (node_handle_ok node ev W He) as (node1 & E1 & W1). rewrite E1 in Ht.
  destruct (IH node1 W1 Ht) as (node2 & E2 & W2). exists node2.
  cbn [node_run]. by rewrite (bind_ok _ _ _ _ _ E1).
Qed.

End callbacks.

(** ** [hnode_init] *)

Lemma GETMINPOW_ok fuel V a i :
  0 <= a <= 30 -> i = 2 ^ a -> V <= 2 ^ 30 -> 30 - a <= Z.of_nat fuel ->
  exists b, a <= b <= 30 /\ HC_GETMINPOW fuel V i = Ok (2 ^ b) /\ V <= 2 ^ b /\
    (a = b \/ 2 ^ (b - 1) < V).
Proof.
  revert a i; induction fuel as [|fuel IH]; intros a i Ha -> HV Hf.
  - exists a. assert (a = 30) as -> by lia. cbn [HC_GETMINPOW].
    rewrite (proj2 (Z.ltb_ge _ _)) by lia. split_and!; try lia; done.
  - cbn [HC_GETMINPOW]. destruct (Z.ltb_spec (2 ^ a) V) as [Hlt|Hge];
      [|exists a; split_and!; try lia; done].
    assert (a < 30) as Ha30.
    { destruct (decide (a = 30)) as [->|]; lia. }
    assert (2 * 2 ^ a = 2 ^ (a + 1)) as E2 by (rewrite Z.pow_add_r by lia; lia).
    pose proof (Z.pow_le_mono_r 2 (a + 1) 30 ltac:(lia) ltac:(lia)).
    rewrite (proj2 (Z.leb_gt _ _)) by lia. rewrite Z.shiftl_mul_pow2 by lia.
    destruct (IH (a + 1) (2 ^ a * 2 ^ 1)) as (b & Hb & E & HVb & Hmin);
      [lia|by rewrite <- Z.pow_add_r by lia|lia|lia|].
    exists b. split_and!; try lia; try done. right.
    destruct Hmin as [<-|Hmin]; [|done]. by replace (a + 1 - 1) with a by lia.
Qed.

Lemma hnode_init_wf id ip port count :
  in_u 16 id -> count <= 2 ^ 30 ->
  exists node b, hnode_init id ip port count = Ok node /\ node_wf node /\
    4 <= b <= 30 /\ n_req_ctx_count node = 2 ^ b /\ count <= 2 ^ b /\ (b = 4 \/ 2 ^ (b - 1) < count) /\
    n_req_ctx node = replicate (Z.to_nat (2 ^ b)) req_ctx_zero /\
    n_server_ip node = server_ip_of ip /\ n_status node = HNODE_STATUS_INIT /\ n_io node = 0.
Proof.
  intros Hid Hc. destruct (GETMINPOW_ok 32 count 4 16) as (b & Hb & E & Hle & Hmin); [lia|done|done|lia|].
  unfold hnode_init, HNODE_REQUEST_COUNT_INIT. rewrite E. eexists _, b. split; [done|].
  assert (0 < 2 ^ b) by lia. split; [|split_and!; try done; try lia; by destruct Hmin; [left|right]].
  split; cbn.
  - apply hh_init_ok.
  - done.
  - by left.
  - done.
  - done.
  - intros k. unfold subs_of. cbn. rewrite hh_map_init, lookup_empty. by intros [].
  - split; [by exists b; split; [lia|]|]. split; [cbn; rewrite length_replicate; lia|].
    cbn. apply Forall_replicate. split; [done|]. discriminate.
Qed.

Lemma strncpy_length n src : length (strncpy n src) = n.
Proof.
  revert src; induction n as [|n IH]; intros [|c src]; simpl; [done|done|by rewrite IH|].
  destruct (c =? 0); simpl; by rewrite IH.
Qed.

Lemma strncpy_nil n : strncpy n [] = replicate n 0.
Proof. induction n as [|n IH]; simpl; [done|by rewrite IH]. Qed.

Lemma strncpy_short n src :
  (length src <= n)%nat -> Forall (fun c => c <> 0) src -> strncpy n src = src ++ replicate (n - length src) 0.
Proof.
  intros Hn Hs. revert n Hn; induction Hs as [|c src Hc _ IH]; intros n Hn; simpl.
  - by rewrite strncpy_nil, Nat.sub_0_r.
  - destruct n as [|n]; simpl in *; [lia|]. rewrite (proj2 (Z.eqb_neq c 0)) by done.
    by rewrite IH by lia.
Qed.

Lemma GETMINPOW_overflow fuel V a i :
  0 <= a <= 30 -> i = 2 ^ a -> 2 ^ 30 < V -> 30 - a < Z.of_nat fuel ->
  HC_GETMINPOW fuel V i = Fault Overflow.
Proof.
  revert a i; induction fuel as [|fuel IH]; intros a i Ha -> HV Hf; [lia|].
  cbn [HC_GETMINPOW]. pose proof (Z.pow_le_mono_r 2 a 30 ltac:(lia) ltac:(lia)).
  rewrite (proj2 (Z.ltb_lt _ _)) by lia.
  destruct (decide (a = 30)) as [->|Hne]; [done|].
  assert (2 * 2 ^ a = 2 ^ (a + 1)) as E2 by (rewrite Z.pow_add_r by lia; lia).
  pose proof (Z.pow_le_mono_r 2 (a + 1) 30 ltac:(lia) ltac:(lia)).
  rewrite (proj2 (Z.leb_gt _ _)) by lia. rewrite Z.shiftl_mul_pow2 by lia.
  apply (IH (a + 1)); [lia|by rewrite <- Z.pow_add_r by lia|done|lia].
Qed.

(** ** The first connection *)

(** The state when the loop starts: connecting, with an empty table. *)
Lemma thread_start_ok node new_io :
  node_wf node -> new_io <> 0 -> n_io node = 0 ->
  exists node1, thread_start new_io node = Ok (tt, node1) /\ node_wf node1 /\
    n_status node1 = HNODE_STATUS_CONNECTING /\ n_io node1 = new_io /\ subs_of node1 = ∅.
Proof.
  intros W Hio Hio0. unfold thread_start.
  set (nodeA := set_subpool HIHASH_INIT false node).
  assert (node_wf nodeA) as WA.
  { destruct W. split; try done; [apply hh_init_ok|]. intros k. unfold subs_of. cbn.
    rewrite hh_map_init, lookup_empty. by intros []. }
  rewrite (bind_ok (modify _) _ node tt nodeA) by done.
  rewrite (bind_ok (gets _) _ nodeA (n_reconn_interval node * 1000) nodeA) by done.
  set (nodeB := set_env (n_unpack node) (n_calls node ++ [htimer_add (n_reconn_interval node * 1000)]) nodeA).
  rewrite (bind_ok (hv _) _ nodeA tt nodeB) by done.
  set (nodeC := set_status HNODE_STATUS_DISCONNECT nodeB).
  rewrite (bind_ok (modify _) _ nodeB tt nodeC) by done.
  assert (node_wf nodeC) as WC by (apply set_status_wf; [apply set_env_wf; [done|apply W]|done]).
  destruct (reconnect_ok nodeC new_io WC Hio) as (nodeD & E & WD & HT & Hc & _).
  destruct (Hc eq_refl) as (Hst & Hi & _). rewrite (bind_ok _ _ _ _ _ E).
  eexists. split; [done|]. split; [apply set_env_wf; [done|apply WD]|].
  split_and!; [done|done|]. change (subs_of nodeD = ∅). rewrite HT. apply hh_map_init.
Qed.

(** [hnode_on_connect] exactly, when the status topic is in the table already
    (every connection but the first). *)
Lemma on_reconnect_exact node io :
  node_wf node -> n_io node = io -> io <> 0 ->
  is_Some (subs_of node !! sub_key HMSG_FDATA_REQUEST HMSG_MSGID_STATUS) ->
  exists node', hnode_on_connect io 0 node = Ok (tt, node') /\ node_wf node' /\
    n_status node' = HNODE_STATUS_CONNECTED /\ subs_of node' = subs_of node /\
    n_write_ret node' = n_write_ret node /\
    writes (n_calls node') = writes (n_calls node) ++ [(io,
      hmsg_bytes (mk_msg HMSG_FCMD_REGISTER 0 (n_id node) HMSG_APPID_BROKER 0 0 []))].
Proof.
  intros W Hio Hnz [h Hh]. destruct (on_connect_ok node io 0 W Hio Hnz) as (node' & E & W').
  exists node'. split; [done|]. split; [done|]. revert E. unfold hnode_on_connect. change (negb (0 =? 0)) with false. cbv iota.
  rewrite (bind_ok (modify _) _ node tt (set_reconn_cnt 0 node)) by done.
  set (node1 := set_reconn_cnt 0 node).
  assert (hnode_register node1 = Ok (tt, set_env (n_unpack node) (n_calls node ++ [hio_write io
    (hmsg_bytes (mk_msg HMSG_FCMD_REGISTER 0 (n_id node) HMSG_APPID_BROKER 0 0 []))]) node1)) as ER.
  { unfold hnode_register. rewrite (bind_ok (gets _) _ node1 (n_id node) node1) by done.
    rewrite (bind_ok _ _ _ _ _ (node_write_ok node1 _ ltac:(by rewrite <- Hio in Hnz))).
    by rewrite <- Hio. }
  rewrite (bind_ok _ _ _ _ _ ER). set (node2 := set_env _ _ node1). unfold hnode_unpack_setting_get.
  destruct (unpack_setting_get (n_unpack node2)) as [us u'] eqn:Eu.
  rewrite (bind_ok _ _ node2 us (set_env u' (n_calls node2) node2)) by (by rewrite Eu).
  set (node6 := set_status HNODE_STATUS_CONNECTED (set_env u' (((n_calls node2 ++ [hio_set_unpack io us])
                   ++ [hio_setcb_read io NodeOnRead]) ++ [hio_read_start io]) node2)).
  assert (node_wf node6) as W6.
  { apply set_status_wf; [|intros _; cbn; by rewrite Hio]. apply set_env_wf.
    - destruct W. split; done.
    - pose proof (unpack_setting_get_ok _ (wf_unpack node W)) as H.
      change (n_unpack node2) with (n_unpack node) in Eu. by rewrite Eu in H. }
  destruct (subscribe_i_connected node6 HMSG_FDATA_REQUEST HMSG_MSGID_STATUS HOnStatus 1 W6 eq_refl)
    as (r & node8 & E8 & H8).
  change (subs_of node6) with (subs_of node) in H8. rewrite Hh in H8. destruct H8 as [-> (_ & HT & Eq)].
  intros E. assert (node' = node8) as ->.
  { revert E. unfold hv, modify, mbind, M_bind. simpl.
    change (set_status HNODE_STATUS_CONNECTED _) with node6. rewrite E8. by intros [= <-]. }
  rewrite Eq, app_nil_r. split_and!; [done|by rewrite <- HT, Eq|done|].
  cbn. by rewrite !writes_app, !app_nil_r.
Qed.

(** ** Theorems *)

Section theorems.
Context (user_handler : Z -> Z -> hmsg_t -> M hnode unit).


(** C34 Dispatch: a valid data frame runs the handler registered for its topic
    key, and no other, with the message as it was sent and with the table mutex
    released (so a handler may subscribe); a key without a handler runs none; a
    valid frame that is not a data message is dropped. *)
Theorem dispatch_exact node (m : hmsg_t) :
  node_wf node -> hmsg_frame m ->
  let read := hnode_on_read user_handler (hmsg_bytes m) (Z.of_nat (length (hmsg_bytes m))) node in
  (Z.land HMSG_FCMD_DATA (msg_flags m) <> 0 ->
   exists node1, n_subpool_mtx node1 = false /\ subs_of node1 = subs_of node /\
     n_calls node1 = n_calls node /\
     match subs_of node !! HMSG_TOPICEX_INMSG m with
     | Some (SubHandler (HUser f) param) => read = user_handler f param m node1
     | Some (SubHandler HOnStatus _) => read = hnode_on_status m node1
     | Some (SubHandler HOnRespond _) => read = hnode_on_respond 0 m node1
     | _ => read = Ok (tt, node1)
     end) /\
  (Z.land HMSG_FCMD_DATA (msg_flags m) = 0 -> read = Ok (tt, node)).
Proof.
  intros W Hf read. split; intros Hfl.
  - destruct (on_read_dispatch user_handler node m W Hf Hfl) as (node1 & (_ & HT & Eq) & E).
    exists node1. rewrite app_nil_r in Eq. split_and!; [by rewrite Eq|done|by rewrite Eq|].
    unfold read. rewrite E. by destruct (subs_of node !! _) as [[[] ?]|].
  - unfold read, hnode_on_read.
    rewrite (bind_ok _ _ node m node) by (by rewrite hmsg_cast_bytes by apply Hf).
    rewrite (hmsg_frame_valid m Hf). by rewrite Hfl.
Qed.

(** C35 Subscribing on a connected node: a topic that is in the table is left
    alone, with its first handler; otherwise one [SUB] frame for the topic goes to
    the broker and the handler is recorded under the key of the topic's data
    messages, unless [hio_write] returns 0 ([HNODE_RET_ESEND], nothing recorded).
    A negative [hio_write] result counts as sent. *)
Theorem subscribe_exact node (topic f param : Z) :
  node_wf node -> n_status node = HNODE_STATUS_CONNECTED ->
  exists r node', hnode_subscribe topic (HUser f) param node = Ok (r, node') /\
    match subs_of node !! sub_key HMSG_FDATA_PUBSUB topic with
    | Some h => r = HNODE_RET_OK /\ subs_of node' = subs_of node /\ n_calls node' = n_calls node
    | None =>
        n_calls node' = n_calls node ++ [hio_write (n_io node) (sub_frame node HMSG_FDATA_PUBSUB topic)] /\
        if n_write_ret node =? 0 then r = HNODE_RET_ESEND /\ subs_of node' = subs_of node
        else r = HNODE_RET_OK /\
          subs_of node' = <[sub_key HMSG_FDATA_PUBSUB topic := SubHandler (HUser f) param]> (subs_of node)
    end.
Proof.
  intros W Hst. destruct (subscribe_i_connected node HMSG_FDATA_PUBSUB topic (HUser f) param W Hst)
    as (r & node' & E & H). exists r, node'. split; [done|].
  destruct (subs_of node !! _); [|destruct (n_write_ret node =? 0)];
    destruct H as [-> (_ & HT & Eq)]; apply (f_equal n_calls) in Eq; cbn in Eq;
    rewrite ?app_nil_r in Eq; done.
Qed.

(** Subscribe, then receive: after a successful new subscription a message
    published on the topic (to whatever node id the broker accepted) runs the
    subscriber's handler with its parameter and the message. *)
Theorem subscribe_then_receive node (topic f param : Z) (m : hmsg_t) :
  node_wf node -> n_status node = HNODE_STATUS_CONNECTED -> n_write_ret node <> 0 ->
  in_u 16 topic -> subs_of node !! sub_key HMSG_FDATA_PUBSUB topic = None ->
  hmsg_frame m -> msg_version m = 0 -> msg_topic m = topic ->
  msg_flags m = HMSG_FLAGS HMSG_FCMD_DATA HMSG_FDATA_PUBSUB ->
  exists node1 node2, hnode_subscribe topic (HUser f) param node = Ok (HNODE_RET_OK, node1) /\
    hnode_on_read user_handler (hmsg_bytes m) (Z.of_nat (length (hmsg_bytes m))) node1
    = user_handler f param m node2 /\ subs_of node2 = subs_of node1 /\ n_subpool_mtx node2 = false.
Proof.
  intros W Hst Hwr Ht Hno Hf Hv Htop Hfl.
  destruct (subscribe_i_connected node HMSG_FDATA_PUBSUB topic (HUser f) param W Hst)
    as (r & node1 & E & H). rewrite Hno, (proj2 (Z.eqb_neq _ 0) Hwr) in H. destruct H as [-> U].
  pose proof (sub_key_data HMSG_FDATA_PUBSUB topic ltac:(unfold HMSG_FDATA_PUBSUB; lia) Ht) as [_ Hk].
  assert (node_wf node1) as W1 by (apply (node_upd_wf _ _ _ _ W U), keys_ok_insert; [apply W|done]).
  destruct (on_read_dispatch user_handler node1 m W1 Hf ltac:(by rewrite Hfl)) as (node2 & (_ & HT & Eq) & E2).
  exists node1, node2. split; [done|]. split; [|split; [done|by rewrite Eq]]. rewrite E2.
  assert (HMSG_TOPICEX_INMSG m = sub_key HMSG_FDATA_PUBSUB topic) as ->
    by (unfold HMSG_TOPICEX_INMSG, sub_key; by rewrite Hv, Hfl, Htop).
  destruct U as (_ & -> & _). by rewrite lookup_insert_eq.
Qed.

(** [hnode_unsubscribe] never unsubscribes: it looks for the topic under the
    flags of the [UNSUB] command (0x30), while subscriptions are kept under those
    of data messages (0x10 to 0x1F); so it returns [HNODE_RET_OK] with the table
    unchanged and nothing sent, and the handler stays registered. *)
Theorem unsubscribe_never node (topic : Z) :
  node_wf node -> in_u 16 topic -> n_status node = HNODE_STATUS_CONNECTED ->
  exists node', hnode_unsubscribe topic node = Ok (HNODE_RET_OK, node') /\
    subs_of node' = subs_of node /\ n_calls node' = n_calls node.
Proof.
  intros W Ht Hst. destruct (unsubscribe_noop topic node W Ht Hst) as (node' & E & (_ & HT & Eq)).
  exists node'. split; [done|]. split; [done|]. rewrite Eq. cbn. by rewrite app_nil_r.
Qed.

(** The status reply: on a status request the node writes one frame, valid and
    addressed to the requester with its sequence number, whose payload lists, 16
    bits each and in table order, the topics of all its subscriptions. *)
Theorem status_reply_exact node (msg : hmsg_t) :
  node_wf node -> n_io node <> 0 -> hmsg_wf msg ->
  Z.of_nat (length (hh_view (n_map_subpool node))) <= 2 ^ 20 ->
  exists node', hnode_on_status msg node = Ok (tt, node') /\ subs_of node' = subs_of node /\
    n_calls node' = n_calls node ++ [hio_write (n_io node) (hmsg_bytes (status_reply node msg))] /\
    hmsg_frame (status_reply node msg) /\
    msg_to (status_reply node msg) = msg_from msg /\ msg_seq (status_reply node msg) = msg_seq msg /\
    forall i k h, hh_view (n_map_subpool node) !! i = Some (k, h) ->
      read_le 2 (i * 2) (msg_payload (status_reply node msg)) = k mod 2 ^ 16.
Proof.
  intros W Hio Hm Hn. destruct (hnode_on_status_ok node msg W Hio) as (node' & E & (_ & HT & Eq)).
  exists node'. split; [done|]. split; [done|]. split; [by rewrite Eq|].
  destruct Hm as (H1 & H2 & H3 & H4 & H5 & H6 & H7 & H8 & H9 & H10 & H11 & _).
  assert (length (status_topics node) = length (hh_view (n_map_subpool node))) as Hlen
    by (unfold status_topics; by rewrite !length_fmap).
  split_and!.
  - unfold hmsg_frame, hmsg_wf, status_reply, mk_msg; cbn.
    unfold u16, u32, u8. rewrite (uwrap_small 32 (2 * _)) by (unfold in_u; lia).
    unfold HMSG_PATLOAD_SIZE_MAX, sizeof_hmsg. rewrite length_cells.
    split_and!; try (by apply uwrap_range); try done; try (unfold in_u; lia); try lia.
    unfold cells. apply Forall_bind, Forall_true. intros x. apply le_bytes_bytes.
  - cbn. by apply uwrap_small.
  - cbn. by apply uwrap_small.
  - intros i k h Hi. cbn. apply read_cell.
    + unfold status_topics. by rewrite !list_lookup_fmap, Hi.
    + apply (Z.mod_pos_bound k (2 ^ 16)). lia.
Qed.

(** A connection lost, made again and announced: the table is kept, and all that
    is sent is the [REGISTER] frame. *)
Lemma reconnect_run node (io2 : Z) :
  node_wf node -> n_status node = HNODE_STATUS_CONNECTED -> io2 <> 0 ->
  is_Some (subs_of node !! sub_key HMSG_FDATA_REQUEST HMSG_MSGID_STATUS) ->
  exists node3, node_run user_handler [NClose; NTimer io2; NConnect io2 0] node = Ok (tt, node3) /\
    node_wf node3 /\ n_status node3 = HNODE_STATUS_CONNECTED /\ subs_of node3 = subs_of node /\
    writes (n_calls node3) = writes (n_calls node) ++
      [(io2, hmsg_bytes (mk_msg HMSG_FCMD_REGISTER 0 (n_id node) HMSG_APPID_BROKER 0 0 []))].
Proof.
  intros W Hst Hio Hs. cbn [node_run node_handle].
  set (node1 := set_status HNODE_STATUS_DISCONNECT node).
  rewrite (bind_ok hnode_on_close _ node tt node1) by done.
  assert (node_wf node1) as W1 by (by apply set_status_wf).
  destruct (reconnect_exact node1 io2 W1 Hio eq_refl) as (node2 & E2 & W2 & HT2 & Hio2 & Hid2 & Hw2).
  rewrite (bind_ok _ _ _ _ _ E2). change (subs_of node1) with (subs_of node) in HT2.
  destruct (on_reconnect_exact node2 io2 W2 Hio2 Hio) as (node3 & E3 & W3 & Hst3 & HT3 & _ & Hw3);
    [by rewrite HT2|].
  rewrite (bind_ok _ _ _ _ _ E3). exists node3. split_and!; [done|done|done|by rewrite HT3|].
  by rewrite Hw3, Hw2, Hid2.
Qed.

(** Subscribing to a topic that is in the table. *)
Lemma subscribe_known node flag_data topic f param :
  node_wf node -> n_status node = HNODE_STATUS_CONNECTED ->
  is_Some (subs_of node !! sub_key flag_data topic) ->
  exists node', hnode_subscribe_i flag_data topic f param node = Ok (HNODE_RET_OK, node') /\
    n_calls node' = n_calls node.
Proof.
  intros W Hst [h Hh].
  destruct (subscribe_i_connected node flag_data topic f param W Hst) as (r & node' & E & H).
  rewrite Hh in H. destruct H as [-> (_ & _ & Eq)]. exists node'. split; [done|].
  apply (f_equal n_calls) in Eq. cbn in Eq. by rewrite app_nil_r in Eq.
Qed.

(** A reconnection is not a resubscription: after the connection is lost,
    re-established and announced again, the table still has the old topics, so
    subscribing to one of them again returns [HNODE_RET_OK] and sends nothing; all
    the new connection carries is the [REGISTER] frame, and the broker, whose
    session is new, never learns of the topics. *)
Theorem reconnect_forgets node (io2 topic f param : Z) :
  node_wf node -> n_status node = HNODE_STATUS_CONNECTED -> io2 <> 0 ->
  is_Some (subs_of node !! sub_key HMSG_FDATA_REQUEST HMSG_MSGID_STATUS) ->
  is_Some (subs_of node !! sub_key HMSG_FDATA_PUBSUB topic) ->
  exists node3 node4,
    node_run user_handler [NClose; NTimer io2; NConnect io2 0] node = Ok (tt, node3) /\
    n_status node3 = HNODE_STATUS_CONNECTED /\
    hnode_subscribe topic (HUser f) param node3 = Ok (HNODE_RET_OK, node4) /\
    writes (n_calls node4) = writes (n_calls node) ++
      [(io2, hmsg_bytes (mk_msg HMSG_FCMD_REGISTER 0 (n_id node) HMSG_APPID_BROKER 0 0 []))].
Proof.
  intros W Hst Hio Hs Hh.
  destruct (reconnect_run node io2 W Hst Hio Hs) as (node3 & E3 & W3 & Hst3 & HT3 & Hw3).
  destruct (subscribe_known node3 HMSG_FDATA_PUBSUB topic (HUser f) param W3 Hst3) as (node4 & E4 & Hc4);
    [by rewrite HT3|].
  exists node3, node4. split_and!; [done|done|done|]. by rewrite Hc4.
Qed.
End theorems.

(** The request slots: for a requested count of at most [2 ^ 30] the node has
    the least power of two that is at least 16 and at least the count, all idle,
    so [seq & (count - 1)] is a slot for every sequence number, and the server
    address is NUL-terminated in its 16 bytes; a larger count shifts [int] out of
    its range. *)
Theorem init_slots (id : Z) (ip : list Z) (port count : Z) :
  in_u 16 id ->
  (count <= 2 ^ 30 ->
   exists node b, hnode_init id ip port count = Ok node /\ node_wf node /\
     n_req_ctx_count node = 2 ^ b /\ 16 <= 2 ^ b /\ count <= 2 ^ b /\
     (2 ^ b = 16 \/ 2 ^ b < 2 * count) /\
     (forall seq, n_req_ctx node !! req_ctx_index node seq = Some req_ctx_zero) /\
     length (n_server_ip node) = 16%nat /\ last (n_server_ip node) = Some 0) /\
  (2 ^ 30 < count -> hnode_init id ip port count = Fault Overflow).
Proof.
  intros Hid. split; intros Hc.
  - destruct (hnode_init_wf id ip port count Hid Hc)
      as (node & b & E & W & Hb & Hn & Hle & Hmin & Hr & Hip & _).
    exists node, b. pose proof (Z.pow_le_mono_r 2 4 b ltac:(lia) ltac:(lia)).
    assert (2 * 2 ^ (b - 1) = 2 ^ b) as E2
      by (rewrite <- (Z.pow_succ_r 2 (b - 1)) by lia; f_equal; lia).
    split_and!; try done; try lia.
    + destruct Hmin as [->|Hmin]; [by left|right; lia].
    + intros seq. pose proof (req_ctx_index_lt node seq (wf_slots node W)) as Hlt.
      rewrite Hr in *. apply lookup_replicate_2. by rewrite length_replicate in Hlt.
    + rewrite Hip. unfold server_ip_of. rewrite length_app, strncpy_length. done.
    + rewrite Hip. unfold server_ip_of. by rewrite last_snoc.
  - unfold hnode_init, HNODE_REQUEST_COUNT_INIT. rewrite (GETMINPOW_overflow 32 count 4 16); [done|lia|done|done|lia].
Qed.

End props.

(** ** A concrete node *)

#[local] Existing Instance stb_hihash.
#[local] Existing Instance list_hbuf.

(** Node 7 of a broker at 127.0.0.1, with handlers that publish what they get. *)
Definition echo_handler (f param : Z) (msg : hmsg_t) : M hnode unit :=
  hnode_publish param HMSG_APPID_EVERYONR (msg_payload msg) (Z.of_nat (length (msg_payload msg)))
    ≫= fun _ => mret tt.

Lemma echo_keeps f param msg (node : hnode) :
  node_wf node -> hmsg_wf msg ->
  exists node', echo_handler f param msg node = Ok (tt, node') /\ node_wf node'.
Proof.
  intros W _. unfold echo_handler.
  destruct (decide (n_status node = HNODE_STATUS_CONNECTED)) as [Hst|Hst].
  - rewrite (bind_ok _ _ _ _ _ (publish_ok param HMSG_APPID_EVERYONR (msg_payload msg) node W Hst)).
    eexists. split; [reflexivity|]. apply set_env_wf; [exact W|apply W].
  - exists node. split; [|exact W]. unfold hnode_publish, mbind, M_bind, gets.
    by rewrite (proj2 (Z.eqb_neq _ _)).
Qed.

Definition localhost : list Z := [49; 50; 55; 46; 48; 46; 48; 46; 49].

Definition node_result (r : res (unit * hnode)) (d : hnode) : hnode :=
  match r with Ok (_, n) => n | Fault _ => d end.

Definition blank_node : hnode := 
  Node 7 55000 HNODE_STATUS_INIT 0 2 10 (server_ip_of localhost) HIHASH_INIT 0 0 false 16
    (replicate 16 req_ctx_zero) unpack_static_init ∅ 0 [].

Lemma blank_node_init : hnode_init 7 localhost 55000 10 = Ok blank_node.
Proof. reflexivity. Qed.

(** The events that bring the node to its first subscription. *)
Definition first_events : list node_event :=
  [NWriteRet 32; NConnect 3 0; NSubscribe 5 11 22].

Definition example_node : hnode :=
  node_result (node_run echo_handler first_events
    (node_result (thread_start 3 blank_node) blank_node)) blank_node.

Lemma example_node_wf : node_wf example_node.
Proof.
  destruct (hnode_init_wf 7 localhost 55000 10) as (n0 & b & E0 & W0 & _ & _ & _ & _ & _ & _ & _ & Hio);
    [decided|lia|].
  rewrite blank_node_init in E0. injection E0 as <-.
  destruct (thread_start_ok blank_node 3 W0) as (n1 & E1 & W1 & _); [discriminate|exact Hio|].
  destruct (node_run_ok echo_handler echo_keeps n1 first_events W1) as (n2 & E2 & W2).
  { assert (node_result (thread_start 3 blank_node) blank_node = n1) as <- by (by rewrite E1).
    vm_compute. reflexivity. }
  unfold example_node. rewrite E1. cbn [node_result]. rewrite E2. exact W2.
Qed.

Definition topic_msg (topic : Z) : hmsg_t := mk_msg 0x10 topic 9 HMSG_APPID_EVERYONR 0 2 [104; 105].


Lemma dispatch_exact_witness :
  exists node1, hnode_on_read echo_handler (hmsg_bytes (topic_msg 5)) 34 example_node
    = echo_handler 11 22 (topic_msg 5) node1.
Proof.
  destruct (dispatch_exact echo_handler example_node (topic_msg 5) example_node_wf)
    as [H _]; [decided|].
  destruct H as (node1 & _ & _ & _ & H); [discriminate|].
  assert (subs_of example_node !! HMSG_TOPICEX_INMSG (topic_msg 5) = Some (SubHandler (HUser 11) 22))
    as E by (vm_compute; reflexivity).
  rewrite E in H. exists node1. exact H.
Defined.

Lemma subscribe_exact_witness :
  exists node', hnode_subscribe 6 (HUser 1) 2 example_node = Ok (HNODE_RET_OK, node') /\
    subs_of node' !! sub_key HMSG_FDATA_PUBSUB 6 = Some (SubHandler (HUser 1) 2).
Proof.
  destruct (subscribe_exact example_node 6 1 2 example_node_wf) as (r & node' & E & H);
    [vm_compute; reflexivity|].
  assert (subs_of example_node !! sub_key HMSG_FDATA_PUBSUB 6 = None) as E0 by (vm_compute; reflexivity).
  assert ((n_write_ret example_node =? 0) = false) as E1 by (vm_compute; reflexivity).
  rewrite E0, E1 in H. destruct H as (_ & -> & HT). exists node'. split; [exact E|].
  rewrite HT. apply lookup_insert_eq.
Defined.

Lemma subscribe_then_receive_witness :
  exists node1 node2, hnode_subscribe 6 (HUser 1) 2 example_node = Ok (HNODE_RET_OK, node1) /\
    hnode_on_read echo_handler (hmsg_bytes (topic_msg 6)) 34 node1 = echo_handler 1 2 (topic_msg 6) node2.
Proof.
  destruct (subscribe_then_receive echo_handler example_node 6 1 2 (topic_msg 6) example_node_wf)
    as (node1 & node2 & E1 & E2 & _);
    [vm_compute; reflexivity|vm_compute; discriminate|decided|vm_compute; reflexivity|decided
    |reflexivity|reflexivity|reflexivity|].
  exists node1, node2. split; [exact E1|exact E2].
Defined.

Lemma unsubscribe_never_witness :
  exists node', hnode_unsubscribe 5 example_node = Ok (HNODE_RET_OK, node') /\
    subs_of node' !! sub_key HMSG_FDATA_PUBSUB 5 = Some (SubHandler (HUser 11) 22).
Proof.
  destruct (unsubscribe_never example_node 5 example_node_wf) as (node' & E & HT & _);
    [decided|vm_compute; reflexivity|].
  exists node'. split; [exact E|]. rewrite HT. vm_compute. reflexivity.
Defined.

Lemma status_reply_exact_witness :
  exists node', hnode_on_status (topic_msg 0) example_node = Ok (tt, node') /\
    hmsg_frame (status_reply example_node (topic_msg 0)).
Proof.
  destruct (status_reply_exact example_node (topic_msg 0) example_node_wf)
    as (node' & E & _ & _ & Hf & _); [vm_compute; discriminate|decided|vm_compute; discriminate|].
  exists node'. split; [exact E|exact Hf].
Defined.

Lemma reconnect_forgets_witness :
  exists node3 node4,
    node_run echo_handler [NClose; NTimer 4; NConnect 4 0] example_node = Ok (tt, node3) /\
    hnode_subscribe 5 (HUser 11) 22 node3 = Ok (HNODE_RET_OK, node4) /\
    length (sent_to 4 (n_calls node4)) = 1%nat.
Proof.
  destruct (reconnect_forgets echo_handler example_node 4 5 11 22 example_node_wf)
    as (node3 & node4 & E3 & _ & E4 & Hw);
    [vm_compute; reflexivity|discriminate|vm_compute; eexists; reflexivity..|].
  exists node3, node4. split; [exact E3|]. split; [exact E4|].
  unfold sent_to. rewrite Hw. vm_compute. reflexivity.
Defined.

Lemma init_slots_witness : hnode_init 7 localhost 55000 (2 ^ 30 + 1) = Fault Overflow.
Proof. apply (init_slots 7 localhost 55000 (2 ^ 30 + 1)); [decided|reflexivity]. Defined.

Lemma disconnected_refused_witness :
  hnode_publish 5 8 [1] 1 blank_node = Ok (HNODE_RET_EDISCONNECT, blank_node).
Proof. apply (disconnected_refused blank_node 5 8 0 [1] HNull). discriminate. Defined.
