(* ===== verification/Hrequest.v ===== *)
(** Hrequest: concurrent requests, [hnode_request] and [hnode_on_respond] of
    [src/hnode.c].

    Threads of the program call [hnode_request]; the I/O thread (number 0) runs
    [hnode_on_respond] for each response.  They share the sequence counter, the
    request slots with their mutexes, and the reply buffers.  A step is what a
    thread does between two points where another one can interfere: an atomic
    operation, or an access to data that the slot's mutex protects while it is
    held.  [pthread_cond_timedwait] releases the mutex and returns 0 (a signal or
    a spurious wake-up), [ETIMEDOUT], or, at once, [EINVAL] for an invalid time;
    a wake-up may come at any moment, so the signal itself changes no state.

    A call of [hnode_request] is a thread number of its own; [rq_return] is its
    caller going on, free to release the reply buffer. *)

From S2P Require Import Prelude Hmsg Hbuf Hhash Hv Hnode.

Definition ETIMEDOUT : Z := 110.
Definition EINVAL : Z := 22.

(** ** The entry of [hnode_request] *)

Section enter.
Context {HB : HBuf} {HH : HIHash}.

(** Up to the sequence number: a return code, or the timeout to go on with. *)
Definition hnode_request_enter (node_null req_null rep_null : bool) (topic timeout : Z)
    : M hnode (Z + Z) :=
  if node_null || req_null || rep_null then mret (inl HNODE_RET_EPARAM)
  else
    st ← gets n_status;
    if negb (HNODE_STATUS_CONNECTED =? st) then mret (inl HNODE_RET_EDISCONNECT)
    else
      let timeout := if HNODE_REQUEST_TIMEOUT_MAX <? timeout then HNODE_REQUEST_TIMEOUT_MAX else timeout in
      ret ← hnode_subscribe_i HMSG_FDATA_REPOND topic HOnRespond 1;
      if negb (ret =? 0) then mret (inl ret) else mret (inr timeout).
End enter.

(** ** Threads *)

Inductive stage :=
  | SSeq           (* about to take a sequence number *)
  | STry           (* about to try the slot's mutex *)
  | SCas           (* holds it; about to compare and exchange the status *)
  | SUnlockBusy    (* the exchange failed *)
  | SClear         (* the slot is BUSY: clear the reply, write seq and rep *)
  | SSend          (* build and send the message *)
  | SLoop          (* the condition of the while loop *)
  | SWait          (* in pthread_cond_timedwait, the mutex released *)
  | SWake          (* woken: about to take the mutex again *)
  | SIdle          (* left the loop: about to store IDLE *)
  | SUnlock        (* about to unlock *)
  | SDone.         (* returned *)

#[global] Instance stage_eq_dec : EqDecision stage.
Proof. solve_decision. Defined.

Record rthread := RThread {
  th_topic : Z;
  th_to : Z;
  th_req : list Z;
  th_rep : Z;          (* the address of the reply buffer *)
  th_timeout : Z;      (* at most HNODE_REQUEST_TIMEOUT_MAX *)
  th_stage : stage;
  th_seq : Z;
  th_ts : Z * Z;       (* the deadline *)
  th_ret : Z;          (* [ret] *)
  th_result : Z        (* the value returned, at [SDone] *)
}.

(** The I/O thread in [hnode_on_respond]. *)
Inductive io_stage :=
  | IoIdle
  | IoLock (msg : hmsg_t)
  | IoCheck (msg : hmsg_t)
  | IoPush (msg : hmsg_t)
  | IoDone (msg : hmsg_t)      (* pushed; about to store DONE and signal *)
  | IoUnlock (msg : hmsg_t).

Section request.
Context {HB : HBuf}.

Record rstate := RState {
  r_id : Z;
  r_count : Z;                       (* req_ctx_count *)
  r_seq : Z;                         (* ato_req_seq *)
  r_slots : list hrequest_ctx_t;     (* req_ctx *)
  r_bufs : gmap Z hbuf_t;            (* reply buffers *)
  r_threads : gmap Z rthread;
  r_io : io_stage;
  r_recv : list hmsg_t;              (* responses received so far *)
  r_sent : list (list Z)             (* requests written so far *)
}.

Implicit Types (s : rstate) (th : rthread) (c : hrequest_ctx_t).

(** A node just initialised. *)
Definition rq_init (id : Z) (k : nat) : rstate :=
  RState id (2 ^ Z.of_nat k) 0 (replicate (Z.to_nat (2 ^ Z.of_nat k)) req_ctx_zero) ∅ ∅ IoIdle [] [].

(** [seq & (node->req_ctx_count - 1)]. *)
Definition slot_of s (seq : Z) : nat := Z.to_nat (Z.land seq (r_count s - 1)).

Definition set_th (st : stage) (ret : Z) th : rthread :=
  RThread (th_topic th) (th_to th) (th_req th) (th_rep th) (th_timeout th) st (th_seq th) (th_ts th)
    ret (th_result th).
Definition set_th_seq (seq : Z) th : rthread :=
  RThread (th_topic th) (th_to th) (th_req th) (th_rep th) (th_timeout th) STry seq (th_ts th)
    (th_ret th) (th_result th).
Definition set_th_ts (ts : Z * Z) th : rthread :=
  RThread (th_topic th) (th_to th) (th_req th) (th_rep th) (th_timeout th) SLoop (th_seq th) ts
    (th_ret th) (th_result th).
Definition set_th_result (r : Z) th : rthread :=
  RThread (th_topic th) (th_to th) (th_req th) (th_rep th) (th_timeout th) SDone (th_seq th) (th_ts th)
    (th_ret th) r.

Definition set_mtx (m : option Z) c : hrequest_ctx_t := ReqCtx m (rc_rep c) (rc_seq c) (rc_status c).
Definition set_rstatus (x : Z) c : hrequest_ctx_t := ReqCtx (rc_mtx c) (rc_rep c) (rc_seq c) x.
Definition set_seq_rep (seq rep : Z) c : hrequest_ctx_t := ReqCtx (rc_mtx c) rep seq (rc_status c).

(** Thread [t] becomes [th], its slot [i] becomes [c]. *)
Definition upd (t : Z) th (i : nat) c (bufs : gmap Z hbuf_t) s : rstate :=
  RState (r_id s) (r_count s) (r_seq s) (<[i := c]> (r_slots s)) bufs (<[t := th]> (r_threads s))
    (r_io s) (r_recv s) (r_sent s).
Definition upd_th (t : Z) th s : rstate :=
  RState (r_id s) (r_count s) (r_seq s) (r_slots s) (r_bufs s) (<[t := th]> (r_threads s))
    (r_io s) (r_recv s) (r_sent s).
Definition with_sent (seq : Z) (sent : list (list Z)) s : rstate :=
  RState (r_id s) (r_count s) seq (r_slots s) (r_bufs s) (r_threads s) (r_io s) (r_recv s) sent.

(** The request message of a thread. *)
Definition request_msg s th : hmsg_t :=
  mk_msg (HMSG_FLAGS HMSG_FCMD_DATA HMSG_FDATA_REQUEST) (th_topic th) (r_id s) (th_to th) (th_seq th)
    (Z.of_nat (length (th_req th))) (th_req th).

(** ** Steps of a requester *)

(** What happens next to a thread. *)
Inductive choice :=
  | Go                         (* the thread runs *)
  | Clock (ts : Z * Z)         (* it runs, and [clock_gettime] reads [ts] *)
  | Wake (ret : Z).            (* [pthread_cond_timedwait] is about to return [ret] *)

(** [None]: the thread cannot do that now (it is blocked, or it is elsewhere). *)
Definition thread_step (t : Z) (ch : choice) s : res (option rstate) :=
  match r_threads s !! t with
  | None => Ok None
  | Some th =>
      let i := slot_of s (th_seq th) in
      match r_slots s !! i with
      | None => Fault OutOfBounds
      | Some c =>
          match th_stage th, ch with
          | SSeq, Go =>
              Ok (Some (with_sent (u32 (r_seq s + 1)) (r_sent s) (upd_th t (set_th_seq (r_seq s) th) s)))
          | STry, Go =>
              match rc_mtx c with
              | None => Ok (Some (upd t (set_th SCas (th_ret th) th) i (set_mtx (Some t) c) (r_bufs s) s))
              | Some _ => Ok (Some (upd_th t (set_th_result HNODE_RET_EBUSY th) s))
              end
          | SCas, Go =>
              if rc_status c =? HREQUEST_CTX_STATUS_IDLE then
                Ok (Some (upd t (set_th SClear (th_ret th) th) i
                            (set_rstatus HREQUEST_CTX_STATUS_BUSY c) (r_bufs s) s))
              else Ok (Some (upd_th t (set_th SUnlockBusy (th_ret th) th) s))
          | SUnlockBusy, Go =>
              Ok (Some (upd t (set_th_result HNODE_RET_EBUSY th) i (set_mtx None c) (r_bufs s) s))
          | SClear, Go =>
              match r_bufs s !! th_rep th with
              | None => Fault UseAfterFree
              | Some b =>
                  Ok (Some (upd t (set_th SSend (th_ret th) th) i (set_seq_rep (th_seq th) (th_rep th) c)
                              (<[th_rep th := (hbuf_clear b).2]> (r_bufs s)) s))
              end
          | SSend, Clock ts =>
              Ok (Some (with_sent (r_seq s) (r_sent s ++ [hmsg_bytes (request_msg s th)])
                          (upd_th t (set_th_ts (hnode_time_offset ts (th_timeout th)) th) s)))
          | SLoop, Go =>
              if HREQUEST_CTX_STATUS_BUSY =? rc_status c then
                if timespec_valid (th_ts th) then
                  Ok (Some (upd t (set_th SWait (th_ret th) th) i (set_mtx None c) (r_bufs s) s))
                else Ok (Some (upd_th t (set_th SIdle EINVAL th) s))
              else Ok (Some (upd_th t (set_th SIdle (th_ret th) th) s))
          | SWait, Wake ret =>
              if (ret =? 0) || (ret =? ETIMEDOUT) then Ok (Some (upd_th t (set_th SWake ret th) s))
              else Ok None
          | SWake, Go =>
              match rc_mtx c with
              | Some _ => Ok None
              | None =>
                  Ok (Some (upd t (set_th (if th_ret th =? 0 then SLoop else SIdle) (th_ret th) th) i
                              (set_mtx (Some t) c) (r_bufs s) s))
              end
          | SIdle, Go =>
              Ok (Some (upd t (set_th SUnlock (th_ret th) th) i
                          (set_rstatus HREQUEST_CTX_STATUS_IDLE c) (r_bufs s) s))
          | SUnlock, Go =>
              Ok (Some (upd t (set_th_result
                            (if ETIMEDOUT =? th_ret th then HNODE_RET_ETIMEOUT else HNODE_RET_OK) th) i
                          (set_mtx None c) (r_bufs s) s))
          | _, _ => Ok None
          end
      end
  end.

(** ** Steps of the I/O thread *)

(** The bytes [hnode_on_respond] appends to the reply. *)
Definition resp_payload (msg : hmsg_t) : list Z := take (Z.to_nat (msg_payload_size msg)) (msg_payload msg).

Definition upd_io (io : io_stage) (i : nat) c (bufs : gmap Z hbuf_t) s : rstate :=
  RState (r_id s) (r_count s) (r_seq s) (<[i := c]> (r_slots s)) bufs (r_threads s) io (r_recv s) (r_sent s).

Definition io_msg (io : io_stage) : option hmsg_t :=
  match io with
  | IoIdle => None
  | IoLock m | IoCheck m | IoPush m | IoDone m | IoUnlock m => Some m
  end.

Definition io_step s : res (option rstate) :=
  match io_msg (r_io s) with
  | None => Ok None
  | Some msg =>
      let i := slot_of s (msg_seq msg) in
      match r_slots s !! i with
      | None => Fault OutOfBounds
      | Some c =>
          match r_io s with
          | IoIdle => Ok None
          | IoLock _ =>
              match rc_mtx c with
              | None => Ok (Some (upd_io (IoCheck msg) i (set_mtx (Some 0) c) (r_bufs s) s))
              | Some _ => Ok None
              end
          | IoCheck _ =>
              if (HREQUEST_CTX_STATUS_BUSY =? rc_status c) && (msg_seq msg =? rc_seq c) then
                Ok (Some (upd_io (IoPush msg) i c (r_bufs s) s))
              else Ok (Some (upd_io (IoUnlock msg) i c (r_bufs s) s))
          | IoPush _ =>
              match r_bufs s !! rc_rep c with
              | None => Fault UseAfterFree
              | Some b =>
                  Ok (Some (upd_io (IoDone msg) i c
                              (<[rc_rep c := (hbuf_push b (resp_payload msg)).2]> (r_bufs s)) s))
              end
          | IoDone _ =>
              Ok (Some (upd_io (IoUnlock msg) i (set_rstatus HREQUEST_CTX_STATUS_DONE c) (r_bufs s) s))
          | IoUnlock _ => Ok (Some (upd_io IoIdle i (set_mtx None c) (r_bufs s) s))
          end
      end
  end.

(** ** Steps of the system *)

Inductive label :=
  | LCall (t topic to : Z) (req : list Z) (rep : Z) (b : hbuf_t) (timeout : Z)
      (* thread [t] enters with the live buffer [b] at [rep] *)
  | LThread (t : Z) (ch : choice)
  | LRecv (msg : hmsg_t)        (* a response reaches hnode_on_respond *)
  | LIo
  | LReturn (t : Z).            (* the caller goes on and frees the buffer *)

(** A new call: a fresh thread number, and a buffer no other call uses. *)
Definition call_step (t topic to : Z) (req : list Z) (rep : Z) (b : hbuf_t) (timeout : Z) s : option rstate :=
  if (t =? 0) || negb ((0 <=? timeout) && (timeout <=? HNODE_REQUEST_TIMEOUT_MAX)) then None
  else match r_threads s !! t, r_bufs s !! rep with
  | None, None =>
      Some (RState (r_id s) (r_count s) (r_seq s) (r_slots s) (<[rep := b]> (r_bufs s))
              (<[t := RThread topic to req rep timeout SSeq 0 (0, 0) 0 0]> (r_threads s))
              (r_io s) (r_recv s) (r_sent s))
  | _, _ => None
  end.

Definition recv_step (msg : hmsg_t) s : option rstate :=
  match r_io s with
  | IoIdle => Some (RState (r_id s) (r_count s) (r_seq s) (r_slots s) (r_bufs s) (r_threads s)
                      (IoLock msg) (msg :: r_recv s) (r_sent s))
  | _ => None
  end.

Definition rq_return (t : Z) s : option rstate :=
  match r_threads s !! t with
  | Some th =>
      if decide (th_stage th = SDone) then
        Some (RState (r_id s) (r_count s) (r_seq s) (r_slots s) (delete (th_rep th) (r_bufs s))
                (delete t (r_threads s)) (r_io s) (r_recv s) (r_sent s))
      else None
  | None => None
  end.

Definition rq_step (l : label) s : res (option rstate) :=
  match l with
  | LCall t topic to req rep b timeout => Ok (call_step t topic to req rep b timeout s)
  | LThread t ch => thread_step t ch s
  | LRecv msg => Ok (recv_step msg s)
  | LIo => io_step s
  | LReturn t => Ok (rq_return t s)
  end.

(** A schedule; a step that is not possible is skipped. *)
Fixpoint rq_run (ls : list label) s : res rstate :=
  match ls with
  | [] => Ok s
  | l :: ls =>
      match rq_step l s with
      | Fault f => Fault f
      | Ok (Some s') => rq_run ls s'
      | Ok None => rq_run ls s
      end
  end.

(** The buffers calls bring are live, and the clock reads a valid time. *)
Definition label_ok (l : label) : Prop :=
  match l with
  | LCall _ _ _ _ _ b _ => hbuf_live b
  | LThread _ (Clock ts) => timespec_valid ts = true
  | _ => True
  end.

(** Reachable states of a node with [2 ^ k] slots. *)
Inductive rq_reach (id : Z) (k : nat) : rstate -> Prop :=
  | reach_init : rq_reach id k (rq_init id k)
  | reach_step s l s' :
      rq_reach id k s -> label_ok l -> rq_step l s = Ok (Some s') -> rq_reach id k s'.

End request.
