(* ===== verification/RequestInv.v ===== *)
(** RequestInv: the invariant of concurrent requests (Hrequest.v).

    [own] is a ghost table: which call owns a slot, from the exchange that made
    it BUSY to the store that makes it IDLE again.  The mutex and the status of a
    slot then say exactly which thread may touch what. *)

From S2P Require Import Prelude Hmsg Hbuf Hhash Hv Hnode Hrequest.

(** ** Regions of the code *)

Definition holds_stage (x : stage) : bool :=
  match x with SCas | SUnlockBusy | SClear | SSend | SLoop | SIdle | SUnlock => true | _ => false end.
Definition owns_stage (x : stage) : bool :=
  match x with SClear | SSend | SLoop | SWait | SWake | SIdle => true | _ => false end.
Definition ready_stage (x : stage) : bool :=
  match x with SSend | SLoop | SWait | SWake | SIdle => true | _ => false end.

Definition th_holds (th : rthread) : bool := holds_stage (th_stage th).
Definition th_owns (th : rthread) : bool := owns_stage (th_stage th).
Definition th_ready (th : rthread) : bool := ready_stage (th_stage th).

(** The call got a slot and is past it. *)
Definition th_finished (th : rthread) : bool :=
  match th_stage th with
  | SUnlock => true
  | SDone => negb (th_result th =? HNODE_RET_EBUSY)
  | _ => false
  end.

Definition io_holds (io : io_stage) : option hmsg_t :=
  match io with
  | IoCheck m | IoPush m | IoDone m | IoUnlock m => Some m
  | _ => None
  end.
Definition io_pushing (io : io_stage) : option hmsg_t :=
  match io with IoPush m | IoDone m => Some m | _ => None end.
Definition io_pushed (io : io_stage) : option hmsg_t :=
  match io with IoDone m => Some m | _ => None end.

Lemma ready_owns th : th_ready th = true -> th_owns th = true.
Proof. unfold th_ready, th_owns. by destruct (th_stage th). Qed.

Lemma io_pushing_holds io m : io_pushing io = Some m -> io_holds io = Some m.
Proof. by destruct io. Qed.
Lemma io_pushed_pushing io m : io_pushed io = Some m -> io_pushing io = Some m.
Proof. by destruct io. Qed.

Section inv.
Context {HB : HBuf} {HBS : HBufSpec HB} {HBT : HBufTotal HB}.
Implicit Types (s : rstate) (th : rthread) (c : hrequest_ctx_t) (own : gmap nat Z).

(** The bytes in the reply buffer of a call. *)
Definition reply s th : list Z := from_option hbuf_data [] (r_bufs s !! th_rep th).

(** The reply is the payload of a response received under the call's number. *)
Definition delivered (recv : list hmsg_t) th (d : list Z) : Prop :=
  exists m, m ∈ recv /\ msg_seq m = th_seq th /\ d = resp_payload m.

(** The response being delivered to slot [i], once its bytes are pushed. *)
Definition pushed_to s (i : nat) : option hmsg_t :=
  m ← io_pushed (r_io s); if decide (slot_of s (msg_seq m) = i) then Some m else None.

Definition reply_code (ret : Z) : Z :=
  if ETIMEDOUT =? ret then HNODE_RET_ETIMEOUT else HNODE_RET_OK.

(** A call [t] in state [th] and its slot [c], owned by [o]; [d] is its reply and
    [pu] the response pushed to the slot. *)
Record call_ok (recv : list hmsg_t) (pu : option hmsg_t) (t : Z) th c (o : option Z) (d : list Z) : Prop := {
  co_mtx : th_holds th = true -> rc_mtx c = Some t;
  co_own : th_owns th = true -> o = Some t;
  co_ready : th_ready th = true -> rc_seq c = th_seq th /\ rc_rep c = th_rep th;
  co_busy : th_stage th = SClear \/ th_stage th = SSend -> rc_status c = HREQUEST_CTX_STATUS_BUSY;
  co_done : th_stage th = SIdle -> th_ret th = 0 -> rc_status c = HREQUEST_CTX_STATUS_DONE;
  co_empty : th_ready th = true -> rc_status c = HREQUEST_CTX_STATUS_BUSY ->
    match pu with None => d = [] | Some m => m ∈ recv /\ msg_seq m = th_seq th /\ d = resp_payload m end;
  co_full : th_ready th = true -> rc_status c = HREQUEST_CTX_STATUS_DONE -> delivered recv th d;
  co_end : th_finished th = true ->
    (d = [] \/ delivered recv th d) /\ (th_ret th = 0 -> delivered recv th d) /\
    (th_stage th = SDone -> th_result th = reply_code (th_ret th));
  co_ret : (th_stage th <> SWake -> th_stage th <> SIdle -> th_finished th = false -> th_ret th = 0) /\
    (th_ret th = 0 \/ th_ret th = ETIMEDOUT \/
     th_ret th = EINVAL /\ timespec_valid (th_ts th) = false);
  co_spin : timespec_valid (th_ts th) = false ->
    th_stage th <> SWait /\ th_stage th <> SWake /\
    (th_stage th = SLoop -> rc_status c = HREQUEST_CTX_STATUS_BUSY) /\
    (th_stage th = SIdle -> rc_status c = HREQUEST_CTX_STATUS_BUSY /\ th_ret th = EINVAL) /\
    (th_finished th = true -> d = [] /\ th_ret th = EINVAL)
}.

Record rq_inv s own : Prop := {
  ri_count : exists k, 0 <= k /\ r_count s = 2 ^ k;
  ri_len : Z.of_nat (length (r_slots s)) = r_count s;
  ri_call t th c : r_threads s !! t = Some th -> r_slots s !! slot_of s (th_seq th) = Some c ->
    call_ok (r_recv s) (pushed_to s (slot_of s (th_seq th))) t th c
      (own !! slot_of s (th_seq th)) (reply s th);
  ri_buf t th : r_threads s !! t = Some th ->
    t <> 0 /\ exists b, r_bufs s !! th_rep th = Some b /\ hbuf_live b;
  ri_distinct t th t' th' : r_threads s !! t = Some th -> r_threads s !! t' = Some th' ->
    th_rep th = th_rep th' -> t = t';
  ri_status i c : r_slots s !! i = Some c ->
    (rc_status c = HREQUEST_CTX_STATUS_IDLE <-> own !! i = None) /\
    (rc_status c = HREQUEST_CTX_STATUS_IDLE \/ rc_status c = HREQUEST_CTX_STATUS_BUSY \/
     rc_status c = HREQUEST_CTX_STATUS_DONE);
  ri_mtx i c t : r_slots s !! i = Some c -> rc_mtx c = Some t ->
    (t = 0 /\ exists m, io_holds (r_io s) = Some m /\ slot_of s (msg_seq m) = i) \/
    (t <> 0 /\ exists th, r_threads s !! t = Some th /\ slot_of s (th_seq th) = i /\ th_holds th = true);
  ri_own i t : own !! i = Some t ->
    exists th, r_threads s !! t = Some th /\ slot_of s (th_seq th) = i /\ th_owns th = true;
  ri_io_mtx m c : io_holds (r_io s) = Some m -> r_slots s !! slot_of s (msg_seq m) = Some c ->
    rc_mtx c = Some 0;
  ri_io_push m c : io_pushing (r_io s) = Some m -> r_slots s !! slot_of s (msg_seq m) = Some c ->
    rc_status c = HREQUEST_CTX_STATUS_BUSY /\ msg_seq m = rc_seq c;
  ri_recv m : io_msg (r_io s) = Some m -> m ∈ r_recv s
}.

Lemma slot_of_lt s own seq : rq_inv s own -> (slot_of s seq < length (r_slots s))%nat.
Proof.
  intros I. destruct (ri_count s own I) as (k & Hk & Hc). pose proof (ri_len s own I) as Hl.
  unfold slot_of. rewrite Hc, land_mask by done. pose proof (Z.mod_pos_bound seq (2 ^ k)). lia.
Qed.

Lemma slot_of_Some s own seq : rq_inv s own -> exists c, r_slots s !! slot_of s seq = Some c.
Proof. intros I. apply lookup_lt_is_Some_2. by eapply slot_of_lt. Qed.

(** ** The initial state *)

Lemma rq_init_inv id k : rq_inv (rq_init id k) ∅.
Proof.
  split; cbn.
  - exists (Z.of_nat k). split; [lia|done].
  - rewrite length_replicate. lia.
  - intros t th c. by rewrite lookup_empty.
  - intros t th. by rewrite lookup_empty.
  - intros t th t' th'. by rewrite lookup_empty.
  - intros i c Hc. apply lookup_replicate in Hc as [-> _]. cbn. rewrite lookup_empty. by repeat split; left.
  - intros i c t Hc. apply lookup_replicate in Hc as [-> _]. done.
  - intros i t. by rewrite lookup_empty.
  - done.
  - done.
  - done.
Qed.

(** ** A step of a requester *)

(** A field of the slot that only its user [t] may change. *)
Definition excl (t : Z) (a b : option Z) : Prop :=
  b = a \/ ((a = None \/ a = Some t) /\ (b = None \/ b = Some t)).

Lemma excl_other t t' a b : excl t a b -> t' <> t -> a = Some t' -> b = Some t'.
Proof. unfold excl. intros [->|[[->| ->] _]] Hne E; congruence. Qed.
Lemma excl_back t t' a b : excl t a b -> t' <> t -> b = Some t' -> a = Some t'.
Proof. unfold excl. intros [->|[_ [->| ->]]] Hne E; congruence. Qed.

Definition same_slot c c' : Prop :=
  rc_seq c' = rc_seq c /\ rc_rep c' = rc_rep c /\ rc_status c' = rc_status c.

Definition own_set (i : nat) (o : option Z) own : gmap nat Z := partial_alter (fun _ => o) i own.

Lemma own_set_eq i o own : own_set i o own !! i = o.
Proof. apply lookup_partial_alter_eq. Qed.
Lemma own_set_ne i j o own : i <> j -> own_set i o own !! j = own !! j.
Proof. apply lookup_partial_alter_ne. Qed.
Lemma own_set_id i own : own_set i (own !! i) own = own.
Proof. apply partial_alter_self. Qed.

(** The slot of another call after the step. *)
Lemma call_ok_other recv pu t t2 th2 c c' o o' d :
  call_ok recv pu t2 th2 c o d -> t2 <> t ->
  excl t (rc_mtx c) (rc_mtx c') -> excl t o o' ->
  (same_slot c c' \/ (o = None \/ o = Some t)) ->
  call_ok recv pu t2 th2 c' o' d.
Proof.
  intros [H1 H2 H3 H4 H5 H6 H7 H8 H9 H10] Hne Hm Ho Hs.
  assert (th_owns th2 = true -> same_slot c c') as Hsame.
  { intros Hw. destruct Hs as [Hs|[Hs|Hs]]; [done|..]; rewrite (H2 Hw) in Hs; congruence. }
  split.
  - intros Hh. apply (excl_other t t2 _ _ Hm Hne). by apply H1.
  - intros Hw. apply (excl_other t t2 _ _ Ho Hne). by apply H2.
  - intros Hr. destruct (Hsame (ready_owns _ Hr)) as (-> & -> & _). by apply H3.
  - intros Hst. destruct (Hsame ltac:(unfold th_owns; by destruct Hst as [->| ->])) as (_ & _ & ->). by apply H4.
  - intros Hst. destruct (Hsame ltac:(unfold th_owns; by rewrite Hst)) as (_ & _ & ->). by apply H5.
  - intros Hr. destruct (Hsame (ready_owns _ Hr)) as (_ & _ & ->). by apply H6.
  - intros Hr. destruct (Hsame (ready_owns _ Hr)) as (_ & _ & ->). by apply H7.
  - done.
  - done.
  - intros Hv. destruct (H10 Hv) as (E1 & E2 & E3 & E4 & E5). split; [done|]. split; [done|].
    split; [|split; [|done]]; intros Hst;
      destruct (Hsame ltac:(unfold th_owns; by rewrite Hst)) as (_ & _ & ->); auto.
Qed.

Section thread.
Context (s : rstate) (own : gmap nat Z) (t : Z) (th th' : rthread) (c c' : hrequest_ctx_t)
  (o' : option Z) (bufs' : gmap Z hbuf_t).
Let i := slot_of s (th_seq th').
Let s' := upd t th' i c' bufs' s.
Context (I : rq_inv s own) (Ht : r_threads s !! t = Some th) (Hc : r_slots s !! i = Some c)
  (Hrep : th_rep th' = th_rep th)
  (Hseq : th_seq th' = th_seq th \/ (th_holds th = false /\ th_owns th = false))
  (Hm : excl t (rc_mtx c) (rc_mtx c')) (Ho : excl t (own !! i) o')
  (Hmh : rc_mtx c' = Some t -> th_holds th' = true) (Hoh : o' = Some t -> th_owns th' = true)
  (Hs : same_slot c c' \/ (rc_mtx c = Some t /\ (own !! i = None \/ own !! i = Some t)))
  (Hst : (rc_status c' = HREQUEST_CTX_STATUS_IDLE <-> o' = None) /\
     (rc_status c' = HREQUEST_CTX_STATUS_IDLE \/ rc_status c' = HREQUEST_CTX_STATUS_BUSY \/
      rc_status c' = HREQUEST_CTX_STATUS_DONE))
  (Hb : forall a, a <> th_rep th -> bufs' !! a = r_bufs s !! a)
  (Hbt : exists b, bufs' !! th_rep th = Some b /\ hbuf_live b)
  (Hco : call_ok (r_recv s) (pushed_to s i) t th' c' o' (from_option hbuf_data [] (bufs' !! th_rep th'))).

Lemma upd_slot_eq : r_slots s' !! i = Some c'.
Proof. apply list_lookup_insert_eq. by eapply lookup_lt_Some. Qed.
Lemma upd_slot_ne j : j <> i -> r_slots s' !! j = r_slots s !! j.
Proof. intros Hne. by apply list_lookup_insert_ne. Qed.
Lemma upd_th_eq : r_threads s' !! t = Some th'.
Proof. apply lookup_insert_eq. Qed.
Lemma upd_th_ne t2 : t2 <> t -> r_threads s' !! t2 = r_threads s !! t2.
Proof. intros Hne. by apply lookup_insert_ne. Qed.

(** A call that holds or owns another slot is another call. *)
Lemma upd_not_t t2 th2 :
  r_threads s !! t2 = Some th2 -> slot_of s (th_seq th2) <> i ->
  th_holds th2 = true \/ th_owns th2 = true -> t2 <> t.
Proof.
  intros E Hne Hho ->. rewrite Ht in E. injection E as <-.
  destruct Hseq as [Hq|[Hq1 Hq2]]; [by unfold i in Hne; rewrite Hq in Hne|destruct Hho; congruence].
Qed.

Lemma upd_reply t2 th2 : t2 <> t -> r_threads s !! t2 = Some th2 -> reply s' th2 = reply s th2.
Proof.
  intros Hne E2. unfold reply. change (r_bufs s') with bufs'. rewrite Hb; [done|].
  intros E. apply Hne. by apply (ri_distinct s own I t2 th2 t th).
Qed.

Lemma upd_call t2 th2 c2 :
  r_threads s' !! t2 = Some th2 -> r_slots s' !! slot_of s (th_seq th2) = Some c2 ->
  call_ok (r_recv s) (pushed_to s (slot_of s (th_seq th2))) t2 th2 c2
    (own_set i o' own !! slot_of s (th_seq th2)) (reply s' th2).
Proof.
  intros E2 Hc2. destruct (decide (t2 = t)) as [->|Hne].
  { rewrite upd_th_eq in E2. injection E2 as <-. fold i in Hc2 |- *. rewrite upd_slot_eq in Hc2.
    injection Hc2 as <-. rewrite own_set_eq. exact Hco. }
  rewrite (upd_th_ne t2 Hne) in E2. rewrite (upd_reply t2 th2 Hne E2).
  destruct (decide (slot_of s (th_seq th2) = i)) as [Hsi|Hsi].
  - rewrite Hsi in *. rewrite upd_slot_eq in Hc2. injection Hc2 as <-. rewrite own_set_eq.
    pose proof (ri_call s own I t2 th2 c E2) as Hcall. rewrite Hsi in Hcall.
    apply (call_ok_other _ _ t t2 th2 c c' (own !! i) o'); [by apply Hcall|done|done|done|].
    destruct Hs as [Hs'|[_ Hs']]; [by left|by right].
  - rewrite (upd_slot_ne _ Hsi) in Hc2. rewrite own_set_ne by done. by apply (ri_call s own I).
Qed.

Lemma upd_buf t2 th2 :
  r_threads s' !! t2 = Some th2 -> t2 <> 0 /\ exists b, bufs' !! th_rep th2 = Some b /\ hbuf_live b.
Proof.
  intros E2. destruct (decide (t2 = t)) as [->|Hne].
  - rewrite upd_th_eq in E2. injection E2 as <-. rewrite Hrep.
    split; [apply (ri_buf s own I t th Ht)|done].
  - rewrite (upd_th_ne t2 Hne) in E2. destruct (ri_buf s own I t2 th2 E2) as [H0 Hb2]. split; [done|].
    rewrite Hb; [done|]. intros E. apply Hne. by apply (ri_distinct s own I t2 th2 t th).
Qed.

Lemma upd_distinct t2 th2 t3 th3 :
  r_threads s' !! t2 = Some th2 -> r_threads s' !! t3 = Some th3 -> th_rep th2 = th_rep th3 -> t2 = t3.
Proof.
  intros E2 E3 E. pose proof (ri_distinct s own I) as Hd.
  destruct (decide (t2 = t)) as [->|Hn2], (decide (t3 = t)) as [->|Hn3]; [done|..].
  - rewrite upd_th_eq in E2. injection E2 as <-. rewrite (upd_th_ne t3 Hn3) in E3. rewrite Hrep in E.
    by apply (Hd t th t3 th3).
  - rewrite upd_th_eq in E3. injection E3 as <-. rewrite (upd_th_ne t2 Hn2) in E2. rewrite Hrep in E.
    by apply (Hd t2 th2 t th).
  - rewrite (upd_th_ne t2 Hn2) in E2. rewrite (upd_th_ne t3 Hn3) in E3. by apply (Hd t2 th2 t3 th3).
Qed.

(** The holder of a mutex, and the owner of a slot, after the step. *)
Lemma upd_mtx j cj t2 :
  r_slots s' !! j = Some cj -> rc_mtx cj = Some t2 ->
  (t2 = 0 /\ exists m, io_holds (r_io s) = Some m /\ slot_of s (msg_seq m) = j) \/
  (t2 <> 0 /\ exists th2, r_threads s' !! t2 = Some th2 /\ slot_of s (th_seq th2) = j /\ th_holds th2 = true).
Proof.
  intros Hcj Hmj. destruct (decide (j = i)) as [->|Hne].
  - rewrite upd_slot_eq in Hcj. injection Hcj as <-. destruct (decide (t2 = t)) as [->|Hne].
    + right. split; [apply (ri_buf s own I t th Ht)|]. exists th'. split; [apply upd_th_eq|].
      split; [done|by apply Hmh].
    + apply (excl_back t t2 _ _ Hm Hne) in Hmj.
      destruct (ri_mtx s own I i c t2 Hc Hmj) as [H|(H0 & th2 & E2 & H)]; [by left|].
      right. split; [done|]. exists th2. by rewrite (upd_th_ne t2 Hne).
  - rewrite (upd_slot_ne j Hne) in Hcj.
    destruct (ri_mtx s own I j cj t2 Hcj Hmj) as [H|(H0 & th2 & E2 & Hj2 & Hh2)]; [by left|].
    right. split; [done|]. exists th2.
    rewrite (upd_th_ne t2) by (apply (upd_not_t t2 th2 E2); [by rewrite Hj2|by left]). done.
Qed.

Lemma upd_own j t2 :
  own_set i o' own !! j = Some t2 ->
  exists th2, r_threads s' !! t2 = Some th2 /\ slot_of s (th_seq th2) = j /\ th_owns th2 = true.
Proof.
  intros Hoj. destruct (decide (j = i)) as [->|Hne].
  - rewrite own_set_eq in Hoj. destruct (decide (t2 = t)) as [->|Hne].
    + exists th'. split; [apply upd_th_eq|]. split; [done|by apply Hoh].
    + apply (excl_back t t2 _ _ Ho Hne) in Hoj. destruct (ri_own s own I i t2 Hoj) as (th2 & E2 & H).
      exists th2. by rewrite (upd_th_ne t2 Hne).
  - rewrite own_set_ne in Hoj by done. destruct (ri_own s own I j t2 Hoj) as (th2 & E2 & Hj2 & Ho2).
    exists th2. rewrite (upd_th_ne t2) by (apply (upd_not_t t2 th2 E2); [by rewrite Hj2|by right]). done.
Qed.

(** The slot of the response that the I/O thread is handling. *)
Lemma upd_io_kept m cm :
  io_holds (r_io s) = Some m -> r_slots s' !! slot_of s (msg_seq m) = Some cm ->
  rc_mtx cm = Some 0 /\
  (io_pushing (r_io s) = Some m -> rc_status cm = HREQUEST_CTX_STATUS_BUSY /\ msg_seq m = rc_seq cm).
Proof.
  intros Hio Hcm. destruct (decide (slot_of s (msg_seq m) = i)) as [Hsi|Hsi].
  - rewrite Hsi, upd_slot_eq in Hcm. injection Hcm as <-.
    assert (r_slots s !! slot_of s (msg_seq m) = Some c) as Hcm by by rewrite Hsi.
    pose proof (ri_io_mtx s own I m c Hio Hcm) as H0.
    destruct (ri_buf s own I t th Ht) as [Ht0 _].
    split; [by apply (excl_other t 0 _ _ Hm (not_eq_sym Ht0))|]. intros Hp.
    destruct Hs as [(-> & _ & ->)|[H1 _]]; [|congruence]. by apply (ri_io_push s own I m c).
  - rewrite (upd_slot_ne _ Hsi) in Hcm. split; [by apply (ri_io_mtx s own I m)|].
    intros Hp. by apply (ri_io_push s own I m).
Qed.

Lemma inv_upd : rq_inv s' (own_set i o' own).
Proof.
  split.
  - apply I.
  - change (Z.of_nat (length (<[i := c']> (r_slots s))) = r_count s). rewrite length_insert. apply I.
  - exact upd_call.
  - exact upd_buf.
  - exact upd_distinct.
  - intros j cj Hcj. destruct (decide (j = i)) as [->|Hne].
    + rewrite upd_slot_eq in Hcj. injection Hcj as <-. by rewrite own_set_eq.
    + rewrite (upd_slot_ne j Hne) in Hcj. rewrite own_set_ne by done. by apply (ri_status s own I).
  - exact upd_mtx.
  - exact upd_own.
  - intros m cm Hio Hcm. by apply (upd_io_kept m cm).
  - intros m cm Hio Hcm. by apply (upd_io_kept m cm); [apply io_pushing_holds|..].
  - apply (ri_recv s own I).
Qed.
End thread.
(** ** Every step of a requester *)

Lemma upd_id t th i c s : r_slots s !! i = Some c -> upd t th i c (r_bufs s) s = upd_th t th s.
Proof. intros Hc. unfold upd, upd_th. by rewrite list_insert_id. Qed.

Lemma with_sent_inv seq sent s own : rq_inv s own -> rq_inv (with_sent seq sent s) own.
Proof. intros []. by split. Qed.

Lemma excl_same t a : excl t a a.
Proof. by left. Qed.
Lemma same_slot_refl c : same_slot c c.
Proof. done. Qed.

(** A step that changes the thread only. *)
Lemma inv_upd_th s own t th th' c :
  rq_inv s own -> r_threads s !! t = Some th -> r_slots s !! slot_of s (th_seq th) = Some c ->
  th_rep th' = th_rep th -> th_seq th' = th_seq th ->
  th_holds th' = th_holds th -> th_owns th' = th_owns th ->
  call_ok (r_recv s) (pushed_to s (slot_of s (th_seq th))) t th' c
    (own !! slot_of s (th_seq th)) (reply s th) ->
  exists own', rq_inv (upd_th t th' s) own'.
Proof.
  intros I Ht Hc Hrep Hseq Hh Ho Hco. rewrite <- Hseq in Hc, Hco.
  rewrite <- (upd_id t th' _ c s Hc).
  eexists. apply (inv_upd s own t th th' c c (own !! slot_of s (th_seq th')) (r_bufs s)); try done.
  - by left.
  - apply excl_same.
  - apply excl_same.
  - intros Hm. rewrite Hh. destruct (ri_mtx s own I _ c t Hc Hm) as [[-> _]|(_ & th2 & E2 & _ & H2)].
    + by destruct (ri_buf s own I 0 th Ht).
    + rewrite Ht in E2. by injection E2 as <-.
  - intros Hw. rewrite Ho. destruct (ri_own s own I _ t Hw) as (th2 & E2 & _ & H2).
    rewrite Ht in E2. by injection E2 as <-.
  - by left.
  - by apply (ri_status s own I (slot_of s (th_seq th'))).
  - apply (ri_buf s own I t th Ht).
  - by rewrite Hrep.
Qed.

(** A step that changes the slot too: mutex and status. *)
Lemma inv_upd_slot s own t th th' c c' o' :
  rq_inv s own -> r_threads s !! t = Some th -> r_slots s !! slot_of s (th_seq th) = Some c ->
  th_rep th' = th_rep th -> th_seq th' = th_seq th ->
  excl t (rc_mtx c) (rc_mtx c') -> excl t (own !! slot_of s (th_seq th)) o' ->
  (rc_mtx c' = Some t -> th_holds th' = true) -> (o' = Some t -> th_owns th' = true) ->
  (same_slot c c' \/ (rc_mtx c = Some t /\
     (own !! slot_of s (th_seq th) = None \/ own !! slot_of s (th_seq th) = Some t))) ->
  ((rc_status c' = HREQUEST_CTX_STATUS_IDLE <-> o' = None) /\
   (rc_status c' = HREQUEST_CTX_STATUS_IDLE \/ rc_status c' = HREQUEST_CTX_STATUS_BUSY \/
    rc_status c' = HREQUEST_CTX_STATUS_DONE)) ->
  call_ok (r_recv s) (pushed_to s (slot_of s (th_seq th))) t th' c' o' (reply s th) ->
  exists own', rq_inv (upd t th' (slot_of s (th_seq th)) c' (r_bufs s) s) own'.
Proof.
  intros I Ht Hc Hrep Hseq Hm Ho Hmh Hoh Hs Hst Hco. rewrite <- Hseq in *.
  eexists. apply (inv_upd s own t th th' c c' o' (r_bufs s)); try done.
  - by left.
  - apply (ri_buf s own I t th Ht).
  - by rewrite Hrep.
Qed.

(** The call that is in a slot's critical section finds the slot unowned or its
    own. *)
Lemma own_of_idle s own i c :
  rq_inv s own -> r_slots s !! i = Some c -> rc_status c = HREQUEST_CTX_STATUS_IDLE -> own !! i = None.
Proof. intros I Hc Hs. by apply (ri_status s own I i c Hc). Qed.

Lemma pushed_to_holder s own i c t :
  rq_inv s own -> r_slots s !! i = Some c -> rc_mtx c = Some t -> t <> 0 -> pushed_to s i = None.
Proof.
  intros I Hc Hm Ht. unfold pushed_to. destruct (io_pushed (r_io s)) as [m|] eqn:E; [|done]. simpl.
  destruct (decide (slot_of s (msg_seq m) = i)) as [<-|]; [|done]. exfalso. apply Ht.
  pose proof (ri_io_mtx s own I m c (io_pushing_holds _ _ (io_pushed_pushing _ _ E)) Hc). congruence.
Qed.

Lemma pushed_to_free s own i c :
  rq_inv s own -> r_slots s !! i = Some c -> rc_mtx c = None -> pushed_to s i = None.
Proof.
  intros I Hc Hm. unfold pushed_to. destruct (io_pushed (r_io s)) as [m|] eqn:E; [|done]. simpl.
  destruct (decide (slot_of s (msg_seq m) = i)) as [<-|]; [|done]. exfalso.
  pose proof (ri_io_mtx s own I m c (io_pushing_holds _ _ (io_pushed_pushing _ _ E)) Hc). congruence.
Qed.

(** ** The steps, one per stage *)

Lemma inv_own_free s own t th :
  rq_inv s own -> r_threads s !! t = Some th -> th_owns th = false ->
  own !! slot_of s (th_seq th) <> Some t.
Proof.
  intros I Ht Ho E. destruct (ri_own s own I _ t E) as (th2 & E2 & _ & H2).
  rewrite Ht in E2. injection E2 as <-. congruence.
Qed.

Lemma inv_mtx_free s own t th c :
  rq_inv s own -> r_threads s !! t = Some th -> r_slots s !! slot_of s (th_seq th) = Some c ->
  th_holds th = false -> rc_mtx c <> Some t.
Proof.
  intros I Ht Hc Hh E. destruct (ri_mtx s own I _ c t Hc E) as [[-> _]|(_ & th2 & E2 & _ & H2)].
  - by destruct (ri_buf s own I 0 th Ht).
  - rewrite Ht in E2. injection E2 as <-. congruence.
Qed.

(** A call that is neither in its critical section nor finished with it owes
    nothing to the slot. *)
Lemma call_ok_out recv pu t th c o d :
  th_holds th = false -> th_owns th = false -> th_finished th = false -> th_ret th = 0 ->
  call_ok recv pu t th c o d.
Proof.
  intros Hh Ho Hf Hr.
  assert (th_ready th = false) as Hy.
  { destruct (th_ready th) eqn:E; [|done]. apply ready_owns in E. congruence. }
  split; try congruence.
  - intros Hs. exfalso. revert Ho. unfold th_owns. by destruct Hs as [->| ->].
  - intros Hs. exfalso. revert Ho. unfold th_owns. by rewrite Hs.
  - by split; [|left].
  - intros _. assert (forall x, owns_stage x = true -> th_stage th <> x) as Hx.
    { intros x E Hst. revert Ho. unfold th_owns. by rewrite Hst, E. }
    split; [by apply Hx|]. split; [by apply Hx|].
    split; [intros Hst; by destruct (Hx SLoop)|]. split; [intros Hst; by destruct (Hx SIdle)|congruence].
Qed.

(** The fields of [call_ok] that the stage makes vacuous. *)
Ltac call_fields :=
  split; unfold th_holds, th_owns, th_ready, th_finished; cbn;
  try discriminate; try (by intros [?|?]); try done.

Section stages.
Context (s : rstate) (own : gmap nat Z) (t : Z) (th : rthread) (c : hrequest_ctx_t)
  (I : rq_inv s own) (Ht : r_threads s !! t = Some th)
  (Hc : r_slots s !! slot_of s (th_seq th) = Some c).
Let i := slot_of s (th_seq th).
Let co := ri_call s own I t th c Ht Hc.

Lemma stage_ret : th_stage th <> SWake -> th_stage th <> SIdle -> th_finished th = false -> th_ret th = 0.
Proof. apply co. Qed.

Lemma step_seq sent :
  th_stage th = SSeq ->
  exists own', rq_inv (with_sent (u32 (r_seq s + 1)) sent (upd_th t (set_th_seq (r_seq s) th) s)) own'.
Proof.
  intros Hst. destruct (slot_of_Some s own (r_seq s) I) as [c2 Hc2].
  pose proof (stage_ret ltac:(by rewrite Hst) ltac:(by rewrite Hst) ltac:(unfold th_finished; by rewrite Hst)) as Hr.
  assert (th_owns th = false) as Ho by (unfold th_owns; by rewrite Hst).
  assert (th_holds th = false) as Hh by (unfold th_holds; by rewrite Hst).
  set (th' := set_th_seq (r_seq s) th). change (r_seq s) with (th_seq th') in Hc2.
  exists (own_set (slot_of s (th_seq th')) (own !! slot_of s (th_seq th')) own).
  apply with_sent_inv. rewrite <- (upd_id t th' _ c2 s Hc2).
  apply (inv_upd s own t th th' c2 c2); try done.
  - by right.
  - apply excl_same.
  - apply excl_same.
  - intros Hm. exfalso. destruct (ri_mtx s own I _ c2 t Hc2 Hm) as [[-> _]|(_ & th2 & E2 & _ & H2)].
    + by destruct (ri_buf s own I 0 th Ht).
    + rewrite Ht in E2. injection E2 as <-. congruence.
  - intros Hw. exfalso. destruct (ri_own s own I _ t Hw) as (th2 & E2 & _ & H2).
    rewrite Ht in E2. injection E2 as <-. congruence.
  - by left.
  - by apply (ri_status s own I (slot_of s (th_seq th'))).
  - apply (ri_buf s own I t th Ht).
  - by apply call_ok_out.
Qed.

Lemma step_try_ok :
  th_stage th = STry -> rc_mtx c = None ->
  exists own', rq_inv (upd t (set_th SCas (th_ret th) th) i (set_mtx (Some t) c) (r_bufs s) s) own'.
Proof.
  intros Hst Hm.
  pose proof (stage_ret ltac:(by rewrite Hst) ltac:(by rewrite Hst) ltac:(unfold th_finished; by rewrite Hst)) as Hr.
  apply (inv_upd_slot s own t th _ c _ (own !! i)); try done.
  - right. split; [by left|by right].
  - apply excl_same.
  - intros E. exfalso. revert E. apply (inv_own_free s own t th I Ht). unfold th_owns. by rewrite Hst.
  - by left.
  - by apply (ri_status s own I i c).
  - call_fields. by split; [|left].
Qed.

Lemma step_try_busy :
  th_stage th = STry ->
  exists own', rq_inv (upd_th t (set_th_result HNODE_RET_EBUSY th) s) own'.
Proof.
  intros Hst.
  pose proof (stage_ret ltac:(by rewrite Hst) ltac:(by rewrite Hst) ltac:(unfold th_finished; by rewrite Hst)) as Hr.
  apply (inv_upd_th s own t th _ c); try done;
    try (by unfold th_holds, th_owns; rewrite Hst).
  by apply call_ok_out.
Qed.

Lemma step_cas_ok :
  th_stage th = SCas -> rc_status c = HREQUEST_CTX_STATUS_IDLE ->
  exists own', rq_inv (upd t (set_th SClear (th_ret th) th) i
    (set_rstatus HREQUEST_CTX_STATUS_BUSY c) (r_bufs s) s) own'.
Proof.
  intros Hst Hidle.
  pose proof (stage_ret ltac:(by rewrite Hst) ltac:(by rewrite Hst) ltac:(unfold th_finished; by rewrite Hst)) as Hr.
  assert (rc_mtx c = Some t) as Hm by (apply co; unfold th_holds; by rewrite Hst).
  pose proof (own_of_idle s own i c I Hc Hidle) as Ho.
  apply (inv_upd_slot s own t th _ c _ (Some t)); try done.
  - by left.
  - right. split; [by left|by right].
  - right. split; [done|by left].
  - cbn. split; [by split|by right; left].
  - call_fields. by split; [|left].
Qed.

Lemma step_cas_busy :
  th_stage th = SCas ->
  exists own', rq_inv (upd_th t (set_th SUnlockBusy (th_ret th) th) s) own'.
Proof.
  intros Hst.
  pose proof (stage_ret ltac:(by rewrite Hst) ltac:(by rewrite Hst) ltac:(unfold th_finished; by rewrite Hst)) as Hr.
  assert (rc_mtx c = Some t) as Hm by (apply co; unfold th_holds; by rewrite Hst).
  apply (inv_upd_th s own t th _ c); try done;
    try (by unfold th_holds, th_owns; rewrite Hst).
  call_fields. by split; [|left].
Qed.

Lemma step_unlock_busy :
  th_stage th = SUnlockBusy ->
  exists own', rq_inv (upd t (set_th_result HNODE_RET_EBUSY th) i (set_mtx None c) (r_bufs s) s) own'.
Proof.
  intros Hst.
  pose proof (stage_ret ltac:(by rewrite Hst) ltac:(by rewrite Hst) ltac:(unfold th_finished; by rewrite Hst)) as Hr.
  assert (rc_mtx c = Some t) as Hm by (apply co; unfold th_holds; by rewrite Hst).
  apply (inv_upd_slot s own t th _ c _ (own !! i)); try done.
  - right. split; [by right|by left].
  - apply excl_same.
  - intros E. exfalso. revert E. apply (inv_own_free s own t th I Ht). unfold th_owns. by rewrite Hst.
  - by left.
  - by apply (ri_status s own I i c).
  - by apply call_ok_out.
Qed.

Lemma step_clear b :
  th_stage th = SClear -> r_bufs s !! th_rep th = Some b ->
  exists own', rq_inv (upd t (set_th SSend (th_ret th) th) i (set_seq_rep (th_seq th) (th_rep th) c)
    (<[th_rep th := (hbuf_clear b).2]> (r_bufs s)) s) own'.
Proof.
  intros Hst Hb.
  pose proof (stage_ret ltac:(by rewrite Hst) ltac:(by rewrite Hst) ltac:(unfold th_finished; by rewrite Hst)) as Hr.
  assert (rc_mtx c = Some t) as Hm by (apply co; unfold th_holds; by rewrite Hst).
  assert (own !! i = Some t) as Ho by (apply co; unfold th_owns; by rewrite Hst).
  assert (rc_status c = HREQUEST_CTX_STATUS_BUSY) as Hbusy by (apply co; by left).
  destruct (ri_buf s own I t th Ht) as [Ht0 (b0 & Hb0 & Hl)]. rewrite Hb in Hb0. injection Hb0 as <-.
  destruct (hbuf_clear_spec b Hl) as [Hl' Hd'].
  pose proof (pushed_to_holder s own i c t I Hc Hm Ht0) as Hpu.
  eexists. apply (inv_upd s own t th (set_th SSend (th_ret th) th) c _ (own !! i)); try done.
  - by left.
  - by left.
  - apply excl_same.
  - right. split; [done|by right].
  - by apply (ri_status s own I i c).
  - intros a Ha. by apply lookup_insert_ne.
  - exists (hbuf_clear b).2. split; [apply lookup_insert_eq|done].
  - cbn. rewrite lookup_insert_eq. cbn. fold i. rewrite Hpu, Hd'. call_fields.
    + rewrite Hbusy. done.
    + by split; [|left].
Qed.

Lemma step_send ts sent :
  th_stage th = SSend ->
  exists own', rq_inv (with_sent (r_seq s) sent
    (upd_th t (set_th_ts (hnode_time_offset ts (th_timeout th)) th) s)) own'.
Proof.
  intros Hst. destruct co as [H1 H2 H3 H4 H5 H6 H7 H8 H9 H10].
  pose proof (stage_ret ltac:(by rewrite Hst) ltac:(by rewrite Hst) ltac:(unfold th_finished; by rewrite Hst)) as Hr.
  unfold th_holds, th_owns, th_ready in *. rewrite Hst in *.
  edestruct (inv_upd_th s own t th (set_th_ts (hnode_time_offset ts (th_timeout th)) th) c) as [own' I'];
    try done; try (by unfold th_holds, th_owns; rewrite Hst).
  - split; unfold th_holds, th_owns, th_ready, th_finished; cbn; try done; try by intros [?|?].
    + by split; [|left].
    + intros _. split_and!; try done. intros _. apply H4. by right.
  - exists own'. by apply with_sent_inv.
Qed.

Lemma step_loop_wait :
  th_stage th = SLoop -> rc_status c = HREQUEST_CTX_STATUS_BUSY -> timespec_valid (th_ts th) = true ->
  exists own', rq_inv (upd t (set_th SWait (th_ret th) th) i (set_mtx None c) (r_bufs s) s) own'.
Proof.
  intros Hst Hbusy Hv. destruct co as [H1 H2 H3 H4 H5 H6 H7 H8 H9 H10].
  pose proof (stage_ret ltac:(by rewrite Hst) ltac:(by rewrite Hst) ltac:(unfold th_finished; by rewrite Hst)) as Hr.
  unfold th_holds, th_owns, th_ready in *. rewrite Hst in *.
  apply (inv_upd_slot s own t th _ c _ (own !! i)); try done.
  - right. split; [right; by apply H1|by left].
  - apply excl_same.
  - by left.
  - by apply (ri_status s own I i c).
  - split; unfold th_holds, th_owns, th_ready, th_finished; cbn; try done; try by intros [?|?].
    + by split; [|left].
    + congruence.
Qed.

Lemma step_wait ret :
  th_stage th = SWait -> ret = 0 \/ ret = ETIMEDOUT ->
  exists own', rq_inv (upd_th t (set_th SWake ret th) s) own'.
Proof.
  intros Hst Hret. destruct co as [H1 H2 H3 H4 H5 H6 H7 H8 H9 H10].
  unfold th_holds, th_owns, th_ready in *. rewrite Hst in *.
  apply (inv_upd_th s own t th _ c); try done; try (by unfold th_holds, th_owns; rewrite Hst).
  split; unfold th_holds, th_owns, th_ready, th_finished; cbn; try done; try by intros [?|?].
  - split; [done|]. tauto.
  - intros Hv. by destruct (H10 Hv).
Qed.

Lemma step_wake :
  th_stage th = SWake -> rc_mtx c = None ->
  exists own', rq_inv (upd t (set_th (if th_ret th =? 0 then SLoop else SIdle) (th_ret th) th) i
    (set_mtx (Some t) c) (r_bufs s) s) own'.
Proof.
  intros Hst Hm. destruct co as [H1 H2 H3 H4 H5 H6 H7 H8 H9 H10].
  unfold th_holds, th_owns, th_ready in *. rewrite Hst in *.
  destruct (Z.eqb_spec (th_ret th) 0) as [E|E];
  apply (inv_upd_slot s own t th _ c _ (own !! i)); try done;
    try (right; split; [by left|by right]); try apply excl_same; try (by left);
    try (by apply (ri_status s own I i c));
    (split; unfold th_holds, th_owns, th_ready, th_finished; cbn; try done; try by intros [?|?]).
  all: try (intros Hv; by destruct (H10 Hv) as (_ & ? & _)).
  all: split; [done|by apply H9].
Qed.

Lemma step_loop_exit ret :
  th_stage th = SLoop ->
  (rc_status c <> HREQUEST_CTX_STATUS_BUSY /\ ret = th_ret th) \/
  (ret = EINVAL /\ timespec_valid (th_ts th) = false) ->
  exists own', rq_inv (upd_th t (set_th SIdle ret th) s) own'.
Proof.
  intros Hst Hret. destruct co as [H1 H2 H3 H4 H5 H6 H7 H8 H9 H10].
  pose proof (stage_ret ltac:(by rewrite Hst) ltac:(by rewrite Hst) ltac:(unfold th_finished; by rewrite Hst)) as Hr.
  unfold th_holds, th_owns, th_ready in *. rewrite Hst in *.
  assert (rc_status c <> HREQUEST_CTX_STATUS_IDLE) as Hn.
  { rewrite (proj1 (ri_status s own I _ c Hc)), (H2 eq_refl). done. }
  apply (inv_upd_th s own t th _ c); try done; try (by unfold th_holds, th_owns; rewrite Hst).
  split; unfold th_holds, th_owns, th_ready, th_finished; cbn; try done; try by intros [?|?].
  - intros _ H0. destruct Hret as [[Hb _]|[-> _]]; [|done].
    destruct (ri_status s own I _ c Hc) as [_ Hx]. tauto.
  - split; [done|]. destruct Hret as [[_ ->]|[-> Hv]]; [by left|by right; right].
  - intros Hv. destruct (H10 Hv) as (_ & _ & Hb & _). specialize (Hb eq_refl). split_and!; try done.
    intros _. split; [done|]. by destruct Hret as [[? _]|[? _]].
Qed.

Lemma step_idle :
  th_stage th = SIdle ->
  exists own', rq_inv (upd t (set_th SUnlock (th_ret th) th) i
    (set_rstatus HREQUEST_CTX_STATUS_IDLE c) (r_bufs s) s) own'.
Proof.
  intros Hst. destruct (ri_buf s own I t th Ht) as [Ht0 _].
  assert (rc_mtx c = Some t) as Hm by (apply co; unfold th_holds; by rewrite Hst).
  pose proof (pushed_to_holder s own _ c t I Hc Hm Ht0) as Hpu.
  destruct co as [H1 H2 H3 H4 H5 H6 H7 H8 H9 H10].
  unfold th_holds, th_owns, th_ready in *. rewrite Hst in *. rewrite Hpu in *.
  assert (rc_status c <> HREQUEST_CTX_STATUS_IDLE) as Hn.
  { rewrite (proj1 (ri_status s own I _ c Hc)), (H2 eq_refl). done. }
  destruct (ri_status s own I _ c Hc) as [_ Hx].
  apply (inv_upd_slot s own t th _ c _ None); try done.
  - by left.
  - right. split; [right; by apply H2|by left].
  - right. split; [done|right; by apply H2].
  - cbn. by split; [|left].
  - split; unfold th_holds, th_owns, th_ready, th_finished; cbn; try done; try by intros [?|?].
    + intros _. split; [|split; [|done]].
      * destruct Hx as [Hx|[Hx|Hx]]; [done|left; by apply H6|right; by apply H7].
      * intros E. apply H7; [done|]. by apply H5.
    + split; [done|by apply H9].
    + intros Hv. destruct (H10 Hv) as (_ & _ & _ & Hb & _). destruct (Hb eq_refl). split_and!; try done.
      intros _. split; [by apply H6|done].
Qed.

Lemma step_unlock :
  th_stage th = SUnlock ->
  exists own', rq_inv (upd t (set_th_result (reply_code (th_ret th)) th) i
    (set_mtx None c) (r_bufs s) s) own'.
Proof.
  intros Hst. assert (rc_mtx c = Some t) as Hm by (apply co; unfold th_holds; by rewrite Hst).
  assert (own !! i <> Some t) as Hno.
  { apply (inv_own_free s own t th I Ht). unfold th_owns. by rewrite Hst. }
  destruct co as [H1 H2 H3 H4 H5 H6 H7 H8 H9 H10].
  assert (th_finished th = true) as Hf by (unfold th_finished; by rewrite Hst).
  destruct (H8 Hf) as (E1 & E2 & _).
  apply (inv_upd_slot s own t th _ c _ (own !! i)); try done.
  - right. split; [by right|by left].
  - apply excl_same.
  - by left.
  - by apply (ri_status s own I i c).
  - split; unfold th_holds, th_owns, th_ready; cbn; try done; try by intros [?|?].
    2:{ intros Hv. destruct (H10 Hv) as (_ & _ & _ & _ & He). split_and!; try done. intros _. by apply He. }
    split; [|by apply H9]. intros _ _. unfold th_finished. cbn. unfold reply_code.
    by destruct (ETIMEDOUT =? th_ret th).
Qed.

End stages.

(** [thread_step] never faults and preserves the invariant. *)
Lemma thread_step_inv s own t ch :
  rq_inv s own ->
  exists o, thread_step t ch s = Ok o /\
    forall s', o = Some s' -> exists own', rq_inv s' own'.
Proof.
  intros I. unfold thread_step. destruct (r_threads s !! t) as [th|] eqn:Ht; [|by eexists].
  destruct (slot_of_Some s own (th_seq th) I) as [c Hc]. rewrite Hc.
  destruct (th_stage th) eqn:Hst, ch; try (by eexists; split; [done|]).
  - eexists; split; [done|]. intros s' [= <-]. by eapply step_seq.
  - destruct (rc_mtx c) eqn:Hm; (eexists; split; [done|]); intros s' [= <-];
      [by eapply step_try_busy|by eapply step_try_ok].
  - destruct (Z.eqb_spec (rc_status c) HREQUEST_CTX_STATUS_IDLE);
      (eexists; split; [done|]); intros s' [= <-]; [by eapply step_cas_ok|by eapply step_cas_busy].
  - eexists; split; [done|]. intros s' [= <-]. by eapply step_unlock_busy.
  - destruct (ri_buf s own I t th Ht) as [_ (b & Hb & _)]. rewrite Hb.
    eexists; split; [done|]. intros s' [= <-]. by eapply step_clear.
  - eexists; split; [done|]. intros s' [= <-]. by eapply step_send.
  - destruct (Z.eqb_spec HREQUEST_CTX_STATUS_BUSY (rc_status c)) as [E|E];
      [destruct (timespec_valid (th_ts th)) eqn:Hv|]; (eexists; split; [done|]); intros s' [= <-].
    + eapply step_loop_wait; done.
    + eapply step_loop_exit; [done..|]. by right.
    + eapply step_loop_exit; [done..|]. left. by split.
  - destruct (Z.eqb_spec ret 0) as [E|E]; [|destruct (Z.eqb_spec ret ETIMEDOUT) as [E2|E2]];
      cbn [orb]; (eexists; split; [done|]); intros s' [= <-]; eapply step_wait; try done; tauto.
  - destruct (rc_mtx c) eqn:Hm; (eexists; split; [done|]); intros s' [= <-]. by eapply step_wake.
  - eexists; split; [done|]. intros s' [= <-]. by eapply step_idle.
  - eexists; split; [done|]. intros s' [= <-]. by eapply step_unlock.
Qed.

(** ** Steps of the I/O thread *)

(** While the I/O thread holds the mutex of a slot in use, its owner waits and
    has registered its number and its buffer. *)
Lemma slot_owner s own i c :
  rq_inv s own -> r_slots s !! i = Some c -> rc_mtx c = Some 0 ->
  rc_status c <> HREQUEST_CTX_STATUS_IDLE ->
  exists t th, own !! i = Some t /\ r_threads s !! t = Some th /\ slot_of s (th_seq th) = i /\
    th_ready th = true /\ rc_rep c = th_rep th /\ rc_seq c = th_seq th.
Proof.
  intros I Hc Hm Hs. destruct (own !! i) as [t|] eqn:Ho.
  2:{ exfalso. by apply Hs, (ri_status s own I i c Hc). }
  destruct (ri_own s own I i t Ho) as (th & Ht & <- & Hw).
  pose proof (ri_call s own I t th c Ht Hc) as co.
  assert (th_ready th = true) as Hr.
  { destruct (th_ready th) eqn:Hr; [done|]. exfalso.
    assert (th_holds th = true) as Hh.
    { revert Hw Hr. unfold th_owns, th_ready, th_holds. by destruct (th_stage th). }
    pose proof (co_mtx _ _ _ _ _ _ _ co Hh) as E. destruct (ri_buf s own I t th Ht) as [H0 _]. congruence. }
  destruct (co_ready _ _ _ _ _ _ _ co Hr). exists t, th. by split_and!.
Qed.

Lemma pushed_to_none s i : io_pushed (r_io s) = None -> pushed_to s i = None.
Proof. intros E. unfold pushed_to. by rewrite E. Qed.

Lemma pushed_to_at s m : io_pushed (r_io s) = Some m -> pushed_to s (slot_of s (msg_seq m)) = Some m.
Proof. intros E. unfold pushed_to. rewrite E. simpl. by case_decide. Qed.

Lemma pushed_to_other s m i :
  io_pushed (r_io s) = Some m -> slot_of s (msg_seq m) <> i -> pushed_to s i = None.
Proof. intros E Hn. unfold pushed_to. rewrite E. simpl. by case_decide. Qed.

(** The other calls on a slot that has an owner. *)
Lemma call_ok_pu recv pu pu' t th c o d :
  call_ok recv pu t th c o d -> o <> Some t -> call_ok recv pu' t th c o d.
Proof.
  intros [H1 H2 H3 H4 H5 H6 H7 H8 H9 H10] Ho. split; try done.
  intros Hr. exfalso. by apply Ho, H2, ready_owns.
Qed.

(** The owner of the slot when the response is pushed. *)
Lemma call_ok_answered recv m t th c o d :
  call_ok recv None t th c o d -> th_ready th = true -> rc_status c = HREQUEST_CTX_STATUS_BUSY ->
  m ∈ recv -> msg_seq m = th_seq th -> call_ok recv (Some m) t th c o (resp_payload m).
Proof.
  intros [H1 H2 H3 H4 H5 H6 H7 H8 H9 H10] Hr Hbusy Hm Hq.
  assert (th_finished th = false) as Hf.
  { revert Hr. unfold th_finished, th_ready. by destruct (th_stage th). }
  split; try done; try congruence.
  - intros _. by rewrite Hbusy.
  - intros Hv. destruct (H10 Hv) as (E1 & E2 & E3 & E4 & _). rewrite Hf. by split_and!.
Qed.

Lemma push_empty b d :
  hbuf_live b -> hbuf_data b = [] ->
  hbuf_live (hbuf_push b d).2 /\ hbuf_data (hbuf_push b d).2 = d.
Proof.
  intros Hl E. destruct (hbuf_push b d) as [r b'] eqn:Ep.
  destruct (hbuf_push_spec _ _ _ _ Hl Ep) as [Hl' Hd]. split; [done|]. cbn. rewrite E in Hd.
  destruct Hd as [[_ Hd]|[Hr Hd]]; [done|]. rewrite Hd. destruct d; [done|]. exfalso. apply Hr.
  pose proof (hbuf_push_total b (z :: d) Hl ltac:(done)) as Ht. by rewrite Ep in Ht.
Qed.

Section io.
Context (s : rstate) (own : gmap nat Z) (msg : hmsg_t) (io' : io_stage) (c c' : hrequest_ctx_t)
  (bufs' : gmap Z hbuf_t).
Let j := slot_of s (msg_seq msg).
Let s' := upd_io io' j c' bufs' s.

Lemma inv_upd_io :
  rq_inv s own -> io_msg (r_io s) = Some msg -> r_slots s !! j = Some c ->
  excl 0 (rc_mtx c) (rc_mtx c') ->
  (rc_mtx c' = Some 0 -> io_holds io' = Some msg) ->
  (forall m, io_holds io' = Some m -> m = msg /\ rc_mtx c' = Some 0) ->
  (forall m, io_pushing io' = Some m -> rc_status c' = HREQUEST_CTX_STATUS_BUSY /\ msg_seq m = rc_seq c') ->
  (forall m, io_msg io' = Some m -> m = msg) ->
  (io_holds (r_io s) = None \/ io_holds (r_io s) = Some msg) ->
  ((rc_status c' = HREQUEST_CTX_STATUS_IDLE <-> rc_status c = HREQUEST_CTX_STATUS_IDLE) /\
   (rc_status c' = rc_status c \/ rc_status c' = HREQUEST_CTX_STATUS_DONE)) ->
  (forall a b, r_bufs s !! a = Some b -> hbuf_live b -> exists b', bufs' !! a = Some b' /\ hbuf_live b') ->
  (forall t th ct, r_threads s !! t = Some th -> r_slots s !! slot_of s (th_seq th) = Some ct ->
    call_ok (r_recv s) (pushed_to s' (slot_of s (th_seq th))) t th
      (if decide (slot_of s (th_seq th) = j) then c' else ct)
      (own !! slot_of s (th_seq th)) (reply s' th)) ->
  rq_inv s' own.
Proof.
  intros I Hio Hc Hm Hmh Hhm Hph Hmsg Hold [Hst1 Hst2] Hb Hco.
  assert (j < length (r_slots s))%nat as Hj by by eapply lookup_lt_Some.
  assert (r_slots s' !! j = Some c') as Hj' by by apply list_lookup_insert_eq.
  assert (forall i, i <> j -> r_slots s' !! i = r_slots s !! i) as Hne
    by (intros i Hn; by apply list_lookup_insert_ne).
  split.
  - apply I.
  - change (Z.of_nat (length (<[j := c']> (r_slots s))) = r_count s). rewrite length_insert. apply I.
  - intros t th ct Ht Hct. change (slot_of s' (th_seq th)) with (slot_of s (th_seq th)) in *.
    destruct (slot_of_Some s own (th_seq th) I) as [c0 Hc0].
    specialize (Hco t th c0 Ht Hc0). revert Hco.
    case_decide as Hd.
    + rewrite Hd, Hj' in Hct. by injection Hct as <-.
    + rewrite (Hne _ Hd), Hc0 in Hct. by injection Hct as <-.
  - intros t th Ht. destruct (ri_buf s own I t th Ht) as [H0 (b & E & Hl)]. split; [done|].
    by apply (Hb _ b).
  - apply (ri_distinct s own I).
  - intros i ci Hci. destruct (decide (i = j)) as [->|Hn].
    + rewrite Hj' in Hci. injection Hci as <-. destruct (ri_status s own I j c Hc) as [H1 H2].
      split; [by rewrite Hst1|]. destruct Hst2 as [->| ->]; tauto.
    + rewrite (Hne i Hn) in Hci. by apply (ri_status s own I).
  - intros i ci t Hci Hmi. destruct (decide (i = j)) as [->|Hn].
    + rewrite Hj' in Hci. injection Hci as <-. destruct (decide (t = 0)) as [->|H0].
      * left. split; [done|]. exists msg. by split; [apply Hmh|].
      * apply (excl_back 0 t _ _ Hm H0) in Hmi. destruct (ri_mtx s own I j c t Hc Hmi) as [[? _]|H]; [done|by right].
    + rewrite (Hne i Hn) in Hci. destruct (ri_mtx s own I i ci t Hci Hmi) as [[-> (m & E & Ei)]|H]; [|by right].
      exfalso. destruct Hold as [Hold|Hold]; rewrite Hold in E; [done|]. injection E as <-. by apply Hn.
  - apply (ri_own s own I).
  - intros m cm Hm1 Hcm. destruct (Hhm m Hm1) as [-> E]. change (slot_of s' (msg_seq msg)) with j in Hcm.
    rewrite Hj' in Hcm. by injection Hcm as <-.
  - intros m cm Hm1 Hcm. destruct (Hhm m (io_pushing_holds _ _ Hm1)) as [-> E].
    change (slot_of s' (msg_seq msg)) with j in Hcm. rewrite Hj' in Hcm. injection Hcm as <-. by apply Hph.
  - intros m Hm1. rewrite (Hmsg m Hm1). by apply (ri_recv s own I).
Qed.
End io.

(** Locking, the check and unlocking: nothing a call can see changes. *)
Lemma call_ok_io s own msg io' c c' t th ct :
  rq_inv s own -> r_slots s !! slot_of s (msg_seq msg) = Some c ->
  excl 0 (rc_mtx c) (rc_mtx c') -> same_slot c c' ->
  io_pushed (r_io s) = None -> io_pushed io' = None ->
  r_threads s !! t = Some th -> r_slots s !! slot_of s (th_seq th) = Some ct ->
  call_ok (r_recv s) (pushed_to (upd_io io' (slot_of s (msg_seq msg)) c' (r_bufs s) s) (slot_of s (th_seq th)))
    t th (if decide (slot_of s (th_seq th) = slot_of s (msg_seq msg)) then c' else ct)
    (own !! slot_of s (th_seq th)) (reply s th).
Proof.
  intros I Hc Hm Hs Hp Hp' Ht Hct.
  pose proof (ri_call s own I t th ct Ht Hct) as co. rewrite pushed_to_none in co by done.
  rewrite pushed_to_none by done.
  case_decide as Hd; [|done]. rewrite Hd, Hc in Hct. injection Hct as <-.
  eapply (call_ok_other _ _ 0); [done| |done|by left|by left]. by apply (ri_buf s own I t th).
Qed.

Section io_stages.
Context (s : rstate) (own : gmap nat Z) (msg : hmsg_t) (c : hrequest_ctx_t)
  (I : rq_inv s own) (Hc : r_slots s !! slot_of s (msg_seq msg) = Some c).
Let j := slot_of s (msg_seq msg).

(** The steps that push nothing and finish nothing. *)
Lemma io_step_quiet io' c' :
  io_msg (r_io s) = Some msg -> io_pushed (r_io s) = None -> io_pushed io' = None ->
  excl 0 (rc_mtx c) (rc_mtx c') -> same_slot c c' ->
  (rc_mtx c' = Some 0 -> io_holds io' = Some msg) ->
  (forall m, io_holds io' = Some m -> m = msg /\ rc_mtx c' = Some 0) ->
  (forall m, io_pushing io' = Some m -> rc_status c' = HREQUEST_CTX_STATUS_BUSY /\ msg_seq m = rc_seq c') ->
  (forall m, io_msg io' = Some m -> m = msg) ->
  (io_holds (r_io s) = None \/ io_holds (r_io s) = Some msg) ->
  rq_inv (upd_io io' j c' (r_bufs s) s) own.
Proof.
  intros Hio Hp Hp' Hm Hs H1 H2 H3 H4 H5. eapply (inv_upd_io s own msg io' c c'); try done.
  - destruct Hs as (_ & _ & ->). by split; [|left].
  - intros a b Hb Hl. by exists b.
  - intros t th ct Ht Hct. by apply (call_ok_io s own msg io' c c' t th ct).
Qed.

Lemma io_lock :
  r_io s = IoLock msg -> rc_mtx c = None -> rq_inv (upd_io (IoCheck msg) j (set_mtx (Some 0) c) (r_bufs s) s) own.
Proof.
  intros Hio Hm. apply io_step_quiet; rewrite ?Hio; cbn; try done.
  - right. split; [by left|by right].
  - by intros m [= <-].
  - by intros m [= <-].
  - by left.
Qed.

Lemma io_check b io' :
  r_io s = IoCheck msg ->
  ((HREQUEST_CTX_STATUS_BUSY =? rc_status c) && (msg_seq msg =? rc_seq c) = b) ->
  io' = (if b then IoPush msg else IoUnlock msg) ->
  rq_inv (upd_io io' j c (r_bufs s) s) own.
Proof.
  intros Hio Hb ->.
  assert (rc_mtx c = Some 0) as Hm by (apply (ri_io_mtx s own I msg c); [by rewrite Hio|done]).
  apply io_step_quiet; rewrite ?Hio; destruct b; cbn; try done; try (by left); try (by right);
    try (by intros m [= <-]).
  intros m [= <-]. apply andb_true_iff in Hb as [H1 H2]. apply Z.eqb_eq in H1, H2. by split.
Qed.

Lemma io_unlock :
  r_io s = IoUnlock msg -> rq_inv (upd_io IoIdle j (set_mtx None c) (r_bufs s) s) own.
Proof.
  intros Hio.
  assert (rc_mtx c = Some 0) as Hm by (apply (ri_io_mtx s own I msg c); [by rewrite Hio|done]).
  apply io_step_quiet; rewrite ?Hio; cbn; try done.
  - right. split; [by right|by left].
  - by right.
Qed.

Lemma io_push_inv b :
  r_io s = IoPush msg -> r_bufs s !! rc_rep c = Some b ->
  rq_inv (upd_io (IoDone msg) j c (<[rc_rep c := (hbuf_push b (resp_payload msg)).2]> (r_bufs s)) s) own.
Proof.
  intros Hio Hb.
  assert (rc_mtx c = Some 0) as Hm by (apply (ri_io_mtx s own I msg c); [by rewrite Hio|done]).
  destruct (ri_io_push s own I msg c ltac:(by rewrite Hio) Hc) as [Hbusy Hseq].
  destruct (slot_owner s own j c I Hc Hm ltac:(by rewrite Hbusy)) as (t & th & Ho & Ht & Hj & Hr & Hrep & Hsq).
  assert (io_pushed (r_io s) = None) as Hp by (by rewrite Hio).
  destruct (ri_buf s own I t th Ht) as [Ht0 (b0 & Hb0 & Hl)]. rewrite <- Hrep, Hb in Hb0. injection Hb0 as <-.
  pose proof (ri_call s own I t th c Ht ltac:(by rewrite Hj)) as cot. rewrite pushed_to_none in cot by done.
  assert (hbuf_data b = []) as Hemp.
  { pose proof (co_empty _ _ _ _ _ _ _ cot Hr Hbusy) as E0. unfold reply in E0. by rewrite <- Hrep, Hb in E0. }
  destruct (push_empty b (resp_payload msg) Hl Hemp) as [Hl' Hd'].
  set (b' := (hbuf_push b (resp_payload msg)).2) in *.
  eapply (inv_upd_io s own msg (IoDone msg) c c); rewrite ?Hio; try done.
  - by left.
  - by intros m [= <-].
  - by intros m [= <-].
  - by intros m [= <-].
  - by right.
  - by split; [|left].
  - intros a b1 Ha Hla. destruct (decide (a = rc_rep c)) as [->|Hn].
    + exists b'. by rewrite lookup_insert_eq.
    + exists b1. by rewrite lookup_insert_ne.
  - intros t2 th2 ct Ht2 Hct. fold j.
    assert ((if decide (slot_of s (th_seq th2) = j) then c else ct) = ct) as ->.
    { case_decide as Hd; [|done]. rewrite Hd in Hct. unfold j in Hct. rewrite Hc in Hct. by injection Hct. }
    set (s' := upd_io _ _ _ _ _). destruct (decide (t2 = t)) as [->|Hn].
    + rewrite Ht in Ht2. injection Ht2 as <-. rewrite Hj in *. unfold j in Hct.
      rewrite Hc in Hct. injection Hct as <-.
      assert (pushed_to s' j = Some msg) as -> by exact (pushed_to_at s' msg eq_refl).
      assert (reply s' th = resp_payload msg) as ->.
      { unfold reply. cbn. by rewrite <- Hrep, lookup_insert_eq. }
      eapply call_ok_answered; [done..| |by rewrite Hseq]. apply (ri_recv s own I). by rewrite Hio.
    + pose proof (ri_call s own I t2 th2 ct Ht2 Hct) as co. rewrite pushed_to_none in co by done.
      assert (reply s' th2 = reply s th2) as ->.
      { unfold reply. cbn. rewrite lookup_insert_ne; [done|]. rewrite Hrep. intros E. apply Hn. symmetry.
        by apply (ri_distinct s own I t th t2 th2). }
      destruct (decide (slot_of s (th_seq th2) = j)) as [Hd|Hd].
      * eapply call_ok_pu; [done|]. rewrite Hd, Ho. congruence.
      * assert (pushed_to s' (slot_of s (th_seq th2)) = None) as ->; [|done].
        apply (pushed_to_other s' msg); [done|]. intros E. by apply Hd.
Qed.

Lemma io_done_inv :
  r_io s = IoDone msg ->
  rq_inv (upd_io (IoUnlock msg) j (set_rstatus HREQUEST_CTX_STATUS_DONE c) (r_bufs s) s) own.
Proof.
  intros Hio.
  assert (rc_mtx c = Some 0) as Hm by (apply (ri_io_mtx s own I msg c); [by rewrite Hio|done]).
  destruct (ri_io_push s own I msg c ltac:(by rewrite Hio) Hc) as [Hbusy Hseq].
  eapply (inv_upd_io s own msg (IoUnlock msg) c); rewrite ?Hio; try done.
  - by left.
  - by intros m [= <-].
  - by intros m [= <-].
  - by right.
  - cbn. rewrite Hbusy. by split; [|right].
  - intros a b Hb Hl. by exists b.
  - intros t th ct Ht Hct. pose proof (ri_call s own I t th ct Ht Hct) as co.
    destruct (ri_buf s own I t th Ht) as [Ht0 _].
    change (reply (upd_io (IoUnlock msg) j (set_rstatus HREQUEST_CTX_STATUS_DONE c) (r_bufs s) s) th)
      with (reply s th).
    rewrite (pushed_to_none (upd_io (IoUnlock msg) j _ _ s)) by done. fold j. case_decide as Hd.
    + rewrite Hd in *. change j with (slot_of s (msg_seq msg)) in Hct.
      rewrite Hc in Hct. injection Hct as <-.
      assert (pushed_to s j = Some msg) as E by (apply pushed_to_at; by rewrite Hio). rewrite E in co.
      destruct co as [H1 H2 H3 H4 H5 H6 H7 H8 H9 H10]. split; try done.
      * intros Hst. exfalso. apply Ht0. cut (th_holds th = true); [intros Hh; specialize (H1 Hh); congruence|].
        unfold th_holds. by destruct Hst as [->| ->].
      * intros Hr _. exists msg. by apply H6.
      * intros Hv. destruct (H10 Hv) as (E1 & E2 & E3 & E4 & E5).
        assert (forall x, holds_stage x = true -> th_stage th <> x) as Hx.
        { intros x Ex Hst. apply Ht0. cut (th_holds th = true); [intros Hh; specialize (H1 Hh); congruence|].
          unfold th_holds. by rewrite Hst. }
        split_and!; try done; intros Hst; [by destruct (Hx SLoop)|by destruct (Hx SIdle)].
    + rewrite (pushed_to_other s msg) in co; [done|by rewrite Hio|]. intros E. by apply Hd.
Qed.
End io_stages.

(** [io_step] never faults and preserves the invariant. *)
Lemma io_step_inv s own :
  rq_inv s own -> exists o, io_step s = Ok o /\ forall s', o = Some s' -> rq_inv s' own.
Proof.
  intros I. unfold io_step. destruct (io_msg (r_io s)) as [msg|] eqn:Hio; [|by eexists].
  destruct (slot_of_Some s own (msg_seq msg) I) as [c Hc]. rewrite Hc.
  destruct (r_io s) as [|m|m|m|m|m] eqn:E; simpl in Hio; [done|injection Hio as ->..].
  - destruct (rc_mtx c) eqn:Hm; (eexists; split; [done|]); intros s' [= <-]. by apply io_lock.
  - destruct (_ && _) eqn:Hb; (eexists; split; [done|]); intros s' [= <-]; by eapply io_check.
  - destruct (ri_io_push s own I msg c ltac:(by rewrite E) Hc) as [Hbusy Hseq].
    assert (rc_mtx c = Some 0) as Hm by (apply (ri_io_mtx s own I msg c); [by rewrite E|done]).
    destruct (slot_owner s own _ c I Hc Hm ltac:(by rewrite Hbusy)) as (t & th & _ & Ht & _ & _ & Hrep & _).
    destruct (ri_buf s own I t th Ht) as [_ (b & Hb & _)]. rewrite <- Hrep in Hb. rewrite Hb.
    eexists; split; [done|]. intros s' [= <-]. by apply io_push_inv.
  - eexists; split; [done|]. intros s' [= <-]. by apply io_done_inv.
  - eexists; split; [done|]. intros s' [= <-]. by apply io_unlock.
Qed.

(** ** Calls, responses and returns *)

Lemma call_ok_recv recv m pu t th c o d :
  call_ok recv pu t th c o d -> call_ok (m :: recv) pu t th c o d.
Proof.
  assert (forall th d, delivered recv th d -> delivered (m :: recv) th d) as Hd.
  { intros th0 d0 (x & Hx & H). exists x. split; [|done]. by apply elem_of_cons; right. }
  intros [H1 H2 H3 H4 H5 H6 H7 H8 H9 H10]. split; try done.
  - intros Hr Hb. specialize (H6 Hr Hb). destruct pu as [x|]; [|done]. destruct H6 as (Hx & H6).
    split; [by apply elem_of_cons; right|done].
  - intros Hr Hb. by apply Hd, H7.
  - intros Hf. destruct (H8 Hf) as (E1 & E2 & E3). split; [|split; [|done]].
    + destruct E1 as [?|?]; [by left|right; by apply Hd].
    + intros E. by apply Hd, E2.
Qed.

Lemma recv_step_inv s own msg s' :
  rq_inv s own -> recv_step msg s = Some s' -> rq_inv s' own.
Proof.
  intros I. unfold recv_step. destruct (r_io s) eqn:Hio; [|done..]. intros [= <-].
  destruct I as [H1 H2 H3 H4 H5 H6 H7 H8 H9 H10 H11]. split; try done.
  - intros t th c Ht Hc.
    pose proof (call_ok_recv _ msg _ _ _ _ _ _ (H3 t th c Ht Hc)) as co.
    rewrite pushed_to_none in co by (by rewrite Hio). by rewrite pushed_to_none.
  - intros i c t Hc Hm. destruct (H7 i c t Hc Hm) as [[_ (m & E & _)]|H]; [by rewrite Hio in E|by right].
  - cbn. intros m [= ->]. by apply list_elem_of_here.
Qed.

Lemma call_step_inv s own t topic to req rep b timeout s' :
  rq_inv s own -> hbuf_live b -> call_step t topic to req rep b timeout s = Some s' -> rq_inv s' own.
Proof.
  intros I Hb. unfold call_step. destruct ((t =? 0) || _) eqn:Hg; [done|].
  destruct (r_threads s !! t) as [th0|] eqn:Ht; [done|].
  destruct (r_bufs s !! rep) as [b0|] eqn:Hrep; [done|]. intros [= <-].
  apply orb_false_iff in Hg as [Ht0%Z.eqb_neq _].
  assert (forall t2 th2, r_threads s !! t2 = Some th2 -> th_rep th2 <> rep /\ t2 <> t) as Hne.
  { intros t2 th2 E2. destruct (ri_buf s own I t2 th2 E2) as [_ (b2 & E & _)]. split; congruence. }
  split; try apply I; cbn.
  - intros t2 th2 c2 E2 Hc2. destruct (decide (t2 = t)) as [->|Hn].
    + rewrite lookup_insert_eq in E2. injection E2 as <-. by apply call_ok_out.
    + rewrite lookup_insert_ne in E2 by done. unfold reply. cbn.
      rewrite lookup_insert_ne by (apply not_eq_sym; by apply (Hne t2)).
      exact (ri_call s own I t2 th2 c2 E2 Hc2).
  - intros t2 th2 E2. destruct (decide (t2 = t)) as [->|Hn].
    + rewrite lookup_insert_eq in E2. injection E2 as <-. split; [done|]. exists b. by rewrite lookup_insert_eq.
    + rewrite lookup_insert_ne in E2 by done.
      rewrite lookup_insert_ne by (apply not_eq_sym; by apply (Hne t2)). by apply (ri_buf s own I).
  - intros t2 th2 t3 th3 E2 E3 E. destruct (decide (t2 = t)) as [->|Hn2], (decide (t3 = t)) as [->|Hn3]; [done|..].
    + rewrite lookup_insert_eq in E2. injection E2 as <-. rewrite lookup_insert_ne in E3 by done.
      exfalso. by apply (proj1 (Hne t3 th3 E3)).
    + rewrite lookup_insert_eq in E3. injection E3 as <-. rewrite lookup_insert_ne in E2 by done.
      exfalso. by apply (proj1 (Hne t2 th2 E2)).
    + rewrite lookup_insert_ne in E2, E3 by done. by apply (ri_distinct s own I t2 th2 t3 th3).
  - intros i c t2 Hc Hm. destruct (ri_mtx s own I i c t2 Hc Hm) as [H|(H0 & th2 & E2 & H)]; [by left|].
    right. split; [done|]. exists th2. rewrite lookup_insert_ne by (apply not_eq_sym; by apply (Hne t2 th2)). done.
  - intros i t2 E. destruct (ri_own s own I i t2 E) as (th2 & E2 & H). exists th2.
    rewrite lookup_insert_ne by (apply not_eq_sym; by apply (Hne t2 th2)). done.
Qed.

Lemma rq_return_inv s own t s' : rq_inv s own -> rq_return t s = Some s' -> rq_inv s' own.
Proof.
  intros I. unfold rq_return. destruct (r_threads s !! t) as [th|] eqn:Ht; [|done].
  case_decide as Hst; [|done]. intros [= <-].
  assert (forall t2 th2, (delete t (r_threads s) : gmap Z rthread) !! t2 = Some th2 ->
            r_threads s !! t2 = Some th2 /\ th_rep th <> th_rep th2) as Hd.
  { intros t2 th2 E. apply lookup_delete_Some in E as [Hn E]. split; [done|].
    intros Er. apply Hn. by apply (ri_distinct s own I t th t2 th2). }
  assert (forall t2 th2, r_threads s !! t2 = Some th2 -> th_holds th2 = true \/ th_owns th2 = true -> t2 <> t) as Hn.
  { intros t2 th2 E2 Hs ->. rewrite Ht in E2. injection E2 as <-. revert Hs. unfold th_holds, th_owns.
    rewrite Hst. by intros [?|?]. }
  split; try apply I; cbn.
  - intros t2 th2 c2 E2 Hc2. destruct (Hd t2 th2 E2) as [E2' Hr]. unfold reply. cbn.
    rewrite lookup_delete_ne by done. exact (ri_call s own I t2 th2 c2 E2' Hc2).
  - intros t2 th2 E2. destruct (Hd t2 th2 E2) as [E2' Hr]. rewrite lookup_delete_ne by done.
    by apply (ri_buf s own I).
  - intros t2 th2 t3 th3 E2 E3. apply (ri_distinct s own I); [by apply Hd|by apply Hd].
  - intros i c t2 Hc Hm. destruct (ri_mtx s own I i c t2 Hc Hm) as [H|(H0 & th2 & E2 & H1 & H2)]; [by left|].
    right. split; [done|]. exists th2. rewrite lookup_delete_ne; [done|]. apply not_eq_sym.
    apply (Hn t2 th2 E2). by left.
  - intros i t2 E. destruct (ri_own s own I i t2 E) as (th2 & E2 & H1 & H2). exists th2.
    rewrite lookup_delete_ne; [done|]. apply not_eq_sym. apply (Hn t2 th2 E2). by right.
Qed.

(** ** Every reachable state *)

Lemma rq_step_inv s own l :
  rq_inv s own -> label_ok l ->
  exists o, rq_step l s = Ok o /\ forall s', o = Some s' -> exists own', rq_inv s' own'.
Proof.
  intros I Hl. destruct l as [t topic to req rep b timeout|t ch|msg| |t]; cbn [rq_step].
  - eexists; split; [done|]. intros s' E. exists own. by eapply call_step_inv.
  - by eapply thread_step_inv.
  - eexists; split; [done|]. intros s' E. exists own. by eapply recv_step_inv.
  - destruct (io_step_inv s own I) as (o & -> & H). exists o. split; [done|]. intros s' E. exists own. by apply H.
  - eexists; split; [done|]. intros s' E. exists own. by eapply rq_return_inv.
Qed.

Lemma rq_reach_inv id k s : rq_reach id k s -> exists own, rq_inv s own.
Proof.
  induction 1 as [|s l s' _ [own I] Hl E].
  - exists ∅. apply rq_init_inv.
  - destruct (rq_step_inv s own l I Hl) as (o & E' & H). rewrite E in E'. injection E' as <-. by apply H.
Qed.

End inv.
