(* ===== verification/RequestProps.v ===== *)
(** RequestProps: the correctness of concurrent requests (Hrequest.v), for every
    interleaving of any number of callers and the I/O thread. *)

From S2P Require Import Prelude Hmsg Hbuf Hhash Hv StbInstance Hnode NodeProps Hrequest RequestInv.

Section props.
Context {HB : HBuf} {HBS : HBufSpec HB} {HBT : HBufTotal HB}.
Implicit Types (s : rstate) (th : rthread) (c : hrequest_ctx_t).

(** What is in the caller's reply buffer. *)
Definition reply_of s th : option (list Z) := hbuf_data <$> r_bufs s !! th_rep th.

(** It is exactly the payload of one response received under the call's
    sequence number. *)
Definition answered s th : Prop :=
  exists m, m ∈ r_recv s /\ msg_seq m = th_seq th /\ reply_of s th = Some (resp_payload m).

Lemma reply_of_reply s own t th :
  rq_inv s own -> r_threads s !! t = Some th -> reply_of s th = Some (reply s th).
Proof.
  intros I Ht. destruct (ri_buf s own I t th Ht) as [_ (b & Hb & _)].
  unfold reply_of, reply. by rewrite Hb.
Qed.

(** ** What a step does to the callers *)

(** The members of a call that never change. *)
Definition same_call th th' : Prop :=
  th_topic th' = th_topic th /\ th_to th' = th_to th /\ th_req th' = th_req th /\
  th_rep th' = th_rep th /\ th_timeout th' = th_timeout th.

(** Not served: before the exchange, or refused. *)
Definition unserved th : bool :=
  match th_stage th with
  | SSeq | STry | SCas | SUnlockBusy => true
  | SDone => th_result th =? HNODE_RET_EBUSY
  | _ => false
  end.

(** Served, and past sending its request. *)
Definition past_send th : bool :=
  match th_stage th with
  | SLoop | SWait | SWake | SIdle | SUnlock => true
  | SDone => negb (th_result th =? HNODE_RET_EBUSY)
  | _ => false
  end.

Lemma thread_step_shape t ch s s' :
  thread_step t ch s = Ok (Some s') ->
  exists th th', r_threads s !! t = Some th /\ r_threads s' = <[t := th']> (r_threads s) /\
    same_call th th' /\
    (th_ts th' = th_ts th /\ (past_send th' = true -> past_send th = true) \/
     exists ts, ch = Clock ts /\ th_ts th' = hnode_time_offset ts (th_timeout th)) /\
    (unserved th' = true -> unserved th = true) /\
    (th_owns th = false -> r_bufs s' = r_bufs s).
Proof.
  unfold thread_step. destruct (r_threads s !! t) as [th|]; [|done].
  destruct (r_slots s !! _) as [c|]; [|done].
  destruct (th_stage th) eqn:Hst, ch; try done; intros E; repeat case_match; simplify_eq;
    exists th; eexists; (split; [done|]); (split; [done|]); (split; [done|]);
    unfold unserved, past_send, th_owns; rewrite Hst; cbn;
    (split; [first [by left | right; by eexists]|]); try done.
Qed.

Lemma io_step_threads s s' : io_step s = Ok (Some s') -> r_threads s' = r_threads s.
Proof. unfold io_step. intros E. repeat case_match; by simplify_eq. Qed.

(** The deadline that a clock reading gives. *)
Lemma deadline_valid ts mill :
  timespec_valid ts = true -> 0 <= mill <= 1000 -> timespec_valid (hnode_time_offset ts mill) = true.
Proof.
  destruct ts as [sec nsec]. unfold timespec_valid, hnode_time_offset. cbn [snd].
  rewrite andb_true_iff, Z.leb_le, Z.ltb_lt. intros H1 H2.
  destruct (Z.leb_spec 1000000000 (nsec + mill * 1000000)); cbn [snd];
    rewrite andb_true_iff, Z.leb_le, Z.ltb_lt; lia.
Qed.

Lemma deadline_invalid ts mill :
  timespec_valid ts = true -> 2000 <= mill -> timespec_valid (hnode_time_offset ts mill) = false.
Proof.
  destruct ts as [sec nsec]. unfold timespec_valid, hnode_time_offset. cbn [snd].
  rewrite andb_true_iff, Z.leb_le, Z.ltb_lt. intros H1 H2.
  destruct (Z.leb_spec 1000000000 (nsec + mill * 1000000)); cbn [snd];
    rewrite andb_false_iff, Z.leb_gt, Z.ltb_ge; lia.
Qed.

Lemma deadline_inv id k s t th :
  rq_reach id k s -> r_threads s !! t = Some th ->
  0 <= th_timeout th <= HNODE_REQUEST_TIMEOUT_MAX /\
  (th_timeout th <= 1000 -> timespec_valid (th_ts th) = true) /\
  (2000 <= th_timeout th -> past_send th = true -> timespec_valid (th_ts th) = false).
Proof.
  intros R. revert t th; induction R as [|s l s' R IH Hl E]; intros t th; [by cbn; rewrite lookup_empty|].
  destruct l as [t0 topic to req rep b timeout|t0 ch|msg| |t0]; cbn in E.
  - injection E as E. unfold call_step in E. destruct ((t0 =? 0) || _) eqn:Hg; [done|].
    repeat case_match; simplify_eq. cbn.
    apply orb_false_iff in Hg as [_ Hg]. apply negb_false_iff, andb_true_iff in Hg as [Hg1 Hg2].
    apply Z.leb_le in Hg1, Hg2.
    intros [[<- <-]|[_ Ht]]%lookup_insert_Some; [done|by apply (IH t)].
  - destruct (thread_step_shape _ _ _ _ E) as (th0 & th1 & H0 & -> & Hs & Hts & _).
    intros [[<- <-]|[_ Ht]]%lookup_insert_Some; [|by apply (IH t)].
    destruct Hs as (_ & _ & _ & _ & ->). destruct (IH t0 th0 H0) as (Hr & Hv & Hw). split; [done|].
    destruct Hts as [[-> Hp]|(ts & -> & ->)]; [split; [done|]; intros Hle Hs; by apply Hw, Hp|].
    split; intros Hle; [apply deadline_valid; [exact Hl|lia]|]. intros _. by apply deadline_invalid.
  - injection E as E. unfold recv_step in E. repeat case_match; simplify_eq. by apply IH.
  - rewrite (io_step_threads _ _ E). by apply IH.
  - injection E as E. unfold rq_return in E. repeat case_match; simplify_eq. cbn.
    intros [_ Ht]%lookup_delete_Some. by apply (IH t).
Qed.

(** A call that owns no slot keeps its reply buffer. *)
Lemma step_reply_stable id k s l s' t th :
  rq_reach id k s -> rq_step l s = Ok (Some s') -> l <> LReturn t ->
  r_threads s !! t = Some th -> th_owns th = false ->
  r_bufs s' !! th_rep th = r_bufs s !! th_rep th.
Proof.
  intros R E Hl Ht Ho. destruct (rq_reach_inv id k s R) as [own I].
  destruct (ri_buf s own I t th Ht) as [_ (b & Hb & _)].
  destruct l as [t0 topic to req rep b0 timeout|t0 ch|msg| |t0]; cbn in E.
  - injection E as E. unfold call_step in E. repeat case_match; simplify_eq. cbn.
    apply lookup_insert_ne. congruence.
  - destruct (decide (t0 = t)) as [->|Hn].
    { destruct (thread_step_shape _ _ _ _ E) as (th0 & th1 & H0 & _ & _ & _ & _ & Hb').
      rewrite Ht in H0. injection H0 as <-. by rewrite Hb'. }
    unfold thread_step in E. destruct (r_threads s !! t0) as [th0|] eqn:H0; [|done].
    assert (th_rep th0 <> th_rep th) as Hr by (intros Er; by apply Hn, (ri_distinct s own I t0 th0 t th)).
    destruct (r_slots s !! _) as [c|]; [|done].
    destruct (th_stage th0), ch; repeat case_match; simplify_eq; try done.
    by apply lookup_insert_ne.
  - injection E as E. unfold recv_step in E. repeat case_match; by simplify_eq.
  - unfold io_step in E. destruct (io_msg (r_io s)) as [msg|] eqn:Hio; [|done].
    destruct (r_slots s !! _) as [c|] eqn:Hc; [|done].
    destruct (r_io s) as [|m|m|m|m|m] eqn:Em; simpl in Hio; [done|injection Hio as ->..];
      repeat case_match; simplify_eq; try done.
    cbn. apply lookup_insert_ne. intros Er.
    destruct (ri_io_push s own I msg c ltac:(by rewrite Em) Hc) as [Hbusy Hseq].
    assert (rc_mtx c = Some 0) as Hm by (apply (ri_io_mtx s own I msg c); [by rewrite Em|done]).
    destruct (slot_owner s own _ c I Hc Hm ltac:(by rewrite Hbusy)) as (t1 & th1 & _ & H1 & _ & Hr1 & Hrep & _).
    assert (t1 = t) as -> by (apply (ri_distinct s own I t1 th1 t th H1 Ht); by rewrite <- Hrep).
    rewrite Ht in H1. injection H1 as <-. apply ready_owns in Hr1. congruence.
  - injection E as E. unfold rq_return in E. destruct (r_threads s !! t0) as [th0|] eqn:H0; [|done].
    case_decide; [|done]. injection E as <-. cbn. apply lookup_delete_ne. intros Er. apply Hl.
    f_equal. by apply (ri_distinct s own I t0 th0 t th).
Qed.

(** ** Runs *)

Lemma rq_run_reach id k ls s :
  rq_reach id k s -> Forall label_ok ls -> exists s', rq_run ls s = Ok s' /\ rq_reach id k s'.
Proof.
  revert s; induction ls as [|l ls IH]; intros s R Hl; [by exists s|].
  apply Forall_cons in Hl as [Hl Hls]. destruct (rq_reach_inv id k s R) as [own I].
  destruct (rq_step_inv s own l I Hl) as (o & E & _). cbn. rewrite E.
  destruct o as [s'|]; [|by apply IH]. apply IH; [by eapply reach_step|done].
Qed.

(** C5 No schedule of calls, responses, wake-ups and returns makes the code
    touch a slot outside the table or a reply buffer whose caller has
    returned: in particular a response that comes after its request was given
    up never writes to the caller's buffer. *)
Theorem request_memory_safe (id : Z) (k : nat) (ls : list label) :
  Forall label_ok ls -> exists s, rq_run ls (rq_init id k) = Ok s /\ rq_reach id k s /\
    forall t th, r_threads s !! t = Some th -> is_Some (reply_of s th).
Proof.
  intros Hl. destruct (rq_run_reach id k ls (rq_init id k) (reach_init id k) Hl) as (s & E & R).
  exists s. split; [done|]. split; [done|]. intros t th Ht. destruct (rq_reach_inv id k s R) as [own I].
  by rewrite (reply_of_reply s own t th I Ht).
Qed.

(** Inside the critical section of its slot. *)
Definition in_slot s th (i : nat) : Prop := slot_of s (th_seq th) = i.

(** C7 Of all calls on one slot at most one is between [pthread_mutex_trylock]
    (or its wake-up) and the unlock, the I/O thread is not there at the same
    time, and at most one call owns the slot from its exchange to the store of
    IDLE; while it waits there, the slot keeps its number and its buffer. *)
Theorem slot_exclusive id k s i t th t' th' :
  rq_reach id k s -> r_threads s !! t = Some th -> r_threads s !! t' = Some th' ->
  in_slot s th i -> in_slot s th' i ->
  (th_holds th = true -> th_holds th' = true -> t = t') /\
  (th_owns th = true -> th_owns th' = true -> t = t') /\
  (th_holds th = true -> forall m, io_holds (r_io s) = Some m -> slot_of s (msg_seq m) <> i) /\
  (th_ready th = true -> exists c, r_slots s !! i = Some c /\ rc_seq c = th_seq th /\ rc_rep c = th_rep th).
Proof.
  intros R Ht Ht' Hi Hi'. destruct (rq_reach_inv id k s R) as [own I]. unfold in_slot in *.
  destruct (slot_of_Some s own (th_seq th) I) as [c Hc].
  pose proof (ri_call s own I t th c Ht Hc) as co.
  pose proof (ri_call s own I t' th' c Ht' ltac:(by rewrite Hi', <- Hi)) as co'.
  rewrite Hi in *. rewrite Hi' in *. split; [|split; [|split]].
  - intros H H'. pose proof (co_mtx _ _ _ _ _ _ _ co H). pose proof (co_mtx _ _ _ _ _ _ _ co' H'). congruence.
  - intros H H'. pose proof (co_own _ _ _ _ _ _ _ co H). pose proof (co_own _ _ _ _ _ _ _ co' H'). congruence.
  - intros H m Hm Hs. pose proof (co_mtx _ _ _ _ _ _ _ co H) as E.
    pose proof (ri_io_mtx s own I m c Hm ltac:(by rewrite Hs)) as E0.
    destruct (ri_buf s own I t th Ht) as [H0 _]. congruence.
  - intros H. exists c. split; [done|]. apply (co_ready _ _ _ _ _ _ _ co H).
Qed.

(** C6 What a served call returns: [HNODE_RET_OK] or [HNODE_RET_ETIMEOUT], with a
    reply buffer that is empty or holds exactly the payload of one response with
    the call's own sequence number; and with a timeout of at most a second,
    [HNODE_RET_OK] means that the response is there. *)
Theorem reply_exact id k s t th :
  rq_reach id k s -> r_threads s !! t = Some th -> th_stage th = SDone ->
  th_result th <> HNODE_RET_EBUSY ->
  (th_result th = HNODE_RET_OK \/ th_result th = HNODE_RET_ETIMEOUT) /\
  (reply_of s th = Some [] \/ answered s th) /\
  (th_timeout th <= 1000 -> th_result th = HNODE_RET_OK -> answered s th).
Proof.
  intros R Ht Hst Hres. destruct (rq_reach_inv id k s R) as [own I].
  destruct (slot_of_Some s own (th_seq th) I) as [c Hc].
  pose proof (ri_call s own I t th c Ht Hc) as co.
  assert (th_finished th = true) as Hf by (unfold th_finished; rewrite Hst; by apply negb_true_iff, Z.eqb_neq).
  destruct (co_end _ _ _ _ _ _ _ co Hf) as (H1 & H2 & H3). specialize (H3 Hst).
  pose proof (reply_of_reply s own t th I Ht) as Hr. unfold answered. rewrite H3, Hr. split; [|split].
  - unfold reply_code. destruct (ETIMEDOUT =? th_ret th); tauto.
  - destruct H1 as [->|(m & H)]; [by left|]. right. exists m. destruct H as (? & ? & ->). done.
  - intros Hto Hok. destruct (deadline_inv id k s t th R Ht) as (_ & Hv & _).
    assert (delivered (r_recv s) th (reply s th)) as (m & ? & ? & ->); [|by exists m].
    apply H2. destruct (co_ret _ _ _ _ _ _ _ co) as [_ [E|[E|[E Hi]]]]; [done|..].
    + by rewrite E in Hok.
    + rewrite (Hv Hto) in Hi. done.
Qed.

(** C39 A request with a timeout of two seconds or more never waits: if it is
    served at all it returns [HNODE_RET_OK] with an empty reply. *)
Theorem long_timeout_empty id k s t th :
  rq_reach id k s -> r_threads s !! t = Some th -> 2000 <= th_timeout th ->
  th_stage th <> SWait /\
  (th_stage th = SDone -> th_result th <> HNODE_RET_EBUSY ->
   th_result th = HNODE_RET_OK /\ reply_of s th = Some []).
Proof.
  intros R Ht Hto. destruct (deadline_inv id k s t th R Ht) as (_ & _ & Hv). specialize (Hv Hto).
  destruct (rq_reach_inv id k s R) as [own I].
  destruct (slot_of_Some s own (th_seq th) I) as [c Hc].
  pose proof (ri_call s own I t th c Ht Hc) as co.
  split.
  { intros Hst. assert (past_send th = true) as Hp by (unfold past_send; by rewrite Hst).
    by destruct (co_spin _ _ _ _ _ _ _ co (Hv Hp)) as [H1 _]. }
  intros Hst Hres.
  assert (past_send th = true) as Hp by (unfold past_send; rewrite Hst; by apply negb_true_iff, Z.eqb_neq).
  destruct (co_spin _ _ _ _ _ _ _ co (Hv Hp)) as (_ & _ & _ & _ & H5).
  assert (th_finished th = true) as Hf by (unfold th_finished; rewrite Hst; by apply negb_true_iff, Z.eqb_neq).
  destruct (H5 Hf) as [Hd Hr]. destruct (co_end _ _ _ _ _ _ _ co Hf) as (_ & _ & H3).
  rewrite (H3 Hst), Hr, (reply_of_reply s own t th I Ht), Hd. done.
Qed.

Lemma same_call_refl th : same_call th th.
Proof. done. Qed.

(** A call stays what it was until its caller returns, and a step backwards from
    a refused call is an unserved one. *)
Lemma step_unserved id k s l s' t th th' :
  rq_reach id k s -> rq_step l s = Ok (Some s') -> l <> LReturn t ->
  r_threads s !! t = Some th -> r_threads s' !! t = Some th' -> unserved th' = true ->
  unserved th = true /\ same_call th th'.
Proof.
  intros R E Hl Ht Ht' Hu.
  destruct l as [t0 topic to req rep b0 timeout|t0 ch|msg| |t0]; cbn in E.
  - injection E as E. unfold call_step in E. repeat case_match; simplify_eq. cbn in Ht'.
    rewrite lookup_insert_ne in Ht' by congruence. simplify_eq; split; [done|apply same_call_refl].
  - destruct (thread_step_shape _ _ _ _ E) as (th0 & th1 & H0 & Hts & Hs & _ & Hb & _).
    rewrite Hts in Ht'. apply lookup_insert_Some in Ht' as [[-> <-]|[_ Ht']]; simplify_eq; [by split; [apply Hb|]|].
    split; [done|apply same_call_refl].
  - injection E as E. unfold recv_step in E. repeat case_match; simplify_eq. cbn in Ht'. simplify_eq; split; [done|apply same_call_refl].
  - rewrite (io_step_threads _ _ E) in Ht'. simplify_eq; split; [done|apply same_call_refl].
  - injection E as E. unfold rq_return in E. repeat case_match; simplify_eq. cbn in Ht'.
    apply lookup_delete_Some in Ht' as [_ Ht']. simplify_eq; split; [done|apply same_call_refl].
Qed.

Lemma step_still_there s l s' t th :
  rq_step l s = Ok (Some s') -> l <> LReturn t -> r_threads s !! t = Some th ->
  exists th', r_threads s' !! t = Some th'.
Proof.
  intros E Hl Ht. destruct l as [t0 topic to req rep b0 timeout|t0 ch|msg| |t0]; cbn in E.
  - injection E as E. unfold call_step in E. repeat case_match; simplify_eq. cbn.
    exists th. rewrite lookup_insert_ne; congruence.
  - destruct (thread_step_shape _ _ _ _ E) as (th0 & th1 & H0 & -> & _).
    destruct (decide (t0 = t)) as [->|Hn]; [exists th1; apply lookup_insert_eq|].
    exists th. by rewrite lookup_insert_ne.
  - injection E as E. unfold recv_step in E. repeat case_match; simplify_eq. by exists th.
  - rewrite (io_step_threads _ _ E). by exists th.
  - injection E as E. unfold rq_return in E. repeat case_match; simplify_eq. cbn.
    exists th. rewrite lookup_delete_ne; [done|]. congruence.
Qed.

Lemma unserved_owns th : unserved th = true -> th_owns th = false.
Proof. unfold unserved, th_owns. by destruct (th_stage th). Qed.

(** A refused request ([HNODE_RET_EBUSY]) has left the reply buffer as the caller
    passed it, whatever the other callers and the I/O thread did meanwhile. *)
Theorem ebusy_untouched id k s ls s' t th th' b :
  rq_reach id k s -> r_threads s !! t = Some th -> r_bufs s !! th_rep th = Some b ->
  Forall (fun l => label_ok l /\ l <> LReturn t) ls -> rq_run ls s = Ok s' ->
  r_threads s' !! t = Some th' -> unserved th' = true ->
  th_rep th' = th_rep th /\ r_bufs s' !! th_rep th' = Some b.
Proof.
  intros R Ht Hb Hl E Ht' Hu.
  enough (unserved th = true /\ th_rep th' = th_rep th /\ r_bufs s' !! th_rep th' = r_bufs s !! th_rep th)
    as (_ & Hr & ->) by done.
  clear Hb. revert s th R Ht E. induction ls as [|l ls IH]; intros s th R Ht E.
  { cbn in E. injection E as ->. by simplify_eq. }
  apply Forall_cons in Hl as [[Hl Hr] Hls]. cbn in E.
  destruct (rq_step l s) as [[s1|]|] eqn:E1; [|by apply IH|done].
  destruct (step_still_there _ _ _ _ _ E1 Hr Ht) as [th1 Ht1].
  destruct (IH Hls s1 th1 ltac:(by eapply reach_step) Ht1 E) as (Hu1 & -> & ->).
  destruct (step_unserved id k s l s1 t th th1 R E1 Hr Ht Ht1 Hu1) as (Hu0 & _ & _ & _ & -> & _).
  split; [done|]. split; [done|]. eapply step_reply_stable; try done. by apply unserved_owns.
Qed.

(** ** Progress *)

(** Steps of the callers and of the I/O thread: no new call, no response. *)
Definition internal (l : label) : Prop :=
  match l with LThread _ _ | LIo => True | _ => False end.

(** How far a call is from its return. *)
Definition rank th : nat :=
  match th_stage th with
  | SSeq => 13 | STry => 12 | SCas => 11 | SClear => 10 | SSend => 9
  | SWake => if th_ret th =? 0 then 8 else 5
  | SLoop => 7 | SWait => 6 | SIdle => 4 | SUnlock => 3 | SUnlockBusy => 3 | SDone => 0
  end.

(** How far the holder of the mutex of slot [i] is from its unlock. *)
Definition hold s (i : nat) : nat :=
  match rc_mtx <$> r_slots s !! i with
  | Some (Some h) =>
      if h =? 0 then
        match r_io s with IoCheck _ => 4 | IoPush _ => 3 | IoDone _ => 2 | _ => 1 end
      else match th_stage <$> r_threads s !! h with Some SCas => 2 | _ => 1 end
  | _ => 0
  end.

Definition mu s (t : Z) : nat :=
  match r_threads s !! t with
  | Some th => 10 * rank th + (if decide (th_stage th = SWake) then hold s (slot_of s (th_seq th)) else 0)
  | None => 0
  end.

Lemma hold_le s i : (hold s i <= 4)%nat.
Proof. unfold hold. repeat case_match; lia. Qed.

(** A call that is not blocked on the mutex can always take a step forward. *)
Lemma call_forward s own t th :
  rq_inv s own -> r_threads s !! t = Some th -> th_stage th <> SDone ->
  (th_stage th = SWake -> exists c, r_slots s !! slot_of s (th_seq th) = Some c /\ rc_mtx c = None) ->
  exists ch s' th', label_ok (LThread t ch) /\ thread_step t ch s = Ok (Some s') /\
    r_threads s' !! t = Some th' /\ (rank th' < rank th)%nat.
Proof.
  intros I Ht Hd Hw. destruct (slot_of_Some s own (th_seq th) I) as [c Hc].
  pose (ch := match th_stage th with SSend => Clock (0, 0) | SWait => Wake ETIMEDOUT | _ => Go end).
  destruct (thread_step_inv s own t ch I) as (o & E & _). pose proof E as E0.
  unfold thread_step in E0. rewrite Ht, Hc in E0. unfold ch, rank in *.
  destruct (th_stage th) eqn:Hst; try done;
    repeat (case_match; try done); simplify_eq;
    try (destruct (Hw eq_refl) as (c0 & Hc0 & Hm0); rewrite Hc in Hc0; simplify_eq; try congruence);
    (eexists _, _, _; split; [|split; [exact E|]]; [done|]; cbn; split; [apply lookup_insert_eq|]);
    unfold rank; cbn; repeat case_match; simplify_eq; lia.
Qed.
(** The I/O thread in a critical section takes a step towards its unlock. *)
Lemma io_forward s own i c :
  rq_inv s own -> r_slots s !! i = Some c -> rc_mtx c = Some 0 ->
  exists s', io_step s = Ok (Some s') /\ r_threads s' = r_threads s /\
    r_count s' = r_count s /\ (hold s' i < hold s i)%nat.
Proof.
  intros I Hc Hm. destruct (ri_mtx s own I i c 0 Hc Hm) as [[_ (m & Hio & Hi)]|[? _]]; [|done].
  destruct (io_step_inv s own I) as (o & E & _). pose proof E as E0. unfold io_step in E0.
  assert (io_msg (r_io s) = Some m) as Hmsg by (by destruct (r_io s)).
  rewrite Hmsg, Hi, Hc in E0. assert (i < length (r_slots s))%nat as Hlt by by eapply lookup_lt_Some.
  assert (forall io c' bufs, r_slots (upd_io io i c' bufs s) !! i = Some c') as Hu
    by (intros; by apply list_lookup_insert_eq).
  destruct (r_io s) as [|m'|m'|m'|m'|m'] eqn:Em; try done; simpl in Hio;
    repeat (case_match; try done); simplify_eq; eexists; (split; [exact E|]);
    (split; [done|]); (split; [done|]);
    unfold hold; rewrite Hu, Hc, Em; cbn; rewrite ?Hm; cbn; change (0 =? 0) with true; cbn; lia.
Qed.

(** So does another call in the critical section of a slot owned by [t]. *)
Lemma holder_forward s own i c t h :
  rq_inv s own -> r_slots s !! i = Some c -> own !! i = Some t -> rc_mtx c = Some h -> h <> 0 ->
  (forall th, r_threads s !! t = Some th -> th_holds th = false) ->
  exists s', thread_step h Go s = Ok (Some s') /\ r_threads s' !! t = r_threads s !! t /\
    r_count s' = r_count s /\ (hold s' i < hold s i)%nat.
Proof.
  intros I Hc Ho Hm Hh Hn. destruct (ri_mtx s own I i c h Hc Hm) as [[? _]|(_ & th2 & H2 & Hi & Hx)]; [done|].
  assert (h <> t) as Hne by (intros ->; rewrite (Hn _ H2) in Hx; done).
  pose proof (ri_call s own I h th2 c H2 ltac:(by rewrite Hi)) as co. rewrite Hi in co.
  assert (th_owns th2 = false) as Hno.
  { destruct (th_owns th2) eqn:E; [|done]. pose proof (co_own _ _ _ _ _ _ _ co E). congruence. }
  assert (rc_status c <> HREQUEST_CTX_STATUS_IDLE) as Hs.
  { intros E. pose proof (own_of_idle s own i c I Hc E). congruence. }
  assert (i < length (r_slots s))%nat as Hlt by by eapply lookup_lt_Some.
  assert (forall th' c' bufs, r_slots (upd h th' i c' bufs s) !! i = Some c') as Hu
    by (intros; by apply list_lookup_insert_eq).
  assert (forall th', r_threads (upd_th h th' s) !! h = Some th') as Hv by (intros; apply lookup_insert_eq).
  assert ((h =? 0) = false) as Hh0 by by apply Z.eqb_neq.
  unfold th_owns, th_holds in *. unfold thread_step. rewrite H2, Hi, Hc.
  destruct (th_stage th2) eqn:Hst; try done.
  - rewrite (proj2 (Z.eqb_neq _ _) Hs). eexists. split; [done|].
    split; [by apply lookup_insert_ne|]. split; [done|]. unfold hold.
    change (r_slots (upd_th _ _ s)) with (r_slots s). rewrite Hc. change (rc_mtx <$> Some c) with (Some (rc_mtx c)). rewrite Hm, Hh0, H2, Hv. simpl. rewrite Hst. lia.
  - eexists. split; [done|]. split; [by apply lookup_insert_ne|]. split; [done|].
    unfold hold. rewrite Hu, Hc. cbn. rewrite Hm, Hh0. cbn. case_match; [case_match|]; lia.
  - eexists. split; [done|]. split; [by apply lookup_insert_ne|]. split; [done|].
    unfold hold. rewrite Hu, Hc. cbn. rewrite Hm, Hh0. cbn. case_match; [case_match|]; lia.
Qed.

Lemma progress_step id k s t th :
  rq_reach id k s -> r_threads s !! t = Some th -> th_stage th <> SDone ->
  exists l s' th', label_ok l /\ internal l /\ rq_step l s = Ok (Some s') /\
    r_threads s' !! t = Some th' /\ (mu s' t < mu s t)%nat.
Proof.
  intros R Ht Hd. destruct (rq_reach_inv id k s R) as [own I].
  destruct (slot_of_Some s own (th_seq th) I) as [c Hc]. set (i := slot_of s (th_seq th)) in *.
  destruct (decide (th_stage th = SWake)) as [Hw|Hw]; [destruct (rc_mtx c) as [h|] eqn:Hm|].
  - pose proof (ri_call s own I t th c Ht Hc) as co.
    assert (own !! i = Some t) as Ho by (apply co; unfold th_owns; by rewrite Hw).
    assert (forall s', r_threads s' !! t = r_threads s !! t -> r_count s' = r_count s ->
              (hold s' i < hold s i)%nat -> (mu s' t < mu s t)%nat) as Hmu.
    { intros s' E1 E2 E3. unfold mu. rewrite E1, Ht, !decide_True by done.
      replace (slot_of s' (th_seq th)) with i by (unfold i, slot_of; by rewrite E2). fold i. lia. }
    destruct (decide (h = 0)) as [->|Hh].
    + destruct (io_forward s own i c I Hc Hm) as (s' & E & Hth & Hct & Hlt).
      exists LIo, s', th. split_and!; try done; [by rewrite Hth|]. apply Hmu; try done. by rewrite Hth.
    + destruct (holder_forward s own i c t h I Hc Ho Hm Hh) as (s' & E & Hth & Hct & Hlt).
      { intros th0 H0. rewrite Ht in H0. injection H0 as <-. unfold th_holds. by rewrite Hw. }
      exists (LThread h Go), s', th. split_and!; try done; [by rewrite Hth|]. by apply Hmu.
  - destruct (call_forward s own t th I Ht Hd) as (ch & s' & th' & Hl & E & Ht' & Hr); [by exists c|].
    exists (LThread t ch), s', th'. split_and!; try done. unfold mu. rewrite Ht, Ht'.
    pose proof (hold_le s' (slot_of s' (th_seq th'))). repeat case_decide; lia.
  - destruct (call_forward s own t th I Ht Hd) as (ch & s' & th' & Hl & E & Ht' & Hr); [done|].
    exists (LThread t ch), s', th'. split_and!; try done. unfold mu. rewrite Ht, Ht'.
    pose proof (hold_le s' (slot_of s' (th_seq th'))). repeat case_decide; lia.
Qed.

(** C8 No request blocks forever: from every reachable state, without any further
    response, each call reaches its return within 134 steps of the callers
    already there and of the I/O thread. *)
Theorem request_progress id k s t th :
  rq_reach id k s -> r_threads s !! t = Some th ->
  exists ls s' th', (length ls <= 134)%nat /\ Forall (fun l => label_ok l /\ internal l) ls /\
    rq_run ls s = Ok s' /\ r_threads s' !! t = Some th' /\ th_stage th' = SDone.
Proof.
  intros R Ht.
  assert (exists ls s' th', (length ls <= mu s t)%nat /\ Forall (fun l => label_ok l /\ internal l) ls /\
    rq_run ls s = Ok s' /\ r_threads s' !! t = Some th' /\ th_stage th' = SDone)
    as (ls & s' & th' & Hlen & H).
  { remember (mu s t) as n eqn:Hn. revert s th R Ht Hn. induction (lt_wf n) as [n _ IH]. intros s th R Ht ->.
    destruct (decide (th_stage th = SDone)) as [Hd|Hd].
    { exists [], s, th. split_and!; try done. simpl. lia. }
    destruct (progress_step id k s t th R Ht Hd) as (l & s1 & th1 & Hl & Hi & E & Ht1 & Hmu).
    destruct (IH _ Hmu s1 th1 ltac:(by eapply reach_step) Ht1 eq_refl) as (ls & s' & th' & Hlen & Hls & Er & H).
    exists (l :: ls), s', th'. split; [simpl; lia|]. split; [by constructor|]. cbn. by rewrite E. }
  exists ls, s', th'. split; [|done]. etrans; [exact Hlen|]. unfold mu. rewrite Ht.
  pose proof (hold_le s (slot_of s (th_seq th))).
  assert (rank th <= 13)%nat by (unfold rank; repeat case_match; lia). case_decide; lia.
Qed.
(** ** The I/O thread undisturbed *)

(** The slots and buffers of a request state are those of a node. *)
Definition same_requests s (node : hnode) : Prop :=
  n_req_ctx node = r_slots s /\ n_req_ctx_count node = r_count s /\ n_bufs node = r_bufs s.

Lemma io_run_cons s s' ls : io_step s = Ok (Some s') -> rq_run (LIo :: ls) s = rq_run ls s'.
Proof. intros E. cbn [rq_run rq_step]. by rewrite E. Qed.

Lemma io_run_idle s n : r_io s = IoIdle -> rq_run (replicate n LIo) s = Ok s.
Proof.
  intros Hio. induction n as [|n IH]; [done|]. cbn [replicate rq_run rq_step].
  unfold io_step at 1. rewrite Hio. exact IH.
Qed.

(** One step of the I/O thread with its slot at hand. *)
Lemma io_step_eq s msg c :
  io_msg (r_io s) = Some msg -> r_slots s !! slot_of s (msg_seq msg) = Some c ->
  io_step s =
    let i := slot_of s (msg_seq msg) in
    match r_io s with
    | IoIdle => Ok None
    | IoLock _ =>
        match rc_mtx c with
        | None => Ok (Some (upd_io (IoCheck msg) i (set_mtx (Some 0) c) (r_bufs s) s))
        | Some _ => Ok None
        end
    | IoCheck _ =>
        Ok (Some (upd_io (if (HREQUEST_CTX_STATUS_BUSY =? rc_status c) && (msg_seq msg =? rc_seq c)
                          then IoPush msg else IoUnlock msg) i c (r_bufs s) s))
    | IoPush _ =>
        match r_bufs s !! rc_rep c with
        | None => Fault UseAfterFree
        | Some b =>
            Ok (Some (upd_io (IoDone msg) i c
                        (<[rc_rep c := (hbuf_push b (resp_payload msg)).2]> (r_bufs s)) s))
        end
    | IoDone _ => Ok (Some (upd_io (IoUnlock msg) i (set_rstatus HREQUEST_CTX_STATUS_DONE c) (r_bufs s) s))
    | IoUnlock _ => Ok (Some (upd_io IoIdle i (set_mtx None c) (r_bufs s) s))
    end.
Proof.
  intros Hm Hc. unfold io_step. rewrite Hm, Hc. destruct (r_io s); try done. by destruct (_ && _).
Qed.

(** The slot of the response after a step of the I/O thread. *)
Lemma upd_io_slot io i c bufs s :
  (i < length (r_slots s))%nat -> r_slots (upd_io io i c bufs s) !! i = Some c.
Proof. intros H. by apply list_lookup_insert_eq. Qed.

(** The steps of the I/O thread, taken one after the other, are the function
    [hnode_on_respond] of the node model. *)
Theorem respond_refines s node msg node' :
  same_requests s node -> r_io s = IoIdle -> hnode_on_respond 0 msg node = Ok (tt, node') ->
  exists s', rq_run (LRecv msg :: replicate 5 LIo) s = Ok s' /\ same_requests s' node' /\
    r_io s' = IoIdle /\ r_threads s' = r_threads s.
Proof.
  intros (Hsl & Hct & Hb) Hio. unfold hnode_on_respond.
  replace (req_ctx_index node (msg_seq msg)) with (slot_of s (msg_seq msg))
    by (unfold slot_of, req_ctx_index; by rewrite Hct).
  set (i := slot_of s (msg_seq msg)). rewrite Hsl, Hb.
  destruct (r_slots s !! i) as [c|] eqn:Hc; [|done]. destruct (rc_mtx c) eqn:Hm; [done|].
  assert (i < length (r_slots s))%nat as Hlt by by eapply lookup_lt_Some.
  assert (c = ReqCtx None (rc_rep c) (rc_seq c) (rc_status c)) as Hcc by (destruct c; simpl in *; by subst).
  set (s1 := RState (r_id s) (r_count s) (r_seq s) (r_slots s) (r_bufs s) (r_threads s)
               (IoLock msg) (msg :: r_recv s) (r_sent s)).
  assert (forall n, rq_run (LRecv msg :: replicate n LIo) s = rq_run (replicate n LIo) s1) as ->
    by (intros n; cbn [rq_run rq_step]; unfold recv_step; by rewrite Hio).
  set (s2 := upd_io (IoCheck msg) i (set_mtx (Some 0) c) (r_bufs s) s1).
  assert (io_step s1 = Ok (Some s2)) as E1 by (rewrite (io_step_eq s1 msg c) by done; cbn; by rewrite Hm).
  assert (r_slots s2 !! i = Some (set_mtx (Some 0) c)) as Hc2 by by apply upd_io_slot.
  set (hit := (HREQUEST_CTX_STATUS_BUSY =? rc_status c) && (msg_seq msg =? rc_seq c)).
  set (s3 := upd_io (if hit then IoPush msg else IoUnlock msg) i (set_mtx (Some 0) c) (r_bufs s) s2).
  assert (io_step s2 = Ok (Some s3)) as E2 by by rewrite (io_step_eq s2 msg (set_mtx (Some 0) c)).
  assert (r_slots s3 !! i = Some (set_mtx (Some 0) c)) as Hc3.
  { apply upd_io_slot. cbn. by rewrite length_insert. }
  cbn [replicate]. rewrite (io_run_cons _ _ _ E1), (io_run_cons _ _ _ E2).
  destruct hit eqn:Hit.
  - destruct (r_bufs s !! rc_rep c) as [b|] eqn:Hbuf; [|done]. intros [= <-].
    set (bufs' := <[rc_rep c := (hbuf_push b (resp_payload msg)).2]> (r_bufs s)).
    set (s4 := upd_io (IoDone msg) i (set_mtx (Some 0) c) bufs' s3).
    assert (io_step s3 = Ok (Some s4)) as E3.
    { rewrite (io_step_eq s3 msg (set_mtx (Some 0) c)) by done. cbn. by rewrite Hbuf. }
    assert (r_slots s4 !! i = Some (set_mtx (Some 0) c)) as Hc4
      by (apply upd_io_slot; cbn; by rewrite !length_insert).
    set (c5 := set_rstatus HREQUEST_CTX_STATUS_DONE (set_mtx (Some 0) c)).
    set (s5 := upd_io (IoUnlock msg) i c5 bufs' s4).
    assert (io_step s4 = Ok (Some s5)) as E4 by by rewrite (io_step_eq s4 msg (set_mtx (Some 0) c)).
    assert (r_slots s5 !! i = Some c5) as Hc5 by (apply upd_io_slot; cbn; by rewrite !length_insert).
    assert (io_step s5 = Ok (Some (upd_io IoIdle i (set_mtx None c5) bufs' s5))) as E5
      by by rewrite (io_step_eq s5 msg c5).
    rewrite (io_run_cons _ _ _ E3), (io_run_cons _ _ _ E4), (io_run_cons _ _ _ E5).
    eexists; split; [done|]. split; [|done]. unfold same_requests. cbn.
    rewrite !list_insert_insert_eq. split; [done|]. by split.
  - intros [= <-].
    assert (io_step s3 = Ok (Some (upd_io IoIdle i (set_mtx None (set_mtx (Some 0) c)) (r_bufs s) s3))) as E3
      by by rewrite (io_step_eq s3 msg (set_mtx (Some 0) c)).
    rewrite (io_run_cons _ _ _ E3). eexists; split; [by apply (io_run_idle _ 2)|].
    split; [|done]. unfold same_requests. cbn. rewrite !list_insert_insert_eq.
    replace (set_mtx None (set_mtx (Some 0) c)) with c by by rewrite Hcc.
    rewrite list_insert_id by done. by split_and!.
Qed.
(** ** A response at the last moment *)

Lemma run_thread_cons t ch s s' ls :
  thread_step t ch s = Ok (Some s') -> rq_run (LThread t ch :: ls) s = rq_run ls s'.
Proof. intros E. cbn [rq_run rq_step]. by rewrite E. Qed.

Lemma upd_slot t th i c bufs s :
  (i < length (r_slots s))%nat -> r_slots (upd t th i c bufs s) !! i = Some c.
Proof. intros H. by apply list_lookup_insert_eq. Qed.
Lemma upd_thread t th i c bufs s : r_threads (upd t th i c bufs s) !! t = Some th.
Proof. apply lookup_insert_eq. Qed.

(** A response delivered between the time-out of the wait and the moment the
    caller has the mutex again is in the reply buffer, and the call still
    returns [HNODE_RET_ETIMEOUT]. *)
Theorem late_reply_reported_timeout id k s t th c :
  rq_reach id k s -> r_threads s !! t = Some th -> th_stage th = SWake -> th_ret th = ETIMEDOUT ->
  r_slots s !! slot_of s (th_seq th) = Some c -> rc_mtx c = None ->
  rc_status c = HREQUEST_CTX_STATUS_DONE ->
  exists s' th', rq_run (replicate 3 (LThread t Go)) s = Ok s' /\ r_threads s' !! t = Some th' /\
    th_stage th' = SDone /\ th_result th' = HNODE_RET_ETIMEOUT /\ answered s' th'.
Proof.
  intros R Ht Hst Hret Hc Hm Hs. destruct (rq_reach_inv id k s R) as [own I].
  pose proof (ri_call s own I t th c Ht Hc) as co.
  destruct (co_full _ _ _ _ _ _ _ co) as (m & Hm1 & Hm2 & Hm3); [by unfold th_ready; rewrite Hst|done|].
  pose proof (reply_of_reply s own t th I Ht) as Hr. rewrite Hm3 in Hr.
  set (i := slot_of s (th_seq th)) in *.
  assert (i < length (r_slots s))%nat as Hlt by by eapply lookup_lt_Some.
  set (th1 := set_th SIdle ETIMEDOUT th). set (s1 := upd t th1 i (set_mtx (Some t) c) (r_bufs s) s).
  assert (thread_step t Go s = Ok (Some s1)) as E1.
  { unfold thread_step. rewrite Ht. fold i. by rewrite Hc, Hst, Hm, Hret. }
  set (th2 := set_th SUnlock ETIMEDOUT th1). set (c2 := set_rstatus HREQUEST_CTX_STATUS_IDLE (set_mtx (Some t) c)).
  set (s2 := upd t th2 i c2 (r_bufs s) s1).
  assert (thread_step t Go s1 = Ok (Some s2)) as E2.
  { unfold thread_step. unfold s1 at 1. rewrite upd_thread.
    change (slot_of s1 (th_seq th1)) with i. unfold s1 at 1. by rewrite upd_slot. }
  set (th3 := set_th_result HNODE_RET_ETIMEOUT th2). set (s3 := upd t th3 i (set_mtx None c2) (r_bufs s) s2).
  assert (thread_step t Go s2 = Ok (Some s3)) as E3.
  { unfold thread_step. unfold s2 at 1. rewrite upd_thread. change (slot_of s2 (th_seq th2)) with i.
    unfold s2 at 1. rewrite upd_slot by (cbn; by rewrite length_insert). done. }
  exists s3, th3. cbn [replicate].
  rewrite (run_thread_cons _ _ _ _ _ E1), (run_thread_cons _ _ _ _ _ E2), (run_thread_cons _ _ _ _ _ E3).
  split; [done|]. split; [apply upd_thread|]. split; [done|]. split; [done|]. by exists m.
Qed.
End props.

(** ** The entry of [hnode_request] *)

Section entry.
Context {HB : HBuf} {HBS : HBufSpec HB} {HBT : HBufTotal HB}.
Context {HH : HIHash} {HHS : HIHashSpec HH}.
Implicit Types (node : hnode).

(** The timeout the wait goes on with. *)
Definition clamped (timeout : Z) : Z := Z.min timeout HNODE_REQUEST_TIMEOUT_MAX.

(** The table key under which responses on a topic arrive. *)
Definition respond_key (topic : Z) : Z := sub_key HMSG_FDATA_REPOND topic.

(** Before it takes a sequence number [hnode_request] refuses a null argument and
    a node that is not connected, without any effect; otherwise it goes on with
    the timeout cut to ten seconds and with [hnode_on_respond] registered for
    responses on the topic, sending one [SUB] frame if it was not yet; only a
    write that reports zero bytes makes it give up. *)
Theorem request_enter_exact node topic timeout (n1 n2 n3 : bool) :
  node_wf node ->
  if n1 || n2 || n3 then
    hnode_request_enter n1 n2 n3 topic timeout node = Ok (inl HNODE_RET_EPARAM, node)
  else if decide (n_status node = HNODE_STATUS_CONNECTED) then
    exists r node', hnode_request_enter n1 n2 n3 topic timeout node = Ok (r, node') /\
      match subs_of node !! respond_key topic with
      | Some _ => r = inr (clamped timeout) /\ node_upd node node' (subs_of node) []
      | None =>
          if n_write_ret node =? 0 then
            r = inl HNODE_RET_ESEND /\
            node_upd node node' (subs_of node)
              [hio_write (n_io node) (sub_frame node HMSG_FDATA_REPOND topic)]
          else
            r = inr (clamped timeout) /\
            node_upd node node' (<[respond_key topic := SubHandler HOnRespond 1]> (subs_of node))
              [hio_write (n_io node) (sub_frame node HMSG_FDATA_REPOND topic)]
      end
  else hnode_request_enter n1 n2 n3 topic timeout node = Ok (inl HNODE_RET_EDISCONNECT, node).
Proof.
  intros W. unfold hnode_request_enter. destruct (n1 || n2 || n3); [done|].
  rewrite (bind_ok (gets n_status) _ node (n_status node) node) by done. case_decide as Hst.
  2:{ by rewrite (proj2 (Z.eqb_neq _ _)) by congruence. }
  rewrite Hst, Z.eqb_refl. cbn [negb].
  replace (if HNODE_REQUEST_TIMEOUT_MAX <? timeout then HNODE_REQUEST_TIMEOUT_MAX else timeout)
    with (clamped timeout) by (unfold clamped; destruct (Z.ltb_spec HNODE_REQUEST_TIMEOUT_MAX timeout); lia).
  destruct (subscribe_i_connected node HMSG_FDATA_REPOND topic HOnRespond 1 W Hst) as (r & node' & E & H).
  rewrite (bind_ok _ _ _ _ _ E). unfold respond_key. destruct (subs_of node !! _); [|destruct (n_write_ret node =? 0)];
    destruct H as [-> H]; eexists _, _; (split; [reflexivity|]); by split.
Qed.
End entry.

(** ** Concrete schedules *)

Definition resp_msg (seq : Z) : hmsg_t :=
  mk_msg (HMSG_FLAGS HMSG_FCMD_DATA HMSG_FDATA_REPOND) 40 5 7 seq 2 [17; 18].

(** Call [t], buffer [10 * t], up to the wait. *)
Definition start_call (t timeout : Z) : list label :=
  [LCall t 40 5 [1] (10 * t) (LBuf true [9]) timeout;
   LThread t Go; LThread t Go; LThread t Go; LThread t Go; LThread t (Clock (0, 0)); LThread t Go].

Definition get_response (seq : Z) : list label := LRecv (resp_msg seq) :: replicate 5 LIo.

(** Answered in time. *)
Definition sched_ok : list label :=
  start_call 1 500 ++ get_response 0 ++ [LThread 1 (Wake 0)] ++ replicate 4 (LThread 1 Go).
(** The response comes when the wait has timed out. *)
Definition sched_late : list label :=
  start_call 1 500 ++ [LThread 1 (Wake ETIMEDOUT)] ++ get_response 0.
(** A timeout of five seconds. *)
Definition sched_long : list label := start_call 1 5000 ++ replicate 2 (LThread 1 Go).
(** Two slots, three calls: the third finds the first one's slot taken. *)
Definition sched_busy : list label := start_call 1 500 ++ start_call 2 500.
Definition sched_busy_rest : list label := replicate 4 (LThread 3 Go) ++ get_response 0.

Definition sched_state (ls : list label) : rstate :=
  match rq_run ls (rq_init 7 1) with Ok s => s | Fault _ => rq_init 7 1 end.

Lemma sched_reach ls : Forall label_ok ls -> rq_reach 7 1 (sched_state ls).
Proof.
  intros Hl. destruct (rq_run_reach 7 1 ls (rq_init 7 1) (reach_init 7 1) Hl) as (s & E & R).
  unfold sched_state. by rewrite E.
Qed.

Lemma sched_ok_labels : Forall label_ok sched_ok /\ Forall label_ok sched_late /\
  Forall label_ok sched_long /\ Forall label_ok sched_busy.
Proof. repeat split; repeat constructor. Qed.

Lemma request_memory_safe_witness :
  exists s, rq_run sched_ok (rq_init 7 1) = Ok s /\ rq_reach 7 1 s.
Proof.
  destruct (request_memory_safe 7 1 sched_ok) as (s & E & R & _); [apply sched_ok_labels|].
  exists s. split; [exact E|exact R].
Defined.

(** The calls of the schedules. *)
Definition call_of (ls : list label) (t : Z) : rthread :=
  default (RThread 0 0 [] 0 0 SSeq 0 (0, 0) 0 0) (r_threads (sched_state ls) !! t).

Lemma slot_exclusive_witness :
  exists c, r_slots (sched_state sched_busy) !! 0%nat = Some c /\ rc_seq c = 0 /\ rc_rep c = 10.
Proof.
  destruct (slot_exclusive 7 1 (sched_state sched_busy) 0 1 (call_of sched_busy 1) 1 (call_of sched_busy 1))
    as (_ & _ & _ & H);
    [apply sched_reach, sched_ok_labels|vm_compute; reflexivity..|].
  destruct H as (c & Hc & Hseq & Hrep); [vm_compute; reflexivity|].
  exists c. split; [exact Hc|]. split; [exact Hseq|exact Hrep].
Defined.

Lemma reply_exact_witness : answered (sched_state sched_ok) (call_of sched_ok 1).
Proof.
  apply (reply_exact 7 1 (sched_state sched_ok) 1 (call_of sched_ok 1));
    [apply sched_reach, sched_ok_labels|vm_compute; reflexivity|vm_compute; reflexivity
    |vm_compute; discriminate|vm_compute; discriminate|vm_compute; reflexivity].
Defined.

Lemma long_timeout_empty_witness :
  th_result (call_of sched_long 1) = HNODE_RET_OK /\
  reply_of (sched_state sched_long) (call_of sched_long 1) = Some [].
Proof.
  apply (long_timeout_empty 7 1 (sched_state sched_long) 1 (call_of sched_long 1));
    [apply sched_reach, sched_ok_labels|vm_compute; reflexivity|vm_compute; discriminate
    |vm_compute; reflexivity|vm_compute; discriminate].
Defined.

Lemma late_reply_witness :
  exists s' th', rq_run (replicate 3 (LThread 1 Go)) (sched_state sched_late) = Ok s' /\
    th_result th' = HNODE_RET_ETIMEOUT /\ answered s' th'.
Proof.
  destruct (late_reply_reported_timeout 7 1 (sched_state sched_late) 1 (call_of sched_late 1)
    (ReqCtx None 10 0 2)) as (s' & th' & E & _ & _ & Hr & Ha);
    [apply sched_reach, sched_ok_labels|vm_compute; reflexivity..|].
  exists s', th'. split; [exact E|split; [exact Hr|exact Ha]].
Defined.

Lemma request_progress_witness :
  exists ls s' th', rq_run ls (sched_state sched_late) = Ok s' /\
    r_threads s' !! 1 = Some th' /\ th_stage th' = SDone.
Proof.
  destruct (request_progress 7 1 (sched_state sched_late) 1 (call_of sched_late 1))
    as (ls & s' & th' & _ & _ & H); [apply sched_reach, sched_ok_labels|vm_compute; reflexivity|].
  exists ls, s', th'. exact H.
Defined.

(** The third call, from its entry. *)
Definition busy_entered : list label := sched_busy ++ [LCall 3 40 5 [1] 30 (LBuf true [9]) 500].

Lemma ebusy_untouched_witness :
  r_bufs (sched_state (busy_entered ++ sched_busy_rest)) !! 30 = Some (LBuf true [9]).
Proof.
  destruct (ebusy_untouched 7 1 (sched_state busy_entered) sched_busy_rest
    (sched_state (busy_entered ++ sched_busy_rest)) 3 (call_of busy_entered 3)
    (call_of (busy_entered ++ sched_busy_rest) 3) (LBuf true [9])) as [_ H];
    [apply sched_reach; repeat constructor|vm_compute; reflexivity|vm_compute; reflexivity
    |repeat constructor; discriminate|vm_compute; reflexivity..|].
  exact H.
Defined.

Lemma example_requests : same_requests (rq_init 7 4) example_node.
Proof. split; [vm_compute; reflexivity|]. split; vm_compute; reflexivity. Qed.

Lemma respond_refines_witness :
  exists s', rq_run (LRecv (resp_msg 0) :: replicate 5 LIo) (rq_init 7 4) = Ok s'.
Proof.
  destruct (respond_refines (rq_init 7 4) example_node (resp_msg 0) example_node) as (s' & E & _);
    [exact example_requests|reflexivity| |exists s'; exact E].
  destruct example_requests as (E1 & E2 & _). unfold hnode_on_respond, req_ctx_index.
  rewrite E1, E2. reflexivity.
Defined.

Lemma request_enter_exact_witness :
  exists node', hnode_request_enter false false false 40 20000 example_node = Ok (inr 10000, node').
Proof.
  pose proof (request_enter_exact example_node 40 20000 false false false example_node_wf) as H.
  cbn [orb] in H.
  assert (n_status example_node = HNODE_STATUS_CONNECTED) as Hst by (vm_compute; reflexivity).
  rewrite (decide_True _ _ Hst) in H. destruct H as (r & node' & E & H).
  assert (subs_of example_node !! respond_key 40 = None) as E0 by (vm_compute; reflexivity).
  assert ((n_write_ret example_node =? 0) = false) as E1 by (vm_compute; reflexivity).
  rewrite E0, E1 in H. destruct H as [-> _]. exists node'. exact E.
Defined.
