(* ===== verification/System.v ===== *)
(** System: nodes and the broker together.

    The transport carries each [hio_write] of one side, as one frame, to the read
    callback of the other (Hv.v: [hio_unpack] splits the stream at frame borders).
    A node is connected to the broker over the connection the broker knows by a
    handle of its own. *)

From S2P Require Import Prelude Hmsg Hbuf Hhash StbInstance Hv Hbroker BrokerSpec BrokerRep BrokerProps Hnode NodeProps.

Section system.
Context {HB : HBuf} {HBS : HBufSpec HB} {HBT : HBufTotal HB}.
Context {HH : HIHash} {HHS : HIHashSpec HH}.
Context (user_handler : Z -> Z -> hmsg_t -> M hnode unit).
Implicit Types (st : broker) (r : registry) (A B : hnode).

(** A frame arrives at the broker, or at a node. *)
Definition broker_read (io : Z) (frame : list Z) : event := EvRead io frame (Z.of_nat (length frame)).
Definition node_read (frame : list Z) : M hnode unit :=
  hnode_on_read user_handler frame (Z.of_nat (length frame)).

(** The last frame a node has written. *)
Definition last_write (node : hnode) : list Z := from_option snd [] (last (writes (n_calls node))).

(** A payload that [hnode_publish] can send. *)
Definition payload_ok (payload : list Z) : Prop :=
  Forall is_byte payload /\ sizeof_hmsg + Z.of_nat (length payload) <= HMSG_PATLOAD_SIZE_MAX.

Definition pub_msg A (topic to : Z) (payload : list Z) : hmsg_t :=
  mk_msg (HMSG_FLAGS HMSG_FCMD_DATA HMSG_FDATA_PUBSUB) topic (n_id A) to 0
    (Z.of_nat (length payload)) payload.

Lemma mk_msg_frame flags topic from to seq payload :
  payload_ok payload ->
  hmsg_frame (mk_msg flags topic from to seq (Z.of_nat (length payload)) payload).
Proof.
  intros [Hb Hl]. unfold hmsg_frame, hmsg_wf, mk_msg; cbn.
  unfold HMSG_PATLOAD_SIZE_MAX, sizeof_hmsg, u16, u32, u8 in *.
  rewrite (uwrap_small 32 (Z.of_nat _)) by (unfold in_u; lia).
  split_and!; try (by apply uwrap_range); try done; unfold in_u; lia.
Qed.

Lemma sub_frame_ok node flag_data topic :
  hmsg_frame (mk_msg (HMSG_FLAGS HMSG_FCMD_SUB flag_data) topic (n_id node) HMSG_APPID_BROKER 0 0 []).
Proof. apply (mk_msg_frame _ _ _ _ _ []). split; [constructor|]. unfold sizeof_hmsg, HMSG_PATLOAD_SIZE_MAX. simpl. lia. Qed.

Lemma last_write_app node cs io frame :
  n_calls node = cs ++ [hio_write io frame] -> last_write node = frame.
Proof. intros E. unfold last_write. rewrite E. unfold writes. rewrite omap_app. simpl. by rewrite last_snoc. Qed.

(** Node and broker use the same key for a topic. *)
Lemma pub_key A topic to payload :
  in_u 16 topic -> HMSG_TOPICEX_INMSG (pub_msg A topic to payload) = sub_key HMSG_FDATA_PUBSUB topic.
Proof.
  intros Ht. unfold HMSG_TOPICEX_INMSG, sub_key, pub_msg, mk_msg. cbn. unfold u16.
  by rewrite (uwrap_small 16 topic).
Qed.

Lemma sub_key_topic node topic :
  in_u 16 topic ->
  topic_to_sub (mk_msg (HMSG_FLAGS HMSG_FCMD_SUB HMSG_FDATA_PUBSUB) topic (n_id node) HMSG_APPID_BROKER 0 0 [])
  = sub_key HMSG_FDATA_PUBSUB topic.
Proof.
  intros Ht. unfold topic_to_sub, sub_key, mk_msg. cbn. unfold u16. by rewrite (uwrap_small 16 topic).
Qed.

(** A live connection stays live when a frame is handled. *)
Lemma read_live st r st' io io' m :
  rep st r -> rep st' (reg_subscribe io (topic_to_sub m) r) -> live st io' = true -> live st' io' = true.
Proof.
  intros R R' Hl. apply (live_client st r io' R) in Hl as [c Hc]. apply (live_client st' _ io' R').
  unfold reg_subscribe. destruct (clients r !! io) as [c0|] eqn:E0; [|by exists c].
  case_decide; [by exists c|]. cbn. destruct (decide (io = io')) as [->|Hn].
  - by rewrite lookup_insert_eq.
  - rewrite lookup_insert_ne by done. by exists c.
Qed.


Lemma live_after st r io : rep st r -> is_Some (clients r !! io) -> live st io = true.
Proof. intros R H. by apply (live_client st r io R). Qed.

(** A connection that has only announced its node is subscribed to nothing. *)
Lemma registered_only st r io t to c :
  rep st r -> reg_wf r -> clients r !! io = Some c -> c_topics c = [] -> delivers st t to io = false.
Proof.
  intros R W Hc Ht. destruct (delivers st t to io) eqn:Hd; [|done]. exfalso.
  apply (delivers_rep st r t to io R W) in Hd. unfold recipients in Hd.
  apply list_elem_of_filter in Hd as [_ Hin].
  destruct (subs r !! t) as [xs|] eqn:Hx; [|by apply not_elem_of_nil in Hin].
  destruct (wf_sub_client r W t xs io Hx Hin) as (c' & Hc' & Hin').
  rewrite Hc in Hc'. injection Hc' as <-. rewrite Ht in Hin'. by apply not_elem_of_nil in Hin'.
Qed.

(** After a reconnection messages are lost: [B], whose subscription is in its
    table, reconnects, is accepted by the broker on a new connection [ib] and
    announces itself; it subscribes again, which succeeds and sends nothing; and
    a message [A] then publishes on the topic is not written to [ib]. *)
Theorem reconnect_loses_messages evs st (A B : hnode) (ia ib p io2 topic f param to : Z) (payload : list Z) :
  env_trace broker_init evs = true -> run_events evs broker_init = Ok (tt, st) ->
  live st ia = true -> env_ok st (EvAccept ib p) = true ->
  node_wf A -> node_wf B -> n_status A = HNODE_STATUS_CONNECTED -> n_status B = HNODE_STATUS_CONNECTED ->
  payload_ok payload -> u16 to <> HMSG_APPID_BROKER -> io2 <> 0 ->
  is_Some (subs_of B !! sub_key HMSG_FDATA_REQUEST HMSG_MSGID_STATUS) ->
  is_Some (subs_of B !! sub_key HMSG_FDATA_PUBSUB topic) ->
  exists A' B' B2 st',
    node_run user_handler [NClose; NTimer io2; NConnect io2 0] B = Ok (tt, B') /\
    hnode_subscribe topic (HUser f) param B' = Ok (HNODE_RET_OK, B2) /\ n_calls B2 = n_calls B' /\
    hnode_publish topic to payload (Z.of_nat (length payload)) A = Ok (HNODE_RET_OK, A') /\
    run_events [EvAccept ib p; broker_read ib (last_write B'); broker_read ia (last_write A')] st
      = Ok (tt, st') /\
    sent_to ib (calls st') = sent_to ib (calls st).
Proof.
  intros He E La Hacc WA WB SA SB Hp Hto Hio Hs Ht.
  destruct (reconnect_run user_handler B io2 WB SB Hio Hs) as (B' & EB & WB' & SB' & TB' & Hw).
  destruct (subscribe_known B' HMSG_FDATA_PUBSUB topic (HUser f) param WB' SB') as (B2 & E2 & Hc2);
    [by rewrite TB'|].
  pose proof (publish_ok topic to payload A WA SA) as EA.
  set (A' := set_env _ _ A) in EA. set (m := pub_msg A topic to payload).
  assert (last_write A' = hmsg_bytes m) as LA by by eapply last_write_app.
  set (mr := mk_msg HMSG_FCMD_REGISTER 0 (n_id B) HMSG_APPID_BROKER 0 0 []) in *.
  assert (last_write B' = hmsg_bytes mr) as LB by (unfold last_write; by rewrite Hw, last_snoc).
  assert (hmsg_frame m) as Fm by by apply mk_msg_frame.
  assert (hmsg_frame mr) as Fr.
  { apply (mk_msg_frame _ _ _ _ _ []). split; [constructor|].
    unfold sizeof_hmsg, HMSG_PATLOAD_SIZE_MAX. simpl. lia. }
  destruct (reach_rep evs st He E) as (r & R & W).
  destruct (handle_sim st r (EvAccept ib p) R W Hacc) as (st1 & E1 & R1 & Hw1).
  pose proof (reg_event_wf st r (EvAccept ib p) R W Hacc) as W1.
  cbn [reg_event fst snd] in R1, W1, Hw1.
  assert (clients (reg_accept ib r) !! ib = Some (Client 0 [])) as Hcb by apply lookup_insert_eq.
  assert (is_Some (clients (reg_accept ib r) !! ia)) as Hca.
  { apply (live_client st r ia R) in La as [c Hc]. cbn. destruct (decide (ib = ia)) as [->|Hn].
    - rewrite lookup_insert_eq. by eexists.
    - rewrite lookup_insert_ne by done. by exists c. }
  destruct (read_frame_sim st1 _ ib mr R1 W1 ltac:(by eapply live_after) Fr) as (st2 & E2' & R2 & Hw2).
  set (r2 := reg_register ib (n_id B) (reg_accept ib r)).
  assert ((reg_frame ib mr (hmsg_bytes mr) (reg_accept ib r)) = (r2, [])) as Er.
  { unfold reg_frame, reg_command, r2, mr. cbn. unfold u16.
    by rewrite (uwrap_small 16 (n_id B)) by apply (wf_id B WB). }
  rewrite Er in R2, Hw2. cbn [fst snd] in R2, Hw2.
  assert (reg_wf r2) as W2 by by apply reg_register_wf.
  assert (clients r2 !! ib = Some (Client (n_id B) [])) as Hcb2.
  { unfold r2, reg_register. rewrite Hcb. apply lookup_insert_eq. }
  assert (live st2 ia = true) as La2.
  { apply (live_after st2 r2); [done|]. unfold r2, reg_register. rewrite Hcb. cbn [clients].
    destruct (decide (ib = ia)) as [->|Hn]; [rewrite lookup_insert_eq; by eexists|].
    by rewrite lookup_insert_ne. }
  destruct (publish_sim st2 r2 ia m R2 W2 La2 Fm Hto) as (st3 & E3 & _ & Hs3).
  exists A', B', B2, st3. rewrite LA, LB. split; [done|]. split; [done|]. split; [done|]. split; [done|].
  cbn [run_events handle broker_read]. cbn [handle] in E1.
  rewrite (bind_ok _ _ _ _ _ E1), (bind_ok _ _ _ _ _ E2'), (bind_ok _ _ _ _ _ E3). split; [done|].
  rewrite Hs3, (registered_only st2 r2 ib _ _ _ R2 W2 Hcb2 eq_refl), app_nil_r.
  unfold sent_to. by rewrite Hw2, Hw1, !app_nil_r.
Qed.
End system.

(** ** Two nodes on the example broker *)

#[local] Existing Instance stb_hihash.
#[local] Existing Instance list_hbuf.


Lemma reconnect_loses_messages_witness :
  exists A' B' st',
    run_events [EvAccept 9 1024; broker_read 9 (last_write B'); broker_read 3 (last_write A')] example_st
      = Ok (tt, st') /\ sent_to 9 (calls st') = sent_to 9 (calls example_st).
Proof.
  destruct (reconnect_loses_messages echo_handler example_evs example_st example_node example_node 3 9 1024 4
    5 11 22 HMSG_APPID_EVERYONR [1] example_evs_ok example_evs_run) as (A' & B' & B2 & st' & _ & _ & _ & _ & E & Hs);
    [vm_compute; reflexivity|vm_compute; reflexivity|exact example_node_wf|exact example_node_wf
    |vm_compute; reflexivity|vm_compute; reflexivity|split; [decided|vm_compute; discriminate]
    |vm_compute; discriminate|discriminate|vm_compute; eexists; reflexivity|vm_compute; eexists; reflexivity|].
  exists A', B', st'. split; [exact E|exact Hs].
Defined.
