(* ===== verification/Lru.v ===== *)
(** Lru: the LRU cache of libhv, [3rd/include/hv/LRUCache.h].

    A [std::list] is a sequence of nodes that keep their address while the list
    changes: [node_list_] is the order of the addresses and [nodes] their contents.
    [hash_map_] holds an iterator, the address of the node, per key.  An iterator
    that is not in the list, dereferenced or spliced, is a fault.  Each method runs
    under the mutex, so it is one step; [evicted] lists the calls of the eviction
    callback. *)

From S2P Require Import Prelude.

Section lru.
Context {K V : Type} `{Countable K}.

Record lru := Lru {
  capacity_ : Z;
  node_list_ : list Z;
  nodes : gmap Z (K * V);
  hash_map_ : gmap K Z;
  eviction_callback_ : bool;     (* a callback is set *)
  evicted : list (K * V)         (* its calls *)
}.

Implicit Types (st : lru) (it : Z) (key : K) (value : V).

(** [LRUCache(capacity)] *)
Definition LRUCache (capacity : Z) : lru :=
  Lru (if capacity =? 0 then 1 else capacity) [] ∅ ∅ false [].

Definition set_eviction_callback (b : bool) : M lru unit :=
  modify (fun st => Lru (capacity_ st) (node_list_ st) (nodes st) (hash_map_ st) b (evicted st)).

(** [*it] *)
Definition node_at it : M lru (K * V) := fun st =>
  if decide (it ∈ node_list_ st) then
    match nodes st !! it with Some n => Ok (n, st) | None => Fault UseAfterFree end
  else Fault UseAfterFree.

(** [eviction_callback_(node.key, node.value)] if it is set. *)
Definition run_callback (n : K * V) : M lru unit :=
  modify (fun st =>
    if eviction_callback_ st
    then Lru (capacity_ st) (node_list_ st) (nodes st) (hash_map_ st) true (evicted st ++ [n])
    else st).

(** [node_list_.erase(it)] *)
Definition list_erase it : M lru unit := fun st =>
  if decide (it ∈ node_list_ st) then
    Ok (tt, Lru (capacity_ st) (filter (fun p => p <> it) (node_list_ st)) (delete it (nodes st))
              (hash_map_ st) (eviction_callback_ st) (evicted st))
  else Fault UseAfterFree.

Definition map_erase key : M lru unit :=
  modify (fun st => Lru (capacity_ st) (node_list_ st) (nodes st) (delete key (hash_map_ st))
                      (eviction_callback_ st) (evicted st)).

(** [it->second->value = value] *)
Definition set_value it value : M lru unit :=
  n ← node_at it;
  modify (fun st => Lru (capacity_ st) (node_list_ st) (<[it := (n.1, value)]> (nodes st)) (hash_map_ st)
                      (eviction_callback_ st) (evicted st)).

Definition move_to_front it : M lru unit := fun st =>
  if decide (head (node_list_ st) = Some it) then Ok (tt, st)
  else if decide (it ∈ node_list_ st) then
    Ok (tt, Lru (capacity_ st) (it :: filter (fun p => p <> it) (node_list_ st)) (nodes st) (hash_map_ st)
              (eviction_callback_ st) (evicted st))
  else Fault UseAfterFree.

Definition evict_lru : M lru unit :=
  l ← gets node_list_;
  match last l with
  | None => mret tt
  | Some it =>
      n ← node_at it;
      run_callback n ≫= fun _ =>
      map_erase n.1 ≫= fun _ =>
      list_erase it
  end.

(** [hash_map_.find(key)] *)
Definition map_find key : M lru (option Z) := gets (fun st => hash_map_ st !! key).

(** [bool get(key, value)]: the value when the result is true. *)
Definition lru_get key : M lru (option V) :=
  i ← map_find key;
  match i with
  | None => mret None
  | Some it => move_to_front it ≫= fun _ => n ← node_at it; mret (Some n.2)
  end.

(** [Value* get(key)]: the address of the node that holds the value. *)
Definition lru_get_ptr key : M lru (option Z) :=
  i ← map_find key;
  match i with
  | None => mret None
  | Some it => move_to_front it ≫= fun _ => node_at it ≫= fun _ => mret (Some it)
  end.

(** [put(key, value)]; [p] is the address of the node that [emplace_front]
    allocates. *)
Definition lru_put (p : Z) key value : M lru bool :=
  i ← map_find key;
  match i with
  | Some it => set_value it value ≫= fun _ => move_to_front it ≫= fun _ => mret false
  | None =>
      full ← gets (fun st => capacity_ st <=? Z.of_nat (length (node_list_ st)));
      (if (full : bool) then evict_lru else mret tt) ≫= fun _ =>
      modify (fun st => Lru (capacity_ st) (p :: node_list_ st) (<[p := (key, value)]> (nodes st))
                          (<[key := p]> (hash_map_ st)) (eviction_callback_ st) (evicted st)) ≫= fun _ =>
      mret true
  end.

Definition lru_remove key : M lru bool :=
  i ← map_find key;
  match i with
  | None => mret false
  | Some it =>
      n ← node_at it;
      run_callback n ≫= fun _ =>
      list_erase it ≫= fun _ =>
      map_erase key ≫= fun _ => mret true
  end.

Definition lru_contains key : M lru bool := i ← map_find key; mret (bool_decide (is_Some i)).

(** The loop [for (const auto& node : node_list_)]. *)
Fixpoint each_node (l : list Z) (f : K * V -> M lru unit) : M lru unit :=
  match l with
  | [] => mret tt
  | it :: l => n ← node_at it; f n ≫= fun _ => each_node l f
  end.

Definition lru_clear : M lru unit :=
  cb ← gets eviction_callback_;
  l ← gets node_list_;
  (if (cb : bool) then each_node l run_callback else mret tt) ≫= fun _ =>
  modify (fun st => Lru (capacity_ st) [] ∅ ∅ (eviction_callback_ st) (evicted st)).

Definition lru_size : M lru Z := gets (fun st => Z.of_nat (length (node_list_ st))).
Definition lru_capacity : M lru Z := gets capacity_.
Definition lru_empty : M lru bool := gets (fun st => bool_decide (node_list_ st = [])).

(** [while (node_list_.size() > capacity_) evict_lru();] *)
Fixpoint evict_excess (fuel : nat) : M lru unit :=
  excess ← gets (fun st => capacity_ st <? Z.of_nat (length (node_list_ st)));
  if negb excess then mret tt
  else match fuel with O => fail OutOfFuel | S fuel => evict_lru ≫= fun _ => evict_excess fuel end.

Definition lru_set_capacity (new_capacity : Z) : M lru unit :=
  let new_capacity := if new_capacity =? 0 then 1 else new_capacity in
  modify (fun st => Lru new_capacity (node_list_ st) (nodes st) (hash_map_ st) (eviction_callback_ st)
                      (evicted st)) ≫= fun _ =>
  n ← gets (fun st => length (node_list_ st));
  evict_excess n.

(** [for_each(func)]: the pairs [func] is called with. *)
Fixpoint collect (l : list Z) : M lru (list (K * V)) :=
  match l with
  | [] => mret []
  | it :: l => n ← node_at it; ns ← collect l; mret (n :: ns)
  end.
Definition lru_for_each : M lru (list (K * V)) := l ← gets node_list_; collect l.

(** The loop of [remove_if] over the nodes in [l]. *)
Fixpoint remove_loop (pred : K * V -> bool) (l : list Z) (removed_count : Z) : M lru Z :=
  match l with
  | [] => mret removed_count
  | it :: l =>
      n ← node_at it;
      if pred n then
        run_callback n ≫= fun _ =>
        map_erase n.1 ≫= fun _ =>
        list_erase it ≫= fun _ => remove_loop pred l (removed_count + 1)
      else remove_loop pred l removed_count
  end.
Definition lru_remove_if (pred : K * V -> bool) : M lru Z := l ← gets node_list_; remove_loop pred l 0.

(** ** Specification: the entries, most recently used first *)

Record cache := Cache { c_cap : Z; c_items : list (K * V); c_cb : bool; c_log : list (K * V) }.

Implicit Types (c : cache) (items : list (K * V)).

Definition lookup_item key items : option V := snd <$> (list_find (fun e => e.1 = key) items ≫= fun x => Some x.2).
Definition without key items : list (K * V) := filter (fun e => e.1 <> key) items.
Definition logged c (es : list (K * V)) : list (K * V) := if c_cb c then c_log c ++ es else c_log c.

Definition c_get key c : option V * cache :=
  match lookup_item key (c_items c) with
  | None => (None, c)
  | Some v => (Some v, Cache (c_cap c) ((key, v) :: without key (c_items c)) (c_cb c) (c_log c))
  end.

Definition c_put key value c : bool * cache :=
  match lookup_item key (c_items c) with
  | Some _ => (false, Cache (c_cap c) ((key, value) :: without key (c_items c)) (c_cb c) (c_log c))
  | None =>
      let n := (length (c_items c) - 1)%nat in
      if c_cap c <=? Z.of_nat (length (c_items c)) then
        (true, Cache (c_cap c) ((key, value) :: take n (c_items c)) (c_cb c) (logged c (drop n (c_items c))))
      else (true, Cache (c_cap c) ((key, value) :: c_items c) (c_cb c) (c_log c))
  end.

Definition c_remove key c : bool * cache :=
  match lookup_item key (c_items c) with
  | None => (false, c)
  | Some v => (true, Cache (c_cap c) (without key (c_items c)) (c_cb c) (logged c [(key, v)]))
  end.

Definition c_clear c : cache := Cache (c_cap c) [] (c_cb c) (logged c (c_items c)).

(** The least recently used entries go, the oldest first. *)
Definition c_set_capacity (n : Z) c : cache :=
  let n := if n =? 0 then 1 else n in
  Cache n (take (Z.to_nat n) (c_items c)) (c_cb c) (logged c (reverse (drop (Z.to_nat n) (c_items c)))).

Definition c_remove_if (pred : K * V -> bool) c : Z * cache :=
  (Z.of_nat (length (filter (fun e => pred e = true) (c_items c))),
   Cache (c_cap c) (filter (fun e => pred e = false) (c_items c)) (c_cb c)
     (logged c (filter (fun e => pred e = true) (c_items c)))).

(** ** Operations as data *)

Inductive lru_op :=
  | OpCallback (b : bool) | OpGet (key : K) | OpPut (p : Z) (key : K) (value : V) | OpRemove (key : K)
  | OpContains (key : K) | OpClear | OpSize | OpCapacity | OpEmpty | OpSetCapacity (n : Z) | OpForEach
  | OpRemoveIf (pred : K * V -> bool).

Inductive out := OutUnit | OutVal (o : option V) | OutBool (b : bool) | OutNum (n : Z) | OutItems (l : list (K * V)).

Definition lru_step (op : lru_op) : M lru out :=
  match op with
  | OpCallback b => set_eviction_callback b ≫= fun _ => mret OutUnit
  | OpGet key => o ← lru_get key; mret (OutVal o)
  | OpPut p key value => b ← lru_put p key value; mret (OutBool b)
  | OpRemove key => b ← lru_remove key; mret (OutBool b)
  | OpContains key => b ← lru_contains key; mret (OutBool b)
  | OpClear => lru_clear ≫= fun _ => mret OutUnit
  | OpSize => n ← lru_size; mret (OutNum n)
  | OpCapacity => n ← lru_capacity; mret (OutNum n)
  | OpEmpty => b ← lru_empty; mret (OutBool b)
  | OpSetCapacity n => lru_set_capacity n ≫= fun _ => mret OutUnit
  | OpForEach => l ← lru_for_each; mret (OutItems l)
  | OpRemoveIf pred => n ← lru_remove_if pred; mret (OutNum n)
  end.

Definition c_step (op : lru_op) c : out * cache :=
  match op with
  | OpCallback b => (OutUnit, Cache (c_cap c) (c_items c) b (c_log c))
  | OpGet key => let '(o, c) := c_get key c in (OutVal o, c)
  | OpPut _ key value => let '(b, c) := c_put key value c in (OutBool b, c)
  | OpRemove key => let '(b, c) := c_remove key c in (OutBool b, c)
  | OpContains key => (OutBool (bool_decide (is_Some (lookup_item key (c_items c)))), c)
  | OpClear => (OutUnit, c_clear c)
  | OpSize => (OutNum (Z.of_nat (length (c_items c))), c)
  | OpCapacity => (OutNum (c_cap c), c)
  | OpEmpty => (OutBool (bool_decide (c_items c = [])), c)
  | OpSetCapacity n => (OutUnit, c_set_capacity n c)
  | OpForEach => (OutItems (c_items c), c)
  | OpRemoveIf pred => let '(n, c) := c_remove_if pred c in (OutNum n, c)
  end.

Fixpoint lru_run (ops : list lru_op) : M lru (list out) :=
  match ops with
  | [] => mret []
  | op :: ops => o ← lru_step op; os ← lru_run ops; mret (o :: os)
  end.
Fixpoint c_run (ops : list lru_op) c : list out * cache :=
  match ops with
  | [] => ([], c)
  | op :: ops => let '(o, c) := c_step op c in let '(os, c) := c_run ops c in (o :: os, c)
  end.

(** [emplace_front] gets memory that no node occupies; capacities are [size_t]. *)
Definition op_ok (op : lru_op) st : bool :=
  match op with
  | OpPut p _ _ => bool_decide (nodes st !! p = None)
  | OpSetCapacity n => 0 <=? n
  | _ => true
  end.
Fixpoint ops_ok (ops : list lru_op) st : bool :=
  match ops with
  | [] => true
  | op :: ops =>
      op_ok op st && match lru_step op st with Ok (_, st) => ops_ok ops st | Fault _ => true end
  end.

(** ** Representation *)

(** The entries of the list with their addresses. *)
Abbreviation entry := (Z * (K * V))%type.
Implicit Types (E : list entry) (e : entry).

Definition hmap E : gmap K Z := list_to_map ((fun e => (e.2.1, e.1)) <$> E).

Record lrep E st c : Prop := {
  lr_list : node_list_ st = E.*1;
  lr_items : c_items c = E.*2;
  lr_addr : NoDup E.*1;
  lr_keys : NoDup (E.*2).*1;
  lr_nodes e : e ∈ E -> nodes st !! e.1 = Some e.2;
  lr_dom p : p ∉ E.*1 -> nodes st !! p = None;
  lr_map : hash_map_ st = hmap E;
  lr_cap : capacity_ st = c_cap c /\ 1 <= c_cap c;
  lr_cb : eviction_callback_ st = c_cb c /\ evicted st = c_log c
}.

Definition set_items items c : cache := Cache (c_cap c) items (c_cb c) (c_log c).

Lemma hmap_keys E : ((fun e => (e.2.1, e.1)) <$> E).*1 = (E.*2).*1.
Proof. by rewrite <- !list_fmap_compose. Qed.

Lemma hmap_perm E E' : NoDup (E.*2).*1 -> E ≡ₚ E' -> hmap E = hmap E'.
Proof.
  intros Hnd Hp. apply list_to_map_proper; [by rewrite hmap_keys|by f_equiv].
Qed.

Lemma hmap_lookup E k p :
  NoDup (E.*2).*1 -> hmap E !! k = Some p <-> exists v, (p, (k, v)) ∈ E.
Proof.
  intros Hnd. unfold hmap.
  assert (NoDup ((fun e => (e.2.1, e.1)) <$> E).*1) as Hk by (by rewrite hmap_keys).
  rewrite <- (elem_of_list_to_map _ k p Hk), list_elem_of_fmap. split.
  - intros ([p' [k' v]] & [= -> ->] & Hin). by exists v.
  - intros [v Hin]. by exists (p, (k, v)).
Qed.

Lemma lookup_item_Some k v items :
  NoDup items.*1 -> lookup_item k items = Some v <-> (k, v) ∈ items.
Proof.
  intros Hnd. unfold lookup_item. split.
  - destruct (list_find _ items) as [[i [k' v']]|] eqn:Ef; simpl; [|done]. intros [= <-].
    apply list_find_Some in Ef as (Hi & Hk & _). simpl in Hk. subst k'. by eapply list_elem_of_lookup_2.
  - intros [i Hi]%list_elem_of_lookup_1.
    enough (list_find (fun e : K * V => e.1 = k) items = Some (i, (k, v))) as -> by done.
    apply list_find_Some. split; [done|]. split; [done|]. intros j [k' v'] Hj Hlt Hk. simpl in Hk. subst k'.
    enough (i = j) by lia. eapply NoDup_lookup; [exact Hnd|rewrite list_lookup_fmap, Hi; done|].
    by rewrite list_lookup_fmap, Hj.
Qed.

Lemma lookup_item_None k items : lookup_item k items = None <-> k ∉ items.*1.
Proof.
  unfold lookup_item. destruct (list_find _ items) as [[i e]|] eqn:Ef; simpl; split; try done.
  - apply list_find_Some in Ef as (Hi & <- & _). intros Hn. exfalso. apply Hn.
    apply list_elem_of_fmap. exists e. split; [done|by eapply list_elem_of_lookup_2].
  - intros _ Hk. apply list_elem_of_fmap in Hk as (e & -> & He).
    apply list_find_None, Forall_forall with (x := e) in Ef; [|done]. by apply Ef.
Qed.

(** An entry taken out of the middle. *)
Lemma entry_split E p k v :
  (p, (k, v)) ∈ E -> exists E1 E2, E = E1 ++ (p, (k, v)) :: E2.
Proof. intros H1. by apply list_elem_of_split in H1. Qed.

Lemma filter_out {A} (P : A -> Prop) {HP : forall x, Decision (P x)} (l1 l2 : list A) x :
  ~ P x -> Forall P (l1 ++ l2) -> filter P (l1 ++ x :: l2) = l1 ++ l2.
Proof.
  intros Hx [H1 H2]%Forall_app. rewrite filter_app, filter_cons, decide_False by done.
  by rewrite !filter_all.
Qed.

Lemma without_split E1 E2 p k v :
  NoDup (E1 ++ (p, (k, v)) :: E2).*1 -> NoDup ((E1 ++ (p, (k, v)) :: E2).*2).*1 ->
  filter (fun q => q <> p) (E1 ++ (p, (k, v)) :: E2).*1 = (E1 ++ E2).*1 /\
  without k (E1 ++ (p, (k, v)) :: E2).*2 = (E1 ++ E2).*2 /\
  NoDup (E1 ++ E2).*1 /\ NoDup ((E1 ++ E2).*2).*1 /\ (p ∉ (E1 ++ E2).*1) /\ (k ∉ ((E1 ++ E2).*2).*1).
Proof.
  intros Hp Hk.
  assert (E1 ++ (p, (k, v)) :: E2 ≡ₚ (p, (k, v)) :: E1 ++ E2) as Hperm
    by (symmetry; apply Permutation_middle).
  rewrite Hperm, fmap_cons in Hp. apply NoDup_cons in Hp as [Hp1 Hp2].
  rewrite Hperm, fmap_cons, fmap_cons in Hk. apply NoDup_cons in Hk as [Hk1 Hk2].
  change ((p, (k, v)).1) with p in Hp1. change ((p, (k, v)).2.1) with k in Hk1.
  split_and!; try done.
  - rewrite (fmap_app fst E1 (_ :: _)), fmap_cons, (fmap_app fst E1 E2). rewrite (fmap_app fst E1 E2) in Hp1.
    apply filter_out; [tauto|]. apply Forall_forall. by intros q Hq ->.
  - unfold without. rewrite (fmap_app snd E1 (_ :: _)), fmap_cons. cbn [snd].
    rewrite (fmap_app snd E1 E2). rewrite (fmap_app snd E1 E2) in Hk1.
    apply filter_out; [cbn; tauto|]. apply Forall_forall. intros e He <-. apply Hk1.
    apply list_elem_of_fmap. by exists e.
Qed.

(** The fields of a state after its list, nodes and map change. *)
Definition restate (l : list Z) (n : gmap Z (K * V)) (m : gmap K Z) (log : list (K * V)) st : lru :=
  Lru (capacity_ st) l n m (eviction_callback_ st) log.

Lemma restate_id st : restate (node_list_ st) (nodes st) (hash_map_ st) (evicted st) st = st.
Proof. by destruct st. Qed.

Lemma node_at_ok E st c e : lrep E st c -> e ∈ E -> node_at e.1 st = Ok (e.2, st).
Proof.
  intros R He. unfold node_at. rewrite (lr_list E st c R).
  rewrite decide_True by (apply list_elem_of_fmap; by exists e). by rewrite (lr_nodes E st c R).
Qed.

Lemma run_callback_ok n st :
  run_callback n st = Ok (tt, restate (node_list_ st) (nodes st) (hash_map_ st)
    (if eviction_callback_ st then evicted st ++ [n] else evicted st) st).
Proof. unfold run_callback, modify, restate. destruct st as [? ? ? ? []]; reflexivity. Qed.

Lemma lru_find_ok E st c key :
  lrep E st c ->
  exists o, map_find key st = Ok (o, st) /\
    match o with
    | Some p => exists v E1 E2, E = E1 ++ (p, (key, v)) :: E2 /\ lookup_item key (c_items c) = Some v
    | None => lookup_item key (c_items c) = None /\ key ∉ (E.*2).*1
    end.
Proof.
  intros R. exists (hash_map_ st !! key). split; [done|]. rewrite (lr_map E st c R).
  pose proof (lr_keys E st c R) as Hnd.
  destruct (hmap E !! key) as [p|] eqn:Eh.
  - apply hmap_lookup in Eh as [v Hin]; [|done]. destruct (entry_split E p key v Hin) as (E1 & E2 & ->).
    exists v, E1, E2. split; [done|]. rewrite (lr_items _ st c R). apply lookup_item_Some; [done|].
    apply list_elem_of_fmap. by exists (p, (key, v)).
  - assert (key ∉ (E.*2).*1) as Hk.
    { intros ([k v] & -> & Hin)%list_elem_of_fmap. apply list_elem_of_fmap in Hin as ([p e] & Ee & Hin).
      simpl in Ee. subst e. assert (hmap E !! k = Some p) by (apply hmap_lookup; [done|by exists v]). simpl in Eh. congruence. }
    split; [|done]. rewrite (lr_items _ st c R). by apply lookup_item_None.
Qed.

(** Removing an entry. *)
Lemma remove_entry E1 E2 p k v st c log :
  lrep (E1 ++ (p, (k, v)) :: E2) st c ->
  lrep (E1 ++ E2)
    (restate (filter (fun q => q <> p) (node_list_ st)) (delete p (nodes st)) (delete k (hash_map_ st)) log st)
    (Cache (c_cap c) (without k (c_items c)) (c_cb c) log).
Proof.
  intros R. pose proof (lr_addr _ _ _ R) as Ha. pose proof (lr_keys _ _ _ R) as Hk.
  destruct (without_split E1 E2 p k v Ha Hk) as (F1 & F2 & N1 & N2 & Np & Nk).
  split; cbn.
  - by rewrite (lr_list _ _ _ R).
  - by rewrite (lr_items _ _ _ R).
  - done.
  - done.
  - intros e He. rewrite lookup_delete_ne.
    + apply (lr_nodes _ _ _ R). rewrite elem_of_app, elem_of_cons. rewrite elem_of_app in He. tauto.
    + intros ->. apply Np. apply list_elem_of_fmap. by exists e.
  - intros q Hq. rewrite lookup_delete_None. destruct (decide (p = q)) as [->|Hn]; [by left|right].
    apply (lr_dom _ _ _ R). rewrite fmap_app, fmap_cons, elem_of_app, elem_of_cons. cbn.
    rewrite fmap_app, elem_of_app in Hq. intuition congruence.
  - rewrite (lr_map _ _ _ R).
    rewrite (hmap_perm _ ((p, (k, v)) :: E1 ++ E2) Hk) by (symmetry; apply Permutation_middle).
    unfold hmap. cbn. rewrite delete_insert_id; [done|]. apply not_elem_of_list_to_map. by rewrite hmap_keys.
  - apply (lr_cap _ _ _ R).
  - split; [apply (lr_cb _ _ _ R)|done].
Qed.

(** [move_to_front] and [evict_lru]. *)
Lemma move_to_front_ok E1 E2 p k v st c :
  lrep (E1 ++ (p, (k, v)) :: E2) st c ->
  exists st', move_to_front p st = Ok (tt, st') /\
    lrep ((p, (k, v)) :: E1 ++ E2) st' (set_items ((k, v) :: without k (c_items c)) c).
Proof.
  intros R. pose proof (lr_addr _ _ _ R) as Ha. pose proof (lr_keys _ _ _ R) as Hk.
  destruct (without_split E1 E2 p k v Ha Hk) as (F1 & F2 & N1 & N2 & Np & Nk).
  assert ((p, (k, v)) :: E1 ++ E2 ≡ₚ E1 ++ (p, (k, v)) :: E2) as Hperm by apply Permutation_middle.
  unfold move_to_front. rewrite (lr_list _ _ _ R). case_decide as Hd.
  - exists st. split; [done|]. destruct E1 as [|e E1].
    + unfold set_items. rewrite (lr_items _ _ _ R), F2. destruct R, c. by split.
    + exfalso. simpl in Hd. injection Hd as Hd. apply Np. simpl. rewrite Hd. by left.
  - rewrite decide_True by (rewrite fmap_app, fmap_cons, elem_of_app, elem_of_cons; cbn; tauto).
    eexists. split; [done|]. rewrite F1. split; cbn.
    + done.
    + by rewrite (lr_items _ _ _ R), F2.
    + apply NoDup_cons. by split.
    + apply NoDup_cons. by split.
    + intros e He. apply (lr_nodes _ _ _ R). by rewrite <- Hperm.
    + intros q Hq. apply (lr_dom _ _ _ R). by rewrite <- Hperm.
    + rewrite (lr_map _ _ _ R). exact (hmap_perm _ ((p, (k, v)) :: E1 ++ E2) Hk (symmetry Hperm)).
    + apply (lr_cap _ _ _ R).
    + apply (lr_cb _ _ _ R).
Qed.

(** Callback, [hash_map_.erase] and [node_list_.erase], in the order of the code. *)
Lemma erase_ok E1 E2 p k v st c :
  lrep (E1 ++ (p, (k, v)) :: E2) st c ->
  exists st', lrep (E1 ++ E2) st' (Cache (c_cap c) (without k (c_items c)) (c_cb c) (logged c [(k, v)])) /\
    (run_callback (k, v) ≫= fun _ => map_erase k ≫= fun _ => list_erase p) st = Ok (tt, st') /\
    (run_callback (k, v) ≫= fun _ => list_erase p ≫= fun _ => map_erase k) st = Ok (tt, st').
Proof.
  intros R. pose proof (remove_entry E1 E2 p k v st c (logged c [(k, v)]) R) as R'.
  assert (p ∈ node_list_ st) as Hp.
  { rewrite (lr_list _ _ _ R), fmap_app, fmap_cons, elem_of_app, elem_of_cons. cbn. tauto. }
  eexists. split; [exact R'|]. unfold logged. destruct (lr_cb _ _ _ R) as [Hcb Hlog].
  rewrite <- Hcb, <- Hlog.
  split; rewrite (bind_ok _ _ _ _ _ (run_callback_ok (k, v) st));
    unfold map_erase, list_erase, modify, mbind, M_bind, restate; cbn; by rewrite decide_True.
Qed.

Lemma evict_lru_ok E0 p k v st c :
  lrep (E0 ++ [(p, (k, v))]) st c ->
  exists st', evict_lru st = Ok (tt, st') /\
    lrep E0 st' (Cache (c_cap c) E0.*2 (c_cb c) (logged c [(k, v)])).
Proof.
  intros R. destruct (erase_ok E0 [] p k v st c R) as (st' & R' & E1 & _).
  rewrite app_nil_r in R'. exists st'.
  destruct (without_split E0 [] p k v (lr_addr _ _ _ R) (lr_keys _ _ _ R)) as (_ & F2 & _).
  rewrite app_nil_r in F2. rewrite (lr_items _ _ _ R), F2 in R'. split; [|done].
  unfold evict_lru. rewrite (bind_ok (gets _) _ st (node_list_ st) st) by done.
  rewrite (lr_list _ _ _ R), fmap_app. cbn [fmap list_fmap]. rewrite last_snoc.
  rewrite (bind_ok _ _ _ _ _ (node_at_ok _ st c (p, (k, v)) R ltac:(by apply elem_of_app; right; left))).
  exact E1.
Qed.

(** ** Every operation *)

(** [m] returns [a] and takes the cache to [c']. *)
Definition lsim {A} (m : M lru A) st (a : A) (c' : cache) : Prop :=
  exists st' E', m st = Ok (a, st') /\ lrep E' st' c'.

Lemma get_sim E st c key : lrep E st c -> lsim (lru_get key) st (c_get key c).1 (c_get key c).2.
Proof.
  intros R. destruct (lru_find_ok E st c key R) as (o & Ef & Ho). unfold lsim, lru_get, c_get.
  rewrite (bind_ok _ _ _ _ _ Ef). destruct o as [p|].
  - destruct Ho as (v & E1 & E2 & -> & ->).
    destruct (move_to_front_ok E1 E2 p key v st c R) as (st' & Em & R').
    rewrite (bind_ok _ _ _ _ _ Em). exists st', ((p, (key, v)) :: E1 ++ E2).
    rewrite (bind_ok _ _ _ _ _ (node_at_ok _ st' _ (p, (key, v)) R' ltac:(by left))). done.
  - destruct Ho as [-> _]. by exists st, E.
Qed.

Lemma get_ptr_sim E st c key :
  lrep E st c -> exists o, lsim (lru_get_ptr key) st o (c_get key c).2 /\
    match o with Some p => exists v, lookup_item key (c_items c) = Some v | None => lookup_item key (c_items c) = None end.
Proof.
  intros R. destruct (lru_find_ok E st c key R) as (o & Ef & Ho). exists o. unfold lsim, lru_get_ptr, c_get.
  rewrite (bind_ok _ _ _ _ _ Ef). destruct o as [p|].
  - destruct Ho as (v & E1 & E2 & -> & ->). split; [|by exists v].
    destruct (move_to_front_ok E1 E2 p key v st c R) as (st' & Em & R').
    rewrite (bind_ok _ _ _ _ _ Em). exists st', ((p, (key, v)) :: E1 ++ E2).
    rewrite (bind_ok _ _ _ _ _ (node_at_ok _ st' _ (p, (key, v)) R' ltac:(by left))). done.
  - destruct Ho as [-> _]. split; [by exists st, E|done].
Qed.

Lemma set_value_ok E1 E2 p k v v' st c :
  lrep (E1 ++ (p, (k, v)) :: E2) st c ->
  exists st', set_value p v' st = Ok (tt, st') /\
    lrep (E1 ++ (p, (k, v')) :: E2) st' (set_items (E1 ++ (p, (k, v')) :: E2).*2 c).
Proof.
  intros R. unfold set_value.
  rewrite (bind_ok _ _ _ _ _ (node_at_ok _ st c (p, (k, v)) R ltac:(by apply elem_of_app; right; left))).
  eexists. split; [done|].
  pose proof (lr_addr _ _ _ R) as Ha. pose proof (lr_keys _ _ _ R) as Hk.
  destruct (without_split E1 E2 p k v Ha Hk) as (_ & _ & _ & _ & Np & _).
  assert ((E1 ++ (p, (k, v')) :: E2).*1 = (E1 ++ (p, (k, v)) :: E2).*1) as F1 by by rewrite !fmap_app.
  assert (((E1 ++ (p, (k, v')) :: E2).*2).*1 = ((E1 ++ (p, (k, v)) :: E2).*2).*1) as F2
    by by rewrite !fmap_app.
  split; cbn -[fmap].
  - rewrite F1. apply R.
  - done.
  - rewrite F1. apply R.
  - rewrite F2. apply R.
  - intros e He. apply elem_of_app in He. rewrite elem_of_cons in He.
    destruct (decide (e.1 = p)) as [E|E].
    + assert (e = (p, (k, v'))) as ->.
      { destruct He as [He|[He|He]]; [|done|]; exfalso; apply Np; apply list_elem_of_fmap; exists e;
          (split; [done|]); apply elem_of_app; tauto. }
      apply lookup_insert_eq.
    + rewrite lookup_insert_ne by done. apply (lr_nodes _ _ _ R). apply elem_of_app. rewrite elem_of_cons.
      destruct He as [He|[->|He]]; [by left|done|by right; right].
  - intros q Hq. rewrite F1 in Hq. rewrite lookup_insert_ne; [by apply (lr_dom _ _ _ R)|].
    intros <-. apply Hq. rewrite fmap_app, fmap_cons, elem_of_app, elem_of_cons. cbn. tauto.
  - rewrite (lr_map _ _ _ R). unfold hmap. by rewrite !fmap_app.
  - apply R.
  - apply R.
Qed.

(** [emplace_front] and the new entry of the map. *)
Lemma push_front_ok E st c p k v :
  lrep E st c -> nodes st !! p = None -> (k ∉ (E.*2).*1) ->
  lrep ((p, (k, v)) :: E)
    (Lru (capacity_ st) (p :: node_list_ st) (<[p := (k, v)]> (nodes st)) (<[k := p]> (hash_map_ st))
       (eviction_callback_ st) (evicted st)) (set_items ((k, v) :: c_items c) c).
Proof.
  intros R Hp Hk.
  assert (p ∉ E.*1) as Np.
  { intros (e & -> & He)%list_elem_of_fmap. rewrite (lr_nodes _ _ _ R e He) in Hp. done. }
  split; cbn -[fmap].
  - rewrite fmap_cons. by rewrite (lr_list _ _ _ R).
  - rewrite fmap_cons. by rewrite (lr_items _ _ _ R).
  - rewrite fmap_cons. apply NoDup_cons. split; [done|apply R].
  - rewrite !fmap_cons. apply NoDup_cons. split; [done|apply R].
  - intros e [->|He]%elem_of_cons; [apply lookup_insert_eq|].
    rewrite lookup_insert_ne; [by apply (lr_nodes _ _ _ R)|]. intros E1. apply Np.
    apply list_elem_of_fmap. by exists e.
  - intros q Hq. rewrite fmap_cons, elem_of_cons in Hq. rewrite lookup_insert_ne by (cbn in Hq; intuition congruence).
    apply (lr_dom _ _ _ R). tauto.
  - by rewrite (lr_map _ _ _ R).
  - apply R.
  - apply R.
Qed.

Lemma put_sim E st c p key value :
  lrep E st c -> nodes st !! p = None -> lsim (lru_put p key value) st (c_put key value c).1 (c_put key value c).2.
Proof.
  intros R Hp. destruct (lru_find_ok E st c key R) as (o & Ef & Ho). unfold lsim, lru_put, c_put.
  rewrite (bind_ok _ _ _ _ _ Ef). destruct o as [it|].
  - destruct Ho as (v & E1 & E2 & -> & ->).
    destruct (set_value_ok E1 E2 it key v value st c R) as (st1 & Es & R1).
    destruct (move_to_front_ok E1 E2 it key value st1 _ R1) as (st2 & Em & R2).
    rewrite (bind_ok _ _ _ _ _ Es), (bind_ok _ _ _ _ _ Em).
    exists st2, ((it, (key, value)) :: E1 ++ E2). split; [done|].
    destruct (without_split E1 E2 it key v (lr_addr _ _ _ R) (lr_keys _ _ _ R)) as (_ & F2 & _).
    destruct (without_split E1 E2 it key value (lr_addr _ _ _ R1) (lr_keys _ _ _ R1)) as (_ & F3 & _).
    cbn [c_items set_items] in R2. rewrite F3, <- F2, <- (lr_items _ _ _ R) in R2. exact R2.
  - destruct Ho as [-> Hk]. destruct (lr_cap _ _ _ R) as [Hcap Hc1].
    assert (length (node_list_ st) = length E) as El by (by rewrite (lr_list _ _ _ R), length_fmap).
    rewrite (bind_ok (gets _) _ st (c_cap c <=? Z.of_nat (length (c_items c))) st).
    2:{ unfold gets. by rewrite Hcap, El, (lr_items _ _ _ R), length_fmap. }
    destruct (Z.leb_spec (c_cap c) (Z.of_nat (length (c_items c)))) as [Hfull|Hroom].
    + rewrite (lr_items _ _ _ R), length_fmap in Hfull |- *.
      destruct E as [|e E _] using rev_ind; [simpl in Hfull; lia|]. destruct e as [p0 [k0 v0]].
      destruct (evict_lru_ok E p0 k0 v0 st c R) as (st1 & Ee & R1).
      rewrite (bind_ok _ _ _ _ _ Ee).
      assert (nodes st1 !! p = None) as Hp1.
      { apply (lr_dom _ _ _ R1). intros (e & -> & He)%list_elem_of_fmap.
        rewrite (lr_nodes _ _ _ R e) in Hp; [done|]. apply elem_of_app. by left. }
      assert (key ∉ (E.*2).*1) as Hk1.
      { intros Hin. apply Hk. rewrite !fmap_app, elem_of_app. by left. }
      pose proof (push_front_ok E st1 _ p key value R1 Hp1 Hk1) as R2.
      unfold modify. unfold mbind at 1, M_bind. eexists _, _. split; [done|].
      rewrite fmap_app, length_app. cbn [length fmap list_fmap snd].
      replace (length E + 1 - 1)%nat with (length E.*2) by (rewrite length_fmap; lia).
      rewrite take_app_length, drop_app_length. exact R2.
    + rewrite (bind_ok (mret tt) _ st tt st) by done.
      pose proof (push_front_ok E st c p key value R Hp Hk) as R2.
      unfold modify. unfold mbind at 1, M_bind. eexists _, _. split; [done|]. exact R2.
Qed.

Lemma remove_sim E st c key : lrep E st c -> lsim (lru_remove key) st (c_remove key c).1 (c_remove key c).2.
Proof.
  intros R. destruct (lru_find_ok E st c key R) as (o & Ef & Ho). unfold lsim, lru_remove, c_remove.
  rewrite (bind_ok _ _ _ _ _ Ef). destruct o as [p|].
  - destruct Ho as (v & E1 & E2 & -> & ->).
    destruct (erase_ok E1 E2 p key v st c R) as (st' & R' & _ & Ee).
    rewrite (bind_ok _ _ _ _ _ (node_at_ok _ st c (p, (key, v)) R ltac:(by apply elem_of_app; right; left))).
    exists st', (E1 ++ E2). split; [|done]. revert Ee. unfold mbind, M_bind. cbn [snd].
    destruct (run_callback (key, v) st) as [[[] s1]|]; [|done].
    destruct (list_erase p s1) as [[[] s2]|]; [|done].
    destruct (map_erase key s2) as [[[] s3]|]; [|done]. by intros [= ->].
  - destruct Ho as [-> _]. by exists st, E.
Qed.

Lemma each_node_ok F E st c :
  lrep E st c -> (forall e, e ∈ F -> e ∈ E) -> eviction_callback_ st = true ->
  exists st', each_node F.*1 run_callback st = Ok (tt, st') /\
    lrep E st' (Cache (c_cap c) (c_items c) (c_cb c) (c_log c ++ F.*2)).
Proof.
  revert st c; induction F as [|e F IH]; intros st c R Hin Hcb.
  { exists st. split; [done|]. rewrite app_nil_r. by destruct c. }
  cbn [fmap list_fmap each_node].
  rewrite (bind_ok _ _ _ _ _ (node_at_ok _ st c e R ltac:(apply Hin; by left))).
  rewrite (bind_ok _ _ _ _ _ (run_callback_ok e.2 st)).
  destruct (lr_cb _ _ _ R) as [Hc1 Hc2].
  set (st1 := restate _ _ _ _ st).
  assert (lrep E st1 (Cache (c_cap c) (c_items c) (c_cb c) (c_log c ++ [e.2]))) as R1.
  { destruct R. split; try done. split; [done|]. cbn. by rewrite Hcb, Hc2. }
  destruct (IH st1 _ R1) as (st' & E' & R').
  { intros x Hx. apply Hin. by right. }
  { done. }
  exists st'. split; [done|]. cbn in R'. by rewrite <- app_assoc in R'.
Qed.

Lemma clear_sim E st c : lrep E st c -> lsim lru_clear st tt (c_clear c).
Proof.
  intros R. unfold lsim, lru_clear. destruct (lr_cb _ _ _ R) as [Hc1 Hc2].
  rewrite (bind_ok (gets _) _ st (eviction_callback_ st) st) by done.
  rewrite (bind_ok (gets _) _ st (node_list_ st) st) by done.
  assert (exists st1, (if eviction_callback_ st then each_node (node_list_ st) run_callback else mret tt) st = Ok (tt, st1) /\
    lrep E st1 (Cache (c_cap c) (c_items c) (c_cb c) (logged c (c_items c)))) as (st1 & E1 & R1).
  { unfold logged. rewrite <- Hc1. destruct (eviction_callback_ st) eqn:Hcb.
    - rewrite (lr_list _ _ _ R), (lr_items _ _ _ R).
      destruct (each_node_ok E E st c R) as (st1 & E1 & R1); [done|done|].
      exists st1. split; [done|]. by rewrite (lr_items _ _ _ R) , <- Hc1 in R1.
    - exists st. split; [done|]. destruct c as [? ? cb ?]. cbn in *. by subst. }
  rewrite (bind_ok _ _ _ _ _ E1). eexists _, []. split; [done|].
  split; cbn; try done; try constructor.
  - by intros e ?%not_elem_of_nil.
  - apply R1.
  - apply R1.
  - apply (lr_cb _ _ _ R1).
  - apply (lr_cb _ _ _ R1).
Qed.

(** The loop of [set_capacity] evicts from the end. *)
Lemma evict_excess_ok fuel E st c :
  lrep E st c -> (length E <= fuel)%nat ->
  exists st', evict_excess fuel st = Ok (tt, st') /\
    lrep (take (Z.to_nat (c_cap c)) E) st'
      (Cache (c_cap c) (take (Z.to_nat (c_cap c)) E).*2 (c_cb c)
        (logged c (reverse (drop (Z.to_nat (c_cap c)) E).*2))).
Proof.
  revert E st c; induction fuel as [|fuel IH]; intros E st c R Hl;
    destruct (lr_cap _ _ _ R) as [Hcap Hc1].
  all: assert (length (node_list_ st) = length E) as El by (by rewrite (lr_list _ _ _ R), length_fmap).
  all: cbn [evict_excess].
  all: rewrite (bind_ok (gets _) _ st (c_cap c <? Z.of_nat (length E)) st) by (unfold gets; by rewrite Hcap, El).
  all: destruct (Z.ltb_spec (c_cap c) (Z.of_nat (length E))) as [Hx|Hx]; cbn [negb].
  - lia.
  - exists st. rewrite take_ge, drop_ge by lia. split; [done|].
    unfold logged. cbn. rewrite app_nil_r. rewrite <- (lr_items _ _ _ R). destruct c as [? ? []]; exact R.
  - destruct E as [|e E _] using rev_ind; [simpl in Hx; lia|]. destruct e as [p0 [k0 v0]].
    rewrite length_app in *. cbn [length] in *.
    destruct (evict_lru_ok E p0 k0 v0 st c R) as (st1 & Ee & R1). rewrite (bind_ok _ _ _ _ _ Ee).
    destruct (IH E st1 _ R1) as (st2 & E2 & R2); [lia|]. exists st2. split; [done|].
    cbn [c_cap c_cb] in R2. rewrite take_app_le, drop_app_le by lia.
    rewrite fmap_app, reverse_app. unfold logged in *. cbn [c_cb c_log] in R2. cbn [fmap list_fmap snd reverse] in *.
    destruct (c_cb c); [|exact R2]. by rewrite <- app_assoc in R2.
  - exists st. rewrite take_ge, drop_ge by lia. split; [done|].
    unfold logged. cbn. rewrite app_nil_r. rewrite <- (lr_items _ _ _ R). destruct c as [? ? []]; exact R.
Qed.

Lemma set_capacity_sim E st c n :
  lrep E st c -> 0 <= n -> lsim (lru_set_capacity n) st tt (c_set_capacity n c).
Proof.
  intros R Hn. unfold lsim, lru_set_capacity, c_set_capacity. set (n' := if n =? 0 then 1 else n).
  assert (1 <= n') as Hn' by (unfold n'; destruct (Z.eqb_spec n 0); lia).
  unfold modify. unfold mbind at 1, M_bind. set (st1 := Lru _ _ _ _ _ _).
  assert (lrep E st1 (Cache n' (c_items c) (c_cb c) (c_log c))) as R1 by (destruct R; by split).
  rewrite (bind_ok (gets _) _ st1 (length E) st1).
  2:{ unfold gets. cbn. by rewrite (lr_list _ _ _ R), length_fmap. }
  destruct (evict_excess_ok (length E) E st1 _ R1) as (st2 & E2 & R2); [done|].
  exists st2, (take (Z.to_nat n') E). split; [done|].
  rewrite (lr_items _ _ _ R), <- fmap_take, <- fmap_drop. exact R2.
Qed.

Lemma collect_ok F E st c :
  lrep E st c -> (forall e, e ∈ F -> e ∈ E) -> collect F.*1 st = Ok (F.*2, st).
Proof.
  intros R. induction F as [|e F IH]; intros Hin; [done|]. cbn [fmap list_fmap collect].
  rewrite (bind_ok _ _ _ _ _ (node_at_ok _ st c e R ltac:(apply Hin; by left))).
  rewrite (bind_ok _ _ _ _ _ (IH ltac:(intros x Hx; apply Hin; by right))). done.
Qed.

Lemma logged_nil c : logged c [] = c_log c.
Proof. unfold logged. rewrite app_nil_r. by destruct (c_cb c). Qed.

Lemma remove_loop_ok pred F D st c n :
  lrep (D ++ F) st c ->
  exists st', remove_loop pred F.*1 n st
      = Ok (n + Z.of_nat (length (filter (fun x => pred x = true) F.*2)), st') /\
    exists F', lrep (D ++ F') st'
      (Cache (c_cap c) (D.*2 ++ filter (fun x => pred x = false) F.*2) (c_cb c)
        (logged c (filter (fun x => pred x = true) F.*2))).
Proof.
  revert D st c n; induction F as [|[p [k v]] F IH]; intros D st c n R.
  { exists st. split; [cbn; by rewrite Z.add_0_r|]. exists [].
    pose proof (lr_items _ _ _ R) as Hi. rewrite app_nil_r in *.
    change (filter _ [].*2) with (@nil (K * V)). rewrite logged_nil, app_nil_r, <- Hi. destruct c; exact R. }
  cbn [fmap list_fmap remove_loop fst snd]. rewrite !filter_cons.
  rewrite (bind_ok _ _ _ _ _ (node_at_ok _ st c (p, (k, v)) R ltac:(by apply elem_of_app; right; left))).
  cbn [snd]. destruct (pred (k, v)) eqn:Hpred; simpl.
  - destruct (erase_ok D F p k v st c R) as (st1 & R1 & Ee & _).
    destruct (without_split D F p k v (lr_addr _ _ _ R) (lr_keys _ _ _ R)) as (_ & F2 & _).
    assert ((run_callback (k, v) ≫= fun _ => map_erase k ≫= fun _ => list_erase p ≫= fun _ =>
      remove_loop pred F.*1 (n + 1)) st = remove_loop pred F.*1 (n + 1) st1) as ->.
    { revert Ee. unfold mbind, M_bind. destruct (run_callback (k, v) st) as [[[] s1]|]; [|done].
      destruct (map_erase k s1) as [[[] s2]|]; [|done].
      destruct (list_erase p s2) as [[[] s3]|]; [|done]. by intros [= ->]. }
    destruct (IH D st1 _ (n + 1) R1) as (st2 & E2 & F' & R2). exists st2. rewrite E2. split; [do 2 f_equal; lia|].
    exists F'. unfold logged in *. cbn [c_cb c_log] in R2. destruct (c_cb c); [|exact R2].
    by rewrite <- app_assoc in R2.
  - destruct (IH (D ++ [(p, (k, v))]) st c n) as (st2 & E2 & F' & R2); [by rewrite <- app_assoc|].
    exists st2. split; [done|]. exists ((p, (k, v)) :: F').
    rewrite <- app_assoc, fmap_app, <- app_assoc in R2. exact R2.
Qed.

Lemma remove_if_sim E st c pred :
  lrep E st c -> lsim (lru_remove_if pred) st (c_remove_if pred c).1 (c_remove_if pred c).2.
Proof.
  intros R. unfold lsim, lru_remove_if, c_remove_if.
  rewrite (bind_ok (gets _) _ st (node_list_ st) st) by done. rewrite (lr_list _ _ _ R).
  destruct (remove_loop_ok pred E [] st c 0 R) as (st' & E' & F' & R').
  exists st', F'. rewrite (lr_items _ _ _ R). by split.
Qed.

Lemma lsim_bind {A B} (m : M lru A) st a c' (f : A -> B) :
  lsim m st a c' -> lsim (m ≫= fun x => mret (f x)) st (f a) c'.
Proof. intros (st' & E' & Em & R'). exists st', E'. by rewrite (bind_ok _ _ _ _ _ Em). Qed.

Lemma step_sim E st c op :
  lrep E st c -> op_ok op st = true -> lsim (lru_step op) st (c_step op c).1 (c_step op c).2.
Proof.
  intros R Hok. destruct op as [b|key|p key value|key|key| | | | |n| |pred]; cbn [lru_step c_step].
  - eexists _, E. split; [done|]. destruct (lr_cb _ _ _ R) as [_ Hlog]. destruct R. by split.
  - pose proof (get_sim E st c key R) as H1. destruct (c_get key c) as [o c']. exact (lsim_bind _ _ o c' OutVal H1).
  - pose proof (put_sim E st c p key value R (bool_decide_eq_true_1 _ Hok)) as H1.
    destruct (c_put key value c) as [o c']. exact (lsim_bind _ _ o c' OutBool H1).
  - pose proof (remove_sim E st c key R) as H1. destruct (c_remove key c) as [o c']. exact (lsim_bind _ _ o c' OutBool H1).
  - apply (lsim_bind _ _ _ _ OutBool). destruct (lru_find_ok E st c key R) as (o & Ef & Ho).
    exists st, E. unfold lru_contains. rewrite (bind_ok _ _ _ _ _ Ef). split; [|done]. cbn. do 2 f_equal.
    destruct o; [destruct Ho as (v & ? & ? & _ & ->)|destruct Ho as [-> _]]; [|done].
    by rewrite !bool_decide_true by (by eexists).
  - apply (lsim_bind _ _ tt _ (fun _ => OutUnit)). by apply (clear_sim E).
  - apply (lsim_bind _ _ _ _ OutNum). exists st, E. split; [|done]. unfold lru_size, gets.
    by rewrite (lr_list _ _ _ R), (lr_items _ _ _ R), !length_fmap.
  - apply (lsim_bind _ _ _ _ OutNum). exists st, E. split; [|done]. unfold lru_capacity, gets.
    by rewrite (proj1 (lr_cap _ _ _ R)).
  - apply (lsim_bind _ _ _ _ OutBool). exists st, E. split; [|done]. unfold lru_empty, gets.
    rewrite (lr_list _ _ _ R), (lr_items _ _ _ R). by destruct E.
  - apply (lsim_bind _ _ tt _ (fun _ => OutUnit)). apply (set_capacity_sim E); [done|by apply Z.leb_le].
  - apply (lsim_bind _ _ _ _ OutItems). exists st, E. split; [|done]. unfold lru_for_each.
    rewrite (bind_ok (gets _) _ st (node_list_ st) st) by done.
    by rewrite (lr_list _ _ _ R), (collect_ok E E st c R), (lr_items _ _ _ R).
  - pose proof (remove_if_sim E st c pred R) as H1. destruct (c_remove_if pred c) as [o c']. exact (lsim_bind _ _ o c' OutNum H1).
Qed.

Lemma lru_run_sim ops E st c :
  lrep E st c -> ops_ok ops st = true -> lsim (lru_run ops) st (c_run ops c).1 (c_run ops c).2.
Proof.
  revert E st c; induction ops as [|op ops IH]; intros E st c R Hok; [by exists st, E|].
  cbn [ops_ok] in Hok. apply andb_true_iff in Hok as [Ho Hok].
  destruct (step_sim E st c op R Ho) as (st1 & E1 & Es & R1). rewrite Es in Hok.
  destruct (IH E1 st1 _ R1 Hok) as (st2 & E2 & Er & R2). exists st2, E2.
  cbn [lru_run c_run]. rewrite (bind_ok _ _ _ _ _ Es). destruct (c_step op c) as [o c1]. cbn [fst snd] in *.
  rewrite (bind_ok _ _ _ _ _ Er). destruct (c_run ops c1) as [os c2]. done.
Qed.

Lemma LRUCache_rep n : 0 <= n -> lrep [] (LRUCache n) (Cache (if n =? 0 then 1 else n) [] false []).
Proof.
  intros Hn. split; cbn; try done; try apply NoDup_nil_2.
  - by intros e ?%not_elem_of_nil.
  - destruct (Z.eqb_spec n 0); lia.
Qed.

(** The specification never holds more than its capacity, and no key twice. *)
Lemma c_step_bound op c :
  1 <= c_cap c -> match op with OpSetCapacity n => 0 <= n | _ => True end ->
  Z.of_nat (length (c_items c)) <= c_cap c ->
  1 <= c_cap (c_step op c).2 /\ Z.of_nat (length (c_items (c_step op c).2)) <= c_cap (c_step op c).2.
Proof.
  intros Hc Hn Hl.
  assert (forall key v, lookup_item key (c_items c) = Some v ->
    (length (without key (c_items c)) < length (c_items c))%nat) as Hw.
  { intros key v Hv. unfold lookup_item in Hv. destruct (list_find _ _) as [[i e]|] eqn:Ef; [|done].
    apply list_find_Some in Ef as (Hi & He & _). unfold without.
    apply (length_filter_lt _ _ e); [by eapply list_elem_of_lookup_2|tauto]. }
  destruct op; cbn; try done; unfold c_get, c_put, c_remove.
  - destruct (lookup_item key _) eqn:E; [|done]. cbn. specialize (Hw _ _ E). lia.
  - destruct (lookup_item key _) eqn:E; cbn; [specialize (Hw _ _ E); lia|].
    destruct (Z.leb_spec (c_cap c) (Z.of_nat (length (c_items c)))); cbn; [rewrite length_take|]; lia.
  - destruct (lookup_item key _) eqn:E; [|done]. cbn. specialize (Hw _ _ E). lia.
  - lia.
  - rewrite length_take. destruct (Z.eqb_spec n 0); lia.
  - split; [done|]. pose proof (length_filter (fun x => pred x = false) (c_items c)). lia.
Qed.

Lemma run_bound ops E st c :
  lrep E st c -> ops_ok ops st = true -> Z.of_nat (length (c_items c)) <= c_cap c ->
  Z.of_nat (length (c_items (c_run ops c).2)) <= c_cap (c_run ops c).2.
Proof.
  revert E st c; induction ops as [|op ops IH]; intros E st c R Hok Hl; [done|].
  cbn [ops_ok] in Hok. apply andb_true_iff in Hok as [Ho Hok].
  destruct (step_sim E st c op R Ho) as (st1 & E1 & Es & R1). rewrite Es in Hok.
  destruct (c_step_bound op c) as [_ Hb]; [apply (lr_cap _ _ _ R)| |done|].
  { destruct op; try done. by apply Z.leb_le. }
  pose proof (IH E1 st1 _ R1 Hok Hb) as Hr. cbn [c_run].
  destruct (c_step op c) as [o c1]. cbn [fst snd] in *. by destruct (c_run ops c1).
Qed.

(** C40 The LRU cache is its specification, a list of entries without repeated keys,
    most recently used first: along any sequence of operations no iterator
    dangles, every result and every eviction (the oldest first, with its
    callback) is the one the list gives, and the cache never holds more than its
    capacity. *)
Theorem lru_refines (capacity : Z) (ops : list lru_op) :
  0 <= capacity -> ops_ok ops (LRUCache capacity) = true ->
  let c := Cache (if capacity =? 0 then 1 else capacity) [] false [] in
  exists st, lru_run ops (LRUCache capacity) = Ok ((c_run ops c).1, st) /\
    evicted st = c_log (c_run ops c).2 /\ NoDup (c_items (c_run ops c).2).*1 /\
    Z.of_nat (length (node_list_ st)) <= capacity_ st.
Proof.
  intros Hc Hok c. pose proof (LRUCache_rep capacity Hc) as R. fold c in R.
  destruct (lru_run_sim ops [] _ c R Hok) as (st & E & Er & R').
  exists st. split; [done|]. split; [apply (lr_cb _ _ _ R')|].
  rewrite (lr_items _ _ _ R'). split; [apply (lr_keys _ _ _ R')|].
  rewrite (lr_list _ _ _ R'), length_fmap, (proj1 (lr_cap _ _ _ R')).
  rewrite <- (length_fmap snd), <- (lr_items _ _ _ R').
  apply (run_bound ops [] (LRUCache capacity) c R Hok). cbn. destruct (Z.eqb_spec capacity 0); lia.
Qed.
End lru.

(** ** A concrete run *)

Definition example_ops : list (lru_op (K := Z) (V := Z)) :=
  [OpCallback true; OpPut 100 1 10; OpPut 101 2 20; OpGet 1; OpPut 102 3 30; OpGet 2; OpForEach].

Lemma lru_refines_witness :
  exists st, lru_run example_ops (LRUCache 2) =
    Ok ([OutUnit; OutBool true; OutBool true; OutVal (Some 10); OutBool true; OutVal None;
         OutItems [(3, 30); (1, 10)]], st) /\ evicted st = [(2, 20)].
Proof.
  destruct (lru_refines 2 example_ops) as (st & E & Hl & _); [lia|vm_compute; reflexivity|].
  exists st. split; [exact E|]. rewrite Hl. reflexivity.
Defined.
