(* ===== verification/Json.v ===== *)
(** Json: the data of the JSON library shipped with libhv,
    [3rd/include/hv/json.hpp]: characters, token types, JSON values.

    A [char] is its byte, 0 to 255; the int returned by a character read is the
    byte or [EOF].  [number_float_t] is a template parameter of the library, so
    it is a parameter of the model. *)

From stdpp Require Export strings.
From S2P Require Import Prelude.

#[global] Open Scope Z_scope.

(** ** Characters *)

Abbreviation EOF := (-1) (only parsing).
Abbreviation cNUL := 0 (only parsing).
Abbreviation cTAB := 9 (only parsing).
Abbreviation cLF := 10 (only parsing).
Abbreviation cCR := 13 (only parsing).
Abbreviation cSPACE := 32 (only parsing).
Abbreviation cQUOTE := 34 (only parsing).
Abbreviation cSTAR := 42 (only parsing).
Abbreviation cPLUS := 43 (only parsing).
Abbreviation cCOMMA := 44 (only parsing).
Abbreviation cMINUS := 45 (only parsing).
Abbreviation cDOT := 46 (only parsing).
Abbreviation cSLASH := 47 (only parsing).
Abbreviation c0 := 48 (only parsing).
Abbreviation c9 := 57 (only parsing).
Abbreviation cCOLON := 58 (only parsing).
Abbreviation cE := 69 (only parsing).
Abbreviation cLBRACKET := 91 (only parsing).
Abbreviation cBACKSLASH := 92 (only parsing).
Abbreviation cRBRACKET := 93 (only parsing).
Abbreviation c_b := 98 (only parsing).
Abbreviation c_e := 101 (only parsing).
Abbreviation c_f := 102 (only parsing).
Abbreviation c_n := 110 (only parsing).
Abbreviation c_r := 114 (only parsing).
Abbreviation c_t := 116 (only parsing).
Abbreviation c_u := 117 (only parsing).
Abbreviation cLBRACE := 123 (only parsing).
Abbreviation cRBRACE := 125 (only parsing).

(** The bytes of a string literal. *)
Definition str (s : string) : list Z :=
  (fun a => Z.of_N (Ascii.N_of_ascii a)) <$> String.list_ascii_of_string s.

(** ** Tokens *)

(** [enum class token_type] *)
Inductive token_type :=
  | uninitialized | literal_true | literal_false | literal_null
  | value_string | value_unsigned | value_integer | value_float
  | begin_array | begin_object | end_array | end_object
  | name_separator | value_separator | parse_error | end_of_input
  | literal_or_value.

#[global] Instance token_type_eq_dec : EqDecision token_type.
Proof. solve_decision. Defined.

Definition token_type_name (t : token_type) : string :=
  match t with
  | uninitialized => "<uninitialized>"
  | literal_true => "true literal"
  | literal_false => "false literal"
  | literal_null => "null literal"
  | value_string => "string literal"
  | value_unsigned | value_integer | value_float => "number literal"
  | begin_array => "'['"
  | begin_object => "'{'"
  | end_array => "']'"
  | end_object => "'}'"
  | name_separator => "':'"
  | value_separator => "','"
  | parse_error => "<parse error>"
  | end_of_input => "end of input"
  | literal_or_value => "'[', '{', or a literal"
  end.

(** ** Floating-point numbers

    What the library uses of [number_float_t]: [strtof] is the value the C
    library gives for a numeral whose decimal point is that of the locale;
    [float_chars] is the text of the shortest-digits conversion (JsonGrisu.v has it
    for [double]), [print_g] the conversion of [snprintf] with ["%.*g"]. *)
Class NumberFloat (F : Type) := {
  float_zero : F;
  isfinite : F -> bool;
  strtof : list Z -> F;
  is_ieee_single_or_double : bool;
  float_chars : F -> list Z;
  print_g : F -> list Z
}.

(** ** Values *)

(** [basic_json] by its [value_t]; an object is the [std::map] of its members, in
    the order of the keys. *)
#[local] Unset Elimination Schemes.
Inductive json {F : Type} : Type :=
  | Jnull
  | Jobject (ms : list (list Z * json))
  | Jarray (vs : list json)
  | Jstring (s : list Z)
  | Jboolean (b : bool)
  | Jnumber_integer (n : Z)
  | Jnumber_unsigned (n : Z)
  | Jnumber_float (x : F)
  | Jbinary (bytes : list Z) (subtype : option Z)
  | Jdiscarded.
#[local] Set Elimination Schemes.
Arguments json F : clear implicits.

Section json_ind.
Context {F : Type} (P : json F -> Prop).
Hypothesis Hnull : P Jnull.
Hypothesis Hobject : forall ms, Forall (fun m => P m.2) ms -> P (Jobject ms).
Hypothesis Harray : forall vs, Forall P vs -> P (Jarray vs).
Hypothesis Hstring : forall s, P (Jstring s).
Hypothesis Hboolean : forall b, P (Jboolean b).
Hypothesis Hinteger : forall n, P (Jnumber_integer n).
Hypothesis Hunsigned : forall n, P (Jnumber_unsigned n).
Hypothesis Hfloat : forall x, P (Jnumber_float x).
Hypothesis Hbinary : forall b t, P (Jbinary b t).
Hypothesis Hdiscarded : P Jdiscarded.

(** Induction over a value and all its members and elements. *)
Fixpoint json_ind (v : json F) : P v :=
  match v with
  | Jnull => Hnull
  | Jobject ms => Hobject ms
      ((fix go ms : Forall (fun m => P m.2) ms :=
          match ms with [] => Forall_nil_2 _ | m :: ms => Forall_cons_2 _ _ _ (json_ind m.2) (go ms) end) ms)
  | Jarray vs => Harray vs
      ((fix go vs : Forall P vs :=
          match vs with [] => Forall_nil_2 _ | v :: vs => Forall_cons_2 _ _ _ (json_ind v) (go vs) end) vs)
  | Jstring s => Hstring s
  | Jboolean b => Hboolean b
  | Jnumber_integer n => Hinteger n
  | Jnumber_unsigned n => Hunsigned n
  | Jnumber_float x => Hfloat x
  | Jbinary b t => Hbinary b t
  | Jdiscarded => Hdiscarded
  end.
End json_ind.

(** ** Objects: [std::map<std::string, basic_json>] *)

(** [std::less] on strings: lexicographic on the bytes. *)
Fixpoint key_ltb (a b : list Z) : bool :=
  match a, b with
  | _, [] => false
  | [], _ => true
  | x :: a, y :: b => (x <? y) || ((x =? y) && key_ltb a b)
  end.

Section object.
Context {F : Type}.
Implicit Types (ms : list (list Z * json F)) (k : list Z).

(** [operator[](k)]: a null member is inserted at [k] when there is none. *)
Fixpoint obj_index k ms : list (list Z * json F) :=
  match ms with
  | [] => [(k, Jnull)]
  | (k', v) :: ms' =>
      if key_ltb k k' then (k, Jnull) :: ms
      else if key_ltb k' k then (k', v) :: obj_index k ms'
      else ms
  end.

(** Dereferencing the pointer to the member at [k]. *)
Fixpoint obj_get k ms : option (json F) :=
  match ms with
  | [] => None
  | (k', v) :: ms => if decide (k = k') then Some v else obj_get k ms
  end.

Fixpoint obj_set k (v : json F) ms : list (list Z * json F) :=
  match ms with
  | [] => []
  | (k', v') :: ms => if decide (k = k') then (k, v) :: ms else (k', v') :: obj_set k v ms
  end.

(** The keys of a map: ascending, hence each once. *)
Fixpoint keys_ascending (ks : list (list Z)) : bool :=
  match ks with
  | k :: ((k' :: _) as ks') => key_ltb k k' && keys_ascending ks'
  | _ => true
  end.
End object.

(** ** Exceptions *)

(** [std::to_string] of an unsigned number. *)
Fixpoint decimal_loop (fuel : nat) (n : Z) : list Z :=
  match fuel with
  | O => []
  | S fuel => (if n <? 10 then [] else decimal_loop fuel (n / 10)) ++ [c0 + n mod 10]
  end.
Definition to_string (n : Z) : list Z := decimal_loop (S (Z.to_nat (Z.log2 n))) n.

(** [exception::name] *)
Definition exception_name (ename : string) (id : Z) : list Z :=
  str "[json.exception." ++ str ename ++ str "." ++ to_string id ++ str "] ".

(** [out_of_range::create] and [type_error::create], without diagnostics *)
Definition out_of_range (id : Z) (what_arg : list Z) : fault :=
  Thrown id (exception_name "out_of_range" id ++ what_arg).
Definition type_error (id : Z) (what_arg : list Z) : fault :=
  Thrown id (exception_name "type_error" id ++ what_arg).
