(* ===== verification/JsonLexer.v ===== *)
(** JsonLexer: the class [lexer] of json.hpp.

    The state is the members of the class; the input adapter is the list of bytes
    not yet read.  [get] and [unget] keep the counters of [position], which are
    below the length of an input held in memory and so do not wrap.  The loops run
    on fuel taken from the length of the input; running out is [OutOfFuel], a failed
    [JSON_ASSERT] is [AssertFailed]. *)

From S2P Require Import Prelude Json.

Record position_t := Position {
  chars_read_total : Z;
  chars_read_current_line : Z;
  lines_read : Z
}.

(** [std::string::npos] *)
Definition npos : Z := 2 ^ 64 - 1.

(** The labels of [scan_number]. *)
Inductive number_label :=
  | number_minus | number_zero | number_any1 | number_decimal1 | number_decimal2
  | number_exponent | number_sign | number_any2.

(** Where a label of [scan_number] goes. *)
Inductive number_goto :=
  | Goto (l : number_label)
  | GotoDone
  | ReturnError.

Section lexer.
Context {F : Type} `{NumberFloat F}.

Record lexer := Lexer {
  ia : list Z;                      (* the bytes not yet read *)
  ignore_comments : bool;
  current : Z;
  next_unget : bool;
  position : position_t;
  token_string : list Z;
  token_buffer : list Z;
  error_message : string;
  number_integer : Z;
  number_unsigned : Z;
  number_float : F;
  decimal_point_char : Z;
  decimal_point_position : Z
}.

(** [lexer(adapter, ignore_comments)] under a locale with the decimal point [dp] *)
Definition lexer_init (s : list Z) (comments : bool) (dp : Z) : lexer :=
  Lexer s comments EOF false (Position 0 0 0) [] [] EmptyString 0 0 float_zero dp npos.

Implicit Types (st : lexer) (c : Z).

Definition set_position p st : lexer :=
  Lexer (ia st) (ignore_comments st) (current st) (next_unget st) p (token_string st) (token_buffer st)
    (error_message st) (number_integer st) (number_unsigned st) (number_float st) (decimal_point_char st)
    (decimal_point_position st).
Definition set_unget b st : lexer :=
  Lexer (ia st) (ignore_comments st) (current st) b (position st) (token_string st) (token_buffer st)
    (error_message st) (number_integer st) (number_unsigned st) (number_float st) (decimal_point_char st)
    (decimal_point_position st).
Definition set_current c s st : lexer :=
  Lexer s (ignore_comments st) c (next_unget st) (position st) (token_string st) (token_buffer st)
    (error_message st) (number_integer st) (number_unsigned st) (number_float st) (decimal_point_char st)
    (decimal_point_position st).
Definition set_token_string t st : lexer :=
  Lexer (ia st) (ignore_comments st) (current st) (next_unget st) (position st) t (token_buffer st)
    (error_message st) (number_integer st) (number_unsigned st) (number_float st) (decimal_point_char st)
    (decimal_point_position st).
Definition set_token_buffer b st : lexer :=
  Lexer (ia st) (ignore_comments st) (current st) (next_unget st) (position st) (token_string st) b
    (error_message st) (number_integer st) (number_unsigned st) (number_float st) (decimal_point_char st)
    (decimal_point_position st).
Definition set_error e st : lexer :=
  Lexer (ia st) (ignore_comments st) (current st) (next_unget st) (position st) (token_string st) (token_buffer st)
    e (number_integer st) (number_unsigned st) (number_float st) (decimal_point_char st)
    (decimal_point_position st).
Definition set_numbers i u f st : lexer :=
  Lexer (ia st) (ignore_comments st) (current st) (next_unget st) (position st) (token_string st) (token_buffer st)
    (error_message st) i u f (decimal_point_char st) (decimal_point_position st).
Definition set_decimal_position p st : lexer :=
  Lexer (ia st) (ignore_comments st) (current st) (next_unget st) (position st) (token_string st) (token_buffer st)
    (error_message st) (number_integer st) (number_unsigned st) (number_float st) (decimal_point_char st) p.

Definition assert (b : bool) : M lexer unit := if b then mret tt else fail AssertFailed.

(** [error_message = e; return t] *)
Definition error_return {A} (e : string) (t : A) : M lexer A := modify (set_error e);; mret t.

(** ** Input management *)

(** [to_char_type] *)
Definition to_char_type c : Z := u8 c.

Definition reset : M lexer unit :=
  modify (fun st => set_token_string [to_char_type (current st)] (set_decimal_position npos (set_token_buffer [] st))).

(** [iterator_input_adapter::get_character], into [current] *)
Definition get_character : M lexer unit :=
  modify (fun st => match ia st with [] => set_current EOF [] st | c :: s => set_current c s st end).

(** The part of [get] after the character is in [current]. *)
Definition record_char : M lexer Z :=
  c ← gets current;
  (if c =? EOF then mret tt else modify (fun st => set_token_string (token_string st ++ [to_char_type c]) st));;
  (if c =? cLF
   then modify (fun st => let p := position st in set_position (Position (chars_read_total p) 0 (lines_read p + 1)) st)
   else mret tt);;
  mret c.

Definition get : M lexer Z :=
  modify (fun st => let p := position st in
    set_position (Position (chars_read_total p + 1) (chars_read_current_line p + 1) (lines_read p)) st);;
  u ← gets next_unget;
  (if u : bool then modify (set_unget false) else get_character);;
  record_char.

Definition unget_position (p : position_t) : position_t :=
  if chars_read_current_line p =? 0
  then Position (chars_read_total p - 1) 0 (if lines_read p >? 0 then lines_read p - 1 else lines_read p)
  else Position (chars_read_total p - 1) (chars_read_current_line p - 1) (lines_read p).

Definition unget : M lexer unit :=
  modify (set_unget true);;
  modify (fun st => set_position (unget_position (position st)) st);;
  c ← gets current;
  if c =? EOF then mret tt else
  t ← gets token_string;
  assert (bool_decide (t <> []));;
  modify (set_token_string (removelast t)).

Definition add c : M lexer unit := modify (fun st => set_token_buffer (token_buffer st ++ [to_char_type c]) st).

(** Fuel for a loop that reads a character each round. *)
Definition loop_fuel : M lexer nat := gets (fun st => S (S (length (ia st)))).

(** ** Strings *)

(** The value of a hexadecimal digit, shifted; [None] for another character. *)
Definition hex_digit c (factor : Z) : option Z :=
  if (48 <=? c) && (c <=? 57) then Some (s32 (u32 (Z.shiftl (u32 (c - 0x30)) factor)))
  else if (65 <=? c) && (c <=? 70) then Some (s32 (u32 (Z.shiftl (u32 (c - 0x37)) factor)))
  else if (97 <=? c) && (c <=? 102) then Some (s32 (u32 (Z.shiftl (u32 (c - 0x57)) factor)))
  else None.

Fixpoint codepoint_loop (factors : list Z) (codepoint : Z) : M lexer Z :=
  match factors with
  | [] => assert ((0 <=? codepoint) && (codepoint <=? 0xFFFF));; mret codepoint
  | factor :: factors =>
      c ← get;
      match hex_digit c factor with
      | Some d => codepoint_loop factors (codepoint + d)
      | None => mret (-1)
      end
  end.

Definition get_codepoint : M lexer Z :=
  c ← gets current;
  assert (c =? c_u);;
  codepoint_loop [12; 8; 4; 0] 0.

Fixpoint range_loop (ranges : list (Z * Z)) : M lexer bool :=
  match ranges with
  | [] => mret true
  | (lo, hi) :: ranges =>
      c ← get;
      if (lo <=? c) && (c <=? hi) then add c;; range_loop ranges
      else error_return "invalid string: ill-formed UTF-8 byte" false
  end.

Definition next_byte_in_range (ranges : list (Z * Z)) : M lexer bool :=
  assert (bool_decide (length ranges ∈ [1; 2; 3]%nat));;
  c ← gets current;
  add c;;
  range_loop ranges.

(** The bytes of a codepoint, added to the token. *)
Definition add_codepoint (codepoint : Z) : M lexer unit :=
  if codepoint <? 0x80 then add codepoint
  else if codepoint <=? 0x7FF then
    add (Z.lor 0xC0 (Z.shiftr codepoint 6));;
    add (Z.lor 0x80 (Z.land codepoint 0x3F))
  else if codepoint <=? 0xFFFF then
    add (Z.lor 0xE0 (Z.shiftr codepoint 12));;
    add (Z.lor 0x80 (Z.land (Z.shiftr codepoint 6) 0x3F));;
    add (Z.lor 0x80 (Z.land codepoint 0x3F))
  else
    add (Z.lor 0xF0 (Z.shiftr codepoint 18));;
    add (Z.lor 0x80 (Z.land (Z.shiftr codepoint 12) 0x3F));;
    add (Z.lor 0x80 (Z.land (Z.shiftr codepoint 6) 0x3F));;
    add (Z.lor 0x80 (Z.land codepoint 0x3F)).

Abbreviation err_hex := "invalid string: '\u' must be followed by 4 hex digits"%string (only parsing).
Abbreviation err_high :=
  "invalid string: surrogate U+D800..U+DBFF must be followed by U+DC00..U+DFFF"%string (only parsing).
Abbreviation err_low :=
  "invalid string: surrogate U+DC00..U+DFFF must follow U+D800..U+DBFF"%string (only parsing).

(** The codepoint of a surrogate pair. *)
Definition surrogate_pair (codepoint1 codepoint2 : Z) : Z :=
  s32 (u32 (u32 (u32 (Z.shiftl (u32 codepoint1) 10) + u32 codepoint2) - 0x35FDC00)).

(** [get() == a && get() == b] *)
Definition get_two (a b : Z) : M lexer bool :=
  c ← get;
  if c =? a then c ← get; mret (c =? b) else mret false.

(** The case ['u'] after a backslash; [Some t] is [return t]. *)
Definition scan_unicode : M lexer (option token_type) :=
  codepoint1 ← get_codepoint;
  if codepoint1 =? -1 then error_return err_hex (Some parse_error)
  else if (0xD800 <=? codepoint1) && (codepoint1 <=? 0xDBFF) then
    two ← get_two cBACKSLASH c_u;
    if two : bool then
      codepoint2 ← get_codepoint;
      if codepoint2 =? -1 then error_return err_hex (Some parse_error)
      else if (0xDC00 <=? codepoint2) && (codepoint2 <=? 0xDFFF) then
        let codepoint := surrogate_pair codepoint1 codepoint2 in
        assert ((0 <=? codepoint) && (codepoint <=? 0x10FFFF));;
        add_codepoint codepoint;;
        mret None
      else error_return err_high (Some parse_error)
    else error_return err_high (Some parse_error)
  else if (0xDC00 <=? codepoint1) && (codepoint1 <=? 0xDFFF) then error_return err_low (Some parse_error)
  else
    assert ((0 <=? codepoint1) && (codepoint1 <=? 0x10FFFF));;
    add_codepoint codepoint1;;
    mret None.

(** The case of a backslash. *)
Definition scan_escape : M lexer (option token_type) :=
  c ← get;
  if c =? cQUOTE then add cQUOTE;; mret None
  else if c =? cBACKSLASH then add cBACKSLASH;; mret None
  else if c =? cSLASH then add cSLASH;; mret None
  else if c =? c_b then add 8;; mret None
  else if c =? c_f then add 12;; mret None
  else if c =? c_n then add 10;; mret None
  else if c =? c_r then add 13;; mret None
  else if c =? c_t then add 9;; mret None
  else if c =? c_u then scan_unicode
  else error_return "invalid string: forbidden character after backslash" (Some parse_error).

(** The messages for the control characters. *)
Definition control_names : list (string * string) :=
  [("0000 (NUL)", "0000"); ("0001 (SOH)", "0001"); ("0002 (STX)", "0002"); ("0003 (ETX)", "0003");
   ("0004 (EOT)", "0004"); ("0005 (ENQ)", "0005"); ("0006 (ACK)", "0006"); ("0007 (BEL)", "0007");
   ("0008 (BS)", "0008 or \b"); ("0009 (HT)", "0009 or \t"); ("000A (LF)", "000A or \n"); ("000B (VT)", "000B");
   ("000C (FF)", "000C or \f"); ("000D (CR)", "000D or \r"); ("000E (SO)", "000E"); ("000F (SI)", "000F");
   ("0010 (DLE)", "0010"); ("0011 (DC1)", "0011"); ("0012 (DC2)", "0012"); ("0013 (DC3)", "0013")].

Definition control_names_14 : list (string * string) :=
  [("0014 (DC4)", "0014"); ("0015 (NAK)", "0015"); ("0016 (SYN)", "0016"); ("0017 (ETB)", "0017");
   ("0018 (CAN)", "0018"); ("0019 (EM)", "0019"); ("001A (SUB)", "001A"); ("001B (ESC)", "001B");
   ("001C (FS)", "001C"); ("001D (GS)", "001D"); ("001E (RS)", "001E"); ("001F (US)", "001F")].

Definition control_message c : string :=
  match (control_names ++ control_names_14) !! Z.to_nat c with
  | Some (a, b) => "invalid string: control character U+" +:+ a +:+ " must be escaped to \u" +:+ b
  | None => EmptyString
  end.

(** The case labels of the lead bytes of well-formed UTF-8 and the ranges passed
    for them to [next_byte_in_range]. *)
Definition lead_ranges c : option (list (Z * Z)) :=
  if (0xC2 <=? c) && (c <=? 0xDF) then Some [(0x80, 0xBF)]
  else if c =? 0xE0 then Some [(0xA0, 0xBF); (0x80, 0xBF)]
  else if ((0xE1 <=? c) && (c <=? 0xEC)) || (c =? 0xEE) || (c =? 0xEF) then Some [(0x80, 0xBF); (0x80, 0xBF)]
  else if c =? 0xED then Some [(0x80, 0x9F); (0x80, 0xBF)]
  else if c =? 0xF0 then Some [(0x90, 0xBF); (0x80, 0xBF); (0x80, 0xBF)]
  else if (0xF1 <=? c) && (c <=? 0xF3) then Some [(0x80, 0xBF); (0x80, 0xBF); (0x80, 0xBF)]
  else if c =? 0xF4 then Some [(0x80, 0x8F); (0x80, 0xBF); (0x80, 0xBF)]
  else None.

Definition scan_utf8 c : M lexer (option token_type) :=
  match lead_ranges c with
  | Some ranges => ok ← next_byte_in_range ranges; mret (if ok : bool then None else Some parse_error)
  | None => error_return "invalid string: ill-formed UTF-8 byte" (Some parse_error)
  end.

(** The case labels of the characters that stand for themselves. *)
Definition is_plain c : bool :=
  (0x20 <=? c) && (c <=? 0x7F) && negb (c =? cQUOTE) && negb (c =? cBACKSLASH).

(** One round of the loop of [scan_string]. *)
Definition string_round : M lexer (option token_type) :=
  c ← get;
  if c =? EOF then error_return "invalid string: missing closing quote" (Some parse_error)
  else if c =? cQUOTE then mret (Some value_string)
  else if c =? cBACKSLASH then scan_escape
  else if (0x00 <=? c) && (c <=? 0x1F) then error_return (control_message c) (Some parse_error)
  else if is_plain c then c ← gets current; add c;; mret None
  else scan_utf8 c.

Fixpoint string_loop (fuel : nat) : M lexer token_type :=
  match fuel with
  | O => fail OutOfFuel
  | S fuel =>
      r ← string_round;
      match r with Some t => mret t | None => string_loop fuel end
  end.

Definition scan_string : M lexer token_type :=
  reset;;
  c ← gets current;
  assert (c =? cQUOTE);;
  fuel ← loop_fuel;
  string_loop fuel.

(** ** Comments *)

(** The loop of a single-line comment. *)
Fixpoint line_comment (fuel : nat) : M lexer bool :=
  match fuel with
  | O => fail OutOfFuel
  | S fuel =>
      c ← get;
      if (c =? cLF) || (c =? cCR) || (c =? EOF) || (c =? cNUL) then mret true else line_comment fuel
  end.

Abbreviation err_comment_end := "invalid comment; missing closing '*/'"%string (only parsing).
Abbreviation err_comment_start := "invalid comment; expecting '/' or '*' after '/'"%string (only parsing).

(** The loop of a multi-line comment. *)
Fixpoint block_comment (fuel : nat) : M lexer bool :=
  match fuel with
  | O => fail OutOfFuel
  | S fuel =>
      c ← get;
      if (c =? EOF) || (c =? cNUL) then error_return err_comment_end false
      else if c =? cSTAR then
        c ← get;
        if c =? cSLASH then mret true else unget;; block_comment fuel
      else block_comment fuel
  end.

Definition scan_comment : M lexer bool :=
  c ← get;
  if c =? cSLASH then fuel ← loop_fuel; line_comment fuel
  else if c =? cSTAR then fuel ← loop_fuel; block_comment fuel
  else error_return err_comment_start false.

(** ** Numbers *)

Definition is_digit c : bool := (c0 <=? c) && (c <=? c9).
Definition is_exp c : bool := (c =? c_e) || (c =? cE).

(** [add(current); goto l] *)
Definition add_goto (l : number_label) : M lexer number_goto := c ← gets current; add c;; mret (Goto l).

(** [add(decimal_point_char); decimal_point_position = token_buffer.size() - 1; goto l] *)
Definition add_point (l : number_label) : M lexer number_goto :=
  c ← gets decimal_point_char;
  add c;;
  modify (fun st => set_decimal_position (Z.of_nat (length (token_buffer st)) - 1) st);;
  mret (Goto l).

Definition scan_number_init : M lexer number_goto :=
  c ← gets current;
  if c =? cMINUS then add_goto number_minus
  else if c =? c0 then add_goto number_zero
  else if is_digit c then add_goto number_any1
  else fail AssertFailed.

Definition scan_number_minus : M lexer number_goto :=
  c ← get;
  if c =? c0 then add_goto number_zero
  else if is_digit c then add_goto number_any1
  else error_return "invalid number; expected digit after '-'" ReturnError.

Definition scan_number_zero : M lexer number_goto :=
  c ← get;
  if c =? cDOT then add_point number_decimal1
  else if is_exp c then add_goto number_exponent
  else mret GotoDone.

Definition scan_number_any1 : M lexer number_goto :=
  c ← get;
  if is_digit c then add_goto number_any1
  else if c =? cDOT then add_point number_decimal1
  else if is_exp c then add_goto number_exponent
  else mret GotoDone.

Definition scan_number_decimal1 : M lexer number_goto :=
  c ← get;
  if is_digit c then add_goto number_decimal2
  else error_return "invalid number; expected digit after '.'" ReturnError.

Definition scan_number_decimal2 : M lexer number_goto :=
  c ← get;
  if is_digit c then add_goto number_decimal2
  else if is_exp c then add_goto number_exponent
  else mret GotoDone.

Definition scan_number_exponent : M lexer number_goto :=
  c ← get;
  if (c =? cPLUS) || (c =? cMINUS) then add_goto number_sign
  else if is_digit c then add_goto number_any2
  else error_return "invalid number; expected '+', '-', or digit after exponent" ReturnError.

Definition scan_number_sign : M lexer number_goto :=
  c ← get;
  if is_digit c then add_goto number_any2
  else error_return "invalid number; expected digit after exponent sign" ReturnError.

Definition scan_number_any2 : M lexer number_goto :=
  c ← get;
  if is_digit c then add_goto number_any2 else mret GotoDone.

Definition number_state (l : number_label) : M lexer number_goto :=
  match l with
  | number_minus => scan_number_minus
  | number_zero => scan_number_zero
  | number_any1 => scan_number_any1
  | number_decimal1 => scan_number_decimal1
  | number_decimal2 => scan_number_decimal2
  | number_exponent => scan_number_exponent
  | number_sign => scan_number_sign
  | number_any2 => scan_number_any2
  end.

(** The assignment to [number_type] at a label. *)
Definition label_type (l : number_label) (number_type : token_type) : token_type :=
  match l with
  | number_minus => value_integer
  | number_decimal1 | number_exponent => value_float
  | _ => number_type
  end.

(** [None]: a parse error was returned. *)
Fixpoint number_loop (fuel : nat) (l : number_label) (number_type : token_type) : M lexer (option token_type) :=
  match fuel with
  | O => fail OutOfFuel
  | S fuel =>
      let number_type := label_type l number_type in
      g ← number_state l;
      match g with
      | Goto l => number_loop fuel l number_type
      | GotoDone => mret (Some number_type)
      | ReturnError => mret None
      end
  end.

(** [strtoull], [strtoll] and the end found by [strtod], on a string without
    white space at its beginning: an optional sign and digits, for [strtod] with
    an optional fraction after the decimal point of the locale and an optional
    exponent. *)
Fixpoint digits_prefix (s : list Z) : list Z :=
  match s with
  | c :: s => if is_digit c then c :: digits_prefix s else []
  | [] => []
  end.

Definition digits_value (ds : list Z) : Z := foldl (fun n c => 10 * n + (c - c0)) 0 ds.

Definition sign_prefix (s : list Z) : list Z :=
  match s with c :: _ => if (c =? cMINUS) || (c =? cPLUS) then [c] else [] | [] => [] end.

Record strto := Strto { strto_value : Z; strto_erange : bool; strto_end : nat }.

Definition strto_int (lo hi : Z) (wrap : Z -> Z) (s : list Z) : strto :=
  let sg := sign_prefix s in
  let ds := digits_prefix (drop (length sg) s) in
  let n := digits_value ds in
  let n := if bool_decide (sg = [cMINUS]) then wrap (- n) else n in
  let e := match ds with [] => O | _ => (length sg + length ds)%nat end in
  if n <? lo then Strto lo true e
  else if hi <? n then Strto hi true e
  else Strto n false e.

Definition strtoll (s : list Z) : strto := strto_int (- 2 ^ 63) (2 ^ 63 - 1) (fun n => n) s.

(** [strtoull] reports the range of the magnitude and negates in the type. *)
Definition strtoull (s : list Z) : strto :=
  let r := strto_int 0 (2 ^ 64 - 1) Z.opp s in
  if bool_decide (sign_prefix s = [cMINUS]) && negb (strto_erange r)
  then Strto (u64 (strto_value r)) false (strto_end r) else r.

Definition exponent_length (s : list Z) : nat :=
  match s with
  | c :: s =>
      if is_exp c then
        let sg := sign_prefix s in
        match digits_prefix (drop (length sg) s) with
        | [] => O
        | ds => (1 + length sg + length ds)%nat
        end
      else O
  | [] => O
  end.

Definition fraction_length (dp : Z) (s : list Z) : nat :=
  match s with
  | c :: s => if c =? dp then S (length (digits_prefix s)) else O
  | [] => O
  end.

Definition strtod_end (dp : Z) (s : list Z) : nat :=
  let sg := length (sign_prefix s) in
  let i := length (digits_prefix (drop sg s)) in
  let f := fraction_length dp (drop (sg + i) s) in
  let n := (sg + i + f)%nat in
  (n + exponent_length (drop n s))%nat.

(** [scan_number_done] *)
Definition assert_end (e : nat) : M lexer unit :=
  b ← gets token_buffer; assert (Nat.eqb e (length b)).

Definition number_as_float : M lexer token_type :=
  b ← gets token_buffer;
  dp ← gets decimal_point_char;
  modify (fun st => set_numbers (number_integer st) (number_unsigned st) (strtof b) st);;
  assert_end (strtod_end dp b);;
  mret value_float.

Definition scan_number_done (number_type : token_type) : M lexer token_type :=
  unget;;
  b ← gets token_buffer;
  match number_type with
  | value_unsigned =>
      let x := strtoull b in
      assert_end (strto_end x);;
      if strto_erange x then number_as_float
      else
        modify (fun st => set_numbers (number_integer st) (u64 (strto_value x)) (number_float st) st);;
        n ← gets number_unsigned;
        if n =? strto_value x then mret value_unsigned else number_as_float
  | value_integer =>
      let x := strtoll b in
      assert_end (strto_end x);;
      if strto_erange x then number_as_float
      else
        modify (fun st => set_numbers (swrap 64 (strto_value x)) (number_unsigned st) (number_float st) st);;
        n ← gets number_integer;
        if n =? strto_value x then mret value_integer else number_as_float
  | _ => number_as_float
  end.

Definition scan_number : M lexer token_type :=
  reset;;
  g ← scan_number_init;
  match g with
  | Goto l =>
      fuel ← loop_fuel;
      r ← number_loop fuel l value_unsigned;
      match r with Some t => scan_number_done t | None => mret parse_error end
  | _ => fail AssertFailed
  end.

(** ** Literals *)

Fixpoint literal_loop (text : list Z) (t : token_type) : M lexer token_type :=
  match text with
  | [] => mret t
  | x :: text =>
      c ← get;
      if negb (to_char_type c =? x) then error_return "invalid literal" parse_error
      else literal_loop text t
  end.

Definition scan_literal (literal_text : list Z) (t : token_type) : M lexer token_type :=
  c ← gets current;
  assert (bool_decide (Some (to_char_type c) = literal_text !! 0%nat));;
  literal_loop (drop 1 literal_text) t.

(** ** Value getters and diagnostics *)

Definition get_number_integer : M lexer Z := gets number_integer.
Definition get_number_unsigned : M lexer Z := gets number_unsigned.
Definition get_number_float : M lexer F := gets number_float.

Definition get_string : M lexer (list Z) :=
  localised ← gets (fun st => negb (decimal_point_char st =? cDOT) && negb (decimal_point_position st =? npos));
  (if localised : bool then
     b ← gets token_buffer;
     i ← gets decimal_point_position;
     if (0 <=? i) && (i <? Z.of_nat (length b))
     then modify (set_token_buffer (<[Z.to_nat i := cDOT]> b))
     else fail OutOfBounds
   else mret tt);;
  gets token_buffer.

Definition get_position : M lexer position_t := gets position.

(** [snprintf("%.4X")] of a byte *)
Definition hex_upper (d : Z) : Z := if d <? 10 then 48 + d else 55 + d.
Definition token_char c : list Z :=
  if c <=? 0x1F then str "<U+00" ++ [hex_upper (c / 16); hex_upper (c mod 16)] ++ str ">" else [c].

Definition get_token_string : M lexer (list Z) := gets (fun st => token_string st ≫= token_char).
Definition get_error_message : M lexer string := gets error_message.

(** ** The scanner *)

(** [get() == 0xEF], then [get() == 0xBB && get() == 0xBF] *)
Definition skip_bom : M lexer bool :=
  c ← get;
  if c =? 0xEF then get_two 0xBB 0xBF else unget;; mret true.

Definition is_space c : bool := (c =? cSPACE) || (c =? cTAB) || (c =? cLF) || (c =? cCR).

Fixpoint whitespace_loop (fuel : nat) : M lexer unit :=
  match fuel with
  | O => fail OutOfFuel
  | S fuel => c ← get; if is_space c then whitespace_loop fuel else mret tt
  end.

Definition skip_whitespace : M lexer unit := fuel ← loop_fuel; whitespace_loop fuel.

(** The loop over comments; [false]: [return parse_error]. *)
Fixpoint comments_loop (fuel : nat) : M lexer bool :=
  match fuel with
  | O => fail OutOfFuel
  | S fuel =>
      b ← gets (fun st => ignore_comments st && (current st =? cSLASH));
      if b : bool then
        ok ← scan_comment;
        if ok : bool then skip_whitespace;; comments_loop fuel else mret false
      else mret true
  end.

(** The switch on the first character of a token. *)
Definition scan_token : M lexer token_type :=
  c ← gets current;
  if c =? cLBRACKET then mret begin_array
  else if c =? cRBRACKET then mret end_array
  else if c =? cLBRACE then mret begin_object
  else if c =? cRBRACE then mret end_object
  else if c =? cCOLON then mret name_separator
  else if c =? cCOMMA then mret value_separator
  else if c =? c_t then scan_literal (str "true") literal_true
  else if c =? c_f then scan_literal (str "false") literal_false
  else if c =? c_n then scan_literal (str "null") literal_null
  else if c =? cQUOTE then scan_string
  else if (c =? cMINUS) || is_digit c then scan_number
  else if (c =? cNUL) || (c =? EOF) then mret end_of_input
  else error_return "invalid literal" parse_error.

Definition scan : M lexer token_type :=
  n ← gets (fun st => chars_read_total (position st));
  ok ← (if n =? 0 then skip_bom else mret true);
  if negb ok then error_return "invalid BOM; must be 0xEF 0xBB 0xBF if given" parse_error
  else
    skip_whitespace;;
    fuel ← loop_fuel;
    ok ← comments_loop fuel;
    if ok : bool then scan_token else mret parse_error.

End lexer.
