(* ===== verification/JsonParser.v ===== *)
(** JsonParser: the classes [parser], [json_sax_dom_parser] and
    [json_sax_acceptor] of json.hpp, and [basic_json::parse] and [accept].

    The parser is a template over the SAX handler: [Sax] is that interface.  The
    handler of [parse] builds the value through pointers into it: a pointer is the
    path from the root, and following one that is dangling is [UseAfterFree].  The
    parser callback is absent ([nullptr]), as it is by default. *)

From S2P Require Import Prelude Json JsonLexer.

(** [parse_error::position_string] and [parse_error::create] *)
Definition position_string (p : position_t) : list Z :=
  str " at line " ++ to_string (lines_read p + 1) ++ str ", column " ++ to_string (chars_read_current_line p).
Definition parse_error_create (id : Z) (p : position_t) (what_arg : list Z) : fault :=
  Thrown id (exception_name "parse_error" id ++ str "parse error" ++ position_string p ++ str ": " ++ what_arg).

(** [detail::unknown_size()] *)
Definition unknown_size : Z := 2 ^ 64 - 1.

(** The handler interface *)
Class Sax (F S : Type) := {
  sax_null : M S bool;
  sax_boolean : bool -> M S bool;
  sax_number_integer : Z -> M S bool;
  sax_number_unsigned : Z -> M S bool;
  sax_number_float : F -> list Z -> M S bool;
  sax_string : list Z -> M S bool;
  sax_binary : list Z -> option Z -> M S bool;
  sax_start_object : Z -> M S bool;
  sax_key : list Z -> M S bool;
  sax_end_object : M S bool;
  sax_start_array : Z -> M S bool;
  sax_end_array : M S bool;
  sax_parse_error : Z -> list Z -> fault -> M S bool
}.

(** What the parser does after one round of its loop. *)
Inductive flow :=
  | Next (states : list bool) (skip_to_state_evaluation : bool)   (* continue *)
  | Break                                                        (* leave the switch *)
  | Return (b : bool).

Section parser.
Context {F : Type} `{NumberFloat F} {S : Type} `{Sax F S}.

Record parser := Parser {
  last_token : token_type;
  m_lexer : lexer (F := F);
  m_sax : S
}.

Implicit Types (p : parser) (states : list bool).

Definition with_lexer {A} (m : M lexer A) : M parser A := fun p =>
  match m (m_lexer p) with
  | Ok (a, l) => Ok (a, Parser (last_token p) l (m_sax p))
  | Fault f => Fault f
  end.

Definition with_sax {A} (m : M S A) : M parser A := fun p =>
  match m (m_sax p) with
  | Ok (a, s) => Ok (a, Parser (last_token p) (m_lexer p) s)
  | Fault f => Fault f
  end.

Definition get_token : M parser token_type :=
  t ← with_lexer scan;
  modify (fun p => Parser t (m_lexer p) (m_sax p));;
  mret t.

Definition exception_message (expected : token_type) (context : string) : M parser (list Z) :=
  last ← gets last_token;
  e ← with_lexer get_error_message;
  t ← with_lexer get_token_string;
  mret (str "syntax error "
    ++ (if bool_decide (context = EmptyString) then [] else str "while parsing " ++ str context ++ str " ")
    ++ str "- "
    ++ (if bool_decide (last = parse_error) then str e ++ str "; last read: '" ++ t ++ str "'"
        else str "unexpected " ++ str (token_type_name last))
    ++ (if bool_decide (expected = uninitialized) then [] else str "; expected " ++ str (token_type_name expected))).

(** [return sax->parse_error(position, token, parse_error::create(101, position, message))] *)
Definition report (message : list Z) : M parser bool :=
  pos ← with_lexer get_position;
  t ← with_lexer get_token_string;
  with_sax (sax_parse_error (chars_read_total pos) t (parse_error_create 101 pos message)).

Definition unexpected (expected : token_type) (context : string) : M parser flow :=
  msg ← exception_message expected context;
  b ← report msg;
  mret (Return b).

(** [if (!m) return false], then go on. *)
Definition guard (m : M S bool) (k : M parser flow) : M parser flow :=
  ok ← with_sax m; if ok : bool then k else mret (Return false).

(** A key, the separator and the first token of the value. *)
Definition parse_key states : M parser flow :=
  k ← with_lexer get_string;
  guard (sax_key k) (
    t ← get_token;
    if decide (t = name_separator)
    then get_token;; mret (Next states false)
    else unexpected name_separator "object separator").

Definition parse_begin_object states : M parser flow :=
  guard (sax_start_object unknown_size) (
    t ← get_token;
    if decide (t = end_object) then guard sax_end_object (mret Break)
    else if decide (t = value_string) then parse_key (false :: states)
    else unexpected value_string "object key").

Definition parse_begin_array states : M parser flow :=
  guard (sax_start_array unknown_size) (
    t ← get_token;
    if decide (t = end_array) then guard sax_end_array (mret Break)
    else mret (Next (true :: states) false)).

Definition parse_float : M parser flow :=
  res ← with_lexer get_number_float;
  if isfinite res then
    s ← with_lexer get_string;
    guard (sax_number_float res s) (mret Break)
  else
    t ← with_lexer get_token_string;
    pos ← with_lexer get_position;
    b ← with_sax (sax_parse_error (chars_read_total pos) t
                    (out_of_range 406 (str "number overflow parsing '" ++ t ++ str "'")));
    mret (Return b).

Abbreviation empty_input_message :=
  "attempting to parse an empty input; check that your input string or stream contains the expected JSON"%string
  (only parsing).

Definition parse_end_of_input : M parser flow :=
  pos ← with_lexer get_position;
  if chars_read_total pos =? 1
  then b ← report (str empty_input_message); mret (Return b)
  else unexpected literal_or_value "value".

(** The switch on the last token. *)
Definition parse_value states : M parser flow :=
  last ← gets last_token;
  match last with
  | begin_object => parse_begin_object states
  | begin_array => parse_begin_array states
  | value_float => parse_float
  | literal_false => guard (sax_boolean false) (mret Break)
  | literal_null => guard sax_null (mret Break)
  | literal_true => guard (sax_boolean true) (mret Break)
  | value_integer => n ← with_lexer get_number_integer; guard (sax_number_integer n) (mret Break)
  | value_string => s ← with_lexer get_string; guard (sax_string s) (mret Break)
  | value_unsigned => n ← with_lexer get_number_unsigned; guard (sax_number_unsigned n) (mret Break)
  | parse_error => unexpected uninitialized "value"
  | end_of_input => parse_end_of_input
  | _ => unexpected literal_or_value "value"
  end.

(** After a value inside an array; [states] are the outer levels. *)
Definition after_array_value states : M parser flow :=
  t ← get_token;
  if decide (t = value_separator) then get_token;; mret (Next (true :: states) false)
  else if decide (t = end_array) then guard sax_end_array (mret (Next states true))
  else unexpected end_array "array".

(** After a value inside an object. *)
Definition after_object_value states : M parser flow :=
  t ← get_token;
  if decide (t = value_separator) then
    t ← get_token;
    if decide (t = value_string) then parse_key (false :: states)
    else unexpected value_string "object key"
  else if decide (t = end_object) then guard sax_end_object (mret (Next states true))
  else unexpected end_object "object".

(** The part of the loop after the switch. *)
Definition after_value states : M parser flow :=
  match states with
  | [] => mret (Return true)
  | true :: states => after_array_value states
  | false :: states => after_object_value states
  end.

(** One round of the loop. *)
Definition parse_round states (skip : bool) : M parser flow :=
  f ← (if skip then mret Break else parse_value states);
  match f with
  | Break => after_value states
  | f => mret f
  end.

Fixpoint parse_loop (fuel : nat) states (skip : bool) : M parser bool :=
  match fuel with
  | O => fail OutOfFuel
  | Datatypes.S fuel =>
      f ← parse_round states skip;
      match f with
      | Next states skip => parse_loop fuel states skip
      | Return b => mret b
      | Break => fail AssertFailed
      end
  end.

(** [sax_parse_internal]; every round reads a token, and the input has fewer
    tokens than bytes. *)
Definition sax_parse_internal : M parser bool :=
  fuel ← with_lexer loop_fuel;
  parse_loop (Datatypes.S fuel) [] false.

Definition sax_parse (strict : bool) : M parser bool :=
  result ← sax_parse_internal;
  if result && strict then
    t ← get_token;
    if decide (t = end_of_input) then mret result
    else msg ← exception_message end_of_input "value"; report msg
  else mret result.

(** [parser(adapter, nullptr, allow_exceptions, ignore_comments)] reads the first
    token. *)
Definition parser_init (s : list Z) (comments : bool) (dp : Z) (h : S) : res parser :=
  match get_token (Parser uninitialized (lexer_init s comments dp) h) with
  | Ok (_, p) => Ok p
  | Fault f => Fault f
  end.

(** The part of [parse] that runs the handler. *)
Definition parse_with (strict : bool) : M parser unit :=
  sax_parse_internal;;
  if strict then
    t ← get_token;
    if decide (t = end_of_input) then mret tt
    else msg ← exception_message end_of_input "value"; report msg;; mret tt
  else mret tt.

End parser.

(** ** The handler that builds the value *)

(** A step of a path into a value. *)
Inductive step :=
  | AtKey (k : list Z)
  | AtIndex (i : nat).

Section dom.
Context {F : Type}.

(** What a pointer into [root] points at. *)
Fixpoint get_at (p : list step) (v : json F) : option (json F) :=
  match p, v with
  | [], _ => Some v
  | AtKey k :: p, Jobject ms => v ← obj_get k ms; get_at p v
  | AtIndex i :: p, Jarray vs => v ← vs !! i; get_at p v
  | _, _ => None
  end.

Fixpoint set_at (p : list step) (w v : json F) : option (json F) :=
  match p, v with
  | [], _ => Some w
  | AtKey k :: p, Jobject ms =>
      v ← obj_get k ms; v' ← set_at p w v; Some (Jobject (obj_set k v' ms))
  | AtIndex i :: p, Jarray vs =>
      v ← vs !! i; v' ← set_at p w v; Some (Jarray (<[i := v']> vs))
  | _, _ => None
  end.

Record dom := Dom {
  root : json F;
  ref_stack : list (list step);             (* the back of the vector is the head *)
  object_element : option (list step);
  errored : bool;
  allow_exceptions : bool
}.

(** [json_sax_dom_parser(result, allow_exceptions)] on a fresh (null) result *)
Definition dom_init (exceptions : bool) : dom := Dom Jnull [] None false exceptions.

Implicit Types (d : dom) (v : json F).

Definition set_root v d : dom := Dom v (ref_stack d) (object_element d) (errored d) (allow_exceptions d).
Definition set_stack s d : dom := Dom (root d) s (object_element d) (errored d) (allow_exceptions d).
Definition set_element e d : dom := Dom (root d) (ref_stack d) e (errored d) (allow_exceptions d).

Definition is_array v : bool := match v with Jarray _ => true | _ => false end.
Definition is_object v : bool := match v with Jobject _ => true | _ => false end.

Definition deref (p : list step) : M dom (json F) := fun d =>
  match get_at p (root d) with Some v => Ok (v, d) | None => Fault UseAfterFree end.
Definition store (p : list step) v : M dom unit := fun d =>
  match set_at p v (root d) with Some r => Ok (tt, set_root r d) | None => Fault UseAfterFree end.

Definition dom_assert (b : bool) : M dom unit := if b then mret tt else fail AssertFailed.

(** Returns the pointer to the value in its place. *)
Definition handle_value v : M dom (list step) :=
  stack ← gets ref_stack;
  match stack with
  | [] => modify (set_root v);; mret []
  | p :: _ =>
      c ← deref p;
      dom_assert (is_array c || is_object c);;
      match c with
      | Jarray vs => store p (Jarray (vs ++ [v]));; mret (p ++ [AtIndex (length vs)])
      | _ =>
          dom_assert (is_object c);;
          e ← gets object_element;
          match e with
          | Some q => store q v;; mret q
          | None => fail AssertFailed
          end
      end
  end.

Definition handle (v : json F) : M dom bool := handle_value v;; mret true.

(** [max_size()] of [std::vector<basic_json>], whose elements have 16 bytes, and of
    [std::map<std::string, basic_json>], whose nodes have 80: as many as fit into
    2^63 - 1 bytes *)
Definition array_max_size : Z := 2 ^ 59 - 1.
Definition object_max_size : Z := 115292150460684697.

Definition is_excessive (len max_size : Z) : bool := negb (len =? unknown_size) && (max_size <? len).

(** [start_object] and [start_array] *)
Definition dom_start (v : json F) (len max_size : Z) (message : list Z) : M dom bool :=
  p ← handle_value v;
  modify (fun d => set_stack (p :: ref_stack d) d);;
  (if is_excessive len max_size then fail (out_of_range 408 (message ++ to_string len)) else mret tt);;
  mret true.

(** [ref_stack.back()], after the assertions of [key], [end_object], [end_array] *)
Definition dom_back (is_kind : json F -> bool) : M dom (list step * json F) :=
  stack ← gets ref_stack;
  match stack with
  | [] => fail AssertFailed
  | p :: _ => c ← deref p; dom_assert (is_kind c);; mret (p, c)
  end.

Definition dom_key (k : list Z) : M dom bool :=
  b ← dom_back is_object;
  match b.2 with
  | Jobject ms =>
      store b.1 (Jobject (obj_index k ms));;
      modify (set_element (Some (b.1 ++ [AtKey k])));;
      mret true
  | _ => fail AssertFailed
  end.

(** [end_object] and [end_array]; [set_parents] does nothing without diagnostics *)
Definition dom_end (is_kind : json F -> bool) : M dom bool :=
  dom_back is_kind;;
  modify (fun d => set_stack (tail (ref_stack d)) d);;
  mret true.

Definition dom_parse_error (ex : fault) : M dom bool :=
  modify (fun d => Dom (root d) (ref_stack d) (object_element d) true (allow_exceptions d));;
  throws ← gets allow_exceptions;
  if throws : bool then fail ex else mret false.

Definition json_sax_dom_parser : Sax F dom := {|
  sax_null := handle Jnull;
  sax_boolean b := handle (Jboolean b);
  sax_number_integer n := handle (Jnumber_integer n);
  sax_number_unsigned n := handle (Jnumber_unsigned n);
  sax_number_float x _ := handle (Jnumber_float x);
  sax_string s := handle (Jstring s);
  sax_binary b subtype := handle (Jbinary b subtype);
  sax_start_object len := dom_start (Jobject []) len object_max_size (str "excessive object size: ");
  sax_key := dom_key;
  sax_end_object := dom_end is_object;
  sax_start_array len := dom_start (Jarray []) len array_max_size (str "excessive array size: ");
  sax_end_array := dom_end is_array;
  sax_parse_error _ _ ex := dom_parse_error ex
|}.
#[export] Existing Instance json_sax_dom_parser.
End dom.

(** ** The handler of [accept] *)

Definition json_sax_acceptor {F} : Sax F unit := {|
  sax_null := mret true;
  sax_boolean _ := mret true;
  sax_number_integer _ := mret true;
  sax_number_unsigned _ := mret true;
  sax_number_float _ _ := mret true;
  sax_string _ := mret true;
  sax_binary _ _ := mret true;
  sax_start_object _ := mret true;
  sax_key _ := mret true;
  sax_end_object := mret true;
  sax_start_array _ := mret true;
  sax_end_array := mret true;
  sax_parse_error _ _ _ := mret false
|}.
#[export] Existing Instance json_sax_acceptor.

(** ** The public functions *)

Section public.
Context {F : Type} `{NumberFloat F}.

(** [parser::parse]: the value, or [discarded] after an error without exceptions *)
Definition parser_parse (strict : bool) (p : parser (F := F) (S := dom (F := F))) : res (json F) :=
  match parse_with strict p with
  | Ok (_, p) => Ok (if errored (m_sax p) then Jdiscarded else root (m_sax p))
  | Fault f => Fault f
  end.

(** [basic_json::parse(s, nullptr, allow_exceptions, ignore_comments)] *)
Definition json_parse (dp : Z) (s : list Z) (exceptions comments : bool) : res (json F) :=
  match parser_init s comments dp (dom_init exceptions) with
  | Ok p => parser_parse true p
  | Fault f => Fault f
  end.

(** [basic_json::accept(s, ignore_comments)] *)
Definition json_accept (dp : Z) (s : list Z) (comments : bool) : res bool :=
  match parser_init (F := F) s comments dp tt with
  | Ok p => match sax_parse true p with Ok (b, _) => Ok b | Fault f => Fault f end
  | Fault f => Fault f
  end.
End public.
