(* ===== verification/JsonDump.v ===== *)
(** JsonDump: the class [serializer] of json.hpp and [basic_json::dump].

    The buffers of the class are lists of their length; reading or writing past
    the end is [OutOfBounds].  The output adapter is the string it appends to.  An
    exception is the fault [Thrown]. *)

From S2P Require Import Prelude Json.

Inductive error_handler_t := strict | replace | ignore.

Definition UTF8_ACCEPT : Z := 0.
Definition UTF8_REJECT : Z := 1.

(** The table of [decode]. *)
Definition utf8d : list Z :=
  replicate 128 0 ++ replicate 16 1 ++ replicate 16 9 ++ replicate 32 7 ++ [8; 8] ++ replicate 30 2 ++
  [0xA; 0x3; 0x3; 0x3; 0x3; 0x3; 0x3; 0x3; 0x3; 0x3; 0x3; 0x3; 0x3; 0x4; 0x3; 0x3] ++
  [0xB; 0x6; 0x6; 0x6; 0x5; 0x8; 0x8; 0x8; 0x8; 0x8; 0x8; 0x8; 0x8; 0x8; 0x8; 0x8] ++
  [0x0; 0x1; 0x2; 0x3; 0x5; 0x8; 0x7; 0x1; 0x1; 0x1; 0x4; 0x6; 0x1; 0x1; 0x1; 0x1] ++
  [1; 1; 1; 1; 1; 1; 1; 1; 1; 1; 1; 1; 1; 1; 1; 1; 1; 0; 1; 1; 1; 1; 1; 0; 1; 0; 1; 1; 1; 1; 1; 1] ++
  [1; 2; 1; 1; 1; 1; 1; 2; 1; 2; 1; 1; 1; 1; 1; 1; 1; 1; 1; 1; 1; 1; 1; 2; 1; 1; 1; 1; 1; 1; 1; 1] ++
  [1; 2; 1; 1; 1; 1; 1; 1; 1; 2; 1; 1; 1; 1; 1; 1; 1; 1; 1; 1; 1; 1; 1; 3; 1; 3; 1; 1; 1; 1; 1; 1] ++
  [1; 3; 1; 1; 1; 1; 1; 3; 1; 3; 1; 1; 1; 1; 1; 1; 1; 3; 1; 1; 1; 1; 1; 1; 1; 1; 1; 1; 1; 1; 1; 1].

(** [decode]: the new state and codepoint; [None] when an index is past the table. *)
Definition decode (state codep byte : Z) : option (Z * Z) :=
  type ← utf8d !! Z.to_nat byte;
  let codep := if state =? UTF8_ACCEPT then Z.land (Z.shiftr 0xFF type) byte
               else Z.lor (Z.land byte 0x3F) (u32 (Z.shiftl codep 6)) in
  state ← utf8d !! Z.to_nat (256 + state * 16 + type);
  Some (state, codep).

(** [hex_bytes] and the digits of [snprintf] with ["%04x"] *)
Definition hex_digit_upper (d : Z) : Z := if d <? 10 then 48 + d else 55 + d.
Definition hex_bytes (byte : Z) : list Z := [hex_digit_upper (byte / 16); hex_digit_upper (byte mod 16)].
Definition hex_digit_lower (d : Z) : Z := if d <? 10 then 48 + d else 87 + d.
Definition hex4 (n : Z) : list Z :=
  [hex_digit_lower (n / 4096 mod 16); hex_digit_lower (n / 256 mod 16);
   hex_digit_lower (n / 16 mod 16); hex_digit_lower (n mod 16)].

(** [digits_to_99] *)
Definition digits_to_99 (i : Z) : Z * Z := (c0 + i / 10, c0 + i mod 10).

(** The local variables of [dump_escaped]. *)
Record escaper := Escaper {
  codepoint : Z;
  state : Z;
  bytes : Z;                      (* written to string_buffer *)
  bytes_after_last_accept : Z;
  undumped_chars : Z
}.

Section serializer.
Context {F : Type} `{NumberFloat F}.

Record serializer := Serializer {
  o : list Z;
  number_buffer : list Z;
  thousands_sep : Z;
  decimal_point : Z;
  string_buffer : list Z;
  indent_char : Z;
  indent_string : list Z;
  error_handler : error_handler_t
}.

(** [serializer(o, ichar, error_handler)] *)
Definition serializer_init (ichar : Z) (handler : error_handler_t) (sep dp : Z) : serializer :=
  Serializer [] (replicate 64 0) sep dp (replicate 512 0) ichar (replicate 512 ichar) handler.

Implicit Types (st : serializer) (c : Z) (v : json F).

Definition set_o x st : serializer :=
  Serializer x (number_buffer st) (thousands_sep st) (decimal_point st) (string_buffer st) (indent_char st)
    (indent_string st) (error_handler st).
Definition set_number_buffer x st : serializer :=
  Serializer (o st) x (thousands_sep st) (decimal_point st) (string_buffer st) (indent_char st)
    (indent_string st) (error_handler st).
Definition set_string_buffer x st : serializer :=
  Serializer (o st) (number_buffer st) (thousands_sep st) (decimal_point st) x (indent_char st)
    (indent_string st) (error_handler st).
Definition set_indent_string x st : serializer :=
  Serializer (o st) (number_buffer st) (thousands_sep st) (decimal_point st) (string_buffer st) (indent_char st)
    x (error_handler st).

Definition dump_assert (b : bool) : M serializer unit := if b then mret tt else fail AssertFailed.

Definition write_text (t : list Z) : M serializer unit := modify (fun st => set_o (o st ++ t) st).
Definition write_character c : M serializer unit := write_text [c].

(** [write_characters(buf, n)] *)
Definition write_characters (buf : list Z) (n : Z) : M serializer unit :=
  if (0 <=? n) && (n <=? Z.of_nat (length buf)) then write_text (take (Z.to_nat n) buf) else fail OutOfBounds.

(** ** Strings *)

(** [string_buffer[bytes++] = c] *)
Definition put (n : Z) c : M serializer Z :=
  buf ← gets string_buffer;
  if (0 <=? n) && (n <? Z.of_nat (length buf))
  then modify (set_string_buffer (<[Z.to_nat n := c]> buf));; mret (n + 1)
  else fail OutOfBounds.

Fixpoint put_all (n : Z) (cs : list Z) : M serializer Z :=
  match cs with
  | [] => mret n
  | c :: cs => n ← put n c; put_all n cs
  end.

(** [snprintf] of [cs] at [string_buffer + n], with the terminating NUL *)
Definition put_snprintf (n : Z) (cs : list Z) : M serializer Z :=
  n' ← put_all n cs; put n' cNUL;; mret n'.

(** The codepoint of an accepted sequence whose last byte is [c]. *)
Definition put_codepoint (ensure_ascii : bool) (cp c n : Z) : M serializer Z :=
  if cp =? 0x08 then put_all n [cBACKSLASH; c_b]
  else if cp =? 0x09 then put_all n [cBACKSLASH; c_t]
  else if cp =? 0x0A then put_all n [cBACKSLASH; c_n]
  else if cp =? 0x0C then put_all n [cBACKSLASH; c_f]
  else if cp =? 0x0D then put_all n [cBACKSLASH; c_r]
  else if cp =? 0x22 then put_all n [cBACKSLASH; cQUOTE]
  else if cp =? 0x5C then put_all n [cBACKSLASH; cBACKSLASH]
  else if (cp <=? 0x1F) || (ensure_ascii && (0x7F <=? cp)) then
    if cp <=? 0xFFFF then put_snprintf n (str "\u" ++ hex4 (u16 cp))
    else put_snprintf n (str "\u" ++ hex4 (u16 (0xD7C0 + Z.shiftr cp 10))
                      ++ str "\u" ++ hex4 (u16 (0xDC00 + Z.land cp 0x3FF)))
  else put n c.

(** Write the buffer when fewer than 13 bytes are left. *)
Definition flush_full (n : Z) : M serializer Z :=
  buf ← gets string_buffer;
  if Z.of_nat (length buf) - n <? 13 then write_characters buf n;; mret 0 else mret n.

Definition escape_accept (ensure_ascii : bool) (cp c : Z) (e : escaper) : M serializer escaper :=
  n ← put_codepoint ensure_ascii cp c (bytes e);
  n ← flush_full n;
  mret (Escaper cp UTF8_ACCEPT n n 0).

Definition replacement (ensure_ascii : bool) : list Z :=
  if ensure_ascii then str "\ufffd" else [0xEF; 0xBF; 0xBD].

(** An invalid byte at index [i]; whether the byte is read again. *)
Definition escape_reject (ensure_ascii : bool) (i : Z) (cp c : Z) (e : escaper) : M serializer (escaper * bool) :=
  h ← gets error_handler;
  match h with
  | strict => fail (type_error 316 (str "invalid UTF-8 byte at index " ++ to_string i ++ str ": 0x" ++ hex_bytes c))
  | h =>
      let again := 0 <? undumped_chars e in
      let n := bytes_after_last_accept e in
      match h with
      | replace =>
          n ← put_all n (replacement ensure_ascii);
          n ← flush_full n;
          mret (Escaper cp UTF8_ACCEPT n n 0, again)
      | _ => mret (Escaper cp UTF8_ACCEPT n (bytes_after_last_accept e) 0, again)
      end
  end.

(** An incomplete codepoint. *)
Definition escape_partial (ensure_ascii : bool) (s cp c : Z) (e : escaper) : M serializer escaper :=
  n ← (if ensure_ascii then mret (bytes e) else put (bytes e) c);
  mret (Escaper cp s n (bytes_after_last_accept e) (undumped_chars e + 1)).

(** One round of the loop at byte [c], index [i]. *)
Definition escape_round (ensure_ascii : bool) (i c : Z) (e : escaper) : M serializer (escaper * bool) :=
  match decode (state e) (codepoint e) c with
  | None => fail AssertFailed
  | Some (s, cp) =>
      if s =? UTF8_ACCEPT then e ← escape_accept ensure_ascii cp c e; mret (e, false)
      else if s =? UTF8_REJECT then escape_reject ensure_ascii i cp c e
      else e ← escape_partial ensure_ascii s cp c e; mret (e, false)
  end.

Fixpoint escape_loop (fuel : nat) (ensure_ascii : bool) (s : list Z) (i : nat) (e : escaper) : M serializer escaper :=
  match fuel with
  | O => fail OutOfFuel
  | S fuel =>
      match s !! i with
      | None => mret e
      | Some c =>
          r ← escape_round ensure_ascii (Z.of_nat i) c e;
          escape_loop fuel ensure_ascii s (if r.2 : bool then i else S i) r.1
      end
  end.

(** After the loop. *)
Definition escape_end (ensure_ascii : bool) (s : list Z) (e : escaper) : M serializer unit :=
  buf ← gets string_buffer;
  if state e =? UTF8_ACCEPT then
    if 0 <? bytes e then write_characters buf (bytes e) else mret tt
  else
    h ← gets error_handler;
    match h with
    | strict => fail (type_error 316 (str "incomplete UTF-8 string; last byte: 0x" ++ hex_bytes (default 0 (last s))))
    | ignore => write_characters buf (bytes_after_last_accept e)
    | replace => write_characters buf (bytes_after_last_accept e);; write_text (replacement ensure_ascii)
    end.

(** A byte is read at most twice. *)
Definition dump_escaped (s : list Z) (ensure_ascii : bool) : M serializer unit :=
  e ← escape_loop (S (2 * length s)) ensure_ascii s 0 (Escaper 0 UTF8_ACCEPT 0 0 0);
  escape_end ensure_ascii s e.

(** ** Numbers *)

(** [count_digits]; a 64-bit number is divided at most four times. *)
Fixpoint count_digits_loop (fuel : nat) (x n_digits : Z) : option Z :=
  match fuel with
  | O => None
  | S fuel =>
      if x <? 10 then Some n_digits
      else if x <? 100 then Some (n_digits + 1)
      else if x <? 1000 then Some (n_digits + 2)
      else if x <? 10000 then Some (n_digits + 3)
      else count_digits_loop fuel (x / 10000) (n_digits + 4)
  end.

Definition count_digits (x : Z) : M serializer Z :=
  match count_digits_loop 5 x 1 with Some n => mret n | None => fail OutOfFuel end.

(** [is_negative_number], by the signedness of the type *)
Definition is_negative_number (signed : bool) (x : Z) : bool := signed && (x <? 0).

(** [remove_sign] of a signed number *)
Definition remove_sign (x : Z) : M serializer Z :=
  dump_assert ((x <? 0) && (x <? 2 ^ 63 - 1));;
  mret (u64 (u64 (- (x + 1)) + 1)).

(** [*ptr = c] in [number_buffer] *)
Definition put_number (ptr : Z) c : M serializer unit :=
  buf ← gets number_buffer;
  if (0 <=? ptr) && (ptr <? Z.of_nat (length buf))
  then modify (set_number_buffer (<[Z.to_nat ptr := c]> buf))
  else fail OutOfBounds.

(** The two digits of [digits_to_99] before [ptr]. *)
Definition put_two_digits (ptr i : Z) : M serializer unit :=
  put_number (ptr - 1) (digits_to_99 i).2;;
  put_number (ptr - 2) (digits_to_99 i).1.

Fixpoint digits_loop (fuel : nat) (abs_value ptr : Z) : M serializer unit :=
  match fuel with
  | O => fail OutOfFuel
  | S fuel =>
      if 100 <=? abs_value then
        put_two_digits ptr (abs_value mod 100);;
        digits_loop fuel (abs_value / 100) (ptr - 2)
      else if 10 <=? abs_value then put_two_digits ptr abs_value
      else put_number (ptr - 1) (c0 + abs_value)
  end.

Definition dump_integer (signed : bool) (x : Z) : M serializer unit :=
  if x =? 0 then write_character c0
  else
    r ← (if is_negative_number signed x then
           put_number 0 cMINUS;;
           abs_value ← remove_sign x;
           n ← count_digits abs_value;
           mret (abs_value, 1 + n)
         else
           n ← count_digits x;
           mret (x, n));
    dump_assert (r.2 <? 64 - 1);;
    digits_loop 10 r.1 r.2;;
    buf ← gets number_buffer;
    write_characters buf r.2.

(** [dump_float] for IEEE single and double numbers *)
Definition dump_float_ieee (x : F) : M serializer unit := write_text (float_chars x).

(** [dump_float] for the others: [snprintf], then the locale's characters are
    removed. *)
Definition dump_float_other (x : F) : M serializer unit :=
  let text := print_g x in
  buf ← gets number_buffer;
  let text' := take 63 text ++ [cNUL] in
  modify (set_number_buffer (text' ++ drop (length text') buf));;
  dump_assert (bool_decide (text <> []));;
  dump_assert (Nat.ltb (length text) 64);;
  sep ← gets thousands_sep;
  len ← (if sep =? cNUL then mret (length text)
         else
           let kept := filter (fun c => c <> sep) text in
           modify (set_number_buffer (kept ++ replicate (64 - length kept) cNUL));;
           mret (length kept));
  dp ← gets decimal_point;
  (if (dp =? cNUL) || (dp =? cDOT) then mret tt
   else
     buf ← gets number_buffer;
     match list_find (fun c => c = dp) buf with
     | Some (i, _) => modify (set_number_buffer (<[i := cDOT]> buf))
     | None => mret tt
     end);;
  buf ← gets number_buffer;
  write_characters buf (Z.of_nat len);;
  if bool_decide (Forall (fun c => c <> cDOT /\ c <> c_e) (take (S len) buf)) then write_text (str ".0") else mret tt.

Definition dump_float (x : F) : M serializer unit :=
  if negb (isfinite x) then write_text (str "null")
  else if is_ieee_single_or_double then dump_float_ieee x else dump_float_other x.

(** ** Values *)

Definition quoted (s : list Z) (ensure_ascii : bool) : M serializer unit :=
  write_character cQUOTE;; dump_escaped s ensure_ascii;; write_character cQUOTE.

(** [if (indent_string.size() < new_indent) indent_string.resize(2 * size, ' ')] *)
Definition grow_indent (new_indent : Z) : M serializer unit :=
  modify (fun st => let s := indent_string st in
    if Z.of_nat (length s) <? new_indent then set_indent_string (s ++ replicate (length s) cSPACE) st else st).

(** [write_characters(indent_string.c_str(), n)] *)
Definition write_indent (n : Z) : M serializer unit :=
  s ← gets indent_string; write_characters (s ++ [cNUL]) n.

(** All elements, with [sep] after each but the last. *)
Definition separated {A} (write : A -> M serializer unit) (sep : list Z) : list A -> M serializer unit :=
  fix go l :=
    match l with
    | [] => mret tt
    | [x] => write x
    | x :: l => write x;; write_text sep;; go l
    end.

Definition dump_members (dump : json F -> Z -> M serializer unit) (pretty_print ensure_ascii : bool)
    (indent_step current_indent : Z) (ms : list (list Z * json F)) : M serializer unit :=
  match ms with
  | [] => write_text (str "{}")
  | _ =>
      if pretty_print then
        write_text (str "{" ++ [cLF]);;
        let new_indent := u32 (current_indent + indent_step) in
        grow_indent new_indent;;
        separated (fun m => write_indent new_indent;; quoted m.1 ensure_ascii;; write_text (str ": ");; dump m.2 new_indent)
          [cCOMMA; cLF] ms;;
        write_character cLF;;
        write_indent current_indent;;
        write_character cRBRACE
      else
        write_character cLBRACE;;
        separated (fun m => quoted m.1 ensure_ascii;; write_character cCOLON;; dump m.2 current_indent) [cCOMMA] ms;;
        write_character cRBRACE
  end.

Definition dump_elements (dump : json F -> Z -> M serializer unit) (pretty_print : bool)
    (indent_step current_indent : Z) (vs : list (json F)) : M serializer unit :=
  match vs with
  | [] => write_text (str "[]")
  | _ =>
      if pretty_print then
        write_text (str "[" ++ [cLF]);;
        let new_indent := u32 (current_indent + indent_step) in
        grow_indent new_indent;;
        separated (fun v => write_indent new_indent;; dump v new_indent) [cCOMMA; cLF] vs;;
        write_character cLF;;
        write_indent current_indent;;
        write_character cRBRACKET
      else
        write_character cLBRACKET;;
        separated (fun v => dump v current_indent) [cCOMMA] vs;;
        write_character cRBRACKET
  end.

(** A key of the object written for a binary value. *)
Definition key_text (k : string) : list Z := [cQUOTE] ++ str k ++ [cQUOTE].

Definition dump_binary (pretty_print : bool) (indent_step current_indent : Z) (bs : list Z) (subtype : option Z) :
    M serializer unit :=
  let dump_subtype := match subtype with Some t => dump_integer false t | None => write_text (str "null") end in
  if pretty_print then
    write_text (str "{" ++ [cLF]);;
    let new_indent := u32 (current_indent + indent_step) in
    grow_indent new_indent;;
    write_indent new_indent;;
    write_text (key_text "bytes" ++ str ": [");;
    separated (dump_integer false) (str ", ") bs;;
    write_text (str "]," ++ [cLF]);;
    write_indent new_indent;;
    write_text (key_text "subtype" ++ str ": ");;
    dump_subtype;;
    write_character cLF;;
    write_indent current_indent;;
    write_character cRBRACE
  else
    write_text (str "{" ++ key_text "bytes" ++ str ":[");;
    separated (dump_integer false) (str ",") bs;;
    write_text (str "]," ++ key_text "subtype" ++ str ":");;
    dump_subtype;;
    write_character cRBRACE.

Fixpoint dump v (pretty_print ensure_ascii : bool) (indent_step current_indent : Z) : M serializer unit :=
  match v with
  | Jobject ms =>
      dump_members (fun v n => dump v pretty_print ensure_ascii indent_step n)
        pretty_print ensure_ascii indent_step current_indent ms
  | Jarray vs =>
      dump_elements (fun v n => dump v pretty_print ensure_ascii indent_step n)
        pretty_print indent_step current_indent vs
  | Jstring s => quoted s ensure_ascii
  | Jbinary bs t => dump_binary pretty_print indent_step current_indent bs t
  | Jboolean b => write_text (str (if b then "true" else "false"))
  | Jnumber_integer n => dump_integer true n
  | Jnumber_unsigned n => dump_integer false n
  | Jnumber_float x => dump_float x
  | Jdiscarded => write_text (str "<discarded>")
  | Jnull => write_text (str "null")
  end.

(** [basic_json::dump(indent, indent_char, ensure_ascii, error_handler)], under a
    locale with the thousands separator [sep] and the decimal point [dp] *)
Definition json_dump (sep dp : Z) v (indent ichar : Z) (ensure_ascii : bool) (handler : error_handler_t) : res (list Z) :=
  let m := if 0 <=? indent then dump v true ensure_ascii (u32 indent) 0 else dump v false ensure_ascii 0 0 in
  match m (serializer_init ichar handler sep dp) with
  | Ok (_, st) => Ok (o st)
  | Fault f => Fault f
  end.

End serializer.
