(* ===== verification/JsonUtf8.v ===== *)
(** JsonUtf8: UTF-8, the part of the JSON text that lexer and serializer check
    each in its own way.

    A text is well-formed when it is the encoding of a sequence of Unicode scalar
    values.  The lexer checks the ranges of the bytes after a lead byte
    ([lead_ranges]), the serializer runs the automaton [decode]; both accept exactly
    the well-formed texts. *)

From S2P Require Import Prelude Json JsonLexer JsonDump.

(** ** Encoding *)

Definition scalar (cp : Z) : bool :=
  (0 <=? cp) && (cp <=? 0x10FFFF) && negb ((0xD800 <=? cp) && (cp <=? 0xDFFF)).

Definition encode (cp : Z) : list Z :=
  if cp <? 0x80 then [cp]
  else if cp <? 0x800 then [0xC0 + cp / 64; 0x80 + cp mod 64]
  else if cp <? 0x10000 then [0xE0 + cp / 4096; 0x80 + cp / 64 mod 64; 0x80 + cp mod 64]
  else [0xF0 + cp / 262144; 0x80 + cp / 4096 mod 64; 0x80 + cp / 64 mod 64; 0x80 + cp mod 64].

Definition utf8_text (cps : list Z) : list Z := cps ≫= encode.

Definition is_utf8 (s : list Z) : Prop := exists cps, Forall (fun cp => scalar cp = true) cps /\ s = utf8_text cps.

Lemma is_utf8_nil : is_utf8 [].
Proof. by exists []. Qed.

Lemma is_utf8_app s t : is_utf8 s -> is_utf8 t -> is_utf8 (s ++ t).
Proof.
  intros (c1 & H1 & ->) (c2 & H2 & ->). exists (c1 ++ c2). split; [by apply Forall_app|].
  unfold utf8_text. by rewrite bind_app.
Qed.

Lemma is_utf8_encode cp : scalar cp = true -> is_utf8 (encode cp).
Proof.
  intros H. exists [cp]. split; [by repeat constructor|]. unfold utf8_text. simpl. by rewrite app_nil_r.
Qed.

Lemma scalar_range cp : scalar cp = true -> 0 <= cp <= 0x10FFFF /\ ~ 0xD800 <= cp <= 0xDFFF.
Proof. unfold scalar. lia. Qed.

Lemma encode_bytes cp : scalar cp = true -> Forall is_byte (encode cp).
Proof.
  intros H%scalar_range. unfold encode, is_byte, in_u.
  repeat case_match; repeat constructor; Z.div_mod_to_equations; lia.
Qed.

Lemma is_utf8_bytes s : is_utf8 s -> Forall is_byte s.
Proof.
  intros (cps & H & ->). unfold utf8_text. induction H as [|cp cps Hc _ IH]; simpl; [done|].
  apply Forall_app. auto using encode_bytes.
Qed.

(** The bit operations of [add_codepoint] are this arithmetic. *)
Lemma lor_lead n k x : 0 <= n -> 0 <= k -> 0 <= x < 2 ^ n -> Z.lor (k * 2 ^ n) x = k * 2 ^ n + x.
Proof. intros Hn Hk Hx. rewrite <- Z.shiftl_mul_pow2 at 1 by done. by apply lor_shiftl_add. Qed.

Lemma lor_80 x : 0 <= x < 64 -> Z.lor 0x80 x = 0x80 + x.
Proof. intros H. apply (lor_lead 6 2 x); lia. Qed.

Lemma land_3F x : Z.land x 0x3F = x mod 64.
Proof. change 0x3F with (2 ^ 6 - 1). apply land_mask. lia. Qed.

(** ** Ranges of the bytes of a character *)

Fixpoint in_ranges (rs : list (Z * Z)) (bs : list Z) : Prop :=
  match rs, bs with
  | [], [] => True
  | r :: rs, b :: bs => r.1 <= b <= r.2 /\ in_ranges rs bs
  | _, _ => False
  end.

Ltac pick_class := first [split; [lia|done] | left; split; [lia|done] | right; pick_class].

(** [lead_ranges] on each class of lead bytes. *)
Lemma lead_ranges_inv b rs :
  lead_ranges b = Some rs ->
  (0xC2 <= b <= 0xDF /\ rs = [(0x80, 0xBF)]) \/
  (b = 0xE0 /\ rs = [(0xA0, 0xBF); (0x80, 0xBF)]) \/
  ((0xE1 <= b <= 0xEC \/ 0xEE <= b <= 0xEF) /\ rs = [(0x80, 0xBF); (0x80, 0xBF)]) \/
  (b = 0xED /\ rs = [(0x80, 0x9F); (0x80, 0xBF)]) \/
  (b = 0xF0 /\ rs = [(0x90, 0xBF); (0x80, 0xBF); (0x80, 0xBF)]) \/
  (0xF1 <= b <= 0xF3 /\ rs = [(0x80, 0xBF); (0x80, 0xBF); (0x80, 0xBF)]) \/
  (b = 0xF4 /\ rs = [(0x80, 0x8F); (0x80, 0xBF); (0x80, 0xBF)]).
Proof.
  unfold lead_ranges. repeat (case_match; [intros; simplify_eq; pick_class|]). done.
Qed.

Ltac lead_cases H :=
  destruct H as [[? ->]|[[? ->]|[[? ->]|[[? ->]|[[? ->]|[[? ->]|[? ->]]]]]]].

Lemma lead_ranges_spec b :
  lead_ranges b =
    if decide (0xC2 <= b <= 0xDF) then Some [(0x80, 0xBF)]
    else if decide (b = 0xE0) then Some [(0xA0, 0xBF); (0x80, 0xBF)]
    else if decide (b = 0xED) then Some [(0x80, 0x9F); (0x80, 0xBF)]
    else if decide (0xE1 <= b <= 0xEF) then Some [(0x80, 0xBF); (0x80, 0xBF)]
    else if decide (b = 0xF0) then Some [(0x90, 0xBF); (0x80, 0xBF); (0x80, 0xBF)]
    else if decide (0xF1 <= b <= 0xF3) then Some [(0x80, 0xBF); (0x80, 0xBF); (0x80, 0xBF)]
    else if decide (b = 0xF4) then Some [(0x80, 0x8F); (0x80, 0xBF); (0x80, 0xBF)]
    else None.
Proof. unfold lead_ranges. repeat case_decide; repeat (case_match; try lia); done. Qed.

(** The encoding of a scalar value is a lead byte and bytes in its ranges... *)
Lemma encode_ranges cp :
  scalar cp = true -> 0x80 <= cp ->
  exists b bs, encode cp = b :: bs /\ exists rs, lead_ranges b = Some rs /\ in_ranges rs bs.
Proof.
  intros H%scalar_range H80. unfold encode.
  rewrite (proj2 (Z.ltb_ge cp 0x80)) by lia.
  case_match eqn:E1; [|case_match eqn:E2]; eexists _, _; (split; [done|]); rewrite lead_ranges_spec.
  all: repeat case_decide; try solve [exfalso; Z.div_mod_to_equations; lia].
  all: eexists; split; [done|]; simpl; Z.div_mod_to_equations; lia.
Qed.

(** ...and every such sequence encodes one. *)
Lemma ranges_encode b bs rs :
  lead_ranges b = Some rs -> in_ranges rs bs ->
  exists cp, scalar cp = true /\ 0x80 <= cp /\ encode cp = b :: bs.
Proof.
  intros Hl Hr.
  apply lead_ranges_inv in Hl.
  lead_cases Hl;
    destruct bs as [|x [|y [|z [|w bs]]]];
    simpl in Hr; try tauto.
  1: exists ((b - 0xC0) * 64 + (x - 0x80)).
  2, 3, 4: exists ((b - 0xE0) * 4096 + (x - 0x80) * 64 + (y - 0x80)).
  5, 6, 7: exists ((b - 0xF0) * 262144 + (x - 0x80) * 4096 + (y - 0x80) * 64 + (z - 0x80)).
  all: split; [unfold scalar; lia|]; split; [lia|].
  all: unfold encode; repeat (case_match; try lia); repeat f_equal; Z.div_mod_to_equations; lia.
Qed.

(** ** The checks as automata *)

(** What may follow: [rs] are the ranges still expected for the character that
    was begun. *)
Definition utf8_next (rs : list (Z * Z)) (b : Z) : option (list (Z * Z)) :=
  match rs with
  | [] => if (0 <=? b) && (b <=? 0x7F) then Some [] else lead_ranges b
  | r :: rs => if (r.1 <=? b) && (b <=? r.2) then Some rs else None
  end.

Fixpoint utf8_run (rs : list (Z * Z)) (s : list Z) : bool :=
  match s with
  | [] => bool_decide (rs = [])
  | b :: s => match utf8_next rs b with Some rs => utf8_run rs s | None => false end
  end.

Lemma utf8_run_ranges rs bs s : in_ranges rs bs -> utf8_run rs (bs ++ s) = utf8_run [] s.
Proof.
  revert rs; induction bs as [|b bs IH]; intros [|r rs]; simpl; try done.
  intros [Hb Hr]. rewrite (proj2 (Z.leb_le r.1 b)), (proj2 (Z.leb_le b r.2)) by lia. simpl. by apply IH.
Qed.

Lemma utf8_run_split rs s :
  utf8_run rs s = true -> exists bs t, s = bs ++ t /\ in_ranges rs bs /\ utf8_run [] t = true.
Proof.
  revert rs; induction s as [|b s IH]; intros rs Hs.
  { simpl in Hs. apply bool_decide_eq_true in Hs as ->. by exists [], []. }
  destruct rs as [|r rs]; [by exists [], (b :: s)|].
  simpl in Hs. destruct ((r.1 <=? b) && (b <=? r.2)) eqn:E; [|done].
  destruct (IH rs Hs) as (bs & t & -> & Hr & Ht). exists (b :: bs), t. simpl. repeat split; try done; lia.
Qed.

Lemma encode_ascii cp : 0 <= cp < 0x80 -> encode cp = [cp].
Proof. intros H. unfold encode. by rewrite (proj2 (Z.ltb_lt cp 0x80)) by lia. Qed.

Lemma utf8_run_encode cp s : scalar cp = true -> utf8_run [] (encode cp ++ s) = utf8_run [] s.
Proof.
  intros Hc. pose proof (scalar_range _ Hc). destruct (decide (cp < 0x80)).
  - rewrite encode_ascii by lia. simpl. by rewrite (proj2 (Z.leb_le 0 cp)), (proj2 (Z.leb_le cp 127)) by lia.
  - destruct (encode_ranges cp Hc) as (b & bs & -> & rs & Hl & Hr); [lia|]. simpl.
    apply lead_ranges_inv in Hl as Hb.
    rewrite (proj2 (Z.leb_gt b 127)), andb_false_r by lia. rewrite Hl. by apply utf8_run_ranges.
Qed.

(** The range check accepts exactly the well-formed texts. *)
Lemma utf8_run_spec s : utf8_run [] s = true <-> is_utf8 s.
Proof.
  split.
  - remember (length s) as n eqn:Hn. revert s Hn.
    induction (lt_wf n) as [n _ IH]; intros [|b s] -> Hs; [apply is_utf8_nil|].
    simpl in Hs. destruct ((0 <=? b) && (b <=? 127)) eqn:E.
    + apply (is_utf8_app [b] s); [|by apply (IH (length s)); simpl; [lia|..]].
      rewrite <- encode_ascii by lia. apply is_utf8_encode. unfold scalar. lia.
    + destruct (lead_ranges b) as [rs|] eqn:El; [|done].
      apply utf8_run_split in Hs as (bs & t & -> & Hr & Ht).
      destruct (ranges_encode b bs rs El Hr) as (cp & Hc & _ & Hcp).
      change (b :: bs ++ t) with ((b :: bs) ++ t). rewrite <- Hcp.
      apply is_utf8_app; [by apply is_utf8_encode|].
      apply (IH (length t)); [simpl; rewrite length_app; lia|done..].
  - intros (cps & H & ->). induction H as [|cp cps Hc _ IH]; [done|].
    unfold utf8_text. simpl. by rewrite utf8_run_encode.
Qed.

Abbreviation cont := (0x80, 0xBF) (only parsing).

(** The states of [decode] and what they still expect. *)
Definition dfa_states : list (list (Z * Z) * Z) :=
  [([], 0); ([cont], 2); ([cont; cont], 3); ([(0xA0, 0xBF); cont], 4); ([(0x80, 0x9F); cont], 5);
   ([(0x90, 0xBF); cont; cont], 6); ([cont; cont; cont], 7); ([(0x80, 0x8F); cont; cont], 8)].

(** The bits of the codepoint in a first byte. *)
Definition first_bits (b : Z) : Z :=
  if b <? 0x80 then b else if b <? 0xE0 then b - 0xC0 else if b <? 0xF0 then b - 0xE0 else b - 0xF0.

(** One transition of the table agrees with [utf8_next]. *)
Definition check_transition (x : list (Z * Z) * Z) (b : Z) : bool :=
  match utf8d !! Z.to_nat b with
  | Some type =>
      match utf8d !! Z.to_nat (256 + x.2 * 16 + type) with
      | Some s' =>
          match utf8_next x.1 b with
          | Some rs' => bool_decide ((rs', s') ∈ dfa_states) &&
              (negb (x.2 =? 0) || (Z.land (Z.shiftr 0xFF type) b =? first_bits b))
          | None => s' =? 1
          end
      | None => false
      end
  | None => false
  end.

Lemma transitions_checked :
  forallb (fun x => forallb (check_transition x) (seqZ 0 256)) dfa_states = true.
Proof. vm_compute. reflexivity. Qed.

Lemma transition_ok rs s b : (rs, s) ∈ dfa_states -> is_byte b -> check_transition (rs, s) b = true.
Proof.
  intros Hs Hb. pose proof transitions_checked as H. rewrite forallb_forall in H.
  apply byte_forall; [|done]. apply H. by apply list_elem_of_In.
Qed.

(** A transition of [decode]. *)
Lemma decode_next rs s cp b :
  (rs, s) ∈ dfa_states -> is_byte b ->
  exists s' cp', decode s cp b = Some (s', cp') /\
    match utf8_next rs b with
    | Some rs' => (rs', s') ∈ dfa_states /\
        cp' = if s =? 0 then first_bits b else Z.lor (Z.land b 0x3F) (u32 (Z.shiftl cp 6))
    | None => s' = 1
    end.
Proof.
  intros Hs Hb. pose proof (transition_ok rs s b Hs Hb) as H.
  unfold check_transition, decode, UTF8_ACCEPT in *. simpl in *.
  destruct (utf8d !! Z.to_nat b) as [type|]; [|done]. simpl.
  destruct (utf8d !! Z.to_nat (256 + s * 16 + type)) as [s'|]; [|done]. simpl.
  eexists _, _; split; [done|].
  destruct (utf8_next rs b) as [rs'|]; [|lia].
  apply andb_true_iff in H as [H1%bool_decide_eq_true H2]. split; [done|].
  destruct (s =? 0); [|done]. simpl in H2. lia.
Qed.

Lemma dfa_state_cases rs s : (rs, s) ∈ dfa_states -> (s = 0 /\ rs = []) \/ (1 < s /\ rs <> []).
Proof.
  unfold dfa_states. rewrite !elem_of_cons, elem_of_nil.
  intros H. repeat destruct H as [H|H]; simplify_eq; try (by left); right; split; (lia || done).
Qed.

Lemma lor_cont cp b :
  0 <= cp < 2 ^ 25 -> 0x80 <= b <= 0xBF -> Z.lor (Z.land b 0x3F) (u32 (Z.shiftl cp 6)) = cp * 64 + (b - 0x80).
Proof.
  intros Hcp Hb. unfold u32. rewrite uwrap_small
    by (unfold in_u; rewrite Z.shiftl_mul_pow2 by lia; change (2 ^ 6) with 64; lia).
  rewrite Z.lor_comm, land_3F, (lor_shiftl_add cp (b mod 64) 6)
    by (try (change (2 ^ 6) with 64); Z.div_mod_to_equations; lia).
  change (2 ^ 6) with 64. Z.div_mod_to_equations. lia.
Qed.

(** [decode] reads [bs] and accepts with the codepoint [cp] at the last byte. *)
Fixpoint decodes (s v : Z) (bs : list Z) (cp : Z) : Prop :=
  match bs with
  | [] => False
  | [b] => decode s v b = Some (0, cp)
  | b :: bs => exists s' v', decode s v b = Some (s', v') /\ 1 < s' /\ decodes s' v' bs cp
  end.

(** The codepoint that the remaining bytes complete. *)
Definition complete (v : Z) (bs : list Z) : Z := foldl (fun v b => v * 64 + (b - 0x80)) v bs.

Lemma cont_ranges rs s r : (rs, s) ∈ dfa_states -> r ∈ rs -> 0x80 <= r.1 /\ r.2 <= 0xBF.
Proof.
  intros Hs Hr. assert (Forall (fun x => Forall (fun r => 0x80 <= r.1 /\ r.2 <= 0xBF) x.1) dfa_states) as H
    by (repeat constructor; simpl; lia).
  rewrite Forall_forall in H. specialize (H _ Hs). rewrite Forall_forall in H. by apply H.
Qed.

Lemma decodes_cont rs s v bs :
  (rs, s) ∈ dfa_states -> rs <> [] -> in_ranges rs bs -> 0 <= v < 2 ^ (25 - 6 * Z.of_nat (length rs - 1)) ->
  (length rs <= 3)%nat -> decodes s v bs (complete v bs).
Proof.
  revert rs s v; induction bs as [|b bs IH]; intros [|r rs] s v Hs Hne Hr Hv Hl; simpl in Hr; try done.
  destruct Hr as [Hb Hr].
  pose proof (cont_ranges _ _ r Hs ltac:(left)) as Hbr.
  destruct (dfa_state_cases _ _ Hs) as [[_ ?]|[Hs1 _]]; [done|].
  destruct (decode_next _ _ v b Hs) as (s' & cp' & Hd & Hn); [unfold is_byte, in_u; lia|].
  simpl in Hn. rewrite (proj2 (Z.leb_le r.1 b)), (proj2 (Z.leb_le b r.2)) in Hn by lia. simpl in Hn.
  destruct Hn as [Hs' ->]. rewrite (proj2 (Z.eqb_neq s 0)) in Hd by lia.
  assert (2 ^ (25 - 6 * Z.of_nat (length (r :: rs) - 1)) <= 2 ^ 25) as Hle by (apply Z.pow_le_mono_r; lia).
  rewrite lor_cont in Hd by lia.
  destruct (dfa_state_cases _ _ Hs') as [[-> ->]|[Hs2 Hne']].
  - destruct bs as [|? ?]; [exact Hd | done].
  - destruct bs as [|b' bs]; [by destruct rs|].
    change (exists s'' v', decode s v b = Some (s'', v') /\ 1 < s'' /\ decodes s'' v' (b' :: bs) (complete v (b :: b' :: bs))).
    eexists s', _; split; [exact Hd|]. split; [done|].
    apply (IH rs s'); [done..| |simpl in Hl; lia].
    assert (2 ^ (25 - 6 * Z.of_nat (length rs - 1)) = 64 * 2 ^ (25 - 6 * Z.of_nat (length (r :: rs) - 1))) as E.
    { destruct rs as [|r' rs]; [done|]. simpl length in *.
      change 64 with (2 ^ 6). rewrite <- Z.pow_add_r by lia. f_equal. lia. }
    rewrite E. lia.
Qed.

Lemma decodes_encode cp v : scalar cp = true -> decodes 0 v (encode cp) cp.
Proof.
  intros Hc. pose proof (scalar_range _ Hc) as Hr.
  assert (([], 0) ∈ dfa_states) as H0 by (left).
  destruct (decide (cp < 0x80)).
  - rewrite encode_ascii by lia. simpl.
    destruct (decode_next _ _ v cp H0) as (s' & cp' & -> & Hn); [unfold is_byte, in_u; lia|].
    simpl in Hn. rewrite (proj2 (Z.leb_le 0 cp)), (proj2 (Z.leb_le cp 127)) in Hn by lia. simpl in Hn.
    destruct Hn as [Hs' ->]. change (0 =? 0) with true. simpl. unfold first_bits.
    rewrite (proj2 (Z.ltb_lt cp 0x80)) by lia.
    by destruct (dfa_state_cases _ _ Hs') as [[-> _]|[_ ?]].
  - destruct (encode_ranges cp Hc) as (b & bs & Hcp & rs & Hl & Hbs); [lia|]. rewrite Hcp.
    apply lead_ranges_inv in Hl as Hb.
    destruct (decode_next _ _ v b H0) as (s' & cp' & Hd & Hn); [unfold is_byte, in_u; lia|].
    simpl in Hn. rewrite (proj2 (Z.leb_gt b 127)), andb_false_r, Hl in Hn by lia.
    destruct Hn as [Hs' Hcp']. change (0 =? 0) with true in Hcp'. simpl in Hcp'.
    destruct bs as [|b' bs]; [by lead_cases Hb|].
    destruct (dfa_state_cases _ _ Hs') as [[-> ->]|[Hs2 Hne]]; [done|].
    change (exists s'' v', decode 0 v b = Some (s'', v') /\ 1 < s'' /\ decodes s'' v' (b' :: bs) cp).
    exists s', cp'. split; [done|]. split; [done|].
    assert (complete cp' (b' :: bs) = cp) as <-.
    { subst cp'. unfold encode in Hcp. unfold first_bits, complete.
      rewrite (proj2 (Z.ltb_ge cp 0x80)) in Hcp by lia.
      repeat case_match; simplify_eq; simpl; Z.div_mod_to_equations; lia. }
    apply (decodes_cont rs); [done..| |];
      lead_cases Hb; simpl; try lia;
      subst cp'; unfold first_bits; repeat case_match; lia.
Qed.
