(* ===== verification/JsonLexProps.v ===== *)
(** JsonLexProps: what each function of the lexer does, in terms of the text that
    is still to be read ([pending]): [unget] puts a character back in front of it. *)

From S2P Require Import Prelude Json JsonLexer JsonDump JsonUtf8.

Section lexer_props.
Context {F : Type} `{NumberFloat F}.
Implicit Types (st : lexer (F := F)) (c : Z) (p b : list Z).

Definition pending st : list Z :=
  if next_unget st && negb (current st =? EOF) then current st :: ia st else ia st.

(** A fixed setting of the lexer. *)
Context (ic : bool) (dp : Z).

(** The lexer has read at least [n] characters, [p] is to be read, the token so far
    is [b] with its decimal point at [d]. *)
Record lx (n d : Z) p b st : Prop := Lx {
  lx_pending : pending st = p;
  lx_buffer : token_buffer st = b;
  lx_bytes : Forall is_byte p;
  lx_unget : next_unget st = true -> current st = EOF -> ia st = [];
  lx_total : 0 <= n <= chars_read_total (position st);
  lx_point : decimal_point_position st = d;
  lx_comments : ignore_comments st = ic;
  lx_char : decimal_point_char st = dp
}.

(** [c] was just read. *)
Record fresh c st : Prop := Fresh {
  fresh_current : current st = c;
  fresh_unget : next_unget st = false;
  fresh_string : c <> EOF -> token_string st <> []
}.

Lemma fresh_ia n d p b c st : lx n d p b st -> fresh c st -> ia st = p.
Proof. intros [] []. unfold pending in *. by rewrite fresh_unget0 in lx_pending0. Qed.

Lemma record_char_ok E st (Q : Z -> lexer -> Prop) :
  (forall st', current st' = current st -> ia st' = ia st -> next_unget st' = next_unget st ->
    chars_read_total (position st') = chars_read_total (position st) -> token_buffer st' = token_buffer st ->
    decimal_point_position st' = decimal_point_position st -> ignore_comments st' = ignore_comments st ->
    decimal_point_char st' = decimal_point_char st -> (current st <> EOF -> token_string st' <> []) ->
    Q (current st) st') ->
  wp E record_char st Q.
Proof.
  intros HQ. unfold record_char. wp_steps.
  destruct (current st =? EOF) eqn:E1; wp_steps; case_match; wp_steps; apply HQ; simpl; try done; try lia;
    intros _; by destruct (token_string st).
Qed.

Lemma get_lx E n d p b st Q :
  lx n d p b st ->
  (forall st', lx (n + 1) d (tail p) b st' -> fresh (hd EOF p) st' -> Q (hd EOF p) st') ->
  wp E get st Q.
Proof.
  intros [Hp Hb Hby Hu Ht Hd Hic Hdp] HQ. unfold get. wp_steps.
  set (st1 := set_position _ st).
  assert (forall st2, current st2 = hd EOF p -> ia st2 = tail p -> next_unget st2 = false ->
    position st2 = position st1 -> token_buffer st2 = b -> decimal_point_position st2 = d ->
    ignore_comments st2 = ic -> decimal_point_char st2 = dp -> wp E record_char st2 Q) as Hrest.
  { intros st2 H1 H2 H3 H4 H5 H6 H7 H8. apply record_char_ok. intros st3 G1 G2 G3 G4 G5 G6 G7 G8 G9.
    rewrite H1 in *. apply HQ; [|split; [congruence..|done]]. split; try congruence.
    - unfold pending. by rewrite G3, H3, G2.
    - destruct p; [done|]. by inversion Hby.
    - rewrite G4, H4. simpl. lia. }
  unfold pending in Hp. change (next_unget st1) with (next_unget st).
  destruct (next_unget st) eqn:E1; wp_steps.
  - simpl in Hp. destruct (current st =? EOF) eqn:E2; simpl in Hp; subst p; apply Hrest; try done; simpl.
    + rewrite (Hu eq_refl) by lia. simpl. lia.
    + by rewrite (Hu eq_refl) by lia.
  - simpl in Hp. unfold get_character. wp_steps. change (ia st1) with (ia st). rewrite Hp.
    destruct p; by apply Hrest.
Qed.

Lemma unget_lx E n d p b st Q :
  0 <= n -> Forall is_byte p -> lx (n + 1) d (tail p) b st -> fresh (hd EOF p) st ->
  (forall st', lx n d p b st' -> Q tt st') -> wp E unget st Q.
Proof.
  intros Hn Hby L Fr HQ. pose proof (fresh_ia _ _ _ _ _ _ L Fr) as Hia.
  destruct L as [Hp Hb Hby' Hu Ht Hd Hic Hdp], Fr as [Hc Hun Hts].
  unfold unget. wp_steps. simpl. rewrite Hc.
  assert (forall st2, current st2 = hd EOF p -> ia st2 = tail p -> next_unget st2 = true ->
    chars_read_total (position st2) = chars_read_total (position st) - 1 -> token_buffer st2 = b ->
    decimal_point_position st2 = d -> ignore_comments st2 = ic -> decimal_point_char st2 = dp -> Q tt st2) as Hfin.
  { intros st2 H1 H2 H3 H4 H5 H6 H7 H8. apply HQ. split; try done.
    - unfold pending. rewrite H3, H1, H2. destruct p as [|c p]; [done|]. simpl.
      assert (is_byte c) as Hbc by by inversion Hby. unfold is_byte, in_u in Hbc.
      by rewrite (proj2 (Z.eqb_neq c EOF)) by lia.
    - intros _. rewrite H1, H2. destruct p as [|c p]; [done|]. simpl.
      assert (is_byte c) as Hbc by by inversion Hby. unfold is_byte, in_u in Hbc. lia.
    - lia. }
  assert (chars_read_total (unget_position (position st)) = chars_read_total (position st) - 1) as Ht'
    by (unfold unget_position; by case_match).
  destruct (hd EOF p =? EOF) eqn:E1; wp_steps; [by apply Hfin|].
  simpl. rewrite bool_decide_true by (apply Hts; lia). wp_steps. by apply Hfin.
Qed.

(** Changes of the other members. *)
Lemma add_lx E n d p b c st Q :
  lx n d p b st -> is_byte c -> (forall st', lx n d p (b ++ [c]) st' -> Q tt st') -> wp E (add c) st Q.
Proof.
  intros [] Hc HQ. unfold add. wp_steps. apply HQ. split; try done. simpl.
  rewrite lx_buffer0. unfold to_char_type, u8. by rewrite uwrap_small.
Qed.

Lemma error_lx {A} E n d p b e (t : A) st Q :
  lx n d p b st -> (forall st', lx n d p b st' -> Q t st') -> wp E (error_return e t) st Q.
Proof. intros [] HQ. unfold error_return. wp_steps. by apply HQ. Qed.

Lemma assert_ok E (b : bool) st Q : b = true -> Q tt st -> wp E (assert b) st Q.
Proof. by intros ->. Qed.

Lemma reset_lx E n d p b c st Q :
  lx n d p b st -> fresh c st -> (forall st', lx n npos p [] st' -> fresh c st' -> Q tt st') -> wp E reset st Q.
Proof. intros [] [] HQ. unfold reset. wp_steps. apply HQ; by split. Qed.

Lemma loop_fuel_lx E n d p b st Q :
  lx n d p b st -> (forall k, (length p < k)%nat -> Q k st) -> wp E loop_fuel st Q.
Proof.
  intros [] HQ. unfold loop_fuel. wp_steps. apply HQ. unfold pending in lx_pending0.
  case_match; subst p; simpl; lia.
Qed.

Lemma lx_weaken n n' d p b st : lx n d p b st -> 0 <= n' <= n -> lx n' d p b st.
Proof. intros [] Hn. split; try done; lia. Qed.

Lemma lx_byte n d c p b st : lx n d (c :: p) b st -> is_byte c.
Proof. intros []. by inversion lx_bytes0. Qed.

Lemma lx_current n d p b c st : lx n d p b st -> fresh c st -> current st = c.
Proof. by intros _ []. Qed.

(** ** Strings *)

Definition hex_nibble c : option Z :=
  if (48 <=? c) && (c <=? 57) then Some (c - 48)
  else if (65 <=? c) && (c <=? 70) then Some (c - 55)
  else if (97 <=? c) && (c <=? 102) then Some (c - 87)
  else None.

Lemma hex_nibble_range c v : hex_nibble c = Some v -> 0 <= v < 16.
Proof. unfold hex_nibble. repeat case_match; intros; simplify_eq; lia. Qed.

Lemma hex_digit_nibble c f :
  0 <= f <= 12 -> hex_digit c f = (fun v => v * 2 ^ f) <$> hex_nibble c.
Proof.
  intros Hf. unfold hex_digit, hex_nibble.
  assert (2 ^ f <= 2 ^ 12) as Hp by (apply Z.pow_le_mono_r; lia).
  pose proof (Z.pow_pos_nonneg 2 f ltac:(lia) ltac:(lia)).
  assert (forall v, 0 <= v < 16 -> s32 (u32 (Z.shiftl (u32 v) f)) = v * 2 ^ f) as Hv.
  { intros v Hv. assert (0 <= v * 2 ^ f <= 16 * 4096) by (change 4096 with (2 ^ 12); nia).
    unfold u32 at 2. rewrite uwrap_small by (unfold in_u; lia).
    rewrite Z.shiftl_mul_pow2 by lia. unfold u32. rewrite uwrap_small by (unfold in_u; lia).
    unfold s32. rewrite swrap_small; [done|lia|unfold in_s; lia]. }
  repeat case_match; simpl; try done; rewrite Hv by lia; done.
Qed.

(** Hexadecimal digits at the start of a text, weighted by the powers of two [fs]. *)
Fixpoint hex_spec (fs : list Z) p : option (Z * list Z) :=
  match fs with
  | [] => Some (0, p)
  | f :: fs =>
      match p with
      | [] => None
      | c :: p => d ← hex_nibble c; '(v, p') ← hex_spec fs p; Some (d * 2 ^ f + v, p')
      end
  end.

Definition hex_bound (fs : list Z) : Z := foldr (fun f n => 15 * 2 ^ f + n) 0 fs.

Lemma hex_spec_range fs p v p' :
  hex_spec fs p = Some (v, p') -> 0 <= v <= hex_bound fs /\ (length p = length fs + length p')%nat.
Proof.
  revert p v p'; induction fs as [|f fs IH]; intros p v p' Hp; simpl in Hp; [simplify_eq; simpl; lia|].
  destruct p as [|c p]; [done|]. destruct (hex_nibble c) as [d|] eqn:Ed; [|done]. simpl in Hp.
  destruct (hex_spec fs p) as [[v' q]|] eqn:Es; [|done]. simpl in Hp. simplify_eq.
  apply IH in Es as [Hv Hl]. apply hex_nibble_range in Ed. simpl.
  pose proof (Z.pow_nonneg 2 f ltac:(lia)). split; [nia|lia].
Qed.

(** The states after a function: [n'] more characters read, a suffix left. *)
Definition moved n d p b st : Prop :=
  exists n' p', n <= n' /\ (length p' <= length p)%nat /\ lx n' d p' b st.

Lemma moved_intro n d p b n' p' st :
  lx n' d p' b st -> n <= n' -> (length p' <= length p)%nat -> moved n d p b st.
Proof. by exists n', p'. Qed.

Lemma hd_eof_not c p : hd EOF p = c -> c <> EOF -> exists p', p = c :: p'.
Proof. destruct p as [|c' p]; simpl; [congruence|]. intros -> _. eauto. Qed.

Lemma length_tail_le p : (length (tail p) <= length p)%nat.
Proof. destruct p; simpl; lia. Qed.

Lemma codepoint_loop_ok fs acc n d p b st :
  Forall (fun f => 0 <= f <= 12) fs -> 0 <= acc -> acc + hex_bound fs <= 0xFFFF ->
  lx n d p b st ->
  wp nofault (codepoint_loop fs acc) st (fun r st' =>
    match hex_spec fs p with
    | Some (v, p') => r = acc + v /\ lx (n + Z.of_nat (length fs)) d p' b st'
    | None => r = -1 /\ moved n d p b st'
    end).
Proof.
  intros Hf. revert acc n p st; induction Hf as [|f fs Hf _ IH]; intros acc n p st Ha Hb L; simpl in *.
  - wp_steps. apply assert_ok; [lia|]. wp_steps.
    split; [lia|]. eapply lx_weaken; [done|]. destruct L. lia.
  - wp_steps. apply (get_lx _ _ _ _ _ _ _ L). intros st' L' Fr. rewrite hex_digit_nibble by done.
    assert (0 <= n) as Hn by (destruct L; lia).
    destruct p as [|c p]; simpl in *.
    { split; [done|]. apply (moved_intro _ _ [] b _ _ _ L'); [lia|done]. }
    destruct (hex_nibble c) as [v|] eqn:Ev; simpl.
    + pose proof (hex_nibble_range _ _ Ev). pose proof (Z.pow_nonneg 2 f ltac:(lia)).
      eapply wp_mono; [apply (IH (acc + v * 2 ^ f) (n + 1) p); [nia|nia|exact L']|]. intros r st2 Hr.
      destruct (hex_spec fs p) as [[w q]|]; simpl.
      * destruct Hr as [-> Lr]. split; [lia|]. eapply lx_weaken; [exact Lr|]. lia.
      * destruct Hr as [-> (n' & q & ? & ? & Lr)]. split; [done|].
        apply (moved_intro _ _ (c :: p) b _ _ _ Lr); simpl; lia.
    + split; [done|]. apply (moved_intro _ _ (c :: p) b _ _ _ L'); simpl; lia.
Qed.

Definition hex4_spec p : option (Z * list Z) := hex_spec [12; 8; 4; 0] p.

Lemma hex4_range p v p' : hex4_spec p = Some (v, p') -> 0 <= v <= 0xFFFF /\ (length p = 4 + length p')%nat.
Proof. intros Hp. apply hex_spec_range in Hp as [Hv Hl]. simpl in Hl. split; [|lia]. exact Hv. Qed.

Lemma get_codepoint_ok n d p b st :
  lx n d p b st -> fresh c_u st ->
  wp nofault get_codepoint st (fun r st' =>
    match hex4_spec p with
    | Some (v, p') => r = v /\ lx n d p' b st'
    | None => r = -1 /\ moved n d p b st'
    end).
Proof.
  intros L Fr. unfold get_codepoint. wp_steps. rewrite (lx_current _ _ _ _ _ _ L Fr).
  apply assert_ok; [done|]. eapply wp_mono.
  { apply (codepoint_loop_ok _ _ n d p b); [repeat constructor; lia|lia| |done]. vm_compute. congruence. }
  intros r st' Hr. unfold hex4_spec. destruct (hex_spec _ p) as [[v q]|]; [|done].
  destruct Hr as [-> Lr]. split; [lia|]. eapply lx_weaken; [done|]. simpl. destruct L. lia.
Qed.

(** Bytes in the given ranges at the start of a text. *)
Fixpoint ranges_spec (rs : list (Z * Z)) p : option (list Z * list Z) :=
  match rs with
  | [] => Some ([], p)
  | r :: rs =>
      match p with
      | [] => None
      | c :: p => if (r.1 <=? c) && (c <=? r.2) then '(bs, p') ← ranges_spec rs p; Some (c :: bs, p') else None
      end
  end.

Lemma ranges_spec_Some rs p bs p' : ranges_spec rs p = Some (bs, p') <-> p = bs ++ p' /\ in_ranges rs bs.
Proof.
  revert p bs; induction rs as [|r rs IH]; intros p bs; simpl.
  - split; [intros; by simplify_eq | intros [-> Hr]; by destruct bs].
  - destruct p as [|c p]; [split; [done|intros [Hp Hr]; by destruct bs]|].
    destruct ((r.1 <=? c) && (c <=? r.2)) eqn:E.
    + destruct (ranges_spec rs p) as [[bs' q]|] eqn:Es; simpl.
      * split.
        -- intros; simplify_eq. apply IH in Es as [-> Hr]. simpl. repeat split; try done; lia.
        -- intros [Hp Hr]. destruct bs as [|c' bs]; [done|]. simpl in *. simplify_eq.
           destruct Hr as [_ Hr]. assert (ranges_spec rs (bs ++ p') = Some (bs, p')) as E' by by apply IH.
           rewrite E' in Es. by simplify_eq.
      * split; [done|]. intros [Hp Hr]. destruct bs as [|c' bs]; [done|]. simpl in *. simplify_eq.
        destruct Hr as [_ Hr]. assert (ranges_spec rs (bs ++ p') = Some (bs, p')) as E' by by apply IH. congruence.
    + split; [done|]. intros [Hp Hr]. destruct bs as [|c' bs]; [done|]. simpl in *. simplify_eq. lia.
Qed.

Lemma range_loop_ok rs n d p b st :
  Forall (fun r => 0 <= r.1) rs -> lx n d p b st ->
  wp nofault (range_loop rs) st (fun r st' =>
    match ranges_spec rs p with
    | Some (bs, p') => r = true /\ lx n d p' (b ++ bs) st'
    | None => r = false /\ exists b', moved n d p b' st'
    end).
Proof.
  intros Hrs. revert n p b st; induction Hrs as [|[lo hi] rs Hlo _ IH]; intros n p b st L; simpl in *.
  - wp_steps. split; [done|]. by rewrite app_nil_r.
  - wp_steps. apply (get_lx _ _ _ _ _ _ _ L). intros st' L' Fr.
    assert (0 <= n) as Hn by (destruct L; lia).
    destruct p as [|c p]; simpl in *.
    { rewrite (proj2 (Z.leb_gt lo EOF)) by lia. simpl.
      apply (error_lx _ _ _ _ _ _ _ _ _ L'). intros st2 L2. split; [done|]. exists b.
      apply (moved_intro _ _ [] b _ _ _ L2); [lia|done]. }
    destruct ((lo <=? c) && (c <=? hi)) eqn:E; simpl.
    + wp_steps. eapply add_lx; [done|by eapply lx_byte|]. intros st2 L2.
      eapply wp_mono; [by apply IH|]. intros r st3 Hr.
      destruct (ranges_spec rs p) as [[bs q]|]; simpl.
      * destruct Hr as [-> L3]. rewrite <- app_assoc in L3. split; [done|]. eapply lx_weaken; [done|lia].
      * destruct Hr as [-> (b' & n' & q & ? & ? & L3)]. split; [done|]. exists b'.
        apply (moved_intro _ _ (c :: p) _ _ _ _ L3); simpl; lia.
    + apply (error_lx _ _ _ _ _ _ _ _ _ L'). intros st2 L2. split; [done|]. exists b.
      apply (moved_intro _ _ (c :: p) b _ _ _ L2); simpl; lia.
Qed.

Definition is_high (v : Z) : bool := (0xD800 <=? v) && (v <=? 0xDBFF).
Definition is_low (v : Z) : bool := (0xDC00 <=? v) && (v <=? 0xDFFF).
Definition pair_codepoint (v w : Z) : Z := 0x10000 + (v - 0xD800) * 1024 + (w - 0xDC00).

Lemma surrogate_pair_ok v w : is_high v = true -> is_low w = true -> surrogate_pair v w = pair_codepoint v w.
Proof.
  unfold is_high, is_low, surrogate_pair, pair_codepoint. intros Hv Hw.
  unfold u32. rewrite (uwrap_small 32 v), (uwrap_small 32 w) by (unfold in_u; lia).
  rewrite Z.shiftl_mul_pow2 by lia. change (2 ^ 10) with 1024.
  rewrite (uwrap_small 32 (v * 1024)), (uwrap_small 32 (v * 1024 + w)), (uwrap_small 32 (_ - _)) by (unfold in_u; lia).
  unfold s32. rewrite swrap_small; [lia|lia|unfold in_s; lia].
Qed.

Lemma pair_scalar v w : is_high v = true -> is_low w = true -> scalar (pair_codepoint v w) = true.
Proof. unfold is_high, is_low, pair_codepoint, scalar. lia. Qed.

Lemma add_codepoint_ok cp n d p b st Q :
  scalar cp = true -> lx n d p b st -> (forall st', lx n d p (b ++ encode cp) st' -> Q tt st') ->
  wp nofault (add_codepoint cp) st Q.
Proof.
  intros Hc L HQ. pose proof (encode_bytes cp Hc) as Hby. pose proof (scalar_range cp Hc) as Hr.
  assert (forall i, 0 <= i -> Z.shiftr cp i = cp / 2 ^ i) as Hsh by (intros; by apply Z.shiftr_div_pow2).
  assert (forall x, Z.lor 0x80 (Z.land x 0x3F) = 0x80 + x mod 64) as Hlow
    by (intros; rewrite land_3F; apply lor_80, Z.mod_pos_bound; lia).
  unfold add_codepoint, encode in *. rewrite !Hlow, !Hsh by lia.
  change (2 ^ 6) with 64. change (2 ^ 12) with 4096. change (2 ^ 18) with 262144.
  destruct (cp <? 0x80) eqn:E1; [|rewrite Z.leb_antisym; destruct (cp <? 0x800) eqn:E2].
  - inversion_clear Hby. by eapply add_lx.
  - rewrite (proj2 (Z.ltb_ge 0x7FF cp)) by lia. simpl.
    assert (Z.lor 0xC0 (cp / 64) = 0xC0 + cp / 64) as ->
        by (apply (lor_lead 5 6); Z.div_mod_to_equations; lia).
    decompose_Forall. wp_steps. eapply add_lx; [done|done|]. intros st1 L1. wp_steps.
    eapply add_lx; [done|done|]. intros st2 L2. apply HQ. by rewrite <- app_assoc in L2.
  - rewrite (proj2 (Z.ltb_lt 0x7FF cp)) by lia. simpl. rewrite Z.leb_antisym.
    destruct (cp <? 0x10000) eqn:E3.
    + rewrite (proj2 (Z.ltb_ge 0xFFFF cp)) by lia. simpl.
      assert (Z.lor 0xE0 (cp / 4096) = 0xE0 + cp / 4096) as ->
        by (apply (lor_lead 4 14); Z.div_mod_to_equations; lia).
      decompose_Forall. wp_steps. eapply add_lx; [done|done|]. intros st1 L1. wp_steps.
      eapply add_lx; [done|done|]. intros st2 L2. wp_steps. eapply add_lx; [done|done|].
      intros st3 L3. apply HQ. by rewrite <- !app_assoc in L3.
    + rewrite (proj2 (Z.ltb_lt 0xFFFF cp)) by lia. simpl.
      assert (Z.lor 0xF0 (cp / 262144) = 0xF0 + cp / 262144) as ->
        by (apply (lor_lead 3 30); Z.div_mod_to_equations; lia).
      decompose_Forall. wp_steps. eapply add_lx; [done|done|]. intros st1 L1. wp_steps.
      eapply add_lx; [done|done|]. intros st2 L2. wp_steps. eapply add_lx; [done|done|].
      intros st3 L3. wp_steps. eapply add_lx; [done|done|].
      intros st4 L4. apply HQ. by rewrite <- !app_assoc in L4.
Qed.

(** The bytes that the escape after ['\u'] stands for. *)
Definition unicode_spec p : option (list Z * list Z) :=
  '(v, p) ← hex4_spec p;
  if is_high v then
    match p with
    | x :: y :: p =>
        if (x =? cBACKSLASH) && (y =? c_u)
        then '(w, p) ← hex4_spec p; if is_low w then Some (encode (pair_codepoint v w), p) else None
        else None
    | _ => None
    end
  else if is_low v then None else Some (encode v, p).

Lemma get_two_ok x y n d p b st :
  x <> EOF -> y <> EOF -> lx n d p b st ->
  wp nofault (get_two x y) st (fun r st' =>
    (r = true /\ exists p', p = x :: y :: p' /\ lx (n + 2) d p' b st' /\ fresh y st') \/
    (r = false /\ (forall p', p <> x :: y :: p') /\ moved n d p b st')).
Proof.
  intros Hx Hy L. unfold get_two. assert (0 <= n) as Hn by (destruct L; lia).
  wp_steps. apply (get_lx _ _ _ _ _ _ _ L). intros st1 L1 Fr1.
  destruct (hd EOF p =? x) eqn:E1.
  - destruct (hd_eof_not x p ltac:(lia) Hx) as [p1 ->]. simpl in *.
    wp_steps. apply (get_lx _ _ _ _ _ _ _ L1). intros st2 L2 Fr2. wp_steps.
    destruct (hd EOF p1 =? y) eqn:E2.
    + destruct (hd_eof_not y p1 ltac:(lia) Hy) as [p2 ->]. simpl in *. left. split; [done|].
      exists p2. split; [done|]. split; [|done]. eapply lx_weaken; [done|lia].
    + right. split; [done|]. split; [intros p' Hp; simplify_eq; simpl in E2; lia|].
      apply (moved_intro _ _ (x :: p1) b _ _ _ L2); [lia|]. simpl. pose proof (length_tail_le p1). lia.
  - wp_steps. right. split; [done|]. split; [intros p' ->; simpl in E1; lia|].
    apply (moved_intro _ _ p b _ _ _ L1); [lia|apply length_tail_le].
Qed.

(** What one character of a string may make the lexer do. *)
Definition string_outcome n d p b (res : option (list Z * list Z)) (r : option token_type) st : Prop :=
  match res with
  | Some (u, p') => r = None /\ lx n d p' (b ++ u) st
  | None => r = Some parse_error /\ exists b', moved n d p b' st
  end.

Lemma error_moved n d p b e st :
  moved n d p b st ->
  wp nofault (error_return e (Some parse_error)) st (string_outcome n d p b None).
Proof.
  intros (n' & p' & Hn & Hp & L). apply (error_lx _ _ _ _ _ _ _ _ _ L). intros st' L'.
  split; [done|]. exists b. by apply (moved_intro _ _ _ _ _ _ _ L').
Qed.

Lemma scan_unicode_ok n d p b st :
  lx n d p b st -> fresh c_u st ->
  wp nofault scan_unicode st (string_outcome n d p b (unicode_spec p)).
Proof.
  intros L Fr. unfold scan_unicode, unicode_spec. wp_steps.
  eapply wp_mono; [by apply (get_codepoint_ok n d p b)|]. intros v st1 H1.
  destruct (hex4_spec p) as [[v' p1]|] eqn:E1; simpl; [|destruct H1 as [-> H1]; by apply error_moved].
  destruct H1 as [-> L1]. apply hex4_range in E1 as [Hv Hl].
  rewrite (proj2 (Z.eqb_neq v' (-1))) by lia. fold (is_high v') (is_low v').
  assert (forall p2 n2 st2, (length p2 <= length p1)%nat -> n <= n2 -> lx n2 d p2 b st2 -> moved n d p b st2) as Hm
    by (intros p2 n2 st2 ? ? L2; apply (moved_intro _ _ _ _ _ _ _ L2); lia).
  destruct (is_high v') eqn:Eh.
  - wp_steps. eapply wp_mono; [apply (get_two_ok cBACKSLASH c_u n d p1 b st1); [done|done|exact L1]|].
    intros r st2 [(-> & p2 & -> & L2 & Fr2)|(-> & Hne & n2 & p2 & Hn2 & Hp2 & L2)].
    + rewrite !Z.eqb_refl. simpl. wp_steps.
      eapply wp_mono; [by apply (get_codepoint_ok (n + 2) d p2 b)|]. intros w st3 H3.
      destruct (hex4_spec p2) as [[w' p3]|] eqn:E3; simpl.
      2: { destruct H3 as [-> (n3 & p3 & ? & ? & L3)]. apply error_moved.
           eapply Hm; [| |exact L3]; simpl; lia. }
      destruct H3 as [-> L3]. apply hex4_range in E3 as [Hw Hl3].
      rewrite (proj2 (Z.eqb_neq w' (-1))) by lia. fold (is_low w').
      destruct (is_low w') eqn:El.
      * wp_steps. rewrite surrogate_pair_ok by done. pose proof (pair_scalar v' w' Eh El) as Hs.
        pose proof (scalar_range _ Hs). apply assert_ok; [lia|]. wp_steps.
        eapply add_codepoint_ok; [done|done|]. intros st4 L4. wp_steps. split; [done|].
        eapply lx_weaken; [done|]. destruct L; lia.
      * apply error_moved. eapply Hm; [| |exact L3]; simpl; lia.
    + assert (match p1 with
              | x :: y :: p => if (x =? cBACKSLASH) && (y =? c_u)
                  then '(w, p) ← hex4_spec p; if is_low w then Some (encode (pair_codepoint v' w), p) else None
                  else None
              | _ => None end = None) as ->.
      { destruct p1 as [|x [|y p1]]; try done. destruct ((x =? cBACKSLASH) && (y =? c_u)) eqn:E; [|done].
        exfalso. apply (Hne p1). f_equal; [lia|f_equal; lia]. }
      apply error_moved. by eapply Hm.
  - destruct (is_low v') eqn:El.
    + apply error_moved. eapply Hm; [| |exact L1]; lia.
    + wp_steps. assert (scalar v' = true) as Hs by (unfold scalar, is_high, is_low in *; lia).
      apply assert_ok; [lia|]. wp_steps. eapply add_codepoint_ok; [done|done|]. intros st2 L2. wp_steps. by split.
Qed.

Definition simple_escape c : option Z :=
  if c =? cQUOTE then Some cQUOTE else if c =? cBACKSLASH then Some cBACKSLASH
  else if c =? cSLASH then Some cSLASH else if c =? c_b then Some 8 else if c =? c_f then Some 12
  else if c =? c_n then Some 10 else if c =? c_r then Some 13 else if c =? c_t then Some 9 else None.

(** What stands after a backslash. *)
Definition escape_spec p : option (list Z * list Z) :=
  match p with
  | [] => None
  | c :: p =>
      match simple_escape c with
      | Some x => Some ([x], p)
      | None => if c =? c_u then unicode_spec p else None
      end
  end.

(** One character of a string: its bytes and the rest of the text. *)
Definition char_spec p : option (list Z * list Z) :=
  match p with
  | [] => None
  | c :: p =>
      if c =? cBACKSLASH then escape_spec p
      else if is_plain c then Some ([c], p)
      else rs ← lead_ranges c; '(bs, p') ← ranges_spec rs p; Some (c :: bs, p')
  end.

Lemma outcome_shift n n' d p p' b res r st :
  n <= n' -> 0 <= n -> (length p' <= length p)%nat ->
  string_outcome n' d p' b res r st -> string_outcome n d p b res r st.
Proof.
  intros Hn Hn0 Hp. unfold string_outcome. destruct res as [[u q]|].
  - intros [-> L]. split; [done|]. eapply lx_weaken; [done|lia].
  - intros [-> (b' & m & q & ? & ? & L)]. split; [done|]. exists b'. apply (moved_intro _ _ _ _ _ _ _ L); lia.
Qed.

Lemma scan_escape_ok n d p b st :
  lx n d p b st -> wp nofault scan_escape st (string_outcome n d p b (escape_spec p)).
Proof.
  intros L. unfold scan_escape. assert (0 <= n) as Hn by (destruct L; lia).
  wp_steps. apply (get_lx _ _ _ _ _ _ _ L). intros st1 L1 Fr1.
  assert (moved n d p b st1) as Hm
    by (apply (moved_intro _ _ _ _ _ _ _ L1); [lia|apply length_tail_le]).
  destruct p as [|c p]; simpl in *; [by apply error_moved|]. unfold simple_escape.
  assert (forall x, is_byte x ->
    wp nofault (add x;; mret None) st1 (string_outcome n d (c :: p) b (Some ([x], p)))) as Hadd.
  { intros x Hx. wp_steps. eapply add_lx; [done|done|]. intros st2 L2. wp_steps. split; [done|].
    eapply lx_weaken; [done|lia]. }
  repeat (case_match; [apply Hadd; unfold is_byte, in_u; lia|]).
  case_match eqn:E; [|by apply error_moved].
  assert (c = c_u) as -> by lia. eapply wp_mono; [by apply scan_unicode_ok|].
  intros r st2. apply outcome_shift; simpl; lia.
Qed.

Lemma scan_utf8_ok c n d p b st :
  is_byte c -> lx n d p b st -> fresh c st ->
  wp nofault (scan_utf8 c) st
    (string_outcome n d p b (rs ← lead_ranges c; '(bs, p') ← ranges_spec rs p; Some (c :: bs, p'))).
Proof.
  intros Hc L Fr. unfold scan_utf8.
  destruct (lead_ranges c) as [rs|] eqn:El; simpl.
  2: { apply error_moved. apply (moved_intro _ _ _ _ _ _ _ L); lia. }
  assert (length rs ∈ [1; 2; 3]%nat /\ Forall (fun r => 0 <= r.1) rs) as [Hlen Hrs].
  { apply lead_ranges_inv in El. lead_cases El; split; try (repeat constructor; simpl; lia);
      simpl; rewrite !elem_of_cons; lia. }
  unfold next_byte_in_range. wp_steps. apply assert_ok; [by apply bool_decide_eq_true|]. wp_steps.
  rewrite (lx_current _ _ _ _ _ _ L Fr). eapply add_lx; [done|done|]. intros st1 L1.
  eapply wp_mono; [by apply range_loop_ok|]. intros r st2 Hr. wp_steps.
  destruct (ranges_spec rs p) as [[bs q]|]; simpl.
  - destruct Hr as [-> L2]. split; [done|]. rewrite <- app_assoc in L2. done.
  - destruct Hr as [-> [b' Hm]]. split; [done|]. by exists b'.
Qed.

Lemma ranges_spec_length rs p bs p' : ranges_spec rs p = Some (bs, p') -> (length p' <= length p)%nat.
Proof. intros [-> _]%ranges_spec_Some. rewrite length_app. lia. Qed.

Lemma unicode_spec_length p u p' : unicode_spec p = Some (u, p') -> (length p' < length p)%nat.
Proof.
  unfold unicode_spec. destruct (hex4_spec p) as [[v p1]|] eqn:E1; [|done]. simpl.
  apply hex4_range in E1 as [_ E1]. destruct (is_high v).
  - destruct p1 as [|x [|y p1]]; try done. case_match; [|done].
    destruct (hex4_spec p1) as [[w p2]|] eqn:E2; [|done]. simpl. apply hex4_range in E2 as [_ E2].
    case_match; [|done]. intros; simplify_eq. simpl in E1. lia.
  - case_match; [done|]. intros; simplify_eq. lia.
Qed.

Lemma char_spec_length p u p' : char_spec p = Some (u, p') -> (length p' < length p)%nat.
Proof.
  destruct p as [|c p]; [done|]. simpl. destruct (c =? cBACKSLASH).
  - destruct p as [|e p]; [done|]. simpl. destruct (simple_escape e); [intros; simplify_eq; simpl; lia|].
    destruct (e =? c_u); [|done]. intros Hu%unicode_spec_length. lia.
  - destruct (is_plain c); [intros; simplify_eq; lia|].
    destruct (lead_ranges c) as [rs|]; [|done]. simpl.
    destruct (ranges_spec rs p) as [[bs q]|] eqn:E; [|done]. simpl. intros; simplify_eq.
    apply ranges_spec_length in E. lia.
Qed.

(** One round of the loop of [scan_string]. *)
Lemma string_round_ok n d p b st :
  lx n d p b st ->
  wp nofault string_round st (fun r st' =>
    match p with
    | [] => r = Some parse_error /\ exists b', moved n d p b' st'
    | c :: p' =>
        if c =? cQUOTE then r = Some value_string /\ lx (n + 1) d p' b st'
        else string_outcome (n + 1) d p' b (char_spec p) r st'
    end).
Proof.
  intros L. unfold string_round. assert (0 <= n) as Hn by (destruct L; lia).
  wp_steps. apply (get_lx _ _ _ _ _ _ _ L). intros st1 L1 Fr1.
  destruct p as [|c p]; simpl in *.
  { eapply wp_mono; [apply (error_moved n d [] b); by apply (moved_intro _ _ _ _ _ _ _ L1); [lia|]|].
    by intros r st2. }
  pose proof (lx_byte _ _ _ _ _ _ L) as Hc. unfold is_byte, in_u in Hc.
  rewrite (proj2 (Z.eqb_neq c EOF)) by lia.
  destruct (c =? cQUOTE) eqn:Eq; [wp_steps; done|].
  destruct (c =? cBACKSLASH) eqn:Eb; [by apply scan_escape_ok|].
  destruct (is_plain c) eqn:Ep.
  - unfold is_plain in Ep. rewrite (proj2 (Z.leb_gt c 0x1F)), andb_false_r by lia.
    wp_steps. rewrite (lx_current _ _ _ _ _ _ L1 Fr1). eapply add_lx; [done|by unfold is_byte, in_u; lia|].
    intros st2 L2. wp_steps. by split.
  - destruct ((0 <=? c) && (c <=? 0x1F)) eqn:Ec.
    + assert (lead_ranges c = None) as ->.
      { rewrite lead_ranges_spec. repeat (case_decide; try lia). done. }
      simpl. apply (error_moved (n + 1) d p b). apply (moved_intro _ _ _ _ _ _ _ L1); lia.
    + apply scan_utf8_ok; [unfold is_byte, in_u; lia|done..].
Qed.

(** The text of a string up to and with the closing quote, as the lexer reads it. *)
Inductive body : list Z -> list Z -> list Z -> Prop :=
  | body_end p : body (cQUOTE :: p) [] p
  | body_char p u p' us r :
      hd EOF p <> cQUOTE -> char_spec p = Some (u, p') -> body p' us r -> body p (u ++ us) r.

Lemma string_loop_ok fuel n d p b st :
  (length p < fuel)%nat -> lx n d p b st ->
  wp nofault (string_loop fuel) st (fun t st' =>
    (t = value_string /\ exists u p', body p u p' /\ (length p' < length p)%nat /\ lx n d p' (b ++ u) st') \/
    (t = parse_error /\ (forall u p', ~ body p u p') /\ exists b', moved n d p b' st')).
Proof.
  revert n p b st; induction fuel as [|fuel IH]; intros n p b st Hf L; [lia|]. simpl.
  assert (0 <= n) as Hn by (destruct L; lia).
  wp_steps. eapply wp_mono; [by apply string_round_ok|]. intros r st1 Hr.
  destruct p as [|c p].
  { destruct Hr as [-> Hm]. wp_steps. right. split; [done|]. split; [|done].
    intros u p' Hb. by inversion Hb. }
  destruct (c =? cQUOTE) eqn:Eq.
  { destruct Hr as [-> L1]. wp_steps. left. split; [done|]. exists [], p. assert (c = cQUOTE) as -> by lia.
    rewrite app_nil_r. split; [constructor|]. split; [simpl; lia|]. eapply lx_weaken; [done|lia]. }
  destruct (char_spec (c :: p)) as [[u p1]|] eqn:Ec.
  - destruct Hr as [-> L1].
    pose proof (char_spec_length _ _ _ Ec) as Hl1. simpl in Hl1, Hf.
    eapply wp_mono; [apply (IH (n + 1) p1 (b ++ u) st1); [lia|done]|].
    intros t st2 [(-> & us & p2 & Hb & Hl & L2)|(-> & Hno & b' & n2 & p2 & ? & ? & L2)].
    + left. split; [done|]. exists (u ++ us), p2. rewrite app_assoc.
      split; [by apply (body_char _ _ p1); [simpl; lia|..]|]. split; [simpl; lia|]. eapply lx_weaken; [done|lia].
    + right. split; [done|]. split.
      * intros u' p' Hb. inversion Hb; subst; [lia|]. simplify_eq. by eapply Hno.
      * exists b'. apply (moved_intro _ _ _ _ _ _ _ L2); simpl; lia.
  - destruct Hr as [-> (b' & n2 & p2 & ? & ? & L2)]. wp_steps. right. split; [done|]. split.
    + intros u p' Hb. inversion Hb; subst; [lia|]. simplify_eq.
    + exists b'. apply (moved_intro _ _ _ _ _ _ _ L2); simpl; lia.
Qed.

(** ** The grammar of strings (RFC 8259, section 7) *)

(** [char_text t u]: the characters [t] between the quotes stand for the bytes [u]. *)
Inductive char_text : list Z -> list Z -> Prop :=
  | text_plain c : is_plain c = true -> char_text [c] [c]
  | text_utf8 cp : scalar cp = true -> 0x80 <= cp -> char_text (encode cp) (encode cp)
  | text_escape e x : simple_escape e = Some x -> char_text [cBACKSLASH; e] [x]
  | text_unicode h v :
      hex4_spec h = Some (v, []) -> is_high v = false -> is_low v = false ->
      char_text ([cBACKSLASH; c_u] ++ h) (encode v)
  | text_pair h v k w :
      hex4_spec h = Some (v, []) -> is_high v = true -> hex4_spec k = Some (w, []) -> is_low w = true ->
      char_text ([cBACKSLASH; c_u] ++ h ++ [cBACKSLASH; c_u] ++ k) (encode (pair_codepoint v w)).

Inductive string_text : list Z -> list Z -> Prop :=
  | string_nil : string_text [] []
  | string_cons t u t' u' : char_text t u -> string_text t' u' -> string_text (t ++ t') (u ++ u').

Lemma hex_spec_app fs h v p : hex_spec fs h = Some (v, []) -> hex_spec fs (h ++ p) = Some (v, p).
Proof.
  revert h v; induction fs as [|f fs IH]; intros h v; simpl; [intros; by simplify_eq|].
  destruct h as [|c h]; [done|]. simpl. destruct (hex_nibble c) as [x|]; [|done]. simpl.
  destruct (hex_spec fs h) as [[w q]|] eqn:E; [|done]. simpl. intros; simplify_eq. by rewrite (IH _ _ E).
Qed.

Lemma hex_spec_split fs p v p' : hex_spec fs p = Some (v, p') -> exists h, p = h ++ p' /\ hex_spec fs h = Some (v, []).
Proof.
  revert p v; induction fs as [|f fs IH]; intros p v; simpl; [intros; simplify_eq; by exists []|].
  destruct p as [|c p]; [done|]. destruct (hex_nibble c) as [x|] eqn:Ex; [|done]. simpl.
  destruct (hex_spec fs p) as [[w q]|] eqn:E; [|done]. simpl. intros; simplify_eq.
  destruct (IH _ _ E) as (h & -> & Eh). exists (c :: h). split; [done|]. by rewrite Ex, Eh.
Qed.

Lemma hex4_app h v p : hex4_spec h = Some (v, []) -> hex4_spec (h ++ p) = Some (v, p).
Proof. apply hex_spec_app. Qed.

Lemma unicode_spec_text p u p' :
  unicode_spec p = Some (u, p') -> exists t, p = t ++ p' /\ char_text ([cBACKSLASH; c_u] ++ t) u.
Proof.
  unfold unicode_spec. destruct (hex4_spec p) as [[v p1]|] eqn:E1; [|done]. simpl.
  apply hex_spec_split in E1 as (h & -> & Eh). destruct (is_high v) eqn:Ev.
  - destruct p1 as [|x [|y p1]]; try done. case_match eqn:Exy; [|done].
    destruct (hex4_spec p1) as [[w p2]|] eqn:E2; [|done]. simpl.
    apply hex_spec_split in E2 as (k & -> & Ek). destruct (is_low w) eqn:Ew; [|done]. intros; simplify_eq.
    assert (x = cBACKSLASH) as -> by lia. assert (y = c_u) as -> by lia.
    exists (h ++ [cBACKSLASH; c_u] ++ k). split; [by rewrite <- !app_assoc|]. by apply text_pair.
  - destruct (is_low v) eqn:El; [done|]. intros; simplify_eq. exists h. split; [done|]. by apply text_unicode.
Qed.

Lemma char_spec_text p u p' : char_spec p = Some (u, p') -> exists t, p = t ++ p' /\ char_text t u.
Proof.
  destruct p as [|c p]; [done|]. simpl. destruct (c =? cBACKSLASH) eqn:Eb.
  - assert (c = cBACKSLASH) as -> by lia. destruct p as [|e p]; [done|]. simpl.
    destruct (simple_escape e) as [x|] eqn:Ex.
    { intros; simplify_eq. exists [cBACKSLASH; e]. split; [done|]. by apply text_escape. }
    destruct (e =? c_u) eqn:Eu; [|done]. assert (e = c_u) as -> by lia.
    intros (t & -> & Ht)%unicode_spec_text. by exists ([cBACKSLASH; c_u] ++ t).
  - destruct (is_plain c) eqn:Ep.
    { intros; simplify_eq. exists [c]. split; [done|]. by apply text_plain. }
    destruct (lead_ranges c) as [rs|] eqn:El; [|done]. simpl.
    destruct (ranges_spec rs p) as [[bs q]|] eqn:Er; [|done]. simpl. intros; simplify_eq.
    apply ranges_spec_Some in Er as [-> Hr]. exists (c :: bs). split; [done|].
    destruct (ranges_encode c bs rs El Hr) as (cp & Hs & H80 & <-). by apply text_utf8.
Qed.

Lemma text_char_spec t u p : char_text t u -> char_spec (t ++ p) = Some (u, p).
Proof.
  destruct 1 as [c Hc|cp Hs H80|e x He|h v Hh Hhi Hlo|h v k w Hh Hv Hk Hw]; simpl.
  - rewrite Hc. unfold is_plain in Hc. by rewrite (proj2 (Z.eqb_neq c cBACKSLASH)) by lia.
  - destruct (encode_ranges cp Hs H80) as (b & bs & -> & rs & Hl & Hr). simpl.
    apply lead_ranges_inv in Hl as Hb. unfold is_plain.
    rewrite (proj2 (Z.eqb_neq b cBACKSLASH)), (proj2 (Z.leb_gt b 0x7F)), andb_false_r by lia. simpl.
    rewrite Hl. simpl. by rewrite (proj2 (ranges_spec_Some rs _ bs p)).
  - by rewrite He.
  - unfold unicode_spec. rewrite (hex4_app _ _ _ Hh). simpl. by rewrite Hhi, Hlo.
  - unfold unicode_spec. rewrite <- app_assoc, (hex4_app _ _ _ Hh). simpl. rewrite Hv. simpl.
    rewrite (hex4_app _ _ _ Hk). simpl. by rewrite Hw.
Qed.

Lemma is_utf8_ascii c : 0 <= c < 0x80 -> is_utf8 [c].
Proof. intros Hc. rewrite <- encode_ascii by done. apply is_utf8_encode. unfold scalar. lia. Qed.

Lemma char_text_utf8 t u : char_text t u -> is_utf8 u.
Proof.
  destruct 1 as [c Hc|cp Hs H80|e x He|h v Hh Hhi Hlo|h v k w Hh Hv Hk Hw].
  - apply is_utf8_ascii. unfold is_plain in Hc. lia.
  - by apply is_utf8_encode.
  - apply is_utf8_ascii. unfold simple_escape in He. repeat case_match; simplify_eq; lia.
  - apply is_utf8_encode. apply hex4_range in Hh. unfold scalar, is_high, is_low in *. lia.
  - by apply is_utf8_encode, pair_scalar.
Qed.

Lemma string_text_utf8 t u : string_text t u -> is_utf8 u.
Proof. induction 1; [apply is_utf8_nil|]. apply is_utf8_app; eauto using char_text_utf8. Qed.

(** A character of a string does not begin with a quote. *)
Lemma char_text_hd t u p : char_text t u -> hd EOF (t ++ p) <> cQUOTE.
Proof.
  destruct 1 as [c Hc|cp Hs H80|e x He|h v Hh Hhi Hlo|h v k w Hh Hv Hk Hw]; simpl; try lia.
  - unfold is_plain in Hc. lia.
  - destruct (encode_ranges cp Hs H80) as (b & bs & -> & rs & Hl & Hr). simpl. apply lead_ranges_inv in Hl. lia.
Qed.

Lemma body_text p u r : body p u r <-> exists t, p = t ++ cQUOTE :: r /\ string_text t u.
Proof.
  split.
  - induction 1 as [p|p u p' us r Hq Hc Hb (t & -> & Ht)].
    + exists []. split; [done|constructor].
    + apply char_spec_text in Hc as (t' & -> & Hc). exists (t' ++ t). rewrite <- app_assoc. split; [done|].
      by constructor.
  - intros (t & -> & Ht). induction Ht as [|t u t' u' Hc _ IH]; [constructor|].
    rewrite <- app_assoc. eapply body_char; [by eapply char_text_hd| |exact IH]. by apply text_char_spec.
Qed.

(** [scan_string] after the opening quote. *)
Lemma scan_string_ok n d p b st :
  lx n d p b st -> fresh cQUOTE st ->
  wp nofault scan_string st (fun t st' =>
    (t = value_string /\ exists s u p', p = s ++ cQUOTE :: p' /\ string_text s u /\ lx n npos p' u st') \/
    (t = parse_error /\ (forall s u p', p = s ++ cQUOTE :: p' -> ~ string_text s u) /\
     exists b', moved n npos p b' st')).
Proof.
  intros L Fr. unfold scan_string. wp_steps. eapply reset_lx; [done|done|]. intros st1 L1 Fr1. wp_steps.
  rewrite (lx_current _ _ _ _ _ _ L1 Fr1). apply assert_ok; [done|]. wp_steps.
  eapply loop_fuel_lx; [done|]. intros k Hk. eapply wp_mono; [by apply (string_loop_ok k n npos p [])|].
  intros t st2 [(-> & u & p' & Hb & Hl & L2)|(-> & Hno & Hm)].
  - left. split; [done|]. apply body_text in Hb as (s & -> & Hs). by exists s, u, p'.
  - right. split; [done|]. split; [|done]. intros s u p' -> Hs. eapply Hno. apply body_text. eauto.
Qed.
End lexer_props.

