(* ===== verification/JsonScan.v ===== *)
(** JsonScan: the scanner on any text.

    [scan_ok]: on every input the lexer returns a token, without a failed
    assertion, having read at least one character unless the input ended; a string
    token is well-formed UTF-8, an integer token fits its type.  The other lemmas
    say which token a given text gives. *)

From S2P Require Import Prelude Json JsonLexer JsonDump JsonUtf8 JsonLexProps.

Section scan.
Context {F : Type} `{NumberFloat F}.
Context (ic : bool) (dp : Z).
Implicit Types (st : lexer (F := F)) (c : Z) (p b : list Z).

Abbreviation lx := (lx ic dp) (only parsing).
Abbreviation moved := (moved ic dp) (only parsing).

Lemma lx_nonneg n d p b st : lx n d p b st -> 0 <= n.
Proof. intros []. lia. Qed.

(** [c] is [EOF] or was the first character of [p]. *)
Lemma hd_cases p : p = [] \/ exists c q, p = c :: q.
Proof. destruct p; eauto. Qed.

(** ** White space and comments *)

Fixpoint skip_space p : list Z :=
  match p with c :: q => if is_space c then skip_space q else p | [] => [] end.

Lemma skip_space_length p : (length (skip_space p) <= length p)%nat.
Proof. induction p as [|c p IH]; simpl; [lia|]. case_match; simpl; lia. Qed.

Lemma whitespace_loop_ok fuel n d p b st :
  (length p < fuel)%nat -> lx n d p b st ->
  wp nofault (whitespace_loop fuel) st (fun _ st' =>
    lx (n + 1) d (tail (skip_space p)) b st' /\ fresh (hd EOF (skip_space p)) st').
Proof.
  revert n p st; induction fuel as [|fuel IH]; intros n p st Hf L; [lia|]. simpl.
  pose proof (lx_nonneg _ _ _ _ _ L). wp_steps. eapply get_lx; [done|]. intros st1 L1 Fr1.
  destruct p as [|c p]; simpl in *.
  { change (is_space EOF) with false. wp_steps. by split. }
  destruct (is_space c) eqn:E; [|wp_steps; by split].
  eapply wp_mono; [apply (IH (n + 1) p); [lia|done]|]. intros _ st2 [L2 Fr2].
  split; [|done]. eapply lx_weaken; [done|lia].
Qed.

Lemma skip_whitespace_ok n d p b st :
  lx n d p b st ->
  wp nofault skip_whitespace st (fun _ st' =>
    lx (n + 1) d (tail (skip_space p)) b st' /\ fresh (hd EOF (skip_space p)) st').
Proof.
  intros L. unfold skip_whitespace. wp_steps. eapply loop_fuel_lx; [done|]. intros k Hk.
  by apply whitespace_loop_ok.
Qed.

Lemma line_comment_ok fuel n d p b st :
  (length p < fuel)%nat -> lx n d p b st ->
  wp nofault (line_comment fuel) st (fun _ st' => moved n d p b st').
Proof.
  revert n p st; induction fuel as [|fuel IH]; intros n p st Hf L; [lia|]. simpl.
  pose proof (lx_nonneg _ _ _ _ _ L). wp_steps. eapply get_lx; [done|]. intros st1 L1 Fr1.
  destruct p as [|c p]; simpl in *.
  { wp_steps. eapply moved_intro; [exact L1|lia|done]. }
  case_match; [wp_steps; eapply moved_intro; [exact L1|lia|simpl; lia]|].
  eapply wp_mono; [apply (IH (n + 1) p); [lia|done]|]. intros r st2 (n2 & p2 & ? & ? & L2).
  eapply moved_intro; [exact L2|lia|simpl; lia].
Qed.

Lemma block_comment_ok fuel n d p b st :
  (length p < fuel)%nat -> lx n d p b st ->
  wp nofault (block_comment fuel) st (fun _ st' => moved n d p b st').
Proof.
  revert n p st; induction fuel as [|fuel IH]; intros n p st Hf L; [lia|]. simpl.
  pose proof (lx_nonneg _ _ _ _ _ L). wp_steps. eapply get_lx; [done|]. intros st1 L1 Fr1.
  destruct p as [|c p]; simpl in *.
  { eapply error_lx; [done|]. intros st2 L2. eapply moved_intro; [exact L2|lia|done]. }
  case_match; [eapply error_lx; [done|]; intros st2 L2; eapply moved_intro; [exact L2|lia|simpl; lia]|].
  case_match.
  - wp_steps. eapply get_lx; [done|]. intros st2 L2 Fr2. case_match.
    { wp_steps. eapply moved_intro; [exact L2|lia|]. pose proof (length_tail_le p). simpl. lia. }
    wp_steps. eapply (unget_lx _ _ _ (n + 1)); [lia| |exact L2|exact Fr2|].
    { by destruct L1. }
    intros st3 L3. eapply wp_mono; [apply (IH (n + 1) p); [lia|done]|]. intros r st4 (n2 & p2 & ? & ? & L4).
    eapply moved_intro; [exact L4|lia|simpl; lia].
  - eapply wp_mono; [apply (IH (n + 1) p); [lia|done]|]. intros r st2 (n2 & p2 & ? & ? & L2).
    eapply moved_intro; [exact L2|lia|simpl; lia].
Qed.

Lemma scan_comment_ok n d p b st :
  lx n d p b st ->
  wp nofault scan_comment st (fun r st' =>
    exists n' p', n <= n' /\ (length p' <= length p)%nat /\ lx n' d p' b st' /\
      (r = true -> (length p' < length p)%nat)).
Proof.
  intros L. unfold scan_comment. pose proof (lx_nonneg _ _ _ _ _ L).
  wp_steps. eapply get_lx; [done|]. intros st1 L1 Fr1.
  destruct p as [|c p]; simpl in *.
  { eapply error_lx; [done|]. intros st2 L2. exists (n + 1), []. split_and!; try done; lia. }
  repeat case_match.
  1, 2: wp_steps; eapply loop_fuel_lx; [done|]; intros k Hk; eapply wp_mono;
      [first [by eapply line_comment_ok | by eapply block_comment_ok]|];
      intros r st2 (n2 & p2 & ? & ? & L2); exists n2, p2; simpl; split_and!; try done; intros; lia.
  eapply error_lx; [done|]. intros st2 L2. exists (n + 1), p. simpl. split_and!; try done; intros; lia.
Qed.

Definition char_or_eof c : Prop := c = EOF \/ is_byte c.

Lemma hd_char p : Forall is_byte p -> char_or_eof (hd EOF p).
Proof. destruct 1; [by left|by right]. Qed.

Lemma skip_space_bytes p : Forall is_byte p -> Forall is_byte (skip_space p).
Proof. induction 1; simpl; [done|]. case_match; [done|]. by constructor. Qed.

Lemma comments_loop_ok fuel n d p b c st :
  (length p < fuel)%nat -> lx n d p b st -> fresh c st -> char_or_eof c ->
  wp nofault (comments_loop fuel) st (fun r st' =>
    exists n' p' c', n <= n' /\ (length p' <= length p)%nat /\ lx n' d p' b st' /\
      (r = true -> fresh c' st' /\ char_or_eof c')).
Proof.
  revert n p c st; induction fuel as [|fuel IH]; intros n p c st Hf L Fr Hc; [lia|]. simpl.
  pose proof (lx_nonneg _ _ _ _ _ L). wp_steps. case_match.
  2: { wp_steps. exists n, p, c. split_and!; [lia|lia|done|done]. }
  wp_steps. eapply wp_mono; [by apply scan_comment_ok|]. intros r st1 (n1 & p1 & ? & ? & L1 & Hlt).
  destruct r.
  - specialize (Hlt eq_refl). wp_steps. eapply wp_mono; [by eapply skip_whitespace_ok|]. intros _ st2 [L2 Fr2].
    pose proof (skip_space_length p1). pose proof (length_tail_le (skip_space p1)).
    assert (Forall is_byte p1) by by destruct L1.
    eapply wp_mono; [eapply (IH _ _ _ _ _ L2 Fr2)|].
    { by apply hd_char, skip_space_bytes. }
    intros r st3 (n3 & p3 & c3 & ? & ? & L3 & Fr3). exists n3, p3, c3. split_and!; [lia|lia|done|done].
  - wp_steps. exists n1, p1, EOF. by split_and!.
  Unshelve. lia.
Qed.

Lemma comments_none fuel n d p b c st (Q : bool -> lexer -> Prop) :
  (length p < fuel)%nat -> lx n d p b st -> fresh c st -> c <> cSLASH -> Q true st ->
  wp nofault (comments_loop fuel) st Q.
Proof.
  intros Hf L Fr Hc HQ. destruct fuel; [lia|]. simpl. wp_steps. rewrite (lx_current _ _ _ _ _ _ _ _ L Fr).
  rewrite (proj2 (Z.eqb_neq c cSLASH) Hc), andb_false_r. by wp_steps.
Qed.

(** ** Numbers

    The decimal point of the locale is a byte that does not occur otherwise in a
    numeral. *)

Definition point_ok : Prop := is_byte dp /\ is_digit dp = false /\ is_exp dp = false.
Context (Hdp : point_ok).

Definition digits (ds : list Z) : Prop := ds <> [] /\ Forall (fun c => is_digit c = true) ds.

(** The token read so far is an integer of type [ty]... *)
Definition int_form (ty : token_type) b : Prop :=
  (ty = value_unsigned /\ digits b) \/ (ty = value_integer /\ exists ds, b = cMINUS :: ds /\ digits ds).

(** ...with a fraction, the point at [d]... *)
Definition frac_form (d : Z) b : Prop :=
  exists ty ip fs, b = ip ++ dp :: fs /\ int_form ty ip /\ digits fs /\ d = Z.of_nat (length ip).

(** ...or either, before an exponent. *)
Definition mantissa (d : Z) b : Prop := (exists ty, int_form ty b /\ d = npos) \/ frac_form d b.

Definition exp_form (d : Z) b : Prop :=
  exists m e sg ds, b = m ++ e :: sg ++ ds /\ mantissa d m /\ is_exp e = true /\
    (sg = [] \/ sg = [cPLUS] \/ sg = [cMINUS]) /\ digits ds.

(** At a label, the type already assigned. *)
Definition label_inv (l : number_label) (ty : token_type) (d : Z) b : Prop :=
  match l with
  | number_minus => ty = value_integer /\ b = [cMINUS] /\ d = npos
  | number_zero | number_any1 => int_form ty b /\ d = npos
  | number_decimal1 => ty = value_float /\ exists ty' ip, b = ip ++ [dp] /\ int_form ty' ip /\ d = Z.of_nat (length ip)
  | number_decimal2 => ty = value_float /\ frac_form d b
  | number_exponent => ty = value_float /\ exists m e, b = m ++ [e] /\ mantissa d m /\ is_exp e = true
  | number_sign => ty = value_float /\ exists m e s, b = m ++ [e; s] /\ mantissa d m /\ is_exp e = true /\ (s = cPLUS \/ s = cMINUS)
  | number_any2 => ty = value_float /\ exp_form d b
  end.

(** When the number is complete. *)
Definition done_inv (ty : token_type) (d : Z) b : Prop :=
  (int_form ty b /\ d = npos) \/ (ty = value_float /\ (frac_form d b \/ exp_form d b)).

Lemma digits_one c : is_digit c = true -> digits [c].
Proof. intros Hc. split; [done|]. by repeat constructor. Qed.

Lemma digits_snoc ds c : digits ds -> is_digit c = true -> digits (ds ++ [c]).
Proof. intros [Hn Hd] Hc. split; [by destruct ds|]. apply Forall_app. split; [done|]. by repeat constructor. Qed.

Lemma int_form_snoc ty b c : int_form ty b -> is_digit c = true -> int_form ty (b ++ [c]).
Proof.
  intros [[-> Hb]|(-> & ds & -> & Hd)] Hc.
  - left. split; [done|]. by apply digits_snoc.
  - right. split; [done|]. exists (ds ++ [c]). split; [done|]. by apply digits_snoc.
Qed.

Lemma frac_form_snoc d b c : frac_form d b -> is_digit c = true -> frac_form d (b ++ [c]).
Proof.
  intros (ty & ip & fs & -> & Hi & Hf & ->) Hc. exists ty, ip, (fs ++ [c]).
  rewrite <- app_assoc. split_and!; try done. by apply digits_snoc.
Qed.

Lemma exp_form_snoc d b c : exp_form d b -> is_digit c = true -> exp_form d (b ++ [c]).
Proof.
  intros (m & e & sg & ds & -> & Hm & He & Hs & Hd) Hc. exists m, e, sg, (ds ++ [c]).
  split_and!; try done; [by rewrite <- app_assoc; simpl; rewrite <- app_assoc|]. by apply digits_snoc.
Qed.

(** What a state of the scanner leads to. *)
Definition label_outcome (n : Z) p (ty : token_type) (g : number_goto) st : Prop :=
  match g with
  | Goto l => exists d b c q, p = c :: q /\ lx (n + 1) d q b st /\ label_inv l (label_type l ty) d b
  | GotoDone => exists d b, lx (n + 1) d (tail p) b st /\ fresh (hd EOF p) st /\ done_inv ty d b
  | ReturnError => exists d b, moved n d p b st
  end.

Lemma label_error n d p b e st ty :
  moved n d p b st -> wp nofault (error_return e ReturnError) st (label_outcome n p ty).
Proof.
  intros (n1 & p1 & ? & ? & L). eapply error_lx; [done|]. intros st' L'. exists d, b.
  by eapply moved_intro.
Qed.

(** [add(current); goto l] after reading [c]. *)
Lemma label_add n d p b c st l ty :
  p <> [] -> is_byte (hd EOF p) -> lx (n + 1) d (tail p) b st -> fresh (hd EOF p) st -> c = hd EOF p ->
  label_inv l (label_type l ty) d (b ++ [c]) ->
  wp nofault (add_goto l) st (label_outcome n p ty).
Proof.
  intros Hp Hc L Fr -> Hl. unfold add_goto. wp_steps. rewrite (lx_current _ _ _ _ _ _ _ _ L Fr).
  eapply add_lx; [done|done|]. intros st' L'. wp_steps. destruct p as [|c q]; [done|].
  exists d, (b ++ [c]), c, q. by split_and!.
Qed.

Lemma label_point n d p b st l ty :
  p <> [] -> lx (n + 1) d (tail p) b st ->
  label_inv l (label_type l ty) (Z.of_nat (length b)) (b ++ [dp]) ->
  wp nofault (add_point l) st (label_outcome n p ty).
Proof.
  intros Hp L Hl. destruct Hdp as [Hb _]. unfold add_point. wp_steps.
  assert (decimal_point_char st = dp) as -> by by destruct L.
  eapply add_lx; [done|done|]. intros st' []. wp_steps. destruct p as [|c q]; [done|].
  exists (Z.of_nat (length b)), (b ++ [dp]), c, q. split; [done|]. split; [|done]. split; try done.
  simpl. rewrite lx_buffer, length_app. simpl. lia.
Qed.

Lemma lx_hd_byte n d p b st : lx n d p b st -> p <> [] -> is_byte (hd EOF p).
Proof. intros L Hp. destruct p; [done|]. by eapply lx_byte. Qed.

Lemma not_eof_cons p c : hd EOF p = c -> c <> EOF -> p <> [].
Proof. intros Hc Hn ->. by simpl in Hc. Qed.

(** Solves one branch of a state. *)
Ltac label_branch L :=
  match goal with
  | L1 : JsonLexProps.lx _ _ _ _ _ _ ?st, Fr1 : fresh _ ?st |- wp _ (add_goto _) ?st _ =>
      eapply label_add; [|eapply lx_hd_byte; [exact L|]|exact L1|exact Fr1|reflexivity|]
  | L1 : JsonLexProps.lx _ _ _ _ _ _ ?st |- wp _ (add_point _) ?st _ =>
      eapply label_point; [|exact L1|]
  | L1 : JsonLexProps.lx _ _ _ _ _ _ ?st |- wp _ (error_return _ _) ?st _ =>
      eapply label_error; eapply moved_intro; [exact L1|lia|apply length_tail_le]
  | L1 : JsonLexProps.lx _ _ _ _ _ _ ?st |- wp _ (mret GotoDone) ?st _ =>
      apply wp_ret; eexists _, _; split_and!; [exact L1|assumption|]
  end; try (eapply not_eof_cons; [reflexivity|unfold is_digit, is_exp in *; lia]).

Lemma number_state_ok l n ty d p b st :
  lx n d p b st -> label_inv l ty d b -> label_type l ty = ty ->
  wp nofault (number_state l) st (label_outcome n p ty).
Proof.
  intros L Hl Hty. pose proof (lx_nonneg _ _ _ _ _ L).
  destruct l; simpl in Hl, Hty; simpl; subst;
    unfold scan_number_minus, scan_number_zero, scan_number_any1, scan_number_decimal1, scan_number_decimal2,
      scan_number_exponent, scan_number_sign, scan_number_any2;
    wp_steps; (eapply get_lx; [exact L|]); intros st1 L1 Fr1; repeat case_match; label_branch L; simpl.
  - destruct Hl as (_ & -> & ->). split; [|done]. right. split; [done|]. eexists; split; [done|].
    apply digits_one. unfold is_digit. lia.
  - destruct Hl as (_ & -> & ->). split; [|done]. right. split; [done|]. eexists; split; [done|]. by apply digits_one.
  - destruct Hl as [Hi ->]. eauto 6.
  - destruct Hl as [Hi ->]. split; [done|]. eexists _, _. split; [done|]. split; [|done]. left. eauto.
  - destruct Hl as [Hi ->]. by left.
  - destruct Hl as [Hi ->]. split; [|done]. by apply int_form_snoc.
  - destruct Hl as [Hi ->]. eauto 6.
  - destruct Hl as [Hi ->]. split; [done|]. eexists _, _. split; [done|]. split; [|done]. left. eauto.
  - destruct Hl as [Hi ->]. by left.
  - destruct Hl as (_ & ty' & ip & -> & Hi & ->). split; [done|]. exists ty', ip, [hd EOF p].
    rewrite <- app_assoc. split_and!; try done. by apply digits_one.
  - destruct Hl as [-> Hf]. split; [done|]. by apply frac_form_snoc.
  - destruct Hl as [-> Hf]. split; [done|]. eexists _, _. split; [done|]. split; [|done]. by right.
  - destruct Hl as [-> Hf]. right. eauto.
  - destruct Hl as (_ & m & e & -> & Hm & He). split; [done|]. exists m, e, (hd EOF p). rewrite <- app_assoc.
    split_and!; try done. lia.
  - destruct Hl as (_ & m & e & -> & Hm & He). split; [done|]. exists m, e, [], [hd EOF p]. rewrite <- app_assoc.
    split_and!; try done; [by left|]. by apply digits_one.
  - destruct Hl as (-> & m & e & s & -> & Hm & He & Hs). split; [done|]. exists m, e, [s], [hd EOF p].
    rewrite <- app_assoc. split_and!; try done; [destruct Hs as [-> | ->]; auto|]. by apply digits_one.
  - destruct Hl as [-> He]. split; [done|]. by apply exp_form_snoc.
  - destruct Hl as [-> He]. right. eauto.
Qed.

Lemma label_type_idem l ty : label_type l (label_type l ty) = label_type l ty.
Proof. by destruct l. Qed.

Lemma number_loop_ok fuel l n ty d p b st :
  (length p < fuel)%nat -> lx n d p b st -> label_inv l (label_type l ty) d b ->
  wp nofault (number_loop fuel l ty) st (fun r st' =>
    match r with
    | Some t => exists n' d' p' b', n <= n' /\ (length p' <= length p)%nat /\
        lx (n' + 1) d' (tail p') b' st' /\ fresh (hd EOF p') st' /\ Forall is_byte p' /\ done_inv t d' b'
    | None => exists d' b', moved n d' p b' st'
    end).
Proof.
  revert l n ty d p b st; induction fuel as [|fuel IH]; intros l n ty d p b st Hf L Hl; [lia|].
  pose proof (lx_nonneg _ _ _ _ _ L). simpl. wp_steps.
  eapply wp_mono; [eapply number_state_ok; [done..|apply label_type_idem]|].
  intros g st1 Hg. destruct g as [l'| |]; simpl in Hg.
  - destruct Hg as (d1 & b1 & c & q & -> & L1 & Hl1). simpl in Hf.
    eapply wp_mono; [eapply (IH l' (n + 1) _ d1 q b1); [lia|done|done]|].
    intros [t|] st2; simpl.
    + intros (n2 & d2 & p2 & b2 & ? & ? & L2 & Fr2 & Hb2 & Hd2). exists n2, d2, p2, b2. split_and!; try done; lia.
    + intros (d2 & b2 & n2 & p2 & ? & ? & L2). exists d2, b2. eapply moved_intro; [exact L2|lia|simpl; lia].
  - destruct Hg as (d1 & b1 & L1 & Fr1 & Hd1). wp_steps. exists n, d1, p, b1. split_and!; try done. by destruct L.
  - wp_steps. done.
Qed.

(** *** The conversions consume the whole token *)

Lemma digits_prefix_app ds r :
  Forall (fun c => is_digit c = true) ds -> is_digit (hd EOF r) = false -> digits_prefix (ds ++ r) = ds.
Proof.
  intros Hd Hr. induction Hd as [|c ds Hc _ IH]; simpl.
  - destruct r as [|c r]; [done|]. simpl in *. by rewrite Hr.
  - rewrite Hc. by f_equal.
Qed.

Lemma digits_prefix_all ds : Forall (fun c => is_digit c = true) ds -> digits_prefix ds = ds.
Proof. intros Hd. rewrite <- (app_nil_r ds) at 1. by apply digits_prefix_app. Qed.

Lemma sign_prefix_digits ds r : digits ds -> sign_prefix (ds ++ r) = [].
Proof.
  intros [Hn Hd]. destruct ds as [|c ds]; [done|]. inversion Hd; subst. simpl. unfold is_digit in *.
  by rewrite (proj2 (Z.eqb_neq c cMINUS)), (proj2 (Z.eqb_neq c cPLUS)) by lia.
Qed.

Lemma int_form_parts ty b r :
  int_form ty b ->
  exists sg ds, b = sg ++ ds /\ digits ds /\ sign_prefix (b ++ r) = sg /\
    ((ty = value_unsigned /\ sg = []) \/ (ty = value_integer /\ sg = [cMINUS])).
Proof.
  intros [[-> Hb]|(-> & ds & -> & Hd)].
  - exists [], b. split_and!; try done; [by apply sign_prefix_digits|auto].
  - exists [cMINUS], ds. split_and!; try done; auto.
Qed.

Lemma strto_int_end lo hi wrap ty b :
  int_form ty b -> strto_end (strto_int lo hi wrap b) = length b.
Proof.
  intros Hi. destruct (int_form_parts _ _ [] Hi) as (sg & ds & Hb & [Hn Hd] & Hs & _).
  rewrite app_nil_r in Hs. unfold strto_int. rewrite Hs, Hb, drop_app_length, (digits_prefix_all ds Hd).
  destruct ds as [|c ds]; [done|]. rewrite length_app. repeat case_match; done.
Qed.

(** A mantissa is read to its end. *)
Lemma strtod_mantissa d m r :
  mantissa d m -> is_digit (hd EOF r) = false -> (hd EOF r =? dp) = false ->
  exists sg i f, sg = length (sign_prefix (m ++ r)) /\ i = length (digits_prefix (drop sg (m ++ r))) /\
    f = fraction_length dp (drop (sg + i) (m ++ r)) /\ (sg + i + f)%nat = length m.
Proof.
  intros Hm Hr Hrd. destruct Hdp as (_ & Hdig & _). eexists _, _, _. split_and!; [reflexivity..|].
  destruct Hm as [(ty & Hi & _)|(ty & ip & fs & -> & Hi & [Hfn Hf] & _)].
  - destruct (int_form_parts _ _ r Hi) as (sg & ds & Hb & [Hn Hd] & -> & _).
    rewrite Hb, <- app_assoc, drop_app_length, digits_prefix_app by done.
    rewrite <- drop_drop, drop_app_length, drop_app_length.
    assert (fraction_length dp r = 0%nat) as ->.
    { destruct r as [|c r]; [done|]. simpl in *. by rewrite Hrd. }
    rewrite length_app. lia.
  - rewrite <- app_assoc. simpl.
    destruct (int_form_parts _ _ (dp :: fs ++ r) Hi) as (sg & ds & Hb & [Hn Hd] & -> & _).
    rewrite Hb, <- !app_assoc, drop_app_length, digits_prefix_app by done.
    rewrite <- drop_drop, drop_app_length, drop_app_length. simpl.
    rewrite Z.eqb_refl, digits_prefix_app by done. rewrite !length_app. simpl. lia.
Qed.

Lemma mantissa_end d m : mantissa d m -> strtod_end dp m = length m.
Proof.
  intros Hm. destruct Hdp as (Hb & _).
  destruct (strtod_mantissa d m [] Hm) as (sg & i & f & Hsg & Hi & Hf & Hlen); [done| |].
  { simpl. unfold is_byte, in_u in Hb. lia. }
  rewrite app_nil_r in *. unfold strtod_end. rewrite <- Hsg, <- Hi, <- Hf, Hlen, drop_all. simpl. lia.
Qed.

Lemma exp_end d b : exp_form d b -> strtod_end dp b = length b.
Proof.
  intros (m & e & sg & ds & -> & Hm & He & Hs & [Hn Hd]). destruct Hdp as (Hb & Hdig & Hexp).
  destruct (strtod_mantissa d m (e :: sg ++ ds) Hm) as (s & i & f & Hsg & Hi & Hf & Hlen).
  { simpl. unfold is_exp, is_digit in *. lia. }
  { simpl. destruct (e =? dp) eqn:E; [|done]. assert (e = dp) as -> by lia. congruence. }
  unfold strtod_end. rewrite <- Hsg, <- Hi, <- Hf, Hlen, drop_app_length. simpl. rewrite He.
  assert (sign_prefix (sg ++ ds) = sg) as ->.
  { destruct Hs as [-> |[-> | ->]]; [|done..]. simpl. rewrite <- (app_nil_r ds). by apply sign_prefix_digits. }
  rewrite drop_app_length, digits_prefix_all by done.
  destruct ds as [|c ds]; [done|]. rewrite !length_app. simpl. rewrite length_app. simpl. lia.
Qed.

Lemma done_end t d b : done_inv t d b -> strtod_end dp b = length b.
Proof.
  intros [[Hi ->]|[_ [Hf|He]]].
  - apply (mantissa_end npos). left. eauto.
  - apply (mantissa_end d). by right.
  - by apply (exp_end d).
Qed.

(** What a token promises to the parser. *)
Definition token_ok (t : token_type) (d : Z) b st : Prop :=
  match t with
  | value_string => is_utf8 b /\ d = npos
  | value_float => d = npos \/ 0 <= d < Z.of_nat (length b)
  | value_integer => in_s 64 (number_integer st)
  | value_unsigned => in_u 64 (number_unsigned st)
  | _ => True
  end.

Definition number_value (b : list Z) : Z :=
  match b with
  | c :: ds => if c =? cMINUS then - digits_value ds else digits_value b
  | [] => 0
  end.

(** The token of a complete number: an integer that fits its type, or a
    floating-point number. *)
Definition number_token (t : token_type) (n : Z) : token_type :=
  match t with
  | value_unsigned => if n <? 2 ^ 64 then value_unsigned else value_float
  | value_integer => if - 2 ^ 63 <=? n then value_integer else value_float
  | _ => value_float
  end.

(** The token and the number converted are exact. *)
Definition number_exact (t : token_type) b (t' : token_type) st : Prop :=
  t' = number_token t (number_value b) /\
  match t' with
  | value_unsigned => number_unsigned st = number_value b
  | value_integer => number_integer st = number_value b
  | _ => number_float st = strtof b
  end.

Lemma form_point t d b : done_inv t d b -> d = npos \/ 0 <= d < Z.of_nat (length b).
Proof.
  assert (forall d m, mantissa d m -> d = npos \/ 0 <= d < Z.of_nat (length m)) as Hm.
  { intros d' m [(ty & _ & ->)|(ty & ip & fs & -> & _ & _ & ->)]; [by left|]. right. rewrite length_app. simpl. lia. }
  intros [[_ ->]|[_ [Hf|(m & e & sg & ds & -> & Hmm & _)]]]; [by left|by apply Hm; right|].
  destruct (Hm _ _ Hmm) as [->|?]; [by left|]. right. rewrite length_app. lia.
Qed.

Lemma number_as_float_ok t n d p b st (Q : token_type -> lexer -> Prop) :
  lx n d p b st -> done_inv t d b ->
  (forall st', lx n d p b st' -> number_float st' = strtof b -> Q value_float st') -> wp nofault number_as_float st Q.
Proof.
  intros [] Hd HQ. unfold number_as_float, assert_end. wp_steps.
  apply assert_ok; [apply Nat.eqb_eq; simpl; subst b; rewrite lx_char; by eapply done_end|].
  wp_steps. apply HQ; [done|]. simpl. by subst b.
Qed.

Lemma digits_value_nonneg ds : Forall (fun c => is_digit c = true) ds -> 0 <= digits_value ds.
Proof.
  unfold digits_value. assert (forall n, 0 <= n -> Forall (fun c => is_digit c = true) ds ->
    0 <= foldl (fun n c => 10 * n + (c - c0)) n ds) as Hf; [|by apply Hf].
  induction ds as [|c ds IH]; intros n Hn Hd; simpl; [done|]. inversion Hd; subst.
  apply IH; [unfold is_digit in *; lia|done].
Qed.

Lemma strtoull_digits b :
  digits b -> strtoull b = (if 2 ^ 64 - 1 <? digits_value b then Strto (2 ^ 64 - 1) true (length b)
                            else Strto (digits_value b) false (length b)) /\ number_value b = digits_value b.
Proof.
  intros [Hn Hd]. pose proof (digits_value_nonneg b Hd).
  assert (sign_prefix b = []) as Hs by (rewrite <- (app_nil_r b); by apply sign_prefix_digits).
  split.
  - unfold strtoull, strto_int. rewrite Hs. simpl. rewrite drop_0, (digits_prefix_all b Hd).
    rewrite (proj2 (Z.ltb_ge (digits_value b) 0)) by lia. by destruct b.
  - destruct b as [|c b]; [done|]. simpl. inversion Hd; subst. unfold is_digit in *.
    by rewrite (proj2 (Z.eqb_neq c cMINUS)) by lia.
Qed.

Lemma strtoll_minus ds :
  digits ds -> strtoll (cMINUS :: ds) = (if - digits_value ds <? - 2 ^ 63 then Strto (- 2 ^ 63) true (S (length ds))
                            else Strto (- digits_value ds) false (S (length ds))).
Proof.
  intros [Hn Hd]. pose proof (digits_value_nonneg ds Hd).
  unfold strtoll, strto_int. simpl. rewrite drop_0, (digits_prefix_all ds Hd).
  rewrite (proj2 (Z.ltb_ge (2 ^ 63 - 1) (- digits_value ds))) by lia. destruct ds; [done|]. simpl.
  by case_match.
Qed.

Lemma scan_number_done_ok t n d p b st :
  0 <= n -> Forall is_byte p -> lx (n + 1) d (tail p) b st -> fresh (hd EOF p) st -> done_inv t d b ->
  wp nofault (scan_number_done t) st (fun t' st' =>
    lx n d p b st' /\ token_ok t' d b st' /\ number_exact t b t' st' /\
    (t' = value_unsigned \/ t' = value_integer \/ t' = value_float)).
Proof.
  intros Hn Hby L Fr Hd. unfold scan_number_done. wp_steps.
  eapply unget_lx; [done..|]. intros st1 L1. wp_steps.
  assert (token_buffer st1 = b) as -> by by destruct L1.
  assert (number_token t (number_value b) = value_float ->
    wp nofault number_as_float st1 (fun t' st' => lx n d p b st' /\ token_ok t' d b st' /\ number_exact t b t' st' /\
      (t' = value_unsigned \/ t' = value_integer \/ t' = value_float))) as Hfl.
  { intros Ht. eapply number_as_float_ok; [done..|]. intros st2 L2 Hf. split_and!; try done; [by eapply form_point|auto]. }
  destruct Hd as [[Hi ->]|[-> Hd]]; [|by apply Hfl].
  destruct Hi as [[-> Hb]|(-> & ds & -> & Hd)].
  - unfold assert_end. wp_steps. assert (token_buffer st1 = b) as -> by by destruct L1.
    destruct (strtoull_digits b Hb) as [-> Hv]. unfold number_exact in *. rewrite Hv in *. simpl in Hfl.
    pose proof (digits_value_nonneg b (proj2 Hb)). simpl (number_token _ _).
    destruct (2 ^ 64 - 1 <? digits_value b) eqn:Er; simpl.
    + apply assert_ok; [by apply Nat.eqb_refl|]. apply Hfl. by rewrite (proj2 (Z.ltb_ge _ _)) by lia.
    + apply assert_ok; [by apply Nat.eqb_refl|]. wp_steps. simpl.
      assert (u64 (digits_value b) = digits_value b) as Hu by (unfold u64; apply uwrap_small; unfold in_u; lia).
      rewrite Hu, Z.eqb_refl. wp_steps. split; [by destruct L1|]. simpl. unfold in_u.
      split_and!; try done; [lia..| |auto]. by rewrite (proj2 (Z.ltb_lt _ _)) by lia.
  - unfold assert_end. wp_steps. assert (token_buffer st1 = cMINUS :: ds) as -> by by destruct L1.
    rewrite (strtoll_minus ds Hd). unfold number_exact in *.
    change (number_value (cMINUS :: ds)) with (- digits_value ds) in *. simpl in Hfl.
    pose proof (digits_value_nonneg ds (proj2 Hd)). simpl (number_token _ _).
    destruct (- digits_value ds <? - 2 ^ 63) eqn:Er; simpl.
    + apply assert_ok; [by apply Nat.eqb_refl|]. apply Hfl. by rewrite (proj2 (Z.leb_gt _ _)) by lia.
    + apply assert_ok; [by apply Nat.eqb_refl|]. wp_steps. simpl.
      assert (swrap 64 (- digits_value ds) = - digits_value ds) as Hu
        by (apply swrap_small; [lia|unfold in_s; lia]).
      rewrite Hu, Z.eqb_refl. wp_steps. split; [by destruct L1|]. simpl. unfold in_s.
      split_and!; try done; [lia..| |auto]. by rewrite (proj2 (Z.leb_le _ _)) by lia.
Qed.

Lemma scan_number_init_ok c n d p st :
  (c = cMINUS \/ is_digit c = true) -> lx n d p [] st -> fresh c st -> d = npos ->
  wp nofault scan_number_init st (fun g st' =>
    exists l, g = Goto l /\ lx n d p [c] st' /\ label_inv l (label_type l value_unsigned) d [c]).
Proof.
  intros Hc L Fr ->. unfold scan_number_init. wp_steps. rewrite (lx_current _ _ _ _ _ _ _ _ L Fr).
  assert (is_byte c) as Hb by (unfold is_digit, is_byte, in_u in *; lia).
  assert (forall l, label_inv l (label_type l value_unsigned) npos [c] ->
    wp nofault (add_goto l) st (fun g st' =>
      exists l, g = Goto l /\ lx n npos p [c] st' /\ label_inv l (label_type l value_unsigned) npos [c])) as Hadd.
  { intros l Hl. unfold add_goto. wp_steps. rewrite (lx_current _ _ _ _ _ _ _ _ L Fr).
    eapply add_lx; [done|done|]. intros st' L'. wp_steps. eauto. }
  repeat case_match; try (apply Hadd); simpl.
  - split_and!; try done. do 2 f_equal. lia.
  - split; [|done]. left. split; [done|]. apply digits_one. unfold is_digit. lia.
  - split; [|done]. left. split; [done|]. by apply digits_one.
  - lia.
Qed.

(** What a token leaves behind. *)
Definition token_outcome (n : Z) p (t : token_type) st : Prop :=
  exists n' d' p' b', n <= n' /\ (length p' <= length p)%nat /\ lx n' d' p' b' st /\ token_ok t d' b' st.

Lemma error_outcome {n d p b st} t :
  moved n d p b st -> t = parse_error -> token_outcome n p t st.
Proof. intros (n' & p' & ? & ? & L) ->. exists n', d, p', b. by split_and!. Qed.

Lemma scan_number_ok c n d p b st :
  (c = cMINUS \/ is_digit c = true) -> lx n d p b st -> fresh c st ->
  wp nofault scan_number st (token_outcome n p).
Proof.
  intros Hc L Fr. unfold scan_number. pose proof (lx_nonneg _ _ _ _ _ L). wp_steps.
  eapply reset_lx; [done|done|]. intros st1 L1 Fr1. wp_steps.
  eapply wp_mono; [by eapply scan_number_init_ok|]. intros g st2 (l & -> & L2 & Hl). wp_steps.
  eapply loop_fuel_lx; [done|]. intros k Hk. wp_steps.
  eapply wp_mono; [by eapply number_loop_ok|]. intros [t|] st3.
  - intros (n3 & d3 & p3 & b3 & ? & ? & L3 & Fr3 & Hb3 & Hd3).
    eapply wp_mono; [eapply (scan_number_done_ok t n3); [lia|done..]|].
    intros t' st4 (L4 & Ht & _). exists n3, d3, p3, b3. by split_and!.
  - intros (d3 & b3 & Hm). wp_steps. by eapply error_outcome.
Qed.

(** ** Literals *)

Lemma literal_loop_ok text t n d p b st :
  lx n d p b st -> (t = literal_true \/ t = literal_false \/ t = literal_null) ->
  wp nofault (literal_loop text t) st (token_outcome n p).
Proof.
  intros L Ht. revert n p st L; induction text as [|x text IH]; intros n p st L; simpl.
  - wp_steps. exists n, d, p, b. split_and!; try done; try lia. by destruct Ht as [-> |[-> | ->]].
  - pose proof (lx_nonneg _ _ _ _ _ L). wp_steps. eapply get_lx; [done|]. intros st1 L1 Fr1.
    pose proof (length_tail_le p). case_match.
    + eapply error_lx; [done|]. intros st2 L2. eapply error_outcome; [|done].
      eapply moved_intro; [exact L2|lia|done].
    + eapply wp_mono; [by apply IH|]. intros t' st2 (n2 & d2 & p2 & b2 & ? & ? & L2 & Hk).
      exists n2, d2, p2, b2. split_and!; try done; lia.
Qed.

Lemma literal_loop_exact text t n d p b st :
  Forall is_byte text -> lx n d (text ++ p) b st ->
  wp nofault (literal_loop text t) st (fun t' st' => t' = t /\ lx n d p b st').
Proof.
  intros Ht. revert n st; induction Ht as [|x text Hx _ IH]; intros n st L; simpl; [by wp_steps|].
  pose proof (lx_nonneg _ _ _ _ _ L). wp_steps. eapply get_lx; [done|]. intros st1 L1 Fr1. simpl in *.
  unfold to_char_type, u8. rewrite uwrap_small, Z.eqb_refl by done. simpl.
  eapply wp_mono; [by eapply IH|]. intros t' st2 [-> L2]. split; [done|]. eapply lx_weaken; [done|lia].
Qed.

Lemma scan_literal_ok c text t n d p b st :
  lx n d p b st -> fresh c st -> is_byte c -> text !! 0%nat = Some c ->
  (t = literal_true \/ t = literal_false \/ t = literal_null) ->
  wp nofault (scan_literal text t) st (token_outcome n p).
Proof.
  intros L Fr Hc Htx Ht. unfold scan_literal. wp_steps. rewrite (lx_current _ _ _ _ _ _ _ _ L Fr).
  unfold to_char_type, u8. rewrite uwrap_small by done.
  apply assert_ok; [by apply bool_decide_eq_true|]. by eapply literal_loop_ok.
Qed.

Lemma scan_literal_exact c text t n d p b st :
  Forall is_byte (c :: text) -> lx n d (text ++ p) b st -> fresh c st ->
  wp nofault (scan_literal (c :: text) t) st (fun t' st' => t' = t /\ lx n d p b st').
Proof.
  intros Hb L Fr. inversion Hb; subst. unfold scan_literal. wp_steps. rewrite (lx_current _ _ _ _ _ _ _ _ L Fr).
  unfold to_char_type, u8. rewrite uwrap_small by done. apply assert_ok; [by apply bool_decide_eq_true|].
  simpl. rewrite drop_0. by eapply literal_loop_exact.
Qed.

(** ** Tokens *)

Lemma scan_token_ok n d p b c st :
  lx n d p b st -> fresh c st -> char_or_eof c ->
  wp nofault scan_token st (fun t st' => token_outcome n p t st' /\ (c = EOF -> t = end_of_input)).
Proof.
  intros L Fr Hc. unfold scan_token. wp_steps. rewrite (lx_current _ _ _ _ _ _ _ _ L Fr).
  assert (forall t, match t with value_string | value_float | value_integer | value_unsigned => False | _ => True end ->
    token_outcome n p t st) as Ht.
  { intros t Ht. exists n, d, p, b. split_and!; try done. by destruct t. }
  assert (forall m : M lexer token_type, wp nofault m st (token_outcome n p) -> (c = EOF -> False) ->
    wp nofault m st (fun t st' => token_outcome n p t st' /\ (c = EOF -> t = end_of_input))) as Hm.
  { intros m Hw Hne. eapply wp_mono; [exact Hw|]. intros t st' ?. split; [done|]. intros Hce. by destruct Hne. }
  assert (c <> EOF -> is_byte c) as Hcb by (intros; destruct Hc; done).
  do 6 (case_match; [wp_steps; split; [by apply Ht|lia]|]).
  do 3 (case_match; [apply Hm; [eapply scan_literal_ok; [done|done|apply Hcb; lia|simpl; f_equal; lia|auto]|lia]|]).
  case_match.
  { apply Hm; [|lia]. assert (c = cQUOTE) as -> by lia. eapply wp_mono; [by eapply scan_string_ok|].
    intros t st' [(-> & s & u & p' & -> & Hs & L')|(-> & _ & b' & Hmv)].
    - exists n, npos, p', u. split_and!; try done; [rewrite length_app; simpl; lia|].
      split; [by eapply string_text_utf8|done].
    - by eapply error_outcome. }
  case_match; [apply Hm; [eapply scan_number_ok; [|done..]|]; unfold is_digit in *; lia|].
  case_match; [wp_steps; split; [by apply Ht|done]|].
  eapply error_lx; [done|]. intros st2 L2. split; [|lia]. exists n, d, p, b. by split_and!.
Qed.

(** The scanner on any input. *)
Lemma scan_ok n d p b st :
  lx n d p b st ->
  wp nofault scan st (fun t st' =>
    exists n' d' p' b', n <= n' /\ 1 <= n' /\ (t = end_of_input \/ (length p' < length p)%nat) /\
      (length p' <= length p)%nat /\ lx n' d' p' b' st' /\ token_ok t d' b' st').
Proof.
  intros L. pose proof (lx_nonneg _ _ _ _ _ L). unfold scan. wp_steps.
  apply (wp_mono _ _ _ (fun r st1 => (r = true /\ lx n d p b st1) \/
    (exists n1 p1, n <= n1 /\ (length p1 <= length p)%nat /\ lx n1 d p1 b st1 /\
      (r = false -> 1 <= n1 /\ (length p1 < length p)%nat)))).
  { case_match; [|wp_steps; auto]. unfold skip_bom. wp_steps. eapply get_lx; [done|]. intros st1 L1 Fr1.
    case_match.
    - destruct (hd_eof_not 0xEF p ltac:(lia) ltac:(lia)) as [q ->]. simpl in *.
      eapply wp_mono; [eapply get_two_ok; [| |exact L1]; lia|].
      intros r st2 [(-> & p' & -> & L2 & _)|(-> & _ & n2 & p2 & ? & ? & L2)]; right.
      + exists (n + 1 + 2), p'. simpl. split_and!; try done; lia.
      + exists n2, p2. split_and!; try done; lia.
    - wp_steps. eapply (unget_lx _ _ _ n); [done|by destruct L|done..|]. intros st2 L2. wp_steps. by left. }
  intros r st1 Hr. destruct r; simpl.
  2: { destruct Hr as [[? _]|(n1 & p1 & ? & ? & L1 & Hf)]; [done|]. destruct (Hf eq_refl).
       eapply error_lx; [done|]. intros st2 L2. exists n1, d, p1, b. split_and!; try done; auto. }
  assert (exists n1 p1, n <= n1 /\ (length p1 <= length p)%nat /\ lx n1 d p1 b st1) as (n1 & p1 & Hn1 & Hp1 & L1).
  { destruct Hr as [[_ L1]|(n1 & p1 & ? & ? & L1 & _)]; [exists n, p | exists n1, p1]; by split_and!. }
  clear Hr. wp_steps. eapply wp_mono; [by eapply skip_whitespace_ok|]. intros _ st2 [L2 Fr2]. wp_steps.
  eapply loop_fuel_lx; [done|]. intros k Hk. wp_steps.
  pose proof (skip_space_length p1) as Hsk.
  assert (Forall is_byte (skip_space p1)) as Hbs by (apply skip_space_bytes; by destruct L1).
  destruct (skip_space p1) as [|c q] eqn:Es; simpl in *.
  - eapply (comments_none _ _ _ []); [exact Hk|exact L2|exact Fr2|done|]. wp_steps.
    eapply wp_mono; [eapply scan_token_ok; [exact L2|exact Fr2|by left]|].
    intros t st3 [(n3 & d3 & p3 & b3 & ? & ? & L3 & Ht) He]. specialize (He eq_refl) as ->.
    exists n3, d3, p3, b3. split_and!; [lia|lia|by left|simpl in *; lia|done|done].
  - eapply wp_mono; [eapply comments_loop_ok; [exact Hk|exact L2|exact Fr2|by apply (hd_char (c :: q))]|].
    intros r st3 (n3 & p3 & c3 & ? & ? & L3 & Fr3). destruct r.
    + destruct (Fr3 eq_refl) as [Fr3' Hc3]. eapply wp_mono; [by eapply scan_token_ok|].
      intros t st4 [(n4 & d4 & p4 & b4 & ? & ? & L4 & Ht) _].
      exists n4, d4, p4, b4. split_and!; try done; try lia.
    + wp_steps. exists n3, d, p3, b. split_and!; try done; try lia.
Qed.
End scan.
