(* ===== verification/JsonDom.v ===== *)
(** JsonDom: well-formed values, and the handler that builds one.

    [wf_json] is what a value satisfies that was read: numbers fit their types, keys
    ascend, and strings, floating-point numbers and byte strings obey the [Rules] of
    the format, which for JSON texts are UTF-8, finite, and none ([json_rules]).  [dom_ok states] is the invariant of the handler
    inside the nesting [states]: every pointer on its stack leads to a container of
    the right kind, and each is a prefix of those above it. *)

From S2P Require Import Prelude Json JsonLexer JsonParser JsonDump JsonUtf8.

(** The rules of a format. *)
Class Rules (F : Type) := {
  string_rule : list Z -> Prop;
  float_rule : F -> Prop;
  binary_rule : list Z -> option Z -> Prop
}.

#[export] Instance json_rules {F} `{NumberFloat F} : Rules F :=
  {| string_rule := is_utf8; float_rule x := isfinite x = true; binary_rule _ _ := False |}.

Section dom_props.
Context {F : Type} {R : Rules F}.
Implicit Types (v w r : json F) (ms : list (list Z * json F)) (k : list Z) (d : dom (F := F)).

(** ** Well-formed values *)

Fixpoint wf_json v : Prop :=
  match v with
  | Jnull | Jboolean _ => True
  | Jobject ms =>
      keys_ascending ms.*1 = true /\ foldr (fun m P => (string_rule m.1 /\ wf_json m.2) /\ P) True ms
  | Jarray vs => foldr (fun v P => wf_json v /\ P) True vs
  | Jstring s => string_rule s
  | Jnumber_integer n => in_s 64 n
  | Jnumber_unsigned n => in_u 64 n
  | Jnumber_float x => float_rule x
  | Jbinary b subtype => binary_rule b subtype
  | Jdiscarded => False
  end.

Lemma wf_array vs : wf_json (Jarray vs) <-> Forall wf_json vs.
Proof. apply foldr_and. Qed.

Lemma wf_object ms :
  wf_json (Jobject ms) <-> keys_ascending ms.*1 = true /\ Forall (fun m => string_rule m.1 /\ wf_json m.2) ms.
Proof. simpl. by rewrite (foldr_and (fun m => string_rule m.1 /\ wf_json m.2)). Qed.

(** ** Maps *)

Lemma key_ltb_irrefl k : key_ltb k k = false.
Proof. induction k as [|x k IH]; simpl; [done|]. rewrite IH. lia. Qed.

Lemma key_ltb_trans a b c : key_ltb a b = true -> key_ltb b c = true -> key_ltb a c = true.
Proof.
  revert b c; induction a as [|x a IH]; intros [|y b] [|z c]; simpl; try done.
  intros H1 H2. destruct (x <? y) eqn:E1, (y <? z) eqn:E2; simpl in *;
    try (by rewrite (proj2 (Z.ltb_lt x z)) by lia).
  apply andb_true_iff in H1 as [Hx H1], H2 as [Hy H2]. assert (x = y) as -> by lia. rewrite E2, Hy. simpl.
  by eapply IH.
Qed.

Lemma key_ltb_antisym a b : key_ltb a b = false -> key_ltb b a = false -> a = b.
Proof.
  revert b; induction a as [|x a IH]; intros [|y b]; simpl; try done.
  intros H1 H2. apply orb_false_iff in H1 as [Hx H1], H2 as [Hy H2].
  assert (x = y) as -> by lia. rewrite Z.eqb_refl in *. f_equal. by apply IH.
Qed.

(** The first key is below all others. *)
Lemma keys_ascending_cons k ks :
  keys_ascending (k :: ks) = true <-> Forall (fun k' => key_ltb k k' = true) ks /\ keys_ascending ks = true.
Proof.
  revert k; induction ks as [|k' ks IH]; intros k; [by split|].
  change (keys_ascending (k :: k' :: ks)) with (key_ltb k k' && keys_ascending (k' :: ks)).
  rewrite andb_true_iff, Forall_cons. split.
  - intros [H1 H2]. split_and!; try done. apply IH in H2 as [H2 _].
    eapply Forall_impl; [exact H2|]. intros k2 ?. by eapply key_ltb_trans.
  - intros [[H1 _] H2]. done.
Qed.

Lemma obj_index_keys k ms :
  keys_ascending ms.*1 = true -> keys_ascending (obj_index k ms).*1 = true /\ k ∈ (obj_index k ms).*1 /\
    (forall k', k' ∈ (obj_index k ms).*1 -> k' = k \/ k' ∈ ms.*1).
Proof.
  induction ms as [|[k1 v1] ms IH]; intros Hk; cbn [obj_index fmap list_fmap fst].
  { split_and!; [done|by left|]. intros k' Hk'. left. by apply list_elem_of_singleton in Hk'. }
  apply keys_ascending_cons in Hk as Hk1. destruct Hk1 as [Hlt Hms].
  destruct (key_ltb k k1) eqn:E1; [|destruct (key_ltb k1 k) eqn:E2].
  - split_and!; [|by left|].
    + cbn [fmap list_fmap fst] in *. change (keys_ascending (k :: k1 :: ms.*1)) with (key_ltb k k1 && keys_ascending (k1 :: ms.*1)).
      by rewrite E1.
    + intros k' Hk'. cbn in *. apply elem_of_cons in Hk' as [->|Hk']; auto.
  - destruct (IH Hms) as (I1 & I2 & I3). cbn [fmap list_fmap fst]. split_and!.
    + apply keys_ascending_cons. split; [|done]. apply Forall_forall. intros k' Hk'.
      apply I3 in Hk' as [->|Hk']; [done|]. by eapply Forall_forall in Hlt.
    + by right.
    + intros k' Hk'. apply elem_of_cons in Hk' as [->|Hk']; [right; by left|].
      apply I3 in Hk' as [->|Hk']; auto. right. by right.
  - assert (k = k1) as -> by by apply key_ltb_antisym. split_and!; [done|by left|]. auto.
Qed.

Lemma obj_index_Forall (P : list Z * json F -> Prop) k ms :
  P (k, Jnull) -> Forall P ms -> Forall P (obj_index k ms).
Proof.
  intros Hk Hms. induction Hms as [|[k1 v1] ms Hm Hms' IH]; simpl; [by constructor|].
  repeat case_match; repeat constructor; done.
Qed.

Lemma obj_get_elem k ms v : obj_get k ms = Some v -> (k, v) ∈ ms.
Proof.
  induction ms as [|[k1 v1] ms IH]; simpl; [done|]. case_decide; [intros; simplify_eq; by left|]. intros. right. auto.
Qed.

Lemma obj_get_Some k ms : k ∈ ms.*1 -> exists v, obj_get k ms = Some v.
Proof.
  induction ms as [|[k1 v1] ms IH]; simpl; [intros Hk; by apply elem_of_nil in Hk|].
  intros Hk. case_decide; [eauto|]. apply elem_of_cons in Hk as [->|Hk]; [done|auto].
Qed.

Lemma obj_set_keys k v ms : (obj_set k v ms).*1 = ms.*1.
Proof.
  induction ms as [|[k1 v1] ms IH]; [done|]. cbn [obj_set]. case_decide; rewrite !fmap_cons; [by subst|]. by rewrite IH.
Qed.

Lemma obj_get_set k v w ms : obj_get k ms = Some w -> obj_get k (obj_set k v ms) = Some v.
Proof.
  induction ms as [|[k1 v1] ms IH]; simpl; [done|]. case_decide; simpl; [by rewrite decide_True|].
  intros. rewrite decide_False by done. auto.
Qed.

Lemma obj_set_Forall (P : list Z * json F -> Prop) k v ms :
  (forall w, P (k, w) -> P (k, v)) -> Forall P ms -> Forall P (obj_set k v ms).
Proof.
  intros Hv Hms. induction Hms as [|[k1 v1] ms Hm Hms IH]; simpl; [constructor|].
  case_decide; subst; constructor; eauto.
Qed.

(** ** Paths *)

Lemma get_at_app p q v w : get_at p v = Some w -> get_at (p ++ q) v = get_at q w.
Proof.
  revert v; induction p as [|[k|i] p IH]; intros v; simpl; [intros; by simplify_eq|..].
  - destruct v; try done. destruct (obj_get k ms) as [x|]; [|done]. simpl. apply IH.
  - destruct v; try done. destruct (vs !! i) as [x|]; [|done]. simpl. apply IH.
Qed.

Lemma get_at_prefix p q v w : get_at (p ++ q) v = Some w -> exists x, get_at p v = Some x /\ get_at q x = Some w.
Proof.
  revert v; induction p as [|[k|i] p IH]; intros v; simpl; [eauto|..].
  - destruct v; try done. destruct (obj_get k ms) as [x|]; [|done]. simpl. apply IH.
  - destruct v; try done. destruct (vs !! i) as [x|]; [|done]. simpl. apply IH.
Qed.

Lemma set_at_Some p w v x : get_at p v = Some x -> exists r, set_at p w v = Some r.
Proof.
  revert v; induction p as [|[k|i] p IH]; intros v; simpl; [eauto|..].
  - destruct v; try done. destruct (obj_get k ms) as [y|] eqn:E; [|done]. simpl. intros (r & Hr)%IH. rewrite Hr. simpl. eauto.
  - destruct v; try done. destruct (vs !! i) as [y|] eqn:E; [|done]. simpl. intros (r & Hr)%IH. rewrite Hr. simpl. eauto.
Qed.

Lemma get_set_at p w v r : set_at p w v = Some r -> get_at p r = Some w.
Proof.
  revert v r; induction p as [|[k|i] p IH]; intros v r; simpl; [intros; by simplify_eq|..].
  - destruct v; try done. destruct (obj_get k ms) as [y|] eqn:E; [|done]. simpl.
    destruct (set_at p w y) as [y'|] eqn:E'; [|done]. simpl. intros; simplify_eq. simpl.
    rewrite (obj_get_set _ _ _ _ E). simpl. by eapply IH.
  - destruct v; try done. destruct (vs !! i) as [y|] eqn:E; [|done]. simpl.
    destruct (set_at p w y) as [y'|] eqn:E'; [|done]. simpl. intros; simplify_eq. simpl.
    rewrite list_lookup_insert_eq by (by eapply lookup_lt_Some). simpl. by eapply IH.
Qed.

(** Two updates at a path are the second. *)
Lemma obj_set_set k v w ms : obj_set k v (obj_set k w ms) = obj_set k v ms.
Proof.
  induction ms as [|[k1 v1] ms IH]; simpl; [done|]. case_decide; simpl.
  - by rewrite decide_True.
  - by rewrite decide_False, IH.
Qed.

Lemma set_set_at p w1 w2 v r : set_at p w1 v = Some r -> set_at p w2 r = set_at p w2 v.
Proof.
  revert v r; induction p as [|[k|i] p IH]; intros v r; simpl; [done|..].
  - destruct v; try done. destruct (obj_get k ms) as [y|] eqn:E; [|done]. simpl.
    destruct (set_at p w1 y) as [y'|] eqn:E'; [|done]. simpl. intros; simplify_eq. simpl.
    rewrite (obj_get_set _ _ _ _ E). simpl. rewrite (IH _ _ E').
    destruct (set_at p w2 y); simpl; [|done]. by rewrite obj_set_set.
  - destruct v; try done. destruct (vs !! i) as [y|] eqn:E; [|done]. simpl.
    destruct (set_at p w1 y) as [y'|] eqn:E'; [|done]. simpl. intros; simplify_eq. simpl.
    rewrite list_lookup_insert_eq by (by eapply lookup_lt_Some). simpl. rewrite (IH _ _ E').
    destruct (set_at p w2 y); simpl; [|done]. by rewrite list_insert_insert_eq.
Qed.

(** An update below [p] is an update of the value at [p]. *)
Lemma set_at_app p q w v x r :
  get_at p v = Some x -> set_at (p ++ q) w v = Some r <-> exists y, set_at q w x = Some y /\ set_at p y v = Some r.
Proof.
  revert v r; induction p as [|[k|i] p IH]; intros v r Hx.
  - simpl in *. simplify_eq. split; [eauto|]. intros (y & Hy & Hr). by simplify_eq.
  - simpl in *. destruct v; try done. destruct (obj_get k ms) as [y|] eqn:E; [|done]. simpl in *.
    destruct (set_at (p ++ q) w y) as [y'|] eqn:E'; simpl.
    + apply (IH y y' Hx) in E' as (z & Hz & Hz'). split.
      * intros; simplify_eq. exists z. by rewrite Hz'.
      * intros (z2 & Hz2 & Hr). simplify_eq. by rewrite Hz' in Hr.
    + split; [done|]. intros (z & Hz & Hr). destruct (set_at p z y) as [y2|] eqn:E2; [|done].
      assert (set_at (p ++ q) w y = Some y2) by (apply IH; eauto). congruence.
  - simpl in *. destruct v; try done. destruct (vs !! i) as [y|] eqn:E; [|done]. simpl in *.
    destruct (set_at (p ++ q) w y) as [y'|] eqn:E'; simpl.
    + apply (IH y y' Hx) in E' as (z & Hz & Hz'). split.
      * intros; simplify_eq. exists z. by rewrite Hz'.
      * intros (z2 & Hz2 & Hr). simplify_eq. by rewrite Hz' in Hr.
    + split; [done|]. intros (z & Hz & Hr). destruct (set_at p z y) as [y2|] eqn:E2; [|done].
      assert (set_at (p ++ q) w y = Some y2) by (apply IH; eauto). congruence.
Qed.

(** [true]: an array, [false]: an object, as in the parser's stack. *)
Definition is_kind (b : bool) v : bool := if b then is_array v else is_object v.

Lemma set_at_kind s q w v r b :
  set_at (s :: q) w v = Some r -> is_kind b v = true -> is_kind b r = true.
Proof.
  destruct s as [k|i], v; try done; simpl.
  - destruct (obj_get k ms) as [y|]; [|done]. simpl. destruct (set_at q w y); [|done]. simpl. intros; by simplify_eq.
  - destruct (vs !! i) as [y|]; [|done]. simpl. destruct (set_at q w y); [|done]. simpl. intros; by simplify_eq.
Qed.

(** An update at [p] keeps the kind of what is above it. *)
Lemma prefix_kind b p s q w v r x :
  set_at (p ++ s :: q) w v = Some r -> get_at p v = Some x -> is_kind b x = true ->
  exists x', get_at p r = Some x' /\ is_kind b x' = true.
Proof.
  intros Hs Hx Hk. apply (set_at_app _ _ _ _ _ _ Hx) in Hs as (y & Hy & Hr).
  exists y. split; [by eapply get_set_at|]. by eapply set_at_kind.
Qed.

Lemma wf_get_at p v w : get_at p v = Some w -> wf_json v -> wf_json w.
Proof.
  revert v; induction p as [|[k|i] p IH]; intros v; simpl; [intros; by simplify_eq|..].
  - destruct v; try done. destruct (obj_get k ms) as [y|] eqn:E; [|done]. simpl. intros Hg [_ Hms]%wf_object.
    eapply Forall_forall in Hms; [|by eapply obj_get_elem]. by eapply IH; [|apply Hms].
  - destruct v; try done. destruct (vs !! i) as [y|] eqn:E; [|done]. simpl. intros Hg Hvs%wf_array.
    eapply Forall_lookup_1 in Hvs; [|done]. by eapply IH.
Qed.

Lemma wf_set_at p w v r : set_at p w v = Some r -> wf_json v -> wf_json w -> wf_json r.
Proof.
  revert v r; induction p as [|[k|i] p IH]; intros v r; simpl; [intros; by simplify_eq|..].
  - destruct v; try done. destruct (obj_get k ms) as [y|] eqn:E; [|done]. simpl.
    destruct (set_at p w y) as [y'|] eqn:E'; [|done]. simpl. intros ? Hwf Hw; simplify_eq.
    apply wf_object in Hwf as [Hk Hms]. apply wf_object. rewrite obj_set_keys. split; [done|].
    apply obj_set_Forall; [|done]. intros z [Hz _]. split; [done|]. eapply IH; [done| |done].
    eapply Forall_forall in Hms; [|by eapply obj_get_elem]. apply Hms.
  - destruct v; try done. destruct (vs !! i) as [y|] eqn:E; [|done]. simpl.
    destruct (set_at p w y) as [y'|] eqn:E'; [|done]. simpl. intros ? Hwf Hw; simplify_eq.
    apply wf_array in Hwf. apply wf_array. apply Forall_insert; [done|]. eapply IH; [done| |done].
    by eapply Forall_lookup_1 in Hwf.
Qed.

(** ** The handler *)

Definition below (p q : list step) : Prop := exists s t, p = q ++ s :: t.

Fixpoint chain (ps : list (list step)) : Prop :=
  match ps with
  | [] => True
  | p :: ps => Forall (below p) ps /\ chain ps
  end.

Context (ex : bool).

Record dom_ok (states : list bool) d : Prop := DomOk {
  dom_wf : wf_json (root d);
  dom_refs : Forall2 (fun b p => exists v, get_at p (root d) = Some v /\ is_kind b v = true) states (ref_stack d);
  dom_chain : chain (ref_stack d);
  dom_noerror : errored d = false;
  dom_exceptions : allow_exceptions d = ex
}.

(** Ready for a value: in an object, a key was read. *)
Definition ready (states : list bool) d : Prop :=
  dom_ok states d /\
  match states, ref_stack d with
  | false :: _, p :: _ => exists k x, object_element d = Some (p ++ [AtKey k]) /\ get_at (p ++ [AtKey k]) (root d) = Some x
  | _, _ => True
  end.

(** Where the next value goes... *)
Definition put_ptr d : list step :=
  match ref_stack d with
  | [] => []
  | p :: _ =>
      match get_at p (root d) with
      | Some (Jarray vs) => p ++ [AtIndex (length vs)]
      | _ => default [] (object_element d)
      end
  end.

(** ...and the document with [v] there. *)
Definition put_root d v : option (json F) :=
  match ref_stack d with
  | [] => Some v
  | p :: _ =>
      match get_at p (root d) with
      | Some (Jarray vs) => set_at p (Jarray (vs ++ [v])) (root d)
      | _ => q ← object_element d; set_at q v (root d)
      end
  end.

Lemma dom_ok_store states d q w r :
  dom_ok states d -> set_at q w (root d) = Some r -> wf_json w ->
  Forall2 (fun b p => below q p \/ (p = q /\ is_kind b w = true)) states (ref_stack d) ->
  dom_ok states (set_root r d).
Proof.
  intros [] Hs Hw Hq. split; try done; simpl; [by eapply wf_set_at|].
  clear dom_chain0. induction Hq as [|b p states ps Hp _ IH]; [constructor|].
  apply Forall2_cons in dom_refs0 as [(v & Hg & Hk) Hrest]. constructor; [|by apply IH].
  destruct Hp as [(s & t & ->)|[-> Hk']].
  - by eapply prefix_kind.
  - exists w. split; [by eapply get_set_at|done].
Qed.

Lemma below_app p q s : Forall (below p) q -> Forall (below (p ++ [s])) q.
Proof.
  intros Hq. eapply Forall_impl; [exact Hq|]. intros x (s' & t & ->). exists s', (t ++ [s]). by rewrite <- app_assoc.
Qed.

Lemma stack_below states d p ps q :
  dom_ok states d -> ref_stack d = p :: ps -> Forall (below q) (p :: ps) ->
  Forall2 (fun (b : bool) p => below q p \/ (p = q /\ is_kind b (Jnull (F := F)) = true)) states (ref_stack d).
Proof.
  intros [] Hps Hq. rewrite Hps in *. apply Forall2_length in dom_refs0 as Hl.
  clear -Hq Hl. revert states Hl. induction Hq as [|x l Hx _ IH]; intros [|b states] Hl; try done; constructor; auto.
Qed.

Lemma handle_array states d p ps vs v :
  dom_ok states d -> ref_stack d = p :: ps -> get_at p (root d) = Some (Jarray vs) ->
  exists r, put_root d v = Some r /\ handle_value v d = Ok (put_ptr d, set_root r d) /\
    get_at (put_ptr d) r = Some v /\ (forall w, set_at (put_ptr d) w r = put_root d w) /\
    (wf_json v -> dom_ok states (set_root r d)) /\ Forall (below (put_ptr d)) (ref_stack d).
Proof.
  intros Hd Hps Hg. pose proof Hd as [Hwf Hrefs Hch _ _].
  destruct (set_at_Some p (Jarray (vs ++ [v])) _ _ Hg) as [r Hr]. exists r.
  unfold put_root, put_ptr. rewrite Hps, Hg. split; [done|]. rewrite Hps in Hch. simpl in Hch.
  pose proof (get_set_at _ _ _ _ Hr) as Hgr. split_and!.
  - unfold handle_value, mbind, M_bind, gets. rewrite Hps. unfold deref. rewrite Hg. simpl. unfold store. by rewrite Hr.
  - erewrite get_at_app by done. simpl. rewrite lookup_app_r, Nat.sub_diag by lia. done.
  - intros w. destruct (set_at (p ++ [AtIndex (length vs)]) w r) as [r'|] eqn:E.
    + apply (set_at_app _ _ _ _ _ _ Hgr) in E as (y & Hy & Hyr). simpl in Hy.
      rewrite lookup_app_r, Nat.sub_diag in Hy by lia. simpl in Hy. simplify_eq.
      rewrite (set_set_at _ _ _ _ _ Hr) in Hyr.
      by rewrite insert_app_r_alt, Nat.sub_diag in Hyr by lia.
    + destruct (set_at_Some (p ++ [AtIndex (length vs)]) w r v) as [r' Hr']; [|congruence].
      erewrite get_at_app by done. simpl. by rewrite lookup_app_r, Nat.sub_diag by lia.
  - intros Hv. eapply dom_ok_store; [done|exact Hr| |].
    + apply wf_array, Forall_app. split; [|by repeat constructor]. apply wf_array. by eapply wf_get_at.
    + rewrite Hps in *. destruct states as [|b states]; [by apply Forall2_length in Hrefs|].
      apply Forall2_cons in Hrefs as [(v' & Hv' & Hk) Hrest]. constructor.
      * right. rewrite Hg in Hv'. simplify_eq. by destruct b.
      * destruct Hch as [Hch _]. apply Forall2_length in Hrest as Hl. clear -Hch Hl.
        revert states Hl. induction Hch as [|x l Hx _ IH]; intros [|b states] Hl; try done; constructor; auto.
  - constructor; [by exists (AtIndex (length vs)), []|]. apply below_app, Hch.
Qed.

Lemma handle_object states d p ps ms v k x :
  dom_ok states d -> ref_stack d = p :: ps -> get_at p (root d) = Some (Jobject ms) ->
  object_element d = Some (p ++ [AtKey k]) -> get_at (p ++ [AtKey k]) (root d) = Some x ->
  exists r, put_root d v = Some r /\ handle_value v d = Ok (put_ptr d, set_root r d) /\
    get_at (put_ptr d) r = Some v /\ (forall w, set_at (put_ptr d) w r = put_root d w) /\
    (wf_json v -> dom_ok states (set_root r d)) /\ Forall (below (put_ptr d)) (ref_stack d).
Proof.
  intros Hd Hps Hg He Hx. pose proof Hd as [Hwf Hrefs Hch _ _].
  destruct (set_at_Some _ v _ _ Hx) as [r Hr]. exists r.
  unfold put_root, put_ptr. rewrite Hps, Hg, He. simpl. split; [done|]. rewrite Hps in Hch. simpl in Hch.
  assert (Forall (below (p ++ [AtKey k])) (p :: ps)) as Hb
    by (constructor; [by exists (AtKey k), []|]; apply below_app, Hch).
  split_and!; try done.
  - unfold handle_value, mbind, M_bind, gets. rewrite Hps. unfold deref. rewrite Hg. simpl. rewrite He.
    unfold store. by rewrite Hr.
  - by eapply get_set_at.
  - intros w. by apply set_set_at with (w1 := v).
  - intros Hv. eapply dom_ok_store; [done|exact Hr|done|].
    eapply Forall2_impl; [by eapply stack_below|]. intros b q [?|[_ ?]]; [by left|by destruct b].
Qed.

(** The value goes to its place, and the pointer returned leads to it. *)
Lemma handle_exact states d v :
  ready states d ->
  exists r, put_root d v = Some r /\ handle_value v d = Ok (put_ptr d, set_root r d) /\
    get_at (put_ptr d) r = Some v /\ (forall w, set_at (put_ptr d) w r = put_root d w) /\
    (wf_json v -> dom_ok states (set_root r d)) /\ Forall (below (put_ptr d)) (ref_stack d).
Proof.
  intros [Hd Hr]. pose proof Hd as [Hwf Hrefs Hch Hne Hex]. destruct (ref_stack d) as [|p ps] eqn:Hps.
  - exists v. unfold put_root, put_ptr. rewrite Hps. apply Forall2_nil_inv_r in Hrefs as ->.
    split_and!; try done; [|intros; split; simpl; rewrite ?Hps; try done; constructor].
    unfold handle_value, mbind, M_bind, gets. by rewrite Hps.
  - apply Forall2_cons_inv_r in Hrefs as (b & states' & (x & Hx & Hk) & Hrest & ->). rewrite <- Hps.
    destruct b, x; try done.
    + by eapply handle_array.
    + destruct Hr as (k & y & He & Hy). by eapply handle_object.
Qed.
End dom_props.
