(* ===== verification/JsonTotal.v ===== *)
(** JsonTotal: the parser on any text, against the interface [SaxSpec] of a handler.

    [SaxSpec] states what the parser needs of a handler: in the nesting [states],
    [ready] before a value and [after] one.  [parse_loop_ok]: with such a handler the
    parser reads any input to an answer; no assertion fails and the fuel is enough.
    Both handlers meet it. *)

From S2P Require Import Prelude Json JsonLexer JsonParser JsonDump JsonUtf8 JsonLexProps JsonScan JsonDom.

(** What a reader may throw, when exceptions are allowed: errors with these [codes]. *)
Definition thrown_by (codes : Z -> Prop) (exceptions : bool) (f : fault) : Prop :=
  exists id what, f = Thrown id what /\ exceptions = true /\ codes id.

(** The errors of the parser. *)
Definition json_codes (id : Z) : Prop := id = 101 \/ id = 406.
Definition thrown : bool -> fault -> Prop := thrown_by json_codes.

(** What a handler throws at a container that is announced with too many elements. *)
Definition excessive (len : Z) (f : fault) : Prop := len <> unknown_size /\ exists what, f = Thrown 408 what.

Class SaxSpec {F S} `{Rules F} `{Sax F S} (codes : Z -> Prop) (exceptions : bool)
    (ready after : list bool -> S -> Prop) (failed : S -> Prop) : Prop := {
  spec_null states s : ready states s -> wp nofault sax_null s (fun ok s' => ok = true /\ after states s');
  spec_boolean b states s : ready states s -> wp nofault (sax_boolean b) s (fun ok s' => ok = true /\ after states s');
  spec_integer n states s : in_s 64 n -> ready states s ->
    wp nofault (sax_number_integer n) s (fun ok s' => ok = true /\ after states s');
  spec_unsigned n states s : in_u 64 n -> ready states s ->
    wp nofault (sax_number_unsigned n) s (fun ok s' => ok = true /\ after states s');
  spec_float x t states s : float_rule x -> ready states s ->
    wp nofault (sax_number_float x t) s (fun ok s' => ok = true /\ after states s');
  spec_string t states s : string_rule t -> ready states s ->
    wp nofault (sax_string t) s (fun ok s' => ok = true /\ after states s');
  spec_binary b subtype states s : binary_rule b subtype -> ready states s ->
    wp nofault (sax_binary b subtype) s (fun ok s' => ok = true /\ after states s');
  spec_start_object len states s : ready states s ->
    wp (excessive len) (sax_start_object len) s (fun ok s' => ok = true /\ after (false :: states) s');
  spec_key k states s : string_rule k -> after (false :: states) s ->
    wp nofault (sax_key k) s (fun ok s' => ok = true /\ ready (false :: states) s');
  spec_end_object states s : after (false :: states) s ->
    wp nofault sax_end_object s (fun ok s' => ok = true /\ after states s');
  spec_start_array len states s : ready states s ->
    wp (excessive len) (sax_start_array len) s (fun ok s' => ok = true /\ after (true :: states) s');
  spec_next states s : after (true :: states) s -> ready (true :: states) s;
  spec_end_array states s : after (true :: states) s ->
    wp nofault sax_end_array s (fun ok s' => ok = true /\ after states s');
  spec_error pos t id what states s : codes id -> after states s ->
    wp (thrown_by codes exceptions) (sax_parse_error pos t (Thrown id what)) s (fun ok s' => ok = false /\ failed s');
  spec_error_again pos t id what s : codes id -> failed s ->
    wp (thrown_by codes exceptions) (sax_parse_error pos t (Thrown id what)) s (fun ok s' => ok = false /\ failed s');
  spec_ready states s : ready states s -> after states s
}.

(** A container of unknown size is never too large. *)
Lemma start_unknown {S A} (m : M S A) s Q : wp (excessive unknown_size) m s Q -> wp nofault m s Q.
Proof. intros Hm. eapply wp_fault; [exact Hm|]. by intros f [[] _]. Qed.

Section total.
Context {F S : Type} `{NumberFloat F} `{Sax F S}.
Context {exceptions : bool} {ready after : list bool -> S -> Prop} {failed : S -> Prop}.
Context {HS : SaxSpec json_codes exceptions ready after failed}.
Context (ic : bool) (dp : Z) (Hdp : point_ok dp).
Implicit Types (p : parser (F := F) (S := S)) (states : list bool) (q : list Z).

Abbreviation E := (thrown exceptions) (only parsing).

(** The lexer of [p] has [q] to read. *)
Definition reads q p : Prop := exists n d b, 1 <= n /\ lx ic dp n d q b (m_lexer p).

(** ... and the last token is what it promises. *)
Definition token_at q p : Prop :=
  exists n d b, 1 <= n /\ lx ic dp n d q b (m_lexer p) /\ token_ok (last_token p) d b (m_lexer p).

Lemma token_reads q p : token_at q p -> reads q p.
Proof. intros (n & d & b & ? & ? & _). by exists n, d, b. Qed.

Lemma get_token_ok q p :
  reads q p ->
  wp E get_token p (fun t p' => t = last_token p' /\ m_sax p' = m_sax p /\
    exists q', token_at q' p' /\ (length q' <= length q)%nat /\ (t = end_of_input \/ (length q' < length q)%nat)).
Proof.
  intros (n & d & b & Hn & L). unfold get_token, with_lexer. apply wp_bind.
  pose proof (scan_ok ic dp Hdp n d q b (m_lexer p) L) as Hs. unfold wp in Hs |- *.
  destruct (scan (m_lexer p)) as [[t l]|f]; [|by destruct Hs].
  destruct Hs as (n' & d' & q' & b' & ? & ? & ? & ? & L' & Ht). simpl.
  split; [done|]. split; [done|]. exists q'. split; [|done]. by exists n', d', b'.
Qed.

Lemma with_sax_ok {A} (m : M S A) p (Q : A -> S -> Prop) (E' : fault -> Prop) (R : A -> parser -> Prop) :
  wp E' m (m_sax p) Q -> (forall f, E' f -> E f) ->
  (forall a s, Q a s -> R a (Parser (last_token p) (m_lexer p) s)) -> wp E (with_sax m) p R.
Proof.
  intros Hm HE HR. unfold with_sax, wp in *. destruct (m (m_sax p)) as [[a s]|f]; auto.
Qed.

Lemma guard_ok m k p (Q : S -> Prop) (R : flow -> parser -> Prop) :
  wp nofault m (m_sax p) (fun ok s' => ok = true /\ Q s') ->
  (forall s, Q s -> wp E k (Parser (last_token p) (m_lexer p) s) R) -> wp E (guard m k) p R.
Proof.
  intros Hm Hk. unfold guard. apply wp_bind. eapply with_sax_ok; [exact Hm|done|].
  intros ok s [-> Hs]. by apply Hk.
Qed.

(** A round may end in failure. *)
Definition returned (f : flow) p : Prop := f = Return false /\ failed (m_sax p) /\ exists q, reads q p.

Lemma report_ok message q states p :
  reads q p -> after states (m_sax p) ->
  wp E (report message) p (fun b p' => b = false /\ failed (m_sax p') /\ exists q, reads q p').
Proof.
  intros Hq Ha. unfold report, get_position, get_token_string, with_lexer, gets, parse_error_create.
  do 2 (apply wp_bind; simpl; unfold wp; simpl).
  eapply with_sax_ok; [eapply (spec_error _ _ _ _ states); [by left|exact Ha]|done|].
  intros b s [-> Hf]. split_and!; [done..|]. by exists q.
Qed.

Lemma report_again message p :
  failed (m_sax p) -> wp E (report message) p (fun b p' => b = false /\ failed (m_sax p')).
Proof.
  intros Ha. unfold report, get_position, get_token_string, with_lexer, gets, parse_error_create.
  do 2 (apply wp_bind; simpl; unfold wp; simpl).
  eapply with_sax_ok; [eapply spec_error_again; [by left|exact Ha]|done|done].
Qed.

Lemma message_ok expected context p (Q : list Z -> parser -> Prop) :
  (forall m, Q m p) -> wp E (exception_message expected context) p Q.
Proof. intros HQ. destruct p as [t l s]. unfold exception_message, wp. simpl. apply HQ. Qed.

Lemma unexpected_ok expected context q states p :
  reads q p -> after states (m_sax p) -> wp E (unexpected expected context) p returned.
Proof.
  intros Hq Ha. unfold unexpected. apply wp_bind, message_ok. intros m. apply wp_bind.
  eapply wp_mono; [by eapply report_ok|]. intros b p' (-> & Hf & Hr). by apply wp_ret.
Qed.

(** The round goes on: what is left is shorter, or the input has ended. *)
Definition goes_on q (f : flow) p : Prop :=
  returned f p \/
  (f = Break /\ False) \/
  exists states (skip : bool) q', f = Next states skip /\ token_at q' p /\ (length q' <= length q)%nat /\
    (if skip then after states (m_sax p) else ready states (m_sax p)) /\
    ((last_token p = end_of_input /\ skip = false) \/ (length q' < length q)%nat).

(** After the switch: the value was read. *)
Definition value_read q states (f : flow) p : Prop :=
  returned f p \/ (f = Break /\ after states (m_sax p) /\ exists q', reads q' p /\ (length q' <= length q)%nat) \/
  goes_on q f p.

Lemma get_string_ok q p :
  last_token p = value_string -> token_at q p ->
  wp E (with_lexer get_string) p (fun s p' => p' = p /\ is_utf8 s).
Proof.
  intros Ht (n & d & b & Hn & L & Hok). rewrite Ht in Hok. destruct Hok as [Hu ->].
  destruct p as [t l s]. simpl in *. destruct L. unfold with_lexer, get_string, wp, gets, mbind, M_bind. simpl.
  rewrite lx_point, Z.eqb_refl, andb_false_r. simpl. split; [done|]. by rewrite lx_buffer.
Qed.

Lemma get_float_string_ok q p :
  last_token p = value_float -> token_at q p ->
  wp E (with_lexer get_string) p (fun s p' => m_sax p' = m_sax p /\ reads q p').
Proof.
  intros Ht (n & d & b & Hn & L & Hok). rewrite Ht in Hok. simpl in Hok.
  destruct p as [t l s]. simpl in *. pose proof L as []. unfold with_lexer, get_string, wp, gets, mbind, M_bind. simpl.
  destruct (negb _ && negb _) eqn:Eb; simpl.
  - rewrite lx_point, lx_buffer in *. destruct Hok as [->|Hd]; [by rewrite Z.eqb_refl, andb_false_r in Eb|].
    rewrite (proj2 (Z.leb_le 0 d)), (proj2 (Z.ltb_lt d (Z.of_nat (length b)))) by lia. simpl.
    split; [done|]. exists n, d, (<[Z.to_nat d := cDOT]> b). split; [done|]. by split.
  - split; [done|]. by exists n, d, b.
Qed.

(** A key, the separator and the first token of the value. *)
Lemma parse_key_ok q0 q states p :
  (length q < length q0)%nat -> last_token p = value_string -> token_at q p -> after (false :: states) (m_sax p) ->
  wp E (parse_key (false :: states)) p (goes_on q0).
Proof.
  intros Hq Ht Hp Ha. unfold parse_key. apply wp_bind.
  eapply wp_mono; [by eapply get_string_ok|]. intros k p' [-> Hk].
  eapply guard_ok; [by apply spec_key|]. intros s Hs. apply wp_bind.
  eapply wp_mono; [apply (get_token_ok q); by apply token_reads|].
  intros t p1 (-> & Hsax & q1 & Hp1 & Hl1 & _). simpl in Hsax. rewrite <- Hsax in Hs. case_decide.
  - apply wp_bind. eapply wp_mono; [apply (get_token_ok q1); by apply token_reads|].
    intros t p2 (-> & Hsax2 & q2 & Hp2 & Hl2 & He). apply wp_ret. right. right. rewrite <- Hsax2 in Hs.
    exists (false :: states), false, q2. split_and!; try done; try lia.
  - eapply wp_mono; [eapply (unexpected_ok _ _ q1 (false :: states)); [by apply token_reads|by apply spec_ready]|]. by left.
Qed.

Lemma parse_begin_object_ok q states p :
  reads q p -> ready states (m_sax p) -> wp E (parse_begin_object states) p (value_read q states).
Proof.
  intros Hq Hr. unfold parse_begin_object. eapply guard_ok; [by apply start_unknown, spec_start_object|]. intros s Hs.
  apply wp_bind. eapply wp_mono; [by apply (get_token_ok q)|].
  intros t p1 (-> & Hsax & q1 & Hp1 & Hl1 & He). simpl in Hsax. rewrite <- Hsax in Hs. case_decide as Hd.
  - eapply guard_ok; [by apply spec_end_object|]. intros s2 Hs2. apply wp_ret. right. left.
    split; [done|]. split; [done|]. exists q1. split; [|done]. by apply token_reads.
  - case_decide as Hd2.
    + eapply wp_mono; [eapply (parse_key_ok q q1); [|done..]|].
      { destruct He as [He|]; [congruence|done]. }
      intros f p2 Hf. right. by right.
    + eapply wp_mono; [eapply unexpected_ok; [by apply token_reads|done]|]. by left.
Qed.

Lemma parse_begin_array_ok q states p :
  reads q p -> ready states (m_sax p) -> wp E (parse_begin_array states) p (value_read q states).
Proof.
  intros Hq Hr. unfold parse_begin_array. eapply guard_ok; [by apply start_unknown, spec_start_array|]. intros s Hs.
  apply wp_bind. eapply wp_mono; [by apply (get_token_ok q)|].
  intros t p1 (-> & Hsax & q1 & Hp1 & Hl1 & He). simpl in Hsax. rewrite <- Hsax in Hs. case_decide as Hd.
  - eapply guard_ok; [by apply spec_end_array|]. intros s2 Hs2. apply wp_ret. right. left.
    split; [done|]. split; [done|]. exists q1. split; [|done]. by apply token_reads.
  - apply wp_ret. right. right. right. right. exists (true :: states), false, q1.
    split_and!; try done; [by apply spec_next|]. destruct He; [by left|by right].
Qed.

Lemma guard_value q m states p :
  wp nofault m (m_sax p) (fun ok s' => ok = true /\ after states s') -> token_at q p ->
  wp E (guard m (mret Break)) p (value_read q states).
Proof.
  intros Hm Hp. eapply guard_ok; [exact Hm|]. intros s Hs. apply wp_ret. right. left.
  split; [done|]. split; [done|]. exists q. split; [by apply (token_reads q p)|done].
Qed.

Lemma parse_float_ok q states p :
  last_token p = value_float -> token_at q p -> ready states (m_sax p) -> wp E parse_float p (value_read q states).
Proof.
  intros Ht Hp Hr. unfold parse_float. destruct p as [t l s]. apply wp_bind.
  unfold with_lexer at 1, get_number_float, gets, wp at 1. simpl.
  destruct (isfinite (number_float l)) eqn:Ef.
  - apply wp_bind. eapply wp_mono; [by eapply get_float_string_ok|]. intros x p1 [Hs1 Hq1].
    simpl in Hs1. rewrite <- Hs1 in Hr. eapply guard_ok; [by apply spec_float|]. intros s2 Hs2. apply wp_ret.
    right. left. split; [done|]. split; [done|]. exists q. split; [|done].
    destruct Hq1 as (n & d & b & ? & ?). by exists n, d, b.
  - unfold out_of_range, get_token_string, get_position, with_lexer, gets.
    do 2 (apply wp_bind; unfold wp; simpl). apply wp_bind. eapply with_sax_ok.
    { eapply (spec_error _ _ _ _ states); [by right|]. by apply spec_ready. }
    { done. }
    intros b s' [-> Hf]. apply wp_ret. left. split_and!; [done..|]. exists q. by apply (token_reads q (Parser t l s)).
Qed.

Lemma parse_end_of_input_ok q states p :
  reads q p -> after states (m_sax p) -> wp E parse_end_of_input p returned.
Proof.
  intros Hq Ha. unfold parse_end_of_input. destruct p as [t l s]. apply wp_bind.
  unfold with_lexer at 1, get_position, gets, wp at 1. simpl. case_match.
  - apply wp_bind. eapply wp_mono; [by eapply report_ok|]. intros b p1 (-> & Hf & Hr). by apply wp_ret.
  - by eapply unexpected_ok.
Qed.

Lemma parse_value_ok q states p :
  token_at q p -> ready states (m_sax p) -> wp E (parse_value states) p (value_read q states).
Proof.
  intros Hp Hr. pose proof (spec_ready _ _ Hr) as Ha. unfold parse_value. apply wp_bind, wp_gets.
  pose proof Hp as (n & d & b & Hn & L & Hok). destruct p as [t l s]. simpl in *.
  assert (forall e c, wp E (unexpected e c) (Parser t l s) (value_read q states)) as Hu
    by (intros; eapply wp_mono; [eapply unexpected_ok; [by apply (token_reads q)|done]|]; by left).
  destruct t; try (apply Hu).
  - apply (guard_value q); [by apply spec_boolean|done].
  - apply (guard_value q); [by apply spec_boolean|done].
  - apply (guard_value q); [by apply spec_null|done].
  - apply wp_bind. eapply wp_mono; [by eapply get_string_ok|]. intros x p1 [-> Hx].
    apply (guard_value q); [by apply spec_string|done].
  - apply wp_bind. unfold with_lexer at 1, get_number_unsigned, gets, wp at 1. simpl.
    apply (guard_value q); [by apply spec_unsigned|done].
  - apply wp_bind. unfold with_lexer at 1, get_number_integer, gets, wp at 1. simpl.
    apply (guard_value q); [by apply spec_integer|done].
  - by apply parse_float_ok.
  - apply parse_begin_array_ok; [by apply token_reads|done].
  - apply parse_begin_object_ok; [by apply token_reads|done].
  - eapply wp_mono; [eapply parse_end_of_input_ok; [by apply (token_reads q)|done]|]. by left.
Qed.

Lemma after_array_ok q states p :
  reads q p -> after (true :: states) (m_sax p) -> wp E (after_array_value states) p (goes_on q).
Proof.
  intros Hq Ha. unfold after_array_value. apply wp_bind. eapply wp_mono; [by apply (get_token_ok q)|].
  intros t p1 (-> & Hsax & q1 & Hp1 & Hl1 & He). rewrite <- Hsax in Ha. case_decide as H1; [|case_decide as H2].
  - apply wp_bind. eapply wp_mono; [apply (get_token_ok q1); by apply token_reads|].
    intros t p2 (-> & Hsax2 & q2 & Hp2 & Hl2 & He2). apply wp_ret. rewrite <- Hsax2 in Ha. right. right.
    exists (true :: states), false, q2. split_and!; try done; [lia|by apply spec_next|].
    right. destruct He; [congruence|lia].
  - eapply guard_ok; [by apply spec_end_array|]. intros s2 Hs2. apply wp_ret. right. right.
    exists states, true, q1. split_and!; try done. right. destruct He; [congruence|lia].
  - eapply wp_mono; [eapply unexpected_ok; [by apply token_reads|done]|]. by left.
Qed.

Lemma after_object_ok q states p :
  reads q p -> after (false :: states) (m_sax p) -> wp E (after_object_value states) p (goes_on q).
Proof.
  intros Hq Ha. unfold after_object_value. apply wp_bind. eapply wp_mono; [by apply (get_token_ok q)|].
  intros t p1 (-> & Hsax & q1 & Hp1 & Hl1 & He). rewrite <- Hsax in Ha. case_decide as H1; [|case_decide as H2].
  - apply wp_bind. eapply wp_mono; [apply (get_token_ok q1); by apply token_reads|].
    intros t p2 (-> & Hsax2 & q2 & Hp2 & Hl2 & He2). rewrite <- Hsax2 in Ha. case_decide.
    + apply (parse_key_ok q q2); try done. destruct He; [congruence|lia].
    + eapply wp_mono; [eapply unexpected_ok; [by apply token_reads|done]|]. by left.
  - eapply guard_ok; [by apply spec_end_object|]. intros s2 Hs2. apply wp_ret. right. right.
    exists states, true, q1. split_and!; try done. right. destruct He; [congruence|lia].
  - eapply wp_mono; [eapply unexpected_ok; [by apply token_reads|done]|]. by left.
Qed.

(** The value was read to its end. *)
Definition finished (f : flow) p : Prop := f = Return true /\ after [] (m_sax p) /\ exists q, reads q p.

Lemma after_value_ok q states p :
  reads q p -> after states (m_sax p) ->
  wp E (after_value states) p (fun f p' => finished f p' \/ goes_on q f p').
Proof.
  intros Hq Ha. unfold after_value. destruct states as [|[|] states].
  - apply wp_ret. left. split_and!; [done..|eauto].
  - eapply wp_mono; [by apply after_array_ok|]. auto.
  - eapply wp_mono; [by apply after_object_ok|]. auto.
Qed.

Lemma goes_on_le q q' f p : (length q <= length q')%nat -> goes_on q f p -> goes_on q' f p.
Proof.
  intros Hl [Hr|[[_ []]|(st & skip & q2 & -> & Hp & Hl2 & Hs & Hd)]]; [by left|]. right. right.
  exists st, skip, q2. split_and!; try done; [lia|]. destruct Hd; [by left|right; lia].
Qed.

Lemma parse_round_ok q states (skip : bool) p :
  (if skip then reads q p /\ after states (m_sax p) else token_at q p /\ ready states (m_sax p)) ->
  wp E (parse_round states skip) p (fun f p' => finished f p' \/ goes_on q f p').
Proof.
  intros Hp. unfold parse_round. apply wp_bind. destruct skip.
  - destruct Hp. apply wp_ret. by apply after_value_ok.
  - destruct Hp. eapply wp_mono; [by apply (parse_value_ok q)|]. intros f p1 [Hf|[(-> & Ha & q1 & Hq1 & Hl)|Hf]].
    + destruct Hf as (-> & Hf). apply wp_ret. right. by left.
    + eapply wp_mono; [by apply (after_value_ok q1)|]. intros f p2 [?|?]; [by left|right]. by eapply goes_on_le.
    + destruct Hf as [(-> & Hf)|[[_ []]|(st & skip & q2 & -> & Hrest)]]; apply wp_ret; right; [by left|].
      right. right. by exists st, skip, q2.
Qed.

(** The loop ends before its fuel does. *)
Lemma parse_loop_ok fuel q states (skip : bool) p :
  (if skip then reads q p /\ after states (m_sax p) else token_at q p /\ ready states (m_sax p)) ->
  (length q + 2 <= fuel)%nat \/ (1 <= fuel)%nat /\ skip = false /\ last_token p = end_of_input ->
  wp E (parse_loop fuel states skip) p (fun r p' =>
    (exists q', reads q' p') /\ ((r = true /\ after [] (m_sax p')) \/ (r = false /\ failed (m_sax p')))).
Proof.
  revert q states skip p; induction fuel as [|fuel IH]; intros q states skip p Hp Hf; [lia|].
  simpl. apply wp_bind.
  destruct (decide (skip = false /\ last_token p = end_of_input)) as [[-> Ht]|Hne].
  - (* the round reports the end of the input *)
    destruct Hp as [Hp Hr]. apply wp_mono with (P := returned).
    + unfold parse_round, parse_value. apply wp_bind, wp_bind, wp_gets. rewrite Ht.
      eapply wp_mono; [apply (parse_end_of_input_ok q states); [by apply token_reads|by apply spec_ready]|].
      intros f p1 (-> & Hf1). by apply wp_ret.
    + intros f p1 (-> & Hfl & Hq). apply wp_ret. auto.
  - destruct Hf as [Hf|(_ & ? & ?)]; [|by destruct Hne]. eapply wp_mono; [by apply (parse_round_ok q)|].
    intros f p1 [(-> & Ha & Hq)|[(-> & Hfl & Hq)|[[_ []]|(st & sk & q1 & -> & Hp1 & Hl & Hs & Hd)]]].
    + apply wp_ret. auto.
    + apply wp_ret. auto.
    + apply (IH q1).
      * destruct sk; split; try done. by apply token_reads.
      * destruct Hd as [[? ->]|?]; [right; split_and!; try done; lia|left; lia].
Qed.
End total.
