(* ===== verification/JsonParse.v ===== *)
(** JsonParse: the two handlers meet [SaxSpec]; [parse] and [accept] on any text.

    [json_parse_total] is the type of [parse], [accept_parse] the agreement of the
    two functions. *)

From S2P Require Import Prelude Json JsonLexer JsonParser JsonDump JsonUtf8 JsonLexProps JsonScan JsonDom JsonTotal.

Section instances.
Context {F : Type} {R : Rules F}.
Implicit Types (d : dom (F := F)) (v : json F).

Lemma ret_after {A B} {E} (m : M A B) (s : A) (Q : bool -> A -> Prop) :
  wp E m s (fun _ s' => Q true s') -> wp E (m;; mret true) s Q.
Proof. intros Hm. apply wp_bind. eapply wp_mono; [exact Hm|]. intros. by apply wp_ret. Qed.

Context (ex : bool).

Lemma handle_ok states d v :
  wf_json v -> ready ex states d -> wp nofault (handle v) d (fun ok d' => ok = true /\ dom_ok ex states d').
Proof.
  intros Hv Hr. unfold handle. apply ret_after.
  destruct (handle_exact ex states d v Hr) as (r & _ & He & _ & _ & Hok & _). eapply wp_run; [exact He|]. auto.
Qed.

Lemma dom_start_ok (b : bool) states d v len max_size message :
  wf_json v -> is_kind b v = true -> ready ex states d ->
  wp (excessive len) (dom_start v len max_size message) d (fun ok d' => ok = true /\ dom_ok ex (b :: states) d').
Proof.
  intros Hv Hk Hr. unfold dom_start.
  destruct (handle_exact ex states d v Hr) as (r & _ & He & Hg & _ & Hok & Hb). apply wp_bind.
  eapply wp_run; [exact He|]. apply wp_bind, wp_modify, ret_after.
  apply (wp_mono _ _ _ (fun _ d' => d' = set_stack (put_ptr d :: ref_stack d) (set_root r d))).
  - destruct (is_excessive len max_size) eqn:Ex; [|by apply wp_ret]. apply wp_fail. unfold is_excessive in Ex.
    apply andb_prop in Ex as [Hne%negb_true_iff%Z.eqb_neq _]. split; [done|by eexists].
  - intros _ d' ->. split; [done|]. destruct (Hok Hv). split; try done; simpl in *. constructor; [eauto|done].
Qed.

Lemma dom_back_ok (b : bool) states d :
  dom_ok ex (b :: states) d ->
  exists p ps c, ref_stack d = p :: ps /\ get_at p (root d) = Some c /\ is_kind b c = true /\
    dom_back (if b then is_array else is_object) d = Ok ((p, c), d).
Proof.
  intros []. apply Forall2_cons_inv_l in dom_refs as (p & ps & (c & Hc & Hk) & _ & Hps).
  exists p, ps, c. split_and!; try done. unfold dom_back, gets, mbind, M_bind. rewrite Hps. unfold deref. rewrite Hc.
  by destruct b; simpl in *; rewrite Hk.
Qed.

Lemma dom_key_ok k states d :
  string_rule k -> dom_ok ex (false :: states) d ->
  wp nofault (dom_key k) d (fun ok d' => ok = true /\ ready ex (false :: states) d').
Proof.
  intros Hu Hd. destruct (dom_back_ok false states d Hd) as (p & ps & c & Hps & Hc & Hk & Hb).
  pose proof Hd as [Hwf Hrefs Hch Hne Hex]. unfold dom_key. apply wp_bind. eapply wp_run; [exact Hb|].
  simpl. destruct c as [|ms| | | | | | | |]; try done. simpl.
  pose proof (wf_get_at _ _ _ Hc Hwf) as [Hkeys Hms]%wf_object.
  destruct (obj_index_keys k ms Hkeys) as (Hkeys' & Hin & _).
  destruct (set_at_Some p (Jobject (obj_index k ms)) _ _ Hc) as [r Hr].
  apply wp_bind. unfold wp, store. rewrite Hr. apply ret_after, wp_modify. split; [done|].
  assert (dom_ok ex (false :: states) (set_root r d)) as Hok.
  { eapply dom_ok_store; [done|exact Hr| |].
    - apply wf_object. split; [done|]. by apply obj_index_Forall.
    - rewrite Hps in *. simpl in Hch. apply Forall2_cons in Hrefs as [_ Hrest]. constructor; [by right|].
      destruct Hch as [Hch _]. apply Forall2_length in Hrest as Hl. clear -Hch Hl.
      revert states Hl. induction Hch as [|x l Hx _ IH]; intros [|b states] Hl; try done; constructor; auto. }
  split; [by destruct Hok|]. simpl. rewrite Hps. destruct (obj_get_Some _ _ Hin) as [x Hx].
  exists k, x. split; [done|]. erewrite get_at_app by by eapply get_set_at. simpl. by rewrite Hx.
Qed.

Lemma dom_end_ok (b : bool) states d :
  dom_ok ex (b :: states) d ->
  wp nofault (dom_end (if b then is_array else is_object)) d (fun ok d' => ok = true /\ dom_ok ex states d').
Proof.
  intros Hd. destruct (dom_back_ok b states d Hd) as (p & ps & c & Hps & Hc & Hk & Hb).
  unfold dom_end. apply wp_bind. eapply wp_run; [exact Hb|]. apply ret_after, wp_modify. split; [done|].
  destruct Hd as [Hwf Hrefs Hch Hne Hex]. rewrite Hps in *. simpl in *.
  apply Forall2_cons in Hrefs as [_ Hrest]. split; simpl; rewrite ?Hps; try done. apply Hch.
Qed.

(** After an error that was not thrown. *)
Definition dom_failed d : Prop := errored d = true /\ allow_exceptions d = false /\ ex = false.

#[export] Instance dom_spec codes :
  SaxSpec codes ex (ready ex) (dom_ok ex) dom_failed.
Proof.
  split; simpl; intros.
  1-7: by apply handle_ok.
  - by apply dom_start_ok.
  - by apply dom_key_ok.
  - by apply (dom_end_ok false).
  - by apply dom_start_ok.
  - by split.
  - by apply (dom_end_ok true).
  - destruct H0 as [_ _ _ _ Hex]. unfold dom_parse_error. apply wp_bind, wp_modify, wp_bind, wp_gets. simpl.
    rewrite Hex. destruct ex eqn:Eex; [|by apply wp_ret]. apply wp_fail. by exists id, what.
  - destruct H0 as (_ & Ha & He). unfold dom_parse_error. apply wp_bind, wp_modify, wp_bind, wp_gets. simpl.
    rewrite Ha. by apply wp_ret.
  - by destruct H.
Qed.
End instances.

(** The acceptor remembers nothing. *)
#[export] Instance acceptor_spec {F} `{Rules F} codes :
  SaxSpec (F := F) codes false (fun _ _ => True) (fun _ _ => True) (fun _ : unit => True).
Proof. split; by repeat constructor. Qed.

(** ** [parse] *)

Section parse.
Context {F : Type} `{NumberFloat F}.
Context (dp : Z) (Hdp : point_ok dp).

Lemma lexer_init_lx s comments : Forall is_byte s -> lx comments dp 0 npos s [] (lexer_init (F := F) s comments dp).
Proof. intros Hs. by split. Qed.

Section with_handler.
Context {S : Type} `{Sax F S} {ex : bool} {ready after : list bool -> S -> Prop} {failed : S -> Prop}.
Context {HS : SaxSpec json_codes ex ready after failed}.

Lemma parser_init_ok s comments (h : S) :
  Forall is_byte s ->
  exists p q, parser_init s comments dp h = Ok p /\ m_sax p = h /\ token_at comments dp q p.
Proof.
  intros Hs. unfold parser_init, get_token, with_lexer.
  pose proof (scan_ok comments dp Hdp 0 npos s [] _ (lexer_init_lx s comments Hs)) as Hscan.
  unfold wp in Hscan. unfold mbind, M_bind. simpl.
  destruct (scan (lexer_init s comments dp)) as [[t l]|f]; [|by destruct Hscan].
  destruct Hscan as (n' & d' & q' & b' & ? & ? & ? & ? & L' & Ht). simpl.
  eexists _, q'. split; [done|]. split; [done|]. by exists n', d', b'.
Qed.

Lemma sax_parse_internal_ok comments q (p : parser (F := F) (S := S)) :
  token_at comments dp q p -> ready [] (m_sax p) ->
  wp (thrown ex) sax_parse_internal p (fun r p' =>
    (exists q', reads comments dp q' p') /\ ((r = true /\ after [] (m_sax p')) \/ (r = false /\ failed (m_sax p')))).
Proof.
  intros Hp Hr. unfold sax_parse_internal. apply wp_bind.
  assert (wp nofault loop_fuel (m_lexer p) (fun k l => l = m_lexer p /\ (length q < k)%nat)) as Hk.
  { destruct Hp as (n & d & b & ? & L & _). eapply loop_fuel_lx; [exact L|]. auto. }
  unfold with_lexer at 1, wp at 1. unfold wp in Hk. destruct (loop_fuel (m_lexer p)) as [[k l]|f]; [|done].
  destruct Hk as [-> Hk]. destruct p as [t l s]. cbn [last_token m_lexer m_sax] in *.
  eapply (parse_loop_ok comments dp Hdp); [by split|]. left. lia.
Qed.
End with_handler.

(** The end of [parse]: the input must end. *)
Lemma parse_with_ok ex comments q (p : parser (F := F) (S := dom)) :
  token_at comments dp q p -> ready ex [] (m_sax p) ->
  wp (thrown ex) (parse_with true) p (fun _ p' => dom_ok ex [] (m_sax p') \/ dom_failed ex (m_sax p')).
Proof.
  intros Hp Hr. unfold parse_with. apply wp_bind.
  eapply wp_mono; [by eapply sax_parse_internal_ok|]. intros r p1 [[q1 Hq1] Hr1]. apply wp_bind.
  eapply wp_mono; [by apply (get_token_ok comments dp Hdp q1)|].
  intros t p2 (-> & Hsax & q2 & Hp2 & _). rewrite <- Hsax in Hr1. case_decide.
  - apply wp_ret. destruct Hr1 as [[_ Ha]|[_ Hf]]; [by left|by right].
  - apply wp_bind, message_ok. intros m. apply wp_bind. destruct Hr1 as [[_ Ha]|[_ Hf]].
    + eapply wp_mono; [eapply report_ok; [by eapply token_reads|exact Ha]|].
      intros b p3 (_ & Hf & _). apply wp_ret. by right.
    + eapply wp_mono; [by eapply report_again|]. intros b p3 (_ & Hf'). apply wp_ret. by right.
Qed.

End parse.

(** ** [accept] and [parse] agree

    A run with any handler whose events say yes and whose errors say no is the run
    with the acceptor, the handler erased. *)

Section erase.
Context {F S : Type} `{NumberFloat F} `{Sax F S}.

Definition erase (p : parser (F := F) (S := S)) : parser (F := F) (S := unit) :=
  Parser (last_token p) (m_lexer p) tt.

Definition erases {A} (m : M (parser (F := F) (S := S)) A) (m' : M (parser (F := F) (S := unit)) A) : Prop :=
  forall p a p1, m p = Ok (a, p1) -> m' (erase p) = Ok (a, erase p1).

Definition says (b : bool) (m : M S bool) : Prop := forall s a s', m s = Ok (a, s') -> a = b.

Lemma erases_ret {A} (a : A) : erases (mret a) (mret a).
Proof. intros p x p1 [= <- <-]. done. Qed.

Lemma erases_bind {A B} (m : M _ A) m' (k : A -> M _ B) k' :
  erases m m' -> (forall a, erases (k a) (k' a)) -> erases (m ≫= k) (m' ≫= k').
Proof.
  intros Hm Hk p b p2 Hp. apply bind_ok_inv in Hp as (a & p1 & H1 & H2).
  rewrite (bind_ok _ _ _ _ _ (Hm _ _ _ H1)). exact (Hk _ _ _ _ H2).
Qed.

Lemma erases_lexer {A} (m : M lexer A) : erases (with_lexer m) (with_lexer m).
Proof.
  intros p a p1. unfold with_lexer. simpl. destruct (m (m_lexer p)) as [[x l]|f]; [|done]. intros; by simplify_eq.
Qed.

Lemma erases_token : erases (gets last_token) (gets last_token).
Proof. intros p a p1 [= <- <-]. done. Qed.

Lemma erases_fail {A} f : erases (A := A) (fail f) (fail f).
Proof. done. Qed.

Lemma erases_sax b m (m' : M unit bool) : says b m -> m' = mret b -> erases (with_sax m) (with_sax m').
Proof.
  intros Hm -> p a p1. unfold with_sax. destruct (m (m_sax p)) as [[x s]|f] eqn:E; [|done].
  intros; simplify_eq. by rewrite (Hm _ _ _ E).
Qed.

Lemma erases_guard m (m' : M unit bool) k k' : says true m -> m' = mret true -> erases k k' -> erases (guard m k) (guard m' k').
Proof.
  intros Hm Hm' Hk. apply erases_bind; [by eapply erases_sax|]. intros []; [done|apply erases_ret].
Qed.

Lemma erases_get_token : erases get_token get_token.
Proof.
  apply erases_bind; [apply erases_lexer|]. intros t. apply erases_bind; [|intros; apply erases_ret].
  intros p a p1 [= <- <-]. done.
Qed.

(** The handler never refuses an event and never ignores an error. *)
Class Agreeable : Prop := {
  says_null : says true sax_null;
  says_boolean b : says true (sax_boolean b);
  says_integer n : says true (sax_number_integer n);
  says_unsigned n : says true (sax_number_unsigned n);
  says_float x t : says true (sax_number_float x t);
  says_string t : says true (sax_string t);
  says_start_object : says true (sax_start_object unknown_size);
  says_key k : says true (sax_key k);
  says_end_object : says true sax_end_object;
  says_start_array : says true (sax_start_array unknown_size);
  says_end_array : says true sax_end_array;
  says_error pos t f : says false (sax_parse_error pos t f)
}.
Context {HA : Agreeable}.

Create HintDb erases.
#[local] Hint Resolve erases_ret erases_lexer erases_token erases_get_token @erases_fail
  says_null says_boolean says_integer says_unsigned says_float says_string says_start_object says_key
  says_end_object says_start_array says_end_array says_error : erases.

Ltac erase_step :=
  match goal with
  | |- erases (mbind _ _) _ => apply erases_bind; [|intros]
  | |- erases (guard _ _) _ => apply erases_guard; [solve [auto with erases]|reflexivity|]
  | |- erases (with_sax _) _ => eapply erases_sax; [solve [auto with erases]|reflexivity]
  | |- erases (if ?b then _ else _) _ => destruct b
  | |- erases (match ?x with _ => _ end) _ => destruct x
  | |- erases (let _ := _ in _) _ => cbv zeta
  | |- _ => solve [auto with erases]
  end.

Lemma erases_message t c : erases (exception_message t c) (exception_message t c).
Proof. unfold exception_message. repeat erase_step. Qed.

Lemma erases_report m : erases (report m) (report m).
Proof. unfold report. repeat erase_step. Qed.
#[local] Hint Resolve erases_message erases_report : erases.

Lemma erases_unexpected t c : erases (unexpected t c) (unexpected t c).
Proof. unfold unexpected. repeat erase_step. Qed.
#[local] Hint Resolve erases_unexpected : erases.

Lemma erases_key states : erases (parse_key states) (parse_key states).
Proof. unfold parse_key. repeat erase_step. Qed.
#[local] Hint Resolve erases_key : erases.

Lemma erases_value states : erases (parse_value states) (parse_value states).
Proof.
  unfold parse_value, parse_begin_object, parse_begin_array, parse_float, parse_end_of_input. repeat erase_step.
Qed.

Lemma erases_after states : erases (after_value states) (after_value states).
Proof. unfold after_value, after_array_value, after_object_value. repeat erase_step. Qed.
#[local] Hint Resolve erases_value erases_after : erases.

Lemma erases_loop fuel states skip : erases (parse_loop fuel states skip) (parse_loop fuel states skip).
Proof.
  revert states skip; induction fuel as [|fuel IH]; intros states skip; [apply erases_fail|].
  simpl. unfold parse_round. repeat erase_step.
Qed.

Lemma erases_internal : erases sax_parse_internal sax_parse_internal.
Proof. unfold sax_parse_internal. apply erases_bind; [apply erases_lexer|]. intros. apply erases_loop. Qed.
End erase.

Arguments Agreeable F S {_}.

#[export] Instance dom_agreeable {F} : Agreeable F (dom (F := F)).
Proof.
  assert (forall {A} (m : M (dom (F := F)) A), says true (m;; mret true)) as Ht.
  { intros A m s a s' Hs. apply bind_ok_inv in Hs as (x & s1 & _ & [= <- <-]). done. }
  assert (forall {A} (m : M (dom (F := F)) A) k, (forall a, says true (k a)) -> says true (m ≫= k)) as Hb.
  { intros A m k Hk s a s' Hs. apply bind_ok_inv in Hs as (x & s1 & _ & H2). by eapply Hk. }
  assert (forall b (x : json F) len max_size message, says true (dom_end (F := F) b) /\ says true (dom_start x len max_size message)) as Hse.
  { intros b x len max_size message. split; apply Hb; intros; [apply Ht|]. apply Hb. intros. apply Ht. }
  split; simpl; intros; first [eapply (proj1 (Hse _ Jnull 0 0 []))|eapply (Hse (fun _ => true))|apply Ht|idtac].
  - apply Hb. intros [q c]. simpl. destruct c; try done. apply Hb. intros []. apply Ht.
  - intros s a s' Hs. apply bind_ok_inv in Hs as (x & s1 & _ & H2). apply bind_ok_inv in H2 as (y & s2 & _ & H3).
    destruct y; [done|]. by injection H3 as <- <-.
Qed.

Section accept.
Context {F : Type} `{NumberFloat F}.
Context (dp : Z) (Hdp : point_ok dp).

(** The report of what follows the value. *)
Definition reject {S} `{Sax F S} : M (parser (F := F) (S := S)) bool :=
  msg ← exception_message end_of_input "value"; report msg.

Lemma erases_reject : erases (F := F) (S := dom) reject reject.
Proof. apply erases_bind; [apply erases_message|]. intros. apply erases_report. Qed.

Lemma reject_ok comments q (p : parser (F := F) (S := dom)) :
  reads comments dp q p -> dom_ok false [] (m_sax p) \/ dom_failed false (m_sax p) ->
  exists p', reject p = Ok (false, p') /\ errored (m_sax p') = true.
Proof.
  intros Hq Hd.
  assert (wp (thrown false) reject p
    (fun b p' => b = false /\ dom_failed false (m_sax p'))) as Hw.
  { apply wp_bind, message_ok. intros m. destruct Hd.
    - eapply wp_mono; [by eapply report_ok|]. simpl. tauto.
    - by eapply report_again. }
  unfold wp in Hw. destruct (reject p) as [[b p']|f]; [|by destruct Hw as (? & ? & _ & ? & _)].
  destruct Hw as [-> [He _]]. by exists p'.
Qed.

(** C32 [accept] and [parse] without exceptions return on any bytes, and a text is
    accepted exactly when the value [parse] returns is not the discarded one. *)
Theorem accept_parse (s : list Z) (comments : bool) :
  Forall is_byte s ->
  exists b v, json_accept (F := F) dp s comments = Ok b /\ json_parse (F := F) dp s false comments = Ok v /\
    (b = true <-> v <> Jdiscarded).
Proof.
  intros Hs. unfold json_accept, json_parse.
  destruct (parser_init_ok dp Hdp s comments tt Hs) as (p' & q' & Hi' & _).
  destruct (parser_init_ok dp Hdp s comments (dom_init (F := F) false) Hs) as (p & q & Hi & Hsax & Hp).
  assert (p' = erase p) as ->.
  { unfold parser_init in *. destruct (get_token _) as [[t p2]|] eqn:E in Hi; [|done]. simplify_eq.
    apply erases_get_token in E. unfold erase in E at 1. simpl in E. rewrite E in Hi'. by simplify_eq. }
  rewrite Hi, Hi'. unfold sax_parse, parser_parse, parse_with.
  pose proof (sax_parse_internal_ok dp Hdp (HS := dom_spec false json_codes) comments q p Hp) as Hw. rewrite Hsax in Hw.
  specialize (Hw ltac:(by repeat constructor)). unfold wp in Hw.
  destruct (sax_parse_internal p) as [[r p1]|f] eqn:E1; [|by destruct Hw as (? & ? & _ & ? & _)].
  destruct Hw as [[q1 Hq1] Hr]. apply erases_internal in E1 as E1'.
  rewrite (bind_ok _ _ _ _ _ E1), (bind_ok _ _ _ _ _ E1').
  pose proof (get_token_ok (S := dom) (exceptions := false) comments dp Hdp q1 p1 Hq1) as Ht. unfold wp in Ht.
  destruct (get_token p1) as [[t p2]|f] eqn:E2; [|by destruct Ht as (? & ? & _ & ? & _)].
  destruct Ht as (-> & Hsax2 & q2 & Hp2 & _). apply erases_get_token in E2 as E2'.
  rewrite (bind_ok _ _ _ _ _ E2). rewrite <- Hsax2 in Hr.
  destruct Hr as [[-> Ha]|[-> (He & Hal & _)]]; simpl.
  - rewrite (bind_ok _ _ _ _ _ E2'). case_decide.
    + exists true, (root (m_sax p2)). simpl. destruct Ha as [Hwf _ _ Hne _]. rewrite Hne. split_and!; try done.
      split; [|done]. intros _ Hd. by rewrite Hd in Hwf.
    + destruct (reject_ok comments q2 p2) as (p3 & E3 & He3).
      { by apply token_reads. }
      { by left. }
      apply erases_reject in E3 as E3'. unfold reject in E3'. rewrite E3'. unfold reject in E3.
      apply bind_ok_inv in E3 as (msg & p4 & Em & Er).
      rewrite (bind_ok _ _ _ _ _ Em), (bind_ok _ _ _ _ _ Er). simpl. rewrite He3. by exists false, Jdiscarded.
  - case_decide.
    + simpl. rewrite He. by exists false, Jdiscarded.
    + destruct (reject_ok comments q2 p2) as (p3 & E3 & He3).
      { by apply token_reads. }
      { by right. }
      apply bind_ok_inv in E3 as (msg & p4 & Em & Er).
      rewrite (bind_ok _ _ _ _ _ Em), (bind_ok _ _ _ _ _ Er). simpl. rewrite He3. by exists false, Jdiscarded.
Qed.
End accept.

(** ** Witnesses

    Numbers that are their numerals, as any type of numbers with decimal digits. *)

Definition textual : NumberFloat (list Z) :=
  {| float_zero := str "0"; isfinite _ := true; strtof s := s; is_ieee_single_or_double := true;
     float_chars s := s; print_g s := s |}.

Lemma textual_point : point_ok cDOT.
Proof. done. Qed.



Lemma accept_parse_witness :
  Forall is_byte (str "{") /\
  exists b v, json_accept (H := textual) cDOT (str "{") false = Ok b /\ b = false /\
    json_parse (H := textual) cDOT (str "{") false false = Ok v /\ (b = true <-> v <> Jdiscarded).
Proof.
  assert (Forall is_byte (str "{")) as Hs by (by repeat constructor). split; [exact Hs|].
  destruct (accept_parse (H := textual) cDOT textual_point _ false Hs) as (b & v & Ha & Hp & Hbv).
  exists b, v. split; [exact Ha|]. split; [|by split]. vm_compute in Ha. by injection Ha as <-.
Defined.
