(* ===== verification/JsonNumeral.v ===== *)
(** JsonNumeral: decimal numerals.

    [to_string] as a recursion on the number, the value [strtoull] and [strtoll]
    find in it, and [dump_integer]: the digits land in the 64-byte buffer and the
    text written is the numeral. *)

From S2P Require Import Prelude Json JsonLexer JsonDump.

(** ** [to_string] *)

Lemma decimal_loop_enough f g n :
  (1 <= f)%nat -> (1 <= g)%nat -> 0 <= n < 2 ^ Z.of_nat f -> n < 2 ^ Z.of_nat g -> decimal_loop f n = decimal_loop g n.
Proof.
  revert g n; induction f as [|f IH]; intros [|g] n Hf Hg Hn Hg'; try lia. simpl. f_equal.
  destruct (n <? 10) eqn:E; [done|]. rewrite Nat2Z.inj_succ, Z.pow_succ_r in Hn, Hg' by lia.
  pose proof (Z.pow_nonneg 2 (Z.of_nat f) ltac:(lia)). pose proof (Z.pow_nonneg 2 (Z.of_nat g) ltac:(lia)).
  assert (1 <= n / 10 < 2 ^ Z.of_nat f) by div_lia. assert (n / 10 < 2 ^ Z.of_nat g) by div_lia.
  destruct f as [|f]; [change (2 ^ Z.of_nat 0) with 1 in *; lia|].
  destruct g as [|g]; [change (2 ^ Z.of_nat 0) with 1 in *; lia|].
  apply IH; lia.
Qed.

Lemma to_string_bound n : 0 <= n -> n < 2 ^ Z.of_nat (S (Z.to_nat (Z.log2 n))).
Proof.
  intros Hn. rewrite Nat2Z.inj_succ, Z2Nat.id by apply Z.log2_nonneg.
  destruct (decide (n = 0)) as [->|]; [done|]. apply Z.log2_spec. lia.
Qed.

Lemma to_string_small n : 0 <= n < 10 -> to_string n = [c0 + n].
Proof. intros Hn. unfold to_string. simpl. by rewrite (proj2 (Z.ltb_lt n 10)), Z.mod_small by lia. Qed.

Lemma to_string_step n : 10 <= n -> to_string n = to_string (n / 10) ++ [c0 + n mod 10].
Proof.
  intros Hn. unfold to_string at 1. simpl. rewrite (proj2 (Z.ltb_ge n 10)) by lia. f_equal.
  pose proof (to_string_bound n) as Hb. rewrite Nat2Z.inj_succ, Z.pow_succ_r in Hb by lia.
  assert (Z.to_nat (Z.log2 n) <> 0)%nat by (pose proof (Z.log2_le_mono 2 n ltac:(lia)) as H; change (Z.log2 2) with 1 in H; lia).
  apply decimal_loop_enough; [lia..|div_lia|apply to_string_bound; div_lia].
Qed.

(** Two digits at a time. *)
Lemma to_string_step2 n : 100 <= n -> to_string n = to_string (n / 100) ++ [c0 + n mod 100 / 10; c0 + n mod 100 mod 10].
Proof.
  intros Hn. rewrite to_string_step, (to_string_step (n / 10)) by div_lia. rewrite <- app_assoc. simpl.
  rewrite Z.div_div by lia. do 2 f_equal; [|do 2 f_equal]; div_lia.
Qed.

(** Induction on the digits. *)
Lemma digits_ind (P : Z -> Prop) :
  (forall n, 0 <= n < 10 -> P n) -> (forall n, 10 <= n -> P (n / 10) -> P n) -> forall n, 0 <= n -> P n.
Proof.
  intros H0 Hs n Hn. revert n Hn. apply Zlt_0_ind. intros n IH Hn.
  destruct (decide (n < 10)); [apply H0; lia|]. apply Hs; [lia|]. apply IH; div_lia.
Qed.

Lemma to_string_digits n : 0 <= n -> Forall (fun c => is_digit c = true) (to_string n).
Proof.
  revert n. apply digits_ind; intros n Hn.
  - rewrite to_string_small by lia. repeat constructor. unfold is_digit. lia.
  - intros IH. rewrite to_string_step by lia. apply Forall_app; split; [done|]. repeat constructor. unfold is_digit. div_lia.
Qed.

Lemma digits_value_snoc ds c : digits_value (ds ++ [c]) = 10 * digits_value ds + (c - c0).
Proof. unfold digits_value. by rewrite foldl_app. Qed.

Lemma to_string_value n : 0 <= n -> digits_value (to_string n) = n.
Proof.
  revert n. apply digits_ind; intros n Hn.
  - rewrite to_string_small by lia. unfold digits_value. simpl. lia.
  - intros IH. rewrite to_string_step, digits_value_snoc, IH by lia. div_lia.
Qed.

(** The first digit. *)
Lemma to_string_head n : 0 <= n -> exists c ds, to_string n = c :: ds /\ (c = c0 -> n = 0 /\ ds = []).
Proof.
  revert n. apply digits_ind; intros n Hn.
  - rewrite to_string_small by lia. exists (c0 + n), []. split; [done|]. intros. split; [lia|done].
  - intros (c & ds & Hd & Hc). rewrite to_string_step, Hd by lia. exists c, (ds ++ [c0 + n mod 10]).
    split; [done|]. intros [? _]%Hc. div_lia.
Qed.

(** A signed numeral. *)
Definition numeral (n : Z) : list Z := if n <? 0 then cMINUS :: to_string (- n) else to_string n.

(** ** [count_digits] *)

Definition width (n : Z) : Z := Z.of_nat (length (to_string n)).

Lemma width_small n : 0 <= n < 10 -> width n = 1.
Proof. intros Hn. unfold width. by rewrite to_string_small. Qed.

Lemma width_step n : 10 <= n -> width n = width (n / 10) + 1.
Proof. intros Hn. unfold width. rewrite to_string_step, length_app by lia. simpl. lia. Qed.

Lemma count_digits_loop_ok fuel x k :
  0 <= x < 10000 ^ Z.of_nat fuel -> fuel <> O -> count_digits_loop fuel x k = Some (k - 1 + width x).
Proof.
  revert x k; induction fuel as [|fuel IH]; intros x k Hx Hf; [done|]. simpl.
  destruct (x <? 10) eqn:E1; [rewrite width_small by lia; f_equal; lia|].
  destruct (x <? 100) eqn:E2; [rewrite width_step, width_small by div_lia; f_equal; lia|].
  destruct (x <? 1000) eqn:E3; [rewrite 2 width_step, width_small by div_lia; f_equal; lia|].
  destruct (x <? 10000) eqn:E4; [rewrite 3 width_step, width_small by div_lia; f_equal; lia|].
  rewrite Nat2Z.inj_succ, Z.pow_succ_r in Hx by lia.
  rewrite IH; [|div_lia|intros ->; change (10000 ^ Z.of_nat 0) with 1 in Hx; lia].
  rewrite (width_step x), (width_step (x / 10)), (width_step (x / 10 / 10)), (width_step (x / 10 / 10 / 10)) by div_lia.
  replace (x / 10 / 10 / 10 / 10) with (x / 10000) by (by rewrite !Z.div_div by lia). f_equal. lia.
Qed.

(** A 64-bit number has at most 20 digits. *)
Lemma width_bound n : in_u 64 n -> 1 <= width n <= 20.
Proof.
  intros [Hn Hb].
  assert (forall k : nat, forall m, 0 <= m < 10 ^ Z.of_nat (S k) -> 1 <= width m <= Z.of_nat (S k)) as H.
  { induction k as [|k IH]; intros m Hm; [rewrite width_small; [lia|change (10 ^ Z.of_nat 1) with 10 in Hm; lia]|].
    destruct (decide (m < 10)); [rewrite width_small; lia|]. rewrite width_step by lia.
    rewrite Nat2Z.inj_succ, Z.pow_succ_r in Hm by lia. specialize (IH (m / 10) ltac:(div_lia)). lia. }
  apply (H 19%nat). split; [done|]. eapply Z.lt_trans; [exact Hb|]. done.
Qed.
