(* ===== verification/JsonNumber.v ===== *)
(** JsonNumber: the numbers of JSON texts (RFC 8259), and how the lexer reads them.

    [number] is the parts of a number, [number_text] its text with a given decimal
    point.  The states of [scan_number] are followed as an automaton on the text
    ([number_path]); [scan_number_exact] gives the token and the value. *)

From S2P Require Import Prelude Json JsonLexer JsonLexProps JsonScan JsonNumeral.

(** ** The grammar *)

(** A number: its sign, the digits before and after the point ([] for none), and the
    letter, sign and digits of its exponent. *)
Record number := Number {
  minus : bool;
  whole : list Z;
  fraction : list Z;
  exponent : option (Z * list Z * list Z)
}.

Definition exponent_ok (ex : option (Z * list Z * list Z)) : Prop :=
  match ex with
  | Some (e, sg, ds) => is_exp e = true /\ (sg = [] \/ sg = [cPLUS] \/ sg = [cMINUS]) /\ digits ds
  | None => True
  end.

Record number_ok (x : number) : Prop := {
  ok_whole : digits (whole x);
  ok_zero : forall ds, whole x = c0 :: ds -> ds = [];
  ok_fraction : Forall (fun c => is_digit c = true) (fraction x);
  ok_exponent : exponent_ok (exponent x)
}.

Definition int_text (x : number) : list Z := (if minus x then [cMINUS] else []) ++ whole x.
Definition fraction_part (dp : Z) (x : number) : list Z := match fraction x with [] => [] | fs => dp :: fs end.
Definition exponent_part (x : number) : list Z :=
  match exponent x with Some (e, sg, ds) => e :: sg ++ ds | None => [] end.

(** The text of a number with the decimal point [dp]. *)
Definition number_text (dp : Z) (x : number) : list Z := int_text x ++ fraction_part dp x ++ exponent_part x.

(** Neither fraction nor exponent. *)
Definition plain (x : number) : bool := bool_decide (fraction x = []) && bool_decide (exponent x = None).

Definition int_type (x : number) : token_type := if minus x then value_integer else value_unsigned.

(** An integer that fits 64 bits, or a floating-point number. *)
Definition number_kind (x : number) : token_type :=
  if plain x then number_token (int_type x) (number_value (int_text x)) else value_float.

(** The integer [n], with the minus sign or without. *)
Definition integer (neg : bool) (n : Z) : number := Number neg (to_string n) [] None.

Lemma integer_ok neg n : 0 <= n -> number_ok (integer neg n).
Proof.
  intros Hn. destruct (to_string_head n Hn) as (c & ds & Hd & Hz). split; simpl; try done.
  - split; [by rewrite Hd|by apply to_string_digits].
  - intros ds'. rewrite Hd. intros [= -> ->]. by destruct (Hz eq_refl).
Qed.

Lemma integer_value neg n : 0 <= n -> number_value (int_text (integer neg n)) = if neg then - n else n.
Proof.
  intros Hn. assert (digits (to_string n)) as Hd.
  { split; [by destruct (to_string_head n Hn) as (c & ds & -> & _)|by apply to_string_digits]. }
  unfold int_text. destruct neg; cbn [integer minus whole app]; [simpl; by rewrite to_string_value|].
  destruct (strtoull_digits _ Hd) as [_ ->]. by apply to_string_value.
Qed.

Lemma integer_kind (neg : bool) n :
  0 <= n -> (if neg then n <= 2 ^ 63 else n < 2 ^ 64) -> number_kind (integer neg n) = if neg then value_integer else value_unsigned.
Proof.
  intros Hn Hr. unfold number_kind. change (plain (integer neg n)) with true. cbn [integer minus].
  rewrite integer_value by done. unfold int_type. destruct neg; simpl.
  - by rewrite (proj2 (Z.leb_le _ _)) by lia.
  - by rewrite (proj2 (Z.ltb_lt _ _)) by lia.
Qed.

Lemma integer_text dp neg n : number_text dp (integer neg n) = (if neg then [cMINUS] else []) ++ to_string n.
Proof. unfold number_text. cbn. by rewrite app_nil_r. Qed.

(** The integer of a token is in range. *)
Lemma number_kind_range x :
  number_ok x ->
  match number_kind x with
  | value_unsigned => in_u 64 (number_value (int_text x))
  | value_integer => in_s 64 (number_value (int_text x))
  | k => k = value_float
  end.
Proof.
  intros [Hd _ _ _]. unfold number_kind, int_type, int_text. destruct (plain x); [|done].
  pose proof (digits_value_nonneg _ (proj2 Hd)). destruct (minus x).
  - change (number_value ([cMINUS] ++ whole x)) with (- digits_value (whole x)). simpl. unfold in_s.
    destruct (- 2 ^ 63 <=? - digits_value (whole x)) eqn:E; [lia|done].
  - cbn [app]. destruct (strtoull_digits _ Hd) as [_ ->]. simpl. unfold in_u. destruct (digits_value (whole x) <? 2 ^ 64) eqn:E; [lia|done].
Qed.

(** The first character. *)
Lemma int_text_head x :
  number_ok x -> exists c w, int_text x = c :: w /\ (c = cMINUS \/ is_digit c = true).
Proof.
  intros [[Hn Hd] _ _ _]. unfold int_text. destruct (whole x) as [|c ds]; [done|]. apply Forall_cons in Hd as [Hc _].
  destruct (minus x); simpl; eexists _, _; (split; [done|]); auto.
Qed.

Lemma number_text_head dp x :
  number_ok x -> exists c w, number_text dp x = c :: w /\ (c = cMINUS \/ is_digit c = true).
Proof.
  intros Hx. destruct (int_text_head x Hx) as (c & w & Ht & Hc). unfold number_text. rewrite Ht. by eexists _, _.
Qed.

Lemma digit_byte c : is_digit c = true -> is_byte c.
Proof. unfold is_digit, is_byte, in_u. lia. Qed.

Lemma digits_all_bytes ds : Forall (fun c => is_digit c = true) ds -> Forall is_byte ds.
Proof. intros Hds. eapply Forall_impl; [exact Hds|]. apply digit_byte. Qed.

Lemma number_text_bytes dp x : is_byte dp -> number_ok x -> Forall is_byte (number_text dp x).
Proof.
  intros Hdp [[_ Hw] _ Hf He]. unfold number_text, int_text, fraction_part, exponent_part. rewrite !Forall_app. split_and!.
  - destruct (minus x); by repeat constructor.
  - by apply digits_all_bytes.
  - destruct (fraction x); [done|]. constructor; [done|]. by apply digits_all_bytes.
  - destruct (exponent x) as [[[e sg] ds]|]; [|done]. destruct He as (He & Hs & [_ Hds]).
    constructor; [unfold is_exp, is_byte, in_u in *; lia|]. apply Forall_app. split; [|by apply digits_all_bytes].
    destruct Hs as [->|[->| ->]]; by repeat constructor.
Qed.

(** The decimal point of the text replaced by that of the locale. *)
Definition localise (dp c : Z) : Z := if c =? cDOT then dp else c.

Lemma localise_id dp cs : Forall (fun c => c <> cDOT) cs -> map (localise dp) cs = cs.
Proof.
  induction 1 as [|c cs Hc _ IH]; [done|]. simpl. rewrite IH. unfold localise. by rewrite (proj2 (Z.eqb_neq c cDOT)) by done.
Qed.

Lemma digits_no_point ds : Forall (fun c => is_digit c = true) ds -> Forall (fun c => c <> cDOT) ds.
Proof. intros Hds. eapply Forall_impl; [exact Hds|]. intros c Hc ->. done. Qed.

Lemma number_text_localise dp x : number_ok x -> map (localise dp) (number_text cDOT x) = number_text dp x.
Proof.
  intros [[_ Hw] _ Hf He]. unfold number_text, int_text, fraction_part, exponent_part. rewrite !map_app. f_equal; [f_equal|f_equal].
  - by destruct (minus x).
  - by apply localise_id, digits_no_point.
  - destruct (fraction x) as [|f fs]; [done|]. rewrite map_cons. f_equal. by apply localise_id, digits_no_point.
  - destruct (exponent x) as [[[e sg] ds]|]; [|done]. destruct He as (He & Hs & [_ Hds]). apply localise_id.
    constructor; [intros ->; done|]. apply Forall_app. split; [|by apply digits_no_point].
    destruct Hs as [->|[->| ->]]; by repeat constructor.
Qed.

(** ** The automaton of [scan_number] *)

Definition number_next (l : number_label) (c : Z) : option number_label :=
  match l with
  | number_minus => if c =? c0 then Some number_zero else if is_digit c then Some number_any1 else None
  | number_zero => if c =? cDOT then Some number_decimal1 else if is_exp c then Some number_exponent else None
  | number_any1 =>
      if is_digit c then Some number_any1 else if c =? cDOT then Some number_decimal1
      else if is_exp c then Some number_exponent else None
  | number_decimal1 => if is_digit c then Some number_decimal2 else None
  | number_decimal2 => if is_digit c then Some number_decimal2 else if is_exp c then Some number_exponent else None
  | number_exponent =>
      if (c =? cPLUS) || (c =? cMINUS) then Some number_sign else if is_digit c then Some number_any2 else None
  | number_sign | number_any2 => if is_digit c then Some number_any2 else None
  end.

Definition number_accepts (l : number_label) : bool :=
  match l with number_zero | number_any1 | number_decimal2 | number_any2 => true | _ => false end.

Fixpoint number_path (l : number_label) (ty : token_type) (w : list Z) : option (number_label * token_type) :=
  match w with
  | [] => Some (l, ty)
  | c :: w => l' ← number_next l c; number_path l' (label_type l ty) w
  end.

Lemma number_path_app l ty w1 w2 :
  number_path l ty (w1 ++ w2) = '(l', ty') ← number_path l ty w1; number_path l' ty' w2.
Proof.
  revert l ty; induction w1 as [|c w1 IH]; intros l ty; simpl; [done|]. destruct (number_next l c); [|done]. apply IH.
Qed.

Lemma path_digits l ty ds :
  l ∈ [number_any1; number_decimal2; number_any2] -> Forall (fun c => is_digit c = true) ds -> number_path l ty ds = Some (l, ty).
Proof.
  intros Hl. induction 1 as [|c ds Hc _ IH]; [done|]. rewrite !elem_of_cons, elem_of_nil in Hl.
  repeat destruct Hl as [->|Hl]; try done; simpl; rewrite Hc; exact IH.
Qed.

(** The state after the first character. *)
Definition number_start (c : Z) : number_label :=
  if c =? cMINUS then number_minus else if c =? c0 then number_zero else number_any1.

Lemma path_whole x c w :
  number_ok x -> int_text x = c :: w ->
  exists l, number_path (number_start c) value_unsigned w = Some (l, int_type x) /\ l ∈ [number_zero; number_any1].
Proof.
  intros [[Hn Hd] Hz _ _] Ht. unfold int_text, int_type, number_start in *. destruct (whole x) as [|c' ds] eqn:Ew; [done|].
  apply Forall_cons in Hd as [Hc Hds].
  assert (exists l, number_path (if c' =? c0 then number_zero else number_any1) (if minus x then value_integer else value_unsigned) ds =
    Some (l, if minus x then value_integer else value_unsigned) /\ l ∈ [number_zero; number_any1]) as Hp.
  { destruct (c' =? c0) eqn:E.
    - rewrite (Hz ds) by (f_equal; lia). eexists. split; [done|set_solver].
    - eexists. split; [by apply path_digits; [set_solver|]|set_solver]. }
  destruct (minus x); simplify_eq/=.
  - destruct (c' =? c0); simpl; [exact Hp|]. by rewrite Hc.
  - assert ((c =? cMINUS) = false) as -> by (unfold is_digit in Hc; lia). exact Hp.
Qed.

Lemma path_fraction x l ty :
  number_ok x -> l ∈ [number_zero; number_any1] ->
  exists l', number_path l ty (fraction_part cDOT x) = Some (l', if bool_decide (fraction x = []) then ty else value_float) /\
    l' ∈ [number_zero; number_any1; number_decimal2].
Proof.
  intros [_ _ Hf _] Hl. unfold fraction_part. destruct (fraction x) as [|c fs]; [exists l; split; [done|set_solver]|].
  apply Forall_cons in Hf as [Hc Hfs]. exists number_decimal2. split; [|set_solver].
  assert (number_path number_decimal1 ty (c :: fs) = Some (number_decimal2, value_float)) as Hp.
  { simpl. rewrite Hc. simpl. by apply path_digits; [set_solver|]. }
  rewrite bool_decide_false by done. rewrite !elem_of_cons, elem_of_nil in Hl. repeat destruct Hl as [->|Hl]; try done.
Qed.

Lemma path_exponent x l ty :
  number_ok x -> l ∈ [number_zero; number_any1; number_decimal2] ->
  exists l', number_path l ty (exponent_part x) = Some (l', if bool_decide (exponent x = None) then ty else value_float) /\
    number_accepts l' = true.
Proof.
  intros [_ _ _ He] Hl. unfold exponent_part. destruct (exponent x) as [[[e sg] ds]|].
  - destruct He as (He & Hs & [Hn Hds]). exists number_any2. split; [|done]. rewrite bool_decide_false by done.
    assert (number_path number_exponent ty (sg ++ ds) = Some (number_any2, value_float)) as Hp.
    { destruct ds as [|c ds]; [done|]. apply Forall_cons in Hds as [Hc Hds].
      assert ((c =? cPLUS) || (c =? cMINUS) = false) as Hsg by (unfold is_digit in Hc; lia).
      destruct Hs as [->|[->| ->]]; simpl; rewrite ?Hsg, Hc; apply path_digits; done || set_solver. }
    assert (is_digit e = false /\ (e =? cDOT) = false) as [Hd Hp'] by (unfold is_exp, is_digit in *; lia).
    rewrite !elem_of_cons, elem_of_nil in Hl. repeat destruct Hl as [->|Hl]; try done; simpl; rewrite ?Hd, ?Hp', He; exact Hp.
  - exists l. split; [by rewrite bool_decide_true|]. rewrite !elem_of_cons, elem_of_nil in Hl. by repeat destruct Hl as [->|Hl].
Qed.

(** The automaton on the text of a number. *)
Lemma path_number x c w :
  number_ok x -> number_text cDOT x = c :: w ->
  exists l, number_path (number_start c) value_unsigned w = Some (l, if plain x then int_type x else value_float) /\
    number_accepts l = true.
Proof.
  intros Hx Ht. destruct (int_text_head x Hx) as (c' & w' & Hi & _). unfold number_text in Ht. rewrite Hi in Ht. simplify_eq/=.
  destruct (path_whole _ _ _ Hx Hi) as (l1 & H1 & Hl1).
  destruct (path_fraction x l1 (int_type x) Hx Hl1) as (l2 & H2 & Hl2).
  destruct (path_exponent x l2 (if bool_decide (fraction x = []) then int_type x else value_float) Hx Hl2) as (l3 & H3 & Hl3).
  exists l3. split; [|done]. rewrite number_path_app, H1. simpl. rewrite number_path_app, H2. simpl. rewrite H3.
  unfold plain. by repeat case_bool_decide.
Qed.

(** What may follow a number. *)
Definition stops (q : list Z) : Prop :=
  is_digit (hd EOF q) = false /\ is_exp (hd EOF q) = false /\ (hd EOF q =? cDOT) = false.

Section scan.
Context {F : Type} `{NumberFloat F} (ic : bool) (dp : Z).
Hypothesis Hdp : point_ok dp.
Implicit Types (st : lexer (F := F)) (p q b w : list Z) (n d : Z) (x : number).

Abbreviation lx := (lx ic dp).

Lemma add_goto_lx l n d p b c st (Q : number_goto -> lexer -> Prop) :
  lx n d p b st -> fresh c st -> is_byte c -> (forall st', lx n d p (b ++ [c]) st' -> Q (Goto l) st') ->
  wp nofault (add_goto l) st Q.
Proof.
  intros L Fr Hc HQ. unfold add_goto. wp_steps. rewrite (lx_current _ _ _ _ _ _ _ _ L Fr).
  eapply add_lx; [exact L|done|]. intros st' L'. wp_steps. by apply HQ.
Qed.

Lemma add_point_lx l n d p b st (Q : number_goto -> lexer -> Prop) :
  lx n d p b st -> (forall d' st', lx n d' p (b ++ [dp]) st' -> Q (Goto l) st') -> wp nofault (add_point l) st Q.
Proof.
  intros L HQ. destruct Hdp as [Hb _]. unfold add_point. wp_steps. assert (decimal_point_char st = dp) as -> by by destruct L.
  eapply add_lx; [exact L|done|]. intros st' []. wp_steps. by eapply HQ.
Qed.

(** One state of [scan_number] on a character the automaton takes. *)
Lemma number_state_next l l' c q n d b st :
  lx n d (c :: q) b st -> number_next l c = Some l' ->
  wp nofault (number_state l) st (fun g st' => g = Goto l' /\ exists d', lx n d' q (b ++ [localise dp c]) st').
Proof.
  intros L Hl. pose proof (lx_nonneg _ _ _ _ _ _ _ L). assert (is_byte c) as Hc by (by eapply lx_byte).
  assert (forall l2 st1, lx (n + 1) d q b st1 -> fresh c st1 -> c <> cDOT ->
    wp nofault (add_goto l2) st1 (fun g st' => g = Goto l2 /\ exists d', lx n d' q (b ++ [localise dp c]) st')) as Hadd.
  { intros l2 st1 L1 Fr1 Hne. eapply add_goto_lx; [exact L1|exact Fr1|done|]. intros st2 L2. split; [done|]. exists d.
    unfold localise. rewrite (proj2 (Z.eqb_neq c cDOT)) by done. eapply lx_weaken; [exact L2|lia]. }
  assert (forall l2 st1, lx (n + 1) d q b st1 -> c = cDOT ->
    wp nofault (add_point l2) st1 (fun g st' => g = Goto l2 /\ exists d', lx n d' q (b ++ [localise dp c]) st')) as Hpoint.
  { intros l2 st1 L1 ->. eapply add_point_lx; [exact L1|]. intros d' st2 L2. split; [done|]. exists d'.
    eapply lx_weaken; [exact L2|lia]. }
  destruct l; simpl in Hl |- *; unfold scan_number_minus, scan_number_zero, scan_number_any1, scan_number_decimal1,
      scan_number_decimal2, scan_number_exponent, scan_number_sign, scan_number_any2;
    wp_steps; (eapply get_lx; [exact L|]); intros st1 L1 Fr1; simpl in L1, Fr1 |- *;
    repeat case_match; simplify_eq;
    first [apply Hadd; [done|done|intros ->; done] | apply Hpoint; [done|lia]].
Qed.

(** An accepting state before what may follow. *)
Lemma number_state_end l q n d b st :
  lx n d q b st -> number_accepts l = true -> stops q ->
  wp nofault (number_state l) st (fun g st' => g = GotoDone /\ lx (n + 1) d (tail q) b st' /\ fresh (hd EOF q) st').
Proof.
  intros L Hl (Hd & He & Hp). destruct l; try done; simpl;
    unfold scan_number_zero, scan_number_any1, scan_number_decimal2, scan_number_any2;
    wp_steps; (eapply get_lx; [exact L|]); intros st1 L1 Fr1; rewrite ?Hd, ?Hp, ?He; by wp_steps.
Qed.

Lemma number_loop_path fuel l ty w q n d b st l' ty' :
  (length w < fuel)%nat -> number_path l ty w = Some (l', ty') -> number_accepts l' = true -> stops q -> lx n d (w ++ q) b st ->
  wp nofault (number_loop fuel l ty) st (fun r st' => r = Some ty' /\
    exists d', lx (n + 1) d' (tail q) (b ++ map (localise dp) w) st' /\ fresh (hd EOF q) st').
Proof.
  intros Hf Hp Hl Hq. revert fuel l ty d b st Hf Hp. induction w as [|c w IH]; intros [|fuel] l ty d b st Hf Hp L;
    simpl in Hf; try lia; simpl.
  - injection Hp as -> ->. wp_steps. eapply wp_mono; [by eapply number_state_end|]. intros g st1 (-> & L1 & Fr1). wp_steps.
    split; [by destruct l'|]. exists d. by rewrite app_nil_r.
  - simpl in Hp. destruct (number_next l c) as [l2|] eqn:En; [|done]. simpl in Hp. wp_steps.
    eapply wp_mono; [by eapply number_state_next|]. intros g st1 (-> & d1 & L1).
    eapply wp_mono; [eapply (IH fuel l2); [lia|exact Hp|exact L1]|]. intros r st2 (-> & d2 & L2 & Fr2). split; [done|].
    exists d2. by rewrite <- app_assoc in L2.
Qed.

Lemma scan_number_start c n d p st :
  (c = cMINUS \/ is_digit c = true) -> lx n d p [] st -> fresh c st ->
  wp nofault scan_number_init st (fun g st' => g = Goto (number_start c) /\ lx n d p [c] st').
Proof.
  intros Hc L Fr. unfold scan_number_init. wp_steps. rewrite (lx_current _ _ _ _ _ _ _ _ L Fr).
  assert (is_byte c) as Hb by (destruct Hc as [->|?]; [done|by apply digit_byte]).
  assert (forall l, wp nofault (add_goto l) st (fun g st' => g = Goto l /\ lx n d p [c] st')) as Hg.
  { intros l. eapply add_goto_lx; [exact L|exact Fr|done|]. by intros st2 L2. }
  unfold number_start. destruct (c =? cMINUS) eqn:E1; [apply Hg|]. destruct (c =? c0); [apply Hg|].
  destruct Hc as [->|Hc]; [done|]. rewrite Hc. apply Hg.
Qed.

(** What the lexer holds after a number. *)
Definition number_holds x st : Prop :=
  match number_kind x with
  | value_unsigned => number_unsigned st = number_value (int_text x)
  | value_integer => number_integer st = number_value (int_text x)
  | _ => number_float st = strtof (number_text dp x)
  end.

Lemma exact_holds x t st :
  number_exact (if plain x then int_type x else value_float) (number_text dp x) t st ->
  t = number_kind x /\ number_holds x st.
Proof.
  intros [-> Hh]. unfold number_holds, number_kind. destruct (plain x) eqn:Ep; [|done].
  assert (number_text dp x = int_text x) as Ht.
  { unfold plain in Ep. apply andb_prop in Ep as [Hf%bool_decide_eq_true He%bool_decide_eq_true].
    unfold number_text, fraction_part, exponent_part. rewrite Hf, He. by rewrite app_nil_r. }
  by rewrite Ht in *.
Qed.

Lemma lx_same n d p b n' d' p' b' st : lx n d p b st -> lx n' d' p' b' st -> d = d' /\ b = b'.
Proof. intros [] []. by subst. Qed.

Lemma scan_number_exact x c w q n d b st :
  number_ok x -> number_text cDOT x = c :: w -> stops q -> lx n d (w ++ q) b st -> fresh c st ->
  wp nofault scan_number st (fun t st' => t = number_kind x /\ number_holds x st' /\
    exists n' d', lx n' d' q (number_text dp x) st' /\ token_ok t d' (number_text dp x) st').
Proof.
  intros Hx Ht Hq L Fr. pose proof (lx_nonneg _ _ _ _ _ _ _ L). destruct (path_number x c w Hx Ht) as (l & Hp & Hl).
  assert (c = cMINUS \/ is_digit c = true) as Hc.
  { destruct (number_text_head cDOT x Hx) as (c' & w' & Ht' & Hc'). rewrite Ht in Ht'. by injection Ht' as <- _. }
  assert (c :: map (localise dp) w = number_text dp x) as Htx.
  { rewrite <- number_text_localise, Ht by done. simpl. f_equal. destruct Hc as [->|Hc]; [done|].
    unfold localise. rewrite (proj2 (Z.eqb_neq c cDOT)); [done|]. by intros ->. }
  unfold scan_number. wp_steps. eapply reset_lx; [exact L|exact Fr|]. intros st1 L1 Fr1. wp_steps.
  eapply wp_mono; [apply wp_conj; [by eapply scan_number_start|by eapply scan_number_init_ok]|].
  intros g st2 [[-> L2] (l0 & [= <-] & _ & Hinv)]. wp_steps. eapply loop_fuel_lx; [exact L2|]. intros k Hk. wp_steps.
  eapply wp_mono; [apply wp_conj; [eapply number_loop_path; [|exact Hp|done|done|exact L2]; rewrite length_app in Hk; lia|
    eapply number_loop_ok; [exact Hdp|exact Hk|exact L2|exact Hinv]]|].
  intros r st3 [(-> & d3 & L3 & Fr3) (n' & d' & p' & b' & _ & _ & L3' & _ & _ & Hdone)].
  destruct (lx_same _ _ _ _ _ _ _ _ _ L3 L3') as [<- <-]. cbn [app] in L3, Hdone. rewrite Htx in L3, Hdone.
  eapply wp_mono; [eapply (scan_number_done_ok ic dp Hdp _ n); [lia| |exact L3|exact Fr3|exact Hdone]|].
  { destruct L2. by apply Forall_app in lx_bytes as [_ ?]. }
  intros t st4 (L4 & Htok & Hex & _). destruct (exact_holds _ _ _ Hex) as [-> Hh]. split; [done|]. split; [done|]. by exists n, d3.
Qed.
End scan.
