(* ===== verification/JsonDumpInv.v ===== *)
(** JsonDumpInv: the state of the serializer between two writes, and the numbers.

    [sz out w]: the text [out] was written, the buffers have their lengths and the
    indentation string has at least [w] characters. *)

From S2P Require Import Prelude Json JsonLexer JsonDump JsonNumeral.

Section inv.
Context {F : Type} `{NumberFloat F} (ichar : Z) (handler : error_handler_t).
Implicit Types (st : serializer) (out pend t : list Z).

(** The indentation string: [indent_char], then what [resize] appended. *)
Definition indent_of (s : list Z) : Prop := exists k, s = replicate 512 ichar ++ replicate k cSPACE.

Record sz out (w : Z) st : Prop := Sz {
  sz_o : o st = out;
  sz_number : length (number_buffer st) = 64%nat;
  sz_string : length (string_buffer st) = 512%nat;
  sz_indent : indent_of (indent_string st);
  sz_room : 0 <= w <= Z.of_nat (length (indent_string st));
  sz_handler : error_handler st = handler
}.

Lemma sz_less out w w' st : 0 <= w' <= w -> sz out w st -> sz out w' st.
Proof. intros Hw []. split; try done. lia. Qed.

Lemma serializer_init_sz sep dp : sz [] 512 (serializer_init ichar handler sep dp).
Proof. split; try done. by exists O. Qed.

Context (E : fault -> Prop).

Lemma write_text_ok t out w st (Q : unit -> serializer -> Prop) :
  sz out w st -> (forall st', sz (out ++ t) w st' -> string_buffer st' = string_buffer st -> Q tt st') ->
  wp E (write_text t) st Q.
Proof. intros [] HQ. apply wp_modify, HQ; [|done]. split; simpl; by rewrite ?sz_o0. Qed.

Lemma write_characters_ok buf n out w st (Q : unit -> serializer -> Prop) :
  sz out w st -> 0 <= n <= Z.of_nat (length buf) ->
  (forall st', sz (out ++ take (Z.to_nat n) buf) w st' -> string_buffer st' = string_buffer st -> Q tt st') ->
  wp E (write_characters buf n) st Q.
Proof.
  intros Hst Hn HQ. unfold write_characters. rewrite (proj2 (Z.leb_le 0 n)), (proj2 (Z.leb_le n _)) by lia.
  by apply write_text_ok with out w.
Qed.

(** ** [dump_integer] *)

(** [number_buffer] is [b]. *)
Definition num b out w st : Prop := sz out w st /\ number_buffer st = b.

Lemma put_number_ok c pre x post ptr out w st (Q : unit -> serializer -> Prop) :
  num (pre ++ x :: post) out w st -> ptr = Z.of_nat (length pre) ->
  (forall st', num (pre ++ c :: post) out w st' -> Q tt st') -> wp E (put_number ptr c) st Q.
Proof.
  intros [Hst Hb] -> HQ. unfold put_number. apply wp_bind, wp_gets. rewrite Hb, length_app. simpl.
  rewrite (proj2 (Z.leb_le 0 _)), (proj2 (Z.ltb_lt _ _)) by lia. simpl. apply wp_modify, HQ.
  rewrite Nat2Z.id, insert_app_r_alt, Nat.sub_diag by lia. simpl.
  destruct Hst. split; [|done]. split; try done. simpl. rewrite <- sz_number0, Hb, !length_app. done.
Qed.

Lemma put_two_digits_ok i pre a b post ptr out w st (Q : unit -> serializer -> Prop) :
  num (pre ++ [a; b] ++ post) out w st -> ptr = Z.of_nat (length pre) + 2 ->
  (forall st', num (pre ++ [c0 + i / 10; c0 + i mod 10] ++ post) out w st' -> Q tt st') -> wp E (put_two_digits ptr i) st Q.
Proof.
  intros Hst -> HQ. unfold put_two_digits. simpl. apply wp_bind.
  apply (put_number_ok (c0 + i mod 10) (pre ++ [a]) b post _ out w);
    [by rewrite <- app_assoc|rewrite length_app; simpl; lia|].
  intros st1 H1. rewrite <- app_assoc in H1. by apply (put_number_ok (c0 + i / 10) pre a ((c0 + i mod 10) :: post) _ out w); [|lia|].
Qed.

Lemma split_two (mid : list Z) n : 2 + n <= Z.of_nat (length mid) -> 0 <= n ->
  exists m a b, mid = m ++ [a; b] /\ Z.of_nat (length m) = Z.of_nat (length mid) - 2.
Proof.
  intros Hl Hn. destruct mid as [|b mid] using rev_ind; [simpl in *; lia|]. clear IHmid.
  destruct mid as [|a mid] using rev_ind; [simpl in *; lia|]. clear IHmid.
  exists mid, a, b. rewrite <- app_assoc, !length_app in *. simpl. split; [done|lia].
Qed.

Lemma width_step2 n : 100 <= n -> width n = width (n / 100) + 2.
Proof. intros Hn. unfold width. rewrite to_string_step2, length_app by lia. simpl. lia. Qed.

Lemma width_pos n : 0 <= n -> 1 <= width n.
Proof. intros Hn. unfold width. destruct (to_string_head n Hn) as (c & ds & -> & _). simpl. lia. Qed.

Lemma digits_loop_ok fuel x pre mid post ptr out w st (Q : unit -> serializer -> Prop) :
  0 <= x < 100 ^ Z.of_nat fuel -> fuel <> O -> Z.of_nat (length mid) = width x ->
  ptr = Z.of_nat (length pre) + width x -> num (pre ++ mid ++ post) out w st ->
  (forall st', num (pre ++ to_string x ++ post) out w st' -> Q tt st') -> wp E (digits_loop fuel x ptr) st Q.
Proof.
  revert x mid post ptr st; induction fuel as [|fuel IH]; intros x mid post ptr st Hx Hf Hm Hp Hst HQ; [done|]. simpl.
  destruct (100 <=? x) eqn:E1.
  - rewrite Nat2Z.inj_succ, Z.pow_succ_r in Hx by lia. rewrite width_step2 in Hm, Hp by lia.
    pose proof (width_pos (x / 100) ltac:(div_lia)) as Hw.
    destruct (split_two mid (width (x / 100))) as (m & a & b & -> & Hl); [lia..|]. rewrite <- app_assoc in Hst.
    apply wp_bind. apply (put_two_digits_ok (x mod 100) (pre ++ m) a b post _ out w);
      [by rewrite <- app_assoc|rewrite length_app; lia|].
    intros st1 H1. rewrite <- app_assoc in H1.
    eapply (IH (x / 100) m _ (ptr - 2)); [div_lia| |lia|lia|exact H1|].
    { intros ->. change (100 ^ Z.of_nat 0) with 1 in Hx. lia. }
    intros st2 H2. apply HQ. rewrite to_string_step2, <- (app_assoc (to_string _)) by lia. exact H2.
  - destruct (10 <=? x) eqn:E2.
    + rewrite width_step, width_small in Hm, Hp by div_lia.
      destruct mid as [|a [|b [|]]]; try (simpl in *; lia). eapply (put_two_digits_ok x pre a b post _ out w); [done|lia|].
      intros st' H'. apply HQ. rewrite to_string_step, to_string_small by div_lia. exact H'.
    + rewrite width_small in Hm, Hp by lia. destruct mid as [|a [|]]; try (simpl in *; lia).
      eapply (put_number_ok _ pre a post _ out w); [done|lia|].
      intros st' H'. apply HQ. rewrite to_string_small by lia. exact H'.
Qed.

Lemma dump_assert_ok (b : bool) st (Q : unit -> serializer -> Prop) : b = true -> Q tt st -> wp E (dump_assert b) st Q.
Proof. by intros ->. Qed.

Lemma count_digits_ok x st (Q : Z -> serializer -> Prop) : in_u 64 x -> Q (width x) st -> wp E (count_digits x) st Q.
Proof.
  intros [Hx Hb] HQ. unfold count_digits. rewrite count_digits_loop_ok; [|split; [done|]; by eapply Z.lt_trans|done].
  by replace (1 - 1 + width x) with (width x) by lia.
Qed.

(** A minus sign in front of the digits, when there is one. *)
Lemma write_digits_ok x pre post mid out w st (Q : unit -> serializer -> Prop) :
  in_u 64 x -> Z.of_nat (length mid) = width x -> (length pre <= 1)%nat -> num (pre ++ mid ++ post) out w st ->
  (forall st', sz (out ++ pre ++ to_string x) w st' -> Q tt st') ->
  wp E (dump_assert (Z.of_nat (length pre) + width x <? 64 - 1);;
    digits_loop 10 x (Z.of_nat (length pre) + width x);;
    buf ← gets number_buffer; write_characters buf (Z.of_nat (length pre) + width x)) st Q.
Proof.
  intros Hx Hm Hpre Hst HQ. pose proof (width_bound x Hx) as Hw. apply wp_bind, dump_assert_ok; [lia|].
  apply wp_bind. eapply digits_loop_ok; [|done|exact Hm|done|exact Hst|].
  { destruct Hx. split; [done|]. by eapply Z.lt_trans. }
  intros st1 [H1 Hb]. apply wp_bind, wp_gets. rewrite Hb.
  eapply write_characters_ok; [exact H1|unfold width; rewrite !length_app; lia|].
  intros st2 H2 _. apply HQ. rewrite app_assoc, take_app_length' in H2; [done|].
  unfold width. rewrite length_app. lia.
Qed.

Lemma num_split n out w st : sz out w st -> 0 <= n <= 64 -> exists mid post, Z.of_nat (length mid) = n /\ num (mid ++ post) out w st.
Proof.
  intros Hst Hn. exists (take (Z.to_nat n) (number_buffer st)), (drop (Z.to_nat n) (number_buffer st)).
  rewrite length_take, (sz_number _ _ _ Hst). split; [lia|]. split; [done|]. by rewrite take_drop.
Qed.

(** [dump_integer] writes the numeral of any 64-bit number. *)
Lemma dump_integer_ok (signed : bool) n out w st (Q : unit -> serializer -> Prop) :
  (if signed then in_s 64 n else in_u 64 n) -> sz out w st ->
  (forall st', sz (out ++ numeral n) w st' -> Q tt st') -> wp E (dump_integer signed n) st Q.
Proof.
  intros Hn Hst HQ. unfold dump_integer, numeral in *. destruct (n =? 0) eqn:E0.
  { assert (n = 0) as -> by lia. eapply write_text_ok; [exact Hst|]. intros st' H' _. by apply HQ. }
  assert (is_negative_number signed n = (n <? 0)) as ->.
  { destruct signed; [done|]. destruct Hn. simpl. symmetry. lia. }
  destruct (n <? 0) eqn:En; apply wp_bind.
  - destruct signed; [|destruct Hn; lia]. unfold in_s in Hn. simpl in Hn.
    assert (in_u 64 (- n)) as Hu by (unfold in_u; lia). pose proof (width_bound _ Hu) as Hw.
    destruct (num_split (1 + width (- n)) _ _ _ Hst ltac:(lia)) as (mid & post & Hm & Hs).
    destruct mid as [|x mid]; [simpl in *; lia|].
    apply wp_bind. apply (put_number_ok cMINUS [] x (mid ++ post) 0 out w); [done|done|]. intros st1 H1.
    apply wp_bind. unfold remove_sign. apply wp_bind, dump_assert_ok; [lia|]. apply wp_ret.
    replace (u64 (u64 (- (n + 1)) + 1)) with (- n).
    2: { unfold u64. rewrite (uwrap_small 64 (- (n + 1))) by (unfold in_u in *; lia). rewrite uwrap_small; unfold in_u in *; lia. }
    apply wp_bind, count_digits_ok; [done|]. apply wp_ret. simpl.
    apply (write_digits_ok (- n) [cMINUS] post mid out w); [done|simpl in Hm; lia|done|done|exact HQ].
  - assert (in_u 64 n) as Hu by (destruct signed; [unfold in_s, in_u in *; simpl in *; lia|done]).
    pose proof (width_bound _ Hu) as Hw. apply wp_bind, count_digits_ok; [done|]. apply wp_ret. simpl.
    destruct (num_split (width n) _ _ _ Hst ltac:(lia)) as (mid & post & Hm & Hs).
    apply (write_digits_ok n [] post mid out w); [done|done|simpl; lia|done|exact HQ].
Qed.
End inv.
