(* ===== verification/JsonEscape.v ===== *)
(** JsonEscape: [dump_escaped] on any bytes.

    [repair] reads the characters of a byte string: an ill-formed sequence counts as
    the characters [bad], for its longest part that begins a character (the
    practice of the Unicode standard).  [dump_escaped] writes the escapes of these
    characters, within its buffer of 512 bytes; with [strict] it throws on the first
    ill-formed sequence. *)

From S2P Require Import Prelude Json JsonLexer JsonDump JsonUtf8 JsonNumeral JsonDumpInv.

(** ** Characters of a byte string *)

(** The codepoint of the bytes of a character. *)
Definition cp_of (bs : list Z) : Z := match bs with [] => 0 | b :: bs => complete (first_bits b) bs end.

(** [rs]: what the character begun by [acc] still expects. *)
Fixpoint repair (bad : list Z) (rs : list (Z * Z)) (acc s : list Z) : list Z :=
  match s with
  | [] => match acc with [] => [] | _ => bad end
  | b :: s =>
      match utf8_next rs b with
      | Some [] => cp_of (acc ++ [b]) :: repair bad [] [] s
      | Some rs => repair bad rs (acc ++ [b]) s
      | None =>
          bad ++
          match acc with
          | [] => repair bad [] [] s
          | _ =>
              match utf8_next [] b with
              | Some [] => cp_of [b] :: repair bad [] [] s
              | Some rs => repair bad rs [b] s
              | None => bad ++ repair bad [] [] s
              end
          end
      end
  end.

Lemma cp_of_encode cp : scalar cp = true -> cp_of (encode cp) = cp.
Proof.
  intros H%scalar_range. unfold encode. repeat case_match; unfold cp_of, complete, first_bits; simpl;
    repeat (case_match; try (exfalso; div_lia)); div_lia.
Qed.

(** The byte that is read again. *)
Lemma repair_again bad b acc s rs :
  acc <> [] -> utf8_next rs b = None -> repair bad rs acc (b :: s) = bad ++ repair bad [] [] (b :: s).
Proof. intros Ha Hn. simpl. rewrite Hn. destruct acc; [done|]. by destruct (utf8_next [] b) as [[]|]. Qed.

Definition partial (rs : list (Z * Z)) (acc : list Z) : Prop :=
  (rs = [] /\ acc = []) \/
  (rs <> [] /\ exists b bs rs1, acc = b :: bs /\ lead_ranges b = Some (rs1 ++ rs) /\ in_ranges rs1 bs).

Lemma in_ranges_snoc rs1 r bs b : in_ranges rs1 bs -> r.1 <= b <= r.2 -> in_ranges (rs1 ++ [r]) (bs ++ [b]).
Proof.
  revert bs; induction rs1 as [|r1 rs1 IH]; intros [|b1 bs] H1 Hb; simpl in *; try done. split; [tauto|]. apply IH; tauto.
Qed.

Lemma in_ranges_length rs bs : in_ranges rs bs -> length rs = length bs.
Proof. revert bs; induction rs as [|r rs IH]; intros [|b bs] H; simpl in *; try done. f_equal. apply IH. tauto. Qed.

Lemma partial_length rs acc : partial rs acc -> (length acc <= 3)%nat.
Proof.
  intros [[_ ->]|(Hne & b & bs & rs1 & -> & Hl & Hr)]; [simpl; lia|]. apply in_ranges_length in Hr. simpl.
  assert (length (rs1 ++ rs) <= 3)%nat as Hlen by (apply lead_ranges_inv in Hl; lead_cases Hl; simpl; lia).
  rewrite length_app in Hlen. destruct rs; [done|]. simpl in *. lia.
Qed.

Lemma lead_ranges_nil b : lead_ranges b <> Some [].
Proof. intros H%lead_ranges_inv. repeat destruct H as [[_ ?]|H]; [done..|by destruct H]. Qed.

Lemma partial_next rs acc b rs' :
  partial rs acc -> utf8_next rs b = Some rs' ->
  if decide (rs' = []) then exists cp, scalar cp = true /\ encode cp = acc ++ [b] else partial rs' (acc ++ [b]).
Proof.
  intros [[-> ->]|(Hne & b0 & bs & rs1 & -> & Hl & Hr)] Hn; simpl in Hn.
  - destruct ((0 <=? b) && (b <=? 127)) eqn:Eb.
    + simplify_eq. rewrite decide_True by done. exists b. split; [unfold scalar; lia|]. apply encode_ascii. lia.
    + destruct (decide (rs' = [])) as [->|Hne].
      * by apply lead_ranges_nil in Hn.
      * right. split; [done|]. by exists b, [], [].
  - destruct rs as [|r rs]; [done|]. simpl in Hn. destruct ((r.1 <=? b) && (b <=? r.2)) eqn:Eb; [|done]. simplify_eq.
    assert (in_ranges (rs1 ++ [r]) (bs ++ [b])) as Hr' by (apply in_ranges_snoc; [done|lia]).
    case_decide as Hd.
    + subst. destruct (ranges_encode _ _ _ Hl Hr') as (cp & Hs & _ & He). by exists cp.
    + right. split; [done|]. exists b0, (bs ++ [b]), (rs1 ++ [r]). rewrite <- app_assoc. done.
Qed.

(** ** The escape of a character *)

Definition escape_char (ensure_ascii : bool) (cp : Z) : list Z :=
  if cp =? 0x08 then [cBACKSLASH; c_b]
  else if cp =? 0x09 then [cBACKSLASH; c_t]
  else if cp =? 0x0A then [cBACKSLASH; c_n]
  else if cp =? 0x0C then [cBACKSLASH; c_f]
  else if cp =? 0x0D then [cBACKSLASH; c_r]
  else if cp =? 0x22 then [cBACKSLASH; cQUOTE]
  else if cp =? 0x5C then [cBACKSLASH; cBACKSLASH]
  else if (cp <=? 0x1F) || (ensure_ascii && (0x7F <=? cp)) then
    if cp <=? 0xFFFF then str "\u" ++ hex4 cp
    else str "\u" ++ hex4 (0xD7C0 + cp / 1024) ++ str "\u" ++ hex4 (0xDC00 + cp mod 1024)
  else encode cp.

Definition escape_text (ensure_ascii : bool) (cps : list Z) : list Z := cps ≫= escape_char ensure_ascii.

Lemma escape_char_length ea cp : scalar cp = true -> (length (escape_char ea cp) <= 12)%nat.
Proof.
  intros _. unfold escape_char, encode, hex4. repeat case_match; simpl; lia.
Qed.

Lemma escape_text_app ea a b : escape_text ea (a ++ b) = escape_text ea a ++ escape_text ea b.
Proof. apply bind_app. Qed.

(** What stands for an ill-formed sequence. *)
Definition bad_of (h : error_handler_t) : list Z := match h with replace => [0xFFFD] | _ => [] end.

Lemma replacement_text ea : replacement ea = escape_text ea [0xFFFD].
Proof. by destruct ea. Qed.

(** ** The buffer *)

Section escape.
Context {F : Type} `{NumberFloat F} (ichar : Z) (handler : error_handler_t).
Implicit Types (st : serializer) (out pend : list Z) (e : escaper).

(** [string_buffer] begins with [pend], [n] bytes. *)
Record esc pend (n : Z) out w st : Prop := Esc {
  esc_sz : sz ichar handler out w st;
  esc_pend : take (length pend) (string_buffer st) = pend;
  esc_n : n = Z.of_nat (length pend)
}.

Lemma esc_prefix pend t n m out w st :
  esc (pend ++ t) n out w st -> m = Z.of_nat (length pend) -> esc pend m out w st.
Proof.
  intros [Hs Hp _] ->. split; [done| |done]. rewrite length_app in Hp.
  rewrite <- (take_app_length pend t) at 2. rewrite <- Hp, take_take. by rewrite Nat.min_l by lia.
Qed.

Lemma esc_empty out w st : sz ichar handler out w st -> esc [] 0 out w st.
Proof. by split. Qed.

Context (E : fault -> Prop).

Lemma put_ok c pend n out w st (Q : Z -> serializer -> Prop) :
  esc pend n out w st -> (length pend < 512)%nat ->
  (forall n' st', esc (pend ++ [c]) n' out w st' -> Q n' st') -> wp E (put n c) st Q.
Proof.
  intros [Hs Hp ->] Hl HQ. unfold put. apply wp_bind, wp_gets. pose proof (sz_string _ _ _ _ _ Hs) as Hb.
  rewrite (proj2 (Z.leb_le 0 _)), (proj2 (Z.ltb_lt _ _)) by lia. simpl. apply wp_bind, wp_modify, wp_ret, HQ. split.
  - destruct Hs. split; try done. simpl. by rewrite length_insert.
  - simpl. rewrite Nat2Z.id, length_app. simpl. rewrite Nat.add_1_r.
    rewrite (take_S_r _ _ c) by (apply list_lookup_insert_eq; lia). by rewrite take_insert_ge, Hp by lia.
  - rewrite length_app. simpl. lia.
Qed.

Lemma put_all_ok cs pend n out w st (Q : Z -> serializer -> Prop) :
  esc pend n out w st -> (length pend + length cs <= 512)%nat ->
  (forall n' st', esc (pend ++ cs) n' out w st' -> Q n' st') -> wp E (put_all n cs) st Q.
Proof.
  revert pend n st; induction cs as [|c cs IH]; intros pend n st Hst Hl HQ; simpl in *.
  { apply wp_ret, HQ. by rewrite app_nil_r. }
  apply wp_bind. eapply put_ok; [exact Hst|lia|]. intros n' st' H'.
  eapply IH; [exact H'|rewrite length_app; simpl; lia|]. intros n2 st2 H2. apply HQ. by rewrite <- app_assoc in H2.
Qed.

Lemma put_snprintf_ok cs pend n out w st (Q : Z -> serializer -> Prop) :
  esc pend n out w st -> (length pend + length cs < 512)%nat ->
  (forall n' st', esc (pend ++ cs) n' out w st' -> Q n' st') -> wp E (put_snprintf n cs) st Q.
Proof.
  intros Hst Hl HQ. apply wp_bind. eapply put_all_ok; [exact Hst|lia|]. intros n1 st1 H1. apply wp_bind.
  eapply put_ok; [exact H1|rewrite length_app; lia|]. intros n2 st2 H2. apply wp_ret, HQ.
  eapply esc_prefix; [exact H2|]. by destruct H1.
Qed.

(** The bytes of a character that wait in the buffer. *)
Definition waiting (ensure_ascii : bool) (acc : list Z) : list Z := if ensure_ascii then [] else acc.

Lemma encode_one cp acc c : scalar cp = true -> encode cp = acc ++ [c] -> cp < 0x80 -> acc = [] /\ c = cp.
Proof. intros Hs%scalar_range He Hc. rewrite encode_ascii in He by lia. by destruct acc as [|? []]; simplify_eq/=. Qed.

Lemma u16_small n : 0 <= n < 65536 -> u16 n = n.
Proof. intros Hn. apply uwrap_small. done. Qed.

Lemma put_codepoint_ok ea cp acc c pre n out w st (Q : Z -> serializer -> Prop) :
  scalar cp = true -> encode cp = acc ++ [c] -> esc (pre ++ waiting ea acc) n out w st -> (length pre <= 499)%nat ->
  (length acc <= 3)%nat ->
  (forall n' st', esc (pre ++ escape_char ea cp) n' out w st' -> Q n' st') -> wp E (put_codepoint ea cp c n) st Q.
Proof.
  intros Hcp He Hst Hl Ha HQ. pose proof (scalar_range _ Hcp) as Hr.
  assert (cp < 0x80 -> esc pre n out w st) as Hsmall.
  { intros Hc. destruct (encode_one _ _ _ Hcp He Hc) as [-> _]. destruct ea; simpl in Hst; by rewrite app_nil_r in Hst. }
  unfold put_codepoint, escape_char in *.
  repeat (case_match; [eapply put_all_ok; [apply Hsmall; lia|simpl; lia|exact HQ]|]).
  case_match eqn:Eesc; [|eapply put_ok; [exact Hst|destruct ea; rewrite length_app; simpl; lia|]].
  - assert (esc pre n out w st) as Hpre.
    { destruct ea; [simpl in Hst; by rewrite app_nil_r in Hst|]. apply Hsmall. lia. }
    rewrite Z.shiftr_div_pow2 by lia. change 0x3FF with (2 ^ 10 - 1). rewrite land_mask by lia. change (2 ^ 10) with 1024.
    case_match; (eapply put_snprintf_ok; [exact Hpre|simpl; lia|]); intros n' st' H'; apply HQ.
    + by rewrite u16_small in H' by lia.
    + by rewrite !u16_small in H' by div_lia.
  - intros n' st' H'. apply HQ. rewrite <- app_assoc in H'. destruct ea; simpl in *; [|by rewrite He].
    destruct (encode_one _ _ _ Hcp He) as [-> ->]; [lia|]. by rewrite He.
Qed.

Lemma flush_full_ok pre n out w st (Q : Z -> serializer -> Prop) :
  esc pre n out w st ->
  (forall n' pre' out' st', esc pre' n' out' w st' -> out' ++ pre' = out ++ pre -> (length pre' <= 499)%nat -> Q n' st') ->
  wp E (flush_full n) st Q.
Proof.
  intros Hst HQ. pose proof Hst as [Hs Hp ->]. unfold flush_full. apply wp_bind, wp_gets.
  rewrite (sz_string _ _ _ _ _ Hs). case_match eqn:En.
  - apply wp_bind. eapply write_characters_ok; [exact Hs| |].
    { rewrite <- Hp, length_take. lia. }
    intros st' H' _. apply wp_ret. rewrite Nat2Z.id, Hp in H'.
    apply HQ with [] (out ++ pre); [by apply esc_empty|by rewrite app_nil_r|simpl; lia].
  - apply wp_ret, HQ with pre out; [done|done|change (Z.of_nat 512) with 512 in En; lia].
Qed.

(** ** The loop *)

(** Before the byte at [i]: the state of the decoder is at [acc], the bytes of an
    unfinished character. *)
Record at_char (acc : list Z) rs e : Prop := AtChar {
  at_partial : partial rs acc;
  at_state : (rs, state e) ∈ dfa_states;
  at_codepoint : forall bs cp, bs <> [] -> scalar cp = true -> encode cp = acc ++ bs -> decodes (state e) (codepoint e) bs cp;
  at_undumped : undumped_chars e = Z.of_nat (length acc)
}.

Lemma at_start cp n m : at_char [] [] (Escaper cp UTF8_ACCEPT n m 0).
Proof. split; [by left|by left| |done]. intros bs c _ Hc He. simpl in He. rewrite <- He. by apply decodes_encode. Qed.

(** [pre] is what is accepted, in the buffer. *)
Record loop_at (ea : bool) acc rs pre e out w st : Prop := LoopAt {
  loop_char : at_char acc rs e;
  loop_esc : esc (pre ++ waiting ea acc) (bytes e) out w st;
  loop_accepted : bytes_after_last_accept e = Z.of_nat (length pre);
  loop_bound : (length pre <= 499)%nat
}.

(** The decoder at the next byte. *)
Lemma decode_at acc rs e b :
  at_char acc rs e -> is_byte b ->
  exists s cp, decode (state e) (codepoint e) b = Some (s, cp) /\
    match utf8_next rs b with
    | Some [] => s = UTF8_ACCEPT /\ scalar cp = true /\ encode cp = acc ++ [b]
    | Some rs' => 1 < s /\ forall n m, at_char (acc ++ [b]) rs' (Escaper cp s n m (undumped_chars e + 1))
    | None => s = UTF8_REJECT
    end.
Proof.
  intros [Hp Hs Hc Hu] Hb. destruct (decode_next rs (state e) (codepoint e) b Hs Hb) as (s & cp & Hd & Hn).
  exists s, cp. split; [done|]. destruct (utf8_next rs b) as [rs'|] eqn:En; [|done]. destruct Hn as [Hs' _].
  pose proof (partial_next _ _ _ _ Hp En) as Hp'. destruct (dfa_state_cases _ _ Hs') as [[-> ->]|[H1 Hne]].
  - rewrite decide_True in Hp' by done. destruct Hp' as (cp' & Hcp' & He).
    specialize (Hc [b] cp' ltac:(done) Hcp' He). simpl in Hc. rewrite Hd in Hc. by simplify_eq.
  - rewrite decide_False in Hp' by done. destruct rs' as [|r rs']; [done|]. split; [done|]. intros n m. split; simpl; try done.
    + intros bs c Hbs Hcs He. rewrite <- app_assoc in He. specialize (Hc (b :: bs) c ltac:(done) Hcs He).
      destruct bs as [|b' bs]; [done|]. simpl in Hc. destruct Hc as (s' & v' & Hd' & _ & Hc). rewrite Hd in Hd'. by simplify_eq.
    + rewrite Hu, length_app. simpl. lia.
Qed.

(** What the loop still has to write. *)
Definition rest (ea : bool) rs acc s : list Z := escape_text ea (repair (bad_of handler) rs acc s).

Lemma escape_accept_ok ea cp acc b rs pre e out w st (Q : escaper -> serializer -> Prop) :
  loop_at ea acc rs pre e out w st -> scalar cp = true -> encode cp = acc ++ [b] ->
  (forall e' pre' out' st', loop_at ea [] [] pre' e' out' w st' -> out' ++ pre' = out ++ pre ++ escape_char ea cp -> Q e' st') ->
  wp E (escape_accept ea cp b e) st Q.
Proof.
  intros [Hat Hesc Hacc Hb] Hcp He HQ. apply wp_bind. eapply put_codepoint_ok; [exact Hcp|exact He|exact Hesc|done| |].
  { destruct Hat. by eapply partial_length. }
  intros n' st' H'. apply wp_bind. eapply flush_full_ok; [exact H'|]. intros n2 pre2 out2 st2 H2 Heq Hl. apply wp_ret.
  eapply HQ; [|exact Heq]. split; [apply at_start|by destruct ea; rewrite app_nil_r| |done]. by destruct H2.
Qed.

(** The exception of an ill-formed string. *)
Definition invalid_utf8 (f : fault) : Prop := exists what, f = type_error 316 what.

Lemma escape_reject_ok ea i cp b acc rs pre e out w st (Q : escaper * bool -> serializer -> Prop) :
  loop_at ea acc rs pre e out w st ->
  (handler = strict -> forall f, invalid_utf8 f -> E f) ->
  (forall e' pre' out' st', handler <> strict -> loop_at ea [] [] pre' e' out' w st' ->
    out' ++ pre' = out ++ pre ++ escape_text ea (bad_of handler) -> Q (e', negb (bool_decide (acc = []))) st') ->
  wp E (escape_reject ea i cp b e) st Q.
Proof.
  intros [Hat Hesc Hacc Hb] HE HQ. unfold escape_reject. apply wp_bind, wp_gets.
  pose proof Hesc as [Hsz _ _]. rewrite (sz_handler _ _ _ _ _ Hsz).
  assert ((0 <? undumped_chars e) = negb (bool_decide (acc = []))) as ->.
  { rewrite (at_undumped _ _ _ Hat). destruct acc; [done|]. rewrite bool_decide_eq_false_2 by done. done. }
  assert (esc pre (bytes_after_last_accept e) out w st) as Hpre by by eapply esc_prefix.
  destruct handler eqn:Eh.
  - apply wp_fail, HE; [done|]. by eexists.
  - apply wp_bind. eapply put_all_ok; [exact Hpre|destruct ea; simpl; lia|]. intros n1 st1 H1.
    apply wp_bind. eapply flush_full_ok; [exact H1|]. intros n2 pre2 out2 st2 H2 Heq Hl. apply wp_ret.
    apply HQ with pre2 out2; [done| |by rewrite Heq, replacement_text].
    split; [apply at_start|by destruct ea; rewrite app_nil_r| |done]. by destruct H2.
  - apply wp_ret. apply HQ with pre out; [done| |unfold escape_text; simpl; by rewrite app_nil_r].
    split; [apply at_start|by destruct ea; rewrite app_nil_r|done|done].
Qed.

(** The bytes that may be read again. *)
Definition again (acc : list Z) : nat := match acc with [] => O | _ => 1%nat end.

(** The escapes of the rest, the string being well-formed so far under [strict]. *)
Lemma escape_loop_ok fuel ea s i acc rs pre e out w st (Q : escaper -> serializer -> Prop) :
  Forall is_byte s -> (2 * length (drop i s) + again acc < fuel)%nat ->
  loop_at ea acc rs pre e out w st ->
  (handler = strict -> utf8_run [] s = utf8_run rs (drop i s)) ->
  (handler = strict -> ~ is_utf8 s -> forall f, invalid_utf8 f -> E f) ->
  (forall acc' rs' pre' e' out' st', loop_at ea acc' rs' pre' e' out' w st' ->
    out' ++ pre' ++ rest ea rs' acc' [] = out ++ pre ++ rest ea rs acc (drop i s) ->
    (handler = strict -> utf8_run [] s = bool_decide (rs' = [])) -> Q e' st') ->
  wp E (escape_loop fuel ea s i e) st Q.
Proof.
  intros Hs Hf Hat Hrun HE HQ. revert i acc rs pre e out st Hf Hat Hrun HQ.
  induction fuel as [|fuel IH]; intros i acc rs pre e out st Hf Hat Hrun HQ; [lia|]. simpl.
  destruct (s !! i) as [b|] eqn:Eb; swap 1 2.
  { apply wp_ret. rewrite drop_ge in * by (by apply lookup_ge_None). by eapply HQ. }
  rewrite (drop_S _ _ _ Eb) in Hf, Hrun, HQ. cbn [length] in Hf. cbn [utf8_run] in Hrun.
  assert (is_byte b) as Hb by (by eapply Forall_lookup_1).
  apply wp_bind. unfold escape_round. pose proof Hat as [Hc Hesc Hacc Hl].
  destruct (decode_at acc rs e b Hc Hb) as (s' & cp & -> & Hn).
  destruct (utf8_next rs b) as [rs'|] eqn:En.
  - destruct rs' as [|r rs'].
    + destruct Hn as (-> & Hcp & He). apply wp_bind. eapply escape_accept_ok; [exact Hat|exact Hcp|exact He|].
      intros e1 pre1 out1 st1 H1 Heq. apply wp_ret. cbn [fst snd]. eapply (IH _ [] []); [cbn [again]; lia|exact H1|done|].
      intros acc2 rs2 pre2 e2 out2 st2 H2 Heq2. eapply HQ; [done|]. rewrite Heq2, (app_assoc out1), Heq.
      unfold rest. cbn [repair]. rewrite En. rewrite <- He, cp_of_encode by done. by rewrite <- !app_assoc.
    + destruct Hn as (Hs1 & Hat'). rewrite (proj2 (Z.eqb_neq s' _)), (proj2 (Z.eqb_neq s' _)) by (unfold UTF8_ACCEPT, UTF8_REJECT; lia).
      apply wp_bind. unfold escape_partial. apply wp_bind.
      assert (forall n' st', esc (pre ++ waiting ea (acc ++ [b])) n' out w st' ->
        wp E (escape_loop fuel ea s (S i) (Escaper cp s' n' (bytes_after_last_accept e) (undumped_chars e + 1))) st' Q) as Hnext.
      { intros n' st' H'. eapply (IH _ (acc ++ [b])); [|by split|done|].
        - destruct acc; cbn [again app] in *; lia.
        - intros acc2 rs2 pre2 e2 out2 st2 H2 Heq2. eapply HQ; [done|]. rewrite Heq2. unfold rest. cbn [repair]. by rewrite En. }
      destruct ea.
      * apply wp_ret, wp_ret, wp_ret; cbn [fst snd]; apply Hnext. done.
      * eapply put_ok; [exact Hesc| |].
        { rewrite length_app. pose proof (partial_length _ _ (at_partial _ _ _ Hc)). simpl. lia. }
        intros n' st' H'. apply wp_ret, wp_ret; cbn [fst snd]; apply Hnext. by rewrite <- app_assoc in H'.
  - subst s'. simpl. eapply escape_reject_ok; [exact Hat| |].
    + intros Hh f Hf'. apply HE; [done| |done]. rewrite <- utf8_run_spec. by rewrite Hrun.
    + intros e1 pre1 out1 st1 Hh H1 Heq. destruct acc as [|a acc];
        [rewrite bool_decide_eq_true_2 by done|rewrite bool_decide_eq_false_2 by done]; cbn [fst snd negb].
      * eapply (IH _ [] []); [cbn [again]; lia|exact H1|done|].
        intros acc2 rs2 pre2 e2 out2 st2 H2 Heq2. eapply HQ; [done|]. rewrite Heq2, (app_assoc out1), Heq.
        unfold rest. cbn [repair]. rewrite En, escape_text_app. by rewrite <- !app_assoc.
      * eapply (IH _ [] []); [rewrite (drop_S _ _ _ Eb); cbn [length again] in *; lia|exact H1|done|].
        intros acc2 rs2 pre2 e2 out2 st2 H2 Heq2. eapply HQ; [done|]. rewrite Heq2, (app_assoc out1), Heq, (drop_S _ _ _ Eb).
        unfold rest. rewrite (repair_again _ _ (a :: acc)), escape_text_app by done. by rewrite <- !app_assoc.
Qed.

Lemma escape_end_ok ea s acc rs pre e out w st (Q : unit -> serializer -> Prop) :
  loop_at ea acc rs pre e out w st ->
  (handler = strict -> acc <> [] -> forall f, invalid_utf8 f -> E f) ->
  (forall st', (handler = strict -> acc = []) -> sz ichar handler (out ++ pre ++ rest ea rs acc []) w st' -> Q tt st') ->
  wp E (escape_end ea s e) st Q.
Proof.
  intros [Hat Hesc Hacc Hl] HE HQ. unfold escape_end. apply wp_bind, wp_gets. pose proof Hesc as [Hsz Hp Hn].
  destruct (dfa_state_cases _ _ (at_state _ _ _ Hat)) as [[-> ->]|[H1 Hne]].
  - destruct (at_partial _ _ _ Hat) as [[_ ->]|[? _]]; [|done]. unfold rest in HQ. simpl in HQ |- *.
    rewrite app_nil_r in HQ. assert (waiting ea [] = []) as Hw by (by destruct ea). rewrite Hw, app_nil_r in *.
    case_match.
    + eapply write_characters_ok; [exact Hsz|rewrite Hn, (sz_string _ _ _ _ _ Hsz); lia|].
      intros st' H' _. rewrite Hn, Nat2Z.id, Hp in H'. by apply HQ.
    + apply wp_ret, HQ; [done|]. destruct pre; [by rewrite app_nil_r|simpl in *; lia].
  - destruct (at_partial _ _ _ Hat) as [[? _]|[_ (b & bs & rs1 & -> & _)]]; [done|].
    rewrite (proj2 (Z.eqb_neq (state e) _)) by (unfold UTF8_ACCEPT; lia). apply wp_bind, wp_gets.
    rewrite (sz_handler _ _ _ _ _ Hsz). unfold rest in HQ. simpl in HQ.
    destruct (esc_prefix _ _ _ _ _ _ _ Hesc Hacc) as [_ Hp' _].
    assert (0 <= bytes_after_last_accept e <= Z.of_nat (length (string_buffer st))) as Hr
      by (rewrite Hacc, (sz_string _ _ _ _ _ Hsz); lia).
    destruct handler eqn:Eh.
    + apply wp_fail, HE; [done..|]. by eexists.
    + apply wp_bind. eapply write_characters_ok; [exact Hsz|exact Hr|]. intros st1 S1 _.
      eapply write_text_ok; [exact S1|]. intros st2 S2 _. apply HQ; [done|].
      rewrite Hacc, Nat2Z.id, Hp', replacement_text, <- app_assoc in S2. exact S2.
    + eapply write_characters_ok; [exact Hsz|exact Hr|]. intros st1 S1 _. apply HQ; [done|].
      rewrite Hacc, Nat2Z.id, Hp' in S1. by rewrite app_nil_r.
Qed.

(** [dump_escaped] *)
Lemma dump_escaped_ok s ea out w st (Q : unit -> serializer -> Prop) :
  Forall is_byte s -> sz ichar handler out w st ->
  (handler = strict -> ~ is_utf8 s -> forall f, invalid_utf8 f -> E f) ->
  (forall st', (handler = strict -> is_utf8 s) ->
    sz ichar handler (out ++ escape_text ea (repair (bad_of handler) [] [] s)) w st' -> Q tt st') ->
  wp E (dump_escaped s ea) st Q.
Proof.
  intros Hs Hsz HE HQ. unfold dump_escaped. apply wp_bind.
  eapply (escape_loop_ok _ ea s 0 [] [] [] _ out w); [done|rewrite drop_0; simpl; lia| |done|done|].
  { split; [apply at_start|destruct ea; by apply esc_empty|done|simpl; lia]. }
  intros acc rs pre e out' st' Hat Heq Hrun. rewrite drop_0 in Heq. simpl in Heq.
  assert (rs = [] <-> acc = []) as Hra.
  { destruct (at_partial _ _ _ (loop_char _ _ _ _ _ _ _ _ Hat)) as [[-> ->]|[? (? & ? & ? & -> & _)]]; done. }
  assert (handler = strict -> (is_utf8 s <-> acc = [])) as Hu.
  { intros Hh. by rewrite <- utf8_run_spec, (Hrun Hh), bool_decide_eq_true. }
  eapply escape_end_ok; [exact Hat| |].
  - intros Hh Ha. apply HE; [done|]. by rewrite (Hu Hh).
  - intros st2 Ha S2. apply HQ; [intros Hh; by apply (Hu Hh), Ha|]. by rewrite Heq in S2.
Qed.
End escape.

(** The characters of a well-formed string are its own. *)
Lemma repair_ranges bad rs acc bs s :
  in_ranges rs bs -> rs <> [] -> repair bad rs acc (bs ++ s) = cp_of (acc ++ bs) :: repair bad [] [] s.
Proof.
  revert rs acc; induction bs as [|b bs IH]; intros [|r rs] acc Hr Hne; try done.
  destruct Hr as [Hb Hr]. cbn [app repair utf8_next].
  rewrite (proj2 (Z.leb_le r.1 b)), (proj2 (Z.leb_le b r.2)) by lia. simpl.
  destruct rs as [|r' rs].
  - by destruct bs.
  - rewrite (IH (r' :: rs)), <- app_assoc by done. done.
Qed.

Lemma repair_utf8 bad cps :
  Forall (fun cp => scalar cp = true) cps -> repair bad [] [] (utf8_text cps) = cps.
Proof.
  induction 1 as [|cp cps Hcp _ IH]; [done|]. change (utf8_text (cp :: cps)) with (encode cp ++ utf8_text cps).
  destruct (decide (cp < 0x80)).
  - pose proof (scalar_range _ Hcp). rewrite encode_ascii by lia. simpl.
    rewrite (proj2 (Z.leb_le 0 cp)), (proj2 (Z.leb_le cp 127)) by lia. simpl. rewrite IH. f_equal.
    pose proof (cp_of_encode cp Hcp) as Hc. by rewrite encode_ascii in Hc by lia.
  - destruct (encode_ranges cp Hcp) as (b & bs & He & rs & Hl & Hr); [lia|]. rewrite He. simpl.
    pose proof Hl as Hb%lead_ranges_inv. assert (0xC2 <= b) by (clear -Hb; lead_cases Hb; lia).
    rewrite (proj2 (Z.leb_gt b 127)), andb_false_r, Hl by lia.
    destruct rs as [|r rs]; [by apply lead_ranges_nil in Hl|].
    rewrite repair_ranges by done. simpl app. by rewrite <- He, cp_of_encode, IH.
Qed.
