(* ===== verification/JsonDumpText.v ===== *)
(** JsonDumpText: the text [dump] writes.

    [dump_text] is the JSON text of a value, [json_dump_exact] that [dump] writes
    it; [json_dump_overflow] is the indentation the string of spaces is too short
    for. *)

From S2P Require Import Prelude Json JsonLexer JsonDump JsonUtf8 JsonNumeral JsonDumpInv JsonEscape.

(** ** The text *)

Fixpoint join (sep : list Z) (ts : list (list Z)) : list Z :=
  match ts with
  | [] => []
  | [t] => t
  | t :: ts => t ++ sep ++ join sep ts
  end.

Section text.
Context {F : Type} `{NumberFloat F} (ichar : Z) (handler : error_handler_t) (ensure_ascii : bool).
Implicit Types (v : json F).

(** The indentation string holds 512 times [indent_char], then spaces. *)
Definition indent_text (n : Z) : list Z :=
  take (Z.to_nat n) (replicate 512 ichar ++ replicate (Z.to_nat n) cSPACE).

Definition quoted_text (s : list Z) : list Z :=
  [cQUOTE] ++ escape_text ensure_ascii (repair (bad_of handler) [] [] s) ++ [cQUOTE].

Definition float_text (x : F) : list Z := if isfinite x then float_chars x else str "null".

(** The text between two brackets, [step] being the indentation step when the text
    is to be pretty. *)
Definition bracket_text (step : option Z) (cur : Z) (opening closing : list Z) (items : list (list Z)) : list Z :=
  match items, step with
  | [], _ => opening ++ closing
  | _, Some n =>
      opening ++ [cLF] ++ join [cCOMMA; cLF] ((fun t => indent_text (u32 (cur + n)) ++ t) <$> items) ++
      [cLF] ++ indent_text cur ++ closing
  | _, None => opening ++ join [cCOMMA] items ++ closing
  end.

Definition colon_text (step : option Z) : list Z := match step with Some _ => str ": " | None => str ":" end.
Definition inner (step : option Z) (cur : Z) : Z := match step with Some n => u32 (cur + n) | None => cur end.

Fixpoint dump_text (step : option Z) (cur : Z) v : list Z :=
  match v with
  | Jobject ms =>
      bracket_text step cur [cLBRACE] [cRBRACE]
        ((fun m => quoted_text m.1 ++ colon_text step ++ dump_text step (inner step cur) m.2) <$> ms)
  | Jarray vs => bracket_text step cur [cLBRACKET] [cRBRACKET] (dump_text step (inner step cur) <$> vs)
  | Jstring s => quoted_text s
  | Jbinary bs subtype =>
      let sub := match subtype with Some t => numeral t | None => str "null" end in
      let list sep := str "[" ++ join sep (numeral <$> bs) ++ str "]" in
      bracket_text step cur [cLBRACE] [cRBRACE]
        [key_text "bytes" ++ colon_text step ++ list (match step with Some _ => str ", " | None => str "," end);
         key_text "subtype" ++ colon_text step ++ sub]
  | Jboolean b => str (if b then "true" else "false")
  | Jnumber_integer n | Jnumber_unsigned n => numeral n
  | Jnumber_float x => float_text x
  | Jdiscarded => str "<discarded>"
  | Jnull => str "null"
  end.

(** Every string and key is UTF-8. *)
Fixpoint all_utf8 v : Prop :=
  match v with
  | Jobject ms => foldr (fun m P => (is_utf8 m.1 /\ all_utf8 m.2) /\ P) True ms
  | Jarray vs => foldr (fun v P => all_utf8 v /\ P) True vs
  | Jstring s => is_utf8 s
  | _ => True
  end.

(** A value of the C++ types: strings of bytes, 64-bit numbers. *)
Fixpoint typed v : Prop :=
  match v with
  | Jobject ms => foldr (fun m P => (Forall is_byte m.1 /\ typed m.2) /\ P) True ms
  | Jarray vs => foldr (fun v P => typed v /\ P) True vs
  | Jstring s => Forall is_byte s
  | Jbinary bs subtype => Forall is_byte bs /\ from_option (in_u 64) True subtype
  | Jnumber_integer n => in_s 64 n
  | Jnumber_unsigned n => in_u 64 n
  | _ => True
  end.

Lemma all_utf8_array vs : all_utf8 (Jarray vs) <-> Forall all_utf8 vs.
Proof. apply foldr_and. Qed.
Lemma all_utf8_object ms : all_utf8 (Jobject ms) <-> Forall (fun m => is_utf8 m.1 /\ all_utf8 m.2) ms.
Proof. apply (foldr_and (fun m => is_utf8 m.1 /\ all_utf8 m.2)). Qed.
Lemma typed_array vs : typed (Jarray vs) <-> Forall typed vs.
Proof. apply foldr_and. Qed.
Lemma typed_object ms : typed (Jobject ms) <-> Forall (fun m => Forall is_byte m.1 /\ typed m.2) ms.
Proof. apply (foldr_and (fun m => Forall is_byte m.1 /\ typed m.2)). Qed.
End text.

(** ** Writing *)

Section writes.
Context {F : Type} `{NumberFloat F} (ichar : Z) (handler : error_handler_t) (E : fault -> Prop).
Implicit Types (m k : M serializer unit) (t : list Z) (P : Prop) (w : Z).

Abbreviation sz := (sz ichar handler).

(** [m] writes [t], and then [P] holds. *)
Definition writes w m t P : Prop :=
  forall out st, sz out w st -> wp E m st (fun _ st' => P /\ sz (out ++ t) w st').

Lemma writes_bind w m k t u P R : writes w m t P -> writes w k u R -> writes w (m;; k) (t ++ u) (P /\ R).
Proof.
  intros Hm Hk out st Hst. apply wp_bind. eapply wp_mono; [by apply Hm|]. intros _ st1 [HP H1].
  eapply wp_mono; [by apply Hk|]. intros _ st2 [HR H2]. by rewrite app_assoc.
Qed.

Lemma writes_eq w m t t' P P' : writes w m t P -> t = t' -> (P -> P') -> writes w m t' P'.
Proof. intros Hm <- HP out st Hst. eapply wp_mono; [by apply Hm|]. intros _ st' [??]. split; auto. Qed.

Lemma writes_text w t : writes w (write_text t) t True.
Proof. intros out st Hst. by eapply write_text_ok; [exact Hst|]. Qed.

Lemma writes_nil w : writes w (mret tt) [] True.
Proof. intros out st Hst. apply wp_ret. by rewrite app_nil_r. Qed.

Lemma writes_integer w (signed : bool) n :
  (if signed then in_s 64 n else in_u 64 n) -> writes w (dump_integer signed n) (numeral n) True.
Proof. intros Hn out st Hst. by eapply dump_integer_ok; [exact Hn|exact Hst|]. Qed.

Lemma separated_cons {A} (f : A -> M serializer unit) sep x l :
  separated f sep (x :: l) = match l with [] => f x | _ => f x;; write_text sep;; separated f sep l end.
Proof. by destruct l. Qed.

Lemma join_cons sep t ts : join sep (t :: ts) = match ts with [] => t | _ => t ++ sep ++ join sep ts end.
Proof. by destruct ts. Qed.

Lemma writes_separated {A} w (f : A -> M serializer unit) (text : A -> list Z) (P : A -> Prop) sep l :
  Forall (fun x => writes w (f x) (text x) (P x)) l -> writes w (separated f sep l) (join sep (text <$> l)) (Forall P l).
Proof.
  induction 1 as [|x l Hx Hl IH]; [eapply writes_eq; [apply writes_nil|done|by constructor]|].
  rewrite separated_cons, fmap_cons, join_cons. destruct l as [|y l]; [eapply writes_eq; [exact Hx|done|by constructor]|].
  eapply writes_eq; [by apply writes_bind; [|apply writes_bind; [apply writes_text|]]|done|].
  intros (? & _ & ?). by constructor.
Qed.

(** The indentation string is long enough at indentation [cur]. *)
Definition level (step cur w : Z) : Prop := 0 <= step <= 1024 /\ 512 <= w < 2 ^ 32 /\ 0 <= cur <= w /\ (cur = 0 \/ step <= w).

Lemma indent_of_grow s : indent_of ichar s -> indent_of ichar (s ++ replicate (length s) cSPACE).
Proof. intros [k ->]. eexists. rewrite <- app_assoc, <- replicate_add. done. Qed.

Lemma writes_grow w n m t P :
  0 <= n <= 2 * w -> 512 <= w -> writes (Z.max w n) m t P -> writes w (grow_indent n;; m) t P.
Proof.
  intros Hn Hw Hm out st Hst. apply wp_bind, wp_modify. eapply wp_mono; [apply Hm|].
  - cbv zeta. destruct Hst. destruct (_ <? n) eqn:En; split; simpl; try done;
      [by apply indent_of_grow|rewrite length_app, length_replicate; lia|lia].
  - intros _ st' [HP Hst']. split; [done|]. eapply sz_less; [|exact Hst']. destruct Hst. lia.
Qed.

Lemma take_indent (k n : nat) : (n <= 512 + k)%nat ->
  take n (replicate 512 ichar ++ replicate n cSPACE) = take n (replicate 512 ichar ++ replicate k cSPACE).
Proof.
  intros Hn. rewrite !take_app, !take_replicate, !length_replicate. do 2 f_equal. lia.
Qed.

Lemma writes_indent w n : 0 <= n <= w -> writes w (write_indent n) (indent_text ichar n) True.
Proof.
  intros Hn out st Hst. apply wp_bind, wp_gets. pose proof (sz_room _ _ _ _ _ Hst) as Hr.
  destruct (sz_indent _ _ _ _ _ Hst) as [k Hk]. eapply write_characters_ok; [exact Hst|rewrite length_app; simpl; lia|].
  intros st' H' _. split; [done|]. rewrite take_app_le in H' by lia. rewrite Hk in H', Hr.
  rewrite length_app, !length_replicate in Hr. unfold indent_text.
  rewrite (take_indent k (Z.to_nat n)) by lia. exact H'.
Qed.
End writes.

(** ** [dump] *)

Section dump.
Context {F : Type} `{NumberFloat F} (ichar : Z) (handler : error_handler_t) (ensure_ascii : bool) (E : fault -> Prop).
Implicit Types (v : json F) (w step cur : Z).
Hypothesis Hieee : is_ieee_single_or_double = true.

Abbreviation writes := (writes ichar handler E).
Abbreviation text := (dump_text ichar handler ensure_ascii).

(** An ill-formed string may throw. *)
Definition may_throw (P : Prop) : Prop := handler = strict -> ~ P -> forall f, invalid_utf8 f -> E f.

Lemma may_throw_impl (P R : Prop) : may_throw P -> (P -> R) -> may_throw R.
Proof. intros HP HPR Hh HR. apply HP; auto. Qed.

Lemma writes_strict (P R : Prop) w m t :
  (P <-> R) -> may_throw P -> (may_throw R -> writes w m t (handler = strict -> R)) -> writes w m t (handler = strict -> P).
Proof.
  intros HPR HP HR. eapply writes_eq; [apply HR|done|tauto]. eapply may_throw_impl; [exact HP|tauto].
Qed.

Lemma writes_all {A} (P : A -> Prop) l w m t :
  writes w m t (Forall (fun x => handler = strict -> P x) l) -> writes w m t (handler = strict -> Forall P l).
Proof. intros Hw. eapply writes_eq; [exact Hw|done|]. intros Hall Hh. eapply Forall_impl; [exact Hall|]. auto. Qed.

Lemma writes_quoted w s :
  Forall is_byte s -> may_throw (is_utf8 s) ->
  writes w (quoted s ensure_ascii) (quoted_text handler ensure_ascii s) (handler = strict -> is_utf8 s).
Proof.
  intros Hs HE. assert (writes w (dump_escaped s ensure_ascii)
    (escape_text ensure_ascii (repair (bad_of handler) [] [] s)) (handler = strict -> is_utf8 s)) as He.
  { intros out st Hst. by eapply dump_escaped_ok; [done|exact Hst|done|]. }
  eapply writes_eq; [by apply writes_bind; [apply writes_text|]; apply writes_bind; [|apply writes_text]|done|].
  by intros (_ & ? & _).
Qed.

Lemma writes_float w x : writes w (dump_float x) (float_text x) True.
Proof. unfold dump_float, float_text. rewrite Hieee. destruct (isfinite x); apply writes_text. Qed.

Lemma level_next step cur w :
  level step cur w -> 0 <= u32 (cur + step) <= 2 * w /\ level step (u32 (cur + step)) (Z.max w (u32 (cur + step))).
Proof.
  unfold level. intros (Hs & Hw & Hc & Hz). unfold u32, uwrap.
  assert (0 <= (cur + step) mod 2 ^ 32 < 2 ^ 32) as Hm by (apply Z.mod_pos_bound; done).
  destruct (decide (cur + step < 2 ^ 32)).
  - rewrite (Z.mod_small (cur + step)) by lia. lia.
  - rewrite <- (Z.mod_add (cur + step) (-1)) in Hm |- * by done. rewrite (Z.mod_small (cur + step + _)) by lia. lia.
Qed.

Lemma bracket_pretty step cur opening closing items :
  items <> [] ->
  bracket_text ichar (Some step) cur opening closing items =
    opening ++ [cLF] ++ join [cCOMMA; cLF] ((fun t => indent_text ichar (u32 (cur + step)) ++ t) <$> items) ++
    [cLF] ++ indent_text ichar cur ++ closing.
Proof. by destruct items. Qed.

(** Between brackets, pretty. *)
Lemma writes_pretty {A} w step cur (f : A -> M serializer unit) (t : A -> list Z) (P : A -> Prop) opening closing l :
  level step cur w -> l <> [] ->
  Forall (fun x => writes (Z.max w (u32 (cur + step))) (f x) (t x) (P x)) l ->
  writes w (write_text (opening ++ [cLF]);;
    (let new_indent := u32 (cur + step) in
     grow_indent new_indent;;
     separated (fun x => write_indent new_indent;; f x) [cCOMMA; cLF] l;;
     write_character cLF;; write_indent cur;; write_character closing))
    (bracket_text ichar (Some step) cur opening [closing] (t <$> l)) (Forall P l).
Proof.
  intros Hl Hne Hf. destruct (level_next _ _ _ Hl) as [Hn Hl']. cbv zeta.
  eapply writes_eq.
  - apply writes_bind; [apply writes_text|]. apply writes_grow; [done|by destruct Hl as (_ & ? & _); lia|].
    apply writes_bind; [|apply writes_bind; [apply writes_text|]; apply writes_bind; [|apply writes_text]].
    + apply writes_separated with (text := fun x => indent_text ichar (u32 (cur + step)) ++ t x) (P := fun x => True /\ P x).
      eapply Forall_impl; [exact Hf|]. intros x Hx. apply writes_bind; [|exact Hx]. apply writes_indent. lia.
    + apply writes_indent. destruct Hl as (_ & _ & ? & _). lia.
  - rewrite bracket_pretty by (by destruct l). rewrite <- list_fmap_compose, <- !app_assoc. done.
  - intros (_ & Hall & _). eapply Forall_impl; [exact Hall|]. tauto.
Qed.

(** Between brackets, compact. *)
Lemma writes_compact {A} w cur (f : A -> M serializer unit) (t : A -> list Z) (P : A -> Prop) opening closing l :
  l <> [] -> Forall (fun x => writes w (f x) (t x) (P x)) l ->
  writes w (write_character opening;; separated f [cCOMMA] l;; write_character closing)
    (bracket_text ichar None cur [opening] [closing] (t <$> l)) (Forall P l).
Proof.
  intros Hne Hf. eapply writes_eq.
  - apply writes_bind; [apply writes_text|]. apply writes_bind; [by apply writes_separated|apply writes_text].
  - by destruct l as [|x l].
  - tauto.
Qed.

Lemma writes_subtype w subtype :
  from_option (in_u 64) True subtype ->
  writes w (match subtype with Some t => dump_integer false t | None => write_text (str "null") end)
    (match subtype with Some t => numeral t | None => str "null" end) True.
Proof. destruct subtype as [n|]; simpl; intros Hn; [by apply writes_integer|apply writes_text]. Qed.

Lemma writes_bytes w sep bs :
  Forall is_byte bs -> writes w (separated (dump_integer false) sep bs) (join sep (numeral <$> bs)) True.
Proof.
  intros Hb. eapply writes_eq; [apply writes_separated with (text := numeral) (P := fun _ => True)|done|done].
  eapply Forall_impl; [exact Hb|]. intros b [H1 H2]. apply writes_integer. split; [done|]. eapply Z.lt_trans; [exact H2|done].
Qed.

(** Concatenations to the right. *)
Ltac flatten := simpl; repeat progress (rewrite <- ?app_assoc; cbn [app]).

Definition step_of (pretty : bool) step : option Z := if pretty then Some step else None.

Lemma writes_binary (pretty : bool) step cur w bs subtype :
  Forall is_byte bs -> from_option (in_u 64) True subtype -> (pretty = true -> level step cur w) ->
  writes w (dump_binary pretty step cur bs subtype) (text (step_of pretty step) cur (Jbinary bs subtype)) True.
Proof.
  intros Hb Hs Hl. unfold dump_binary. destruct pretty; cbv zeta.
  - specialize (Hl eq_refl). destruct (level_next _ _ _ Hl) as [Hn _]. destruct Hl as (_ & Hw & Hc & _). eapply writes_eq.
    + apply writes_bind; [apply writes_text|]. apply writes_grow; [done|lia|].
      apply writes_bind; [apply writes_indent; lia|]. apply writes_bind; [apply writes_text|].
      apply writes_bind; [by apply writes_bytes|]. apply writes_bind; [apply writes_text|].
      apply writes_bind; [apply writes_indent; lia|]. apply writes_bind; [apply writes_text|].
      apply writes_bind; [by apply writes_subtype|]. apply writes_bind; [apply writes_text|].
      apply writes_bind; [apply writes_indent; lia|]. apply writes_text.
    + by flatten.
    + done.
  - eapply writes_eq.
    + apply writes_bind; [apply writes_text|]. apply writes_bind; [by apply writes_bytes|].
      apply writes_bind; [apply writes_text|]. apply writes_bind; [by apply writes_subtype|]. apply writes_text.
    + by flatten.
    + done.
Qed.

(** [dump] *)
Lemma writes_dump v (pretty : bool) step cur w :
  typed v -> may_throw (all_utf8 v) -> (pretty = true -> level step cur w) ->
  writes w (dump v pretty ensure_ascii step cur) (text (step_of pretty step) cur v) (handler = strict -> all_utf8 v).
Proof.
  revert cur w. induction v as [|ms IH|vs IH|s|b|n|n|x|bs subtype|] using json_ind; intros cur w Ht HE Hl.
  - eapply writes_eq; [apply writes_text|done|done].
  - rewrite Forall_forall in IH. rewrite typed_object, Forall_forall in Ht. eapply writes_strict; [apply all_utf8_object|exact HE|]. clear HE. intros HE.
    assert (forall sep cur' w', (pretty = true -> level step cur' w') -> Forall (fun m =>
      writes w' (quoted m.1 ensure_ascii;; write_text sep;; dump m.2 pretty ensure_ascii step cur')
        (quoted_text handler ensure_ascii m.1 ++ sep ++ text (step_of pretty step) cur' m.2)
        (handler = strict -> is_utf8 m.1 /\ all_utf8 m.2)) ms) as Hf.
    { intros sep cur' w' Hl'. apply Forall_forall. intros m Hm. destruct (Ht m Hm) as [Hk Hv].
      assert (may_throw (is_utf8 m.1 /\ all_utf8 m.2)) as HE'.
      { eapply may_throw_impl; [exact HE|]. rewrite Forall_forall. intros Hall. by apply Hall. }
      assert (writes w' (quoted m.1 ensure_ascii) (quoted_text handler ensure_ascii m.1) (handler = strict -> is_utf8 m.1)) as Hq.
      { apply writes_quoted; [done|]. eapply may_throw_impl; [exact HE'|]. by intros []. }
      assert (may_throw (all_utf8 m.2)) as HE2 by (eapply may_throw_impl; [exact HE'|]; by intros []).
      eapply writes_eq; [exact (writes_bind _ _ _ _ _ _ _ _ _ _ Hq (writes_bind _ _ _ _ _ _ _ _ _ _ (writes_text _ _ _ _ sep) (IH m Hm cur' w' Hv HE2 Hl')))|done|].
      intros (H1 & _ & H2) Hh. split; auto. }
    destruct ms as [|m ms]; [eapply writes_eq; [apply writes_text|by destruct pretty|done]|].
    apply writes_all.
    destruct pretty.
    + apply (writes_pretty w step cur _ _ _ [cLBRACE] cRBRACE (m :: ms)); [by apply Hl|done|].
      apply (Hf (str ": ")). intros _. by apply level_next, Hl.
    + apply (writes_compact w cur _ _ _ cLBRACE cRBRACE (m :: ms)); [done|]. by apply (Hf (str ":")).
  - rewrite Forall_forall in IH. rewrite typed_array, Forall_forall in Ht. eapply writes_strict; [apply all_utf8_array|exact HE|]. clear HE. intros HE.
    assert (forall cur' w', (pretty = true -> level step cur' w') -> Forall (fun v =>
      writes w' (dump v pretty ensure_ascii step cur') (text (step_of pretty step) cur' v) (handler = strict -> all_utf8 v)) vs) as Hf.
    { intros cur' w' Hl'. apply Forall_forall. intros v Hv. apply IH; [done|by apply Ht| |done].
      eapply may_throw_impl; [exact HE|]. rewrite Forall_forall. intros Hall. by apply Hall. }
    destruct vs as [|v vs]; [eapply writes_eq; [apply writes_text|by destruct pretty|done]|].
    apply writes_all.
    destruct pretty.
    + apply (writes_pretty w step cur _ _ _ [cLBRACKET] cRBRACKET (v :: vs)); [by apply Hl|done|].
      apply Hf. intros _. by apply level_next, Hl.
    + apply (writes_compact w cur _ _ _ cLBRACKET cRBRACKET (v :: vs)); [done|]. by apply Hf.
  - by apply writes_quoted.
  - eapply writes_eq; [apply writes_text|done|done].
  - eapply writes_eq; [by apply writes_integer|done|done].
  - eapply writes_eq; [by apply writes_integer|done|done].
  - eapply writes_eq; [apply writes_float|done|done].
  - destruct Ht as [Hb Hs]. eapply writes_eq; [by apply writes_binary|done|done].
  - eapply writes_eq; [apply writes_text|done|done].
Qed.
End dump.

(** ** [basic_json::dump] *)

Section public.
Context {F : Type} `{NumberFloat F}.
Implicit Types (v : json F).

(** What [dump] returns. *)
Lemma json_dump_writes v (sep dp indent ichar : Z) (ensure_ascii : bool) (handler : error_handler_t) :
  is_ieee_single_or_double = true -> typed v -> indent <= 1024 ->
  match json_dump sep dp v indent ichar ensure_ascii handler with
  | Ok t =>
      t = dump_text ichar handler ensure_ascii (if 0 <=? indent then Some indent else None) 0 v /\
      (handler = strict -> all_utf8 v)
  | Fault f => handler = strict /\ ~ all_utf8 v /\ invalid_utf8 f
  end.
Proof.
  intros Hieee Hv Hi. unfold json_dump.
  set (m := if 0 <=? indent then dump v true ensure_ascii (u32 indent) 0 else dump v false ensure_ascii 0 0).
  set (E := fun f => handler = strict /\ ~ all_utf8 v /\ invalid_utf8 f).
  assert (may_throw handler E (all_utf8 v)) as HE by done.
  pose proof (serializer_init_sz ichar handler sep dp) as Hst.
  assert (writes ichar handler E 512 m
    (dump_text ichar handler ensure_ascii (if 0 <=? indent then Some indent else None) 0 v)
    (handler = strict -> all_utf8 v)) as Hw.
  { subst m. destruct (0 <=? indent) eqn:E0.
    - unfold u32. rewrite uwrap_small by (unfold in_u; lia).
      apply (writes_dump ichar handler ensure_ascii E Hieee v true); [done|done|]. intros _. unfold level. lia.
    - by apply (writes_dump ichar handler ensure_ascii E Hieee v false). }
  specialize (Hw _ _ Hst). unfold wp in Hw. simpl in Hw.
  destruct (m _) as [[[] st]|f]; [|exact Hw].
  destruct Hw as [Hu Hst']. split; [by destruct Hst'|done].
Qed.


Lemma grow_indent_run n st :
  Z.of_nat (length (indent_string st)) < n ->
  grow_indent n st = Ok (tt, set_indent_string (indent_string st ++ replicate (length (indent_string st)) cSPACE) st).
Proof. intros Hn. unfold grow_indent, modify. by rewrite (proj2 (Z.ltb_lt _ n)). Qed.

(** The indentation string is doubled once: at an indentation of more than 1025
    [dump] reads past its end before it writes the first element of an array,
    whatever the array. *)
Theorem json_dump_overflow v vs (sep dp indent ichar : Z) (ensure_ascii : bool) (handler : error_handler_t) :
  1026 <= indent < 2 ^ 31 ->
  json_dump sep dp (Jarray (v :: vs)) indent ichar ensure_ascii handler = Fault OutOfBounds.
Proof.
  intros Hi. unfold json_dump. rewrite (proj2 (Z.leb_le 0 indent)) by lia.
  set (st0 := serializer_init _ _ _ _).
  assert (wp (eq OutOfBounds) (dump (Jarray (v :: vs)) true ensure_ascii (u32 indent) 0) st0 (fun _ _ => False)) as Hw.
  { apply wp_bind, wp_modify, wp_bind. set (st1 := set_o _ _). rewrite Z.add_0_l.
    assert (u32 indent = indent) as Hu by (apply uwrap_small; unfold in_u; lia). rewrite !Hu.
    eapply wp_run; [apply grow_indent_run; change (length (indent_string st1)) with 512%nat; lia|].
    apply wp_bind. rewrite separated_cons.
    assert (wp (eq OutOfBounds) (write_indent indent) (set_indent_string (replicate 512 ichar ++ replicate 512 cSPACE) st1)
      (fun _ _ => False)) as Hi'.
    { apply wp_bind, wp_gets. unfold set_indent_string. cbn [indent_string]. unfold write_characters.
      rewrite !length_app, !length_replicate. cbn [length].
      rewrite (proj2 (Z.leb_gt indent _)) by lia. by rewrite andb_false_r. }
    destruct vs; [|apply wp_bind]; apply wp_bind; (eapply wp_mono; [exact Hi'|done]). }
  unfold wp in Hw. destruct (dump _ _ _ _ _ st0) as [[]|f]; [done|]. by rewrite Hw.
Qed.
End public.
