(* ===== verification/JsonText.v ===== *)
(** JsonText: the grammar of JSON texts (RFC 8259), and the tokens of such a text as
    the lexer reads them. *)

From S2P Require Import Prelude Json JsonLexer JsonDump JsonUtf8 JsonLexProps JsonScan JsonNumeral JsonNumber JsonDumpInv JsonEscape.

(** ** Strings *)

Lemma body_unique p u r u' r' : body p u r -> body p u' r' -> u = u' /\ r = r'.
Proof.
  intros Hb. revert u' r'. induction Hb as [p|p u p1 us r Hq Hc Hb IH]; intros u' r' H'; inversion H'; subst; try done.
  rewrite Hc in *. simplify_eq. edestruct IH as [-> ->]; [eassumption|]. done.
Qed.

Lemma string_text_unique s u s' u' q q' :
  string_text s u -> string_text s' u' -> s ++ cQUOTE :: q = s' ++ cQUOTE :: q' -> u = u' /\ q = q'.
Proof.
  intros Hs Hs' He. apply (body_unique (s ++ cQUOTE :: q)); apply body_text; [by exists s|]. exists s'. by rewrite He.
Qed.

Lemma string_text_app s u t v : string_text s u -> string_text t v -> string_text (s ++ t) (u ++ v).
Proof. intros Hs Ht. induction Hs; [done|]. rewrite <- !app_assoc. by constructor. Qed.

(** What [dump] writes of a string is a text of it. *)
Lemma hex4_digits v : 0 <= v <= 0xFFFF -> hex4_spec (hex4 v) = Some (v, []).
Proof.
  intros Hv. unfold hex4_spec, hex4. simpl.
  assert (forall d, 0 <= d < 16 -> hex_nibble (hex_digit_lower d) = Some d) as Hd.
  { intros d Hd. unfold hex_nibble, hex_digit_lower. repeat (case_match; try lia); f_equal; lia. }
  rewrite !Hd by div_lia. simpl. do 2 f_equal. div_lia.
Qed.

Lemma escape_char_text ea cp : scalar cp = true -> char_text (escape_char ea cp) (encode cp).
Proof.
  intros Hs. pose proof (scalar_range _ Hs) as Hr. unfold escape_char.
  assert (forall c, (cp =? c) = true -> cp = c) as Hone by lia.
  repeat (case_match; [match goal with Ec : (cp =? _) = true |- _ => apply Hone in Ec as -> end; by apply text_escape|]). case_match.
  - case_match.
    + apply text_unicode; [apply hex4_digits|unfold is_high|unfold is_low]; lia.
    + assert (encode cp = encode (pair_codepoint (0xD7C0 + cp / 1024) (0xDC00 + cp mod 1024))) as ->.
      { f_equal. unfold pair_codepoint. div_lia. }
      assert (64 <= cp / 1024 <= 1087) by div_lia. assert (0 <= cp mod 1024 < 1024) by (apply Z.mod_pos_bound; lia).
      apply text_pair; [apply hex4_digits|unfold is_high|apply hex4_digits|unfold is_low]; lia.
  - destruct (decide (cp < 0x80)); [|by apply text_utf8; [|lia]].
    rewrite encode_ascii by lia. apply text_plain. unfold is_plain. lia.
Qed.

Lemma escape_text_string ea bad s : is_utf8 s -> string_text (escape_text ea (repair bad [] [] s)) s.
Proof.
  intros (cps & Hc & ->). rewrite repair_utf8 by done. induction Hc as [|cp cps Hcp _ IH]; [constructor|].
  change (string_text (escape_char ea cp ++ escape_text ea cps) (encode cp ++ utf8_text cps)).
  constructor; [by apply escape_char_text|done].
Qed.

(** ** Texts *)

Definition ws (w : list Z) : Prop := Forall (fun c => is_space c = true) w.

Definition quote_text (s : list Z) : list Z := cQUOTE :: s ++ [cQUOTE].

Section text.
Context {F : Type} `{NumberFloat F} (dp : Z).

(** The value of a number: the integer it denotes, when it has neither fraction nor
    exponent and fits 64 bits, or what [strtof] makes of it, under a locale with
    the decimal point [dp]. *)
Definition number_json (x : number) : json F :=
  match number_kind x with
  | value_unsigned => Jnumber_unsigned (number_value (int_text x))
  | value_integer => Jnumber_integer (number_value (int_text x))
  | _ => Jnumber_float (strtof (number_text dp x))
  end.

(** It does not overflow the floating-point type. *)
Definition number_fits (x : number) : Prop := number_kind x = value_float -> isfinite (strtof (number_text dp x)) = true.

(** [json_text v t]: the text [t] denotes [v], whose members are in the order of the
    text.  [elements_text] and [members_text] are what is between the brackets. *)
Inductive json_text : json F -> list Z -> Prop :=
  | text_null : json_text Jnull (str "null")
  | text_true : json_text (Jboolean true) (str "true")
  | text_false : json_text (Jboolean false) (str "false")
  | text_number x : number_ok x -> number_fits x -> json_text (number_json x) (number_text cDOT x)
  | text_string s u : string_text s u -> json_text (Jstring u) (quote_text s)
  | text_empty_array w : ws w -> json_text (Jarray []) (cLBRACKET :: w ++ [cRBRACKET])
  | text_array vs t : elements_text vs t -> json_text (Jarray vs) (cLBRACKET :: t ++ [cRBRACKET])
  | text_empty_object w : ws w -> json_text (Jobject []) (cLBRACE :: w ++ [cRBRACE])
  | text_object ms t : members_text ms t -> json_text (Jobject ms) (cLBRACE :: t ++ [cRBRACE])
with elements_text : list (json F) -> list Z -> Prop :=
  | elements_one v w1 t w2 : ws w1 -> json_text v t -> ws w2 -> elements_text [v] (w1 ++ t ++ w2)
  | elements_more v w1 t w2 vs ts :
      ws w1 -> json_text v t -> ws w2 -> elements_text vs ts -> elements_text (v :: vs) (w1 ++ t ++ w2 ++ cCOMMA :: ts)
with members_text : list (list Z * json F) -> list Z -> Prop :=
  | members_one s k v w1 w2 w3 t w4 :
      ws w1 -> string_text s k -> ws w2 -> ws w3 -> json_text v t -> ws w4 ->
      members_text [(k, v)] (w1 ++ quote_text s ++ w2 ++ cCOLON :: w3 ++ t ++ w4)
  | members_more s k v w1 w2 w3 t w4 ms ts :
      ws w1 -> string_text s k -> ws w2 -> ws w3 -> json_text v t -> ws w4 -> members_text ms ts ->
      members_text ((k, v) :: ms) (w1 ++ quote_text s ++ w2 ++ cCOLON :: w3 ++ t ++ w4 ++ cCOMMA :: ts).

(** Integers. *)
Lemma integer_json (neg : bool) n :
  0 <= n -> (if neg then n <= 2 ^ 63 else n < 2 ^ 64) ->
  json_text (if neg then Jnumber_integer (- n) else Jnumber_unsigned n) ((if neg then [cMINUS] else []) ++ to_string n).
Proof.
  intros Hn Hr. pose proof (integer_kind neg n Hn Hr) as Hk. rewrite <- (integer_text cDOT).
  assert (number_json (integer neg n) = if neg then Jnumber_integer (- n) else Jnumber_unsigned n) as <-.
  { unfold number_json. rewrite Hk, integer_value by done. by destruct neg. }
  apply text_number; [by apply integer_ok|]. unfold number_fits. rewrite Hk. by destruct neg.
Qed.

Lemma text_unsigned n : 0 <= n < 2 ^ 64 -> json_text (Jnumber_unsigned n) (to_string n).
Proof. intros Hn. apply (integer_json false n); cbv iota; lia. Qed.

Lemma text_integer n : 0 <= n <= 2 ^ 63 -> json_text (Jnumber_integer (- n)) (cMINUS :: to_string n).
Proof. intros Hn. apply (integer_json true n); cbv iota; lia. Qed.
End text.

Scheme json_text_mut := Minimality for json_text Sort Prop
  with elements_text_mut := Minimality for elements_text Sort Prop
  with members_text_mut := Minimality for members_text Sort Prop.
Combined Scheme json_text_ind3 from json_text_mut, elements_text_mut, members_text_mut.

(** A text is bytes. *)
Lemma hex_text_bytes h fs v : hex_spec fs h = Some (v, []) -> Forall is_byte h.
Proof.
  revert h v; induction fs as [|f fs IH]; intros h v; simpl; [intros; by simplify_eq|].
  destruct h as [|c h]; [done|]. destruct (hex_nibble c) as [x|] eqn:Ex; [|done]. simpl.
  destruct (hex_spec fs h) as [[w q]|] eqn:E; [|done]. simpl. intros; simplify_eq. constructor; [|by eapply IH].
  unfold hex_nibble in Ex. unfold is_byte, in_u. repeat case_match; simplify_eq; lia.
Qed.

Lemma char_text_bytes t u : char_text t u -> Forall is_byte t.
Proof.
  destruct 1 as [c Hc|cp Hs H80|e x He|h v Hh Hhi Hlo|h v k w Hh Hv Hk Hw].
  - repeat constructor; unfold is_plain in Hc; lia.
  - by apply encode_bytes.
  - unfold simple_escape in He. repeat constructor; repeat case_match; simplify_eq; lia.
  - apply hex_text_bytes in Hh. by repeat constructor.
  - apply hex_text_bytes in Hh, Hk. do 2 (constructor; [done|]). apply Forall_app; split; [done|]. by repeat constructor.
Qed.

Lemma string_text_bytes t u : string_text t u -> Forall is_byte t.
Proof. induction 1; [done|]. apply Forall_app. split; [by eapply char_text_bytes|done]. Qed.

Lemma ws_bytes w : ws w -> Forall is_byte w.
Proof. intros Hw. eapply Forall_impl; [exact Hw|]. intros c Hc. unfold is_space, is_byte, in_u in *. lia. Qed.

Lemma quote_bytes s u : string_text s u -> Forall is_byte (quote_text s).
Proof. intros Hs%string_text_bytes. constructor; [done|]. apply Forall_app. split; [done|]. by repeat constructor. Qed.

Lemma text_bytes {F} `{NumberFloat F} dp (v : json F) t : json_text dp v t -> Forall is_byte t.
Proof.
  revert v t. apply (json_text_ind3 F _ dp (fun _ => Forall is_byte) (fun _ => Forall is_byte) (fun _ => Forall is_byte));
    intros; rewrite ?Forall_app, ?Forall_cons; rewrite ?Forall_app, ?Forall_cons; split_and?; try (apply ws_bytes; assumption);
    try (eapply quote_bytes; eassumption); try (by apply number_text_bytes); try done; try (by repeat constructor); try eassumption.
Qed.

(** ** Tokens *)

Inductive lexeme :=
  | Lmark (c : Z) (t : token_type)
  | Lliteral (text : list Z) (t : token_type)
  | Lnumber (x : number)
  | Lstring (s u : list Z)
  | Lend.

(** The lexemes of the grammar. *)
Definition lexeme_ok (x : lexeme) : Prop :=
  match x with
  | Lmark c t =>
      (c, t) ∈ [(cLBRACKET, begin_array); (cRBRACKET, end_array); (cLBRACE, begin_object); (cRBRACE, end_object);
                (cCOLON, name_separator); (cCOMMA, value_separator)]
  | Lliteral text t => (text, t) ∈ [(str "true", literal_true); (str "false", literal_false); (str "null", literal_null)]
  | Lnumber x => number_ok x
  | Lstring s u => string_text s u
  | Lend => True
  end.

Definition lexeme_text (x : lexeme) : list Z :=
  match x with
  | Lmark c _ => [c]
  | Lliteral text _ => text
  | Lnumber x => number_text cDOT x
  | Lstring s _ => quote_text s
  | Lend => []
  end.

Definition lexeme_type (x : lexeme) : token_type :=
  match x with
  | Lmark _ t | Lliteral _ t => t
  | Lnumber x => number_kind x
  | Lstring _ _ => value_string
  | Lend => end_of_input
  end.

(** What may follow, and what the end of input is. *)
Definition follows (x : lexeme) (q : list Z) : Prop :=
  match x with Lnumber _ => stops q | Lend => q = [] | _ => True end.

(** What the lexer holds after the token. *)
Definition holds {F} `{NumberFloat F} (dp : Z) (x : lexeme) (d : Z) (b : list Z) (st : lexer (F := F)) : Prop :=
  match x with
  | Lnumber x => number_holds dp x st /\ (number_kind x = value_float -> d = npos \/ 0 <= d < Z.of_nat (length b))
  | Lstring _ u => b = u /\ d = npos
  | _ => True
  end.

Section scan.
Context {F : Type} `{NumberFloat F} (ic : bool) (dp : Z).
Hypothesis Hdp : point_ok dp.
Implicit Types (st : lexer (F := F)) (p q b : list Z) (n d : Z).

Abbreviation lx := (lx ic dp).

(** ** Any lexeme *)

Lemma skip_space_ws w p : ws w -> skip_space (w ++ p) = skip_space p.
Proof. induction 1 as [|c w Hc _ IH]; simpl; [done|]. by rewrite Hc. Qed.

Lemma skip_space_stop p : is_space (hd EOF p) = false -> skip_space p = p.
Proof. destruct p as [|c p]; simpl; [done|]. by intros ->. Qed.

(** The first character decides, and it is no white space. *)
Lemma lexeme_head x q :
  lexeme_ok x -> follows x q -> is_space (hd EOF (lexeme_text x ++ q)) = false /\ hd EOF (lexeme_text x ++ q) <> cSLASH /\
    hd EOF (lexeme_text x ++ q) <> 0xEF.
Proof.
  destruct x as [c t|text t|x|s u|]; simpl; intros Hx Hq; [..|by rewrite Hq].
  - rewrite !elem_of_cons, elem_of_nil in Hx. unfold is_space. repeat destruct Hx as [Hx|Hx]; simplify_eq; lia.
  - rewrite !elem_of_cons, elem_of_nil in Hx. repeat destruct Hx as [Hx|Hx]; simplify_eq/=; split_and!; done.
  - destruct (number_text_head cDOT x Hx) as (c & w & -> & Hc). unfold is_digit, is_space in *. simpl. lia.
  - done.
Qed.

Lemma scan_token_exact x q n d b st :
  lexeme_ok x -> follows x q -> lx n d (tail (lexeme_text x ++ q)) b st -> fresh (hd EOF (lexeme_text x ++ q)) st ->
  wp nofault scan_token st (fun t st' =>
    t = lexeme_type x /\ exists n' d' b', lx n' d' q b' st' /\ holds dp x d' b' st').
Proof.
  intros Hx Hq L Fr. unfold scan_token. wp_steps. rewrite (lx_current _ _ _ _ _ _ _ _ L Fr).
  destruct x as [c t|text t|x|s u|]; simpl in Hx, Hq, L, Fr |- *.
  - rewrite !elem_of_cons, elem_of_nil in Hx. repeat destruct Hx as [Hx|Hx]; simplify_eq; try done;
      (apply wp_ret; split; [done|]; by exists n, d, b).
  - rewrite !elem_of_cons, elem_of_nil in Hx.
    assert (forall c text t, Forall is_byte (c :: text) -> lx n d (text ++ q) b st -> fresh c st ->
      wp nofault (scan_literal (c :: text) t) st (fun t' st' => t' = t /\ exists n' d' b', lx n' d' q b' st' /\ True)) as Hl.
    { intros c text' t' Hby L' Fr'. eapply wp_mono; [by eapply scan_literal_exact|]. intros t2 st2 [-> L2]. eauto 10. }
    repeat destruct Hx as [Hx|Hx]; simplify_eq; try done; (apply Hl; [by repeat constructor|done..]).
  - destruct (number_text_head cDOT x Hx) as (c & w & Ht & Hc). rewrite Ht in *. simpl in L, Fr |- *.
    assert ((c =? cMINUS) || is_digit c = true) as Hc' by (destruct Hc as [->|Hc]; [done|by rewrite Hc, orb_true_r]).
    do 10 (rewrite (proj2 (Z.eqb_neq c _)) by (unfold is_digit in Hc; lia)). rewrite Hc'.
    eapply wp_mono; [by eapply scan_number_exact|]. intros t st' (-> & Hh & n' & d' & L' & Htok). split; [done|].
    exists n', d', (number_text dp x). split; [done|]. split; [done|]. intros Hk. by rewrite Hk in Htok.
  - eapply wp_mono; [by eapply scan_string_ok|]. intros t st' [(-> & s' & u' & p' & He & Hs' & L')|(-> & Hno & _)].
    + rewrite <- app_assoc in He. destruct (string_text_unique _ _ _ _ _ _ Hx Hs' He) as [-> ->]. split; [done|].
      by exists n, npos, u'.
    + exfalso. eapply (Hno s u q); [|done]. by rewrite <- app_assoc.
  - subst q. simpl in Fr. wp_steps. split; [done|]. by exists n, d, b.
Qed.

(** The next token. *)
Lemma scan_exact x w q n d b st :
  ws w -> lexeme_ok x -> follows x q -> lx n d (w ++ lexeme_text x ++ q) b st ->
  wp nofault scan st (fun t st' => t = lexeme_type x /\ exists n' d' b', lx n' d' q b' st' /\ holds dp x d' b' st').
Proof.
  intros Hw Hx Hq L. destruct (lexeme_head x q Hx Hq) as (Hsp & Hsl & Hbom). pose proof (lx_nonneg _ _ _ _ _ _ _ L).
  unfold scan. wp_steps. apply wp_mono with (P := fun r st1 => r = true /\ lx n d (w ++ lexeme_text x ++ q) b st1).
  { case_match; [|by wp_steps]. unfold skip_bom. wp_steps. eapply get_lx; [exact L|]. intros st1 L1 Fr1.
    rewrite (proj2 (Z.eqb_neq _ 0xEF)).
    - wp_steps. eapply (unget_lx _ _ _ n); [done|by destruct L|exact L1|exact Fr1|]. intros st2 L2. by wp_steps.
    - destruct Hw as [|c w Hc Hw]; [exact Hbom|]. simpl. unfold is_space in Hc. lia. }
  intros r st1 [-> L1]. cbn [negb]. wp_steps. eapply wp_mono; [by eapply skip_whitespace_ok|].
  intros _ st2 [L2 Fr2]. rewrite skip_space_ws, skip_space_stop in L2, Fr2 by done. wp_steps.
  eapply loop_fuel_lx; [exact L2|]. intros k Hk. wp_steps. eapply comments_none; [exact Hk|exact L2|exact Fr2|done|].
  wp_steps. by eapply scan_token_exact.
Qed.
End scan.
