(* ===== verification/JsonRead.v ===== *)
(** JsonRead: the parser on a text of the grammar.

    [emit] are the events of a value, in the order of the text; [read_text] says
    that the parser gives any handler exactly these events.  [emit_dom] (JsonBuild.v) says
    that the handler of [parse] then holds [build v]. *)

From S2P Require Import Prelude Json JsonLexer JsonParser JsonDump JsonUtf8 JsonLexProps JsonScan JsonNumeral JsonNumber JsonDumpInv JsonEscape JsonText.

(** ** Events *)

Section emit.
Context {F S : Type} `{Sax F S}.

(** An event the handler agrees to. *)
Definition event (m : M S bool) : M S unit := b ← m; if b : bool then mret tt else fail AssertFailed.

(** The length announced for a container: a text has none. *)
Definition announced (sized : bool) (n : nat) : Z := if sized then Z.of_nat n else unknown_size.

(** The text passed with a floating-point number is left out ([FloatText]). *)
Fixpoint emit (sized : bool) (v : json F) : M S unit :=
  match v with
  | Jnull => event sax_null
  | Jboolean b => event (sax_boolean b)
  | Jnumber_integer n => event (sax_number_integer n)
  | Jnumber_unsigned n => event (sax_number_unsigned n)
  | Jnumber_float x => event (sax_number_float x [])
  | Jstring s => event (sax_string s)
  | Jbinary b subtype => event (sax_binary b subtype)
  | Jarray vs =>
      event (sax_start_array (announced sized (length vs)));;
      foldr (fun v k => emit sized v;; k) (mret tt) vs;; event sax_end_array
  | Jobject ms =>
      event (sax_start_object (announced sized (length ms)));;
      foldr (fun m k => event (sax_key m.1);; emit sized m.2;; k) (mret tt) ms;; event sax_end_object
  | Jdiscarded => fail AssertFailed
  end.

Definition emit_elements (sized : bool) (vs : list (json F)) : M S unit := foldr (fun v k => emit sized v;; k) (mret tt) vs.
Definition emit_members (sized : bool) (ms : list (list Z * json F)) : M S unit :=
  foldr (fun m k => event (sax_key m.1);; emit sized m.2;; k) (mret tt) ms.

Lemma event_inv m s s' : event m s = Ok (tt, s') -> m s = Ok (true, s').
Proof. intros (b & s1 & Hm & Hb)%bind_ok_inv. destruct b; [|done]. by injection Hb as <-. Qed.
End emit.

(** A handler that ignores the text of a floating-point number, as those of [parse]
    and [accept] do. *)
Class FloatText (F S : Type) `{Sax F S} : Prop :=
  float_text_ignored (x : F) t t' : sax_number_float (S := S) x t = sax_number_float x t'.

#[export] Instance dom_float_text {F} : FloatText F (dom (F := F)).
Proof. done. Qed.
#[export] Instance accept_float_text {F} : FloatText F unit.
Proof. done. Qed.

(** ** The parser *)

Section read.
Context {F S : Type} `{NumberFloat F} `{HT : FloatText F S} (ic : bool) (dp : Z).
Hypothesis Hdp : point_ok dp.
Implicit Types (p : parser (F := F) (S := S)) (s : S) (q w t : list Z) (states : list bool).

(** The parser has [q] left to read. *)
Definition left_of q p : Prop := exists n d b, lx ic dp n d q b (m_lexer p).

(** The lexeme [x] was read and [q] is left. *)
Definition at_lexeme x q s p : Prop :=
  last_token p = lexeme_type x /\ m_sax p = s /\ exists n d b, lx ic dp n d q b (m_lexer p) /\ holds dp x d b (m_lexer p).

Lemma at_left x q s p : at_lexeme x q s p -> left_of q p.
Proof. intros (_ & _ & n & d & b & L & _). by exists n, d, b. Qed.

Lemma get_lexeme x w q p :
  ws w -> lexeme_ok x -> follows x q -> left_of (w ++ lexeme_text x ++ q) p ->
  exists p', get_token p = Ok (lexeme_type x, p') /\ at_lexeme x q (m_sax p) p'.
Proof.
  intros Hw Hx Hq (n & d & b & L). destruct (wp_ok _ _ _ (scan_exact ic dp Hdp x w q n d b _ Hw Hx Hq L)) as (t & l & Hs & -> & Hl).
  exists (Parser (lexeme_type x) l (m_sax p)). split; [|split; [done|]; split; [done|exact Hl]].
  unfold get_token. rewrite (bind_ok _ _ p (lexeme_type x) (Parser (last_token p) l (m_sax p))); [done|].
  unfold with_lexer. by rewrite Hs.
Qed.

(** The loop, whatever its fuel. *)
Definition runs states (skip : bool) p (R : bool * parser -> Prop) : Prop := exists k r, parse_loop k states skip p = Ok r /\ R r.

Lemma runs_next states skip p states' skip' p' r :
  parse_round states skip p = Ok (Next states' skip', p') -> runs states' skip' p' r -> runs states skip p r.
Proof. intros Hr (k & x & Hk & HR). exists (Datatypes.S k), x. split; [|done]. simpl. by rewrite (bind_ok _ _ _ _ _ Hr). Qed.

Lemma runs_return states skip p b p' (R : bool * parser -> Prop) :
  parse_round states skip p = Ok (Return b, p') -> R (b, p') -> runs states skip p R.
Proof. intros Hr HR. exists 1%nat, (b, p'). split; [|done]. simpl. by rewrite (bind_ok _ _ _ _ _ Hr). Qed.

(** A round that breaks out of the switch is the round after a value. *)
Lemma runs_break states p p' r : parse_value states p = Ok (Break, p') -> runs states true p' r -> runs states false p r.
Proof.
  intros Hv (k & x & Hk & HR). exists k, x. split; [|done]. destruct k as [|k]; [done|]. simpl in *. unfold parse_round in *.
  unfold mbind, M_bind in *. by rewrite Hv.
Qed.

Lemma parse_loop_more k j states skip p x :
  parse_loop k states skip p = x -> x <> Fault OutOfFuel -> parse_loop (k + j) states skip p = x.
Proof.
  intros Hk Hx. revert states skip p Hk; induction k as [|k IH]; intros states skip p Hk; [by subst|]. simpl in *.
  unfold mbind, M_bind in *. destruct (parse_round states skip p) as [[f p1]|f]; [|done].
  destruct f; [by apply IH|done|done].
Qed.

(** A run that ends within its fuel is that run. *)
Lemma runs_unique states skip p R k x :
  runs states skip p R -> parse_loop k states skip p = x -> x <> Fault OutOfFuel -> exists r, x = Ok r /\ R r.
Proof.
  intros (j & r & Hj & HR) Hk Hx. apply (parse_loop_more _ k) in Hj; [|done]. apply (parse_loop_more _ j) in Hk; [|done].
  rewrite Nat.add_comm in Hj. exists r. split; [congruence|done].
Qed.

Lemma guard_run m k p s : m (m_sax p) = Ok (true, s) -> guard m k p = k (Parser (last_token p) (m_lexer p) s).
Proof. intros Hm. unfold guard. rewrite (bind_ok _ _ p true (Parser (last_token p) (m_lexer p) s)); [done|]. unfold with_sax. by rewrite Hm. Qed.

(** [m] without the fault of an exhausted run: the event comes and the state is [s']. *)
Definition goes_to {A} (m : M S A) s (a : A) s' : Prop := m s = Ok (a, s').

(** The continuation after a value. *)
Definition after_run q s states r : Prop := forall p, left_of q p -> m_sax p = s -> runs states true p r.

(** A scalar: one event, then the round goes on. *)
Lemma scalar_run x (m : M S bool) q s s' p states r :
  at_lexeme x q s p -> goes_to (event m) s tt s' -> parse_value states p = guard m (mret Break) p ->
  after_run q s' states r -> runs states false p r.
Proof.
  intros Hp Hm%event_inv Hv Hr. pose proof Hp as (Ht & <- & n & d & b & L & Hh).
  eapply (runs_break states p (Parser (last_token p) (m_lexer p) s')).
  - rewrite Hv. by rewrite (guard_run _ _ _ _ Hm).
  - apply Hr; [by exists n, d, b|done].
Qed.

Lemma get_string_run t u q s p : at_lexeme (Lstring t u) q s p -> with_lexer get_string p = Ok (u, p).
Proof.
  intros (_ & _ & n & d & b & L & -> & ->). destruct p as [t' l s']. unfold with_lexer, get_string, mbind, M_bind, gets.
  simpl in *. destruct L. rewrite lx_point, Z.eqb_refl, andb_false_r. simpl. by rewrite lx_buffer.
Qed.

(** ** Texts *)

Lemma stops_mark c q : c ∈ [cCOMMA; cRBRACKET; cRBRACE; cCOLON] -> stops (c :: q).
Proof. rewrite !elem_of_cons, elem_of_nil. intros Hc. unfold stops. repeat destruct Hc as [->|Hc]; done. Qed.

Lemma stops_space w q : ws w -> stops q -> stops (w ++ q).
Proof.
  intros [|c w' Hc _] Hq; [done|]. unfold stops, is_space, is_digit, is_exp in *. simpl. lia.
Qed.

Definition reads_value (v : json F) t : Prop :=
  exists x t', t = lexeme_text x ++ t' /\ lexeme_ok x /\ (forall q, stops q -> follows x (t' ++ q)) /\
    lexeme_type x <> end_array /\
    forall q s s' p states r, stops q -> at_lexeme x (t' ++ q) s p -> goes_to (emit false v) s tt s' ->
      after_run q s' states r -> runs states false p r.

Definition reads_elements (vs : list (json F)) t : Prop :=
  exists w x t', t = w ++ lexeme_text x ++ t' /\ ws w /\ lexeme_ok x /\ (forall q, follows x (t' ++ cRBRACKET :: q)) /\
    lexeme_type x <> end_array /\
    forall q s s1 s2 p states r, at_lexeme x (t' ++ cRBRACKET :: q) s p -> goes_to (emit_elements false vs) s tt s1 ->
      goes_to (event sax_end_array) s1 tt s2 -> after_run q s2 states r -> runs (true :: states) false p r.

Definition reads_members (ms : list (list Z * json F)) t : Prop :=
  exists w k u t', t = w ++ quote_text k ++ t' /\ ws w /\ string_text k u /\
    forall q s s1 s2 p states r, at_lexeme (Lstring k u) (t' ++ cRBRACE :: q) s p -> goes_to (emit_members false ms) s tt s1 ->
      goes_to (event sax_end_object) s1 tt s2 -> after_run q s2 states r ->
      exists p', parse_key (false :: states) p = Ok (Next (false :: states) false, p') /\ runs (false :: states) false p' r.

Lemma parse_value_at x q s p states :
  at_lexeme x q s p ->
  parse_value states p =
    match lexeme_type x with
    | begin_object => parse_begin_object states p
    | begin_array => parse_begin_array states p
    | literal_false => guard (sax_boolean false) (mret Break) p
    | literal_null => guard sax_null (mret Break) p
    | literal_true => guard (sax_boolean true) (mret Break) p
    | value_integer => (n ← with_lexer get_number_integer; guard (sax_number_integer n) (mret Break)) p
    | value_string => (s ← with_lexer get_string; guard (sax_string s) (mret Break)) p
    | value_unsigned => (n ← with_lexer get_number_unsigned; guard (sax_number_unsigned n) (mret Break)) p
    | _ => parse_value states p
    end.
Proof.
  intros (Ht & _). destruct (lexeme_type x); try done;
    unfold parse_value; rewrite (bind_ok _ _ p (last_token p) p) by done; by rewrite Ht.
Qed.

(** Values that are one token. *)
Lemma reads_scalar v x (m : M S bool) :
  lexeme_ok x -> (forall q, stops q -> follows x q) -> lexeme_type x <> end_array -> emit false v = event m ->
  (forall q s p states, at_lexeme x q s p -> parse_value states p = guard m (mret Break) p) ->
  reads_value v (lexeme_text x).
Proof.
  intros Hx Hq Ht Hv Hp. exists x, []. rewrite app_nil_r. split_and!; try done.
  intros q s s' p states r _ Hat Hm Hr. rewrite Hv in Hm. eapply scalar_run; [exact Hat|exact Hm|by eapply Hp|exact Hr].
Qed.

Lemma reads_literal v text (t : token_type) (m : M S bool) :
  (text, t) ∈ [(str "true", literal_true); (str "false", literal_false); (str "null", literal_null)] -> emit false v = event m ->
  (forall q s p states, at_lexeme (Lliteral text t) q s p -> parse_value states p = guard m (mret Break) p) ->
  reads_value v text.
Proof.
  intros Hx Hv Hp. apply (reads_scalar v (Lliteral text t) m); try done.
  rewrite !elem_of_cons, elem_of_nil in Hx. repeat destruct Hx as [Hx|Hx]; by simplify_eq.
Qed.

(** [get_string] puts the decimal point back into the text of a number. *)
Lemma get_number_text x q s p :
  at_lexeme (Lnumber x) q s p -> number_kind x = value_float ->
  exists t p', with_lexer get_string p = Ok (t, p') /\ left_of q p' /\ m_sax p' = s.
Proof.
  intros (_ & Hs & n & d & b & L & _ & Hd) Hk. specialize (Hd Hk). destruct p as [t' l s']. simpl in L, Hs.
  unfold with_lexer, get_string, mbind, M_bind, gets. cbn [m_lexer].
  destruct (negb (decimal_point_char l =? cDOT) && negb (decimal_point_position l =? npos)) eqn:E; cbv iota.
  - apply andb_prop in E as [_ E]. assert (decimal_point_position l = d) as Hp by by destruct L.
    assert (token_buffer l = b) as Hb by by destruct L. rewrite Hp, Hb.
    assert ((0 <=? d) && (d <? Z.of_nat (length b)) = true) as ->.
    { destruct Hd as [->|Hd]; [by rewrite Hp in E|lia]. }
    eexists _, _. split; [reflexivity|]. split; [|done]. exists n, d, (<[Z.to_nat d:=cDOT]> b). by destruct L.
  - eexists _, _. split; [reflexivity|]. split; [|done]. by exists n, d, b.
Qed.

Lemma reads_float x :
  number_ok x -> number_kind x = value_float -> isfinite (strtof (number_text dp x)) = true ->
  reads_value (Jnumber_float (strtof (number_text dp x))) (number_text cDOT x).
Proof.
  intros Hx Hk Hf. exists (Lnumber x), []. rewrite app_nil_r. split_and!; try done; [by simpl; rewrite Hk|].
  intros q s s' p states r _ Hat Hm Hr. simpl in Hm. apply event_inv in Hm.
  destruct (get_number_text x q s p Hat Hk) as (t & p1 & Hg & Hp1 & Hs1).
  pose proof Hat as (Ht & Hs & n & d & b & _ & Hh & _). unfold number_holds in Hh. rewrite Hk in Hh.
  assert (parse_value states p = parse_float p) as Hv.
  { unfold parse_value. rewrite (bind_ok _ _ p (last_token p) p) by done. rewrite Ht. simpl. by rewrite Hk. }
  eapply (runs_break states p (Parser (last_token p1) (m_lexer p1) s')); [|by apply Hr].
  rewrite Hv. unfold parse_float. rewrite (bind_ok _ _ p (strtof (number_text dp x)) p).
  2: { destruct p. unfold with_lexer, get_number_float, gets. simpl in *. by rewrite Hh. }
  rewrite Hf. rewrite (bind_ok _ _ _ _ _ Hg). rewrite (guard_run _ _ p1 s'); [done|].
  rewrite Hs1. by rewrite (float_text_ignored _ t []).
Qed.

Lemma reads_number x : number_ok x -> number_fits dp x -> reads_value (number_json dp x) (number_text cDOT x).
Proof.
  intros Hx Hf. destruct (decide (number_kind x = value_float)) as [Hk|Hk].
  { unfold number_json. rewrite Hk. by apply reads_float; [..|apply Hf]. }
  assert (number_kind x = value_unsigned \/ number_kind x = value_integer) as Hk'.
  { pose proof (number_kind_range x Hx). destruct (number_kind x); auto; congruence. }
  apply (reads_scalar _ (Lnumber x) (match number_kind x with
    | value_unsigned => sax_number_unsigned (number_value (int_text x)) | _ => sax_number_integer (number_value (int_text x)) end)).
  - done.
  - done.
  - simpl. destruct Hk' as [->| ->]; done.
  - unfold number_json. destruct Hk' as [->| ->]; done.
  - intros q s p states Hat. rewrite (parse_value_at _ _ _ _ states Hat). destruct Hat as (_ & _ & k & d & b & _ & Hh & _).
    unfold number_holds in Hh. cbn [lexeme_type]. destruct p as [t l s0].
    destruct Hk' as [Hk'|Hk']; rewrite Hk' in *; unfold with_lexer, mbind, M_bind; simpl in *; by rewrite Hh.
Qed.

Lemma reads_string t u : string_text t u -> reads_value (Jstring u) (quote_text t).
Proof.
  intros Hs. apply (reads_scalar _ (Lstring t u) (sax_string u)); try done.
  intros q s' p states Hat. rewrite (parse_value_at _ _ _ _ states Hat). simpl.
  by rewrite (bind_ok _ _ _ _ _ (get_string_run _ _ _ _ _ Hat)).
Qed.

(** A handler call moves only the handler. *)
Lemma at_call x q s s' p : at_lexeme x q s p -> at_lexeme x q s' (Parser (last_token p) (m_lexer p) s').
Proof. intros (? & _ & ?). by split_and!. Qed.

(** The next lexeme, after a handler call. *)
Lemma next_lexeme x w q s p :
  ws w -> lexeme_ok x -> follows x q -> left_of (w ++ lexeme_text x ++ q) p -> m_sax p = s ->
  exists p', get_token p = Ok (lexeme_type x, p') /\ at_lexeme x q s p'.
Proof. intros Hw Hx Hq Hp <-. by apply get_lexeme with w. Qed.

Ltac mark_lexeme := first [done | by repeat constructor].

(** A closing bracket. *)
Lemma next_mark c (t : token_type) w q s p :
  (c, t) ∈ [(cLBRACKET, begin_array); (cRBRACKET, end_array); (cLBRACE, begin_object); (cRBRACE, end_object);
            (cCOLON, name_separator); (cCOMMA, value_separator)] ->
  ws w -> left_of (w ++ c :: q) p -> m_sax p = s -> exists p', get_token p = Ok (t, p') /\ at_lexeme (Lmark c t) q s p'.
Proof. intros Hc Hw Hp Hs. by apply (next_lexeme (Lmark c t) w q s p). Qed.

Lemma begin_array_run (x : token_type * parser) q s p states s1 :
  at_lexeme (Lmark cLBRACKET begin_array) q s p -> goes_to (event (sax_start_array unknown_size)) s tt s1 ->
  get_token (Parser (last_token p) (m_lexer p) s1) = Ok x ->
  parse_value states p =
    if decide (x.1 = end_array) then guard sax_end_array (mret Break) x.2 else Ok (Next (true :: states) false, x.2).
Proof.
  intros Hp Hs%event_inv Hx. pose proof Hp as (_ & Hsax & _). rewrite (parse_value_at _ _ _ _ states Hp). simpl.
  unfold parse_begin_array. rewrite (guard_run _ _ p s1) by (by rewrite Hsax). destruct x as [t p1].
  rewrite (bind_ok _ _ _ _ _ Hx). simpl. by destruct (decide (t = end_array)).
Qed.

Lemma reads_empty_array w : ws w -> reads_value (Jarray []) (cLBRACKET :: w ++ [cRBRACKET]).
Proof.
  intros Hw. exists (Lmark cLBRACKET begin_array), (w ++ [cRBRACKET]). split_and!; try mark_lexeme.
  intros q s s' p states r _ Hat (u & s1 & H1 & He)%bind_ok_inv Hr. destruct u.
  apply bind_ok_inv in He as (u & s2 & [= <- <-] & H2). apply (at_call _ _ _ s1) in Hat as Hat1.
  rewrite <- app_assoc in Hat1. destruct (next_mark cRBRACKET end_array w q s1 (Parser (last_token p) (m_lexer p) s1))
    as (p1 & Hg & Hp1); [mark_lexeme|done|by eapply at_left|done|].
  pose proof Hp1 as (_ & Hsax & _). eapply (runs_break states p (Parser (last_token p1) (m_lexer p1) s')).
  - rewrite (begin_array_run _ _ _ _ states s1 Hat H1 Hg). simpl.
    apply event_inv in H2. by rewrite (guard_run _ _ _ s') by (by rewrite Hsax).
  - apply Hr; [|done]. by eapply at_left, at_call.
Qed.

Lemma round_value states p states' skip p1 :
  parse_value states p = Ok (Next states' skip, p1) -> parse_round states false p = Ok (Next states' skip, p1).
Proof. intros Hv. unfold parse_round. by rewrite (bind_ok _ _ _ _ _ Hv). Qed.

Lemma reads_array vs t : reads_elements vs t -> reads_value (Jarray vs) (cLBRACKET :: t ++ [cRBRACKET]).
Proof.
  intros (w & x & t' & -> & Hw & Hx & Hf & Hne & Hrun).
  exists (Lmark cLBRACKET begin_array), ((w ++ lexeme_text x ++ t') ++ [cRBRACKET]). split_and!; try mark_lexeme.
  intros q s s' p states r _ Hat (u & s1 & H1 & He)%bind_ok_inv Hr. destruct u.
  apply bind_ok_inv in He as (u & s2 & He & H2). destruct u. apply (at_call _ _ _ s1) in Hat as Hat1.
  rewrite <- !app_assoc in Hat1. simpl in Hat1.
  destruct (next_lexeme x w (t' ++ cRBRACKET :: q) s1 (Parser (last_token p) (m_lexer p) s1)) as (p1 & Hg & Hp1);
    [done|done|apply Hf|by eapply at_left|done|].
  eapply runs_next; [apply round_value; rewrite (begin_array_run _ _ _ _ states s1 Hat H1 Hg)|].
  { simpl. by rewrite decide_False. }
  by eapply Hrun.
Qed.

(** After an element. *)
Lemma array_end_run w q s s' p states r :
  ws w -> goes_to (event sax_end_array) s tt s' -> after_run q s' states r ->
  left_of (w ++ cRBRACKET :: q) p -> m_sax p = s -> runs (true :: states) true p r.
Proof.
  intros Hw He%event_inv Hr Hp Hs. destruct (next_mark cRBRACKET end_array w q s p) as (p1 & Hg & Hp1); [mark_lexeme|done..|].
  pose proof Hp1 as (_ & Hsax & _). eapply (runs_next _ _ _ states true (Parser (last_token p1) (m_lexer p1) s')).
  - unfold parse_round. simpl. unfold after_array_value. unfold mbind at 1, M_bind at 1. simpl.
    rewrite (bind_ok _ _ _ _ _ Hg). rewrite decide_False, decide_True by done. by rewrite (guard_run _ _ _ s') by (by rewrite Hsax).
  - apply Hr; [|done]. by eapply at_left, at_call.
Qed.

Lemma array_comma_run w x w' q s p states :
  ws w -> ws w' -> lexeme_ok x -> follows x q -> left_of (w ++ cCOMMA :: w' ++ lexeme_text x ++ q) p -> m_sax p = s ->
  exists p', parse_round (true :: states) true p = Ok (Next (true :: states) false, p') /\ at_lexeme x q s p'.
Proof.
  intros Hw Hw' Hx Hf Hp Hs.
  destruct (next_mark cCOMMA value_separator w (w' ++ lexeme_text x ++ q) s p) as (p1 & Hg & Hp1); [mark_lexeme|done..|].
  destruct (next_lexeme x w' q s p1) as (p2 & Hg2 & Hp2); [done..|by eapply at_left|by destruct Hp1 as (_ & ? & _)|].
  exists p2. split; [|done]. unfold parse_round. simpl. unfold after_array_value. unfold mbind at 1, M_bind at 1. simpl.
  rewrite (bind_ok _ _ _ _ _ Hg). rewrite decide_True by done. by rewrite (bind_ok _ _ _ _ _ Hg2).
Qed.

Lemma reads_elements_one v w1 t w2 :
  ws w1 -> reads_value v t -> ws w2 -> reads_elements [v] (w1 ++ t ++ w2).
Proof.
  intros Hw1 (x & t' & -> & Hx & Hf & Hne & Hrun) Hw2. exists w1, x, (t' ++ w2).
  assert (forall q, stops (w2 ++ cRBRACKET :: q)) as Hst by (intros q; by apply stops_space, stops_mark; [|set_solver]).
  split_and!; try done; [by rewrite <- !app_assoc| |].
  - intros q. rewrite <- app_assoc. apply Hf, Hst.
  - intros q s s1 s2 p states r Hat He H2 Hr. rewrite <- app_assoc in Hat.
    apply bind_ok_inv in He as (u & s3 & Hv & [= <-]). destruct u.
    eapply Hrun; [apply Hst|exact Hat|exact Hv|]. intros p1 Hp1 Hs1. by eapply array_end_run.
Qed.

Lemma reads_elements_more v w1 t w2 vs ts :
  ws w1 -> reads_value v t -> ws w2 -> reads_elements vs ts -> reads_elements (v :: vs) (w1 ++ t ++ w2 ++ cCOMMA :: ts).
Proof.
  intros Hw1 (x & t' & -> & Hx & Hf & Hne & Hrun) Hw2 (w3 & x2 & t2 & -> & Hw3 & Hx2 & Hf2 & _ & Hrun2).
  exists w1, x, (t' ++ w2 ++ cCOMMA :: w3 ++ lexeme_text x2 ++ t2).
  assert (forall q, stops (w2 ++ cCOMMA :: q)) as Hst by (intros q; by apply stops_space, stops_mark; [|set_solver]).
  split_and!; try done; [by rewrite <- !app_assoc| |].
  - intros q. rewrite <- !app_assoc. apply Hf, Hst.
  - intros q s s1 s2 p states r Hat He H2 Hr. rewrite <- !app_assoc in Hat. simpl in Hat. rewrite <- !app_assoc in Hat.
    apply bind_ok_inv in He as (u & s3 & Hv & He). destruct u.
    eapply Hrun; [|exact Hat|exact Hv|]; [apply Hst|]. intros p1 Hp1 Hs1.
    destruct (array_comma_run w2 x2 w3 (t2 ++ cRBRACKET :: q) s3 p1 states) as (p2 & Hround & Hp2); [done..|apply Hf2|done|done|].
    eapply runs_next; [exact Hround|]. by eapply Hrun2.
Qed.

(** ** Objects *)

Lemma key_run k u w2 w3 x q s s1 p states :
  ws w2 -> ws w3 -> lexeme_ok x -> follows x q ->
  at_lexeme (Lstring k u) (w2 ++ cCOLON :: w3 ++ lexeme_text x ++ q) s p -> goes_to (event (sax_key u)) s tt s1 ->
  exists p', parse_key states p = Ok (Next states false, p') /\ at_lexeme x q s1 p'.
Proof.
  intros Hw2 Hw3 Hx Hf Hat Hk%event_inv. pose proof Hat as (_ & Hsax & _). apply (at_call _ _ _ s1) in Hat as Hat1.
  destruct (next_mark cCOLON name_separator w2 (w3 ++ lexeme_text x ++ q) s1 (Parser (last_token p) (m_lexer p) s1))
    as (p1 & Hg & Hp1); [mark_lexeme|done|by eapply at_left|done|].
  destruct (next_lexeme x w3 q s1 p1) as (p2 & Hg2 & Hp2); [done..|by eapply at_left|by destruct Hp1 as (_ & ? & _)|].
  exists p2. split; [|done]. unfold parse_key. rewrite (bind_ok _ _ _ _ _ (get_string_run _ _ _ _ _ Hat)).
  rewrite (guard_run _ _ p s1) by (by rewrite Hsax). rewrite (bind_ok _ _ _ _ _ Hg), decide_True by done.
  by rewrite (bind_ok _ _ _ _ _ Hg2).
Qed.

Lemma begin_object_run (x : token_type * parser) q s p states s1 :
  at_lexeme (Lmark cLBRACE begin_object) q s p -> goes_to (event (sax_start_object unknown_size)) s tt s1 ->
  get_token (Parser (last_token p) (m_lexer p) s1) = Ok x ->
  parse_value states p =
    if decide (x.1 = end_object) then guard sax_end_object (mret Break) x.2
    else if decide (x.1 = value_string) then parse_key (false :: states) x.2
    else unexpected value_string "object key" x.2.
Proof.
  intros Hp Hs%event_inv Hx. pose proof Hp as (_ & Hsax & _). rewrite (parse_value_at _ _ _ _ states Hp). simpl.
  unfold parse_begin_object. rewrite (guard_run _ _ p s1) by (by rewrite Hsax). destruct x as [t p1].
  rewrite (bind_ok _ _ _ _ _ Hx). simpl. repeat case_decide; done.
Qed.

Lemma reads_empty_object w : ws w -> reads_value (Jobject []) (cLBRACE :: w ++ [cRBRACE]).
Proof.
  intros Hw. exists (Lmark cLBRACE begin_object), (w ++ [cRBRACE]). split_and!; try mark_lexeme.
  intros q s s' p states r _ Hat (u & s1 & H1 & He)%bind_ok_inv Hr. destruct u.
  apply bind_ok_inv in He as (u & s2 & [= <- <-] & H2). apply (at_call _ _ _ s1) in Hat as Hat1.
  rewrite <- app_assoc in Hat1. destruct (next_mark cRBRACE end_object w q s1 (Parser (last_token p) (m_lexer p) s1))
    as (p1 & Hg & Hp1); [mark_lexeme|done|by eapply at_left|done|].
  pose proof Hp1 as (_ & Hsax & _). eapply (runs_break states p (Parser (last_token p1) (m_lexer p1) s')).
  - rewrite (begin_object_run _ _ _ _ states s1 Hat H1 Hg). simpl.
    apply event_inv in H2. by rewrite (guard_run _ _ _ s') by (by rewrite Hsax).
  - apply Hr; [|done]. by eapply at_left, at_call.
Qed.

Lemma reads_object ms t : reads_members ms t -> reads_value (Jobject ms) (cLBRACE :: t ++ [cRBRACE]).
Proof.
  intros (w & k & u & t' & -> & Hw & Hk & Hrun).
  exists (Lmark cLBRACE begin_object), ((w ++ quote_text k ++ t') ++ [cRBRACE]). split_and!; try mark_lexeme.
  intros q s s' p states r _ Hat (u1 & s1 & H1 & He)%bind_ok_inv Hr. destruct u1.
  apply bind_ok_inv in He as (u2 & s2 & He & H2). destruct u2. apply (at_call _ _ _ s1) in Hat as Hat1.
  rewrite <- !app_assoc in Hat1.
  destruct (next_lexeme (Lstring k u) w (t' ++ cRBRACE :: q) s1 (Parser (last_token p) (m_lexer p) s1)) as (p1 & Hg & Hp1);
    [done..|by eapply at_left|done|].
  destruct (Hrun q s1 s2 s' p1 states r Hp1 He H2 Hr) as (p2 & Hkey & Hp2).
  eapply runs_next; [apply round_value|exact Hp2]. by rewrite (begin_object_run _ _ _ _ states s1 Hat H1 Hg).
Qed.

Lemma object_end_run w q s s' p states r :
  ws w -> goes_to (event sax_end_object) s tt s' -> after_run q s' states r ->
  left_of (w ++ cRBRACE :: q) p -> m_sax p = s -> runs (false :: states) true p r.
Proof.
  intros Hw He%event_inv Hr Hp Hs. destruct (next_mark cRBRACE end_object w q s p) as (p1 & Hg & Hp1); [mark_lexeme|done..|].
  pose proof Hp1 as (_ & Hsax & _). eapply (runs_next _ _ _ states true (Parser (last_token p1) (m_lexer p1) s')).
  - unfold parse_round. simpl. unfold after_object_value. unfold mbind at 1, M_bind at 1. simpl.
    rewrite (bind_ok _ _ _ _ _ Hg). rewrite decide_False, decide_True by done. by rewrite (guard_run _ _ _ s') by (by rewrite Hsax).
  - apply Hr; [|done]. by eapply at_left, at_call.
Qed.

Lemma object_comma_run w k u w' q s p states :
  ws w -> ws w' -> string_text k u -> left_of (w ++ cCOMMA :: w' ++ quote_text k ++ q) p -> m_sax p = s ->
  exists p', parse_round (false :: states) true p = parse_key (false :: states) p' /\ at_lexeme (Lstring k u) q s p'.
Proof.
  intros Hw Hw' Hk Hp Hs.
  destruct (next_mark cCOMMA value_separator w (w' ++ quote_text k ++ q) s p) as (p1 & Hg & Hp1); [mark_lexeme|done..|].
  destruct (next_lexeme (Lstring k u) w' q s p1) as (p2 & Hg2 & Hp2); [done..|by eapply at_left|by destruct Hp1 as (_ & ? & _)|].
  exists p2. split; [|done]. unfold parse_round. simpl. unfold after_object_value. unfold mbind at 1, M_bind at 1. simpl.
  rewrite (bind_ok _ _ _ _ _ Hg). rewrite decide_True by done. by rewrite (bind_ok _ _ _ _ _ Hg2).
Qed.

Lemma reads_members_one k u v w1 w2 w3 t w4 :
  ws w1 -> string_text k u -> ws w2 -> ws w3 -> reads_value v t -> ws w4 ->
  reads_members [(u, v)] (w1 ++ quote_text k ++ w2 ++ cCOLON :: w3 ++ t ++ w4).
Proof.
  intros Hw1 Hk Hw2 Hw3 (x & t' & -> & Hx & Hf & Hne & Hrun) Hw4.
  exists w1, k, u, (w2 ++ cCOLON :: w3 ++ (lexeme_text x ++ t') ++ w4). split_and!; try done.
  assert (forall q, stops (w4 ++ cRBRACE :: q)) as Hst by (intros q; by apply stops_space, stops_mark; [|set_solver]).
  intros q s s1 s2 p states r Hat He H2 Hr. rewrite <- app_assoc in Hat. simpl in Hat. rewrite <- !app_assoc in Hat.
  apply bind_ok_inv in He as ([] & s3 & Hkey & He). apply bind_ok_inv in He as ([] & s4 & Hv & [= <-]).
  destruct (key_run k u w2 w3 x (t' ++ w4 ++ cRBRACE :: q) s s3 p (false :: states)) as (p1 & Hpk & Hp1);
    [done..|apply Hf, Hst|done|done|].
  exists p1. split; [done|]. eapply Hrun; [apply Hst|exact Hp1|exact Hv|]. intros p2 Hp2 Hs2. by eapply object_end_run.
Qed.

Lemma reads_members_more k u v w1 w2 w3 t w4 ms ts :
  ws w1 -> string_text k u -> ws w2 -> ws w3 -> reads_value v t -> ws w4 -> reads_members ms ts ->
  reads_members ((u, v) :: ms) (w1 ++ quote_text k ++ w2 ++ cCOLON :: w3 ++ t ++ w4 ++ cCOMMA :: ts).
Proof.
  intros Hw1 Hk Hw2 Hw3 (x & t' & -> & Hx & Hf & Hne & Hrun) Hw4 (w5 & k2 & u2 & t2 & -> & Hw5 & Hk2 & Hrun2).
  exists w1, k, u, (w2 ++ cCOLON :: w3 ++ (lexeme_text x ++ t') ++ w4 ++ cCOMMA :: w5 ++ quote_text k2 ++ t2). split_and!; try done.
  assert (forall q, stops (w4 ++ cCOMMA :: q)) as Hst by (intros q; by apply stops_space, stops_mark; [|set_solver]).
  intros q s s1 s2 p states r Hat He H2 Hr. rewrite <- app_assoc in Hat. cbn [app] in Hat. rewrite <- !app_assoc in Hat.
  cbn [app] in Hat. rewrite <- !app_assoc in Hat.
  apply bind_ok_inv in He as ([] & s3 & Hkey & He). apply bind_ok_inv in He as ([] & s4 & Hv & He).
  destruct (key_run k u w2 w3 x (t' ++ w4 ++ cCOMMA :: w5 ++ quote_text k2 ++ t2 ++ cRBRACE :: q) s s3 p (false :: states))
    as (p1 & Hpk & Hp1); [done..|apply Hf, Hst|done|done|].
  exists p1. split; [done|]. eapply Hrun; [|exact Hp1|exact Hv|]; [apply Hst|]. intros p2 Hp2 Hs2.
  destruct (object_comma_run w4 k2 u2 w5 (t2 ++ cRBRACE :: q) s4 p2 states) as (p3 & Hround & Hp3); [done..|].
  destruct (Hrun2 q s4 s1 s2 p3 states r Hp3 He H2 Hr) as (p4 & Hk4 & Hp4).
  eapply runs_next; [|exact Hp4]. by rewrite Hround.
Qed.

(** Any text of the grammar is read. *)
Lemma reads_text v t : json_text dp v t -> reads_value v t.
Proof.
  revert v t. apply (json_text_ind3 F _ dp reads_value reads_elements reads_members).
  - apply (reads_literal _ _ literal_null sax_null); [set_solver|done|]. intros q s p states Hat. by rewrite (parse_value_at _ _ _ _ states Hat).
  - apply (reads_literal _ _ literal_true (sax_boolean true)); [set_solver|done|]. intros q s p states Hat. by rewrite (parse_value_at _ _ _ _ states Hat).
  - apply (reads_literal _ _ literal_false (sax_boolean false)); [set_solver|done|]. intros q s p states Hat. by rewrite (parse_value_at _ _ _ _ states Hat).
  - apply reads_number.
  - apply reads_string.
  - apply reads_empty_array.
  - intros vs t _. apply reads_array.
  - apply reads_empty_object.
  - intros ms t _. apply reads_object.
  - intros v w1 t w2 Hw1 _ Hv Hw2. by apply reads_elements_one.
  - intros v w1 t w2 vs ts Hw1 _ Hv Hw2 _ Hvs. by apply reads_elements_more.
  - intros k u v w1 w2 w3 t w4 Hw1 Hk Hw2 Hw3 _ Hv Hw4. by apply reads_members_one.
  - intros k u v w1 w2 w3 t w4 ms ts Hw1 Hk Hw2 Hw3 _ Hv Hw4 _ Hms. by apply reads_members_more.
Qed.
End read.
