(* ===== verification/JsonBuild.v ===== *)
(** JsonBuild: the value the handler of [parse] builds from the events of a text,
    and [parse] on a text of the grammar. *)

From S2P Require Import Prelude Json JsonLexer JsonParser JsonDump JsonUtf8 JsonLexProps JsonScan JsonDom JsonTotal JsonParse JsonNumeral JsonNumber JsonDumpInv JsonEscape JsonText JsonRead.

(** ** The value of a text

    The members of a text go into the map one by one: [operator[]] makes room for
    the key, or finds it, and the value is put there. *)

Section build.
Context {F : Type} {R : Rules F}.
Implicit Types (v : json F) (ms : list (list Z * json F)) (vs : list (json F)).

Definition insert_member ms (m : list Z * json F) : list (list Z * json F) := obj_set m.1 m.2 (obj_index m.1 ms).

Fixpoint build v : json F :=
  match v with
  | Jobject ms => Jobject (foldl insert_member [] (map (fun m => (m.1, build m.2)) ms))
  | Jarray vs => Jarray (map build vs)
  | v => v
  end.

(** A value a text or a binary encoding can denote: [wf_json] but for the order of the
    keys. *)
Fixpoint denoted v : Prop :=
  match v with
  | Jnull | Jboolean _ => True
  | Jobject ms => foldr (fun m P => (string_rule m.1 /\ denoted m.2) /\ P) True ms
  | Jarray vs => foldr (fun v P => denoted v /\ P) True vs
  | Jstring s => string_rule s
  | Jnumber_integer n => in_s 64 n
  | Jnumber_unsigned n => in_u 64 n
  | Jnumber_float x => float_rule x
  | Jbinary b subtype => binary_rule b subtype
  | Jdiscarded => False
  end.

Lemma denoted_array vs : denoted (Jarray vs) <-> Forall denoted vs.
Proof. apply foldr_and. Qed.
Lemma denoted_object ms : denoted (Jobject ms) <-> Forall (fun m => string_rule m.1 /\ denoted m.2) ms.
Proof. apply (foldr_and (fun m => string_rule m.1 /\ denoted m.2)). Qed.

(** No container is larger than memory. *)
Fixpoint fits v : Prop :=
  match v with
  | Jobject ms => Z.of_nat (length ms) <= object_max_size /\ foldr (fun m P => fits m.2 /\ P) True ms
  | Jarray vs => Z.of_nat (length vs) <= array_max_size /\ foldr (fun v P => fits v /\ P) True vs
  | _ => True
  end.

Lemma fits_array vs : fits (Jarray vs) <-> Z.of_nat (length vs) <= array_max_size /\ Forall fits vs.
Proof. simpl. by rewrite foldr_and. Qed.
Lemma fits_object ms : fits (Jobject ms) <-> Z.of_nat (length ms) <= object_max_size /\ Forall (fun m => fits m.2) ms.
Proof. simpl. by rewrite (foldr_and (fun m => fits m.2)). Qed.
End build.

Section text.
Context {F : Type} `{NumberFloat F}.
Implicit Types (v : json F) (ms : list (list Z * json F)) (vs : list (json F)).

Lemma number_denoted dp x : number_ok x -> number_fits dp x -> denoted (number_json dp x).
Proof.
  intros Hx Hf. pose proof (number_kind_range x Hx) as Hr. unfold number_json. unfold number_fits in Hf.
  destruct (number_kind x) eqn:E; try done; by apply Hf.
Qed.

Lemma text_denoted dp v t : json_text dp v t -> denoted v.
Proof.
  revert v t. apply (json_text_ind3 F _ dp (fun v _ => denoted v) (fun vs _ => Forall denoted vs)
    (fun ms _ => Forall (fun m => is_utf8 m.1 /\ denoted m.2) ms)); intros; try done.
  - by apply number_denoted.
  - by eapply string_text_utf8.
  - by apply denoted_array.
  - by apply denoted_object.
  - by repeat constructor.
  - by constructor.
  - repeat constructor; [by eapply string_text_utf8|done].
  - constructor; [|done]. split; [by eapply string_text_utf8|done].
Qed.
End text.

(** ** The handler *)

Section dom.
Context {F : Type} {R : Rules F} (ex sized : bool).
Implicit Types (d : dom (F := F)) (v : json F) (states : list bool).

(** The events of [v] put [build v] where the next value goes. *)
Definition puts v : Prop :=
  forall states d, ready ex states d ->
    exists d', emit sized v d = Ok (tt, d') /\ put_root d (build v) = Some (root d') /\ ref_stack d' = ref_stack d /\ dom_ok ex states d'.

Lemma event_run (m : M dom bool) d d' : m d = Ok (true, d') -> event m d = Ok (tt, d').
Proof. intros Hm. unfold event. by rewrite (bind_ok _ _ _ _ _ Hm). Qed.

Lemma puts_scalar v : wf_json v -> build v = v -> emit sized v = event (handle v) -> puts v.
Proof.
  intros Hv Hb He states d Hr. destruct (handle_exact ex states d v Hr) as (r & Hp & Hh & _ & _ & Hok & _).
  exists (set_root r d). rewrite He, Hb. split; [|split; [done|split; [done|by apply Hok]]].
  apply event_run. unfold handle. by rewrite (bind_ok _ _ _ _ _ Hh).
Qed.

(** Inside a container: [c] is what it holds so far, [P] leads to it. *)
Record inside (b : bool) states d (P : list step) (c : json F) d' : Prop := Inside {
  inside_ok : dom_ok ex (b :: states) d';
  inside_stack : ref_stack d' = P :: ref_stack d;
  inside_get : get_at P (root d') = Some c;
  inside_put : put_root d c = Some (root d');
  inside_set : forall w, set_at P w (root d') = put_root d w
}.

Lemma start_run (b : bool) states d c len max_size message :
  wf_json c -> is_kind b c = true -> ready ex states d -> is_excessive len max_size = false ->
  exists d', event (dom_start c len max_size message) d = Ok (tt, d') /\ inside b states d (put_ptr d) c d'.
Proof.
  intros Hc Hk Hr Hx. destruct (handle_exact ex states d c Hr) as (r & Hp & Hh & Hg & Hs & Hok & _).
  pose proof (dom_start_ok ex b states d c len max_size message Hc Hk Hr) as Hw. unfold wp in Hw.
  assert (dom_start c len max_size message d = Ok (true, set_stack (put_ptr d :: ref_stack d) (set_root r d))) as Hrun.
  { unfold dom_start. rewrite (bind_ok _ _ _ _ _ Hh). by rewrite Hx. }
  rewrite Hrun in Hw. destruct Hw as [_ Hw]. eexists. split; [by apply event_run|]. by split.
Qed.

Lemma end_run (b : bool) states d P c d' :
  inside b states d P c d' ->
  exists d2, event (dom_end (if b then is_array else is_object)) d' = Ok (tt, d2) /\
    put_root d c = Some (root d2) /\ ref_stack d2 = ref_stack d /\ dom_ok ex states d2.
Proof.
  intros [Hok Hst Hg Hp Hs]. pose proof (dom_end_ok ex b states d' Hok) as Hw. unfold wp in Hw.
  destruct (dom_back_ok ex b states d' Hok) as (p & ps & x & Hps & _ & _ & Hb).
  assert (dom_end (if b then is_array else is_object) d' = Ok (true, set_stack (tail (ref_stack d')) d')) as Hrun.
  { unfold dom_end. by rewrite (bind_ok _ _ _ _ _ Hb). }
  rewrite Hrun in Hw. destruct Hw as [_ Hw]. eexists. split; [by apply event_run|]. split_and!; try done.
  simpl. by rewrite Hst.
Qed.

(** A change of the container. *)
Lemma inside_next (b : bool) states d P c d1 c' d2 :
  inside b states d P c d1 -> set_at P c' (root d1) = Some (root d2) -> ref_stack d2 = ref_stack d1 ->
  dom_ok ex (b :: states) d2 -> inside b states d P c' d2.
Proof.
  intros [Hok Hst Hg Hp Hs] Hset Hst2 Hok2. split; [done|congruence|by eapply get_set_at|by rewrite <- Hs|].
  intros w. by rewrite (set_set_at _ _ _ _ _ Hset).
Qed.

Lemma elements_run states d P vs0 d1 vs :
  Forall puts vs -> inside true states d P (Jarray vs0) d1 ->
  exists d2, emit_elements sized vs d1 = Ok (tt, d2) /\ inside true states d P (Jarray (vs0 ++ map build vs)) d2.
Proof.
  intros Hvs. revert vs0 d1. induction Hvs as [|v vs Hv _ IH]; intros vs0 d1 Hd.
  { exists d1. rewrite app_nil_r. done. }
  destruct (Hv (true :: states) d1) as (d2 & He & Hp & Hst & Hok); [by destruct Hd|].
  destruct (IH (vs0 ++ [build v]) d2) as (d3 & He3 & Hd3).
  - eapply inside_next; [exact Hd| |done|done]. unfold put_root in Hp. rewrite (inside_stack _ _ _ _ _ _ Hd) in Hp.
    by rewrite (inside_get _ _ _ _ _ _ Hd) in Hp.
  - exists d3. cbn [emit_elements foldr map]. rewrite (bind_ok _ _ _ _ _ He). rewrite <- app_assoc in Hd3. done.
Qed.

Lemma key_event k states d P ms d1 :
  string_rule k -> inside false states d P (Jobject ms) d1 ->
  exists d2, event (dom_key k) d1 = Ok (tt, d2) /\ inside false states d P (Jobject (obj_index k ms)) d2 /\
    ready ex (false :: states) d2 /\ object_element d2 = Some (P ++ [AtKey k]).
Proof.
  intros Hk Hd. pose proof Hd as [Hok Hst Hg Hp Hs].
  pose proof (dom_key_ok ex k states d1 Hk Hok) as Hw. unfold wp in Hw.
  destruct (dom_back_ok ex false states d1 Hok) as (p & ps & x & Hps & Hx & _ & Hb).
  rewrite Hst in Hps. injection Hps as <- <-. rewrite Hg in Hx. injection Hx as <-.
  destruct (set_at_Some P (Jobject (obj_index k ms)) _ _ Hg) as [r Hr].
  assert (dom_key k d1 = Ok (true, set_element (Some (P ++ [AtKey k])) (set_root r d1))) as Hrun.
  { unfold dom_key. rewrite (bind_ok _ _ _ _ _ Hb). simpl. unfold store, mbind, M_bind. by rewrite Hr. }
  rewrite Hrun in Hw. destruct Hw as [_ Hready]. eexists. split; [by apply event_run|]. split_and!; try done.
  eapply inside_next; [exact Hd|exact Hr|done|]. by destruct Hready.
Qed.

Lemma members_run states d P ms0 d1 ms :
  Forall (fun m => string_rule m.1 /\ puts m.2) ms -> inside false states d P (Jobject ms0) d1 ->
  exists d2, emit_members sized ms d1 = Ok (tt, d2) /\
    inside false states d P (Jobject (foldl insert_member ms0 (map (fun m => (m.1, build m.2)) ms))) d2.
Proof.
  intros Hms. revert ms0 d1. induction Hms as [|[k v] ms [Hk Hv] _ IH]; intros ms0 d1 Hd; [by exists d1|].
  simpl in Hk, Hv. destruct (key_event k states d P ms0 d1 Hk Hd) as (d2 & Hkey & Hd2 & Hr2 & Hel).
  destruct (Hv (false :: states) d2 Hr2) as (d3 & He & Hp & Hst & Hok).
  destruct (IH (obj_set k (build v) (obj_index k ms0)) d3) as (d4 & He4 & Hd4).
  - eapply inside_next; [exact Hd2| |done|done]. unfold put_root in Hp. rewrite (inside_stack _ _ _ _ _ _ Hd2) in Hp.
    rewrite (inside_get _ _ _ _ _ _ Hd2), Hel in Hp. simpl in Hp.
    apply (set_at_app _ _ _ _ _ _ (inside_get _ _ _ _ _ _ Hd2)) in Hp as (y & Hy & Hset). simpl in Hy.
    destruct (obj_get k (obj_index k ms0)); [|done]. by simplify_eq/=.
  - exists d4. split; [|exact Hd4]. cbn [emit_members foldr fst snd]. rewrite (bind_ok _ _ _ _ _ Hkey).
    by rewrite (bind_ok _ _ _ _ _ He).
Qed.

Lemma announced_fits n max_size : (sized = true -> Z.of_nat n <= max_size) -> is_excessive (announced sized n) max_size = false.
Proof.
  intros Hn. unfold is_excessive, announced. destruct sized; [|done]. rewrite (proj2 (Z.ltb_ge _ _)) by auto. apply andb_false_r.
Qed.

Lemma emit_dom v : denoted v -> (sized = true -> fits v) -> puts v.
Proof.
  induction v as [|ms IH|vs IH|s|b|n|n|x|bs subtype|] using json_ind; intros Hv Hf; try done; try (by apply puts_scalar).
  - apply denoted_object in Hv. rewrite fits_object in Hf. intros states d Hr.
    destruct (start_run false states d (Jobject []) (announced sized (length ms)) object_max_size (str "excessive object size: "))
      as (d1 & Hs & Hd1); [done..|by apply announced_fits, Hf|].
    destruct (members_run states d (put_ptr d) [] d1 ms) as (d2 & He & Hd2); [|done|].
    { rewrite Forall_forall in IH, Hv |- *. intros m Hm. split; [by apply Hv|]. apply IH; [done|by apply Hv|].
      intros Hsz. destruct (Hf Hsz) as [_ Hfs]. rewrite Forall_forall in Hfs. by apply Hfs. }
    destruct (end_run false _ _ _ _ _ Hd2) as (d3 & He3 & Hp3 & Hst3 & Hok3). exists d3. split; [|done].
    simpl. rewrite (bind_ok _ _ _ _ _ Hs). by rewrite (bind_ok _ _ _ _ _ He).
  - apply denoted_array in Hv. rewrite fits_array in Hf. intros states d Hr.
    destruct (start_run true states d (Jarray []) (announced sized (length vs)) array_max_size (str "excessive array size: "))
      as (d1 & Hs & Hd1); [done..|by apply announced_fits, Hf|].
    destruct (elements_run states d (put_ptr d) [] d1 vs) as (d2 & He & Hd2); [|done|].
    { rewrite Forall_forall in IH, Hv |- *. intros v Hin. apply IH; [done|by apply Hv|].
      intros Hsz. destruct (Hf Hsz) as [_ Hfs]. rewrite Forall_forall in Hfs. by apply Hfs. }
    destruct (end_run true _ _ _ _ _ Hd2) as (d3 & He3 & Hp3 & Hst3 & Hok3). exists d3. split; [|done].
    simpl. rewrite (bind_ok _ _ _ _ _ Hs). by rewrite (bind_ok _ _ _ _ _ He).
Qed.
End dom.

(** ** [parse] on a text *)

Section parse.
Context {F : Type} `{NumberFloat F} (dp : Z).
Hypothesis Hdp : point_ok dp.

(** The parser after its constructor, on a text between white space. *)
Lemma init_text (v : json F) t w1 w2 (exceptions comments : bool) :
  json_text dp v t -> ws w1 -> ws w2 ->
  exists p, parser_init (w1 ++ t ++ w2) comments dp (dom_init exceptions) = Ok p /\ m_sax p = dom_init exceptions /\
    (exists q, token_at comments dp q p) /\
    forall s R, goes_to (emit false v) (dom_init exceptions) tt s -> after_run comments dp w2 s [] R -> runs [] false p R.
Proof.
  intros Ht Hw1 Hw2. destruct (reads_text (S := dom (F := F)) comments dp Hdp v t Ht) as (x & t' & -> & Hx & Hf & _ & Hrun).
  assert (Forall is_byte (w1 ++ (lexeme_text x ++ t') ++ w2)) as Hb.
  { rewrite !Forall_app. rewrite <- Forall_app. split_and!; [by apply ws_bytes|by eapply text_bytes|by apply ws_bytes]. }
  assert (stops w2) as Hst by (rewrite <- (app_nil_r w2); by apply stops_space).
  destruct (parser_init_ok dp Hdp _ comments (dom_init (F := F) exceptions) Hb) as (p & q & Hi & Hs & Hq).
  exists p. split; [done|]. split; [done|]. split; [by exists q|]. intros s R He HR.
  destruct (get_lexeme (S := dom (F := F)) comments dp Hdp x w1 (t' ++ w2) (Parser uninitialized (lexer_init (w1 ++ (lexeme_text x ++ t') ++ w2) comments dp)
    (dom_init (F := F) exceptions))) as (p' & Hg & Hat); [done|done|by apply Hf| |].
  { exists 0, npos, []. simpl. rewrite (app_assoc (lexeme_text x)). by apply lexer_init_lx. }
  unfold parser_init in Hi. rewrite Hg in Hi. injection Hi as ->.
  by eapply (Hrun w2).
Qed.

(** [parse] on a text between white space. *)
Lemma json_parse_ws (v : json F) t w1 w2 (exceptions comments : bool) :
  json_text dp v t -> ws w1 -> ws w2 -> json_parse dp (w1 ++ t ++ w2) exceptions comments = Ok (build v).
Proof.
  intros Ht Hw1 Hw2. unfold json_parse.
  destruct (init_text v t w1 w2 exceptions comments Ht Hw1 Hw2) as (p & -> & Hsax & (q & Hq) & Hrun).
  destruct (emit_dom exceptions false v (text_denoted _ _ _ Ht) ltac:(done) [] (dom_init exceptions)) as (d & He & Hp & _ & Hok); [by repeat constructor|].
  injection Hp as Hroot.
  assert (runs [] false p (fun r => r.1 = true /\ m_sax r.2 = d /\ left_of comments dp w2 r.2)) as Hr.
  { apply (Hrun d); [exact He|]. intros p1 Hp1 Hs1. by apply (runs_return _ _ _ true p1). }
  assert (exists p1, sax_parse_internal p = Ok (true, p1) /\ m_sax p1 = d /\ left_of comments dp w2 p1) as (p1 & Hi & Hs1 & Hp1).
  { pose proof (sax_parse_internal_ok dp Hdp (HS := dom_spec exceptions json_codes) comments q p Hq) as Hw. rewrite Hsax in Hw.
    specialize (Hw ltac:(by repeat constructor)). unfold wp, sax_parse_internal, mbind, M_bind in Hw |- *.
    destruct (with_lexer loop_fuel p) as [[k p0]|f] eqn:Ek.
    - assert (p0 = p) as -> by (destruct p; unfold with_lexer, loop_fuel, gets in Ek; by injection Ek as _ <-).
      destruct (runs_unique _ _ _ _ (Datatypes.S k) _ Hr eq_refl) as ([b p1] & -> & Hb & Hs1 & Hp1); [|simpl in Hb; subst b; by exists p1].
      destruct (parse_loop _ [] false p) as [?|f]; [done|]. destruct Hw as (? & ? & -> & _). done.
    - by destruct p. }
  unfold parser_parse, parse_with. rewrite (bind_ok _ _ _ _ _ Hi).
  destruct (get_lexeme comments dp Hdp Lend w2 [] p1) as (p2 & Hg & (_ & Hs2 & _)); [done..|by rewrite app_nil_r|].
  rewrite (bind_ok _ _ _ _ _ Hg). rewrite decide_True by done. simpl. rewrite Hs2, Hs1, (dom_noerror _ _ _ Hok). by rewrite Hroot.
Qed.

End parse.
