(* ===== verification/JsonRound.v ===== *)
(** JsonRound: what [dump] writes, [parse] reads.

    [dump_json_text]: the text of a value is one of the grammar, of the value with its
    non-negative integers unsigned ([norm]), provided that its floating-point
    numbers are printed so that they read back ([reads_back]; JsonStrtod.v shows it
    for [double]).  [json_roundtrip]: parsing the dumped text gives back that value. *)

From S2P Require Import Prelude Json JsonLexer JsonParser JsonDump JsonUtf8 JsonLexProps JsonScan JsonDom JsonTotal JsonParse JsonNumeral JsonNumber JsonDumpInv JsonEscape JsonDumpText JsonText JsonRead JsonBuild.

(** ** Texts between brackets *)

Lemma ws_nil : ws [].
Proof. constructor. Qed.

Lemma ws_indent ichar n : is_space ichar = true -> ws (indent_text ichar n).
Proof.
  intros Hc. apply Forall_take, Forall_app. split; apply Forall_replicate; done.
Qed.

Lemma join_prefix sep (p : list Z) ts : ts <> [] -> join sep ((fun t => p ++ t) <$> ts) = p ++ join (sep ++ p) ts.
Proof.
  induction ts as [|t ts IH]; [done|]. intros _. rewrite fmap_cons, !join_cons.
  destruct ts as [|u ts]; [done|]. rewrite IH by done. by rewrite <- !app_assoc.
Qed.

(** The items, each after white space [w0], separated by commas. *)
Lemma bracket_join ichar step cur opening closing items :
  (is_Some step -> is_space ichar = true) -> items <> [] ->
  exists w0 w2, ws w0 /\ ws w2 /\
    bracket_text ichar step cur [opening] [closing] items = opening :: (w0 ++ join (cCOMMA :: w0) items ++ w2) ++ [closing].
Proof.
  intros Hc Hi. destruct step as [n|].
  - assert (forall k, ws (cLF :: indent_text ichar k)) as Hw.
    { intros k. constructor; [done|]. apply ws_indent, Hc. by eexists. }
    exists (cLF :: indent_text ichar (u32 (cur + n))), (cLF :: indent_text ichar cur). split; [done|]. split; [done|].
    rewrite bracket_pretty by done. rewrite join_prefix by done. cbn [app]. by rewrite <- !app_assoc.
  - exists [], []. do 2 (split; [apply ws_nil|]). destruct items; [done|]. by rewrite app_nil_r.
Qed.

Section grammar.
Context {F : Type} `{NumberFloat F} (dp : Z).
Implicit Types (v : json F).

Lemma elements_join (vs : list (json F)) ts w0 w2 :
  Forall2 (json_text dp) vs ts -> vs <> [] -> ws w0 -> ws w2 -> elements_text dp vs (w0 ++ join (cCOMMA :: w0) ts ++ w2).
Proof.
  intros Ht Hne Hw0 Hw2. induction Ht as [|v t vs ts Hv Ht IH]; [done|]. rewrite join_cons.
  destruct Ht as [|v' t' vs ts Hv' Ht]; [by constructor|].
  rewrite <- ?app_assoc. cbn [app]. rewrite <- ?app_assoc.
  apply (elements_more dp v w0 t [] (v' :: vs)); [done|done|apply ws_nil|]. by apply IH.
Qed.

(** The text of a member, compact or pretty. *)
Definition member_text (m : list Z * json F) t : Prop :=
  exists s w u, string_text s m.1 /\ ws w /\ json_text dp m.2 u /\ t = quote_text s ++ cCOLON :: w ++ u.

Lemma members_join (ms : list (list Z * json F)) ts w0 w2 :
  Forall2 member_text ms ts -> ms <> [] -> ws w0 -> ws w2 -> members_text dp ms (w0 ++ join (cCOMMA :: w0) ts ++ w2).
Proof.
  intros Ht Hne Hw0 Hw2. induction Ht as [|[k v] t ms ts Hv Ht IH]; [done|].
  destruct Hv as (s & w & u & Hs & Hw & Hu & ->). rewrite join_cons.
  destruct Ht as [|m' t' ms ts Hv' Ht]; rewrite <- ?app_assoc; cbn [app]; rewrite <- ?app_assoc.
  - apply (members_one dp s k v w0 [] w); try done; apply ws_nil.
  - cbn [app]; rewrite <- ?app_assoc; cbn [app].
    apply (members_more dp s k v w0 [] w u [] (m' :: ms)); [done|done|apply ws_nil|done|done|apply ws_nil|]. by apply IH.
Qed.

(** ** The value read back *)

(** [parse] takes a number without a sign for an unsigned one. *)
Fixpoint norm v : json F :=
  match v with
  | Jobject ms => Jobject (map (fun m => (m.1, norm m.2)) ms)
  | Jarray vs => Jarray (map norm vs)
  | Jnumber_integer n => if n <? 0 then Jnumber_integer n else Jnumber_unsigned n
  | v => v
  end.

Lemma denoted_norm v : denoted v -> denoted (norm v).
Proof.
  induction v as [|ms IH|vs IH|s|b|n|n|x|bs subtype|] using json_ind; intros Hv; try done.
  - rewrite denoted_object in Hv. cbn [norm]. rewrite denoted_object. apply Forall_map. rewrite Forall_forall in IH, Hv |- *.
    intros m Hm. destruct (Hv m Hm). split; [done|]. by apply IH.
  - rewrite denoted_array in Hv. cbn [norm]. rewrite denoted_array. apply Forall_map. rewrite Forall_forall in IH, Hv |- *.
    intros v Hv'. apply IH; auto.
  - simpl in *. unfold in_s in Hv. case_match; [done|]. simpl. unfold in_u. lia.
Qed.
End grammar.

(** ** Maps in order *)

Section ascending.
Context {F : Type}.
Implicit Types (v : json F) (ms : list (list Z * json F)) (k : list Z).

Lemma ascending_app k (ks ks' : list (list Z)) :
  keys_ascending (ks ++ k :: ks') = true -> Forall (fun k' => key_ltb k' k = true) ks.
Proof.
  induction ks as [|k1 ks IH]; [by constructor|]. cbn [app]. rewrite keys_ascending_cons.
  intros [Hlt Ha]. constructor; [|by apply IH]. rewrite Forall_app, Forall_cons in Hlt. tauto.
Qed.

(** A member after all others. *)
Lemma insert_last ms k v :
  Forall (fun k' => key_ltb k' k = true) ms.*1 -> insert_member ms (k, v) = ms ++ [(k, v)].
Proof.
  unfold insert_member. cbn [fst snd]. induction ms as [|[k1 v1] ms IH]; intros Hms; [simpl; by rewrite decide_True|].
  rewrite fmap_cons, Forall_cons in Hms. destruct Hms as [H1 Hms]. cbn [fst] in H1. cbn [obj_index].
  assert (key_ltb k k1 = false) as ->.
  { destruct (key_ltb k k1) eqn:E1; [|done]. pose proof (key_ltb_trans _ _ _ E1 H1) as Hk. by rewrite key_ltb_irrefl in Hk. }
  rewrite H1. cbn [obj_set]. rewrite decide_False; [by rewrite IH|]. intros ->. by rewrite key_ltb_irrefl in H1.
Qed.

Lemma insert_all ms ms' :
  keys_ascending (ms ++ ms').*1 = true -> foldl insert_member ms ms' = ms ++ ms'.
Proof.
  revert ms. induction ms' as [|[k v] ms' IH]; intros ms Ha; [by rewrite app_nil_r|].
  cbn [foldl]. rewrite insert_last; [|rewrite fmap_app, fmap_cons in Ha; by eapply ascending_app].
  rewrite IH by (by rewrite <- app_assoc). by rewrite <- app_assoc.
Qed.
End ascending.

Section round.
Context {F : Type} `{NumberFloat F}.
Implicit Types (v : json F).

Lemma map_eq_id {A} (f : A -> A) l : Forall (fun x => f x = x) l -> map f l = l.
Proof. induction 1 as [|x l Hx _ IH]; [done|]. simpl. by rewrite Hx, IH. Qed.

(** The map of a parsed object is the object itself. *)
Lemma build_norm v : wf_json v -> build (norm v) = norm v.
Proof.
  induction v as [|ms IH|vs IH|s|b|n|n|x|bs subtype|] using json_ind; intros Hv; try done.
  - apply wf_object in Hv as [Ha Hv]. cbn [norm build]. rewrite map_map.
    assert (map (fun m => (m.1, build (norm m.2))) ms = map (fun m => (m.1, norm m.2)) ms) as Heq.
    { apply map_ext_in. intros m Hm%list_elem_of_In. rewrite Forall_forall in IH, Hv. f_equal. apply IH; [done|]. by apply Hv. }
    cbn [fst snd]. rewrite Heq, insert_all; [done|].
    cbn [app]. by rewrite <- list_fmap_compose.
  - apply wf_array in Hv. cbn [norm build]. rewrite map_map. f_equal. apply map_ext_in. intros v Hin%list_elem_of_In.
    rewrite Forall_forall in IH, Hv. auto.
  - simpl. by case_match.
Qed.

Lemma denoted_typed v : denoted v -> typed v /\ all_utf8 v.
Proof.
  induction v as [|ms IH|vs IH|s|b|n|n|x|bs subtype|] using json_ind; intros Hv; try done.
  - rewrite denoted_object in Hv. rewrite typed_object, all_utf8_object. rewrite Forall_forall in IH, Hv. rewrite !Forall_forall.
    split; intros m Hm; destruct (Hv m Hm) as [Hk Hd]; destruct (IH m Hm Hd); split; try done. by apply is_utf8_bytes.
  - rewrite denoted_array in Hv. rewrite typed_array, all_utf8_array. rewrite Forall_forall in IH, Hv. rewrite !Forall_forall.
    split; intros v Hin; by apply IH, Hv.
  - split; [by apply is_utf8_bytes|done].
Qed.

(** ** [dump] writes texts of the grammar *)

(** [P] of every floating-point number of a value. *)
Fixpoint all_floats (P : F -> Prop) v : Prop :=
  match v with
  | Jobject ms => foldr (fun m Q => all_floats P m.2 /\ Q) True ms
  | Jarray vs => foldr (fun v Q => all_floats P v /\ Q) True vs
  | Jnumber_float x => P x
  | _ => True
  end.

Lemma all_floats_array P vs : all_floats P (Jarray vs) <-> Forall (all_floats P) vs.
Proof. apply foldr_and. Qed.
Lemma all_floats_object P ms : all_floats P (Jobject ms) <-> Forall (fun m => all_floats P m.2) ms.
Proof. apply (foldr_and (fun m => all_floats P m.2)). Qed.

(** The text [dump] writes of a floating-point number denotes that number. *)
Definition reads_back (dp : Z) (x : F) : Prop := json_text dp (Jnumber_float x) (float_chars x).

Variable (dp : Z) (ichar : Z) (handler : error_handler_t) (ensure_ascii : bool).
Abbreviation text := (dump_text ichar handler ensure_ascii).

Lemma quoted_quote s :
  quoted_text handler ensure_ascii s = quote_text (escape_text ensure_ascii (repair (bad_of handler) [] [] s)).
Proof. done. Qed.

Lemma numeral_text n : in_s 64 n -> json_text dp (norm (F := F) (Jnumber_integer n)) (numeral n).
Proof.
  unfold in_s, numeral. cbn [norm]. intros Hn. destruct (n <? 0) eqn:E.
  - rewrite <- (Z.opp_involutive n) at 1. apply text_integer. lia.
  - apply text_unsigned. lia.
Qed.

Lemma dump_json_text v step cur :
  (is_Some step -> is_space ichar = true) -> denoted v -> all_floats (reads_back dp) v -> json_text dp (norm v) (text step cur v).
Proof.
  intros Hc. revert cur. induction v as [|ms IH|vs IH|s|b|n|n|x|bs subtype|] using json_ind; intros cur Hv Hfl; try done.
  - constructor.
  - rewrite denoted_object in Hv. rewrite all_floats_object in Hfl. destruct ms as [|m ms]; [destruct step; apply (text_empty_object dp []), ws_nil|].
    cbn [dump_text norm]. edestruct bracket_join as (w0 & w2 & Hw0 & Hw2 & ->); [exact Hc|by rewrite fmap_cons|].
    apply text_object, members_join; [|done..]. apply Forall2_fmap. rewrite Forall_forall in IH, Hv, Hfl.
    apply Forall_Forall2_diag, Forall_forall. intros m' Hm. destruct (Hv m' Hm) as [Hk Hd].
    exists (escape_text ensure_ascii (repair (bad_of handler) [] [] m'.1)), (match step with Some _ => [cSPACE] | None => [] end).
    eexists. split; [by apply escape_text_string|]. split; [by destruct step; repeat constructor|].
    split; [by apply IH; [..|apply Hfl]|]. rewrite quoted_quote. by destruct step.
  - rewrite denoted_array in Hv. rewrite all_floats_array in Hfl. destruct vs as [|v vs]; [destruct step; apply (text_empty_array dp []), ws_nil|].
    cbn [dump_text norm]. edestruct bracket_join as (w0 & w2 & Hw0 & Hw2 & ->); [exact Hc|by rewrite fmap_cons|].
    apply text_array, elements_join; [|done..]. apply Forall2_fmap. rewrite Forall_forall in IH, Hv, Hfl.
    apply Forall_Forall2_diag, Forall_forall. intros v' Hin. apply IH; auto.
  - apply text_string. by apply escape_text_string.
  - destruct b; constructor.
  - by apply numeral_text.
  - cbn [dump_text norm]. unfold numeral. simpl in Hv. unfold in_u in Hv. rewrite (proj2 (Z.ltb_ge n 0)) by lia. by apply text_unsigned.
  - cbn [dump_text norm]. unfold float_text. simpl in Hv. by rewrite Hv.
Qed.
End round.

(** ** The round trip *)

Section round_trip.
Context {F : Type} `{NumberFloat F} (dp : Z).
Hypothesis Hdp : point_ok dp.

Lemma json_dump_parse (v : json F) (sep indent ichar : Z) (ensure_ascii exceptions comments : bool) (handler : error_handler_t) :
  is_ieee_single_or_double = true -> wf_json v -> denoted v -> all_floats (reads_back dp) v ->
  indent <= 1024 -> (0 <= indent -> is_space ichar = true) ->
  exists t, json_dump sep dp v indent ichar ensure_ascii handler = Ok t /\
    json_parse dp t exceptions comments = Ok (norm v).
Proof.
  intros Hieee Hwf Hd Hfl Hi Hc. destruct (denoted_typed v Hd) as [Hty Hu].
  pose proof (json_dump_writes v sep dp indent ichar ensure_ascii handler Hieee Hty Hi) as Ht.
  destruct (json_dump _ _ _ _ _ _ _) as [t|f]; [|by destruct Ht as (_ & ? & _)]. destruct Ht as [-> _].
  eexists. split; [done|]. rewrite <- (build_norm v Hwf).
  set (t := dump_text _ _ _ _ _ _). rewrite <- (app_nil_r t). change (t ++ []) with ([] ++ t ++ []).
  apply json_parse_ws; [done| |apply ws_nil..]. apply dump_json_text; [|done..].
  intros Hs. apply Hc. destruct (0 <=? indent) eqn:E; [lia|]. by destruct Hs.
Qed.

(** [parse] of the text [dump] writes, compact or with an indentation of at most
    1024 white-space characters, escaping to ASCII or not, under any error handler:
    for a well-formed value, [dump] succeeds and [parse] gives the value back, its
    non-negative integers as unsigned ones; of a floating-point number type this asks
    only that the numbers of the value, as they are printed, read back. *)
Theorem json_roundtrip (v : json F) (sep indent ichar : Z) (ensure_ascii exceptions comments : bool) (handler : error_handler_t) :
  is_ieee_single_or_double = true -> wf_json v -> denoted v -> all_floats (reads_back dp) v ->
  indent <= 1024 -> (0 <= indent -> is_space ichar = true) ->
  exists t, json_dump sep dp v indent ichar ensure_ascii handler = Ok t /\
    json_parse dp t exceptions comments = Ok (norm v).
Proof. apply json_dump_parse. Qed.
End round_trip.

(** ** Instances *)

Definition sample : json (list Z) :=
  Jobject [(str "a", Jarray [Jnumber_integer 1; Jnumber_integer (-2); Jnull]); (str "b", Jstring (encode 0xE9))].


Lemma json_dump_overflow_witness :
  1026 <= 1026 < 2 ^ 31 /\
  json_dump (H := textual) 0 cDOT (Jarray [Jnull]) 1026 cSPACE false strict = Fault OutOfBounds.
Proof. split; [lia|]. apply (json_dump_overflow (H := textual)). lia. Defined.


Lemma json_roundtrip_witness :
  wf_json (R := json_rules (H := textual)) sample /\
  exists t, json_dump (H := textual) 0 cDOT sample 2 cSPACE true strict = Ok t /\
    t = str "{" ++ [cLF] ++ str "  " ++ [cQUOTE] ++ str "a" ++ [cQUOTE] ++ str ": [" ++ [cLF] ++ str "    1," ++ [cLF] ++
      str "    -2," ++ [cLF] ++ str "    null" ++ [cLF] ++ str "  ]," ++ [cLF] ++ str "  " ++ [cQUOTE] ++ str "b" ++ [cQUOTE] ++
      str ": " ++ [cQUOTE] ++ str "\u00e9" ++ [cQUOTE] ++ [cLF] ++ str "}" /\
    json_parse (H := textual) cDOT t true false =
      Ok (Jobject [(str "a", Jarray [Jnumber_unsigned 1; Jnumber_integer (-2); Jnull]); (str "b", Jstring (encode 0xE9))]).
Proof.
  assert (is_utf8 (str "a") /\ is_utf8 (str "b") /\ is_utf8 (encode 0xE9)) as (Ha & Hb & He).
  { split_and!; by apply utf8_run_spec. }
  assert (wf_json (R := json_rules (H := textual)) sample) as Hwf by (by repeat constructor).
  assert (denoted (R := json_rules (H := textual)) sample) as Hd by (by repeat constructor).
  split; [exact Hwf|].
  destruct (json_roundtrip (H := textual) cDOT textual_point sample 0 2 cSPACE true true false strict eq_refl Hwf Hd) as (t & Hw & Hp); [by repeat constructor|lia|done|].
  exists t. split; [exact Hw|]. split; [|exact Hp]. vm_compute in Hw. by injection Hw as <-.
Defined.
