(* ===== verification/JsonGrisu.v ===== *)
(** JsonGrisu: [to_chars], the conversion of a [double] to its shortest digits
    ([namespace dtoa_impl] of 3rd/include/hv/json.hpp, the algorithm Grisu2).

    A [double] is its IEEE representation, a 64-bit number.  The functions that
    write run on the buffer [first, last), a list of bytes that is never left:
    writing outside it is [OutOfBounds].  A pointer into the buffer is an index. *)

From S2P Require Import Prelude Json.

(** ** The buffer *)

Section memory.
Implicit Types (buf cs : list Z).

Definition write_at (pos : Z) cs : M (list Z) unit := fun buf =>
  if (0 <=? pos) && (pos + Z.of_nat (length cs) <=? Z.of_nat (length buf)) then
    Ok (tt, take (Z.to_nat pos) buf ++ cs ++ drop (Z.to_nat pos + length cs) buf)
  else Fault OutOfBounds.

Definition read_at (pos n : Z) : M (list Z) (list Z) := fun buf =>
  if (0 <=? pos) && (0 <=? n) && (pos + n <=? Z.of_nat (length buf)) then
    Ok (take (Z.to_nat n) (drop (Z.to_nat pos) buf), buf)
  else Fault OutOfBounds.

Definition memset (pos c n : Z) : M (list Z) unit := write_at pos (replicate (Z.to_nat n) c).
Definition memmove (dst src n : Z) : M (list Z) unit := cs ← read_at src n; write_at dst cs.
End memory.

Module dtoa_impl.

Section code.
Context {S : Type}.

Definition json_assert (b : bool) : M S unit := if b then mret tt else fail AssertFailed.

(** Shifts of [uint64_t]; a distance outside its width is undefined. *)
Definition shl64 (x n : Z) : M S Z := if (0 <=? n) && (n <? 64) then mret (u64 (Z.shiftl x n)) else fail Overflow.
Definition shr64 (x n : Z) : M S Z := if (0 <=? n) && (n <? 64) then mret (Z.shiftr x n) else fail Overflow.

(** ** [diyfp] *)

(** [df * 2 ^ de] *)
Record diyfp := Diyfp { df : Z; de : Z }.

Definition sub (x y : diyfp) : M S diyfp :=
  json_assert (de x =? de y);;
  json_assert (df y <=? df x);;
  mret (Diyfp (u64 (df x - df y)) (de x)).

Definition mul (x y : diyfp) : diyfp :=
  let u_lo := Z.land (df x) 0xFFFFFFFF in
  let u_hi := Z.shiftr (df x) 32 in
  let v_lo := Z.land (df y) 0xFFFFFFFF in
  let v_hi := Z.shiftr (df y) 32 in
  let p0 := u64 (u_lo * v_lo) in
  let p1 := u64 (u_lo * v_hi) in
  let p2 := u64 (u_hi * v_lo) in
  let p3 := u64 (u_hi * v_hi) in
  let p0_hi := Z.shiftr p0 32 in
  let p1_lo := Z.land p1 0xFFFFFFFF in
  let p1_hi := Z.shiftr p1 32 in
  let p2_lo := Z.land p2 0xFFFFFFFF in
  let p2_hi := Z.shiftr p2 32 in
  let Q := u64 (p0_hi + p1_lo + p2_lo) in
  let Q := u64 (Q + u64 (Z.shiftl 1 (64 - 32 - 1))) in
  let h := u64 (p3 + p2_hi + p1_hi + Z.shiftr Q 32) in
  Diyfp h (de x + de y + 64).

Fixpoint normalize_loop (fuel : nat) (x : diyfp) : M S diyfp :=
  match fuel with
  | O => fail OutOfFuel
  | Datatypes.S fuel =>
      if Z.shiftr (df x) 63 =? 0 then normalize_loop fuel (Diyfp (u64 (Z.shiftl (df x) 1)) (de x - 1)) else mret x
  end.

(** A number other than 0 has at most 63 leading zeros. *)
Definition normalize (x : diyfp) : M S diyfp := json_assert (negb (df x =? 0));; normalize_loop 64 x.

Definition normalize_to (x : diyfp) (target_exponent : Z) : M S diyfp :=
  let delta := de x - target_exponent in
  json_assert (0 <=? delta);;
  f ← shl64 (df x) delta;
  back ← shr64 f delta;
  json_assert (back =? df x);;
  mret (Diyfp f target_exponent).

(** ** [compute_boundaries], for [double] *)

Record boundaries := Boundaries { b_w : diyfp; b_minus : diyfp; b_plus : diyfp }.

Definition kPrecision := 53.
Definition kBias := 1024 - 1 + (kPrecision - 1).
Definition kMinExp := 1 - kBias.
Definition kHiddenBit := Z.shiftl 1 (kPrecision - 1).

(** [std::isfinite], [std::signbit] and [value > 0] on the representation *)
Definition isfinite (bits : Z) : bool := negb (Z.land (Z.shiftr bits 52) 0x7FF =? 0x7FF).
Definition signbit (bits : Z) : bool := 2 ^ 63 <=? bits.
Definition is_positive (bits : Z) : bool := negb (signbit bits) && (0 <? bits).

Definition compute_boundaries (value : Z) : M S boundaries :=
  json_assert (isfinite value);;
  json_assert (is_positive value);;
  let E := Z.shiftr value (kPrecision - 1) in
  let F := Z.land value (kHiddenBit - 1) in
  let is_denormal := E =? 0 in
  let v := if is_denormal then Diyfp F kMinExp else Diyfp (u64 (F + kHiddenBit)) (E - kBias) in
  let lower_boundary_is_closer := (F =? 0) && (1 <? E) in
  let m_plus := Diyfp (u64 (2 * df v + 1)) (de v - 1) in
  let m_minus := if lower_boundary_is_closer then Diyfp (u64 (4 * df v - 1)) (de v - 2) else Diyfp (u64 (2 * df v - 1)) (de v - 1) in
  w_plus ← normalize m_plus;
  w_minus ← normalize_to m_minus (de w_plus);
  w ← normalize v;
  mret (Boundaries w w_minus w_plus).

(** ** Cached powers of ten *)

Definition kAlpha := -60.
Definition kGamma := -32.

Record cached_power := CachedPower { cp_f : Z; cp_e : Z; cp_k : Z }.

Definition kCachedPowersMinDecExp := -300.
Definition kCachedPowersDecStep := 8.

Definition kCachedPowers : list cached_power :=
  (fun r => CachedPower r.1.1 r.1.2 r.2) <$> [
   (0xAB70FE17C79AC6CA, -1060, -300); (0xFF77B1FCBEBCDC4F, -1034, -292); (0xBE5691EF416BD60C, -1007, -284);
   (0x8DD01FAD907FFC3C, -980, -276); (0xD3515C2831559A83, -954, -268); (0x9D71AC8FADA6C9B5, -927, -260);
   (0xEA9C227723EE8BCB, -901, -252); (0xAECC49914078536D, -874, -244); (0x823C12795DB6CE57, -847, -236);
   (0xC21094364DFB5637, -821, -228); (0x9096EA6F3848984F, -794, -220); (0xD77485CB25823AC7, -768, -212);
   (0xA086CFCD97BF97F4, -741, -204); (0xEF340A98172AACE5, -715, -196); (0xB23867FB2A35B28E, -688, -188);
   (0x84C8D4DFD2C63F3B, -661, -180); (0xC5DD44271AD3CDBA, -635, -172); (0x936B9FCEBB25C996, -608, -164);
   (0xDBAC6C247D62A584, -582, -156); (0xA3AB66580D5FDAF6, -555, -148); (0xF3E2F893DEC3F126, -529, -140);
   (0xB5B5ADA8AAFF80B8, -502, -132); (0x87625F056C7C4A8B, -475, -124); (0xC9BCFF6034C13053, -449, -116);
   (0x964E858C91BA2655, -422, -108); (0xDFF9772470297EBD, -396, -100); (0xA6DFBD9FB8E5B88F, -369, -92);
   (0xF8A95FCF88747D94, -343, -84); (0xB94470938FA89BCF, -316, -76); (0x8A08F0F8BF0F156B, -289, -68);
   (0xCDB02555653131B6, -263, -60); (0x993FE2C6D07B7FAC, -236, -52); (0xE45C10C42A2B3B06, -210, -44);
   (0xAA242499697392D3, -183, -36); (0xFD87B5F28300CA0E, -157, -28); (0xBCE5086492111AEB, -130, -20);
   (0x8CBCCC096F5088CC, -103, -12); (0xD1B71758E219652C, -77, -4); (0x9C40000000000000, -50, 4);
   (0xE8D4A51000000000, -24, 12); (0xAD78EBC5AC620000, 3, 20); (0x813F3978F8940984, 30, 28);
   (0xC097CE7BC90715B3, 56, 36); (0x8F7E32CE7BEA5C70, 83, 44); (0xD5D238A4ABE98068, 109, 52);
   (0x9F4F2726179A2245, 136, 60); (0xED63A231D4C4FB27, 162, 68); (0xB0DE65388CC8ADA8, 189, 76);
   (0x83C7088E1AAB65DB, 216, 84); (0xC45D1DF942711D9A, 242, 92); (0x924D692CA61BE758, 269, 100);
   (0xDA01EE641A708DEA, 295, 108); (0xA26DA3999AEF774A, 322, 116); (0xF209787BB47D6B85, 348, 124);
   (0xB454E4A179DD1877, 375, 132); (0x865B86925B9BC5C2, 402, 140); (0xC83553C5C8965D3D, 428, 148);
   (0x952AB45CFA97A0B3, 455, 156); (0xDE469FBD99A05FE3, 481, 164); (0xA59BC234DB398C25, 508, 172);
   (0xF6C69A72A3989F5C, 534, 180); (0xB7DCBF5354E9BECE, 561, 188); (0x88FCF317F22241E2, 588, 196);
   (0xCC20CE9BD35C78A5, 614, 204); (0x98165AF37B2153DF, 641, 212); (0xE2A0B5DC971F303A, 667, 220);
   (0xA8D9D1535CE3B396, 694, 228); (0xFB9B7CD9A4A7443C, 720, 236); (0xBB764C4CA7A44410, 747, 244);
   (0x8BAB8EEFB6409C1A, 774, 252); (0xD01FEF10A657842C, 800, 260); (0x9B10A4E5E9913129, 827, 268);
   (0xE7109BFBA19C0C9D, 853, 276); (0xAC2820D9623BF429, 880, 284); (0x80444B5E7AA7CF85, 907, 292);
   (0xBF21E44003ACDD2D, 933, 300); (0x8E679C2F5E44FF8F, 960, 308); (0xD433179D9C8CB841, 986, 316);
   (0x9E19DB92B4E31BA9, 1013, 324)].

Definition get_cached_power_for_binary_exponent (e : Z) : M S cached_power :=
  json_assert (-1500 <=? e);;
  json_assert (e <=? 1500);;
  let f := kAlpha - e - 1 in
  let k := Z.quot (f * 78913) (Z.shiftl 1 18) + Z.b2z (0 <? f) in
  let index := Z.quot (- kCachedPowersMinDecExp + k + (kCachedPowersDecStep - 1)) kCachedPowersDecStep in
  json_assert (0 <=? index);;
  json_assert (index <? Z.of_nat (length kCachedPowers));;
  match kCachedPowers !! Z.to_nat index with
  | None => fail OutOfBounds
  | Some cached =>
      json_assert (kAlpha <=? cp_e cached + e + 64);;
      json_assert (cp_e cached + e + 64 <=? kGamma);;
      mret cached
  end.

(** The result and [pow10] *)
Definition find_largest_pow10 (n : Z) : Z * Z :=
  if 1000000000 <=? n then (10, 1000000000)
  else if 100000000 <=? n then (9, 100000000)
  else if 10000000 <=? n then (8, 10000000)
  else if 1000000 <=? n then (7, 1000000)
  else if 100000 <=? n then (6, 100000)
  else if 10000 <=? n then (5, 10000)
  else if 1000 <=? n then (4, 1000)
  else if 100 <=? n then (3, 100)
  else if 10 <=? n then (2, 10)
  else (1, 1).
End code.

(** ** Digit generation

    [buf] is the pointer to the first digit. *)

Section digits.
Implicit Types (length decimal_exponent : Z).

Fixpoint grisu2_round_loop (fuel : nat) (buf len dist delta rest ten_k : Z) : M (list Z) unit :=
  match fuel with
  | O => fail OutOfFuel
  | Datatypes.S fuel =>
      if (rest <? dist) && (ten_k <=? u64 (delta - rest)) &&
         ((u64 (rest + ten_k) <? dist) || (u64 (u64 (rest + ten_k) - dist) <? u64 (dist - rest))) then
        cs ← read_at (buf + (len - 1)) 1;
        match cs with
        | [c] =>
            json_assert (negb (c =? c0));;
            write_at (buf + (len - 1)) [u8 (c - 1)];;
            grisu2_round_loop fuel buf len dist delta (u64 (rest + ten_k)) ten_k
        | _ => fail OutOfBounds
        end
      else mret tt
  end.

(** Each round takes one from a digit. *)
Definition grisu2_round (buf len dist delta rest ten_k : Z) : M (list Z) unit :=
  json_assert (1 <=? len);;
  json_assert (dist <=? delta);;
  json_assert (rest <=? delta);;
  json_assert (0 <? ten_k);;
  grisu2_round_loop 10 buf len dist delta rest ten_k.

(** The loop over the integral part, [n] down to 0: the result of the function, or
    the length when it goes on. *)
Inductive digit_step := Finished (length decimal_exponent : Z) | Digits (length : Z).

Fixpoint integral_loop (n : nat) (buf : Z) (one : diyfp) (p1 p2 pow10 delta dist length decimal_exponent : Z) : M (list Z) digit_step :=
  match n with
  | O => mret (Digits length)
  | Datatypes.S n =>
      let d := p1 / pow10 in
      let r := p1 mod pow10 in
      json_assert (d <=? 9);;
      write_at (buf + length) [u8 (c0 + d)];;
      let length := length + 1 in
      let p1 := r in
      p1' ← shl64 p1 (- de one);
      let rest := u64 (p1' + p2) in
      if rest <=? delta then
        let decimal_exponent := decimal_exponent + Z.of_nat n in
        ten_n ← shl64 pow10 (- de one);
        grisu2_round buf length dist delta rest ten_n;;
        mret (Finished length decimal_exponent)
      else integral_loop n buf one p1 p2 (pow10 / 10) delta dist length decimal_exponent
  end.

(** The loop over the fractional part: the length, [m], [p2], [delta] and [dist]
    when it ends. *)
Fixpoint fractional_loop (fuel : nat) (buf : Z) (one : diyfp) (p2 delta dist length m : Z) : M (list Z) (Z * Z * Z * Z * Z) :=
  match fuel with
  | O => fail OutOfFuel
  | Datatypes.S fuel =>
      json_assert (p2 <=? (2 ^ 64 - 1) / 10);;
      let p2 := u64 (p2 * 10) in
      d ← shr64 p2 (- de one);
      let r := Z.land p2 (df one - 1) in
      json_assert (d <=? 9);;
      write_at (buf + length) [u8 (c0 + d)];;
      let length := length + 1 in
      let p2 := r in
      let m := m + 1 in
      let delta := u64 (delta * 10) in
      let dist := u64 (dist * 10) in
      if p2 <=? delta then mret (length, m, p2, delta, dist)
      else fractional_loop fuel buf one p2 delta dist length m
  end.

(** The fraction is multiplied by 10, at most 17 times. *)
Definition grisu2_digit_gen (buf length decimal_exponent : Z) (M_minus w M_plus : diyfp) : M (list Z) (Z * Z) :=
  json_assert (kAlpha <=? de M_plus);;
  json_assert (de M_plus <=? kGamma);;
  delta ← sub M_plus M_minus;
  dist ← sub M_plus w;
  let delta := df delta in
  let dist := df dist in
  f ← shl64 1 (- de M_plus);
  let one := Diyfp f (de M_plus) in
  p1 ← shr64 (df M_plus) (- de one);
  let p1 := u32 p1 in
  let p2 := Z.land (df M_plus) (df one - 1) in
  json_assert (0 <? p1);;
  let (k, pow10) := find_largest_pow10 p1 in
  s ← integral_loop (Z.to_nat k) buf one p1 p2 pow10 delta dist length decimal_exponent;
  match s with
  | Finished length decimal_exponent => mret (length, decimal_exponent)
  | Digits length =>
      json_assert (delta <? p2);;
      r ← fractional_loop 17 buf one p2 delta dist length 0;
      let '(length, m, p2, delta, dist) := r in
      let decimal_exponent := decimal_exponent - m in
      let ten_m := df one in
      grisu2_round buf length dist delta p2 ten_m;;
      mret (length, decimal_exponent)
  end.

(** The length and the decimal exponent *)
Definition grisu2_diyfp (buf len : Z) (m_minus v m_plus : diyfp) : M (list Z) (Z * Z) :=
  json_assert (de m_plus =? de m_minus);;
  json_assert (de m_plus =? de v);;
  cached ← get_cached_power_for_binary_exponent (de m_plus);
  let c_minus_k := Diyfp (cp_f cached) (cp_e cached) in
  let w := mul v c_minus_k in
  let w_minus := mul m_minus c_minus_k in
  let w_plus := mul m_plus c_minus_k in
  let M_minus := Diyfp (u64 (df w_minus + 1)) (de w_minus) in
  let M_plus := Diyfp (u64 (df w_plus - 1)) (de w_plus) in
  grisu2_digit_gen buf len (- cp_k cached) M_minus w M_plus.

(** [grisu2] of a [double] *)
Definition grisu2 (buf len value : Z) : M (list Z) (Z * Z) :=
  json_assert (isfinite value);;
  json_assert (is_positive value);;
  w ← compute_boundaries value;
  grisu2_diyfp buf len (b_minus w) (b_w w) (b_plus w).
End digits.

(** ** Formatting *)

(** The result is the end of what is written. *)
Definition append_exponent (buf e : Z) : M (list Z) Z :=
  json_assert (-1000 <? e);;
  json_assert (e <? 1000);;
  let k := if e <? 0 then - e else e in
  write_at buf [if e <? 0 then cMINUS else cPLUS];;
  if k <? 10 then
    write_at (buf + 1) [c0];; write_at (buf + 2) [u8 (c0 + k)];; mret (buf + 3)
  else if k <? 100 then
    write_at (buf + 1) [u8 (c0 + k / 10)];; write_at (buf + 2) [u8 (c0 + k mod 10)];; mret (buf + 3)
  else
    write_at (buf + 1) [u8 (c0 + k / 100)];;
    let k := k mod 100 in
    write_at (buf + 2) [u8 (c0 + k / 10)];; write_at (buf + 3) [u8 (c0 + k mod 10)];; mret (buf + 4).

Definition format_buffer (buf len decimal_exponent min_exp max_exp : Z) : M (list Z) Z :=
  json_assert (min_exp <? 0);;
  json_assert (0 <? max_exp);;
  let k := len in
  let n := len + decimal_exponent in
  if (k <=? n) && (n <=? max_exp) then
    memset (buf + k) c0 (n - k);;
    write_at (buf + n) [cDOT];;
    write_at (buf + n + 1) [c0];;
    mret (buf + (n + 2))
  else if (0 <? n) && (n <=? max_exp) then
    json_assert (n <? k);;
    memmove (buf + (n + 1)) (buf + n) (k - n);;
    write_at (buf + n) [cDOT];;
    mret (buf + (k + 1))
  else if (min_exp <? n) && (n <=? 0) then
    memmove (buf + (2 + - n)) buf k;;
    write_at buf [c0];;
    write_at (buf + 1) [cDOT];;
    memset (buf + 2) c0 (- n);;
    mret (buf + (2 + - n + k))
  else if k =? 1 then
    write_at (buf + 1) [c_e];;
    append_exponent (buf + 1 + 1) (n - 1)
  else
    memmove (buf + 2) (buf + 1) (k - 1);;
    write_at (buf + 1) [cDOT];;
    write_at (buf + (1 + k)) [c_e];;
    append_exponent (buf + (1 + k) + 1) (n - 1).
End dtoa_impl.

(** [to_chars] on the buffer, [first] being its start: the end of the text *)
Definition to_chars (value : Z) : M (list Z) Z :=
  dtoa_impl.json_assert (dtoa_impl.isfinite value);;
  size ← gets (fun buffer : list Z => Z.of_nat (length buffer));
  '(first, value) ← (if dtoa_impl.signbit value then
                       write_at 0 [cMINUS];; mret (1, value - 2 ^ 63)
                     else mret (0, value));
  if value =? 0 then
    write_at first [c0];; write_at (first + 1) [cDOT];; write_at (first + 2) [c0];; mret (first + 3)
  else
    dtoa_impl.json_assert (17 <=? size - first);;
    '(len, decimal_exponent) ← dtoa_impl.grisu2 first 0 value;
    dtoa_impl.json_assert (len <=? 17);;
    let kMinExp := -4 in
    let kMaxExp := 15 in
    dtoa_impl.json_assert (kMaxExp + 2 <=? size - first);;
    dtoa_impl.json_assert (2 + (- kMinExp - 1) + 17 <=? size - first);;
    dtoa_impl.json_assert (17 + 6 <=? size - first);;
    dtoa_impl.format_buffer first len decimal_exponent kMinExp kMaxExp.
