(* ===== verification/JsonFloat.v ===== *)
(** JsonFloat: the arithmetic of Grisu2: products of [diyfp]s, normalisation, the
    boundaries of a [double] and the cached powers of ten, each with its error.

    Values are rationals: [dval x] is [df x * 2 ^ de x]. *)

From Stdlib Require Import QArith Qabs Qpower Lqa.
From S2P Require Import Prelude Json JsonGrisu.
Import dtoa_impl.

#[global] Open Scope Z_scope.

(** ** Multiplication *)

Lemma u64_small z : 0 <= z < 2 ^ 64 -> u64 z = z.
Proof. intros. by apply uwrap_small. Qed.

Lemma land_low32 z : Z.land z 0xFFFFFFFF = z mod 2 ^ 32.
Proof. change 0xFFFFFFFF with (Z.ones 32). by apply Z.land_ones. Qed.

(** [mul] is the product, rounded to its upper 64 bits, ties up. *)
Lemma mul_exact x y :
  in_u 64 (df x) -> in_u 64 (df y) ->
  mul x y = Diyfp ((df x * df y + 2 ^ 63) / 2 ^ 64) (de x + de y + 64).
Proof.
  unfold in_u. destruct x as [u ue], y as [v ve]. cbn [df de]. intros Hu Hv. unfold mul. cbn [df de]. cbv zeta.
  rewrite !land_low32, !Z.shiftr_div_pow2 by lia.
  assert (exists a b, u = a + 2 ^ 32 * b /\ 0 <= a < 2 ^ 32 /\ 0 <= b < 2 ^ 32 /\ u mod 2 ^ 32 = a /\ u / 2 ^ 32 = b)
    as (a & b & Hab & Ha & Hb & -> & ->) by (exists (u mod 2 ^ 32), (u / 2 ^ 32); div_lia).
  assert (exists c d, v = c + 2 ^ 32 * d /\ 0 <= c < 2 ^ 32 /\ 0 <= d < 2 ^ 32 /\ v mod 2 ^ 32 = c /\ v / 2 ^ 32 = d)
    as (c & d & Hcd & Hc & Hd & -> & ->) by (exists (v mod 2 ^ 32), (v / 2 ^ 32); div_lia).
  assert (forall i j, 0 <= i < 2 ^ 32 -> 0 <= j < 2 ^ 32 -> 0 <= i * j <= (2 ^ 32 - 1) * (2 ^ 32 - 1)) as Hp
    by (intros; nia).
  pose proof (Hp a c Ha Hc) as H0. pose proof (Hp a d Ha Hd) as H1.
  pose proof (Hp b c Hb Hc) as H2. pose proof (Hp b d Hb Hd) as H3.
  assert (u * v = a * c + 2 ^ 32 * (a * d + b * c) + 2 ^ 64 * (b * d)) as -> by (rewrite Hab, Hcd; ring).
  generalize dependent (a * c). generalize dependent (a * d). generalize dependent (b * c). generalize dependent (b * d).
  intros p3 H3 p2 H2 p1 H1 p0 H0. clear Hp.
  rewrite (u64_small p0), (u64_small p1), (u64_small p2), (u64_small p3) by lia.
  change (64 - 32 - 1) with 31. change (Z.shiftl 1 31) with (2 ^ 31). rewrite (u64_small (2 ^ 31)) by lia.
  rewrite (u64_small (p0 / 2 ^ 32 + _ + _)) by div_lia. rewrite (u64_small (_ + 2 ^ 31)) by div_lia.
  f_equal. rewrite u64_small by div_lia. div_lia.
Qed.

(** ** Values *)

Abbreviation inj := inject_Z.

Definition dval (x : diyfp) : Q := (inj (df x) * 2 ^ de x)%Q.

Lemma pow2_pos n : (0 < 2 ^ n)%Q.
Proof. by apply Qpower_0_lt. Qed.

Lemma pow2_add m n : (2 ^ (m + n) == 2 ^ m * 2 ^ n)%Q.
Proof. by apply Qpower_plus. Qed.

Lemma pow10_pos n : (0 < 10 ^ n)%Q.
Proof. by apply Qpower_0_lt. Qed.

Lemma pow10_add m n : (10 ^ (m + n) == 10 ^ m * 10 ^ n)%Q.
Proof. by apply Qpower_plus. Qed.

Lemma pow_inj (b n : Z) : 0 <= n -> (inj (b ^ n) == inj b ^ n)%Q.
Proof. apply Zpower_Qpower. Qed.

(** ** Cached powers *)

(** [c] is a power of ten to within half a unit. *)
Definition close (c : cached_power) : Prop :=
  2 ^ 63 <= cp_f c < 2 ^ 64 /\
  (- (2 ^ cp_e c) <= 2 * (inj (cp_f c) * 2 ^ cp_e c - 10 ^ cp_k c) <= 2 ^ cp_e c)%Q.

#[local] Instance Qle_dec' (x y : Q) : Decision (x <= y)%Q.
Proof.
  refine (match Qle_bool x y as b return Qle_bool x y = b -> _ with true => fun E => left _ | false => fun E => right _ end eq_refl).
  - by apply Qle_bool_iff.
  - intros H%Qle_bool_iff. congruence.
Defined.
#[local] Instance close_dec c : Decision (close c).
Proof. unfold close. apply _. Defined.

Lemma cached_close : Forall close kCachedPowers.
Proof. decided. Qed.

(** The index and the conditions the function asserts, for the exponents of
    [double]. *)
Definition cached_index (e : Z) : Z :=
  let f := kAlpha - e - 1 in
  let k := Z.quot (f * 78913) (Z.shiftl 1 18) + Z.b2z (0 <? f) in
  Z.quot (- kCachedPowersMinDecExp + k + (kCachedPowersDecStep - 1)) kCachedPowersDecStep.

Definition cached_ok (e : Z) : bool :=
  (0 <=? cached_index e) &&
  match kCachedPowers !! Z.to_nat (cached_index e) with
  | Some c => (cached_index e <? 79) && (kAlpha <=? cp_e c + e + 64) && (cp_e c + e + 64 <=? kGamma) && (Z.abs (cp_k c) <=? 324)
  | None => false
  end.

Lemma cached_all : forallb (fun i => cached_ok (Z.of_nat i - 1137)) (seq 0 2098) = true.
Proof. by vm_compute. Qed.

Lemma cached_range e : -1137 <= e <= 960 -> cached_ok e = true.
Proof.
  intros He. pose proof cached_all as Hall. rewrite forallb_forall in Hall.
  specialize (Hall (Z.to_nat (e + 1137))). rewrite Z2Nat.id in Hall by lia.
  replace (e + 1137 - 1137) with e in Hall by lia. apply Hall, in_seq. lia.
Qed.

Lemma wp_assert {S} b (s : S) Q : b = true -> Q tt s -> wp nofault (json_assert b) s Q.
Proof. by intros ->. Qed.

Lemma wp_shl64 {S} x n (s : S) Q : 0 <= n < 64 -> 0 <= x -> x * 2 ^ n < 2 ^ 64 -> Q (x * 2 ^ n) s -> wp nofault (shl64 x n) s Q.
Proof.
  intros Hn Hx Hb HQ. unfold shl64. rewrite (proj2 (Z.leb_le 0 n)), (proj2 (Z.ltb_lt n 64)) by lia.
  assert (0 < 2 ^ n) by (apply Z.pow_pos_nonneg; lia). rewrite Z.shiftl_mul_pow2, u64_small by nia. exact HQ.
Qed.

Lemma wp_shr64 {S} x n (s : S) Q : 0 <= n < 64 -> Q (x / 2 ^ n) s -> wp nofault (shr64 x n) s Q.
Proof.
  intros Hn HQ. unfold shr64. rewrite (proj2 (Z.leb_le 0 n)), (proj2 (Z.ltb_lt n 64)) by lia.
  rewrite Z.shiftr_div_pow2 by lia. exact HQ.
Qed.

(** Steps over the assertions whose condition is linear. *)
Ltac assert_steps := repeat (apply wp_bind, wp_assert; [lia|]).

Lemma get_cached_power_ok {S} e (s : S) :
  -1137 <= e <= 960 ->
  wp nofault (get_cached_power_for_binary_exponent e) s
    (fun c s' => s' = s /\ close c /\ kAlpha <= cp_e c + e + 64 <= kGamma /\ Z.abs (cp_k c) <= 324).
Proof.
  intros He. pose proof (cached_range e He) as Hok. unfold cached_ok in Hok. apply andb_prop in Hok as [H0 Hok].
  destruct (kCachedPowers !! Z.to_nat (cached_index e)) as [c|] eqn:Ec; [|done].
  rewrite !andb_true_iff in Hok. destruct Hok as [[[H1 H2] H3] H4].
  assert (close c) as Hc by (eapply Forall_lookup; [apply cached_close|exact Ec]).
  unfold get_cached_power_for_binary_exponent. cbv zeta. fold (cached_index e).
  rewrite (proj2 (Z.leb_le _ e)), (proj2 (Z.leb_le e _)) by lia. change (Z.of_nat (length kCachedPowers)) with 79.
  rewrite H0, H1, Ec, H2, H3. split_and!; [done|done| | |]; lia.
Qed.

(** ** The error of a scaled product *)

Section error.
#[local] Open Scope Q_scope.

(** [h] is [f * g / T] rounded, [g * b] is [p] to within half of [b]. *)
Lemma scaled_error (T f g h a b p : Q) :
  0 <= f -> f + 1 <= T -> f * g - T * (1#2) <= T * h <= f * g + T * (1#2) ->
  0 < a -> 0 < b -> - b <= 2 * (g * b - p) <= b ->
  - (a * b * T) < h * (a * b * T) - f * a * p < a * b * T.
Proof.
  intros Hf HT [H1 H2] Ha Hb [E1 E2].
  assert (0 < a * b) as Hab by nra. assert (0 <= f * a) as Hfa by nra.
  assert (h * (a * b * T) - f * a * p == (T * h - f * g) * (a * b) + (f * a) * (g * b - p)) as -> by ring.
  assert (- (T * (1#2)) * (a * b) <= (T * h - f * g) * (a * b) <= T * (1#2) * (a * b)) as [A1 A2].
  { split; apply Qmult_le_compat_r; lra. }
  assert (- b * (1#2) <= g * b - p <= b * (1#2)) as [B1 B2] by lra.
  assert ((f * a) * (- b * (1#2)) <= (f * a) * (g * b - p) <= (f * a) * (b * (1#2))) as [C1 C2].
  { split; rewrite !(Qmult_comm (f * a)); apply Qmult_le_compat_r; lra. }
  assert ((f + 1) * (a * b) <= T * (a * b)) as D by (apply Qmult_le_compat_r; lra).
  assert ((f * a) * (b * (1#2)) == f * (a * b) * (1#2)) as Heq by ring. rewrite Heq in C2.
  assert ((f * a) * (- b * (1#2)) == - (f * (a * b) * (1#2))) as Heq' by ring. rewrite Heq' in C1.
  assert (a * b * T == T * (a * b)) as -> by ring.
  split; lra.
Qed.
End error.

(** Scaling [x] by a cached power is off by less than one unit. *)
Lemma mul_close x c :
  in_u 64 (df x) -> close c ->
  (- 2 ^ (de x + cp_e c + 64) < dval (mul x (Diyfp (cp_f c) (cp_e c))) - dval x * 10 ^ cp_k c < 2 ^ (de x + cp_e c + 64))%Q.
Proof.
  intros Hx [Hc H12]. rewrite mul_exact by (first [exact Hx|cbn [df]; unfold in_u; lia]). unfold dval. cbn [df de].
  unfold in_u in Hx. set (f := df x) in *. set (g := cp_f c) in *. set (h := (f * g + 2 ^ 63) / 2 ^ 64).
  rewrite !pow2_add. apply (scaled_error _ _ (inj g)); [| | |apply pow2_pos|apply pow2_pos|exact H12].
  - rewrite <- (Zle_Qle 0). lia.
  - change (2 ^ 64)%Q with (inj (2 ^ 64)). change 1%Q with (inj 1). rewrite <- inject_Z_plus, <- Zle_Qle. lia.
  - assert (2 ^ 64 * h <= f * g + 2 ^ 63 /\ f * g + 2 ^ 63 - 2 ^ 64 < 2 ^ 64 * h) as [Hl Hr] by (subst h; div_lia).
    change (2 ^ 64)%Q with (inj (2 ^ 64)). assert (inj (2 ^ 64) * (1#2) == inj (2 ^ 63))%Q as -> by done.
    rewrite <- !inject_Z_mult, <- inject_Z_plus. unfold Qminus. rewrite <- inject_Z_opp, <- inject_Z_plus, <- !Zle_Qle. lia.
Qed.

(** ** The numbers of type [double] *)

(** A representation without sign: [double_sig * 2 ^ double_exp]. *)
Definition double_sig (bits : Z) : Z := if bits / 2 ^ 52 =? 0 then bits mod 2 ^ 52 else bits mod 2 ^ 52 + 2 ^ 52.
Definition double_exp (bits : Z) : Z := if bits / 2 ^ 52 =? 0 then -1074 else bits / 2 ^ 52 - 1075.
Definition double_val (bits : Z) : Q := (inj (double_sig bits) * 2 ^ double_exp bits)%Q.

(** Half way to the next number. *)
Definition midpoint (bits : Z) : Q := ((double_val bits + double_val (bits + 1)) * (1#2))%Q.

Lemma double_sig_range bits : 0 < bits -> 1 <= double_sig bits < 2 ^ 53.
Proof. intros Hb. unfold double_sig. destruct (_ =? 0) eqn:E; div_lia. Qed.

Lemma double_exp_range bits : 0 < bits < 0x7FF0000000000000 -> -1074 <= double_exp bits <= 971.
Proof. intros Hb. unfold double_exp. destruct (_ =? 0) eqn:E; div_lia. Qed.

Lemma double_exp_small bits : -1074 < double_exp bits -> 2 ^ 52 <= double_sig bits.
Proof. unfold double_exp, double_sig. destruct (_ =? 0) eqn:E; [lia|]. div_lia. Qed.

Lemma pow2_half n : (2 ^ n == 2 ^ (n - 1) * 2)%Q.
Proof. replace n with (n - 1 + 1) at 1 by lia. by rewrite pow2_add. Qed.

(** The next number is one unit away. *)
Lemma double_val_next bits : 0 <= bits -> (double_val (bits + 1) == inj (double_sig bits + 1) * 2 ^ double_exp bits)%Q.
Proof.
  intros Hb. unfold double_val.
  assert ((double_sig (bits + 1) = double_sig bits + 1 /\ double_exp (bits + 1) = double_exp bits) \/
    (double_sig (bits + 1) * 2 = double_sig bits + 1 /\ double_exp (bits + 1) = double_exp bits + 1)) as [[-> ->]|[<- ->]]; [|done|].
  - unfold double_sig, double_exp.
    assert (((bits + 1) / 2 ^ 52 = bits / 2 ^ 52 /\ (bits + 1) mod 2 ^ 52 = bits mod 2 ^ 52 + 1) \/
      ((bits + 1) / 2 ^ 52 = bits / 2 ^ 52 + 1 /\ (bits + 1) mod 2 ^ 52 = 0 /\ bits mod 2 ^ 52 = 2 ^ 52 - 1)) as [[-> ->]|(-> & -> & ->)] by div_lia.
    + left. destruct (_ =? 0); lia.
    + destruct (Z.eqb_spec (bits / 2 ^ 52) 0) as [->|Hne]; [by left|].
      assert (0 <= bits / 2 ^ 52) by div_lia. rewrite (proj2 (Z.eqb_neq (bits / 2 ^ 52 + 1) 0)) by lia. right. lia.
  - rewrite (pow2_half (double_exp bits + 1)), inject_Z_mult. replace (double_exp bits + 1 - 1) with (double_exp bits) by lia.
    change (inj 2) with 2%Q. ring.
Qed.

Lemma midpoint_val bits : 0 <= bits -> (midpoint bits == inj (2 * double_sig bits + 1) * 2 ^ (double_exp bits - 1))%Q.
Proof.
  intros Hb. unfold midpoint. rewrite double_val_next by done. unfold double_val. rewrite (pow2_half (double_exp bits)).
  rewrite !inject_Z_plus, inject_Z_mult. change (inj 2) with 2%Q. change (inj 1) with 1%Q. field.
Qed.

(** The number before, by the two cases of the code. *)
Lemma double_prev bits :
  0 < bits ->
  if (bits mod 2 ^ 52 =? 0) && (1 <? bits / 2 ^ 52) then
    double_sig bits = 2 ^ 52 /\ double_sig (bits - 1) = 2 ^ 53 - 1 /\ double_exp (bits - 1) = double_exp bits - 1
  else double_sig (bits - 1) = double_sig bits - 1 /\ double_exp (bits - 1) = double_exp bits.
Proof.
  intros Hb. assert (0 <= bits / 2 ^ 52) by div_lia.
  assert ((bits mod 2 ^ 52 <> 0 /\ (bits - 1) / 2 ^ 52 = bits / 2 ^ 52 /\ (bits - 1) mod 2 ^ 52 = bits mod 2 ^ 52 - 1) \/
    (bits mod 2 ^ 52 = 0 /\ 0 < bits / 2 ^ 52 /\ (bits - 1) / 2 ^ 52 = bits / 2 ^ 52 - 1 /\ (bits - 1) mod 2 ^ 52 = 2 ^ 52 - 1))
    as [(Hne & H1 & H2)|(H0 & Hp & H1 & H2)] by div_lia; unfold double_sig, double_exp; rewrite H1, H2.
  - rewrite (proj2 (Z.eqb_neq (bits mod 2 ^ 52) 0)) by done. simpl. destruct (_ =? 0); lia.
  - rewrite H0. simpl. destruct (1 <? bits / 2 ^ 52) eqn:E1.
    + rewrite (proj2 (Z.eqb_neq (bits / 2 ^ 52) 0)), (proj2 (Z.eqb_neq (bits / 2 ^ 52 - 1) 0)) by lia. lia.
    + assert (bits / 2 ^ 52 = 1) as -> by lia. done.
Qed.

(** ** Normalisation *)

Lemma normalize_loop_ok {S} fuel x (s : S) :
  1 <= df x < 2 ^ 64 -> 63 - Z.log2 (df x) < Z.of_nat fuel ->
  wp nofault (normalize_loop fuel x) s (fun y s' => s' = s /\
    y = Diyfp (df x * 2 ^ (63 - Z.log2 (df x))) (de x - (63 - Z.log2 (df x)))).
Proof.
  revert x. induction fuel as [|fuel IH]; intros [f e]; cbn [df de normalize_loop]; intros Hf Hfuel.
  { pose proof (Z.log2_le_mono f (2 ^ 64 - 1)). change (Z.log2 (2 ^ 64 - 1)) with 63 in *. lia. }
  destruct (Z.eqb_spec (Z.shiftr f 63) 0) as [E|E]; rewrite Z.shiftr_div_pow2 in E by lia.
  - assert (f < 2 ^ 63) by div_lia. rewrite Z.shiftl_mul_pow2 by lia. rewrite u64_small by lia.
    assert (Z.log2 (f * 2 ^ 1) = Z.log2 f + 1) as Hl by (rewrite Z.log2_mul_pow2; lia).
    assert (Z.log2 f < 63) by (apply Z.log2_lt_pow2; lia).
    eapply wp_mono; [apply IH; cbn [df]; lia|]. cbn [df de]. intros y s' [-> ->]. split; [done|]. rewrite Hl.
    replace (63 - (Z.log2 f + 1)) with (62 - Z.log2 f) by lia. replace (63 - Z.log2 f) with (1 + (62 - Z.log2 f)) by lia.
    rewrite (Z.pow_add_r 2 1) by lia. f_equal; lia.
  - assert (2 ^ 63 <= f) by div_lia. assert (Z.log2 f = 63) as -> by (apply Z.log2_unique; lia).
    apply wp_ret. split; [done|]. f_equal; lia.
Qed.

Lemma normalize_ok {S} x (s : S) :
  1 <= df x < 2 ^ 64 ->
  wp nofault (normalize x) s (fun y s' => s' = s /\
    y = Diyfp (df x * 2 ^ (63 - Z.log2 (df x))) (de x - (63 - Z.log2 (df x)))).
Proof.
  intros Hx. unfold normalize. assert_steps.
  apply normalize_loop_ok; [done|]. pose proof (Z.log2_nonneg (df x)). lia.
Qed.

Lemma dval_scale f e k : 0 <= k -> (dval (Diyfp (f * 2 ^ k) (e - k)) == dval (Diyfp f e))%Q.
Proof.
  intros Hk. unfold dval. cbn [df de]. rewrite inject_Z_mult, pow_inj by done.
  replace e with (k + (e - k)) at 2 by lia. rewrite pow2_add. change (inj 2) with 2%Q. ring.
Qed.

(** ** The boundaries *)

(** The two boundaries and the number between them, normalised to one exponent:
    they are exact, and far enough apart. *)
Record bounded (bits : Z) (b : boundaries) : Prop := {
  bounded_plus : (dval (b_plus b) == midpoint bits)%Q;
  bounded_minus : (dval (b_minus b) == midpoint (bits - 1))%Q;
  bounded_e_w : de (b_w b) = de (b_plus b);
  bounded_e_minus : de (b_minus b) = de (b_plus b);
  bounded_e : -1137 <= de (b_plus b) <= 960;
  bounded_range : 2 ^ 63 <= df (b_plus b) < 2 ^ 64;
  bounded_gap : 0 < df (b_minus b) /\ df (b_minus b) + 512 <= df (b_w b) /\ df (b_w b) + 1024 <= df (b_plus b);
  bounded_width : df (b_plus b) + 2 * 10 ^ 18 <= (df (b_plus b) - df (b_minus b)) * 10 ^ 16;
}.

(** The numbers the function computes with: [g] is the significand of [w], [k] the
    shift of [m_plus]. *)
Lemma bounded_intro bits k :
  0 < bits < 0x7FF0000000000000 -> k = 62 - Z.log2 (double_sig bits) ->
  bounded bits
    (Boundaries (Diyfp (double_sig bits * 2 ^ (k + 1)) (double_exp bits - (k + 1)))
      (if (bits mod 2 ^ 52 =? 0) && (1 <? bits / 2 ^ 52) then Diyfp ((4 * double_sig bits - 1) * 2 ^ (k - 1)) (double_exp bits - 1 - k)
       else Diyfp ((2 * double_sig bits - 1) * 2 ^ k) (double_exp bits - 1 - k))
      (Diyfp ((2 * double_sig bits + 1) * 2 ^ k) (double_exp bits - 1 - k))).
Proof.
  intros Hb Hk. pose proof (double_sig_range bits ltac:(lia)) as Hs. pose proof (double_exp_range bits Hb) as He.
  pose proof (double_exp_small bits) as Hsm. pose proof (double_prev bits ltac:(lia)) as Hp.
  assert (10 <= k <= 62) as Hk'.
  { pose proof (Z.log2_nonneg (double_sig bits)). assert (Z.log2 (double_sig bits) < 53) by (apply Z.log2_lt_pow2; lia). lia. }
  assert (2 ^ (62 - k) <= double_sig bits < 2 ^ (63 - k)) as [Hl Hu].
  { pose proof (Z.log2_spec (double_sig bits) ltac:(lia)) as Hl. rewrite Hk.
    replace (62 - (62 - Z.log2 (double_sig bits))) with (Z.log2 (double_sig bits)) by lia.
    replace (63 - (62 - Z.log2 (double_sig bits))) with (Z.succ (Z.log2 (double_sig bits))) by lia. done. }
  assert (2 ^ 62 <= double_sig bits * 2 ^ k /\ (double_sig bits + 1) * 2 ^ k <= 2 ^ 63) as [Hlo Hhi].
  { assert (2 ^ 62 = 2 ^ (62 - k) * 2 ^ k) as -> by (rewrite <- Z.pow_add_r by lia; f_equal; lia).
    assert (2 ^ 63 = 2 ^ (63 - k) * 2 ^ k) as -> by (rewrite <- Z.pow_add_r by lia; f_equal; lia).
    assert (0 < 2 ^ k) by (apply Z.pow_pos_nonneg; lia). split; apply Z.mul_le_mono_nonneg_r; lia. }
  assert (2 ^ 10 <= 2 ^ k) as Hg by (apply Z.pow_le_mono_r; lia). change (2 ^ 10) with 1024 in Hg.
  assert (2 ^ (k + 1) = 2 * 2 ^ k) as Hk1 by (rewrite Z.pow_add_r by lia; lia).
  assert (2 ^ k = 2 * 2 ^ (k - 1)) as Hk2 by (rewrite <- Z.pow_succ_r by lia; f_equal; lia).
  destruct ((bits mod 2 ^ 52 =? 0) && (1 <? bits / 2 ^ 52)) eqn:Ec.
  - destruct Hp as (Hs52 & Hp1 & Hp2). assert (k = 10) as -> by (rewrite Hk, Hs52; done).
    rewrite Hs52 in *. split; cbn [b_w b_minus b_plus df de]; try (by lia).
    + rewrite dval_scale by lia. rewrite midpoint_val, Hs52 by lia. done.
    + rewrite midpoint_val, Hp1, Hp2 by lia. unfold dval. cbn [df de].
      replace (double_exp bits - 1 - 10) with (double_exp bits - 1 - 1 + (-9)) by lia. rewrite pow2_add.
      change (2 ^ (-9))%Q with (1 # 512). change (inj ((4 * 2 ^ 52 - 1) * 2 ^ (10 - 1))) with ((inj (2 * (2 ^ 53 - 1) + 1)) * inj 512)%Q.
      change (inj 512) with 512%Q. field.
  - destruct Hp as (Hp1 & Hp2). split; cbn [b_w b_minus b_plus df de].
    + rewrite dval_scale by lia. by rewrite midpoint_val by lia.
    + rewrite dval_scale by lia. rewrite midpoint_val, Hp1, Hp2 by lia. unfold dval. cbn [df de].
      by replace (2 * (double_sig bits - 1) + 1) with (2 * double_sig bits - 1) by lia.
    + lia.
    + done.
    + destruct (decide (double_exp bits = -1074)); [lia|]. specialize (Hsm ltac:(lia)).
      assert (k <= 10); [|lia]. rewrite Hk. assert (52 <= Z.log2 (double_sig bits)) by (by apply Z.log2_le_pow2; lia). lia.
    + rewrite Z.mul_add_distr_r in Hhi |- *. nia.
    + rewrite Hk1. split_and!; nia.
    + nia.
Qed.

Lemma isfinite_spec bits : 0 <= bits < 2 ^ 63 -> isfinite bits = (bits <? 0x7FF0000000000000).
Proof.
  intros Hb. unfold isfinite. change 0x7FF with (Z.ones 11) at 1. rewrite Z.land_ones, Z.shiftr_div_pow2 by lia. div_lia.
Qed.

Lemma normalize_to_ok {S} f e k (s : S) :
  0 <= k < 64 -> 0 <= f -> f * 2 ^ k < 2 ^ 64 ->
  wp nofault (normalize_to (Diyfp f e) (e - k)) s (fun y s' => s' = s /\ y = Diyfp (f * 2 ^ k) (e - k)).
Proof.
  intros Hk Hf Hfk. unfold normalize_to. cbn [df de]. replace (e - (e - k)) with k by lia. assert_steps.
  apply wp_bind, wp_shl64; [done..|]. apply wp_bind, wp_shr64; [done|].
  assert (0 < 2 ^ k) by (apply Z.pow_pos_nonneg; lia). rewrite Z.div_mul by lia. by assert_steps.
Qed.

Lemma compute_boundaries_ok {S} bits (s : S) :
  0 < bits < 0x7FF0000000000000 -> wp nofault (compute_boundaries bits) s (fun b s' => s' = s /\ bounded bits b).
Proof.
  intros Hb. unfold compute_boundaries, is_positive, signbit. rewrite isfinite_spec by lia. assert_steps. change (kPrecision - 1) with 52. change (kHiddenBit - 1) with (Z.ones 52). change kHiddenBit with (2 ^ 52).
  rewrite Z.land_ones, Z.shiftr_div_pow2 by lia. cbv zeta.
  pose proof (double_sig_range bits ltac:(lia)) as Hs.
  assert ((if bits / 2 ^ 52 =? 0 then Diyfp (bits mod 2 ^ 52) kMinExp else Diyfp (u64 (bits mod 2 ^ 52 + 2 ^ 52)) (bits / 2 ^ 52 - kBias)) =
    Diyfp (double_sig bits) (double_exp bits)) as ->.
  { unfold double_sig, double_exp. destruct (_ =? 0); [done|]. rewrite u64_small by div_lia. done. }
  cbn [df de]. rewrite !u64_small by lia.
  pose proof (bounded_intro bits _ Hb eq_refl) as Hbd. set (k := 62 - Z.log2 (double_sig bits)) in *.
  assert (63 - Z.log2 (2 * double_sig bits + 1) = k) as Hk1 by (rewrite Z.log2_succ_double by lia; lia).
  assert (63 - Z.log2 (double_sig bits) = k + 1) as Hk2 by lia.
  assert (10 <= k <= 62) as Hk.
  { subst k. pose proof (Z.log2_nonneg (double_sig bits)). assert (Z.log2 (double_sig bits) < 53) by (apply Z.log2_lt_pow2; lia). lia. }
  apply wp_bind. eapply wp_mono; [apply normalize_ok; cbn [df]; lia|]. cbn [df de]. intros ? ? [-> ->]. rewrite Hk1. wp_steps.
  set (c := (_ =? 0) && _) in *. pose proof (bounded_range _ _ Hbd) as Hr. pose proof (bounded_gap _ _ Hbd) as Hg.
  cbn [b_w b_minus b_plus df de] in Hr, Hg.
  assert (wp nofault (normalize_to (if c then Diyfp (4 * double_sig bits - 1) (double_exp bits - 2)
      else Diyfp (2 * double_sig bits - 1) (double_exp bits - 1)) (double_exp bits - 1 - k)) s (fun y s' => s' = s /\
    y = if c then Diyfp ((4 * double_sig bits - 1) * 2 ^ (k - 1)) (double_exp bits - 1 - k)
        else Diyfp ((2 * double_sig bits - 1) * 2 ^ k) (double_exp bits - 1 - k))) as Hm.
  { destruct c; cbn [df] in Hg; [replace (double_exp bits - 1 - k) with (double_exp bits - 2 - (k - 1)) by lia|];
      apply normalize_to_ok; lia. }
  cbn [de]. eapply wp_mono; [exact Hm|]. intros ? ? [-> ->]. apply wp_bind.
  eapply wp_mono; [apply normalize_ok; cbn [df]; lia|]. cbn [df de]. intros ? ? [-> ->]. rewrite Hk2. wp_steps. by split.
Qed.

(** ** Scaling *)

(** The significands the digits are generated from, of exponent [e]: [W] is the
    scaled number, [Mm] and [Mp] the bounds, with room for 17 digits. *)
Record window (e Mm W Mp : Z) : Prop := {
  window_e : kAlpha <= e <= kGamma;
  window_order : 0 < Mm /\ Mm <= W /\ W <= Mp;
  window_range : 2 ^ 60 <= Mp < 2 ^ 64;
  window_width : Mp <= (Mp - Mm) * 10 ^ 16;
}.

Lemma window_intro e m w p g :
  kAlpha <= e <= kGamma -> 2 ^ 63 <= g < 2 ^ 64 -> 2 ^ 63 <= p < 2 ^ 64 ->
  0 < m -> m + 512 <= w -> w + 1024 <= p -> p + 2 * 10 ^ 18 <= (p - m) * 10 ^ 16 ->
  let scale x := (x * g + 2 ^ 63) / 2 ^ 64 in
  0 <= scale m /\ window e (scale m + 1) (scale w) (scale p - 1).
Proof.
  intros He Hg Hp Hm Hw Hwp Hwidth scale.
  assert (forall x, 2 ^ 64 * scale x <= x * g + 2 ^ 63 < 2 ^ 64 * scale x + 2 ^ 64) as Hs by (intros x; unfold scale; generalize (x * g); intros; div_lia).
  pose proof (Hs m) as Sm. pose proof (Hs w) as Sw. pose proof (Hs p) as Sp. clear Hs.
  assert (512 * 2 ^ 63 <= (w - m) * g) as G1 by (apply Z.mul_le_mono_nonneg; lia).
  assert (1024 * 2 ^ 63 <= (p - w) * g) as G2 by (apply Z.mul_le_mono_nonneg; lia).
  assert (2 ^ 63 * 2 ^ 63 <= p * g) as G3 by (apply Z.mul_le_mono_nonneg; lia).
  assert (p * g <= (2 ^ 64 - 1) * (2 ^ 64 - 1)) as G4 by (apply Z.mul_le_mono_nonneg; lia).
  assert (0 <= m * g) as G5 by (apply Z.mul_nonneg_nonneg; lia).
  assert (2 * 10 ^ 18 * 2 ^ 63 <= ((p - m) * 10 ^ 16 - p) * g) as G6 by (apply Z.mul_le_mono_nonneg; lia).
  unfold kAlpha, kGamma in *. split; [lia|]. split; unfold kAlpha, kGamma; lia.
Qed.
