(* ===== verification/JsonDigits.v ===== *)
(** JsonDigits: the digits Grisu2 generates.

    [digit_gen_ok]: on a [window] it writes at most 17 digits, whose value, scaled by
    the decimal exponent it adds, is inside the window. *)

From S2P Require Import Prelude Json JsonLexer JsonScan JsonNumeral JsonGrisu JsonFloat.
Import dtoa_impl.

(** ** The buffer *)

Section buffer.
Context (pre : list Z) (N : nat).
Implicit Types (b cs : list Z) (c : Z).

(** The buffer of [N] characters holds [cs] after [pre]. *)
Definition text_at cs b : Prop := exists rest, b = pre ++ cs ++ rest /\ length b = N.

Abbreviation base := (Z.of_nat (length pre)).

Lemma write_at_app l cs b : (length cs <= length b)%nat ->
  write_at (Z.of_nat (length l)) cs (l ++ b) = Ok (tt, l ++ cs ++ drop (length cs) b).
Proof.
  intros Hl. unfold write_at. rewrite length_app.
  destruct ((0 <=? _) && _) eqn:E; [|apply andb_false_iff in E as [?%Z.leb_gt|?%Z.leb_gt]; lia].
  by rewrite Nat2Z.id, take_app_length, drop_app_add.
Qed.

Lemma wp_write_next cs c b p (Q : unit -> list Z -> Prop) :
  text_at cs b -> (length pre + length cs < N)%nat -> p = base + Z.of_nat (length cs) ->
  (forall b', text_at (cs ++ [c]) b' -> Q tt b') -> wp nofault (write_at p [c]) b Q.
Proof.
  intros (rest & -> & HN) Hlt -> HQ. rewrite !length_app in HN. eapply wp_run.
  - replace (base + Z.of_nat (length cs)) with (Z.of_nat (length (pre ++ cs))) by (rewrite length_app; lia).
    rewrite app_assoc. apply write_at_app. simpl. lia.
  - apply HQ. exists (drop 1 rest). split; [by rewrite <- !app_assoc|].
    rewrite !length_app, length_drop. simpl. lia.
Qed.

Lemma wp_read_last cs c b p (Q : list Z -> list Z -> Prop) :
  text_at (cs ++ [c]) b -> p = base + Z.of_nat (length cs) -> Q [c] b -> wp nofault (read_at p 1) b Q.
Proof.
  intros (rest & -> & HN) -> HQ. eapply wp_run; [|exact HQ]. unfold read_at. rewrite !length_app. cbn [length].
  destruct ((0 <=? _) && _ && _) eqn:E; [|apply andb_false_iff in E as [[?%Z.leb_gt|?]%andb_false_iff|?%Z.leb_gt]; [lia|done|lia]]. do 2 f_equal.
  change (Z.to_nat 1) with 1%nat. replace (Z.to_nat (base + Z.of_nat (length cs))) with (length (pre ++ cs)) by (rewrite length_app; lia).
  by rewrite <- (app_assoc cs), (app_assoc pre), drop_app_length.
Qed.

Lemma wp_write_last cs c c' b p (Q : unit -> list Z -> Prop) :
  text_at (cs ++ [c]) b -> p = base + Z.of_nat (length cs) ->
  (forall b', text_at (cs ++ [c']) b' -> Q tt b') -> wp nofault (write_at p [c']) b Q.
Proof.
  intros (rest & -> & HN) -> HQ. eapply (wp_write_next cs); [|rewrite !length_app in HN; simpl in HN; lia|done|exact HQ].
  exists (c :: rest). split; [|exact HN]. by rewrite <- app_assoc.
Qed.

(** ** Rounding *)

Definition is_digits cs : Prop := Forall (fun c => is_digit c = true) cs.

(** The last digit is lowered: no further than the window allows, and it stays a
    digit other than 0. *)
Lemma round_ok fuel cs c b p len dist delta rest ten_k (Q : unit -> list Z -> Prop) :
  text_at (cs ++ [c]) b -> p = base -> len = Z.of_nat (length cs) + 1 -> is_digit c = true ->
  0 <= dist <= delta -> delta < 2 ^ 64 -> 0 <= rest <= delta -> 0 < ten_k -> delta < (c - c0) * ten_k + rest ->
  c - c0 < Z.of_nat fuel ->
  (forall c' b' rest', text_at (cs ++ [c']) b' -> is_digit c' = true -> c' <> c0 -> 0 <= rest' <= delta ->
    (c' - c0) * ten_k + rest' = (c - c0) * ten_k + rest -> Q tt b') ->
  wp nofault (grisu2_round_loop fuel p len dist delta rest ten_k) b Q.
Proof.
  intros Hb -> ->. revert c b rest Hb. induction fuel as [|fuel IH]; intros c b rest Hb Hc Hdist Hdelta Hrest Hten Hmax Hfuel HQ.
  { unfold is_digit in Hc. lia. }
  assert (c <> c0) as Hc0 by (intros ->; lia). cbn [grisu2_round_loop].
  rewrite (u64_small (delta - rest)) by lia. destruct ((rest <? dist) && (ten_k <=? delta - rest)) eqn:E1; cycle 1.
  { rewrite andb_false_l. apply wp_ret. by apply (HQ c b rest). }
  rewrite andb_true_l. destruct (_ || _); [|apply wp_ret; by apply (HQ c b rest)].
  rewrite (u64_small (rest + ten_k)) by lia.
  apply wp_bind. eapply wp_read_last; [exact Hb|lia|]. apply wp_bind, wp_assert; [lia|].
  assert (is_digit (c - 1) = true) as Hc' by (unfold is_digit in *; lia).
  assert (u8 (c - 1) = c - 1) as -> by (apply uwrap_small; unfold is_digit, in_u in *; lia).
  apply wp_bind. eapply wp_write_last; [exact Hb|lia|]. intros b' Hb'.
  apply (IH (c - 1)); [done|done|done|done|lia|done| |lia|].
  - replace ((c - 1 - c0) * ten_k) with ((c - c0) * ten_k - ten_k) by ring. lia.
  - intros c2 b2 rest2 H1 H2 H3 H4 H5. apply (HQ c2 b2 rest2); [done..|]. rewrite H5. ring.
Qed.

Lemma grisu2_round_ok cs c b p len dist delta rest ten_k (Q : unit -> list Z -> Prop) :
  text_at (cs ++ [c]) b -> p = base -> len = Z.of_nat (length cs) + 1 -> is_digit c = true ->
  0 <= dist <= delta -> delta < 2 ^ 64 -> 0 <= rest <= delta -> 0 < ten_k -> delta < (c - c0) * ten_k + rest ->
  (forall c' b' rest', text_at (cs ++ [c']) b' -> is_digit c' = true -> c' <> c0 -> 0 <= rest' <= delta ->
    (c' - c0) * ten_k + rest' = (c - c0) * ten_k + rest -> Q tt b') ->
  wp nofault (grisu2_round p len dist delta rest ten_k) b Q.
Proof.
  intros Hb Hp Hlen Hc Hdist Hdelta Hrest Hten Hmax HQ. unfold grisu2_round. assert_steps.
  eapply round_ok; try done. unfold is_digit in Hc. lia.
Qed.

(** ** The result *)

(** At most 17 digits, the first of them not 0. *)
Definition digits_ok cs : Prop :=
  is_digits cs /\ (1 <= length cs <= 17)%nat /\ (exists c cs', cs = c :: cs' /\ c <> c0).

(** [cs] with [n - m] added to the decimal exponent is between [Mp - delta] and [Mp]
    units, [one] of which are 1. *)
Definition within Mp delta one cs (n m : Z) : Prop :=
  0 <= n <= 10 /\ 0 <= m <= 17 /\
  (Mp - delta) * 10 ^ m <= digits_value cs * 10 ^ n * one <= Mp * 10 ^ m.

Lemma digits_ok_snoc cs c c' :
  is_digits cs -> (length cs <= 16)%nat -> is_digit c' = true -> c' <> c0 ->
  (exists d ds, cs ++ [c] = d :: ds /\ d <> c0) -> digits_ok (cs ++ [c']).
Proof.
  intros Hcs Hlen Hc Hc0 (d & ds & Hd & Hd0). split; [by apply Forall_app; split; [|repeat constructor]|].
  rewrite length_app. cbn [length]. split; [lia|]. destruct cs as [|x cs]; simpl in Hd |- *; [by exists c', []|].
  injection Hd as -> _. by exists d, (cs ++ [c']).
Qed.

(** The first digit written is not 0. *)
Definition leading cs : Prop := exists d ds, cs = d :: ds /\ d <> c0.

Lemma leading_snoc cs c : (cs = [] -> c <> c0) -> (cs <> [] -> leading cs) -> leading (cs ++ [c]).
Proof.
  intros Hn Hc. destruct cs as [|d cs]; [exists c, []; by auto|].
  destruct Hc as (x & xs & Hx & ?); [done|]. injection Hx as -> ->. by exists x, (xs ++ [c]).
Qed.

(** ** The integral part *)

Section window.
Context (s Mp delta dist : Z).
Hypothesis Hs : 32 <= s <= 60.
Hypothesis Hroom : (length pre + 17 <= N)%nat.
Hypothesis Hdist : 0 <= dist <= delta.
Hypothesis HMp : Mp < 2 ^ 64.
Hypothesis Hwidth : Mp <= delta * 10 ^ 16.

Abbreviation one := (2 ^ s).

Lemma one_range : 2 ^ 32 <= one <= 2 ^ 60.
Proof. split; apply Z.pow_le_mono_r; lia. Qed.

(** What the digits so far leave of [Mp]: more than [delta]. *)
Record integral (n : nat) (cs : list Z) (p1 p2 : Z) : Prop := {
  int_value : Mp = (digits_value cs * 10 ^ Z.of_nat n + p1) * one + p2;
  int_p1 : 0 <= p1 < 10 ^ Z.of_nat n;
  int_p2 : 0 <= p2 < one;
  int_rest : delta < p1 * one + p2;
  int_digits : is_digits cs;
  int_leading : cs <> [] -> leading cs;
  int_first : cs = [] -> n <> O /\ 10 ^ (Z.of_nat n - 1) <= p1;
  int_count : (length cs + n <= 10)%nat /\ 10 ^ (Z.of_nat (length cs + n) - 1) * one <= Mp;
}.

Lemma integral_next n cs p1 p2 :
  integral (S n) cs p1 p2 ->
  let d := p1 / 10 ^ Z.of_nat n in
  let r := p1 mod 10 ^ Z.of_nat n in
  0 <= d <= 9 /\ 0 <= r * one + p2 <= Mp /\ r * one < 2 ^ 64 /\ 0 < 10 ^ Z.of_nat n * one <= Mp /\
  delta < p1 * one + p2 <= Mp /\
  p1 * one + p2 = d * (10 ^ Z.of_nat n * one) + (r * one + p2) /\ leading (cs ++ [c0 + d]) /\
  (delta < r * one + p2 -> integral n (cs ++ [c0 + d]) r p2).
Proof.
  intros I d r. pose proof one_range as H1. destruct I as [Hv Hp1 Hp2 Hrest Hdig Hlead Hfirst [Hcnt Hbig]].
  rewrite Nat2Z.inj_succ, Z.pow_succ_r in Hv, Hp1 by lia. set (t := 10 ^ Z.of_nat n) in *.
  assert (0 < t) as Ht by (apply Z.pow_pos_nonneg; lia).
  assert (p1 = d * t + r /\ 0 <= r < t) as [Hd Hr] by (subst d r; pose proof (Z.mod_pos_bound p1 t Ht); pose proof (Z.div_mod p1 t); lia).
  assert (0 <= d <= 9) as Hd9 by (split; [apply Z.div_pos; lia|]; assert (d < 10) by (apply Z.div_lt_upper_bound; lia); lia).
  assert (0 <= digits_value cs) as Hdv by (by apply digits_value_nonneg).
  assert (0 <= digits_value cs * (10 * t) * one) as Hdvt by (apply Z.mul_nonneg_nonneg; [apply Z.mul_nonneg_nonneg|]; lia).
  assert (0 <= d * t * one) as Hdt by (apply Z.mul_nonneg_nonneg; [apply Z.mul_nonneg_nonneg|]; lia).
  assert (0 <= r * one) as Hro by (apply Z.mul_nonneg_nonneg; lia).
  assert (p1 * one + p2 = d * (t * one) + (r * one + p2)) as Hsum by (rewrite Hd; ring).
  rewrite Z.mul_add_distr_r in Hv.
  assert (leading (cs ++ [c0 + d])) as Hlead'.
  { apply leading_snoc; [|done]. intros Hcs. destruct (Hfirst Hcs) as [_ Hf].
    replace (Z.of_nat (S n) - 1) with (Z.of_nat n) in Hf by lia. fold t in Hf. assert (1 <= d); [|lia].
    apply Z.div_le_lower_bound; lia. }
  assert (0 < t * one <= Mp) as Hto.
  { split; [apply Z.mul_pos_pos; lia|]. etrans; [|exact Hbig]. apply Z.mul_le_mono_nonneg_r; [lia|]. apply Z.pow_le_mono_r; lia. }
  split_and!; try lia; [done|]. intros Hnot. split; try done.
  - rewrite digits_value_snoc. fold t. rewrite Hv, <- Z.add_assoc, Hsum. ring.
  - by apply Forall_app; split; [|repeat constructor; unfold is_digit; lia].
  - by destruct cs.
  - rewrite length_app. cbn [length]. replace (length cs + 1 + n)%nat with (length cs + S n)%nat by lia. done.
Qed.

(** What the function leaves when the digits are done, [e0] being the exponent given. *)
Definition finished (e0 len e : Z) (b : list Z) : Prop :=
  exists cs n m, text_at cs b /\ digits_ok cs /\ len = Z.of_nat (length cs) /\ e = e0 + n - m /\ within Mp delta one cs n m.

Definition integral_post (p2 e0 : Z) (r : digit_step) (b : list Z) : Prop :=
  match r with
  | Finished len e => finished e0 len e b
  | Digits len => exists cs, text_at cs b /\ len = Z.of_nat (length cs) /\ cs <> [] /\ integral 0 cs 0 p2
  end.

Lemma integral_loop_ok n cs p1 p2 e0 b :
  text_at cs b -> integral n cs p1 p2 ->
  wp nofault (integral_loop n base (Diyfp one (- s)) p1 p2 (if n is O then 0 else 10 ^ (Z.of_nat n - 1)) delta dist (Z.of_nat (length cs)) e0) b
    (integral_post p2 e0).
Proof.
  revert cs p1 b. induction n as [|n IH]; intros cs p1 b Hb I.
  { apply wp_ret. exists cs. split; [done|]. split; [done|]. destruct I as [Hv Hp1 Hp2 Hr Hd Hl Hf Hc].
    assert (cs <> []) as Hne by (intros ->; by destruct Hf). split; [done|].
    change (10 ^ Z.of_nat 0) with 1 in Hp1. assert (p1 = 0) as -> by lia. by split. }
  replace (Z.of_nat (S n) - 1) with (Z.of_nat n) by lia. cbn [integral_loop]. cbv zeta.
  destruct (integral_next n cs p1 p2 I) as (Hd & Hrest & Hshift & Hten & Hdelta & Hsum & Hlead & Hnext).
  set (d := p1 / 10 ^ Z.of_nat n) in *. set (r := p1 mod 10 ^ Z.of_nat n) in *. pose proof one_range as H1.
  assert (0 <= r) as Hr by (apply Z.mod_pos_bound, Z.pow_pos_nonneg; lia).
  assert (u8 (c0 + d) = c0 + d) as -> by (apply uwrap_small; unfold in_u; lia). cbn [de]. rewrite Z.opp_involutive.
  destruct (int_count _ _ _ _ I) as [Hcnt _].
  assert_steps. apply wp_bind. eapply wp_write_next; [exact Hb|lia|done|]. intros b1 Hb1.
  apply wp_bind, wp_shl64; [lia|done|done|]. rewrite (u64_small (r * one + p2)) by lia.
  destruct (Z.leb_spec (r * one + p2) delta) as [Hle|Hgt].
  - apply wp_bind, wp_shl64; [lia|by apply Z.pow_nonneg|lia|]. apply wp_bind.
    assert (is_digit (c0 + d) = true) as Hdig by (unfold is_digit; lia).
    eapply (grisu2_round_ok cs (c0 + d)); [exact Hb1|done|done|done|done|lia|lia|lia| |].
    { pose proof (int_rest _ _ _ _ I). replace (c0 + d - c0) with d by lia. lia. }
    intros c' b2 rest' Hb2 Hc' Hc0' Hrest' Heq. apply wp_ret. exists (cs ++ [c']), (Z.of_nat n), 0.
    split; [done|]. split; [eapply digits_ok_snoc; try done; [by apply (int_digits _ _ _ _ I)|lia]|].
    split; [rewrite length_app; cbn [length]; lia|]. split; [lia|]. split; [lia|]. split; [lia|].
    rewrite digits_value_snoc. pose proof (int_value _ _ _ _ I) as Hv.
    rewrite Nat2Z.inj_succ, Z.pow_succ_r in Hv by lia. replace (c0 + d - c0) with d in Heq by lia.
    rewrite Z.mul_add_distr_r, <- Z.add_assoc, Hsum, <- Heq in Hv. change (10 ^ 0) with 1.
    assert ((10 * digits_value cs + (c' - c0)) * 10 ^ Z.of_nat n * one = Mp - rest') as ->; [|lia]. rewrite Hv. ring.
  - replace (Z.of_nat (length cs) + 1) with (Z.of_nat (length (cs ++ [c0 + d]))) by (rewrite length_app; cbn [length]; lia).
    assert (integral n (cs ++ [c0 + d]) r p2) as I' by (by apply Hnext; lia). specialize (IH _ _ _ Hb1 I').
    destruct n as [|n]; [exact IH|]. assert (10 ^ Z.of_nat (S n) / 10 = 10 ^ (Z.of_nat (S n) - 1)) as ->; [|exact IH].
    rewrite Nat2Z.inj_succ, Z.pow_succ_r, (Z.mul_comm 10), Z.div_mul by lia. f_equal. lia.
Qed.

(** ** The fractional part *)

(** [m] digits after the point: what is left of [Mp], scaled, is more than [delta]. *)
Record fractional (m : Z) (cs : list Z) (p2 : Z) : Prop := {
  frac_m : 0 <= m < Z.of_nat (length cs);
  frac_value : Mp * 10 ^ m = digits_value cs * one + p2;
  frac_p2 : 0 <= p2 < one;
  frac_rest : delta * 10 ^ m < p2;
  frac_digits : is_digits cs;
  frac_leading : leading cs;
  frac_count : 10 ^ (Z.of_nat (length cs) - 1) * one <= Mp * 10 ^ m;
}.

(** The window is wide enough for 17 digits. *)
Lemma fractional_count m cs p2 : fractional m cs p2 -> (length cs <= 16)%nat.
Proof.
  intros [Hm _ Hp2 Hrest _ _ Hcnt]. pose proof one_range as H1.
  assert (0 < 10 ^ m) as Ht by (apply Z.pow_pos_nonneg; lia).
  assert (Mp * 10 ^ m <= delta * 10 ^ 16 * 10 ^ m) as Hw by (apply Z.mul_le_mono_nonneg_r; lia).
  assert (10 ^ (Z.of_nat (length cs) - 1) * one < 10 ^ 16 * one) as Hlt by nia.
  apply Z.mul_lt_mono_pos_r in Hlt; [|lia]. apply Z.pow_lt_mono_r_iff in Hlt; lia.
Qed.

Lemma fractional_next m cs p2 :
  fractional m cs p2 ->
  let d := p2 * 10 / one in
  let r := (p2 * 10) mod one in
  0 <= d <= 9 /\ 0 <= r < one /\ p2 * 10 = d * one + r /\
  Mp * 10 ^ (m + 1) = digits_value (cs ++ [c0 + d]) * one + r /\ delta * 10 ^ (m + 1) < p2 * 10 /\
  (delta * 10 ^ (m + 1) < r -> fractional (m + 1) (cs ++ [c0 + d]) r).
Proof.
  intros [Hm Hv Hp2 Hrest Hdig Hlead Hcnt] d r. pose proof one_range as H1.
  assert (p2 * 10 = d * one + r /\ 0 <= r < one) as [Hd Hr]
    by (subst d r; pose proof (Z.mod_pos_bound (p2 * 10) one); pose proof (Z.div_mod (p2 * 10) one); lia).
  assert (0 <= d <= 9) as Hd9 by (split; [apply Z.div_pos; lia|]; assert (d < 10) by (apply Z.div_lt_upper_bound; lia); lia).
  rewrite Z.pow_add_r by lia. change (10 ^ 1) with 10. rewrite !Z.mul_assoc.
  assert (Mp * 10 ^ m * 10 = digits_value (cs ++ [c0 + d]) * one + r) as Hv'.
  { rewrite digits_value_snoc, Hv, Z.mul_add_distr_r, Hd. ring. }
  split_and!; try lia. intros Hnot. split.
  - rewrite length_app. cbn [length]. lia.
  - by rewrite Z.pow_add_r, Z.mul_assoc by lia.
  - done.
  - by rewrite Z.pow_add_r, Z.mul_assoc by lia.
  - by apply Forall_app; split; [|repeat constructor; unfold is_digit; lia].
  - apply leading_snoc; [|done]. intros ->. by destruct Hlead as (? & ? & ? & ?).
  - rewrite length_app. cbn [length]. replace (Z.of_nat (length cs + 1) - 1) with (Z.of_nat (length cs) - 1 + 1) by lia.
    rewrite !Z.pow_add_r by lia. change (10 ^ 1) with 10. lia.
Qed.

(** When the loop ends: the digits before the last, the last, and what is left. *)
Record fractional_post (cs : list Z) (c m p2 : Z) : Prop := {
  post_m : 0 <= m <= 17;
  post_value : Mp * 10 ^ m = digits_value (cs ++ [c]) * one + p2;
  post_p2 : 0 <= p2 <= delta * 10 ^ m;
  post_delta : delta * 10 ^ m < 2 ^ 64 /\ delta * 10 ^ m < (c - c0) * one + p2;
  post_digits : is_digits cs /\ is_digit c = true;
  post_leading : leading (cs ++ [c]);
  post_count : (length cs <= 16)%nat;
}.

Lemma fractional_loop_ok fuel m cs p2 b :
  text_at cs b -> fractional m cs p2 -> 17 <= Z.of_nat fuel + m ->
  wp nofault (fractional_loop fuel base (Diyfp one (- s)) p2 (delta * 10 ^ m) (dist * 10 ^ m) (Z.of_nat (length cs)) m) b
    (fun r b' => exists cs' c m' p2',
       r = (Z.of_nat (length cs') + 1, m', p2', delta * 10 ^ m', dist * 10 ^ m') /\ text_at (cs' ++ [c]) b' /\ fractional_post cs' c m' p2').
Proof.
  revert m cs p2 b. induction fuel as [|fuel IH]; intros m cs p2 b Hb I Hfuel;
    pose proof (fractional_count _ _ _ I) as Hc; pose proof (frac_m _ _ _ I) as Hm; [lia|].
  destruct (fractional_next _ _ _ I) as (Hd & Hr & Hsum & Hv & Hdelta & Hnext).
  set (d := p2 * 10 / one) in *. set (r := (p2 * 10) mod one) in *. pose proof one_range as H1.
  pose proof (frac_p2 _ _ _ I) as Hp2. cbn [fractional_loop de df]. cbv zeta. rewrite Z.opp_involutive.
  assert ((2 ^ 64 - 1) / 10 = 1844674407370955161) as -> by done.
  assert_steps. rewrite (u64_small (p2 * 10)) by lia. apply wp_bind, wp_shr64; [lia|].
  assert (Z.land (p2 * 10) (one - 1) = r) as ->.
  { unfold r. rewrite <- Z.land_ones by lia. by rewrite Z.ones_equiv. }
  fold d. assert (u8 (c0 + d) = c0 + d) as -> by (apply uwrap_small; unfold in_u; lia).
  assert_steps. apply wp_bind. eapply wp_write_next; [exact Hb|lia|done|]. intros b1 Hb1.
  assert (0 < 10 ^ m) as Ht by (apply Z.pow_pos_nonneg; lia).
  assert (10 ^ (m + 1) = 10 ^ m * 10) as Hpow by (by rewrite Z.pow_add_r by lia).
  assert (0 <= dist * 10 ^ m <= delta * 10 ^ m) as Hdd by (split; [apply Z.mul_nonneg_nonneg|apply Z.mul_le_mono_nonneg_r]; lia).
  rewrite <- !Z.mul_assoc, <- Hpow. rewrite (u64_small (delta * _)), (u64_small (dist * _)) by lia.
  assert (is_digit (c0 + d) = true) as Hdig by (unfold is_digit; lia).
  destruct (Z.leb_spec r (delta * 10 ^ (m + 1))) as [Hle|Hgt].
  - apply wp_ret. exists cs, (c0 + d), (m + 1), r. split; [done|]. split; [done|]. split; try done; try lia.
    + split; [by apply (frac_digits _ _ _ I)|done].
    + apply leading_snoc; [|intros _; apply (frac_leading _ _ _ I)]. intros ->. simpl in Hm. lia.
  - replace (Z.of_nat (length cs) + 1) with (Z.of_nat (length (cs ++ [c0 + d]))) by (rewrite length_app; cbn [length]; lia).
    apply IH; [done|by apply Hnext|lia].
Qed.
End window.

(** ** The whole function *)

(** [find_largest_pow10] *)
Lemma largest_pow10 n :
  1 <= n < 2 ^ 32 -> exists k, find_largest_pow10 n = (Z.of_nat (S k), 10 ^ Z.of_nat k) /\ 10 ^ Z.of_nat k <= n < 10 ^ Z.of_nat (S k) /\ (k <= 9)%nat.
Proof.
  intros Hn. unfold find_largest_pow10.
  repeat (match goal with |- context [if ?c then _ else _] => destruct c eqn:? end;
    [match goal with |- context [(?i, _) = _] => exists (Z.to_nat (i - 1)) end; split; [done|];
     match goal with |- context [Z.to_nat ?i] => let j := eval vm_compute in (Z.to_nat i) in change (Z.to_nat i) with j end; split; [|lia];
     match goal with |- context [10 ^ Z.of_nat ?i <= _] => let x := eval vm_compute in (10 ^ Z.of_nat i) in change (10 ^ Z.of_nat i) with x end;
     match goal with |- context [_ < 10 ^ Z.of_nat ?i] => let x := eval vm_compute in (10 ^ Z.of_nat i) in change (10 ^ Z.of_nat i) with x end; lia|]).
  exists 0%nat. split; [done|]. change (10 ^ Z.of_nat 0) with 1. change (10 ^ Z.of_nat 1) with 10. lia.
Qed.

Lemma wp_sub {S} f g e (st : S) (Q : diyfp -> S -> Prop) :
  0 <= g <= f -> f < 2 ^ 64 -> Q (Diyfp (f - g) e) st -> wp nofault (sub (Diyfp f e) (Diyfp g e)) st Q.
Proof. intros Hg Hf HQ. unfold sub. cbn [df de]. assert_steps. rewrite u64_small by lia. exact HQ. Qed.

Lemma digit_gen_ok e Mm W Mp e0 b :
  window e Mm W Mp -> (length pre + 17 <= N)%nat -> text_at [] b ->
  wp nofault (grisu2_digit_gen base 0 e0 (Diyfp Mm e) (Diyfp W e) (Diyfp Mp e)) b
    (fun r b' => finished (- e) Mp (Mp - Mm) e0 r.1 r.2 b').
Proof.
  intros [He Hord Hrange Hwidth] Hroom Hb. unfold kAlpha, kGamma in He. unfold grisu2_digit_gen. cbn [df de].
  change kAlpha with (-60). change kGamma with (-32). assert_steps.
  apply wp_bind, wp_sub; [lia..|]. apply wp_bind, wp_sub; [lia..|]. cbn [df].
  set (s := - e) in *. assert (32 <= s <= 60) as Hs by lia. pose proof (one_range s Hs) as H1. set (one := 2 ^ s) in *.
  assert (0 < one) as H0 by lia. apply wp_bind, wp_shl64; [lia|lia|subst one; lia|]. cbn [de df].
  apply wp_bind, wp_shr64; [lia|]. rewrite Z.mul_1_l. fold one.
  assert (Z.land Mp (one - 1) = Mp mod one) as -> by (unfold one; rewrite <- Z.land_ones by lia; by rewrite Z.ones_equiv).
  assert (Mp = Mp / one * one + Mp mod one /\ 0 <= Mp mod one < one) as [Hsplit Hmod]
    by (pose proof (Z.mod_pos_bound Mp one); pose proof (Z.div_mod Mp one); lia).
  set (p1 := Mp / one) in *. set (p2 := Mp mod one) in *.
  assert (1 <= p1 < 2 ^ 32) as Hp1.
  { split; [apply Z.div_le_lower_bound; lia|apply Z.div_lt_upper_bound; lia]. }
  assert (u32 p1 = p1) as -> by (apply uwrap_small; unfold in_u; lia). cbv zeta. assert_steps.
  destruct (largest_pow10 p1 Hp1) as (k & -> & [Hk1 Hk2] & Hk). apply wp_bind.
  replace e with (- s) by lia. rewrite Nat2Z.id. fold one.
  assert (integral s Mp (Mp - Mm) (S k) [] p1 p2) as I.
  { split; try done; try lia.
    - constructor.
    - intros _. replace (Z.of_nat (S k) - 1) with (Z.of_nat k) by lia. done.
    - split; [simpl; lia|]. cbn [length]. replace (Z.of_nat (0 + S k) - 1) with (Z.of_nat k) by lia. fold one.
      etrans; [apply Z.mul_le_mono_nonneg_r; [lia|exact Hk1]|]. lia. }
  pose proof (integral_loop_ok s Mp (Mp - Mm) (Mp - W) Hs Hroom ltac:(lia) ltac:(lia) (S k) [] p1 p2 e0 b Hb I) as Hint.
  replace (Z.of_nat (S k) - 1) with (Z.of_nat k) in Hint by lia.
  eapply wp_mono; [exact Hint|]. intros [len e1|len] b1 Hpost; cbn [integral_post] in Hpost; [by apply wp_ret|].
  destruct Hpost as (cs & Hb1 & -> & Hne & I1). destruct I1 as [Iv _ Ip2 Irest Idig Ilead _ [Icnt Ibig]].
  rewrite Z.mul_0_l in Irest. change (10 ^ Z.of_nat 0) with 1 in Iv. assert_steps. apply wp_bind.
  assert (fractional s Mp (Mp - Mm) 0 cs p2) as I1.
  { split; try done; change (10 ^ 0) with 1; try lia.
    - destruct cs; [done|simpl; lia].
    - by apply Ilead.
    - rewrite Nat.add_0_r in Ibig. lia. }
  pose proof (fractional_loop_ok s Mp (Mp - Mm) (Mp - W) Hs Hroom ltac:(lia) Hwidth 17 0 cs p2 b1 Hb1 I1 ltac:(lia)) as Hfrac.
  change (10 ^ 0) with 1 in Hfrac. rewrite !Z.mul_1_r in Hfrac. eapply wp_mono; [exact Hfrac|].
  intros r b2 (cs2 & c & m & p3 & -> & Hb2 & [Pm Pv Pp2 [Pd1 Pd2] [Pdig Pc] Plead Pcnt]). cbv beta iota. apply wp_bind.
  assert (0 < 10 ^ m) as Ht by (apply Z.pow_pos_nonneg; lia).
  eapply (grisu2_round_ok cs2 c); [exact Hb2|done|done|done| |done|done|done|done|].
  { split; [apply Z.mul_nonneg_nonneg|apply Z.mul_le_mono_nonneg_r]; lia. }
  intros c' b3 rest' Hb3 Hc' Hc0' Hrest' Heq. apply wp_ret. exists (cs2 ++ [c']), 0, m.
  split; [done|]. split; [by eapply digits_ok_snoc; [| | | |exact Plead]|].
  cbn [fst snd]. split; [rewrite length_app; cbn [length]; lia|]. split; [lia|]. split; [lia|]. split; [done|].
  rewrite digits_value_snoc in Pv |- *. fold one in Pv, Heq |- *. change (10 ^ 0) with 1.
  assert ((10 * digits_value cs2 + (c' - c0)) * 1 * one = Mp * 10 ^ m - rest') as ->; [|rewrite Z.mul_sub_distr_r; lia].
  rewrite Pv. rewrite Z.mul_1_r, !Z.mul_add_distr_r. lia.
Qed.
End buffer.
