(* ===== verification/JsonToChars.v ===== *)
(** JsonToChars: [to_chars] of a [double].

    [grisu2_ok]: the digits stand for a decimal number strictly between the
    midpoints to the neighbouring [double]s.  [format_text] is the text
    [format_buffer] makes of digits and exponent; [to_chars_exact] puts them
    together, and [double] is [number_float_t] with this conversion. *)

From Stdlib Require Import QArith Qpower Lqa.
From S2P Require Import Prelude Json JsonLexer JsonNumeral JsonGrisu JsonFloat JsonDigits.
Import dtoa_impl.

#[global] Open Scope Z_scope.

(** ** Grisu2 *)

(** [digits * 10 ^ e] *)
Definition decimal_val (cs : list Z) (e : Z) : Q := (inj (digits_value cs) * 10 ^ e)%Q.

Lemma cancel_le (a b t t' u v : Q) : (0 < t' -> 0 < u -> t * t' == 1 -> u * v == 1 -> a * t <= b * v -> a * u <= b * t')%Q.
Proof.
  intros Ht Hu Htt Huv Hle. assert (0 < t' * u)%Q by nra.
  assert (a * u == a * t * (t' * u))%Q as ->.
  { assert (a * t * (t' * u) == a * u * (t * t'))%Q as -> by ring. rewrite Htt. ring. }
  assert (b * t' == b * v * (t' * u))%Q as ->.
  { assert (b * v * (t' * u) == b * t' * (u * v))%Q as -> by ring. rewrite Huv. ring. }
  apply Qmult_le_compat_r; [done|lra].
Qed.

Lemma cancel_ge (a b t t' u v : Q) : (0 < t' -> 0 < u -> t * t' == 1 -> u * v == 1 -> b * v <= a * t -> b * t' <= a * u)%Q.
Proof.
  intros Ht Hu Htt Huv Hle. rewrite (Qmult_comm t), (Qmult_comm u) in *.
  apply (cancel_le b a v u t' t); try done; by rewrite Qmult_comm.
Qed.

(** The bounds of [digit_gen_ok], in rationals. *)
Lemma within_value s Mp delta cs n m k :
  0 <= s -> within Mp delta (2 ^ s) cs n m ->
  (inj (Mp - delta) * 2 ^ (- s) <= decimal_val cs (- k + n - m) * 10 ^ k <= inj Mp * 2 ^ (- s))%Q.
Proof.
  intros Hs (Hn & Hm & Hlo & Hhi). unfold decimal_val.
  assert (10 ^ (- k + n - m) * 10 ^ k == 10 ^ n * 10 ^ (- m))%Q as Heq.
  { rewrite <- !pow10_add. replace (- k + n - m + k) with (n + - m) by lia. done. }
  rewrite <- Qmult_assoc, Heq, Qmult_assoc.
  assert (10 ^ m * 10 ^ (- m) == 1)%Q as Ht by (rewrite <- pow10_add; by rewrite Z.add_opp_diag_r).
  assert (2 ^ (- s) * 2 ^ s == 1)%Q as Hu by (rewrite <- pow2_add; by rewrite Z.add_opp_diag_l).
  rewrite Zle_Qle, !inject_Z_mult, !pow_inj in Hlo, Hhi by lia.
  split; [eapply cancel_le|eapply cancel_ge]; try exact Ht; try exact Hu; try apply pow10_pos; try apply pow2_pos; done.
Qed.

Section grisu2.
Context (pre : list Z) (N : nat).
Hypothesis Hroom : (length pre + 17 <= N)%nat.

(** [cs] and [e] are between the midpoints around the number. *)
Definition shortest (bits : Z) (cs : list Z) (e : Z) : Prop :=
  digits_ok cs /\ Z.abs e <= 341 /\ (midpoint (bits - 1) < decimal_val cs e < midpoint bits)%Q.

Lemma grisu2_diyfp_ok bits bd b :
  bounded bits bd -> text_at pre N [] b ->
  wp nofault (grisu2_diyfp (Z.of_nat (length pre)) 0 (b_minus bd) (b_w bd) (b_plus bd)) b (fun r b' =>
    exists cs, text_at pre N cs b' /\ r.1 = Z.of_nat (length cs) /\ shortest bits cs r.2).
Proof.
  intros [Hplus Hminus He1 He2 He Hrange Hgap Hwidth] Hb. destruct bd as [[w we] [m me] [p e]].
  cbn [b_w b_minus b_plus df de] in *. subst we me. unfold grisu2_diyfp. cbn [de df]. assert_steps.
  apply wp_bind. eapply wp_mono; [by apply get_cached_power_ok|]. intros c ? (-> & Hc & Hce & Hck). cbv zeta.
  pose proof (mul_close (Diyfp p e) c) as Ep. pose proof (mul_close (Diyfp m e) c) as Em.
  pose proof (proj1 Hc) as Hcf. cbn [df de] in Ep, Em.
  rewrite !mul_exact in * by (cbn [df]; unfold in_u; lia). cbn [df de] in *.
  destruct (window_intro (e + cp_e c + 64) m w p (cp_f c)) as [Hm0 Hw]; [lia..|].
  set (sm := (m * cp_f c + 2 ^ 63) / 2 ^ 64) in *. set (sw := (w * cp_f c + 2 ^ 63) / 2 ^ 64) in *.
  set (sp := (p * cp_f c + 2 ^ 63) / 2 ^ 64) in *. set (e' := e + cp_e c + 64) in *.
  pose proof (window_order _ _ _ _ Hw) as Ho. pose proof (window_range _ _ _ _ Hw) as Hr. pose proof (window_e _ _ _ _ Hw) as Hwe.
  rewrite (u64_small (sm + 1)), (u64_small (sp - 1)) by lia.
  eapply wp_mono; [by apply digit_gen_ok|]. intros [len E] b' (cs & n & k & Hb' & Hok & -> & -> & Hin). cbn [fst snd].
  exists cs. split; [done|]. split; [done|]. split; [done|]. pose proof Hin as (Hn & Hk & _). split; [lia|].
  apply (within_value _ _ _ _ _ _ (cp_k c)) in Hin as [Hlo Hhi]; [|unfold kGamma in Hwe; lia]. rewrite Z.opp_involutive in Hlo, Hhi.
  replace (sp - 1 - (sp - 1 - (sm + 1))) with (sm + 1) in Hlo by lia.
  rewrite <- Hminus, <- Hplus. specialize (Ep ltac:(unfold in_u; lia) Hc). specialize (Em ltac:(unfold in_u; lia) Hc).
  change (dval (Diyfp sp e')) with (inj sp * 2 ^ e')%Q in Ep. change (dval (Diyfp sm e')) with (inj sm * 2 ^ e')%Q in Em.
  rewrite inject_Z_plus in Hlo. replace (sp - 1) with (sp + -1) in Hhi by lia. rewrite inject_Z_plus in Hhi. change (inj 1) with 1%Q in Hlo. change (inj (-1)) with (-1)%Q in Hhi.
  pose proof (pow10_pos (cp_k c)) as Hp. split; eapply (Qmult_lt_r _ _ _ Hp); lra.
Qed.

Lemma grisu2_ok bits b :
  0 < bits < 0x7FF0000000000000 -> text_at pre N [] b ->
  wp nofault (grisu2 (Z.of_nat (length pre)) 0 bits) b (fun r b' =>
    exists cs, text_at pre N cs b' /\ r.1 = Z.of_nat (length cs) /\ shortest bits cs r.2).
Proof.
  intros Hbits Hb. unfold grisu2, is_positive, signbit. rewrite isfinite_spec by lia. assert_steps.
  apply wp_bind. eapply wp_mono; [by apply compute_boundaries_ok|]. intros bd ? [-> Hbd]. by apply grisu2_diyfp_ok.
Qed.
End grisu2.

(** ** The text *)

(** The exponent, of at least two digits. *)
Definition exponent_text (e : Z) : list Z :=
  (if e <? 0 then cMINUS else cPLUS) :: (if Z.abs e <? 10 then [c0] else []) ++ to_string (Z.abs e).

Definition zeros (n : Z) : list Z := replicate (Z.to_nat n) c0.

(** What [format_buffer] makes of the digits [cs] and the exponent [e], between the
    bounds [to_chars] gives. *)
Definition format_text (cs : list Z) (e : Z) : list Z :=
  let k := Z.of_nat (length cs) in
  let n := k + e in
  if (k <=? n) && (n <=? 15) then cs ++ zeros (n - k) ++ [cDOT; c0]
  else if (0 <? n) && (n <=? 15) then take (Z.to_nat n) cs ++ [cDOT] ++ drop (Z.to_nat n) cs
  else if (-4 <? n) && (n <=? 0) then [c0; cDOT] ++ zeros (- n) ++ cs
  else if k =? 1 then cs ++ [c_e] ++ exponent_text (n - 1)
  else take 1 cs ++ [cDOT] ++ drop 1 cs ++ [c_e] ++ exponent_text (n - 1).

Section format.
Context (pre : list Z) (N : nat).
Abbreviation base := (Z.of_nat (length pre)).
Abbreviation text_at := (text_at pre N).
Implicit Types (b t : list Z).

Lemma write_body i new body :
  (i + length new <= length body)%nat ->
  write_at (base + Z.of_nat i) new (pre ++ body) = Ok (tt, pre ++ take i body ++ new ++ drop (i + length new) body).
Proof.
  intros Hl. rewrite <- (take_drop i body) at 1. rewrite app_assoc.
  replace (base + Z.of_nat i) with (Z.of_nat (length (pre ++ take i body))) by (rewrite length_app, length_take; lia).
  rewrite write_at_app by (rewrite length_drop; lia). by rewrite drop_drop, <- app_assoc.
Qed.

(** Writing over the text, from [i] on. *)
Lemma wp_write_over i new t b p (Q : unit -> list Z -> Prop) :
  text_at t b -> p = base + Z.of_nat i -> (i <= length t)%nat -> (length pre + i + length new <= N)%nat ->
  (forall b', text_at (take i t ++ new ++ drop (i + length new) t) b' -> Q tt b') -> wp nofault (write_at p new) b Q.
Proof.
  intros (rest & -> & HN) -> Hi Hfit HQ. rewrite !length_app in HN. eapply wp_run; [apply write_body; rewrite length_app; lia|].
  apply HQ. exists (drop (i + length new - length t) rest). split.
  - rewrite take_app_le, drop_app by lia. by rewrite <- !app_assoc.
  - rewrite !length_app, length_take, length_drop, length_app. lia.
Qed.

(** Writing past the text leaves [i] characters of whatever was there. *)
Lemma wp_write_far i new t b p (Q : unit -> list Z -> Prop) :
  text_at t b -> p = base + Z.of_nat i -> (length t <= i + length new)%nat -> (length pre + i + length new <= N)%nat ->
  (forall g b', length g = i -> text_at (g ++ new) b' -> Q tt b') -> wp nofault (write_at p new) b Q.
Proof.
  intros (rest & -> & HN) -> Hi Hfit HQ. rewrite !length_app in HN. eapply wp_run; [apply write_body; rewrite length_app; lia|].
  apply (HQ (take i (t ++ rest))); [rewrite length_take, length_app; lia|]. eexists. split; [by rewrite <- app_assoc|].
  rewrite !length_app, length_take, length_drop, length_app. lia.
Qed.

Lemma wp_read_over i n t b p m (Q : list Z -> list Z -> Prop) :
  text_at t b -> p = base + Z.of_nat i -> m = Z.of_nat n -> (i + n <= length t)%nat -> Q (take n (drop i t)) b -> wp nofault (read_at p m) b Q.
Proof.
  intros (rest & -> & HN) -> -> Hi HQ. eapply wp_run; [|exact HQ]. unfold read_at. rewrite !length_app.
  rewrite (proj2 (Z.leb_le 0 (base + Z.of_nat i))), (proj2 (Z.leb_le 0 (Z.of_nat n))), (proj2 (Z.leb_le (base + Z.of_nat i + _) _)) by lia.
  simpl. do 2 f_equal. rewrite Nat2Z.id. replace (Z.to_nat (base + Z.of_nat i)) with (length pre + i)%nat by lia.
  by rewrite drop_app_add, drop_app_le, take_app_le by (rewrite ?length_drop; lia).
Qed.

(** Appending *)
Lemma wp_append new t b p (Q : unit -> list Z -> Prop) :
  text_at t b -> p = base + Z.of_nat (length t) -> (length pre + length t + length new <= N)%nat ->
  (forall b', text_at (t ++ new) b' -> Q tt b') -> wp nofault (write_at p new) b Q.
Proof.
  intros Hb -> Hfit HQ. eapply wp_write_over; [exact Hb|done|done|lia|]. intros b' Hb'. apply HQ.
  by rewrite firstn_all, drop_ge, app_nil_r in Hb' by lia.
Qed.

Lemma append_exponent_ok e t b p :
  text_at t b -> p = base + Z.of_nat (length t) -> -1000 < e < 1000 -> (length pre + length t + 4 <= N)%nat ->
  wp nofault (append_exponent p e) b (fun n b' => n = base + Z.of_nat (length (t ++ exponent_text e)) /\ text_at (t ++ exponent_text e) b').
Proof.
  intros Hb -> He Hfit. unfold append_exponent. assert_steps. unfold exponent_text.
  set (c := if e <? 0 then cMINUS else cPLUS). assert ((if e <? 0 then - e else e) = Z.abs e) as -> by (destruct (e <? 0) eqn:E; lia).
  set (k := Z.abs e). assert (0 <= k < 1000) as Hk by lia. cbv zeta.
  apply wp_bind. eapply wp_append; [exact Hb|done|simpl; lia|]. intros b1 Hb1.
  assert (forall d, 0 <= d <= 9 -> u8 (c0 + d) = c0 + d) as Hu8 by (intros; apply uwrap_small; unfold in_u; lia).
  assert (to_string k = if k <? 10 then [c0 + k] else if k <? 100 then [c0 + k / 10; c0 + k mod 10]
    else [c0 + k / 100; c0 + k mod 100 / 10; c0 + k mod 100 mod 10]) as ->.
  { destruct (Z.ltb_spec k 10); [apply to_string_small; lia|]. destruct (Z.ltb_spec k 100).
    - rewrite to_string_step, to_string_small by div_lia. done.
    - rewrite to_string_step2, to_string_small by div_lia. done. }
  destruct (Z.ltb_spec k 10); [|destruct (Z.ltb_spec k 100)]; rewrite !Hu8 by div_lia;
    repeat (apply wp_bind; (eapply wp_append; [eassumption|rewrite ?length_app; simpl; lia|rewrite ?length_app; simpl; lia|]); intros);
    apply wp_ret; rewrite <- ?app_assoc in *; simpl in *; (split; [rewrite length_app; simpl; lia|assumption]).
Qed.

Lemma zeros_length n : 0 <= n -> Z.of_nat (length (zeros n)) = n.
Proof. intros. unfold zeros. rewrite length_replicate. lia. Qed.

(** [memmove] within the text, moving its end from [j] to [i]. *)
Lemma memmove_ok i j n t b d p m (Q : unit -> list Z -> Prop) :
  text_at t b -> d = base + Z.of_nat i -> p = base + Z.of_nat j -> m = Z.of_nat n -> (j + n = length t)%nat ->
  (j <= i <= length t)%nat -> (length pre + i + n <= N)%nat ->
  (forall b', text_at (take i t ++ drop j t) b' -> Q tt b') -> wp nofault (memmove d p m) b Q.
Proof.
  intros Hb -> -> -> Hn Hi Hfit HQ. apply wp_bind. eapply wp_read_over; [exact Hb|done|done|lia|].
  rewrite take_ge by (rewrite length_drop; lia). eapply wp_write_over; [exact Hb|done|lia|rewrite length_drop; lia|].
  intros b' Hb'. rewrite (drop_ge t (i + _)), app_nil_r in Hb' by (rewrite length_drop; lia). by apply HQ.
Qed.

Lemma set_char_ok i c x t b p (Q : unit -> list Z -> Prop) :
  text_at t b -> p = base + Z.of_nat i -> t !! i = Some x ->
  (forall b', text_at (take i t ++ [c] ++ drop (S i) t) b' -> Q tt b') -> wp nofault (write_at p [c]) b Q.
Proof.
  intros Hb Hp Hx HQ. pose proof (lookup_lt_Some _ _ _ Hx) as Hi. eapply wp_write_over; [exact Hb|exact Hp|lia| |].
  - destruct Hb as (rest & -> & HN). rewrite !length_app in HN. simpl. lia.
  - intros b' Hb'. apply HQ. by replace (S i) with (i + length [c])%nat by (simpl; lia).
Qed.

Lemma format_buffer_ok cs e b :
  text_at cs b -> (1 <= length cs <= 17)%nat -> Z.abs e <= 341 -> (length pre + 23 <= N)%nat ->
  wp nofault (format_buffer base (Z.of_nat (length cs)) e (-4) 15) b
    (fun n b' => n = base + Z.of_nat (length (format_text cs e)) /\ text_at (format_text cs e) b').
Proof.
  intros Hb Hk He Hfit. unfold format_buffer, format_text. assert_steps. cbv zeta. set (n := Z.of_nat (length cs) + e).
  destruct ((Z.of_nat (length cs) <=? n) && (n <=? 15)) eqn:E1.
  { apply andb_prop in E1 as [?%Z.leb_le ?%Z.leb_le]. pose proof (zeros_length (n - Z.of_nat (length cs)) ltac:(lia)) as Hz.
    apply wp_bind. eapply (wp_append (zeros _)); [exact Hb|done|lia|]. intros b1 Hb1.
    apply wp_bind. eapply wp_append; [exact Hb1|rewrite length_app; lia|rewrite length_app; simpl; lia|]. intros b2 Hb2.
    apply wp_bind. eapply wp_append; [exact Hb2|rewrite !length_app; simpl; lia|rewrite !length_app; simpl; lia|]. intros b3 Hb3.
    apply wp_ret. rewrite <- !app_assoc in Hb3. split; [rewrite !length_app; simpl; lia|exact Hb3]. }
  destruct ((0 <? n) && (n <=? 15)) eqn:E2.
  { apply andb_prop in E2 as [?%Z.ltb_lt ?%Z.leb_le]. apply andb_false_iff in E1 as [?%Z.leb_gt|?%Z.leb_gt]; [|lia].
    assert_steps. apply wp_bind. eapply (memmove_ok (S (Z.to_nat n)) (Z.to_nat n) (length cs - Z.to_nat n)); [exact Hb|lia..|].
    intros b1 Hb1. destruct (lookup_lt_is_Some_2 cs (Z.to_nat n)) as [x Hx]; [lia|]. rewrite (take_S_r _ _ _ Hx), <- app_assoc in Hb1.
    apply wp_bind. eapply (set_char_ok (Z.to_nat n)); [exact Hb1|lia| |].
    { rewrite lookup_app_r by (rewrite length_take; lia). rewrite length_take. replace (Z.to_nat n - _)%nat with 0%nat by lia. done. }
    intros b2 Hb2. apply wp_ret. rewrite take_app_le, take_ge in Hb2 by (rewrite length_take; lia).
    rewrite (drop_app_ge _ _ (S _)) in Hb2 by (rewrite length_take; lia). rewrite length_take in Hb2.
    replace (S (Z.to_nat n) - _)%nat with 1%nat in Hb2 by lia.
    split; [rewrite !length_app, length_take, length_drop; simpl; lia|exact Hb2]. }
  destruct ((-4 <? n) && (n <=? 0)) eqn:E3.
  { apply andb_prop in E3 as [?%Z.ltb_lt ?%Z.leb_le].
    apply wp_bind, wp_bind. eapply (wp_read_over 0 (length cs)); [exact Hb|lia|done|lia|]. rewrite drop_0, take_ge by lia.
    eapply (wp_write_far (Z.to_nat (2 - n))); [exact Hb|lia|lia|lia|]. intros g b1 Hg Hb1.
    destruct g as [|x g]; [simpl in Hg; lia|]. destruct g as [|y g]; [simpl in Hg; lia|].
    apply wp_bind. eapply (set_char_ok 0); [exact Hb1|lia|done|]. intros b2 Hb2. simpl in Hb2.
    apply wp_bind. eapply (set_char_ok 1); [exact Hb2|lia|done|]. intros b3 Hb3. simpl in Hb3.
    apply wp_bind. eapply (wp_write_over 2 (zeros (- n))); [exact Hb3|lia|simpl; lia|unfold zeros; rewrite length_replicate; lia|].
    intros b4 Hb4. apply wp_ret. pose proof (zeros_length (- n) ltac:(lia)) as Hz.
    assert (length (zeros (- n)) = length g) as Hzg by (simpl in Hg; lia). rewrite Hzg in Hb4. simpl in Hb4. rewrite drop_0, drop_app_length in Hb4.
    split; [simpl; rewrite length_app; lia|exact Hb4]. }
  assert (n <= -4 \/ 15 < n) as Hn.
  { apply andb_false_iff in E1 as [?%Z.leb_gt|?%Z.leb_gt]; apply andb_false_iff in E2 as [?%Z.ltb_ge|?%Z.leb_gt];
      apply andb_false_iff in E3 as [?%Z.ltb_ge|?%Z.leb_gt]; lia. }
  destruct (Z.eqb_spec (Z.of_nat (length cs)) 1) as [H1|H1].
  - apply wp_bind. eapply wp_append; [exact Hb|lia|simpl; lia|]. intros b1 Hb1. rewrite (app_assoc cs).
    apply append_exponent_ok; [exact Hb1|rewrite length_app; simpl; lia|lia|rewrite length_app; simpl; lia].
  - apply wp_bind. eapply (memmove_ok 2 1 (length cs - 1)); [exact Hb|lia..|]. intros b1 Hb1.
    destruct cs as [|c cs]; [simpl in Hk; lia|]. destruct cs as [|c2 cs]; [simpl in H1; lia|]. simpl in Hb1.
    apply wp_bind. eapply (set_char_ok 1); [exact Hb1|lia|done|]. intros b2 Hb2. simpl in Hb2.
    apply wp_bind. eapply wp_append; [exact Hb2|simpl; lia|simpl in *; lia|]. intros b3 Hb3. simpl in Hb3.
    eapply wp_mono; [eapply append_exponent_ok; [exact Hb3|simpl; rewrite length_app; simpl; lia|lia|simpl; rewrite length_app; simpl in *; lia]|].
    intros m b4 [-> Hb4]. simpl in *. rewrite <- !app_assoc in *. by split.
Qed.
End format.

(** ** The value of the text *)

(** The integral part of a JSON number. *)
Definition int_part (ip : list Z) : Prop := is_digits ip /\ (ip = [c0] \/ leading ip).

(** A JSON number without sign that has a fraction or an exponent, and its value. *)
Inductive decimal_text : list Z -> Q -> Prop :=
  | decimal_fraction ip fp :
      int_part ip -> is_digits fp -> fp <> [] -> decimal_text (ip ++ [cDOT] ++ fp) (decimal_val (ip ++ fp) (- Z.of_nat (length fp)))
  | decimal_exp ip fp (negative : bool) ds :
      int_part ip -> is_digits fp -> is_digits ds -> ds <> [] ->
      decimal_text (ip ++ (if fp is [] then [] else [cDOT] ++ fp) ++ [c_e] ++ (if negative then cMINUS else cPLUS) :: ds)
        (decimal_val (ip ++ fp) ((if negative then - digits_value ds else digits_value ds) - Z.of_nat (length fp))).

Lemma digits_value_app a b : digits_value (a ++ b) = digits_value a * 10 ^ Z.of_nat (length b) + digits_value b.
Proof.
  induction b as [|c b IH] using rev_ind.
  - rewrite app_nil_r. change (digits_value []) with 0. change (10 ^ Z.of_nat (length [])) with 1. lia.
  - rewrite app_assoc, !digits_value_snoc, IH, length_app, Nat2Z.inj_add, Z.pow_add_r by lia.
    change (10 ^ Z.of_nat (length [c])) with 10. ring.
Qed.

Lemma digits_value_zeros n : digits_value (replicate n c0) = 0.
Proof. induction n as [|n IH]; [done|]. rewrite replicate_S_end, digits_value_snoc, IH. done. Qed.

Lemma zeros_digits n : is_digits (zeros n).
Proof. by apply Forall_replicate. Qed.

Lemma exponent_text_eq e :
  exists ds, exponent_text e = (if e <? 0 then cMINUS else cPLUS) :: ds /\ is_digits ds /\ ds <> [] /\ digits_value ds = Z.abs e.
Proof.
  exists ((if Z.abs e <? 10 then [c0] else []) ++ to_string (Z.abs e)). split; [done|].
  pose proof (to_string_digits (Z.abs e) ltac:(lia)) as Hd. pose proof (to_string_value (Z.abs e) ltac:(lia)) as Hv.
  destruct (to_string_head (Z.abs e)) as (c & ds & Hc & _); [lia|].
  destruct (_ <? 10); cbn [app]; split_and!; try done; [by constructor|..]; try (by rewrite Hc).
Qed.

Lemma leading_app a b : leading a -> leading (a ++ b).
Proof. intros (c & cs & -> & ?). by exists c, (cs ++ b). Qed.

Lemma leading_take n cs : leading cs -> (0 < n)%nat -> leading (take n cs).
Proof. intros (c & cs' & -> & ?) Hn. destruct n as [|n]; [lia|]. by exists c, (take n cs'). Qed.

Lemma format_text_value cs e :
  digits_ok cs -> exists q, decimal_text (format_text cs e) q /\ (q == decimal_val cs e)%Q.
Proof.
  intros (Hd & Hlen & Hlead). unfold format_text. set (n := Z.of_nat (length cs) + e).
  destruct ((_ <=? n) && _) eqn:E1.
  { apply andb_prop in E1 as [?%Z.leb_le _]. eexists. split.
    - rewrite app_assoc. apply (decimal_fraction _ [c0]); [|by repeat constructor|done].
      split; [apply Forall_app; split; [done|apply zeros_digits]|]. right. by apply leading_app.
    - unfold decimal_val. rewrite !digits_value_app. unfold zeros. rewrite digits_value_zeros, length_replicate.
      change (10 ^ Z.of_nat (length [c0])) with 10. change (digits_value [c0]) with 0. rewrite !Z.add_0_r, !inject_Z_mult, pow_inj by lia.
      replace (Z.of_nat (Z.to_nat (n - Z.of_nat (length cs)))) with e by lia. change (- Z.of_nat (length [c0])) with (-1).
      change (10 ^ (-1))%Q with (1#10). change (inj 10) with 10%Q. field. }
  destruct ((0 <? n) && _) eqn:E2.
  { apply andb_prop in E2 as [?%Z.ltb_lt ?%Z.leb_le]. apply andb_false_iff in E1 as [?%Z.leb_gt|?%Z.leb_gt]; [|lia]. eexists. split.
    - apply decimal_fraction; [split; [by apply Forall_take|right; apply leading_take; [done|lia]]|by apply Forall_drop|].
      intros Hnil. apply (f_equal length) in Hnil. rewrite length_drop in Hnil. simpl in Hnil. lia.
    - rewrite take_drop, length_drop. replace (- _) with e by lia. done. }
  destruct ((-4 <? n) && _) eqn:E3.
  { apply andb_prop in E3 as [_ ?%Z.leb_le]. eexists. split.
    - apply (decimal_fraction [c0] (zeros (- n) ++ cs)); [split; [by repeat constructor|by left]| |].
      + apply Forall_app. split; [apply zeros_digits|done].
      + intros Hnil. apply (f_equal length) in Hnil. rewrite length_app in Hnil. simpl in Hnil. lia.
    - unfold decimal_val. rewrite !digits_value_app. unfold zeros. rewrite digits_value_zeros, length_app, length_replicate.
      change (digits_value [c0]) with 0. rewrite !Z.mul_0_l, !Z.add_0_l. replace (- _) with e by lia. done. }
  destruct (exponent_text_eq (n - 1)) as (ds & -> & Hds & Hne & Hv).
  assert ((if n - 1 <? 0 then - digits_value ds else digits_value ds) = n - 1) as Hx by (rewrite Hv; destruct (n - 1 <? 0) eqn:E; lia).
  destruct (Z.eqb_spec (Z.of_nat (length cs)) 1) as [H1|H1].
  - eexists. split; [apply (decimal_exp cs []); [split; [done|by right]|constructor|done|done]|].
    rewrite app_nil_r, Hx. simpl (length []). replace (n - 1 - Z.of_nat 0) with e by lia. done.
  - assert (drop 1 cs <> []) as Hdr.
    { intros Hnil. apply (f_equal length) in Hnil. rewrite length_drop in Hnil. simpl in Hnil. lia. }
    exists (decimal_val (take 1 cs ++ drop 1 cs) (n - 1 - Z.of_nat (length (drop 1 cs)))). split.
    + pose proof (decimal_exp (take 1 cs) (drop 1 cs) (n - 1 <? 0) ds) as Hdec. rewrite Hx in Hdec.
      assert (match drop 1 cs with [] => [] | _ => [cDOT] ++ drop 1 cs end = [cDOT] ++ drop 1 cs) as Heq by (by destruct (drop 1 cs)).
      rewrite Heq, <- !app_assoc in Hdec. apply Hdec; try done; [|by apply Forall_drop].
      split; [by apply Forall_take|right; apply leading_take; [done|lia]].
    + rewrite take_drop, length_drop. replace (n - 1 - _) with e by lia. done.
Qed.

(** ** [to_chars] *)

Lemma isfinite_unsigned bits : isfinite (bits mod 2 ^ 63) = isfinite bits.
Proof.
  unfold isfinite. f_equal. f_equal. change 0x7FF with (Z.ones 11). rewrite !Z.land_ones, !Z.shiftr_div_pow2 by lia. div_lia.
Qed.

(** [t] is a JSON number for the magnitude of a [double]: 0, or strictly between
    the midpoints to its neighbours. *)
Definition denotes (bits : Z) (t : list Z) : Prop :=
  exists q, decimal_text t q /\
    if bits =? 0 then (q == 0)%Q else (midpoint (bits - 1) < q < midpoint bits)%Q.

Lemma denotes_zero : denotes 0 [c0; cDOT; c0].
Proof. eexists. split; [apply (decimal_fraction [c0] [c0]); [split; [by repeat constructor|by left]|by repeat constructor|done]|done]. Qed.

Lemma denotes_shortest bits cs e : 0 < bits -> shortest bits cs e -> denotes bits (format_text cs e).
Proof.
  intros Hb (Hok & _ & H1 & H2). destruct (format_text_value cs e Hok) as (q & Hq & Heq). exists q. split; [done|].
  rewrite (proj2 (Z.eqb_neq bits 0)) by lia. by rewrite Heq.
Qed.

Lemma text_at_take pre N t b : text_at pre N t b -> take (length (pre ++ t)) b = pre ++ t /\ length b = N.
Proof. intros (rest & -> & HN). split; [|done]. by rewrite app_assoc, take_app_length. Qed.

Definition sign_text (bits : Z) : list Z := if signbit bits then [cMINUS] else [].

Lemma to_chars_magnitude bits v b :
  v = bits mod 2 ^ 63 -> isfinite v = true -> (24 <= length b)%nat -> text_at (sign_text bits) (length b) [] b ->
  wp nofault (
    if v =? 0 then
      write_at (Z.of_nat (length (sign_text bits))) [c0];; write_at (Z.of_nat (length (sign_text bits)) + 1) [cDOT];;
      write_at (Z.of_nat (length (sign_text bits)) + 2) [c0];; mret (Z.of_nat (length (sign_text bits)) + 3)
    else
      json_assert (17 <=? Z.of_nat (length b) - Z.of_nat (length (sign_text bits)));;
      '(len, decimal_exponent) ← grisu2 (Z.of_nat (length (sign_text bits))) 0 v;
      json_assert (len <=? 17);;
      json_assert (15 + 2 <=? Z.of_nat (length b) - Z.of_nat (length (sign_text bits)));;
      json_assert (2 + (- -4 - 1) + 17 <=? Z.of_nat (length b) - Z.of_nat (length (sign_text bits)));;
      json_assert (17 + 6 <=? Z.of_nat (length b) - Z.of_nat (length (sign_text bits)));;
      format_buffer (Z.of_nat (length (sign_text bits))) len decimal_exponent (-4) 15) b
    (fun n b' => exists t, n = Z.of_nat (length (sign_text bits ++ t)) /\ text_at (sign_text bits) (length b) t b' /\ denotes v t).
Proof.
  intros Hv Hfin Hlen Hb. assert (length (sign_text bits) <= 1)%nat as Hs by (unfold sign_text; destruct (signbit bits); simpl; lia).
  pose proof (Z.mod_pos_bound bits (2 ^ 63) ltac:(lia)) as Hr. rewrite <- Hv in Hr. destruct (Z.eqb_spec v 0) as [->|Hv0].
  - apply wp_bind. eapply wp_append; [exact Hb|simpl; lia|simpl; lia|]. intros b1 Hb1.
    apply wp_bind. eapply wp_append; [exact Hb1|simpl; lia|simpl; lia|]. intros b2 Hb2.
    apply wp_bind. eapply wp_append; [exact Hb2|simpl; lia|simpl; lia|]. intros b3 Hb3.
    apply wp_ret. exists [c0; cDOT; c0]. split; [rewrite length_app; simpl; lia|]. split; [exact Hb3|apply denotes_zero].
  - rewrite isfinite_spec in Hfin by lia. assert_steps.
    apply wp_bind. eapply wp_mono; [apply (grisu2_ok (sign_text bits) (length b) ltac:(lia) v b ltac:(lia) Hb)|].
    intros [len e] b1 (cs & Hb1 & Hcs & Hshort). cbn [fst snd] in Hcs, Hshort. subst len.
    pose proof Hshort as (Hok & He & _). pose proof Hok as (_ & Hcount & _). assert_steps.
    eapply wp_mono; [apply format_buffer_ok; [done|lia|lia|lia]|]. intros n b2 [-> Hb2].
    exists (format_text cs e). split; [by rewrite length_app, Nat2Z.inj_add|]. split; [done|].
    apply denotes_shortest; [lia|done].
Qed.

Lemma to_chars_run bits b :
  in_u 64 bits -> isfinite bits = true -> (24 <= length b)%nat ->
  wp nofault (to_chars bits) b (fun n b' => exists t,
    length b' = length b /\ take (Z.to_nat n) b' = sign_text bits ++ t /\ denotes (bits mod 2 ^ 63) t).
Proof.
  intros Hu Hfin Hlen. unfold to_chars. apply wp_bind, wp_assert; [done|]. apply wp_bind, wp_gets.
  pose proof (isfinite_unsigned bits) as Hm. rewrite Hfin in Hm. unfold in_u in Hu.
  assert (text_at [] (length b) [] b) as Hb by by exists b.
  eapply wp_mono with (P := fun n b' => exists t, n = Z.of_nat (length (sign_text bits ++ t)) /\
    text_at (sign_text bits) (length b) t b' /\ denotes (bits mod 2 ^ 63) t).
  - apply wp_bind. pose proof (to_chars_magnitude bits) as Hmag. unfold sign_text, signbit in *.
    destruct (2 ^ 63 <=? bits) eqn:E; cbn [length app] in *.
    + apply wp_bind. eapply wp_append; [exact Hb|done|simpl; lia|]. intros b1 Hb1. apply wp_ret.
      destruct Hb1 as (rest & -> & HN). rewrite <- HN.
      assert (bits - 2 ^ 63 = bits mod 2 ^ 63) as -> by div_lia. apply Hmag; [done|done|lia|].
      by exists rest.
    + apply wp_ret. assert (bits mod 2 ^ 63 = bits) as Heq by div_lia. rewrite Heq in *. by apply Hmag.
  - intros n b' (t & -> & Hb' & Hd). exists t. apply text_at_take in Hb' as [Ht Hl]. by rewrite Nat2Z.id.
Qed.

(** C13 [to_chars] of any finite [double], in a buffer of at least 24 characters: it
    stays inside the buffer, no assertion of the code fails, and what it writes is
    the sign and a JSON number with a fraction or an exponent that lies strictly
    between the midpoints to the neighbouring [double]s (0 for 0), so that reading
    it with any rounding to nearest gives the number back. *)
Theorem to_chars_exact bits buffer :
  in_u 64 bits -> isfinite bits = true -> (24 <= length buffer)%nat ->
  exists n buffer' t, to_chars bits buffer = Ok (n, buffer') /\ length buffer' = length buffer /\
    take (Z.to_nat n) buffer' = sign_text bits ++ t /\ denotes (bits mod 2 ^ 63) t.
Proof.
  intros Hu Hf Hl. destruct (wp_ok _ _ _ (to_chars_run bits buffer Hu Hf Hl)) as (n & b' & Hr & t & H). by exists n, b', t.
Qed.

(** ** [double] as [number_float_t]

    The functions of the C library stay parameters. *)

Definition double (strtod : list Z -> Z) (snprintf_g : Z -> list Z) : NumberFloat Z := {|
  float_zero := 0;
  Json.isfinite := dtoa_impl.isfinite;
  strtof := strtod;
  is_ieee_single_or_double := true;
  float_chars x := match to_chars x (replicate 64 cNUL) with Ok (n, buffer) => take (Z.to_nat n) buffer | Fault _ => [] end;
  print_g := snprintf_g
|}.

(** The text of a finite number in [dump]. *)
Lemma double_chars strtod snprintf_g x :
  in_u 64 x -> dtoa_impl.isfinite x = true ->
  exists t, float_chars (NumberFloat := double strtod snprintf_g) x = sign_text x ++ t /\ denotes (x mod 2 ^ 63) t.
Proof.
  intros Hx Hf. pose proof (to_chars_run x (replicate 64 cNUL) Hx Hf ltac:(rewrite length_replicate; lia)) as Hw.
  unfold wp in Hw. cbv [double float_chars]. destruct (to_chars x _) as [[n b]|f]; [|done]. destruct Hw as (t & _ & Ht & Hd). by exists t.
Qed.

(** 0.1, 5e-324 and -1e+22 *)
Lemma to_chars_exact_witness :
  (in_u 64 0x3FB999999999999A /\ isfinite 0x3FB999999999999A = true) /\
  (exists n buffer' t, to_chars 0x3FB999999999999A (replicate 64 0) = Ok (n, buffer') /\ t = str "0.1" /\
    take (Z.to_nat n) buffer' = sign_text 0x3FB999999999999A ++ t /\ denotes 0x3FB999999999999A t) /\
  float_chars (NumberFloat := double (fun _ => 0) (fun _ => [])) 1 = str "5e-324" /\
  float_chars (NumberFloat := double (fun _ => 0) (fun _ => [])) 0xC480F0CF064DD592 = str "-1e+22".
Proof.
  assert (in_u 64 0x3FB999999999999A /\ isfinite 0x3FB999999999999A = true) as [Hu Hf] by (split; [by vm_compute|done]).
  split; [by split|]. split; [|by split; vm_compute].
  destruct (to_chars_exact 0x3FB999999999999A (replicate 64 0) Hu Hf) as (n & b & t & Hr & _ & Ht & Hd); [rewrite length_replicate; lia|].
  exists n, b, t. split; [exact Hr|]. split; [|by split]. vm_compute in Hr. injection Hr as <- <-. vm_compute in Ht. by rewrite <- Ht.
Defined.
