(* ===== verification/JsonStrtod.v ===== *)
(** JsonStrtod: [strtod], and [dump] and [parse] over [double].

    [strtod] is the function of the C library on the numerals the lexer passes to
    it, with rounding to nearest, ties to even.  [strtod_number] is its value on the
    text of a number; [nearest_double_spec] says what rounding means.
    [double_roundtrip]: what [dump] writes of a value, its floating-point numbers by
    [to_chars], [parse] reads back. *)

From Stdlib Require Import QArith Qpower Lqa.
From S2P Require Import Prelude Json JsonLexer JsonParser JsonDump JsonUtf8 JsonLexProps JsonScan JsonDom JsonNumeral JsonNumber JsonDumpText JsonText JsonBuild JsonRound JsonGrisu JsonFloat JsonDigits JsonToChars.
Import dtoa_impl.

#[global] Open Scope Z_scope.

(** ** Rounding *)

(** The representation of infinity. *)
Definition inf_bits : Z := 0x7FF0000000000000.

(** [q] rounds to the number with the representation [b] or to a larger one. *)
Definition reaches (q : Q) (b : Z) : bool :=
  match (midpoint (b - 1) ?= q)%Q with Lt => true | Eq => Z.even b | Gt => false end.

(** The largest representation from [b] on that [q] reaches, by bisection. *)
Fixpoint nearest_loop (k : nat) (q : Q) (b : Z) : Z :=
  match k with
  | O => b
  | S k =>
      let b' := b + 2 ^ Z.of_nat k in
      nearest_loop k q (if (b' <=? inf_bits) && reaches q b' then b' else b)
  end.

(** The representation of the [double] nearest to a non-negative number. *)
Definition nearest_double (q : Q) : Z := nearest_loop 63 q 0.

Lemma nearest_loop_spec k q b r :
  nearest_loop k q b = r -> 0 <= b <= inf_bits -> b = 0 \/ reaches q b = true ->
  inf_bits < b + 2 ^ Z.of_nat k \/ reaches q (b + 2 ^ Z.of_nat k) = false ->
  0 <= r <= inf_bits /\ (r = 0 \/ reaches q r = true) /\ (r = inf_bits \/ reaches q (r + 1) = false).
Proof.
  intros <-. revert b; induction k as [|k IH]; intros b Hb Hr Hn; cbn [nearest_loop].
  - change (2 ^ Z.of_nat 0) with 1 in Hn. split; [done|]. split; [done|]. destruct Hn; [left; lia|by right].
  - cbv zeta. rewrite Nat2Z.inj_succ, Z.pow_succ_r in Hn by lia. pose proof (Z.pow_pos_nonneg 2 (Z.of_nat k) ltac:(lia) ltac:(lia)).
    destruct (_ && _) eqn:E.
    + apply andb_prop in E as [E1%Z.leb_le E2]. apply IH; [lia|by right|].
      by replace (b + 2 ^ Z.of_nat k + 2 ^ Z.of_nat k) with (b + 2 * 2 ^ Z.of_nat k) by lia.
    + apply andb_false_iff in E. apply IH; [done|done|]. destruct E as [E%Z.leb_gt|E]; [by left|by right].
Qed.

#[local] Opaque nearest_loop.

(** The result is nearest: no midpoint lies strictly between it and [q]; beyond the
    largest number it is infinity. *)
Lemma nearest_double_spec q b :
  nearest_double q = b -> 0 <= b <= inf_bits /\ (b = 0 \/ (midpoint (b - 1) <= q)%Q) /\ (b = inf_bits \/ (q <= midpoint b)%Q).
Proof.
  intros Hb. assert (inf_bits < 0 + 2 ^ Z.of_nat 63) as Hinf by (vm_compute; reflexivity).
  destruct (nearest_loop_spec 63 q 0 b Hb ltac:(unfold inf_bits; lia) (or_introl eq_refl) (or_introl Hinf)) as (Hr & Hlo & Hhi).
  clear Hb. split; [done|]. unfold reaches in *. split.
  - destruct Hlo as [?|Hlo]; [by left|right]. generalize dependent (midpoint (b - 1)). intros m Hlo.
    destruct (Qcompare_spec m q); [lra|lra|discriminate].
  - destruct Hhi as [?|Hhi]; [by left|right]. replace (b + 1 - 1) with b in Hhi by lia.
    generalize dependent (midpoint b). intros m Hhi. destruct (Qcompare_spec m q); [lra|discriminate|lra].
Qed.

Lemma double_val_lt b : 0 <= b -> (double_val b < double_val (b + 1))%Q.
Proof.
  intros Hb. rewrite double_val_next by done. unfold double_val. rewrite inject_Z_plus. change (inj 1) with 1%Q.
  pose proof (pow2_pos (double_exp b)). nra.
Qed.

Lemma midpoint_mono a b : 0 <= a <= b -> (midpoint a <= midpoint b)%Q.
Proof.
  intros [Ha Hab]. replace b with (a + (b - a)) by lia. assert (0 <= b - a) as Hd by lia. revert Hd. generalize (b - a). apply natlike_ind.
  - rewrite Z.add_0_r. lra.
  - intros n Hn IH. rewrite <- Z.add_1_r. replace (a + (n + 1)) with (a + n + 1) by lia.
    pose proof (double_val_lt (a + n) ltac:(lia)). pose proof (double_val_lt (a + n + 1) ltac:(lia)). unfold midpoint in *. lra.
Qed.

(** Strictly between two midpoints there is one number to round to. *)
Lemma nearest_double_unique q b :
  0 <= b < inf_bits -> b = 0 \/ (midpoint (b - 1) < q)%Q -> (q < midpoint b)%Q -> nearest_double q = b.
Proof.
  intros Hb Hlo Hhi. remember (nearest_double q) as r eqn:Er. destruct (nearest_double_spec q r (eq_sym Er)) as (Hr & Hrlo & Hrhi).
  destruct (Z.lt_trichotomy r b) as [Hlt|[?|Hlt]]; [|done|].
  - destruct Hlo as [?|Hlo]; [lia|]. destruct Hrhi as [?|Hrhi]; [lia|].
    pose proof (midpoint_mono r (b - 1) ltac:(lia)). lra.
  - destruct Hrlo as [?|Hrlo]; [lia|]. pose proof (midpoint_mono b (r - 1) ltac:(lia)). lra.
Qed.

(** ** [strtod] *)

Definition fraction_prefix (dp : Z) (s : list Z) : list Z :=
  match s with c :: s => if c =? dp then digits_prefix s else [] | [] => [] end.

Definition exponent_value (s : list Z) : Z :=
  match s with
  | c :: s =>
      if is_exp c then
        let n := digits_value (digits_prefix (drop (length (sign_prefix s)) s)) in
        if bool_decide (sign_prefix s = [cMINUS]) then - n else n
      else 0
  | [] => 0
  end.

(** The decimal numeral at the start of [s], under a locale with the decimal point
    [dp], as the representation of a [double]. *)
Definition strtod (dp : Z) (s : list Z) : Z :=
  let sg := sign_prefix s in
  let s := drop (length sg) s in
  let ip := digits_prefix s in
  let s := drop (length ip) s in
  let fp := fraction_prefix dp s in
  let e := exponent_value (drop (fraction_length dp s) s) in
  (if bool_decide (sg = [cMINUS]) then 2 ^ 63 else 0) + nearest_double (decimal_val (ip ++ fp) (e - Z.of_nat (length fp))).

(** The exponent and the magnitude of a number. *)
Definition exponent_of (x : number) : Z :=
  match exponent x with
  | Some (_, sg, ds) => if bool_decide (sg = [cMINUS]) then - digits_value ds else digits_value ds
  | None => 0
  end.

Definition number_val (x : number) : Q :=
  decimal_val (whole x ++ fraction x) (exponent_of x - Z.of_nat (length (fraction x))).

Section strtod.
Context (dp : Z).
Hypothesis Hdp : point_ok dp.

Lemma exponent_part_head x : number_ok x ->
  is_digit (hd EOF (exponent_part x)) = false /\ (hd EOF (exponent_part x) =? dp) = false.
Proof.
  intros [_ _ _ He]. unfold exponent_part. destruct Hdp as (Hb & _ & Hexp). destruct (exponent x) as [[[e sg] ds]|]; simpl.
  - destruct He as (He & _). split; [unfold is_exp, is_digit in *; lia|].
    destruct (e =? dp) eqn:E; [|done]. assert (e = dp) as -> by lia. congruence.
  - split; [done|]. unfold is_byte, in_u in Hb. lia.
Qed.

Lemma exponent_part_value x : number_ok x -> exponent_value (exponent_part x) = exponent_of x.
Proof.
  intros [_ _ _ He]. unfold exponent_part, exponent_of. destruct (exponent x) as [[[e sg] ds]|]; [|done].
  destruct He as (He & Hs & Hds). simpl. rewrite He.
  assert (sign_prefix (sg ++ ds) = sg) as ->.
  { destruct Hs as [-> |[-> | ->]]; [|done..]. simpl. rewrite <- (app_nil_r ds). by apply sign_prefix_digits. }
  rewrite drop_app_length, digits_prefix_all by (by destruct Hds). done.
Qed.

Lemma fraction_part_read x : number_ok x ->
  let s := fraction_part dp x ++ exponent_part x in
  is_digit (hd EOF s) = false /\ fraction_prefix dp s = fraction x /\ drop (fraction_length dp s) s = exponent_part x.
Proof.
  intros Hx. destruct (exponent_part_head x Hx) as [Hd He]. pose proof Hdp as (_ & Hdig & _). cbv zeta. unfold fraction_part.
  destruct (fraction x) as [|c fs] eqn:Ef.
  - simpl. split; [done|]. destruct (exponent_part x) as [|e w]; [done|]. simpl in *. by rewrite He.
  - simpl. split; [done|]. rewrite Z.eqb_refl.
    assert (digits_prefix ((c :: fs) ++ exponent_part x) = c :: fs) as Hp.
    { apply digits_prefix_app; [|done]. rewrite <- Ef. by destruct Hx. }
    simpl in Hp. rewrite Hp. split; [done|]. simpl. by rewrite drop_app_length.
Qed.

Lemma strtod_number x :
  number_ok x -> strtod dp (number_text dp x) = (if minus x then 2 ^ 63 else 0) + nearest_double (number_val x).
Proof.
  intros Hx. unfold strtod, number_text, int_text, number_val. destruct (fraction_part_read x Hx) as (Hd & Hf & He).
  set (s := fraction_part dp x ++ exponent_part x) in *. pose proof (ok_whole x Hx) as Hw.
  assert (sign_prefix (((if minus x then [cMINUS] else []) ++ whole x) ++ s) = if minus x then [cMINUS] else []) as ->.
  { destruct (minus x); [done|]. by apply sign_prefix_digits. }
  rewrite <- app_assoc, drop_app_length, digits_prefix_app, drop_app_length, Hf, He, exponent_part_value by (done || by destruct Hw).
  by destruct (minus x).
Qed.
End strtod.

(** ** What [to_chars] writes *)

(** The text of a decimal is that of a number with a fraction or an exponent. *)
Lemma decimal_number (neg : bool) t q :
  decimal_text t q ->
  exists x, number_ok x /\ minus x = neg /\ plain x = false /\ number_text cDOT x = (if neg then [cMINUS] else []) ++ t /\
    number_val x = q.
Proof.
  assert (forall ip, int_part ip -> digits ip /\ forall ds, ip = c0 :: ds -> ds = []) as Hint.
  { intros ip [Hd Hi]. split.
    - split; [|done]. destruct Hi as [->|(c & cs & -> & _)]; done.
    - intros ds ->. destruct Hi as [[= ->]|(c & cs & [= <- <-] & ?)]; done. }
  destruct 1 as [ip fp Hip Hfp Hne|ip fp negative ds Hip Hfp Hds Hne]; destruct (Hint ip Hip) as [Hd Hz].
  - exists (Number neg ip fp None). split; [by split|]. split; [done|].
    split; [unfold plain; cbn [fraction]; by rewrite bool_decide_false|]. split; [|done].
    unfold number_text, int_text, fraction_part, exponent_part. cbn [fraction exponent whole minus].
    destruct fp as [|c fp]; [done|]. rewrite app_nil_r. by rewrite <- app_assoc.
  - exists (Number neg ip fp (Some (c_e, [if negative then cMINUS else cPLUS], ds))). split.
    { split; [done|done|done|]. split; [done|]. split; [destruct negative; auto|done]. }
    split; [done|]. split; [unfold plain; cbn [exponent]; by rewrite (bool_decide_false (Some _ = None)), andb_false_r|].
    split; [|by destruct negative].
    unfold number_text, int_text, fraction_part, exponent_part. cbn [fraction exponent whole minus]. rewrite <- !app_assoc.
    by destruct fp.
Qed.

Lemma denotes_nearest bits t q :
  0 <= bits < inf_bits -> decimal_text t q ->
  (if bits =? 0 then q == 0 else midpoint (bits - 1) < q < midpoint bits)%Q -> nearest_double q = bits.
Proof.
  intros Hb _ Hq. apply nearest_double_unique; [done|..].
  - destruct (Z.eqb_spec bits 0); [by left|right]. by destruct Hq.
  - destruct (Z.eqb_spec bits 0) as [->|_]; [|by destruct Hq]. rewrite Hq, midpoint_val by lia.
    change (inj (2 * double_sig 0 + 1)) with 1%Q. pose proof (pow2_pos (double_exp 0 - 1)). lra.
Qed.

Section double.
Context (dp : Z) (snprintf_g : Z -> list Z).
Hypothesis Hdp : point_ok dp.

(** [double] under a locale with the decimal point [dp]. *)
Abbreviation libc := (double (strtod dp) snprintf_g).

(** What [to_chars] writes of a finite [double] is a text of it. *)
Lemma double_reads_back (x : Z) : in_u 64 x -> dtoa_impl.isfinite x = true -> reads_back (H := libc) dp x.
Proof.
  intros Hx Hf. destruct (double_chars (strtod dp) snprintf_g x Hx Hf) as (t & Ht & q & Hq & Hb).
  unfold reads_back. rewrite Ht. destruct (decimal_number (signbit x) t q Hq) as (y & Hy & Hm & Hp & Hty & Hv).
  unfold in_u in Hx. assert (0 <= x mod 2 ^ 63 < 2 ^ 63) as Hr by (apply Z.mod_pos_bound; lia).
  assert (strtod dp (number_text dp y) = x) as Hs.
  { rewrite strtod_number, Hv, Hm by done. rewrite <- isfinite_unsigned, isfinite_spec in Hf by done.
    rewrite (denotes_nearest (x mod 2 ^ 63) t q) by (done || unfold inf_bits; lia). unfold signbit.
    destruct (2 ^ 63 <=? x) eqn:E; div_lia. }
  assert (number_kind y = value_float) as Hk by (unfold number_kind; by rewrite Hp).
  assert (number_json (H := libc) dp y = Jnumber_float x) as Hj.
  { unfold number_json. rewrite Hk. simpl. by rewrite Hs. }
  rewrite <- Hj. unfold sign_text. rewrite <- Hty. apply text_number; [done|]. intros _. simpl. by rewrite Hs.
Qed.

Lemma double_floats (v : json Z) :
  denoted (R := json_rules (H := libc)) v -> all_floats (in_u 64) v -> all_floats (reads_back (H := libc) dp) v.
Proof.
  induction v as [|ms IH|vs IH|s|b|n|n|x|bs subtype|] using json_ind; intros Hd Hv; try done.
  - rewrite denoted_object in Hd. rewrite all_floats_object in *. rewrite Forall_forall in *. intros m Hm. apply IH; [done| |by apply Hv].
    by apply Hd.
  - rewrite denoted_array in Hd. rewrite all_floats_array in *. rewrite Forall_forall in *. auto.
  - by apply double_reads_back.
Qed.

(** C14 [parse] of the text [dump] writes, with [double] for floating-point numbers:
    for any well-formed value, [dump] succeeds and [parse] gives the value back, each
    finite floating-point number bit for bit, the non-negative integers as unsigned
    ones; whatever the indentation up to 1024 white-space characters, the error
    handler and the decimal point of the locale.  [strtod] rounds to nearest, ties to
    even; [to_chars] is the code of the library. *)
Theorem double_roundtrip (v : json Z) (sep indent ichar : Z) (ensure_ascii exceptions comments : bool) (handler : error_handler_t) :
  wf_json (R := json_rules (H := libc)) v -> denoted (R := json_rules (H := libc)) v -> all_floats (in_u 64) v ->
  indent <= 1024 -> (0 <= indent -> is_space ichar = true) ->
  exists t, json_dump (H := libc) sep dp v indent ichar ensure_ascii handler = Ok t /\
    json_parse (H := libc) dp t exceptions comments = Ok (norm v).
Proof. intros Hwf Hd Hv Hi Hc. apply json_dump_parse; try done. by apply double_floats. Qed.
End double.

(** ** Instances *)

(** 0.1; 2^53 + 1, a tie, goes to the even neighbour; the smallest subnormal and half
    of it; beyond the largest number; a numeral with a decimal comma. *)
Example strtod_samples :
  map (strtod cDOT) [str "0.1"; str "9007199254740993"; str "-5e-324"; str "2e-324"; str "1.8e308"] =
    [0x3FB999999999999A; 0x4340000000000000; 0x8000000000000001; 0; inf_bits] /\
  strtod cCOMMA (str "2,5") = 0x4004000000000000.
Proof. split; vm_compute; reflexivity. Qed.

Definition measured : json Z := Jarray [Jnumber_float 0x3FB999999999999A; Jnumber_float 0xC480F0CF064DD592; Jnumber_integer (-3)].

Lemma double_roundtrip_witness :
  wf_json (R := json_rules (H := double (strtod cCOMMA) (fun _ => []))) measured /\
  json_dump (H := double (strtod cCOMMA) (fun _ => [])) 0 cCOMMA measured (-1) cSPACE false strict = Ok (str "[0.1,-1e+22,-3]") /\
  json_parse (H := double (strtod cCOMMA) (fun _ => [])) cCOMMA (str "[0.1,-1e+22,-3]") true false = Ok measured.
Proof.
  assert (wf_json (R := json_rules (H := double (strtod cCOMMA) (fun _ => []))) measured) as Hwf by (by repeat constructor).
  split; [exact Hwf|].
  destruct (double_roundtrip cCOMMA (fun _ => []) ltac:(by split_and!) measured 0 (-1) cSPACE false true false strict Hwf)
    as (t & Hw & Hp); [by repeat constructor|by repeat constructor|lia|done|].
  assert (json_dump (H := double (strtod cCOMMA) (fun _ => [])) 0 cCOMMA measured (-1) cSPACE false strict = Ok (str "[0.1,-1e+22,-3]"))
    as Hr by (vm_compute; reflexivity).
  split; [exact Hr|]. rewrite Hw in Hr. injection Hr as ->. exact Hp.
Defined.
