(* ===== verification/JsonAccess.v ===== *)
(** JsonAccess: comparison, element access and modifiers of [basic_json].

    A [basic_json&] is the place of a value: the path to it from the value that
    holds it, which is the state.  A member function runs at the path [this]; what
    returns a reference returns the path.  [const] overloads have the same body and
    leave the state alone. *)

From S2P Require Import Prelude Json JsonLexer JsonParser.

(** ** Exceptions *)

(** [parse_error::create] with a byte position *)
Definition parse_error_at (id byte : Z) (what_arg : list Z) : fault :=
  Thrown id (exception_name "parse_error" id ++ str "parse error"
    ++ (if byte =? 0 then [] else str " at byte " ++ to_string byte) ++ str ": " ++ what_arg).

(** [other_error::create] *)
Definition other_error (id : Z) (what_arg : list Z) : fault :=
  Thrown id (exception_name "other_error" id ++ what_arg).

(** The handler [JSON_INTERNAL_CATCH (out_of_range&)] takes the exception: those
    with the ids 401 to 411 are of this class. *)
Definition is_out_of_range (f : fault) : bool :=
  match f with Thrown id _ => (401 <=? id) && (id <=? 411) | _ => false end.

(** ** Floating-point numbers in comparisons: [==] and the conversion of integers *)
Class FloatCompare (F : Type) := {
  float_eqb : F -> F -> bool;
  float_isnan : F -> bool;
  float_of_Z : Z -> F
}.

Section access.
Context {F : Type}.
Implicit Types (v w : json F) (vs : list (json F)) (ms : list (list Z * json F)) (k : list Z).

(** ** Types *)

Definition type_name v : list Z :=
  str (match v with
       | Jnull => "null"
       | Jobject _ => "object"
       | Jarray _ => "array"
       | Jstring _ => "string"
       | Jboolean _ => "boolean"
       | Jbinary _ _ => "binary"
       | Jdiscarded => "discarded"
       | Jnumber_integer _ | Jnumber_unsigned _ | Jnumber_float _ => "number"
       end).

(** [lhs.type() == rhs.type()] *)
Definition same_type v w : bool :=
  match v, w with
  | Jnull, Jnull | Jobject _, Jobject _ | Jarray _, Jarray _ | Jstring _, Jstring _
  | Jboolean _, Jboolean _ | Jnumber_integer _, Jnumber_integer _ | Jnumber_unsigned _, Jnumber_unsigned _
  | Jnumber_float _, Jnumber_float _ | Jbinary _ _, Jbinary _ _ | Jdiscarded, Jdiscarded => true
  | _, _ => false
  end.

Definition is_null v : bool := match v with Jnull => true | _ => false end.
Definition is_string v : bool := match v with Jstring _ => true | _ => false end.
Definition is_number v : bool :=
  match v with Jnumber_integer _ | Jnumber_unsigned _ | Jnumber_float _ => true | _ => false end.
Definition is_discarded v : bool := match v with Jdiscarded => true | _ => false end.
Definition is_structured v : bool := is_array v || is_object v.
Definition is_primitive v : bool :=
  match v with
  | Jnull | Jstring _ | Jboolean _ | Jbinary _ _ => true
  | _ => is_number v
  end.

(** ** Comparison *)

Section compare.
Context `{FloatCompare F}.

Definition is_nan v : bool := match v with Jnumber_float x => float_isnan x | _ => false end.

Definition compares_unordered v w : bool :=
  (is_nan v && is_number w) || (is_nan w && is_number v) || is_discarded v || is_discarded w.

(** [operator==]: [JSON_IMPLEMENT_OPERATOR( ==, true, false, false)] *)
Fixpoint json_eqb v w : bool :=
  match v, w with
  | Jarray a, Jarray b =>
      (fix go a b := match a, b with
                     | [], [] => true
                     | x :: a, y :: b => json_eqb x y && go a b
                     | _, _ => false
                     end) a b
  | Jobject a, Jobject b =>
      (fix go a b := match a, b with
                     | [], [] => true
                     | (k, x) :: a, (k', y) :: b => bool_decide (k = k') && json_eqb x y && go a b
                     | _, _ => false
                     end) a b
  | Jnull, Jnull => true
  | Jstring a, Jstring b => bool_decide (a = b)
  | Jboolean a, Jboolean b => Bool.eqb a b
  | Jnumber_integer a, Jnumber_integer b => a =? b
  | Jnumber_unsigned a, Jnumber_unsigned b => a =? b
  | Jnumber_float a, Jnumber_float b => float_eqb a b
  | Jbinary a s, Jbinary b t => bool_decide (a = b) && bool_decide (s = t)
  | Jdiscarded, Jdiscarded => false
  | Jnumber_integer a, Jnumber_float b => float_eqb (float_of_Z a) b
  | Jnumber_float a, Jnumber_integer b => float_eqb a (float_of_Z b)
  | Jnumber_unsigned a, Jnumber_float b => float_eqb (float_of_Z a) b
  | Jnumber_float a, Jnumber_unsigned b => float_eqb a (float_of_Z b)
  | Jnumber_unsigned a, Jnumber_integer b => swrap 64 a =? b
  | Jnumber_integer a, Jnumber_unsigned b => a =? swrap 64 b
  | _, _ => if compares_unordered v w then false else false
  end.

(** [operator!=] *)
Definition json_neb v w : bool :=
  if compares_unordered v w then false else negb (json_eqb v w).
End compare.

(** ** Objects *)

(** [std::map::erase] of a key *)
Fixpoint obj_erase k ms : list (list Z * json F) :=
  match ms with
  | [] => []
  | (k', v) :: ms => if decide (k = k') then ms else (k', v) :: obj_erase k ms
  end.

(** [std::map::emplace]: a member that exists stays *)
Definition obj_emplace k v ms : list (list Z * json F) :=
  if obj_get k ms is Some _ then ms else obj_set k v (obj_index k ms).

(** [object(init)], and [basic_json(init)] for a list of pairs of a string and a
    value *)
Definition object_of_init (init : list (list Z * json F)) : json F :=
  Jobject (foldl (fun ms m => obj_emplace m.1 m.2 ms) [] init).

(** ** Places *)

Definition ref := list step.
Implicit Types (this : ref).

Definition load this : M (json F) (json F) := fun d =>
  match get_at this d with Some v => Ok (v, d) | None => Fault UseAfterFree end.
Definition assign this v : M (json F) unit := fun d =>
  match set_at this v d with Some d' => Ok (tt, d') | None => Fault UseAfterFree end.

(** ** Element access *)

(** A vector that would be longer than [max_size()] throws [std::length_error], which
    has no id. *)
Definition length_error : fault := Thrown 0 (str "std::length_error").

Definition index_message (idx : Z) : list Z := str "array index " ++ to_string idx ++ str " is out of range".
Definition key_message k : list Z := str "key '" ++ k ++ str "' not found".

(** [at(size_type)] *)
Definition at_index this (idx : Z) : M (json F) ref :=
  v ← load this;
  match v with
  | Jarray vs =>
      if idx <? Z.of_nat (length vs) then mret (this ++ [AtIndex (Z.to_nat idx)])
      else fail (out_of_range 401 (index_message idx))
  | _ => fail (type_error 304 (str "cannot use at() with " ++ type_name v))
  end.

(** [at(const key_type&)] *)
Definition at_key this k : M (json F) ref :=
  v ← load this;
  match v with
  | Jobject ms =>
      match obj_get k ms with
      | Some _ => mret (this ++ [AtKey k])
      | None => fail (out_of_range 403 (key_message k))
      end
  | _ => fail (type_error 304 (str "cannot use at() with " ++ type_name v))
  end.

(** [operator[](size_type)] *)
Definition index this (idx : Z) : M (json F) ref :=
  v ← load this;
  (if is_null v then assign this (Jarray []) else mret tt);;
  v ← load this;
  match v with
  | Jarray vs =>
      (if Z.of_nat (length vs) <=? idx then
         let size := u64 (idx + 1) in
         if array_max_size <? size then fail length_error
         else assign this (Jarray (take (Z.to_nat size) vs ++ replicate (Z.to_nat size - length vs) Jnull))
       else mret tt);;
      v ← load this;
      match v with
      | Jarray vs =>
          if idx <? Z.of_nat (length vs) then mret (this ++ [AtIndex (Z.to_nat idx)]) else fail OutOfBounds
      | _ => fail AssertFailed
      end
  | _ => fail (type_error 305 (str "cannot use operator[] with a numeric argument with " ++ type_name v))
  end.

(** [operator[](size_type) const]: [std::vector::operator[]] does not check *)
Definition index_const this (idx : Z) : M (json F) ref :=
  v ← load this;
  match v with
  | Jarray vs =>
      if idx <? Z.of_nat (length vs) then mret (this ++ [AtIndex (Z.to_nat idx)]) else fail OutOfBounds
  | _ => fail (type_error 305 (str "cannot use operator[] with a numeric argument with " ++ type_name v))
  end.

(** [operator[](key_type)] *)
Definition index_key this k : M (json F) ref :=
  v ← load this;
  (if is_null v then assign this (Jobject []) else mret tt);;
  v ← load this;
  match v with
  | Jobject ms => assign this (Jobject (obj_index k ms));; mret (this ++ [AtKey k])
  | _ => fail (type_error 305 (str "cannot use operator[] with a string argument with " ++ type_name v))
  end.

(** [operator[](const key_type&) const] *)
Definition index_key_const this k : M (json F) ref :=
  v ← load this;
  match v with
  | Jobject ms => if obj_get k ms is Some _ then mret (this ++ [AtKey k]) else fail AssertFailed
  | _ => fail (type_error 305 (str "cannot use operator[] with a string argument with " ++ type_name v))
  end.

(** ** Lookup and capacity *)

(** [find(key)], dereferenced; [None] is [end()] *)
Definition find_key v k : option (json F) :=
  match v with Jobject ms => obj_get k ms | _ => None end.

Definition contains_key v k : bool := match find_key v k with Some _ => true | None => false end.
Definition count v k : Z := if contains_key v k then 1 else 0.

Definition json_size v : Z :=
  match v with
  | Jnull => 0
  | Jarray vs => Z.of_nat (length vs)
  | Jobject ms => Z.of_nat (length ms)
  | _ => 1
  end.

Definition json_empty v : bool :=
  match v with
  | Jnull => true
  | Jarray vs => bool_decide (vs = [])
  | Jobject ms => bool_decide (ms = [])
  | _ => false
  end.

(** ** Modifiers *)

(** [erase(const key_type&)], and [erase(it)] for an iterator to the member *)
Definition erase_key this k : M (json F) unit :=
  v ← load this;
  match v with
  | Jobject ms => assign this (Jobject (obj_erase k ms))
  | _ => fail (type_error 307 (str "cannot use erase() with " ++ type_name v))
  end.

(** [erase(size_type)] *)
Definition erase_index this (idx : Z) : M (json F) unit :=
  v ← load this;
  match v with
  | Jarray vs =>
      if json_size v <=? idx then fail (out_of_range 401 (index_message idx))
      else assign this (Jarray (delete (Z.to_nat idx) vs))
  | _ => fail (type_error 307 (str "cannot use erase() with " ++ type_name v))
  end.

(** [push_back(const basic_json&)] *)
Definition push_back this w : M (json F) unit :=
  v ← load this;
  if negb (is_null v || is_array v) then fail (type_error 308 (str "cannot use push_back() with " ++ type_name v))
  else
    (if is_null v then assign this (Jarray []) else mret tt);;
    v ← load this;
    match v with
    | Jarray vs =>
        if array_max_size <=? Z.of_nat (length vs) then fail length_error else assign this (Jarray (vs ++ [w]))
    | _ => fail AssertFailed
    end.

(** [insert(begin() + pos, val)]; past the end is undefined *)
Definition insert this (pos : Z) w : M (json F) unit :=
  v ← load this;
  match v with
  | Jarray vs =>
      if Z.of_nat (length vs) <? pos then fail OutOfBounds
      else if array_max_size <=? Z.of_nat (length vs) then fail length_error
      else assign this (Jarray (take (Z.to_nat pos) vs ++ w :: drop (Z.to_nat pos) vs))
  | _ => fail (type_error 309 (str "cannot use insert() with " ++ type_name v))
  end.

(** [clear()]; a floating-point number becomes [0.0] *)
Definition clear (zero : F) v : json F :=
  match v with
  | Jnumber_integer _ => Jnumber_integer 0
  | Jnumber_unsigned _ => Jnumber_unsigned 0
  | Jnumber_float _ => Jnumber_float zero
  | Jboolean _ => Jboolean false
  | Jstring _ => Jstring []
  | Jbinary _ s => Jbinary [] s
  | Jarray _ => Jarray []
  | Jobject _ => Jobject []
  | Jnull => Jnull
  | Jdiscarded => Jdiscarded
  end.

(** [update(j, merge_objects)]: members of [j] overwrite; with [merge_objects], an
    object is merged into the member of the same key. *)
Fixpoint update (j : json F) (merge_objects : bool) (this : json F) : res (json F) :=
  let this := if is_null this then Jobject [] else this in
  match this with
  | Jobject ms =>
      match j with
      | Jobject js =>
          (fix go js ms :=
             match js with
             | [] => Ok (Jobject ms)
             | (k, v) :: js =>
                 match (if merge_objects && is_object v then obj_get k ms else None) with
                 | Some w =>
                     match update v true w with
                     | Ok w' => go js (obj_set k w' ms)
                     | Fault f => Fault f
                     end
                 | None => go js (obj_set k v (obj_index k ms))
                 end
             end) js ms
      | _ => Fault (type_error 312 (str "cannot use update() with " ++ type_name j))
      end
  | _ => Fault (type_error 312 (str "cannot use update() with " ++ type_name this))
  end.

End access.
