(* ===== verification/JsonPointer.v ===== *)
(** JsonPointer: the class [json_pointer] of json.hpp (RFC 6901).

    A pointer is its vector of unescaped reference tokens.  The functions that walk
    a value run on the value they walk, which is the state, and return the place
    they reach. *)

From S2P Require Import Prelude Json JsonLexer JsonParser JsonAccess.

Abbreviation cTILDE := 126 (only parsing).
Abbreviation c1 := 49 (only parsing).

(** ** Strings *)

(** [f] at the beginning of [s] *)
Fixpoint starts_with (f s : list Z) : bool :=
  match f, s with
  | [], _ => true
  | x :: f, y :: s => (x =? y) && starts_with f s
  | _ :: _, [] => false
  end.

(** [replace_substring(s, f, t)] for a nonempty [f].  The search for the next
    occurrence starts behind the replacement, so one pass over [s] does it: [skip]
    characters are those of an occurrence that is replaced already. *)
Fixpoint replace_substring (f t : list Z) (skip : nat) (s : list Z) : list Z :=
  match s with
  | [] => []
  | c :: s' =>
      match skip with
      | S skip => replace_substring f t skip s'
      | O => if starts_with f s then t ++ replace_substring f t (length f - 1) s'
             else c :: replace_substring f t 0 s'
      end
  end.

Definition escape (s : list Z) : list Z :=
  replace_substring [cSLASH] [cTILDE; c1] 0 (replace_substring [cTILDE] [cTILDE; c0] 0 s).

Definition unescape (s : list Z) : list Z :=
  replace_substring [cTILDE; c0] [cTILDE] 0 (replace_substring [cTILDE; c1] [cSLASH] 0 s).

(** [find_first_of(c, pos)]; [None] is [npos] *)
Fixpoint find_char (c : Z) (pos : nat) (s : list Z) : option nat :=
  match s with
  | [] => None
  | x :: s =>
      match pos with
      | S pos => S <$> find_char c pos s
      | O => if x =? c then Some O else S <$> find_char c 0 s
      end
  end.

(** [strtoull(p, &p_end, 10)] on a string and its terminating NUL, white space first *)
Definition isspace (c : Z) : bool := (c =? 32) || ((9 <=? c) && (c <=? 13)).

Fixpoint skip_spaces (s : list Z) : nat :=
  match s with
  | c :: s => if isspace c then S (skip_spaces s) else O
  | [] => O
  end.

Definition strtoull_from (s : list Z) : strto :=
  let n := skip_spaces s in
  let r := strtoull (drop n s) in
  Strto (strto_value r) (strto_erange r) (match strto_end r with O => O | e => (n + e)%nat end).

Definition ULLONG_MAX : Z := 2 ^ 64 - 1.

(** ** The class *)

Definition json_pointer := list (list Z).
Implicit Types (p : json_pointer) (token : list Z).

(** [to_string()] *)
Definition pointer_to_string p : list Z := foldl (fun a b => a ++ [cSLASH] ++ escape b) [] p.

Definition no_parent : fault := out_of_range 405 (str "JSON pointer has no parent").

Definition pointer_pop_back p : res json_pointer :=
  if decide (p = []) then Fault no_parent else Ok (take (length p - 1) p).
Definition pointer_back p : res (list Z) :=
  match last p with Some t => Ok t | None => Fault no_parent end.
Definition pointer_push_back token p : json_pointer := p ++ [token].
Definition pointer_top p : res json_pointer :=
  match p with t :: _ => Ok [t] | [] => Fault no_parent end.
Definition parent_pointer p : res json_pointer :=
  if decide (p = []) then Ok p else pointer_pop_back p.
(** [operator/=] of a pointer and of an index *)
Definition pointer_append p q : json_pointer := p ++ q.
Definition pointer_append_index p (i : Z) : json_pointer := pointer_push_back (to_string i) p.

(** [split(reference_string)] *)

(** the loop over the [~] of a token, at [pos] *)
Fixpoint check_escapes (fuel : nat) token (pos : option nat) : res unit :=
  match pos with
  | None => Ok tt
  | Some pos =>
      match fuel with
      | O => Fault OutOfFuel
      | S fuel =>
          if bool_decide (pos = (length token - 1)%nat)
             || (negb (nth (pos + 1) token cNUL =? c0) && negb (nth (pos + 1) token cNUL =? c1))
          then Fault (parse_error_at 108 0 (str "escape character '~' must be followed with '0' or '1'"))
          else check_escapes fuel token (find_char cTILDE (pos + 1) token)
      end
  end.

(** the loop over the tokens: one begins at [start] and ends at [slash] *)
Fixpoint split_loop (fuel : nat) (s : list Z) (start : nat) (slash : option nat) (result : list (list Z))
    : res json_pointer :=
  match fuel with
  | O => Fault OutOfFuel
  | S fuel =>
      let token := match slash with
                   | None => drop start s
                   | Some q => take (q - start) (drop start s)
                   end in
      match check_escapes (S (length token)) token (find_char cTILDE 0 token) with
      | Fault f => Fault f
      | Ok _ =>
          let result := result ++ [unescape token] in
          match slash with
          | None => Ok result
          | Some q => split_loop fuel s (q + 1) (find_char cSLASH (q + 1) s) result
          end
      end
  end.

Definition split (s : list Z) : res json_pointer :=
  match s with
  | [] => Ok []
  | c :: _ =>
      if negb (c =? cSLASH) then
        Fault (parse_error_at 107 1 (str "JSON pointer must be empty or begin with '/' - was: '" ++ s ++ str "'"))
      else split_loop (S (length s)) s 1 (find_char cSLASH 1 s) []
  end.

(** [array_index(s)]; [size_type] is [unsigned long long] *)
Definition unresolved token : fault := out_of_range 404 (str "unresolved reference token '" ++ token ++ str "'").

Definition array_index (s : list Z) : res Z :=
  if (1 <? Z.of_nat (length s)) && (nth 0 s cNUL =? c0) then
    Fault (parse_error_at 106 0 (str "array index '" ++ s ++ str "' must not begin with '0'"))
  else if (1 <? Z.of_nat (length s)) && negb ((c1 <=? nth 0 s cNUL) && (nth 0 s cNUL <=? c9)) then
    Fault (parse_error_at 109 0 (str "array index '" ++ s ++ str "' is not a number"))
  else
    let r := strtoull_from s in
    let n := strto_value r in
    if (Z.of_nat (strto_end r) =? 0) || strto_erange r || negb (Z.of_nat (strto_end r) =? Z.of_nat (length s))
    then Fault (unresolved s)
    else if ULLONG_MAX <=? n then Fault (out_of_range 410 (str "array index " ++ s ++ str " exceeds size_type"))
    else Ok n.

Section walk.
Context {F : Type}.
Implicit Types (v : json F) (this : ref).

Definition lift {S A} (r : res A) : M S A := fun s => match r with Ok a => Ok (a, s) | Fault f => Fault f end.

(** A loop over the tokens that moves a place. *)
Fixpoint walk (f : ref -> list Z -> M (json F) ref) p this : M (json F) ref :=
  match p with
  | [] => mret this
  | token :: p => this ← f this token; walk f p this
  end.

(** [get_and_create(j)] *)
Definition create_step (this : ref) token : M (json F) ref :=
  v ← load this;
  match v with
  | Jnull => if decide (token = [c0]) then index this 0 else index_key this token
  | Jobject _ => index_key this token
  | Jarray _ => i ← lift (array_index token); index this i
  | _ => fail (type_error 313 (str "invalid value to unflatten"))
  end.
Definition get_and_create p this : M (json F) ref := walk create_step p this.

(** [get_unchecked(ptr)] *)
Definition unchecked_step (this : ref) token : M (json F) ref :=
  v ← load this;
  (if is_null v then
     assign this (if forallb is_digit token || bool_decide (token = [cMINUS]) then Jarray [] else Jobject [])
   else mret tt);;
  v ← load this;
  match v with
  | Jobject _ => index_key this token
  | Jarray vs =>
      if decide (token = [cMINUS]) then index this (Z.of_nat (length vs))
      else i ← lift (array_index token); index this i
  | _ => fail (unresolved token)
  end.
Definition get_unchecked p this : M (json F) ref := walk unchecked_step p this.

Definition no_dash (vs : list (json F)) : fault :=
  out_of_range 402 (str "array index '-' (" ++ to_string (Z.of_nat (length vs)) ++ str ") is out of range").

(** [get_unchecked(ptr)] of a [const] value *)
Definition unchecked_const_step (this : ref) token : M (json F) ref :=
  v ← load this;
  match v with
  | Jobject _ => index_key_const this token
  | Jarray vs =>
      if decide (token = [cMINUS]) then fail (no_dash vs)
      else i ← lift (array_index token); index_const this i
  | _ => fail (unresolved token)
  end.
Definition get_unchecked_const p this : M (json F) ref := walk unchecked_const_step p this.

(** [get_checked(ptr)] *)
Definition checked_step (this : ref) token : M (json F) ref :=
  v ← load this;
  match v with
  | Jobject _ => at_key this token
  | Jarray vs =>
      if decide (token = [cMINUS]) then fail (no_dash vs)
      else i ← lift (array_index token); at_index this i
  | _ => fail (unresolved token)
  end.
Definition get_checked p this : M (json F) ref := walk checked_step p this.

(** [contains(ptr)] *)
Fixpoint pointer_contains p this : M (json F) bool :=
  match p with
  | [] => mret true
  | token :: p =>
      v ← load this;
      match v with
      | Jobject _ =>
          if negb (contains_key v token) then mret false
          else this ← index_key_const this token; pointer_contains p this
      | Jarray _ =>
          if decide (token = [cMINUS]) then mret false
          else if (Z.of_nat (length token) =? 1) && negb (is_digit (nth 0 token cNUL)) then mret false
          else if (1 <? Z.of_nat (length token))
                  && (negb ((c1 <=? nth 0 token cNUL) && (nth 0 token cNUL <=? c9))
                      || negb (forallb is_digit (tail token))) then mret false
          else
            idx ← lift (array_index token);
            if json_size v <=? idx then mret false
            else this ← index_const this idx; pointer_contains p this
      | _ => mret false
      end
  end.

(** ** [flatten] and [unflatten] *)

(** [result[reference_string] = v] *)
Definition set_member (key : list Z) v : M (json F) unit := this ← index_key [] key; assign this v.

(** the loops of [flatten] over the elements and members *)
Section flatten_loops.
Variable flatten_into : list Z -> json F -> M (json F) unit.

Fixpoint flatten_elements (reference_string : list Z) (i : Z) (vs : list (json F)) : M (json F) unit :=
  match vs with
  | [] => mret tt
  | v :: vs =>
      flatten_into (reference_string ++ [cSLASH] ++ to_string i) v;; flatten_elements reference_string (i + 1) vs
  end.

Fixpoint flatten_members (reference_string : list Z) (ms : list (list Z * json F)) : M (json F) unit :=
  match ms with
  | [] => mret tt
  | (k, v) :: ms =>
      flatten_into (reference_string ++ [cSLASH] ++ escape k) v;; flatten_members reference_string ms
  end.
End flatten_loops.

(** [flatten(reference_string, value, result)]; the state is [result] *)
Fixpoint flatten_into (reference_string : list Z) v : M (json F) unit :=
  match v with
  | Jarray vs =>
      match vs with
      | [] => set_member reference_string Jnull
      | _ => flatten_elements flatten_into reference_string 0 vs
      end
  | Jobject ms =>
      match ms with
      | [] => set_member reference_string Jnull
      | _ => flatten_members flatten_into reference_string ms
      end
  | _ => set_member reference_string v
  end.

(** [basic_json::flatten()] *)
Definition flatten v : res (json F) :=
  match flatten_into [] v (Jobject []) with Ok (_, r) => Ok r | Fault f => Fault f end.

(** the loop of [unflatten]; the state is [result] *)
Fixpoint unflatten_loop (ms : list (list Z * json F)) : M (json F) unit :=
  match ms with
  | [] => mret tt
  | (k, v) :: ms =>
      if negb (is_primitive v) then fail (type_error 315 (str "values in object must be primitive"))
      else
        p ← lift (split k);
        this ← get_and_create p [];
        assign this v;;
        unflatten_loop ms
  end.

Definition unflatten v : res (json F) :=
  match v with
  | Jobject ms => match unflatten_loop ms Jnull with Ok (_, r) => Ok r | Fault f => Fault f end
  | _ => Fault (type_error 314 (str "only objects can be unflattened"))
  end.

End walk.
