(* ===== verification/JsonPatch.v ===== *)
(** JsonPatch: [patch], [diff] and [merge_patch] of json.hpp (RFC 6902, RFC 7396).

    [patch_inplace] runs on the document, which is the state; the patch is another
    value.  An exception loses the state: what it leaves of the document in place is
    not modelled, [patch] works on a copy. *)

From S2P Require Import Prelude Json JsonLexer JsonParser JsonDump JsonAccess JsonPointer.

Inductive patch_operations :=
  | op_add | op_remove | op_replace | op_move | op_copy | op_test | op_invalid.

Definition get_op (op : list Z) : patch_operations :=
  if decide (op = str "add") then op_add
  else if decide (op = str "remove") then op_remove
  else if decide (op = str "replace") then op_replace
  else if decide (op = str "move") then op_move
  else if decide (op = str "copy") then op_copy
  else if decide (op = str "test") then op_test
  else op_invalid.

Section patch.
Context {F : Type} `{NumberFloat F, FloatCompare F}.
(* the thousands separator and the decimal point of the locale, for [dump] *)
Context (sep dp : Z).
Implicit Types (v val : json F) (ms : list (list Z * json F)) (ptr : json_pointer).

(** A reference read as a value. *)
Definition at_pointer ptr : M (json F) (json F) := this ← get_checked ptr []; load this.

Definition operation_add ptr v : M (json F) unit :=
  if decide (ptr = []) then assign [] v
  else
    top ← lift (pointer_top ptr);
    (if decide (top = ptr) then mret tt else get_checked top [];; mret tt);;
    last_path ← lift (pointer_back ptr);
    ptr ← lift (pointer_pop_back ptr);
    parent ← get_checked ptr [];
    w ← load parent;
    match w with
    | Jnull | Jobject _ => this ← index_key parent last_path; assign this v
    | Jarray vs =>
        if decide (last_path = [cMINUS]) then push_back parent v
        else
          idx ← lift (array_index last_path);
          if json_size w <? idx then fail (out_of_range 401 (index_message idx))
          else insert parent idx v
    | _ => fail AssertFailed
    end.

Definition operation_remove ptr : M (json F) unit :=
  last_path ← lift (pointer_back ptr);
  ptr ← lift (pointer_pop_back ptr);
  parent ← get_checked ptr [];
  w ← load parent;
  if is_object w then
    if contains_key w last_path then erase_key parent last_path
    else fail (out_of_range 403 (key_message last_path))
  else if is_array w then idx ← lift (array_index last_path); erase_index parent idx
  else mret tt.

Definition not_an_array : fault := parse_error_at 104 0 (str "JSON patch must be an array of objects").

(** [get_value(op, member, string_type)] *)
Definition patch_error_msg (op : list Z) : list Z :=
  if decide (op = str "op") then str "operation" else str "operation '" ++ op ++ str "'".

Definition get_value val (op member : list Z) (string_type : bool) : res (json F) :=
  let error_msg := patch_error_msg op in
  match find_key val member with
  | None => Fault (parse_error_at 105 0 (error_msg ++ str " must have member '" ++ member ++ str "'"))
  | Some v =>
      if string_type && negb (is_string v) then
        Fault (parse_error_at 105 0 (error_msg ++ str " must have string member '" ++ member ++ str "'"))
      else Ok v
  end.

Definition get_string_value val (op member : list Z) : res (list Z) :=
  match get_value val op member true with
  | Ok (Jstring s) => Ok s
  | Ok _ => Fault AssertFailed
  | Fault f => Fault f
  end.

(** [val.dump()] *)
Definition dump_default val : res (list Z) := json_dump sep dp val (-1) cSPACE false strict.

(** The comparison of the [test] operation, with its handler. *)
Definition test_success val ptr : M (json F) bool := fun d =>
  match (v ← at_pointer ptr; w ← lift (get_value val (str "test") (str "value") false); mret (json_eqb v w)) d with
  | Fault f => if is_out_of_range f then Ok (false, d) else Fault f
  | r => r
  end.

(** the [switch] of the loop, on the operation and its location *)
Definition switch_operation val (op : list Z) ptr : M (json F) unit :=
  match get_op op with
  | op_add => v ← lift (get_value val (str "add") (str "value") false); operation_add ptr v
  | op_remove => operation_remove ptr
  | op_replace =>
      v ← lift (get_value val (str "replace") (str "value") false);
      this ← get_checked ptr []; assign this v
  | op_move =>
      from_path ← lift (get_string_value val (str "move") (str "from"));
      from_ptr ← lift (split from_path);
      v ← at_pointer from_ptr;
      operation_remove from_ptr;;
      operation_add ptr v
  | op_copy =>
      from_path ← lift (get_string_value val (str "copy") (str "from"));
      from_ptr ← lift (split from_path);
      v ← at_pointer from_ptr;
      operation_add ptr v
  | op_test =>
      success ← test_success val ptr;
      if success : bool then mret tt
      else text ← lift (dump_default val); fail (other_error 501 (str "unsuccessful: " ++ text))
  | op_invalid => fail (parse_error_at 105 0 (str "operation value '" ++ op ++ str "' is invalid"))
  end.

(** One round of the loop over the patch *)
Definition apply_operation val : M (json F) unit :=
  if negb (is_object val) then fail not_an_array
  else
    op ← lift (get_string_value val (str "op") (str "op"));
    path ← lift (get_string_value val op (str "path"));
    ptr ← lift (split path);
    switch_operation val op ptr.

Fixpoint apply_operations (vals : list (json F)) : M (json F) unit :=
  match vals with
  | [] => mret tt
  | val :: vals => apply_operation val;; apply_operations vals
  end.

Definition patch_inplace (json_patch : json F) : M (json F) unit :=
  match json_patch with
  | Jarray vals => apply_operations vals
  | _ => fail not_an_array
  end.

Definition patch v (json_patch : json F) : res (json F) :=
  match patch_inplace json_patch v with Ok (_, r) => Ok r | Fault f => Fault f end.

(** ** [diff] *)

(** the initializer lists of the operations *)
Definition replace_op (path : list Z) v : json F :=
  object_of_init [(str "op", Jstring (str "replace")); (str "path", Jstring path); (str "value", v)].
Definition add_op (path : list Z) v : json F :=
  object_of_init [(str "op", Jstring (str "add")); (str "path", Jstring path); (str "value", v)].
Definition remove_op (path : list Z) : json F :=
  object_of_init [(str "op", Jstring (str "remove")); (str "path", Jstring path)].

(** [concat(path, '/', to_string(i))] and [concat(path, '/', escape(key))] *)
Definition index_path (path : list Z) (i : nat) : list Z := path ++ [cSLASH] ++ to_string (Z.of_nat i).
Definition key_path (path k : list Z) : list Z := path ++ [cSLASH] ++ escape k.

(** The loops of [diff], over its recursive calls: elements at the indices that both
    arrays have, members of [source], and members that only [target] has. *)
Section loops.
Variable diff_ops : json F -> json F -> list Z -> list (json F).

Fixpoint diff_elements (path : list Z) (i : nat) (vs ws : list (json F)) : list (json F) :=
  match vs, ws with
  | v :: vs, w :: ws => diff_ops v w (index_path path i) ++ diff_elements path (S i) vs ws
  | _, _ => []
  end.

Fixpoint diff_members (path : list Z) ms ns : list (json F) :=
  match ms with
  | [] => []
  | (k, v) :: ms =>
      match obj_get k ns with
      | Some w => diff_ops v w (key_path path k)
      | None => [remove_op (key_path path k)]
      end ++ diff_members path ms ns
  end.
End loops.

Fixpoint add_members (path : list Z) ms ns : list (json F) :=
  match ns with
  | [] => []
  | (k, w) :: ns =>
      match obj_get k ms with
      | None => [add_op (key_path path k) w]
      | Some _ => []
      end ++ add_members path ms ns
  end.

(** each removal is inserted in front of the earlier ones *)
Definition remove_elements (path : list Z) (first count : nat) : list (json F) :=
  foldl (fun ops i => remove_op (index_path path i) :: ops) [] (seq first count).
Definition add_elements (path : list Z) ws : list (json F) := (fun w => add_op (path ++ str "/-") w) <$> ws.

(** [diff(source, target, path)], the elements of the array it returns *)
Fixpoint diff_ops (source target : json F) (path : list Z) : list (json F) :=
  if json_eqb source target then []
  else if negb (same_type source target) then [replace_op path target]
  else
    match source, target with
    | Jarray vs, Jarray ws =>
        diff_elements diff_ops path O vs ws
        ++ remove_elements path (length ws) (length vs - length ws)
        ++ add_elements path (drop (length vs) ws)
    | Jobject ms, Jobject ns => diff_members diff_ops path ms ns ++ add_members path ms ns
    | _, _ => [replace_op path target]
    end.

Definition diff source target : json F := Jarray (diff_ops source target []).

(** ** [merge_patch] *)

(** the loop over the members of the patch, on those of an object *)
Section merge_loop.
Variable merge_patch : json F -> json F -> json F.

Fixpoint merge_members ps ms : list (list Z * json F) :=
  match ps with
  | [] => ms
  | (k, v) :: ps =>
      merge_members ps
        (if is_null v then obj_erase k ms
         else
           let ms := obj_index k ms in
           obj_set k (merge_patch v (default Jnull (obj_get k ms))) ms)
  end.
End merge_loop.

Fixpoint merge_patch (apply_patch this : json F) : json F :=
  match apply_patch with
  | Jobject ps =>
      match (if is_object this then this else Jobject []) with
      | Jobject ms => Jobject (merge_members merge_patch ps ms)
      | this => this
      end
  | _ => apply_patch
  end.

End patch.
