(* ===== verification/JsonPointerProps.v ===== *)
(** JsonPointerProps: the text of a JSON pointer.

    [segments] cuts a text at its slashes and [decode_token] reads the escapes of a
    segment; both are structural, and [split] is [decode_token] on every segment. *)

From S2P Require Import Prelude Json JsonLexer JsonParser JsonNumeral JsonAccess JsonPointer.

(** ** Escapes *)

(** The token that a segment stands for, unless a [~] is not followed by [0] or [1]. *)
Fixpoint decode_token (s : list Z) : option (list Z) :=
  match s with
  | [] => Some []
  | c :: s' =>
      if c =? cTILDE then
        match s' with
        | d :: s'' =>
            if d =? c0 then cons cTILDE <$> decode_token s''
            else if d =? c1 then cons cSLASH <$> decode_token s'' else None
        | [] => None
        end
      else cons c <$> decode_token s'
  end.

(** Induction that follows [decode_token]. *)
Lemma decode_token_ind (P : list Z -> Prop) :
  P [] -> (forall c s, P s -> (forall d s', s = d :: s' -> P s') -> P (c :: s)) -> forall s, P s.
Proof.
  intros H0 H1 s. enough (P s /\ forall d s', s = d :: s' -> P s') by tauto.
  induction s as [|c s [IH1 IH2]]; [split; [done|by intros]|]. split; [by apply H1|]. by intros d s' [= _ ->].
Qed.

Definition escape_char (c : Z) : list Z :=
  if c =? cTILDE then [cTILDE; c0] else if c =? cSLASH then [cTILDE; c1] else [c].

Lemma escape_cons c s : escape (c :: s) = escape_char c ++ escape s.
Proof.
  unfold escape, escape_char. cbn [replace_substring starts_with]. rewrite andb_true_r, (Z.eqb_sym _ c).
  destruct (c =? cTILDE) eqn:E; [done|]. cbn. rewrite andb_true_r, (Z.eqb_sym _ c). by case_match.
Qed.

Lemma decode_token_escape s : decode_token (escape s) = Some s.
Proof.
  induction s as [|c s IH]; [done|]. rewrite escape_cons. unfold escape_char.
  destruct (c =? cTILDE) eqn:E1; [|destruct (c =? cSLASH) eqn:E2]; cbn; rewrite ?E1, IH; cbn; repeat f_equal; lia.
Qed.

Lemma escape_no_slash s : cSLASH ∉ escape s.
Proof.
  induction s as [|c s IH]; [by apply not_elem_of_nil|]. rewrite escape_cons, not_elem_of_app. split; [|done].
  unfold escape_char. repeat case_match; rewrite ?not_elem_of_cons; repeat split; try lia; apply not_elem_of_nil.
Qed.

Lemma escape_decode_token s t : cSLASH ∉ s -> decode_token s = Some t -> escape t = s.
Proof.
  revert t; induction s as [|c s IH1 IH2] using decode_token_ind; intros t; [by intros _ [= <-]|].
  rewrite not_elem_of_cons. intros [Hc Hs]. cbn. destruct (c =? cTILDE) eqn:E.
  - destruct s as [|d s]; [done|]. apply not_elem_of_cons in Hs as [Hd Hs].
    destruct (d =? c0) eqn:E0; [|destruct (d =? c1) eqn:E1; [|done]].
    all: intros (t' & Ht & ->)%fmap_Some; rewrite escape_cons, (IH2 d s eq_refl t' Hs Ht); vm_compute (escape_char _); cbn; repeat f_equal; lia.
  - intros (t' & Ht & ->)%fmap_Some. rewrite escape_cons, (IH1 t' Hs Ht). unfold escape_char. rewrite E.
    case_match; [lia|done].
Qed.

Lemma unescape_decode_token s t : decode_token s = Some t -> unescape s = t.
Proof.
  revert t; induction s as [|c s IH1 IH2] using decode_token_ind; intros t; [by intros [= <-]|].
  unfold unescape. cbn. rewrite (Z.eqb_sym _ c). destruct (c =? cTILDE) eqn:E.
  - destruct s as [|d s]; [done|]. cbn. rewrite !(Z.eqb_sym _ d).
    destruct (d =? c0) eqn:E0; [|destruct (d =? c1) eqn:E1; [|done]]; intros (t' & Ht & ->)%fmap_Some.
    + rewrite (proj2 (Z.eqb_neq d c1)), (proj2 (Z.eqb_neq d cTILDE)) by lia. cbn.
      rewrite (Z.eqb_sym _ c), E, (Z.eqb_sym _ d), E0. cbn.
      f_equal. by apply (IH2 d s).
    + cbn. f_equal. by apply (IH2 d s).
  - intros (t' & Ht & ->)%fmap_Some. cbn. rewrite (Z.eqb_sym _ c), E. cbn. f_equal. by apply IH1.
Qed.

(** ** Searching *)

Lemma find_char_drop c pos s : find_char c pos s = Nat.add pos <$> find_char c 0 (drop pos s).
Proof.
  revert pos; induction s as [|x s IH]; intros [|pos]; try done; cbn.
  - by destruct (if x =? c then _ else _).
  - rewrite IH. by destruct (find_char c 0 (drop pos s)).
Qed.

Lemma find_char_None c s : find_char c 0 s = None <-> c ∉ s.
Proof.
  induction s as [|x s IH]; cbn; [split; [by intros _; apply not_elem_of_nil|done]|].
  rewrite not_elem_of_cons, <- IH. case_match; [split; [done|]; intros []; lia|].
  destruct (find_char c 0 s); cbn; split; try done; [by intros []|]. intros _. split; [lia|done].
Qed.

Lemma find_char_Some c s q :
  find_char c 0 s = Some q -> exists s1 s2, s = s1 ++ c :: s2 /\ length s1 = q /\ c ∉ s1.
Proof.
  revert q; induction s as [|x s IH]; intros q; cbn; [done|]. destruct (x =? c) eqn:E.
  - intros [= <-]. exists [], s. cbn. split_and!; [f_equal; lia|done|apply not_elem_of_nil].
  - intros (q' & Hq & ->)%fmap_Some. destruct (IH _ Hq) as (s1 & s2 & -> & <- & Hs1).
    exists (x :: s1), s2. split_and!; [done..|]. apply not_elem_of_cons. split; [lia|done].
Qed.

Lemma find_char_middle c s1 s2 : c ∉ s1 -> find_char c 0 (s1 ++ c :: s2) = Some (length s1).
Proof.
  induction s1 as [|x s1 IH]; cbn; [by rewrite Z.eqb_refl|]. rewrite not_elem_of_cons. intros [Hx Hs].
  rewrite IH by done. case_match; [lia|done].
Qed.

(** ** The loops of [split] *)

Definition bad_escape : fault :=
  parse_error_at 108 0 (str "escape character '~' must be followed with '0' or '1'").

Lemma decode_token_app s1 s2 : cTILDE ∉ s1 -> decode_token (s1 ++ s2) = app s1 <$> decode_token s2.
Proof.
  induction s1 as [|x s1 IH]; [by cbn; destruct (decode_token s2)|]. rewrite not_elem_of_cons. intros [Hx Hs]. cbn.
  rewrite (proj2 (Z.eqb_neq x cTILDE)), IH by done. by destruct (decode_token s2).
Qed.

Lemma check_escapes_loop rest : forall fuel done_,
  (length rest < fuel)%nat ->
  check_escapes fuel (done_ ++ rest) (find_char cTILDE (length done_) (done_ ++ rest)) =
    match decode_token rest with Some _ => Ok tt | None => Fault bad_escape end.
Proof.
  induction rest as [rest IH] using (induction_ltof1 _ length). unfold ltof in IH. intros fuel done_ Hf.
  rewrite find_char_drop, drop_app_length.
  destruct (find_char cTILDE 0 rest) as [q|] eqn:Eq.
  - destruct (find_char_Some _ _ _ Eq) as (s1 & s2 & -> & <- & Hs1). cbn [fmap option_fmap option_map].
    rewrite decode_token_app by done.
    destruct fuel as [|fuel]; [lia|]. cbn [check_escapes].
    rewrite !length_app in *. cbn [length] in *.
    destruct s2 as [|d s2].
    { rewrite bool_decide_true by (cbn; lia). done. }
    rewrite bool_decide_false by (cbn; lia).
    assert (nth (length done_ + length s1 + 1) (done_ ++ s1 ++ cTILDE :: d :: s2) cNUL = d) as ->.
    { rewrite app_assoc, app_nth2 by (rewrite length_app; lia). rewrite length_app. by replace (_ - _)%nat with 1%nat by lia. }
    cbn [orb decode_token]. rewrite Z.eqb_refl. destruct ((d =? c0) || (d =? c1)) eqn:Ed.
    + replace (negb (d =? c0) && negb (d =? c1)) with false by (destruct (d =? c0), (d =? c1); done).
      specialize (IH s2 ltac:(rewrite ?length_app; cbn; lia) fuel (done_ ++ s1 ++ [cTILDE; d]) ltac:(cbn in *; lia)).
      rewrite find_char_drop in IH.
      rewrite find_char_drop.
      replace (done_ ++ s1 ++ cTILDE :: d :: s2) with ((done_ ++ s1 ++ [cTILDE; d]) ++ s2) by by rewrite <- !app_assoc.
      rewrite drop_app_length in IH.
      assert (drop (length done_ + length s1 + 1) ((done_ ++ s1 ++ [cTILDE; d]) ++ s2) = d :: s2) as ->.
      { replace ((done_ ++ s1 ++ [cTILDE; d]) ++ s2) with ((done_ ++ s1 ++ [cTILDE]) ++ d :: s2) by by rewrite <- !app_assoc.
        rewrite drop_app_ge by (rewrite !length_app; cbn; lia). rewrite !length_app. cbn [length].
        replace (_ - _)%nat with O by lia. done. }
      cbn [find_char]. rewrite (proj2 (Z.eqb_neq d cTILDE)) by lia.
      replace (Nat.add (length done_ + length s1 + 1) <$> (S <$> find_char cTILDE 0 s2))
        with (Nat.add (length (done_ ++ s1 ++ [cTILDE; d])) <$> find_char cTILDE 0 s2)
        by (destruct (find_char cTILDE 0 s2); cbn; [f_equal; rewrite !length_app; cbn; lia|done]).
      rewrite IH. destruct (d =? c0); [by destruct (decode_token s2)|]. destruct (d =? c1); [by destruct (decode_token s2)|done].
    + apply orb_false_iff in Ed as [-> ->]. done.
  - apply find_char_None in Eq. pose proof (decode_token_app rest [] Eq) as Ed. rewrite app_nil_r in Ed. rewrite Ed.
    by destruct fuel.
Qed.

Lemma check_escapes_ok s :
  check_escapes (S (length s)) s (find_char cTILDE 0 s) =
    match decode_token s with Some _ => Ok tt | None => Fault bad_escape end.
Proof. exact (check_escapes_loop s (S (length s)) [] ltac:(lia)). Qed.

(** The text cut at its slashes. *)
Fixpoint segments (s : list Z) : list (list Z) :=
  match s with
  | [] => [[]]
  | c :: s =>
      if c =? cSLASH then [] :: segments s
      else match segments s with x :: xs => (c :: x) :: xs | [] => [[c]] end
  end.

Lemma segments_last s : cSLASH ∉ s -> segments s = [s].
Proof.
  induction s as [|c s IH]; [done|]. rewrite not_elem_of_cons. intros [Hc Hs]. cbn. rewrite IH by done.
  case_match; [lia|done].
Qed.

Lemma segments_cons s1 s2 : cSLASH ∉ s1 -> segments (s1 ++ cSLASH :: s2) = s1 :: segments s2.
Proof.
  induction s1 as [|c s1 IH]; [done|]. rewrite not_elem_of_cons. intros [Hc Hs]. cbn. rewrite IH by done.
  case_match; [lia|done].
Qed.

Lemma segments_no_slash s : Forall (fun x => cSLASH ∉ x) (segments s).
Proof.
  induction s as [|c s IH]; cbn; [by repeat constructor; apply not_elem_of_nil|].
  case_match; [constructor; [apply not_elem_of_nil|done]|].
  destruct (segments s) as [|x xs]; [constructor; [|constructor]; rewrite list_elem_of_singleton; lia|].
  inversion_clear IH. constructor; [|done]. rewrite not_elem_of_cons. split; [lia|done].
Qed.

(** A slash in front of each. *)
Definition join (xs : list (list Z)) : list Z := concat (cons cSLASH <$> xs).

Lemma join_segments s : join (segments s) = cSLASH :: s.
Proof.
  induction s as [|c s IH]; [done|]. cbn. case_match.
  - unfold join. cbn. fold (join (segments s)). rewrite IH. f_equal. f_equal. lia.
  - destruct (segments s) as [|x xs]; [done|]. unfold join in *. cbn in *. injection IH as IH. by rewrite IH.
Qed.

Lemma segments_join x xs : Forall (fun x => cSLASH ∉ x) (x :: xs) -> segments (x ++ join xs) = x :: xs.
Proof.
  revert x; induction xs as [|y xs IH]; intros x [Hx Hxs]%Forall_cons.
  - unfold join. cbn. rewrite app_nil_r. by apply segments_last.
  - unfold join. cbn. rewrite segments_cons by done. f_equal. by apply IH.
Qed.

Lemma split_loop_ok rest : forall fuel s start result,
  drop start s = rest -> (start <= length s)%nat -> (length rest < fuel)%nat ->
  split_loop fuel s start (find_char cSLASH start s) result =
    match mapM decode_token (segments rest) with Some ts => Ok (result ++ ts) | None => Fault bad_escape end.
Proof.
  induction rest as [rest IH] using (induction_ltof1 _ length). unfold ltof in IH.
  intros fuel s start result Hd Hst Hf. destruct fuel as [|fuel]; [lia|].
  rewrite find_char_drop, Hd. destruct (find_char cSLASH 0 rest) as [q|] eqn:Eq; cbn [split_loop fmap option_fmap option_map].
  - destruct (find_char_Some _ _ _ Eq) as (s1 & s2 & E & <- & Hs1). rewrite Hd.
    replace (start + length s1 - start)%nat with (length s1) by lia.
    rewrite E, take_app_length, check_escapes_ok, segments_cons by done. cbn [mapM].
    destruct (decode_token s1) as [t|] eqn:Et; [|done]. rewrite (unescape_decode_token _ _ Et).
    assert (drop (start + length s1 + 1) s = s2) as Hd2.
    { replace (start + length s1 + 1)%nat with (start + (length s1 + 1))%nat by lia.
      rewrite <- drop_drop, Hd, E, drop_app_ge by lia. replace (_ - _)%nat with 1%nat by lia. done. }
    assert (length rest = length s - start)%nat as Hl by by rewrite <- Hd, length_drop.
    assert (length rest = length s1 + 1 + length s2)%nat as Hl2 by (rewrite E, length_app; cbn; lia).
    rewrite (IH s2) by (try done; lia). cbn [mbind option_bind].
    destruct (mapM decode_token (segments s2)) as [ts|]; [|done]. cbn. by rewrite <- app_assoc.
  - apply find_char_None in Eq. rewrite Hd, segments_last, check_escapes_ok by done. cbn.
    destruct (decode_token rest) as [t|] eqn:Et; [|done]. cbn. by rewrite (unescape_decode_token _ _ Et).
Qed.

Lemma split_segments s :
  split (cSLASH :: s) =
    match mapM decode_token (segments s) with Some ts => Ok ts | None => Fault bad_escape end.
Proof.
  cbn [split]. rewrite Z.eqb_refl. cbn [negb].
  rewrite (split_loop_ok s) by (try done; cbn; lia). by destruct (mapM _ _).
Qed.

Lemma pointer_to_string_join p : pointer_to_string p = join (escape <$> p).
Proof.
  unfold pointer_to_string, join.
  enough (forall a, foldl (fun a b => a ++ [cSLASH] ++ escape b) a p = a ++ concat (cons cSLASH <$> (escape <$> p)))
    as -> by done.
  induction p as [|t p IH]; intros a; cbn; [by rewrite app_nil_r|]. rewrite IH. by rewrite <- app_assoc.
Qed.

Lemma split_pointer_to_string p : split (pointer_to_string p) = Ok p.
Proof.
  rewrite pointer_to_string_join. destruct p as [|t p]; [done|].
  change (join (escape <$> t :: p)) with (cSLASH :: escape t ++ join (escape <$> p)).
  rewrite split_segments, segments_join.
  - assert (mapM decode_token (escape t :: (escape <$> p)) = Some (t :: p)) as ->; [|done].
    change (escape t :: (escape <$> p)) with (escape <$> t :: p).
    induction (t :: p) as [|x xs IH]; [done|]. cbn. rewrite decode_token_escape. cbn. by rewrite IH.
  - change (escape t :: (escape <$> p)) with (escape <$> t :: p). apply Forall_fmap, Forall_true. intros x. apply escape_no_slash.
Qed.

Lemma pointer_to_string_split s p : split s = Ok p -> pointer_to_string p = s.
Proof.
  destruct s as [|c s]; [by intros [= <-]|]. destruct (decide (c = cSLASH)) as [->|Hc].
  - rewrite split_segments. destruct (mapM decode_token (segments s)) as [ts|] eqn:E; [|done]. intros [= <-].
    rewrite pointer_to_string_join, <- (join_segments s). f_equal. apply mapM_Some_1 in E.
    pose proof (segments_no_slash s) as Hs. revert Hs.
    induction E as [|x y xs ys Hxy E IH]; [done|]. intros [Hx Hxs]%Forall_cons. cbn. rewrite (escape_decode_token x y); [|done..].
    f_equal. by apply IH.
  - cbn [split]. rewrite (proj2 (Z.eqb_neq c cSLASH)) by done. done.
Qed.

Lemma split_app_token p t : split (pointer_to_string p ++ [cSLASH] ++ escape t) = Ok (p ++ [t]).
Proof.
  pose proof (split_pointer_to_string (p ++ [t])) as H. unfold pointer_to_string in *. by rewrite foldl_app in H.
Qed.

(** ** Array indices *)

(** A numeral without leading zeros is that of its value. *)
Lemma to_string_digits_value ds :
  ds <> [] -> Forall (fun c => is_digit c = true) ds -> (hd c0 ds = c0 -> length ds = 1%nat) ->
  to_string (digits_value ds) = ds /\ 0 <= digits_value ds /\ (hd c0 ds <> c0 -> 1 <= digits_value ds).
Proof.
  induction ds as [|c ds IH] using rev_ind; [done|]. intros _ [Hds Hc]%Forall_app Hh.
  rewrite Forall_singleton in Hc. unfold is_digit in Hc. rewrite digits_value_snoc. cbv beta in Hc.
  destruct (decide (ds = [])) as [->|Hne].
  - change (digits_value []) with 0. cbn [app hd] in *. rewrite to_string_small by lia.
    split_and!; [f_equal; lia|lia|intros; lia].
  - destruct (IH Hne Hds) as (IH1 & IH2 & IH3).
    { intros H. destruct ds as [|d ds]; [done|]. cbn in *. specialize (Hh H). rewrite length_app in Hh. cbn in *. lia. }
    assert (hd c0 (ds ++ [c]) = hd c0 ds) as Hhd by by destruct ds.
    assert (hd c0 ds <> c0) as Hnz.
    { intros H. rewrite Hhd in Hh. specialize (Hh H). rewrite length_app in Hh. destruct ds; cbn in *; [done|lia]. }
    specialize (IH3 Hnz). split_and!; [|lia|intros; lia].
    rewrite to_string_step by lia.
    replace ((10 * digits_value ds + (c - c0)) / 10) with (digits_value ds) by div_lia.
    rewrite IH1. do 2 f_equal. div_lia.
Qed.

Lemma digits_prefix_id ds : Forall (fun c => is_digit c = true) ds -> digits_prefix ds = ds.
Proof. induction 1 as [|c ds Hc Hds IH]; cbn; [done|]. by rewrite Hc, IH. Qed.

Lemma digits_prefix_length s : (length (digits_prefix s) <= length s)%nat.
Proof. induction s as [|c s IH]; cbn; [done|]. case_match; cbn; lia. Qed.

Lemma digits_prefix_full s :
  length (digits_prefix s) = length s -> digits_prefix s = s /\ Forall (fun c => is_digit c = true) s.
Proof.
  induction s as [|c s IH]; cbn; [done|]. destruct (is_digit c) eqn:E; [|done]. cbn. intros [= Hs].
  destruct (IH Hs) as [-> ?]. auto.
Qed.

(** [strtoull] on a string that begins with a digit. *)
Lemma strtoull_from_digit c s :
  is_digit c = true ->
  let ds := digits_prefix (c :: s) in
  strtoull_from (c :: s) =
    if ULLONG_MAX <? digits_value ds then Strto ULLONG_MAX true (length ds)
    else Strto (digits_value ds) false (length ds).
Proof.
  intros Hc ds. assert (0 <= digits_value ds) as Hp.
  { unfold digits_value. assert (forall n, 0 <= n -> 0 <= foldl (fun n c => 10 * n + (c - c0)) n ds) as H; [|by apply H].
    subst ds. generalize (c :: s) as s2. clear. induction s2 as [|x s2 IH]; intros n Hn; cbn; [done|].
    destruct (is_digit x) eqn:E; [|done]. cbn. apply IH. unfold is_digit in E. lia. }
  unfold strtoull_from. cbn [skip_spaces]. unfold is_digit in Hc.
  replace (isspace c) with false by (unfold isspace; lia). cbn [drop].
  unfold strtoull, strto_int. cbn [sign_prefix].
  replace ((c =? cMINUS) || (c =? cPLUS)) with false by lia. cbn [length drop Nat.add]. fold ds.
  assert (exists d ds', ds = d :: ds') as (d & ds' & Hds).
  { subst ds. cbn. assert (is_digit c = true) as -> by (unfold is_digit; lia). eauto. }
  rewrite bool_decide_false by done. cbn [andb]. rewrite Hds in *.
  rewrite (proj2 (Z.ltb_ge (digits_value (d :: ds')) 0)) by done.
  unfold ULLONG_MAX. by case_match.
Qed.

Lemma strtoull_no_digits s : digits_prefix (drop (length (sign_prefix s)) s) = [] -> strto_end (strtoull s) = O.
Proof. intros Hs. unfold strtoull, strto_int. rewrite Hs. by repeat case_match; simplify_eq. Qed.

Lemma strtoull_from_not_digit c : is_digit c = false -> strto_end (strtoull_from [c]) = O.
Proof.
  intros Hc. unfold strtoull_from. cbn [strto_end]. rewrite strtoull_no_digits; [done|].
  cbn [skip_spaces]. destruct (isspace c); [done|]. cbn [drop sign_prefix].
  destruct ((c =? cMINUS) || (c =? cPLUS)); [done|]. cbn. by rewrite Hc.
Qed.

Lemma array_index_Some s n :
  array_index s = Ok n <-> s = to_string n /\ 0 <= n < ULLONG_MAX.
Proof.
  split.
  - unfold array_index. destruct s as [|c s]; [done|]. cbn [nth].
    destruct (is_digit c) eqn:Hc.
    + rewrite (strtoull_from_digit c s Hc). set (ds := digits_prefix (c :: s)).
      destruct ((1 <? Z.of_nat (length (c :: s))) && (c =? c0)) eqn:E1; [done|].
      destruct ((1 <? Z.of_nat (length (c :: s))) && negb ((c1 <=? c) && (c <=? c9))) eqn:E2; [done|].
      destruct (ULLONG_MAX <? digits_value ds) eqn:E3; cbn [strto_value strto_erange strto_end].
      { rewrite orb_true_r. done. }
      rewrite orb_false_r. case_match eqn:E4; [done|]. case_match eqn:E5; [done|]. intros [= <-].
      apply orb_false_iff in E4 as [_ E4]. assert (length ds = length (c :: s)) as Hl by lia.
      apply digits_prefix_full in Hl as [Hl Hds]. fold ds in Hl. rewrite Hl.
      destruct (to_string_digits_value (c :: s)) as (H1 & H2 & _); [done..| |].
      { cbn [hd]. intros ->. destruct s; [done|]. cbn [length] in *. rewrite (proj2 (Z.ltb_lt 1 _)) in E1 by lia. done. }
      split; [done|]. rewrite Hl in *. lia.
    + case_match; [done|]. case_match eqn:E2; [done|].
      assert (s = []) as ->.
      { destruct s; [done|]. exfalso. unfold is_digit in Hc. cbn [length] in *. rewrite (proj2 (Z.ltb_lt 1 _)) in * by lia. cbn [andb] in *. lia. }
      rewrite strtoull_from_not_digit by done. cbn. done.
  - intros [-> Hn]. pose proof (to_string_digits n ltac:(lia)) as Hds. pose proof (to_string_value n ltac:(lia)) as Hv.
    destruct (to_string_head n ltac:(lia)) as (c & ds & E & Hc). rewrite E in *.
    apply Forall_cons in Hds as Hd. destruct Hd as [Hd _].
    unfold array_index. cbn [nth]. rewrite (strtoull_from_digit c ds Hd), digits_prefix_id, Hv by done.
    destruct (decide (c = c0)) as [->|Hnz].
    + destruct (Hc eq_refl) as [-> ->]. reflexivity.
    + rewrite (proj2 (Z.eqb_neq c c0)), andb_false_r by done.
      assert ((c1 <=? c) && (c <=? c9) = true) as -> by (unfold is_digit in Hd; lia). rewrite andb_false_r.
      rewrite (proj2 (Z.ltb_ge ULLONG_MAX n)) by lia. cbn [strto_value strto_erange strto_end].
      rewrite !Z.eqb_refl, (proj2 (Z.leb_gt ULLONG_MAX n)) by lia. cbn [length].
      destruct (Z.eqb_spec (Z.of_nat (S (length ds))) 0); [lia|]. done.
Qed.

Lemma array_index_to_string n : 0 <= n < ULLONG_MAX -> array_index (to_string n) = Ok n.
Proof. intros Hn. by apply array_index_Some. Qed.

Lemma to_string_no_dash n : 0 <= n -> to_string n <> [cMINUS].
Proof.
  intros Hn E. pose proof (to_string_digits n Hn) as H. rewrite E, Forall_singleton in H. done.
Qed.

(** Indices need no escapes. *)
Lemma escape_digits s : Forall (fun c => is_digit c = true) s -> escape s = s.
Proof.
  induction 1 as [|c s Hc Hs IH]; [done|]. rewrite escape_cons, IH. unfold escape_char, is_digit in *.
  rewrite (proj2 (Z.eqb_neq c cTILDE)), (proj2 (Z.eqb_neq c cSLASH)) by lia. done.
Qed.

Lemma escape_to_string n : 0 <= n -> escape (to_string n) = to_string n.
Proof. intros Hn. by apply escape_digits, to_string_digits. Qed.
