(* ===== verification/JsonAccessProps.v ===== *)
(** JsonAccessProps: objects as finite maps, comparison, and places.

    [allocated] is what a value in memory satisfies: the keys of each [std::map]
    ascend and no vector is longer than [max_size].  A place found by a pointer
    ([resolve]) stays valid when the value at it is replaced. *)

From S2P Require Import Prelude Json JsonLexer JsonParser JsonUtf8 JsonDom JsonNumeral JsonAccess JsonPointer JsonPointerProps.

Section maps.
Context {F : Type}.
Implicit Types (v w : json F) (ms ns : list (list Z * json F)) (k : list Z).

Abbreviation ascending ms := (keys_ascending (fst <$> ms) = true).

Lemma ascending_cons k v ms :
  ascending ((k, v) :: ms) <-> Forall (fun k' => key_ltb k k' = true) ms.*1 /\ ascending ms.
Proof. apply keys_ascending_cons. Qed.

Lemma obj_get_None k ms : obj_get k ms = None <-> k ∉ ms.*1.
Proof.
  induction ms as [|[k1 v1] ms IH]; [split; [intros _; apply not_elem_of_nil|done]|].
  cbn. rewrite not_elem_of_cons. case_decide; [split; [done|tauto]|]. rewrite IH. tauto.
Qed.

Lemma obj_get_in k v ms : obj_get k ms = Some v -> k ∈ ms.*1.
Proof. intros Hk. destruct (decide (k ∈ ms.*1)) as [|Hn]; [done|]. apply obj_get_None in Hn. congruence. Qed.

Lemma obj_get_below k ms : Forall (fun k' => key_ltb k k' = true) ms.*1 -> obj_get k ms = None.
Proof.
  intros H. apply obj_get_None. intros Hk. pose proof (proj1 (Forall_forall _ _) H _ Hk) as Hl. cbn in Hl.
  by rewrite key_ltb_irrefl in Hl.
Qed.

Lemma obj_get_index k k' ms :
  ascending ms -> obj_get k' (obj_index k ms) =
    if decide (k = k') then Some (default Jnull (obj_get k ms)) else obj_get k' ms.
Proof.
  induction ms as [|[k1 v1] ms IH]; intros Ha; [cbn; repeat case_decide; by subst|].
  apply ascending_cons in Ha as [Hlt Ha]. cbn [obj_index].
  destruct (key_ltb k k1) eqn:E1; [|destruct (key_ltb k1 k) eqn:E2].
  - assert (obj_get k ((k1, v1) :: ms) = None) as Hn.
    { apply obj_get_below. cbn. constructor; [done|]. eapply Forall_impl; [exact Hlt|]. intros k2. by apply key_ltb_trans. }
    rewrite Hn. cbn [obj_get default]. destruct (decide (k' = k)), (decide (k = k')); try congruence; done.
  - assert (k <> k1) by (intros ->; by rewrite key_ltb_irrefl in E2).
    cbn [obj_get]. rewrite IH by done. rewrite (decide_False (P := k = k1)) by done.
    repeat case_decide; congruence.
  - assert (k = k1) as -> by by apply key_ltb_antisym. cbn [obj_get]. rewrite (decide_True (P := k1 = k1)) by done.
    repeat case_decide; simplify_eq/=; try done.
Qed.

Lemma obj_get_set_eq k k' v ms :
  obj_get k' (obj_set k v ms) = if decide (k = k') then (fun _ => v) <$> obj_get k ms else obj_get k' ms.
Proof.
  induction ms as [|[k1 v1] ms IH]; cbn; [by case_decide|]. destruct (decide (k = k1)) as [->|].
  - cbn. repeat case_decide; congruence.
  - cbn. rewrite IH. repeat case_decide; congruence.
Qed.

(** [operator[](k) = v] *)
Definition obj_put k v ms := obj_set k v (obj_index k ms).

Lemma obj_get_put k k' v ms :
  ascending ms -> obj_get k' (obj_put k v ms) = if decide (k = k') then Some v else obj_get k' ms.
Proof.
  intros Ha. unfold obj_put. rewrite obj_get_set_eq, !obj_get_index by done. by repeat case_decide.
Qed.

Lemma obj_put_ascending k v ms : ascending ms -> ascending (obj_put k v ms).
Proof. intros Ha. unfold obj_put. rewrite obj_set_keys. by apply obj_index_keys. Qed.

Lemma obj_erase_keys k ms : forall k', k' ∈ (obj_erase k ms).*1 -> k' ∈ ms.*1.
Proof.
  induction ms as [|[k1 v1] ms IH]; cbn; [done|]. intros k'. case_decide; [by right|].
  cbn. rewrite !elem_of_cons. intros [->|?]; auto.
Qed.

Lemma obj_erase_ascending k ms : ascending ms -> ascending (obj_erase k ms).
Proof.
  induction ms as [|[k1 v1] ms IH]; [done|]. intros [Hlt Ha]%ascending_cons. cbn. case_decide; [done|].
  apply ascending_cons. split; [|auto]. apply Forall_forall. intros k' Hk'%obj_erase_keys. by eapply Forall_forall in Hlt.
Qed.

Lemma obj_get_erase k k' ms :
  ascending ms -> obj_get k' (obj_erase k ms) = if decide (k = k') then None else obj_get k' ms.
Proof.
  induction ms as [|[k1 v1] ms IH]; intros Ha; [by case_decide|]. apply ascending_cons in Ha as [Hlt Ha]. cbn.
  destruct (decide (k = k1)) as [->|].
  - case_decide; [subst; by apply obj_get_below|]. by rewrite decide_False.
  - cbn. rewrite IH by done. repeat case_decide; congruence.
Qed.

Lemma obj_erase_Forall (P : list Z * json F -> Prop) k ms : Forall P ms -> Forall P (obj_erase k ms).
Proof. induction 1 as [|[k1 v1] ms Hm Hms IH]; cbn; [done|]. case_decide; [done|by constructor]. Qed.

(** Ascending members with related values at every key are related in order. *)
Lemma ascending_rel (R : json F -> json F -> Prop) ms ns :
  ascending ms -> ascending ns ->
  (forall k, option_Forall2 R (obj_get k ms) (obj_get k ns)) ->
  Forall2 (fun m n => m.1 = n.1 /\ R m.2 n.2) ms ns.
Proof.
  revert ns; induction ms as [|[k1 v1] ms IH]; intros [|[k2 v2] ns] Ha Hb HR.
  - constructor.
  - specialize (HR k2). cbn in HR. rewrite decide_True in HR by done. inversion HR.
  - specialize (HR k1). cbn in HR. rewrite decide_True in HR by done. inversion HR.
  - apply ascending_cons in Ha as [Hlt1 Ha], Hb as [Hlt2 Hb].
    assert (k1 = k2) as ->.
    { apply key_ltb_antisym; apply not_true_is_false; intros Hl.
      - specialize (HR k1). cbn in HR. rewrite decide_True, decide_False in HR by (try done; intros ->; by rewrite key_ltb_irrefl in Hl).
        rewrite obj_get_below in HR; [inversion HR|]. eapply Forall_impl; [exact Hlt2|]. intros k. by apply key_ltb_trans.
      - specialize (HR k2). cbn in HR. rewrite decide_False, decide_True in HR by (try done; intros ->; by rewrite key_ltb_irrefl in Hl).
        rewrite obj_get_below in HR; [inversion HR|]. eapply Forall_impl; [exact Hlt1|]. intros k. by apply key_ltb_trans. }
    constructor.
    + specialize (HR k2). cbn in HR. rewrite !decide_True in HR by done. by inversion HR.
    + apply IH; try done. intros k. specialize (HR k). cbn in HR. case_decide; [|done]. subst.
      rewrite !obj_get_below by done. constructor.
Qed.

Lemma ascending_ext ms ns :
  ascending ms -> ascending ns -> (forall k, obj_get k ms = obj_get k ns) -> ms = ns.
Proof.
  intros Hm Hn Hg. assert (Forall2 (fun m n => m.1 = n.1 /\ m.2 = n.2) ms ns) as Hf.
  { apply (ascending_rel eq); [done..|]. intros k. rewrite Hg. destruct (obj_get k ns); by constructor. }
  clear Hm Hn Hg. induction Hf as [|[k v] [k' v'] ms ns [Hk Hv] Hf IH]; [done|]. cbn in *. by subst.
Qed.

(** ** Values in memory *)

Fixpoint allocated v : Prop :=
  match v with
  | Jobject ms => ascending ms /\ foldr (fun m P => allocated m.2 /\ P) True ms
  | Jarray vs => Z.of_nat (length vs) <= array_max_size /\ foldr (fun v P => allocated v /\ P) True vs
  | _ => True
  end.

Lemma allocated_array vs :
  allocated (Jarray vs) <-> Z.of_nat (length vs) <= array_max_size /\ Forall allocated vs.
Proof. simpl. by rewrite (foldr_and allocated). Qed.

Lemma allocated_object ms : allocated (Jobject ms) <-> ascending ms /\ Forall (fun m => allocated m.2) ms.
Proof. simpl. by rewrite (foldr_and (fun m => allocated m.2)). Qed.

Lemma allocated_get k ms v : allocated (Jobject ms) -> obj_get k ms = Some v -> allocated v.
Proof. intros [_ H]%allocated_object Hg. eapply Forall_forall in H; [|by eapply obj_get_elem]. done. Qed.

(** ** Comparison *)

Section compare.
Context `{FloatCompare F}.

Abbreviation eqv v w := (json_eqb v w = true).

Lemma eqb_array vs ws : eqv (Jarray vs) (Jarray ws) <-> Forall2 (fun v w => eqv v w) vs ws.
Proof.
  cbn. revert ws; induction vs as [|v vs IH]; intros [|w ws]; try by split; [|intros Hf; inversion Hf].
  rewrite andb_true_iff, IH. split; [intros []; by constructor|by intros Hf; inversion Hf].
Qed.

Lemma eqb_object ms ns : eqv (Jobject ms) (Jobject ns) <-> Forall2 (fun m n => m.1 = n.1 /\ eqv m.2 n.2) ms ns.
Proof.
  cbn. revert ns; induction ms as [|[k v] ms IH]; intros [|[k' w] ns]; try by split; [|intros Hf; inversion Hf].
  rewrite !andb_true_iff, IH, bool_decide_eq_true. split; [intros [[]]; by constructor|].
  intros Hf. inversion Hf as [|? ? ? ? [Hk Hv]]. by subst.
Qed.

Lemma eqb_get ms ns k w :
  eqv (Jobject ms) (Jobject ns) -> obj_get k ns = Some w -> exists v, obj_get k ms = Some v /\ eqv v w.
Proof.
  rewrite eqb_object. induction 1 as [|[k1 v1] [k2 v2] ms ns [Hk Hv] Hms IH]; cbn; [done|]. cbn in Hk. subst.
  case_decide; [|done]. intros [= <-]. eauto.
Qed.
End compare.

(** ** Places *)

(** The place a pointer leads to, if all it names exists. *)
Fixpoint resolve (p : json_pointer) v : option ref :=
  match p with
  | [] => Some []
  | token :: p =>
      match v with
      | Jobject ms => w ← obj_get token ms; cons (AtKey token) <$> resolve p w
      | Jarray vs =>
          if decide (token = [cMINUS]) then None
          else match array_index token with
               | Ok i => w ← vs !! Z.to_nat i; cons (AtIndex (Z.to_nat i)) <$> resolve p w
               | Fault _ => None
               end
      | _ => None
      end
  end.

Lemma load_ok this d v : get_at this d = Some v -> load this d = Ok (v, d).
Proof. unfold load. by intros ->. Qed.

Lemma assign_ok this w d d' : set_at this w d = Some d' -> assign this w d = Ok (tt, d').
Proof. unfold assign. by intros ->. Qed.

Lemma load_bind {A} this d v (f : json F -> M (json F) A) :
  get_at this d = Some v -> (load this ≫= f) d = f v d.
Proof. intros Hd. apply bind_ok. by apply load_ok. Qed.

Lemma assign_bind {A} this w d d' (f : unit -> M (json F) A) :
  set_at this w d = Some d' -> (assign this w ≫= f) d = f tt d'.
Proof. intros Hd. apply bind_ok. by apply assign_ok. Qed.

Lemma lift_bind {S A B} (r : res A) (a : A) (f : A -> M S B) s : r = Ok a -> (lift r ≫= f) s = f a s.
Proof. by intros ->. Qed.

Lemma at_key_ok this k d ms w :
  get_at this d = Some (Jobject ms) -> obj_get k ms = Some w -> at_key this k d = Ok (this ++ [AtKey k], d).
Proof. intros Hd Hk. unfold at_key. rewrite (load_bind _ _ _ _ Hd), Hk. done. Qed.

Lemma at_index_ok this i d vs w :
  get_at this d = Some (Jarray vs) -> 0 <= i -> vs !! Z.to_nat i = Some w ->
  at_index this i d = Ok (this ++ [AtIndex (Z.to_nat i)], d).
Proof.
  intros Hd Hi Hw%lookup_lt_Some. unfold at_index. rewrite (load_bind _ _ _ _ Hd).
  by rewrite (proj2 (Z.ltb_lt _ _)) by lia.
Qed.

Lemma checked_step_child token p v this d r :
  get_at this d = Some v -> resolve (token :: p) v = Some r ->
  exists s r' w, r = s :: r' /\ checked_step this token d = Ok (this ++ [s], d) /\
    get_at (this ++ [s]) d = Some w /\ resolve p w = Some r'.
Proof.
  intros Hd. cbn. unfold checked_step. rewrite (load_bind _ _ _ _ Hd). destruct v; try done.
  - destruct (obj_get token ms) as [w|] eqn:Eg; cbn; [|done]. intros (r' & Hr' & ->)%fmap_Some.
    exists (AtKey token), r', w. split_and!; try done.
    + by eapply at_key_ok.
    + rewrite (get_at_app _ _ _ _ Hd). cbn. by rewrite Eg.
  - case_decide as Hdash; [done|]. destruct (array_index token) as [i|] eqn:Ei; [|done].
    destruct (vs !! Z.to_nat i) as [w|] eqn:Eg; cbn; [|done]. intros (r' & Hr' & ->)%fmap_Some.
    apply array_index_Some in Ei as Hi. destruct Hi as [_ Hi].
    exists (AtIndex (Z.to_nat i)), r', w. split_and!; try done.
    + unfold lift. rewrite (bind_ok _ _ _ _ _ eq_refl). by apply (at_index_ok _ _ _ _ _ Hd (proj1 Hi) Eg).
    + rewrite (get_at_app _ _ _ _ Hd). cbn. by rewrite Eg.
Qed.

Lemma get_checked_from p v this d r :
  get_at this d = Some v -> resolve p v = Some r -> get_checked p this d = Ok (this ++ r, d).
Proof.
  revert v this r; induction p as [|token p IH]; intros v this r Hd Hr.
  - injection Hr as <-. cbn. by rewrite app_nil_r.
  - destruct (checked_step_child _ _ _ _ _ _ Hd Hr) as (s & r' & w & -> & Hs & Hw & Hr').
    unfold get_checked. cbn [walk]. rewrite (bind_ok _ _ _ _ _ Hs).
    etrans; [exact (IH _ _ _ Hw Hr')|]. by rewrite <- app_assoc.
Qed.

Lemma get_checked_ok p d r : resolve p d = Some r -> get_checked p [] d = Ok (r, d).
Proof. by apply get_checked_from. Qed.

Lemma resolve_app p q v r w s :
  resolve p v = Some r -> get_at r v = Some w -> resolve q w = Some s -> resolve (p ++ q) v = Some (r ++ s).
Proof.
  revert v r; induction p as [|token p IH]; intros v r; cbn [resolve app].
  - intros [= <-] [= <-]. done.
  - destruct v; try done.
    + destruct (obj_get token ms) as [x|] eqn:Eg; cbn; [|done]. intros (r' & Hr & ->)%fmap_Some. cbn. rewrite Eg. cbn.
      intros Hw Hs. by rewrite (IH _ _ Hr Hw Hs).
    + case_decide; [done|]. destruct (array_index token); [|done].
      destruct (vs !! Z.to_nat a) as [x|] eqn:Eg; cbn; [|done]. intros (r' & Hr & ->)%fmap_Some. cbn. rewrite Eg. cbn.
      intros Hw Hs. by rewrite (IH _ _ Hr Hw Hs).
Qed.

(** The place survives an assignment to it. *)
Lemma resolve_set p v r w v' : resolve p v = Some r -> set_at r w v = Some v' -> resolve p v' = Some r.
Proof.
  revert v r v'; induction p as [|token p IH]; intros v r v'; cbn [resolve].
  - intros [= <-] [= <-]. done.
  - destruct v; try done.
    + destruct (obj_get token ms) as [x|] eqn:Eg; cbn; [|done]. intros (r' & Hr & ->)%fmap_Some. cbn. rewrite Eg. cbn.
      destruct (set_at r' w x) as [x'|] eqn:Es; cbn; [|done]. intros [= <-]. cbn.
      rewrite (obj_get_set _ _ _ _ Eg). cbn. by rewrite (IH _ _ _ Hr Es).
    + case_decide; [done|]. destruct (array_index token); [|done].
      destruct (vs !! Z.to_nat a) as [x|] eqn:Eg; cbn; [|done]. intros (r' & Hr & ->)%fmap_Some. cbn. rewrite Eg. cbn.
      destruct (set_at r' w x) as [x'|] eqn:Es; cbn; [|done]. intros [= <-]. cbn.
      rewrite list_lookup_insert_eq by (by eapply lookup_lt_Some). cbn. by rewrite (IH _ _ _ Hr Es).
Qed.

(** Storing what is there changes nothing. *)
Lemma obj_set_get k v ms : obj_get k ms = Some v -> obj_set k v ms = ms.
Proof.
  induction ms as [|[k1 v1] ms IH]; cbn; [done|]. case_decide; [intros; by simplify_eq|]. intros Hk. by rewrite IH.
Qed.

Lemma set_at_same r v d : get_at r d = Some v -> set_at r v d = Some d.
Proof.
  revert d; induction r as [|[k|i] r IH]; intros d; cbn; [by intros [= ->]|..]; destruct d; try done.
  - destruct (obj_get k ms) as [x|] eqn:E; [|done]. cbn. intros Hx. rewrite (IH _ Hx). cbn. by rewrite obj_set_get.
  - destruct (vs !! i) as [x|] eqn:E; [|done]. cbn. intros Hx. rewrite (IH _ Hx). cbn. by rewrite list_insert_id.
Qed.

(** [p] leads to [r], where [v] is. *)
Definition located (p : json_pointer) d r v : Prop := resolve p d = Some r /\ get_at r d = Some v.

Lemma located_root d : located [] d [] d.
Proof. done. Qed.

Lemma located_key p d r ms k v :
  located p d r (Jobject ms) -> obj_get k ms = Some v -> located (p ++ [k]) d (r ++ [AtKey k]) v.
Proof.
  intros [Hr Hg] Hk. split.
  - apply (resolve_app _ _ _ _ _ _ Hr Hg). cbn. by rewrite Hk.
  - rewrite (get_at_app _ _ _ _ Hg). cbn. by rewrite Hk.
Qed.

Lemma located_index p d r vs i v :
  located p d r (Jarray vs) -> vs !! i = Some v -> Z.of_nat i < ULLONG_MAX ->
  located (p ++ [to_string (Z.of_nat i)]) d (r ++ [AtIndex i]) v.
Proof.
  intros [Hr Hg] Hi Hm. split.
  - apply (resolve_app _ _ _ _ _ _ Hr Hg). cbn [resolve]. rewrite decide_False by (apply to_string_no_dash; lia).
    rewrite array_index_to_string by lia. rewrite Nat2Z.id, Hi. done.
  - rewrite (get_at_app _ _ _ _ Hg). cbn. by rewrite Hi.
Qed.

Lemma located_set p d r v w : located p d r v -> exists d', set_at r w d = Some d' /\ located p d' r w.
Proof.
  intros [Hr Hg]. destruct (set_at_Some r w d v Hg) as [d' Hd']. exists d'. split; [done|].
  split; [by eapply resolve_set|by eapply get_set_at].
Qed.

(** An update of a child is an update of its parent. *)
Lemma located_child_index p d r vs ws v w d' :
  located p d r (Jarray (vs ++ v :: ws)) -> set_at (r ++ [AtIndex (length vs)]) w d = Some d' ->
  set_at r (Jarray (vs ++ w :: ws)) d = Some d'.
Proof.
  intros [_ Hg] Hs. apply (set_at_app _ _ _ _ _ _ Hg) in Hs as (y & Hy & Hs).
  cbn in Hy. rewrite list_lookup_middle in Hy by done. cbn in Hy. injection Hy as <-.
  by rewrite insert_app_r_alt, Nat.sub_diag in Hs by lia.
Qed.

Lemma located_child_key p d r ms k v w d' :
  located p d r (Jobject ms) -> obj_get k ms = Some v -> set_at (r ++ [AtKey k]) w d = Some d' ->
  set_at r (Jobject (obj_set k w ms)) d = Some d'.
Proof.
  intros [_ Hg] Hk Hs. apply (set_at_app _ _ _ _ _ _ Hg) in Hs as (y & Hy & Hs).
  cbn in Hy. rewrite Hk in Hy. cbn in Hy. by injection Hy as <-.
Qed.
Lemma allocated_at r d v : allocated d -> get_at r d = Some v -> allocated v.
Proof.
  revert d; induction r as [|[k|i] r IH]; intros d; cbn [get_at]; [by intros ? [= ->]|..]; destruct d; try done.
  - destruct (obj_get k ms) as [x|] eqn:E; [|done]. intros Hd Hx. eapply IH; [|exact Hx]. by eapply allocated_get.
  - destruct (vs !! i) as [x|] eqn:E; [|done]. intros [_ Hd]%allocated_array Hx. eapply IH; [|exact Hx].
    by eapply Forall_lookup_1 in Hd.
Qed.

Lemma allocated_set r d w d' : allocated d -> allocated w -> set_at r w d = Some d' -> allocated d'.
Proof.
  revert d d'; induction r as [|[k|i] r IH]; intros d d' Hd Hw; cbn [set_at]; [by intros [= <-]|..]; destruct d; try done.
  - destruct (obj_get k ms) as [x|] eqn:E; [|done]. cbn. destruct (set_at r w x) as [x'|] eqn:Ex; [|done].
    cbn. intros [= <-]. assert (allocated x') by (eapply IH; [|done..]; by eapply allocated_get).
    apply allocated_object in Hd as [Ha Hms]. apply allocated_object. rewrite obj_set_keys. split; [done|].
    by apply obj_set_Forall.
  - destruct (vs !! i) as [x|] eqn:E; [|done]. cbn. destruct (set_at r w x) as [x'|] eqn:Ex; [|done].
    cbn. intros [= <-]. apply allocated_array in Hd as [Hm Hvs]. apply allocated_array. rewrite length_insert.
    split; [done|]. apply Forall_insert; [done|]. eapply IH; [|done..]. by eapply Forall_lookup_1 in Hvs.
Qed.

Lemma allocated_put k v ms : allocated (Jobject ms) -> allocated v -> allocated (Jobject (obj_put k v ms)).
Proof.
  intros [Ha Hms]%allocated_object Hv. apply allocated_object. split; [by apply obj_put_ascending|].
  apply obj_set_Forall; [done|]. by apply obj_index_Forall.
Qed.
End maps.
