(* ===== verification/JsonDiff.v ===== *)
(** JsonDiff: the patch that [diff] computes turns its source into its target.

    Each operation of the patch is an update of the value at a place; the patch of an
    array or object is a sequence of them below the place of that value. *)

From S2P Require Import Prelude Json JsonLexer JsonParser JsonDump JsonUtf8 JsonDom JsonNumeral JsonAccess JsonPointer JsonPointerProps JsonPatch JsonAccessProps.

Section diff.
Context {F : Type} `{NumberFloat F, FloatCompare F} (sep dp : Z).
Implicit Types (v w d : json F) (vs ws : list (json F)) (ms ns : list (list Z * json F)) (k : list Z).

Abbreviation run := (apply_operations sep dp).
Abbreviation eqv v w := (json_eqb v w = true).
Abbreviation ptr p := (pointer_to_string p).

(** ** Pointers of children *)

Lemma key_path_ptr p k : key_path (ptr p) k = ptr (p ++ [k]).
Proof. unfold key_path, pointer_to_string. by rewrite foldl_app. Qed.

Lemma index_path_ptr p i : index_path (ptr p) i = ptr (p ++ [to_string (Z.of_nat i)]).
Proof. unfold index_path, pointer_to_string. rewrite foldl_app. cbn [foldl]. by rewrite escape_to_string by lia. Qed.

Lemma dash_path_ptr p : ptr p ++ str "/-" = ptr (p ++ [[cMINUS]]).
Proof. unfold pointer_to_string. by rewrite foldl_app. Qed.

Lemma last_snoc {A} (p : list A) x : last (p ++ [x]) = Some x.
Proof. apply last_snoc. Qed.

Lemma pop_back_snoc (p : json_pointer) t : pointer_pop_back (p ++ [t]) = Ok p.
Proof.
  unfold pointer_pop_back. rewrite decide_False by (destruct p; intros [=]).
  rewrite length_app. cbn [length]. replace (length p + 1 - 1)%nat with (length p) by lia. by rewrite take_app_length.
Qed.

(** ** Sequences of operations *)

Lemma run_app ops1 ops2 d d' : run ops1 d = Ok (tt, d') -> run (ops1 ++ ops2) d = run ops2 d'.
Proof.
  revert d; induction ops1 as [|op ops IH]; intros d; cbn; [by intros [= ->]|].
  intros (u & d1 & H1 & H2)%bind_ok_inv. rewrite (bind_ok _ _ _ _ _ H1). by apply IH.
Qed.

Lemma run_one op d d' : apply_operation sep dp op d = Ok (tt, d') -> run [op] d = Ok (tt, d').
Proof. intros Hop. cbn. by rewrite (bind_ok _ _ _ _ _ Hop). Qed.

(** ** One operation *)

Lemma get_checked_located p d r v : located p d r v -> get_checked p [] d = Ok (r, d).
Proof. intros [Hr _]. by apply get_checked_ok. Qed.

Lemma apply_operation_at val op p d :
  is_object val = true -> get_string_value val (str "op") (str "op") = Ok op -> get_string_value val op (str "path") = Ok (ptr p) ->
  apply_operation sep dp val d = switch_operation sep dp val op p d.
Proof.
  intros H1 H2 H3. unfold apply_operation. rewrite H1. cbn [negb].
  by rewrite (lift_bind _ _ _ _ H2), (lift_bind _ _ _ _ H3), (lift_bind _ _ _ _ (split_pointer_to_string p)).
Qed.

Lemma replace_at p d r v w d' :
  located p d r v -> set_at r w d = Some d' -> apply_operation sep dp (replace_op (ptr p) w) d = Ok (tt, d').
Proof.
  intros Hl Hs. rewrite (apply_operation_at _ (str "replace") p) by reflexivity.
  change ((v ← lift (Ok w); this ← get_checked p []; assign this v) d = Ok (tt, d')).
  rewrite (lift_bind _ _ _ _ eq_refl), (bind_ok _ _ _ _ _ (get_checked_located _ _ _ _ Hl)). by apply assign_ok.
Qed.

Lemma remove_parent p t d r v :
  located p d r v -> 
  operation_remove (p ++ [t]) d =
    (if is_object v then
       if contains_key v t then erase_key r t else fail (out_of_range 403 (key_message t))
     else if is_array v then idx ← lift (array_index t); erase_index r idx
     else mret tt) d.
Proof.
  intros Hl. unfold operation_remove, pointer_back. rewrite last_snoc.
  rewrite (lift_bind _ _ _ _ eq_refl), (lift_bind _ _ _ _ (pop_back_snoc _ _)).
  rewrite (bind_ok _ _ _ _ _ (get_checked_located _ _ _ _ Hl)). by rewrite (load_bind _ _ _ _ (proj2 Hl)).
Qed.

Lemma remove_key_at p d r ms k v d' :
  located p d r (Jobject ms) -> obj_get k ms = Some v -> set_at r (Jobject (obj_erase k ms)) d = Some d' ->
  apply_operation sep dp (remove_op (ptr (p ++ [k]))) d = Ok (tt, d').
Proof.
  intros Hl Hk Hs. rewrite (apply_operation_at _ (str "remove") (p ++ [k])) by reflexivity.
  change (operation_remove (p ++ [k]) d = Ok (tt, d')). rewrite (remove_parent _ _ _ _ _ Hl).
  cbn [is_object]. unfold contains_key, find_key, erase_key. rewrite Hk, (load_bind _ _ _ _ (proj2 Hl)). by apply assign_ok.
Qed.

Lemma remove_index_at p d r vs i d' :
  located p d r (Jarray vs) -> (i < length vs)%nat -> Z.of_nat i < ULLONG_MAX ->
  set_at r (Jarray (delete i vs)) d = Some d' ->
  apply_operation sep dp (remove_op (ptr (p ++ [to_string (Z.of_nat i)]))) d = Ok (tt, d').
Proof.
  intros Hl Hi Hm Hs. rewrite (apply_operation_at _ (str "remove") (p ++ [to_string (Z.of_nat i)])) by reflexivity.
  change (operation_remove (p ++ [to_string (Z.of_nat i)]) d = Ok (tt, d')). rewrite (remove_parent _ _ _ _ _ Hl).
  cbn [is_object is_array]. rewrite (lift_bind _ _ _ _ (array_index_to_string _ (conj (Nat2Z.is_nonneg i) Hm))).
  unfold erase_index. rewrite (load_bind _ _ _ _ (proj2 Hl)). cbn [json_size].
  rewrite (proj2 (Z.leb_gt _ _)), Nat2Z.id by lia. by apply assign_ok.
Qed.

(** The checks in front of an addition below an existing value. *)
Lemma add_parent p t d r v w :
  located p d r v ->
  operation_add (p ++ [t]) w d =
    match v with
    | Jnull | Jobject _ => (this ← index_key r t; assign this w) d
    | Jarray vs =>
        if decide (t = [cMINUS]) then push_back r w d
        else (idx ← lift (array_index t);
              if json_size v <? idx then fail (out_of_range 401 (index_message idx)) else insert r idx w) d
    | _ => Fault AssertFailed
    end.
Proof.
  intros Hl. unfold operation_add. rewrite decide_False by (destruct p; intros [=]).
  assert (exists top, pointer_top (p ++ [t]) = Ok top /\
    ((if decide (top = p ++ [t]) then mret tt else get_checked top [];; mret tt) : M (json F) unit) d = Ok (tt, d)) as (top & Ht & Hc).
  { destruct p as [|x p].
    - exists [t]. split; [done|]. by rewrite decide_True.
    - exists [x]. split; [done|]. rewrite decide_False by (destruct p; intros [=]).
      destruct Hl as [Hr _]. assert (exists s, resolve [x] d = Some s) as [s Hs].
      { revert Hr. cbn. destruct d; try done.
        - destruct (obj_get x ms); [|done]. cbn. eauto.
        - case_decide; [done|]. destruct (array_index x); [|done]. destruct (vs !! _); [|done]. cbn. eauto. }
      by rewrite (bind_ok _ _ _ _ _ (get_checked_ok _ _ _ Hs)). }
  rewrite (lift_bind _ _ _ _ Ht), (bind_ok _ _ _ _ _ Hc). unfold pointer_back. rewrite last_snoc.
  rewrite (lift_bind _ _ _ _ eq_refl), (lift_bind _ _ _ _ (pop_back_snoc _ _)).
  rewrite (bind_ok _ _ _ _ _ (get_checked_located _ _ _ _ Hl)), (load_bind _ _ _ _ (proj2 Hl)).
  destruct v; try done. destruct (decide (t = [cMINUS])); reflexivity.
Qed.

(** [parent[k] = w] *)
Lemma index_key_assign r d ms k w d' :
  keys_ascending ms.*1 = true ->
  get_at r d = Some (Jobject ms) -> set_at r (Jobject (obj_put k w ms)) d = Some d' ->
  (this ← index_key r k; assign this w) d = Ok (tt, d').
Proof.
  intros Ha Hg Hs. destruct (set_at_Some r (Jobject (obj_index k ms)) d _ Hg) as [d1 Hd1].
  assert (index_key r k d = Ok (r ++ [AtKey k], d1)) as Hi.
  { unfold index_key. rewrite (load_bind _ _ _ _ Hg). cbn [is_null].
    rewrite (bind_ok _ _ _ _ _ eq_refl), (load_bind _ _ _ _ Hg). by rewrite (assign_bind _ _ _ _ _ Hd1). }
  rewrite (bind_ok _ _ _ _ _ Hi). apply assign_ok.
  apply (set_at_app r [AtKey k] w d1 (Jobject (obj_index k ms)) d' (get_set_at _ _ _ _ Hd1)).
  exists (Jobject (obj_put k w ms)). split; [|by rewrite (set_set_at _ _ _ _ _ Hd1)].
  cbn. rewrite obj_get_index, decide_True by done. done.
Qed.

Lemma add_key_at p d r ms k w d' :
  keys_ascending ms.*1 = true ->
  located p d r (Jobject ms) -> set_at r (Jobject (obj_put k w ms)) d = Some d' ->
  apply_operation sep dp (add_op (ptr (p ++ [k])) w) d = Ok (tt, d').
Proof.
  intros Ha Hl Hs. rewrite (apply_operation_at _ (str "add") (p ++ [k])) by reflexivity.
  change ((v ← lift (Ok w); operation_add (p ++ [k]) v) d = Ok (tt, d')).
  rewrite (lift_bind _ _ _ _ eq_refl), (add_parent _ _ _ _ _ _ Hl). by apply (index_key_assign _ _ ms); [|apply Hl|].
Qed.

Lemma add_dash_at p d r vs w d' :
  located p d r (Jarray vs) -> Z.of_nat (length vs) < array_max_size -> set_at r (Jarray (vs ++ [w])) d = Some d' ->
  apply_operation sep dp (add_op (ptr (p ++ [[cMINUS]])) w) d = Ok (tt, d').
Proof.
  intros Hl Hmax Hs. rewrite (apply_operation_at _ (str "add") (p ++ [[cMINUS]])) by reflexivity.
  change ((v ← lift (Ok w); operation_add (p ++ [[cMINUS]]) v) d = Ok (tt, d')).
  rewrite (lift_bind _ _ _ _ eq_refl), (add_parent _ _ _ _ _ _ Hl), decide_True by done.
  unfold push_back. rewrite (load_bind _ _ _ _ (proj2 Hl)). cbn [is_null is_array orb negb].
  rewrite (bind_ok _ _ _ _ _ eq_refl), (load_bind _ _ _ _ (proj2 Hl)), (proj2 (Z.leb_gt _ _)) by done. by apply assign_ok.
Qed.

(** ** Arrays *)

(** A sequence of operations that replaces the value at the place [r] by [v]. *)
Definition becomes r ops v d : Prop := exists d', run ops d = Ok (tt, d') /\ set_at r v d = Some d'.

(** [diff] from [v] is right wherever [v] is. *)
Definition diff_ok v : Prop := forall w p d r,
  allocated v -> allocated w -> eqv w w -> located p d r v ->
  exists v', becomes r (diff_ops v w (ptr p)) v' d /\ eqv v' w.

Lemma becomes_nil p r v d : located p d r v -> becomes r [] v d.
Proof. intros [_ Hg]. exists d. split; [done|]. by apply set_at_same. Qed.

Lemma becomes_seq r ops1 ops2 v w d d1 :
  becomes r ops1 v d -> set_at r v d = Some d1 -> becomes r ops2 w d1 -> becomes r (ops1 ++ ops2) w d.
Proof.
  intros (d1' & H1 & Hs1) Hs1' (d2 & H2 & Hs2). simplify_eq. exists d2. split; [by rewrite (run_app _ _ _ _ H1)|].
  by rewrite <- (set_set_at _ _ _ _ _ Hs1).
Qed.

Lemma becomes_app p r ops1 ops2 u v w d :
  located p d r u -> becomes r ops1 v d -> (forall d', located p d' r v -> becomes r ops2 w d') ->
  becomes r (ops1 ++ ops2) w d.
Proof.
  intros Hl H1 H2. destruct (located_set _ _ _ _ v Hl) as (d1 & Hs1 & Hl1).
  apply (becomes_seq _ _ _ _ _ _ _ H1 Hs1). by apply H2.
Qed.

Lemma becomes_one p r op u v d :
  located p d r u -> (forall d', set_at r v d = Some d' -> apply_operation sep dp op d = Ok (tt, d')) ->
  becomes r [op] v d.
Proof.
  intros Hl Hop. destruct (located_set _ _ _ _ v Hl) as (d' & Hs & _). exists d'. split; [|done]. by apply run_one, Hop.
Qed.

Lemma diff_elements_ok vs : Forall diff_ok vs -> forall ws pre p d r,
  Forall allocated vs -> Forall allocated ws -> Forall (fun w => eqv w w) ws ->
  located p d r (Jarray (pre ++ vs)) -> Z.of_nat (length (pre ++ vs)) <= array_max_size ->
  exists xs, Forall2 (fun x w => eqv x w) xs (take (length vs) ws) /\
    becomes r (diff_elements diff_ops (ptr p) (length pre) vs ws) (Jarray (pre ++ xs ++ drop (length ws) vs)) d.
Proof.
  induction 1 as [|v vs Hv Hvs IH]; intros ws pre p d r Hav Haw Hww Hl Hmax.
  { exists []. split; [constructor|]. cbn. rewrite drop_nil. by eapply becomes_nil. }
  destruct ws as [|w ws]; [exists []; split; [constructor|by eapply becomes_nil]|].
  apply Forall_cons in Hav as [Hav Havs], Haw as [Haw Haws], Hww as [Hw Hwws].
  assert (Z.of_nat (length pre) < ULLONG_MAX) as Hlt.
  { unfold array_max_size, ULLONG_MAX in *. rewrite length_app in Hmax. lia. }
  pose proof (located_index p d r _ (length pre) v Hl ltac:(by rewrite list_lookup_middle) Hlt) as Hc.
  destruct (Hv w _ _ _ Hav Haw Hw Hc) as (v' & (d1 & Hr1 & Hs1) & Hvw). rewrite <- index_path_ptr in Hr1.
  apply (located_child_index _ _ _ _ _ _ _ _ Hl) in Hs1.
  destruct (located_set _ _ _ _ (Jarray (pre ++ v' :: vs)) Hl) as (d1' & Hs1' & Hl1). simplify_eq.
  rewrite cons_middle, app_assoc in Hl1.
  destruct (IH ws (pre ++ [v']) p d1 r) as (xs & Hxs & d2 & Hr2 & Hs2); try done.
  { rewrite !length_app in *. cbn [length] in *. lia. }
  exists (v' :: xs). split; [by constructor|]. exists d2. split.
  - cbn [diff_elements]. rewrite (run_app _ _ _ _ Hr1). rewrite length_app in Hr2. cbn [length] in Hr2.
    by rewrite Nat.add_1_r in Hr2.
  - rewrite <- (set_set_at _ _ _ _ _ Hs1), <- Hs2. by rewrite <- (app_assoc pre).
Qed.

Lemma remove_elements_S path i n :
  remove_elements (F := F) path i (S n) = remove_op (index_path path (i + n)) :: remove_elements path i n.
Proof. unfold remove_elements. by rewrite seq_S, foldl_app. Qed.

Lemma remove_elements_ok m : forall base rest p d r,
  length rest = m -> located p d r (Jarray (base ++ rest)) -> Z.of_nat (length (base ++ rest)) <= array_max_size ->
  becomes r (remove_elements (ptr p) (length base) m) (Jarray base) d.
Proof.
  induction m as [|m IH]; intros base rest p d r Hm Hl Hmax.
  { apply nil_length_inv in Hm as ->. rewrite app_nil_r in Hl. by eapply becomes_nil. }
  destruct rest as [|x rest _] using rev_ind; [done|]. rewrite !length_app in *. cbn [length] in *.
  rewrite remove_elements_S.
  apply (becomes_app p r [_] _ _ (Jarray (base ++ rest)) _ _ Hl).
  - apply (becomes_one p _ _ _ _ _ Hl). intros d' Hs. rewrite index_path_ptr.
    assert (Z.of_nat (length base + m) < ULLONG_MAX) by (unfold array_max_size, ULLONG_MAX in *; lia).
    apply (remove_index_at p d r _ _ _ Hl); [rewrite !length_app; cbn [length]; lia|done|].
    replace (length base + m)%nat with (length (base ++ rest)) by (rewrite length_app; lia).
      by rewrite app_assoc, delete_middle, app_nil_r.
  - intros d' Hl'. eapply (IH base rest); try done; [lia|]. rewrite length_app. lia.
Qed.

Lemma add_elements_ok ws : forall vs p d r,
  located p d r (Jarray vs) -> Z.of_nat (length (vs ++ ws)) <= array_max_size ->
  becomes r (add_elements (ptr p) ws) (Jarray (vs ++ ws)) d.
Proof.
  induction ws as [|w ws IH]; intros vs p d r Hl Hmax; [rewrite app_nil_r; by eapply becomes_nil|].
  change (add_elements (ptr p) (w :: ws)) with ([add_op (ptr p ++ str "/-") w] ++ add_elements (ptr p) ws).
  apply (becomes_app p r [_] _ _ (Jarray (vs ++ [w])) _ _ Hl).
  - apply (becomes_one p _ _ _ _ _ Hl). intros d' Hs. rewrite dash_path_ptr. apply (add_dash_at p d r vs); [done| |done].
    rewrite length_app in Hmax. cbn [length] in Hmax. lia.
  - intros d' Hl'. rewrite cons_middle, app_assoc. apply IH; [done|]. by rewrite <- app_assoc.
Qed.

(** Equal values need no operation, values of different types and scalars one. *)
Lemma diff_equal v w p d r : eqv v w -> located p d r v ->
  exists v', becomes r (diff_ops v w (ptr p)) v' d /\ eqv v' w.
Proof.
  intros E Hl. exists v. assert (diff_ops v w (ptr p) = []) as ->; [|by split; [eapply becomes_nil|]].
  destruct v; cbn [diff_ops]; by rewrite E.
Qed.

Lemma diff_replace v w p d r : eqv w w -> located p d r v -> becomes r [replace_op (ptr p) w] w d.
Proof. intros Hw Hl. apply (becomes_one p _ _ _ _ _ Hl). intros d' Hs. by eapply replace_at. Qed.

Lemma Forall2_diag_inv {A} (R : A -> A -> Prop) l : Forall2 R l l -> Forall (fun x => R x x) l.
Proof. induction l as [|x l IH]; intros Hl; [constructor|]. apply Forall2_cons_1 in Hl as [? ?]. constructor; auto. Qed.

Lemma diff_scalar v w path :
  json_eqb v w = false -> is_array v && is_array w = false -> is_object v && is_object w = false ->
  diff_ops v w path = [replace_op path w].
Proof. intros E Ha Ho. destruct v, w; try done; cbn [diff_ops]; by rewrite E. Qed.

Lemma diff_array_ok vs : Forall diff_ok vs -> diff_ok (Jarray vs).
Proof.
  intros Hvs w p d r Hav Haw Hw Hl. destruct (json_eqb (Jarray vs) w) eqn:E; [by apply diff_equal|].
  destruct (is_array w) eqn:Ew; [|rewrite diff_scalar by done; exists w; split; [by apply (diff_replace (Jarray vs))|done]].
  destruct w as [| |ws| | | | | | |]; try done. apply allocated_array in Hav as [Hmax Hav], Haw as [Hmaxw Haw].
  assert (Forall (fun w => eqv w w) ws) as Hww by by apply (Forall2_diag_inv (fun v w => eqv v w)), eqb_array.
  destruct (diff_elements_ok vs Hvs ws [] p d r) as (xs & Hxs & Hb); try done.
  pose proof (Forall2_length _ _ _ Hxs) as Hlen. rewrite length_take in Hlen.
  exists (Jarray (xs ++ drop (length vs) ws)). split.
  - cbn [diff_ops]. rewrite E. cbn [same_type negb].
    apply (becomes_app p r _ _ _ _ _ _ Hl Hb). intros d1 Hl1.
    apply (becomes_app p r _ _ _ (Jarray xs) _ _ Hl1); [|intros d2 Hl2; apply add_elements_ok; [done|rewrite length_app, length_drop; lia]].
    destruct (decide (length vs <= length ws)%nat) as [Hle|Hgt].
    + replace (length vs - length ws)%nat with O by lia. rewrite drop_ge in Hl1 by done.
      rewrite app_nil_r in Hl1. by eapply becomes_nil.
    + replace (length ws) with (length xs) at 1 by lia. eapply (remove_elements_ok _ xs (drop (length ws) vs)); try done.
      * by rewrite length_drop.
      * rewrite length_app, length_drop. lia.
  - apply eqb_array. rewrite <- (take_drop (length vs) ws) at 2. apply Forall2_app; [done|].
    apply Forall_Forall2_diag. by apply Forall_drop.
Qed.

(** ** Objects *)

Abbreviation ascending ms := (keys_ascending (fst <$> ms) = true).

Lemma ascending_NoDup ms : ascending ms -> NoDup ms.*1.
Proof.
  induction ms as [|[k v] ms IH]; [constructor|]. intros [Hlt Ha]%ascending_cons. constructor; [|auto].
  by apply obj_get_None, obj_get_below.
Qed.

Lemma diff_members_ok ns ms :
  allocated (Jobject ns) -> eqv (Jobject ns) (Jobject ns) -> Forall (fun m => diff_ok m.2) ms ->
  forall cur p d r,
  NoDup ms.*1 -> Forall (fun m => allocated m.2) ms -> (forall k v, (k, v) ∈ ms -> obj_get k cur = Some v) ->
  ascending cur -> located p d r (Jobject cur) ->
  exists cur', ascending cur' /\ (forall k, k ∉ ms.*1 -> obj_get k cur' = obj_get k cur) /\
    (forall k, k ∈ ms.*1 -> option_Forall2 (fun v w => eqv v w) (obj_get k cur') (obj_get k ns)) /\
    becomes r (diff_members diff_ops (ptr p) ms ns) (Jobject cur') d.
Proof.
  intros Hns Hnn. induction 1 as [|[k v] ms Hv Hms IH]; intros cur p d r Hnd Hal Hcur Ha Hl.
  { exists cur. split_and!; try done; [intros k Hk; by apply elem_of_nil in Hk|by eapply becomes_nil]. }
  cbn [fmap list_fmap fst snd] in *. apply NoDup_cons in Hnd as [Hk Hnd]. apply Forall_cons in Hal as [Hav Hal].
  pose proof (Hcur k v ltac:(by left)) as Hkv.
  assert (exists cur1, ascending cur1 /\ (forall k', obj_get k' cur1 = if decide (k = k') then obj_get k cur1 else obj_get k' cur) /\
    option_Forall2 (fun v w => eqv v w) (obj_get k cur1) (obj_get k ns) /\
    becomes r (match obj_get k ns with
               | Some w => diff_ops v w (key_path (ptr p) k)
               | None => [remove_op (key_path (ptr p) k)]
               end) (Jobject cur1) d) as (cur1 & Ha1 & Hget & Hrel & Hb).
  { rewrite key_path_ptr. destruct (obj_get k ns) as [w|] eqn:Ew.
    - destruct (Hv w (p ++ [k]) d (r ++ [AtKey k])) as (v' & (d1 & Hr1 & Hs1) & Hvw); try done.
      { by eapply allocated_get. }
      { by destruct (eqb_get ns ns k w Hnn Ew) as (w' & ? & ?); simplify_eq. }
      { by apply (located_key _ _ _ _ _ _ Hl). }
      exists (obj_set k v' cur). split_and!.
      + by rewrite obj_set_keys.
      + intros k'. rewrite !obj_get_set_eq, Hkv. by repeat case_decide.
      + rewrite obj_get_set_eq, Hkv, decide_True by done. by constructor.
      + exists d1. split; [done|]. by eapply located_child_key.
    - exists (obj_erase k cur). split_and!.
      + by apply obj_erase_ascending.
      + intros k'. rewrite !obj_get_erase by done. by repeat case_decide.
      + rewrite obj_get_erase, decide_True by done. constructor.
      + apply (becomes_one p _ _ _ _ _ Hl). intros d' Hs. by eapply remove_key_at. }
  destruct (located_set _ _ _ _ (Jobject cur1) Hl) as (d1 & Hs1 & Hl1).
  destruct (IH cur1 p d1 r) as (cur' & Ha' & Hout & Hin & Hb'); try done.
  { intros k' v' Hk'. rewrite Hget. case_decide; [subst; apply (list_elem_of_fmap_2 fst) in Hk'; done|]. apply Hcur. by right. }
  exists cur'. split_and!; [done| | |by eapply becomes_seq].
  - intros k' [Hne Hk']%not_elem_of_cons. rewrite Hout, Hget by done. by rewrite decide_False.
  - intros k' [->|Hk']%elem_of_cons; [by rewrite Hout|by apply Hin].
Qed.

(** The members that only [ns] has are added. *)
Lemma add_members_ok ms ns : forall cur p d r,
  NoDup ns.*1 -> ascending cur -> located p d r (Jobject cur) ->
  exists cur', ascending cur' /\
    (forall k, obj_get k cur' = match obj_get k ms, obj_get k ns with None, Some w => Some w | _, _ => obj_get k cur end) /\
    becomes r (add_members (ptr p) ms ns) (Jobject cur') d.
Proof.
  induction ns as [|[k w] ns IH]; intros cur p d r Hnd Ha Hl.
  { exists cur. split_and!; [done| |by eapply becomes_nil]. intros k. cbn. by destruct (obj_get k ms). }
  cbn [fmap list_fmap fst add_members] in *. apply NoDup_cons in Hnd as [Hk Hnd].
  assert (forall k', k' ∈ ns.*1 -> k <> k') as Hne by by intros k' Hk' ->.
  destruct (obj_get k ms) as [v|] eqn:Ev; cbn [app].
  - destruct (IH cur p d r) as (cur' & Ha' & Hget & Hb); try done. exists cur'. split_and!; try done.
    intros k'. rewrite Hget. cbn. case_decide as E; [|done]. subst. rewrite Ev. done.
  - destruct (located_set _ _ _ _ (Jobject (obj_put k w cur)) Hl) as (d1 & Hs1 & Hl1).
    destruct (IH (obj_put k w cur) p d1 r) as (cur' & Ha' & Hget & Hb); try done; [by apply obj_put_ascending|].
    exists cur'. split_and!; [done| |].
    + intros k'. rewrite Hget, obj_get_put by done. cbn. destruct (decide (k' = k)) as [->|Hkk].
      * rewrite Ev, decide_True by done. by apply obj_get_None in Hk as ->.
      * by rewrite (decide_False (P := k = k')) by done.
    + eapply (becomes_seq _ [_]); [|exact Hs1|exact Hb]. apply (becomes_one p _ _ _ _ _ Hl). intros d' Hs.
      rewrite key_path_ptr. by apply (add_key_at p d r cur).
Qed.

Lemma diff_object_ok ms : Forall (fun m => diff_ok m.2) ms -> diff_ok (Jobject ms).
Proof.
  intros Hms w p d r Hav Haw Hw Hl. destruct (json_eqb (Jobject ms) w) eqn:E; [by apply diff_equal|].
  destruct (is_object w) eqn:Ew;
    [|rewrite diff_scalar by (try done; by rewrite andb_comm, Ew);
      exists w; split; [by apply (diff_replace (Jobject ms))|done]].
  destruct w as [|ns| | | | | | | |]; try done. apply allocated_object in Hav as [Ha Hav], Haw as Haw'.
  destruct Haw' as [Han _].
  destruct (diff_members_ok ns ms Haw Hw Hms ms p d r) as (cur1 & Ha1 & Hout & Hin & Hb1); try done.
  { by apply ascending_NoDup. }
  { intros k v Hk. clear -Ha Hk. induction ms as [|[k1 v1] ms IH]; [by apply elem_of_nil in Hk|].
    apply ascending_cons in Ha as [Hlt Ha]. cbn. apply elem_of_cons in Hk as [Hk|Hk]; [simplify_eq; by rewrite decide_True|].
    rewrite decide_False; [auto|]. intros ->. apply (list_elem_of_fmap_2 fst) in Hk. cbn in Hk.
    pose proof (proj1 (Forall_forall _ _) Hlt _ Hk) as Hkk. cbn in Hkk. by rewrite key_ltb_irrefl in Hkk. }
  destruct (located_set _ _ _ _ (Jobject cur1) Hl) as (d1 & Hs1 & Hl1).
  destruct (add_members_ok ms ns cur1 p d1 r) as (cur' & Ha' & Hget & Hb2); try done; [by apply ascending_NoDup|].
  exists (Jobject cur'). split.
  - cbn [diff_ops]. rewrite E. cbn [same_type negb]. by eapply becomes_seq.
  - apply eqb_object, (ascending_rel (fun v w => eqv v w)); [done..|]. intros k. rewrite Hget. destruct (obj_get k ms) as [v|] eqn:Ev.
    + by eapply Hin, obj_get_in.
    + apply obj_get_None in Ev. rewrite Hout by done. apply obj_get_None in Ev. rewrite Ev.
      destruct (obj_get k ns) as [w|] eqn:Ew'; constructor.
      by destruct (eqb_get ns ns k w Hw Ew') as (w' & ? & ?); simplify_eq.
Qed.

Lemma diff_scalar_ok v : is_array v = false -> is_object v = false -> diff_ok v.
Proof.
  intros Ha Ho w p d r _ _ Hw Hl. destruct (json_eqb v w) eqn:E; [by apply diff_equal|].
  rewrite diff_scalar by (try done; by rewrite ?Ha, ?Ho). exists w. split; [by eapply diff_replace|done].
Qed.

Lemma diff_all v : diff_ok v.
Proof. induction v using json_ind; first [by apply diff_array_ok | by apply diff_object_ok | by apply diff_scalar_ok]. Qed.

(** [patch] after [diff]. *)
Lemma patch_diff source target :
  allocated source -> allocated target -> eqv target target ->
  exists v, patch sep dp source (diff source target) = Ok v /\ eqv v target.
Proof.
  intros Hs Ht Htt. destruct (diff_all source target [] source [] Hs Ht Htt (located_root _)) as (v & (d' & Hr & Hd) & Hv).
  exists v. split; [|done]. unfold patch, diff, patch_inplace. cbn in Hd. injection Hd as <-.
  change (pointer_to_string []) with (@nil Z) in Hr. by rewrite Hr.
Qed.
End diff.
