(* ===== verification/JsonPatchProps.v ===== *)
(** JsonPatchProps: what JSON pointers, patches, [diff] and [merge_patch] promise. *)

From S2P Require Import Prelude Json JsonLexer JsonParser JsonDump JsonUtf8 JsonDom JsonNumeral JsonDumpInv JsonEscape JsonDumpText JsonParse JsonRound JsonAccess JsonPointer JsonPointerProps JsonPatch JsonAccessProps JsonDiff.

(** ** Errors of a patch *)

(** What [patch] may throw: a malformed patch (104, 105) or pointer (106 to 109), a
    location that does not exist (401 to 405, 410), a failed test (501) with a text
    that is not UTF-8 (316), or an array of the largest size; and the assertion of
    [operation_add]. *)
Definition patch_error (f : fault) : Prop :=
  match f with
  | Thrown id _ => id ∈ [104; 105; 106; 107; 108; 109; 316; 401; 402; 403; 404; 405; 410; 501; 0]
  | AssertFailed => True
  | _ => False
  end.

Ltac patch_err := unfold patch_error; simpl; repeat (rewrite elem_of_cons); tauto.

Section errors.
Context {F : Type} `{NumberFloat F, FloatCompare F} (sep dp : Z).
Implicit Types (v w d : json F) (vs ws : list (json F)) (ms ns : list (list Z * json F)) (k : list Z).

Abbreviation wpe := (wp patch_error).

Lemma wp_load this d v Q : get_at this d = Some v -> Q v d -> wpe (load this) d Q.
Proof. intros Hv HQ. eapply wp_run; [by apply load_ok|done]. Qed.

Lemma wp_assign this d v w Q :
  get_at this d = Some v -> (forall d', set_at this w d = Some d' -> Q tt d') -> wpe (assign this w) d Q.
Proof. intros Hv HQ. destruct (set_at_Some _ w _ _ Hv) as [d' Hd']. eapply wp_run; [by apply assign_ok|auto]. Qed.

Lemma wp_lift {A} (r : res A) d Q :
  match r with Ok a => Q a d | Fault f => patch_error f end -> wpe (lift r) d Q.
Proof. unfold wp, lift. by destruct r. Qed.

Lemma array_index_error s : match array_index s with Ok n => 0 <= n | Fault f => patch_error f end.
Proof.
  destruct (array_index s) as [n|f] eqn:E; [by apply array_index_Some in E as [_ ?]; lia|].
  unfold array_index in E. repeat case_match; simplify_eq; patch_err.
Qed.

Lemma split_error s : match split s with Ok _ => True | Fault f => patch_error f end.
Proof.
  destruct s as [|c s]; [done|]. destruct (decide (c = cSLASH)) as [->|Hc].
  - rewrite split_segments. destruct (mapM decode_token (segments s)); [done|patch_err].
  - cbn [split]. rewrite (proj2 (Z.eqb_neq _ _) Hc). patch_err.
Qed.

(** Run the load of a value that is known. *)
Ltac load_at Hv := apply wp_bind; eapply wp_load; [exact Hv|]; cbv beta iota.

(** Following a pointer that exists or not. *)
Lemma wp_checked_step this token d v Q :
  get_at this d = Some v -> (forall r w, get_at r d = Some w -> Q r d) -> wpe (checked_step this token) d Q.
Proof.
  intros Hv HQ. unfold checked_step. load_at Hv.
  destruct v; try (apply wp_fail; patch_err).
  - unfold at_key. load_at Hv. destruct (obj_get token ms) as [w|] eqn:Ew.
    + apply wp_ret, (HQ _ w). rewrite (get_at_app _ _ _ _ Hv). cbn. by rewrite Ew.
    + apply wp_fail. patch_err.
  - case_decide; [apply wp_fail; patch_err|]. apply wp_bind, wp_lift.
    pose proof (array_index_error token) as Ha. destruct (array_index token) as [i|]; [|done].
    unfold at_index. load_at Hv. case_match eqn:Hi; [|apply wp_fail; patch_err].
    apply wp_ret. destruct (lookup_lt_is_Some_2 vs (Z.to_nat i)) as [w Hw]; [lia|].
    apply (HQ _ w). rewrite (get_at_app _ _ _ _ Hv). cbn. by rewrite Hw.
Qed.

Lemma wp_get_checked p this d v Q :
  get_at this d = Some v -> (forall r w, get_at r d = Some w -> Q r d) -> wpe (get_checked p this) d Q.
Proof.
  unfold get_checked. revert this v; induction p as [|token p IH]; intros this v Hv HQ; [by eapply wp_ret, HQ|].
  cbn [walk]. apply wp_bind. eapply wp_checked_step; [exact Hv|]. intros r w Hw. by eapply IH.
Qed.

Lemma wp_index_key this k d v w (Q : unit -> json F -> Prop) :
  allocated d -> allocated w -> get_at this d = Some v -> is_null v || is_object v = true ->
  (forall d', allocated d' -> Q tt d') -> wpe (this ← index_key this k; assign this w) d Q.
Proof.
  intros Hd Hw Hv Hk HQ. apply wp_bind. unfold index_key. load_at Hv. apply wp_bind.
  assert (forall d1 ms, allocated d1 -> get_at this d1 = Some (Jobject ms) ->
    wpe (v ← load this; match v with
         | Jobject ms => assign this (Jobject (obj_index k ms));; mret (this ++ [AtKey k])
         | _ => fail (type_error 305 (str "cannot use operator[] with a string argument with " ++ type_name v))
         end) d1 (fun this d' => wpe (assign this w) d' Q)) as Hrest.
  { intros d1 ms Hd1 Hg1. load_at Hg1. apply wp_bind.
    eapply wp_assign; [exact Hg1|]. intros d2 Hd2. apply wp_ret.
    assert (allocated (Jobject ms)) as Hms by by eapply allocated_at.
    assert (keys_ascending ms.*1 = true) as Ha by by apply allocated_object in Hms as [? _].
    pose proof (get_set_at _ _ _ _ Hd2) as Hg2.
    assert (get_at (this ++ [AtKey k]) d2 = Some (default Jnull (obj_get k ms))) as Hg3.
    { rewrite (get_at_app _ _ _ _ Hg2). cbn. by rewrite obj_get_index, decide_True. }
    eapply wp_assign; [exact Hg3|]. intros d3 Hd3. apply HQ. eapply allocated_set; [|exact Hw|exact Hd3].
    eapply allocated_set; [exact Hd1| |exact Hd2].
    apply allocated_object. apply allocated_object in Hms as [_ Hms]. split; [by apply obj_index_keys|].
    by apply obj_index_Forall. }
  destruct v as [|ms| | | | | | | |]; try done; cbn [is_null].
  - eapply wp_assign; [exact Hv|]. intros d1 Hd1. eapply Hrest; [|by eapply get_set_at].
    by eapply allocated_set; [exact Hd| |exact Hd1].
  - apply wp_ret. by eapply Hrest.
Qed.

Lemma wp_update this d v w (Q : unit -> json F -> Prop) :
  allocated d -> allocated w -> get_at this d = Some v -> (forall d', allocated d' -> Q tt d') -> wpe (assign this w) d Q.
Proof. intros Hd Hw Hv HQ. eapply wp_assign; [exact Hv|]. intros d' Hd'. by eapply HQ, (allocated_set this d w). Qed.

Lemma wp_operation_add p d w (Q : unit -> json F -> Prop) :
  allocated d -> allocated w -> (forall d', allocated d' -> Q tt d') -> wpe (operation_add p w) d Q.
Proof.
  intros Hd Hw HQ. unfold operation_add. case_decide as Hp; [by eapply wp_update|].
  apply wp_bind, wp_lift. destruct p as [|t p]; [done|]. cbn [pointer_top]. apply wp_bind.
  assert (forall (Q' : unit -> json F -> Prop), Q' tt d ->
    wpe (if decide ([t] = t :: p) then mret tt else get_checked [t] [];; mret tt) d Q') as Htop.
  { intros Q' HQ'. case_decide; [by apply wp_ret|]. apply wp_bind. eapply wp_get_checked; [done|]. intros r v _.
    by apply wp_ret. }
  apply Htop. clear Htop. apply wp_bind, wp_lift. unfold pointer_back. destruct (last (t :: p)) as [l|] eqn:El; [|patch_err].
  apply wp_bind, wp_lift. unfold pointer_pop_back. rewrite decide_False by done.
  apply wp_bind. eapply wp_get_checked; [done|]. intros r v Hv. load_at Hv.
  assert (allocated v) as Hav by by apply (allocated_at r d).
  destruct v as [|ms|vs| | | | | | |]; try (apply wp_fail; done).
  - by eapply wp_index_key.
  - by eapply wp_index_key.
  - apply allocated_array in Hav as [Hm Hvs]. destruct (decide (l = [cMINUS])).
    + unfold push_back. load_at Hv. cbn [is_null is_array orb negb].
      apply wp_bind, wp_ret. load_at Hv. case_match eqn:Hmax; [apply wp_fail; patch_err|].
      eapply wp_update; try done. apply allocated_array. rewrite length_app. cbn [length].
      split; [lia|]. apply Forall_app. auto.
    + apply wp_bind, wp_lift. pose proof (array_index_error l) as Hi. destruct (array_index l) as [i|]; [|done].
      cbn [json_size]. case_match eqn:Hlt; [apply wp_fail; patch_err|]. unfold insert. load_at Hv.
      rewrite Hlt. case_match eqn:Hmax; [apply wp_fail; patch_err|]. eapply wp_update; try done.
      apply allocated_array. rewrite length_app, length_take. cbn [length]. rewrite length_drop.
      split; [lia|]. apply Forall_app. split; [by apply Forall_take|]. constructor; [done|]. by apply Forall_drop.
Qed.

Lemma wp_operation_remove p d (Q : unit -> json F -> Prop) :
  allocated d -> (forall d', allocated d' -> Q tt d') -> wpe (operation_remove p) d Q.
Proof.
  intros Hd HQ. unfold operation_remove. apply wp_bind, wp_lift. unfold pointer_back.
  destruct (last p) as [l|] eqn:El; [|patch_err]. apply wp_bind, wp_lift. unfold pointer_pop_back.
  rewrite decide_False by (by intros ->).
  apply wp_bind. eapply wp_get_checked; [done|]. intros r v Hv. load_at Hv.
  assert (allocated v) as Hav by by apply (allocated_at r d).
  destruct v as [|ms|vs| | | | | | |]; cbn [is_object is_array]; try solve [apply wp_ret; auto].
  - case_match; [|apply wp_fail; patch_err]. unfold erase_key. load_at Hv.
    eapply wp_update; try done. apply allocated_object in Hav as [Ha Hms]. apply allocated_object.
    split; [by apply obj_erase_ascending|by apply obj_erase_Forall].
  - apply wp_bind, wp_lift. pose proof (array_index_error l) as Hi. destruct (array_index l) as [i|]; [|done].
    unfold erase_index. load_at Hv. case_match eqn:Hlt; [apply wp_fail; patch_err|].
    eapply wp_update; try done. apply allocated_array in Hav as [Hm Hvs]. apply allocated_array. split.
    + cbn [json_size] in Hlt. rewrite length_delete by (apply lookup_lt_is_Some_2; lia). lia.
    + by apply Forall_delete.
Qed.

Lemma wp_get_value val op member b d (Q : json F -> json F -> Prop) :
  allocated val -> (forall v, allocated v -> (b = true -> is_string v = true) -> Q v d) ->
  wpe (lift (get_value val op member b)) d Q.
Proof.
  intros Hval HQ. apply wp_lift. unfold get_value. destruct (find_key val member) as [v|] eqn:E; [|patch_err].
  destruct (b && negb (is_string v)) eqn:Eb; [patch_err|]. apply HQ.
  - destruct val; try done. by eapply allocated_get.
  - intros ->. by destruct (is_string v).
Qed.

Lemma wp_get_string (val : json F) op member d (Q : list Z -> json F -> Prop) :
  allocated val -> (forall s, Q s d) -> wpe (lift (get_string_value val op member)) d Q.
Proof.
  intros Hval HQ. pose proof (wp_get_value val op member true d (fun v d => is_string v = true) Hval) as Hw.
  apply wp_lift. unfold get_string_value, wp, lift in *. destruct (get_value val op member true) as [v|f].
  - specialize (Hw ltac:(auto)). cbn in Hw. by destruct v.
  - apply Hw. auto.
Qed.

Lemma wp_at_pointer p d (Q : json F -> json F -> Prop) :
  allocated d -> (forall v, allocated v -> Q v d) -> wpe (at_pointer p) d Q.
Proof.
  intros Hd HQ. unfold at_pointer. apply wp_bind. eapply wp_get_checked; [done|]. intros r v Hv.
  eapply wp_load; [exact Hv|]. by eapply HQ, allocated_at.
Qed.

Lemma wp_test_success val p d (Q : bool -> json F -> Prop) :
  allocated d -> allocated val -> (forall b, Q b d) -> wpe (test_success val p) d Q.
Proof.
  intros Hd Hval HQ. unfold test_success.
  set (m := (v ← at_pointer p; w ← lift (get_value val (str "test") (str "value") false); mret (json_eqb v w)) : M (json F) bool).
  assert (wpe m d (fun _ d' => d' = d)) as Hm.
  { apply wp_bind, wp_at_pointer; [done|]. intros v _. apply wp_bind, wp_get_value; [done|]. intros w _ _. by apply wp_ret. }
  unfold wp in *. destruct (m d) as [[b d']|f]; [by subst|]. by destruct (is_out_of_range f).
Qed.

Lemma wp_apply_operation val d (Q : unit -> json F -> Prop) :
  is_ieee_single_or_double = true -> typed val -> allocated d -> allocated val ->
  (forall d', allocated d' -> Q tt d') -> wpe (apply_operation sep dp val) d Q.
Proof.
  intros Hieee Ht Hd Hval HQ. unfold apply_operation. case_match; [apply wp_fail; patch_err|].
  apply wp_bind, wp_get_string; [done|]. intros op. apply wp_bind, wp_get_string; [done|]. intros path.
  apply wp_bind, wp_lift. pose proof (split_error path) as Hs. destruct (split path) as [p|]; [|done].
  unfold switch_operation. destruct (get_op op).
  - apply wp_bind, wp_get_value; [done|]. intros v Hv _. by apply wp_operation_add.
  - by apply wp_operation_remove.
  - apply wp_bind, wp_get_value; [done|]. intros v Hv _. apply wp_bind. eapply wp_get_checked; [done|].
    intros r w Hw. by eapply wp_update.
  - apply wp_bind, wp_get_string; [done|]. intros from. apply wp_bind, wp_lift.
    pose proof (split_error from) as Hf. destruct (split from) as [q|]; [|done].
    apply wp_bind, wp_at_pointer; [done|]. intros v Hv. apply wp_bind, wp_operation_remove; [done|].
    intros d' Hd'. by apply wp_operation_add.
  - apply wp_bind, wp_get_string; [done|]. intros from. apply wp_bind, wp_lift.
    pose proof (split_error from) as Hf. destruct (split from) as [q|]; [|done].
    apply wp_bind, wp_at_pointer; [done|]. intros v Hv. by apply wp_operation_add.
  - apply wp_bind, wp_test_success; [done..|]. intros [|]; [by apply wp_ret, HQ|]. apply wp_bind, wp_lift.
    pose proof (json_dump_writes val sep dp (-1) cSPACE false strict Hieee Ht ltac:(lia)) as Hdump.
    unfold dump_default. destruct (json_dump _ _ _ _ _ _ _) as [t|f]; [apply wp_fail; patch_err|].
    destruct Hdump as (_ & _ & what & ->). patch_err.
  - apply wp_fail. patch_err.
Qed.

Lemma wp_patch_inplace p d :
  is_ieee_single_or_double = true -> typed p -> allocated d -> allocated p ->
  wpe (patch_inplace sep dp p) d (fun _ d' => allocated d').
Proof.
  intros Hieee Ht Hd Hp. unfold patch_inplace. destruct p as [| |vals| | | | | | |]; try (apply wp_fail; patch_err).
  apply typed_array in Ht. apply allocated_array in Hp as [_ Hp].
  revert d Hd; induction vals as [|val vals IH]; intros d Hd; cbn [apply_operations]; [by apply wp_ret|].
  apply Forall_cons in Ht as [Ht Hts], Hp as [Hp Hps]. apply wp_bind, wp_apply_operation; auto.
Qed.
End errors.

(** ** [merge_patch] *)

Section merge.
Context {F : Type} `{NumberFloat F, FloatCompare F}.
Implicit Types (v w p : json F) (ms ps : list (list Z * json F)) (k : list Z).

(** What a member of the patch makes of the member of the same key. *)
Definition merged p (v : option (json F)) : option (json F) :=
  if is_null p then None else Some (merge_patch p (default Jnull v)).

Lemma merge_members_get ps ms k :
  keys_ascending ps.*1 = true -> keys_ascending ms.*1 = true ->
  keys_ascending (merge_members merge_patch ps ms).*1 = true /\
  obj_get k (merge_members merge_patch ps ms) =
    match obj_get k ps with Some p => merged p (obj_get k ms) | None => obj_get k ms end.
Proof.
  revert ms; induction ps as [|[k1 p] ps IH]; intros ms Hp Hm; [done|].
  apply ascending_cons in Hp as [Hlt Hp]. cbn [merge_members].
  assert (obj_get k1 ps = None) as Hk1 by by apply obj_get_below.
  set (ms1 := if is_null p then _ else _).
  assert (keys_ascending ms1.*1 = true /\ forall k', obj_get k' ms1 = if decide (k1 = k') then merged p (obj_get k1 ms) else obj_get k' ms)
    as [Hm1 Hg1].
  { unfold ms1, merged. destruct (is_null p).
    - split; [by apply obj_erase_ascending|]. intros k'. by rewrite obj_get_erase.
    - rewrite obj_get_index, decide_True by done. cbn [default]. split; [by apply obj_put_ascending|].
      intros k'. by apply (obj_get_put k1 k' _ ms). }
  destruct (IH ms1 Hp Hm1) as [H1 H2]. split; [done|]. rewrite H2. cbn [obj_get]. rewrite Hg1.
  destruct (decide (k = k1)) as [->|Hne]; [by rewrite Hk1, decide_True|]. by rewrite (decide_False (P := k1 = k)) by done.
Qed.

Lemma merge_object ps v :
  exists ms, merge_patch (Jobject ps) v = Jobject (merge_members merge_patch ps ms) /\
    (v = Jobject ms \/ is_object v = false /\ ms = []).
Proof. destruct v as [|ms| | | | | | | |]; [exists []; auto|exists ms; auto|exists []; auto..]. Qed.

Lemma merge_patch_twice p v : allocated p -> allocated v -> merge_patch p (merge_patch p v) = merge_patch p v.
Proof.
  revert v. induction p as [|ps IH|vs _|s|b|n|n|x|bs t|] using json_ind; intros v Hp Hv; try done.
  destruct (merge_object ps v) as (ms & -> & Hms).
  assert (keys_ascending ms.*1 = true) as Ha.
  { destruct Hms as [->|[_ ->]]; [by apply allocated_object in Hv as [? _]|done]. }
  assert (forall k, allocated (default Jnull (obj_get k ms))) as Hal.
  { intros k. destruct Hms as [->|[_ ->]]; [|done]. destruct (obj_get k ms) eqn:E; [by eapply allocated_get|done]. }
  apply allocated_object in Hp as [Hasc Hps].
  cbn [merge_patch is_object]. f_equal.
  destruct (merge_members_get ps ms [] Hasc Ha) as [Ha1 _].
  apply ascending_ext; [by apply (merge_members_get ps _ [])|done|]. intros k.
  rewrite (proj2 (merge_members_get ps _ k Hasc Ha1)), !(proj2 (merge_members_get ps ms k Hasc Ha)).
  destruct (obj_get k ps) as [q|] eqn:Eq; [|done]. unfold merged. destruct (is_null q); [done|]. cbn [default]. f_equal.
  apply obj_get_elem in Eq. rewrite Forall_forall in IH, Hps. apply (IH _ Eq); [by apply (Hps _ Eq)|done].
Qed.
End merge.

(** ** Pointers *)

Lemma decode_token_None s :
  decode_token s = None -> exists a b, s = a ++ cTILDE :: b /\ head b <> Some c0 /\ head b <> Some c1.
Proof.
  induction s as [|c s IH1 IH2] using decode_token_ind; [done|]. cbn. destruct (c =? cTILDE) eqn:E.
  - assert (c = cTILDE) as -> by lia. destruct s as [|d s]; [by exists [], []|].
    destruct (d =? c0) eqn:E0; [|destruct (d =? c1) eqn:E1].
    + intros Hn%fmap_None. destruct (IH2 d s eq_refl Hn) as (a & b & -> & Hb). by exists (cTILDE :: d :: a), b.
    + intros Hn%fmap_None. destruct (IH2 d s eq_refl Hn) as (a & b & -> & Hb). by exists (cTILDE :: d :: a), b.
    + intros _. exists [], (d :: s). cbn. split_and!; [done|intros [=]; lia..].
  - intros Hn%fmap_None. destruct (IH1 Hn) as (a & b & -> & Hb). by exists (c :: a), b.
Qed.

Lemma segments_elem s x :
  x ∈ segments s -> exists a b, s = a ++ x ++ b /\ (b = [] \/ head b = Some cSLASH).
Proof.
  revert x; induction s as [|c s IH]; intros x; cbn.
  { intros ->%list_elem_of_singleton. exists [], []. auto. }
  destruct (c =? cSLASH) eqn:E.
  - intros [->|Hx]%elem_of_cons.
    + exists [], (c :: s). split; [done|]. right. cbn. f_equal. lia.
    + destruct (IH _ Hx) as (a & b & -> & Hb). by exists (c :: a), b.
  - destruct (segments s) as [|y ys] eqn:Es; [by destruct s; cbn in Es; repeat case_match|].
    intros [->|Hx]%elem_of_cons.
    + destruct ys as [|z ys].
      * exists [], []. rewrite app_nil_r. split; [|by left]. cbn. f_equal.
        pose proof (join_segments s) as Hj. rewrite Es in Hj. unfold join in Hj. cbn in Hj. injection Hj as Hj.
        by rewrite app_nil_r in Hj.
      * pose proof (join_segments s) as Hj. rewrite Es in Hj. unfold join in Hj. cbn in Hj. injection Hj as Hj.
        exists [], (cSLASH :: z ++ concat (cons cSLASH <$> ys)). split; [|by right]. cbn. by rewrite <- Hj.
    + destruct (IH x) as (a & b & -> & Hb); [by right|]. by exists (c :: a), b.
Qed.

(** C19 The text of a JSON pointer and its tokens correspond: reading what [to_string]
    writes gives the same tokens, and a text that is accepted is what [to_string]
    writes for its tokens; a text is refused exactly when it is not empty and does not
    begin with a slash (107), or has a [~] that is not followed by [0] or [1] (108). *)
Theorem json_pointer_roundtrip :
  (forall p, split (pointer_to_string p) = Ok p) /\
  forall s,
    match split s with
    | Ok p => pointer_to_string p = s
    | Fault f =>
        (s <> [] /\ head s <> Some cSLASH /\
           f = parse_error_at 107 1 (str "JSON pointer must be empty or begin with '/' - was: '" ++ s ++ str "'")) \/
        (head s = Some cSLASH /\ f = bad_escape /\
           exists a b, s = a ++ cTILDE :: b /\ head b <> Some c0 /\ head b <> Some c1)
    end.
Proof.
  split; [apply split_pointer_to_string|]. intros s.
  destruct (split s) as [p|f] eqn:E; [by apply pointer_to_string_split|].
  destruct s as [|c s]; [done|]. destruct (decide (c = cSLASH)) as [->|Hc].
  - right. rewrite split_segments in E. destruct (mapM decode_token (segments s)) as [ts|] eqn:Em; [done|].
    injection E as <-. split_and!; [done..|].
    apply mapM_None_1, Exists_exists in Em as (x & Hx & Hn).
    destruct (segments_elem s x Hx) as (a & b & -> & Hb). destruct (decode_token_None x Hn) as (a' & b' & -> & Hb0 & Hb1).
    exists (cSLASH :: a ++ a'), (b' ++ b). split; [cbn; by rewrite <- !app_assoc|].
    destruct b' as [|d b']; [|done]. destruct Hb as [->|Hb]; [done|]. cbn. by rewrite Hb.
  - left. cbn [split] in E. rewrite (proj2 (Z.eqb_neq _ _) Hc) in E. injection E as <-.
    split_and!; [done| |done]. cbn. intros [=]. done.
Qed.

(** A token is an array index exactly when it is the decimal numeral, without sign,
    white space or leading zeros, of a number below the largest [size_type]; other
    tokens are refused with one of the errors 106, 109, 404 and 410. *)
Theorem array_index_exact token :
  (forall n, array_index token = Ok n <-> token = to_string n /\ 0 <= n < 2 ^ 64 - 1) /\
  match array_index token with
  | Ok _ => True
  | Fault f => exists id what, f = Thrown id what /\ id ∈ [106; 109; 404; 410]
  end.
Proof.
  split; [intros n; apply array_index_Some|]. destruct (array_index token) as [n|f] eqn:E; [done|].
  unfold array_index in E. repeat case_match; simplify_eq; eexists _, _; (split; [done|]);
    repeat (rewrite elem_of_cons); tauto.
Qed.

(** ** Patches *)

Section patches.
Context {F : Type} `{NumberFloat F, FloatCompare F}.
Implicit Types (v p : json F).

(** C17 [diff] and [patch] fit together: the patch that [diff] computes from [source] to
    [target] applies to [source] without an error, and the result equals [target] in
    the sense of [operator==], for all values, nested or not, whatever characters their
    keys contain; [target] has to equal itself, that is, contain no NaN. *)
Theorem diff_patch_roundtrip (sep dp : Z) (source target : json F) :
  allocated source -> allocated target -> json_eqb target target = true ->
  exists v, patch sep dp source (diff source target) = Ok v /\ json_eqb v target = true.
Proof. apply patch_diff. Qed.


(** An [add] operation whose location is below an existing value that is neither
    null, an object nor an array fails an assertion of the library. *)
Theorem patch_add_below_scalar_asserts (sep dp : Z) d q token r v w :
  located q d r v -> is_null v = false -> is_structured v = false ->
  patch sep dp d (Jarray [add_op (pointer_to_string (q ++ [token])) w]) = Fault AssertFailed.
Proof.
  intros Hl Hn Hs. unfold patch, patch_inplace. cbn [apply_operations].
  assert (apply_operation sep dp (add_op (pointer_to_string (q ++ [token])) w) d = Fault AssertFailed) as E.
  { rewrite (apply_operation_at sep dp _ (str "add") (q ++ [token])) by reflexivity.
    change ((v ← lift (Ok w); operation_add (q ++ [token]) v) d = Fault AssertFailed).
    rewrite (lift_bind _ _ _ _ eq_refl), (add_parent _ _ _ _ _ _ Hl). by destruct v. }
  unfold mbind, M_bind. by rewrite E.
Qed.

(** C29 [merge_patch] follows RFC 7396: a patch that is not an object replaces the
    value; of an object, a null member removes the member of its key, another member is
    merged into it, and all other members stay.  Applying a patch again changes
    nothing. *)
Theorem merge_patch_exact p v :
  allocated p -> allocated v ->
  (is_object p = false -> merge_patch p v = p) /\
  (forall ps, p = Jobject ps -> exists ms,
     merge_patch p v = Jobject ms /\ keys_ascending ms.*1 = true /\
     forall k, obj_get k ms = match obj_get k ps with Some q => merged q (find_key v k) | None => find_key v k end) /\
  merge_patch p (merge_patch p v) = merge_patch p v.
Proof.
  intros Hp Hv. split_and!; [by destruct p| |by apply merge_patch_twice]. intros ps ->.
  destruct (merge_object ps v) as (ms & -> & Hms). apply allocated_object in Hp as [Hps _].
  assert (keys_ascending ms.*1 = true /\ forall k, find_key v k = obj_get k ms) as [Ha Hf].
  { destruct Hms as [->|[Ho ->]]; [by apply allocated_object in Hv as [? _]|]. split; [done|]. by destruct v. }
  eexists. split; [done|]. split; [by apply (merge_members_get ps ms [])|]. intros k.
  rewrite Hf. by apply merge_members_get.
Qed.
End patches.

(** ** Examples *)

Section examples.
#[local] Existing Instance textual.
#[local] Instance textual_compare : FloatCompare (list Z) :=
  {| float_eqb a b := bool_decide (a = b); float_isnan _ := false; float_of_Z := numeral |}.

Definition before : json (list Z) :=
  Jobject [(str "a", Jarray [Jnumber_unsigned 1; Jnull; Jstring (str "x")]); (str "b/~", Jboolean true)].
Definition after : json (list Z) :=
  Jobject [(str "a", Jarray [Jnumber_unsigned 1; Jnumber_integer (-2)]); (str "c", Jarray [Jnull])].

Example diff_example :
  diff before after =
    Jarray [replace_op (str "/a/1") (Jnumber_integer (-2)); remove_op (str "/a/2"); remove_op (str "/b~1~0");
            add_op (str "/c") (Jarray [Jnull])].
Proof. reflexivity. Qed.

Lemma diff_patch_roundtrip_witness :
  allocated before /\ allocated after /\ json_eqb after after = true /\
  exists v, patch 44 46 before (diff before after) = Ok v /\ json_eqb v after = true.
Proof.
  assert (allocated before /\ allocated after) as [Hb Ha].
  { unfold before, after. split; repeat (first [split | done]). }
  split_and!; [done..|reflexivity|]. by apply diff_patch_roundtrip.
Defined.


Lemma patch_add_below_scalar_asserts_witness :
  patch 44 46 before (Jarray [add_op (str "/b~1~0/x") Jnull]) = Fault AssertFailed.
Proof.
  apply (patch_add_below_scalar_asserts 44 46 before [str "b/~"] (str "x") [AtKey (str "b/~")] (Jboolean true));
    [split; reflexivity|reflexivity..].
Defined.

(** A removal below such a value is ignored instead. *)
Example patch_remove_below_scalar : patch 44 46 before (Jarray [remove_op (str "/b~1~0/x")]) = Ok before.
Proof. reflexivity. Qed.

Lemma merge_patch_exact_witness :
  allocated after /\ allocated before /\
  merge_patch after before = Jobject [(str "a", Jarray [Jnumber_unsigned 1; Jnumber_integer (-2)]);
                                      (str "b/~", Jboolean true); (str "c", Jarray [Jnull])] /\
  merge_patch after (merge_patch after before) = merge_patch after before.
Proof.
  assert (allocated after /\ allocated before) as [Ha Hb].
  { unfold before, after. split; repeat (first [split | done]). }
  split_and!; [done..|reflexivity|]. by apply (merge_patch_exact after before).
Defined.

(** [contains] throws for the empty token at an array, instead of answering no. *)
Example contains_throws :
  faulted (pointer_contains [[]] [] (Jarray (F := list Z) [Jnull])) = Some (unresolved []).
Proof. reflexivity. Qed.

(** An unsigned number beyond the signed range equals a negative number. *)
Example unsigned_equals_integer :
  json_eqb (F := list Z) (Jnumber_unsigned (2 ^ 64 - 1)) (Jnumber_integer (-1)) = true.
Proof. reflexivity. Qed.
End examples.
