(* ===== verification/JsonFlatten.v ===== *)
(** JsonFlatten: [unflatten] undoes [flatten].

    [flatten] lists the leaves of a value under their pointers, in the order of the
    pointers as strings, in which "/a/10" precedes "/a/2"; [unflatten] creates the
    value from the leaves in that order.  [puts] is that creation as a function on
    values, and what it does at a container splits by the first tokens. *)

From S2P Require Import Prelude Json JsonLexer JsonParser JsonUtf8 JsonDom JsonNumeral JsonParse JsonAccess JsonPointer JsonPointerProps JsonAccessProps.

#[local] Arguments to_string : simpl never.

Section flatten.
Context {F : Type}.
Implicit Types (v w x d : json F) (vs : list (json F)) (ms : list (list Z * json F)) (k t : list Z) (p q : json_pointer).

Abbreviation ptr p := (pointer_to_string p).
Abbreviation ascending ms := (keys_ascending (fst <$> ms) = true).

(** ** Leaves *)

(** Empty containers become null, a first key "0" starts an array, and a discarded
    value is refused: these do not come back. *)
Fixpoint flattenable v : Prop :=
  match v with
  | Jobject ms => ms <> [] /\ foldr (fun m P => (m.1 <> [c0] /\ flattenable m.2) /\ P) True ms
  | Jarray vs => vs <> [] /\ foldr (fun v P => flattenable v /\ P) True vs
  | Jdiscarded => False
  | _ => True
  end.

Lemma flattenable_array vs : flattenable (Jarray vs) <-> vs <> [] /\ Forall flattenable vs.
Proof. simpl. by rewrite (foldr_and flattenable). Qed.

Lemma flattenable_object ms :
  flattenable (Jobject ms) <-> ms <> [] /\ Forall (fun m => m.1 <> [c0] /\ flattenable m.2) ms.
Proof. simpl. by rewrite (foldr_and (fun m => m.1 <> [c0] /\ flattenable m.2)). Qed.

(** [t] in front of the pointers. *)
Definition below t (es : list (json_pointer * json F)) : list (json_pointer * json F) :=
  (fun e => (t :: e.1, e.2)) <$> es.

Fixpoint leaves v : list (json_pointer * json F) :=
  match v with
  | Jarray vs =>
      (fix go i vs := match vs with
                      | [] => []
                      | v :: vs => below (to_string i) (leaves v) ++ go (i + 1) vs
                      end) 0 vs
  | Jobject ms =>
      (fix go ms := match ms with [] => [] | (k, v) :: ms => below k (leaves v) ++ go ms end) ms
  | _ => [([], v)]
  end.

Fixpoint element_leaves (i : Z) vs : list (json_pointer * json F) :=
  match vs with [] => [] | v :: vs => below (to_string i) (leaves v) ++ element_leaves (i + 1) vs end.
Fixpoint member_leaves ms : list (json_pointer * json F) :=
  match ms with [] => [] | (k, v) :: ms => below k (leaves v) ++ member_leaves ms end.

Lemma leaves_array vs : leaves (Jarray vs) = element_leaves 0 vs.
Proof. cbn. generalize 0. induction vs as [|v vs IH]; intros i; [done|]. cbn. by rewrite IH. Qed.
Lemma leaves_object ms : leaves (Jobject ms) = member_leaves ms.
Proof. cbn. induction ms as [|[k v] ms IH]; [done|]. cbn. by rewrite IH. Qed.

(** The entries below the token [t], with it removed. *)
Definition child t (e : json_pointer * json F) : option (json_pointer * json F) :=
  match e.1 with t' :: p => if decide (t' = t) then Some (p, e.2) else None | [] => None end.
Abbreviation children t es := (omap (child t) es).

Lemma children_below t es : children t (below t es) = es.
Proof. induction es as [|[p x] es IH]; [done|]. cbn. rewrite decide_True by done. f_equal. exact IH. Qed.

Lemma children_below_ne t t' es : t' <> t -> children t (below t' es) = [].
Proof. intros Hne. induction es as [|[p x] es IH]; [done|]. cbn. by rewrite decide_False. Qed.

Lemma children_members t ms :
  ascending ms -> children t (member_leaves ms) = from_option leaves [] (obj_get t ms).
Proof.
  induction ms as [|[k v] ms IH]; intros Ha; [done|]. apply ascending_cons in Ha as [Hlt Ha].
  cbn [member_leaves obj_get]. rewrite omap_app, IH by done. case_decide as Hk.
  - subst. rewrite children_below, obj_get_below by done. by rewrite app_nil_r.
  - by rewrite children_below_ne.
Qed.

Lemma to_string_inj i j : 0 <= i -> 0 <= j -> to_string i = to_string j -> i = j.
Proof. intros Hi Hj E. rewrite <- (to_string_value i Hi), <- (to_string_value j Hj). by rewrite E. Qed.

Lemma children_elements j i vs :
  0 <= i -> 0 <= j ->
  children (to_string j) (element_leaves i vs) =
    if i <=? j then from_option leaves [] (vs !! Z.to_nat (j - i)) else [].
Proof.
  revert i; induction vs as [|v vs IH]; intros i Hi Hj; [by destruct (i <=? j)|].
  cbn [element_leaves]. rewrite omap_app, IH by lia. destruct (decide (i = j)) as [->|Hne].
  - rewrite children_below, Z.leb_refl, Z.sub_diag, (proj2 (Z.leb_gt (j + 1) j)) by lia. cbn. by rewrite app_nil_r.
  - rewrite children_below_ne by (by intros ?%to_string_inj). cbn [app].
    destruct (Z.leb_spec (i + 1) j), (Z.leb_spec i j); try lia; [|done].
    by replace (Z.to_nat (j - i)) with (S (Z.to_nat (j - (i + 1)))) by lia.
Qed.

Lemma leaves_nonempty v : flattenable v -> leaves v <> [].
Proof.
  induction v as [|ms IH|vs IH|s|b|n|n|x|bs st|] using json_ind; intros Hv; try done.
  - apply flattenable_object in Hv as [Hne Hv]. rewrite leaves_object. destruct ms as [|[k v] ms]; [done|].
    apply Forall_cons in IH as [IH _], Hv as [[_ Hv] _]. cbn [member_leaves element_leaves]. specialize (IH Hv). intros [E%fmap_nil_inv _]%app_nil. done.
  - apply flattenable_array in Hv as [Hne Hv]. rewrite leaves_array. destruct vs as [|v vs]; [done|].
    apply Forall_cons in IH as [IH _], Hv as [Hv _]. cbn [member_leaves element_leaves]. specialize (IH Hv). intros [E%fmap_nil_inv _]%app_nil. done.
Qed.

(** ** Creation on values *)

Fixpoint put p x v : option (json F) :=
  match p with
  | [] => Some x
  | t :: p =>
      match v with
      | Jnull =>
          y ← put p x Jnull;
          Some (if decide (t = [c0]) then Jarray [y] else Jobject [(t, y)])
      | Jobject ms => y ← put p x (default Jnull (obj_get t ms)); Some (Jobject (obj_put t y ms))
      | Jarray vs =>
          match array_index t with
          | Ok i =>
              if array_max_size <? i + 1 then None
              else
                y ← put p x (default Jnull (vs !! Z.to_nat i));
                Some (Jarray (<[Z.to_nat i := y]> (vs ++ replicate (S (Z.to_nat i) - length vs) Jnull)))
          | Fault _ => None
          end
      | _ => None
      end
  end.

Fixpoint puts (es : list (json_pointer * json F)) v : option (json F) :=
  match es with [] => Some v | (p, x) :: es => v ← put p x v; puts es v end.

(** Members. *)
Lemma puts_object (f : list Z -> json F) es : forall cur,
  ascending cur -> Forall (fun e => e.1 <> []) es ->
  (forall t, puts (children t es) (default Jnull (obj_get t cur)) = Some (f t)) ->
  exists cur', puts es (Jobject cur) = Some (Jobject cur') /\ ascending cur' /\
    forall t, obj_get t cur' = if decide (children t es = []) then obj_get t cur else Some (f t).
Proof.
  induction es as [|[p x] es IH]; intros cur Ha Hes Hf.
  { exists cur. split_and!; [done..|]. intros t. by rewrite decide_True. }
  apply Forall_cons in Hes as [Hp Hes]. destruct p as [|t p]; [done|].
  pose proof (Hf t) as Ht. cbn in Ht. rewrite decide_True in Ht by done. cbn in Ht.
  destruct (put p x (default Jnull (obj_get t cur))) as [y|] eqn:Ey; [|done]. cbn in Ht.
  destruct (IH (obj_put t y cur)) as (cur' & Hc & Ha' & Hg); [by apply obj_put_ascending|done| |].
  { intros t'. rewrite obj_get_put by done. specialize (Hf t'). cbn in Hf. by destruct (decide (t = t')) as [->|Hne]. }
  exists cur'. split_and!; [|done|].
  - cbn [puts put]. rewrite Ey. exact Hc.
  - intros t'. rewrite Hg, obj_get_put by done. cbn. destruct (decide (t = t')) as [->|Hne]; cbn.
    + case_decide as Hn; [|done]. rewrite Hn in Ht. cbn in Ht. by simplify_eq.
    + done.
Qed.

(** Elements: all first tokens are indices below [n]. *)
Lemma puts_array (f : nat -> json F) n es : forall cur,
  Z.of_nat n <= array_max_size -> (length cur <= n)%nat ->
  Forall (fun e => exists i p, (i < n)%nat /\ e.1 = to_string (Z.of_nat i) :: p) es ->
  (forall i, puts (children (to_string (Z.of_nat i)) es) (default Jnull (cur !! i)) = Some (f i)) ->
  exists cur', puts es (Jarray cur) = Some (Jarray cur') /\ (length cur <= length cur' <= n)%nat /\
    (forall i, (i < length cur')%nat -> cur' !! i = Some (f i)) /\
    (forall i, children (to_string (Z.of_nat i)) es <> [] -> (i < length cur')%nat).
Proof.
  intros cur Hmax. revert cur; induction es as [|[p x] es IH]; intros cur Hcur Hes Hf.
  { exists cur. split_and!; try done. intros i Hi. specialize (Hf i). cbn in Hf. injection Hf as Hf. rewrite <- Hf.
    by destruct (lookup_lt_is_Some_2 _ _ Hi) as [v ->]. }
  apply Forall_cons in Hes as [(i & q & Hi & Hp) Hes]. cbn in Hp. subst p.
  assert (0 <= Z.of_nat i < ULLONG_MAX) as Hiu by (unfold array_max_size, ULLONG_MAX in *; lia).
  pose proof (Hf i) as Ht. cbn in Ht. rewrite decide_True in Ht by done. cbn in Ht.
  destruct (put q x (default Jnull (cur !! i))) as [y|] eqn:Ey; [|done]. cbn in Ht.
  set (cur1 := <[i := y]> (cur ++ replicate (S i - length cur) Jnull)).
  assert (length cur1 = length cur `max` S i)%nat as Hl1
    by (unfold cur1; rewrite length_insert, length_app, length_replicate; lia).
  assert (forall j, default Jnull (cur1 !! j) = if decide (i = j) then y else default Jnull (cur !! j)) as Hg1.
  { intros j. unfold cur1. case_decide.
    - subst. rewrite list_lookup_insert_eq by (rewrite length_app, length_replicate; lia). done.
    - rewrite list_lookup_insert_ne by done. destruct (decide (j < length cur)%nat).
      + by rewrite lookup_app_l.
      + rewrite lookup_app_r, (lookup_ge_None_2 cur) by lia.
        destruct (replicate _ Jnull !! (j - length cur)%nat) as [z|] eqn:Ez; [|done]. by apply lookup_replicate in Ez as [-> _]. }
  destruct (IH cur1) as (cur' & Hc & Hl & Hg & Hn); [lia|done| |].
  { intros j. rewrite Hg1. specialize (Hf j). cbn in Hf. destruct (decide (i = j)) as [->|Hne]; [done|].
    rewrite decide_False in Hf; [done|]. intros ?%to_string_inj; lia. }
  exists cur'. split_and!; [|lia|lia|done|].
  - cbn [puts put]. rewrite array_index_to_string, Nat2Z.id by lia.
    rewrite (proj2 (Z.ltb_ge _ _)) by lia. rewrite Ey. exact Hc.
  - intros j Hj. destruct (decide (i = j)) as [->|Hne]; [lia|]. apply Hn. cbn in Hj.
    rewrite decide_False in Hj; [done|]. intros ?%to_string_inj; lia.
Qed.

(** From null, the first entry decides what is created. *)
Lemma puts_Jnull_object t p x es : t <> [c0] -> puts ((t :: p, x) :: es) Jnull = puts ((t :: p, x) :: es) (Jobject []).
Proof.
  intros Ht. cbn. destruct (put p x Jnull); cbn; [|done]. rewrite decide_False by done.
  unfold obj_put. cbn. by rewrite decide_True.
Qed.

Lemma puts_Jnull_array p x es : puts ((to_string 0 :: p, x) :: es) Jnull = puts ((to_string 0 :: p, x) :: es) (Jarray []).
Proof.
  cbn [puts put]. rewrite array_index_to_string by done. rewrite (proj2 (Z.ltb_ge array_max_size (0 + 1))) by done. change (Z.to_nat 0) with O. cbn. destruct (put p x Jnull); cbn; [|done]. by rewrite decide_True.
Qed.

(** ** Order *)

Definition in_order es : Prop := keys_ascending ((fun e : json_pointer * json F => ptr e.1) <$> es) = true.

Lemma in_order_cons e es :
  in_order (e :: es) <-> Forall (fun e' => key_ltb (ptr e.1) (ptr e'.1) = true) es /\ in_order es.
Proof. unfold in_order. cbn [fmap list_fmap]. rewrite keys_ascending_cons. by rewrite Forall_fmap. Qed.

Lemma key_ltb_app a b c : key_ltb (a ++ b) (a ++ c) = key_ltb b c.
Proof. induction a as [|x a IH]; [done|]. cbn. by rewrite Z.ltb_irrefl, Z.eqb_refl. Qed.

Lemma ptr_cons t p : ptr (t :: p) = (cSLASH :: escape t) ++ ptr p.
Proof. rewrite !pointer_to_string_join. done. Qed.

Lemma in_order_children t es : in_order es -> in_order (children t es).
Proof.
  induction es as [|[p x] es IH]; [done|]. intros [Hlt Hes]%in_order_cons. specialize (IH Hes). cbn.
  destruct p as [|t' p]; cbn; [done|]. case_decide as Ht; [|done]. subst. cbn. apply in_order_cons. split; [|done].
  clear -Hlt. induction es as [|[p' x'] es IH]; [constructor|]. apply Forall_cons in Hlt as [Hl Hlt]. cbn.
  destruct p' as [|t' p']; cbn; [by apply IH|]. case_decide; [|by apply IH]. subst. constructor; [|by apply IH].
  cbn [fst] in *. by rewrite !ptr_cons, key_ltb_app in Hl.
Qed.

(** The first entry below an array is below its first element. *)
Lemma first_is_zero i p x es :
  0 <= i -> in_order ((to_string i :: p, x) :: es) -> children (to_string 0) ((to_string i :: p, x) :: es) <> [] -> i = 0.
Proof.
  intros Hi [Hlt _]%in_order_cons Hc. destruct (decide (i = 0)) as [|Hne]; [done|exfalso].
  cbn in Hc. rewrite decide_False in Hc by (intros ?%to_string_inj; lia).
  assert (exists q y, (to_string 0 :: q, y) ∈ es) as (q & y & Hin).
  { clear -Hc. induction es as [|[q y] es IH]; [done|]. cbn in Hc. destruct q as [|t q]; cbn in Hc.
    - destruct (IH Hc) as (q & z & ?). exists q, z. by right.
    - case_decide; [subst; exists q, y; by left|]. destruct (IH Hc) as (q' & z & ?). exists q', z. by right. }
  rewrite Forall_forall in Hlt. specialize (Hlt _ Hin). cbn [fst] in Hlt. rewrite !ptr_cons in Hlt.
  rewrite !escape_to_string in Hlt by lia. change (to_string 0) with [c0] in Hlt.
  destruct (to_string_head i Hi) as (c & ds & E & Hc0).
  pose proof (to_string_digits i Hi) as Hd. rewrite E in *. apply Forall_cons in Hd as [Hd _]. unfold is_digit in Hd.
  cbn in Hlt. destruct (decide (c = c0)) as [->|Hcc]; [by destruct (Hc0 eq_refl)|].
  rewrite (proj2 (Z.ltb_ge c c0)), (proj2 (Z.eqb_neq c c0)) in Hlt by lia. done.
Qed.

(** ** Round trip on the leaves *)

Lemma member_leaves_tokens ms : Forall (fun e => e.1 <> []) (member_leaves ms).
Proof.
  induction ms as [|[k v] ms IH]; [constructor|]. cbn [member_leaves]. apply Forall_app. split; [|done].
  apply Forall_fmap, Forall_true. done.
Qed.

Lemma element_leaves_tokens n i vs :
  i + Z.of_nat (length vs) = Z.of_nat n -> 0 <= i ->
  Forall (fun e => exists i p, (i < n)%nat /\ e.1 = to_string (Z.of_nat i) :: p) (element_leaves i vs).
Proof.
  revert i; induction vs as [|v vs IH]; intros i Hn Hi; [constructor|]. cbn [element_leaves length] in *.
  apply Forall_app. split; [|apply IH; lia]. apply Forall_fmap, Forall_true. intros [p x].
  exists (Z.to_nat i), p. split; [lia|]. by rewrite Z2Nat.id.
Qed.

Lemma puts_leaves v : flattenable v -> allocated v -> forall es, es ≡ₚ leaves v -> in_order es -> puts es Jnull = Some v.
Proof.
  induction v as [|ms IH|vs IH|s|b|n|n|x|bs st|] using json_ind; intros Hf Ha es Hes Ho;
    try (apply Permutation_singleton_r in Hes as ->; done).
  - apply flattenable_object in Hf as [Hne Hf]. apply allocated_object in Ha as [Hasc Ha'].
    rewrite leaves_object in Hes.
    assert (forall t, children t es ≡ₚ from_option leaves [] (obj_get t ms)) as Hch
      by (intros t; by rewrite Hes, children_members).
    destruct (puts_object (fun t => default Jnull (obj_get t ms)) es []) as (cur & Hc & Hcasc & Hget); [done| | |].
    { rewrite Hes. apply member_leaves_tokens. }
    { intros t. cbn [obj_get default]. specialize (Hch t). destruct (obj_get t ms) as [w|] eqn:Ew; cbn in *.
      - apply obj_get_elem in Ew. rewrite Forall_forall in IH, Hf, Ha'.
        apply (IH _ Ew); [by apply (Hf _ Ew)|by apply (Ha' _ Ew)|done|by apply in_order_children].
      - by apply Permutation_nil_r in Hch as ->. }
    assert (cur = ms) as ->.
    { apply ascending_ext; [done..|]. intros t. rewrite Hget. specialize (Hch t).
      destruct (obj_get t ms) as [w|] eqn:Ew; cbn in *; [|by apply Permutation_nil_r in Hch as ->; rewrite decide_True].
      rewrite decide_False; [done|]. intros E. rewrite E in Hch. apply Permutation_nil_l in Hch.
      apply obj_get_elem in Ew. rewrite Forall_forall in Hf. by apply (leaves_nonempty w); [apply (Hf _ Ew)|]. }
    rewrite <- Hc. destruct es as [|[[|t p] x] es].
    { apply Permutation_nil_l in Hes. destruct ms as [|[k v] ms]; [done|]. cbn in Hes.
      apply Forall_cons in Hf as [[_ Hf] _]. by apply eq_sym, app_nil in Hes as [?%fmap_nil_inv%(leaves_nonempty v Hf) _]. }
    { pose proof (member_leaves_tokens ms) as Hm. rewrite <- Hes in Hm. by apply Forall_cons in Hm as [? _]. }
    apply puts_Jnull_object. specialize (Hch t). cbn in Hch. rewrite decide_True in Hch by done. cbn in Hch.
    destruct (obj_get t ms) as [w|] eqn:Ew; [|by apply Permutation_nil_r in Hch].
    apply obj_get_elem in Ew. rewrite Forall_forall in Hf. by apply (Hf _ Ew).
  - apply flattenable_array in Hf as [Hne Hf]. apply allocated_array in Ha as [Hmax Ha'].
    rewrite leaves_array in Hes.
    assert (forall i, children (to_string (Z.of_nat i)) es ≡ₚ from_option leaves [] (vs !! i)) as Hch.
    { intros i. rewrite Hes, children_elements, (proj2 (Z.leb_le _ _)) by lia. by rewrite Z.sub_0_r, Nat2Z.id. }
    destruct (puts_array (fun i => default Jnull (vs !! i)) (length vs) es []) as (cur & Hc & Hl & Hget & Hin);
      [done|cbn; lia| | |].
    { rewrite Hes. apply element_leaves_tokens; lia. }
    { intros i. cbn [lookup list_lookup default]. specialize (Hch i). destruct (vs !! i) as [w|] eqn:Ew; cbn in *.
      - apply (proj1 (Forall_lookup _ _) IH i w Ew); [by eapply Forall_lookup_1 in Hf|by eapply Forall_lookup_1 in Ha'|done|by apply in_order_children].
      - by apply Permutation_nil_r in Hch as ->. }
    assert (forall i, (i < length vs)%nat -> children (to_string (Z.of_nat i)) es <> []) as Hall.
    { intros i [w Hw]%lookup_lt_is_Some_2 E. specialize (Hch i). rewrite Hw, E in Hch. cbn in Hch.
      apply Permutation_nil_l in Hch. apply (leaves_nonempty w); [by eapply Forall_lookup_1 in Hf|done]. }
    assert (cur = vs) as ->.
    { assert (length cur = length vs) as Hlen.
      { destruct vs as [|v vs]; [done|]. specialize (Hin (length vs) (Hall (length vs) ltac:(cbn; lia))). cbn in *. lia. }
      apply list_eq_same_length with (length vs); [done..|]. intros i x y Hi Hx Hy.
      rewrite Hget, Hy in Hx by lia. by injection Hx. }
    rewrite <- Hc. specialize (Hall O). destruct vs as [|v vs]; [done|]. specialize (Hall ltac:(cbn; lia)).
    pose proof (element_leaves_tokens _ 0 (v :: vs) eq_refl ltac:(lia)) as Htok. rewrite <- Hes in Htok.
    destruct es as [|[p x] es]; [done|]. apply Forall_cons in Htok as [(i & q & _ & Hp) _]. cbn in Hp. subst p.
    assert (Z.of_nat i = 0) as -> by (eapply first_is_zero; [lia|done..]). apply puts_Jnull_array.
Qed.

(** ** [flatten] *)

Definition store_leaves q (es : list (json_pointer * json F)) ms : list (list Z * json F) :=
  foldl (fun ms e => obj_put (ptr (q ++ e.1)) e.2 ms) ms es.

Lemma store_leaves_app q es1 es2 ms : store_leaves q (es1 ++ es2) ms = store_leaves q es2 (store_leaves q es1 ms).
Proof. apply foldl_app. Qed.

Lemma store_leaves_below q t es ms : store_leaves q (below t es) ms = store_leaves (q ++ [t]) es ms.
Proof.
  revert ms; induction es as [|[p x] es IH]; intros ms; [done|]. cbn. rewrite <- app_assoc. apply IH.
Qed.

Lemma store_leaves_ascending q es ms : ascending ms -> ascending (store_leaves q es ms).
Proof. revert ms; induction es as [|e es IH]; intros ms Ha; [done|]. by apply IH, obj_put_ascending. Qed.

Lemma set_member_ok k v ms : ascending ms -> set_member k v (Jobject ms) = Ok (tt, Jobject (obj_put k v ms)).
Proof.
  intros Ha. unfold set_member. assert (index_key [] k (Jobject ms) = Ok ([AtKey k], Jobject (obj_index k ms))) as E by done.
  rewrite (bind_ok _ _ _ _ _ E). apply assign_ok. cbn. by rewrite obj_get_index, decide_True.
Qed.

Lemma flatten_into_ok v : flattenable v -> forall q ms, ascending ms ->
  flatten_into (ptr q) v (Jobject ms) = Ok (tt, Jobject (store_leaves q (leaves v) ms)).
Proof.
  induction v as [|ms IH|vs IH|s|b|n|n|x|bs st|] using json_ind; intros Hf q ms0 Ha;
    try (cbn [flatten_into leaves store_leaves foldl fst snd]; rewrite set_member_ok, app_nil_r by done; done).
  - apply flattenable_object in Hf as [Hne Hf]. rewrite leaves_object.
    assert (flatten_into (ptr q) (Jobject ms) = flatten_members flatten_into (ptr q) ms) as -> by by destruct ms.
    clear Hne. revert ms0 Ha; induction ms as [|[k v] ms IHms]; intros ms0 Ha; [done|].
    apply Forall_cons in IH as [Hv IH], Hf as [[_ Hfv] Hf]. cbn [flatten_members member_leaves].
    rewrite store_leaves_app, store_leaves_below.
    assert (ptr q ++ [cSLASH] ++ escape k = ptr (q ++ [k])) as -> by (unfold pointer_to_string; by rewrite foldl_app).
    rewrite (bind_ok _ _ _ _ _ (Hv Hfv _ _ Ha)). by apply IHms, store_leaves_ascending.
  - apply flattenable_array in Hf as [Hne Hf]. rewrite leaves_array.
    assert (flatten_into (ptr q) (Jarray vs) = flatten_elements flatten_into (ptr q) 0 vs) as -> by by destruct vs.
    clear Hne. assert (0 <= 0) as H0 by done. revert H0 ms0 Ha. generalize 0 at 2 3 4 as i.
    induction vs as [|v vs IHvs]; intros i Hi ms0 Ha; [done|].
    apply Forall_cons in IH as [Hv IH], Hf as [Hfv Hf]. cbn [flatten_elements element_leaves].
    rewrite store_leaves_app, store_leaves_below.
    assert (ptr q ++ [cSLASH] ++ to_string i = ptr (q ++ [to_string i])) as ->
      by (unfold pointer_to_string; rewrite foldl_app; cbn [foldl]; by rewrite escape_to_string).
    rewrite (bind_ok _ _ _ _ _ (Hv Hfv _ _ Ha)). apply IHvs; [done|done|lia|by apply store_leaves_ascending].
Qed.

(** The pointers of the leaves are all different. *)
Lemma below_tokens t es e : e ∈ below t es -> exists p, e.1 = t :: p.
Proof. intros (e' & -> & _)%list_elem_of_fmap. by eexists. Qed.

Lemma member_leaves_key ms e : e ∈ member_leaves ms -> exists t p, t ∈ ms.*1 /\ e.1 = t :: p.
Proof.
  induction ms as [|[k v] ms IH]; cbn [member_leaves]; [by intros ?%elem_of_nil|]. intros [He|He]%elem_of_app.
  - apply below_tokens in He as [p ->]. exists k, p. split; [by left|done].
  - destruct (IH He) as (t & p & Ht & ->). exists t, p. split; [by right|done].
Qed.

Lemma element_leaves_index i vs e : 0 <= i -> e ∈ element_leaves i vs -> exists j p, i <= j /\ e.1 = to_string j :: p.
Proof.
  revert i; induction vs as [|v vs IH]; intros i Hi; cbn [element_leaves]; [by intros ?%elem_of_nil|]. intros [He|He]%elem_of_app.
  - apply below_tokens in He as [p ->]. exists i, p. split; [lia|done].
  - destruct (IH (i + 1) ltac:(lia) He) as (j & p & Hj & ->). exists j, p. split; [lia|done].
Qed.

Lemma NoDup_below t es es' :
  NoDup es.*1 -> NoDup es'.*1 -> (forall e p, e ∈ es' -> e.1 <> t :: p) -> NoDup (below t es ++ es').*1.
Proof.
  intros H1 H2 H3. rewrite fmap_app. apply NoDup_app. split_and!; [| |done].
  - unfold below. rewrite <- list_fmap_compose. change (fst ∘ _) with (cons t ∘ fst (A := json_pointer) (B := json F)).
    rewrite (list_fmap_compose fst (cons t)). apply NoDup_fmap_2; [|done]. by intros ? ? [=].
  - intros p Hp (e & -> & He)%list_elem_of_fmap. apply list_elem_of_fmap in Hp as (e' & E & He').
    apply below_tokens in He' as [q Hq]. by apply (H3 e q He (eq_trans E Hq)).
Qed.

Lemma leaves_NoDup v : allocated v -> NoDup (leaves v).*1.
Proof.
  induction v as [|ms IH|vs IH|s|b|n|n|x|bs st|] using json_ind; intros Ha; try (apply NoDup_singleton).
  - apply allocated_object in Ha as [Hasc Ha]. rewrite leaves_object.
    induction ms as [|[k v] ms IHms]; [constructor|]. apply ascending_cons in Hasc as [Hlt Hasc].
    apply Forall_cons in IH as [Hv IH], Ha as [Hav Ha]. apply NoDup_below; [by apply Hv|by apply IHms|].
    intros e p (t & q & Ht & ->)%member_leaves_key [= -> _]. by apply obj_get_below, obj_get_None in Hlt.
  - apply allocated_array in Ha as [_ Ha]. rewrite leaves_array. assert (0 <= 0) as H0 by done. revert H0.
    generalize 0 at 2 3 as i. induction vs as [|v vs IHvs]; intros i Hi; [constructor|].
    apply Forall_cons in IH as [Hv IH], Ha as [Hav Ha]. apply NoDup_below; [by apply Hv|apply IHvs; [done|done|lia]|].
    intros e p (j & q & Hj & ->)%element_leaves_index [= E _]; [|lia]. apply to_string_inj in E; lia.
Qed.
End flatten.
