(* ===== verification/JsonUnflatten.v ===== *)
(** JsonUnflatten: [unflatten] on the leaves of a value, and the round trip. *)

From S2P Require Import Prelude Json JsonLexer JsonParser JsonUtf8 JsonDom JsonNumeral JsonParse JsonAccess JsonPointer JsonPointerProps JsonAccessProps JsonFlatten.

Section unflatten.
Context {F : Type}.
Implicit Types (v w x d : json F) (vs : list (json F)) (ms : list (list Z * json F)) (k t : list Z) (p q : json_pointer).

Abbreviation ptr p := (pointer_to_string p).
Abbreviation ascending ms := (keys_ascending (fst <$> ms) = true).

(** ** Places that are created *)

Lemma index_key_ok this k d v ms :
  get_at this d = Some v -> v = Jobject ms \/ v = Jnull /\ ms = [] ->
  exists d1, index_key this k d = Ok (this ++ [AtKey k], d1) /\ set_at this (Jobject (obj_index k ms)) d = Some d1.
Proof.
  intros Hg Hv. unfold index_key. rewrite (load_bind _ _ _ _ Hg).
  assert (exists d0, ((if is_null v then assign this (Jobject []) else mret tt) : M (json F) unit) d = Ok (tt, d0) /\
    set_at this (Jobject ms) d = Some d0) as (d0 & E0 & Hs0).
  { destruct Hv as [->|[-> ->]]; [exists d; by rewrite (set_at_same _ _ _ Hg)|].
    destruct (set_at_Some this (Jobject []) _ _ Hg) as [d0 Hd0]. exists d0. split; [by apply assign_ok|done]. }
  rewrite (bind_ok _ _ _ _ _ E0), (load_bind _ _ _ _ (get_set_at _ _ _ _ Hs0)).
  destruct (set_at_Some this (Jobject (obj_index k ms)) _ _ (get_set_at _ _ _ _ Hs0)) as [d1 Hd1].
  exists d1. split; [by rewrite (assign_bind _ _ _ _ _ Hd1)|]. by rewrite <- (set_set_at _ _ _ _ _ Hs0).
Qed.

Lemma index_ok this (i : nat) d v vs :
  get_at this d = Some v -> v = Jarray vs \/ v = Jnull /\ vs = [] -> Z.of_nat i < array_max_size ->
  let vs' := vs ++ replicate (S i - length vs) Jnull in
  exists d1, index this (Z.of_nat i) d = Ok (this ++ [AtIndex i], d1) /\ set_at this (Jarray vs') d = Some d1.
Proof.
  intros Hg Hv Hi vs'. unfold index. rewrite (load_bind _ _ _ _ Hg).
  assert (exists d0, ((if is_null v then assign this (Jarray []) else mret tt) : M (json F) unit) d = Ok (tt, d0) /\
    set_at this (Jarray vs) d = Some d0) as (d0 & E0 & Hs0).
  { destruct Hv as [->|[-> ->]]; [exists d; by rewrite (set_at_same _ _ _ Hg)|].
    destruct (set_at_Some this (Jarray []) _ _ Hg) as [d0 Hd0]. exists d0. split; [by apply assign_ok|done]. }
  rewrite (bind_ok _ _ _ _ _ E0), (load_bind _ _ _ _ (get_set_at _ _ _ _ Hs0)).
  destruct (set_at_Some this (Jarray vs') _ _ (get_set_at _ _ _ _ Hs0)) as [d1 Hd1].
  assert (((if Z.of_nat (length vs) <=? Z.of_nat i then
              let size := u64 (Z.of_nat i + 1) in
              if array_max_size <? size then fail length_error
              else assign this (Jarray (take (Z.to_nat size) vs ++ replicate (Z.to_nat size - length vs) Jnull))
            else mret tt) : M (json F) unit) d0 = Ok (tt, d1)) as E1.
  { destruct (Z.of_nat (length vs) <=? Z.of_nat i) eqn:Hle.
    - unfold u64. rewrite uwrap_small by (unfold in_u, array_max_size in *; lia). cbv zeta.
      rewrite (proj2 (Z.ltb_ge _ _)) by lia. replace (Z.to_nat (Z.of_nat i + 1)) with (S i) by lia.
      rewrite take_ge by lia. by apply assign_ok.
    - assert (vs' = vs) as Hvs' by (unfold vs'; replace (S i - length vs)%nat with O by lia; by rewrite app_nil_r).
      rewrite Hvs', (set_at_same _ _ _ (get_set_at _ _ _ _ Hs0)) in Hd1. by injection Hd1 as ->. }
  rewrite (bind_ok _ _ _ _ _ E1), (load_bind _ _ _ _ (get_set_at _ _ _ _ Hd1)).
  assert (i < length vs')%nat as Hl by (unfold vs'; rewrite length_app, length_replicate; lia).
  rewrite (proj2 (Z.ltb_lt _ _)), Nat2Z.id by lia. exists d1. split; [done|].
  by rewrite <- (set_set_at _ _ _ _ _ Hs0).
Qed.

Lemma put_allocated p x v v' : allocated v -> allocated x -> put p x v = Some v' -> allocated v'.
Proof.
  revert v v'; induction p as [|t p IH]; intros v v' Hv Hx; cbn [put]; [by intros [= <-]|]. destruct v; try done.
  - destruct (put p x Jnull) as [y|] eqn:Ey; cbn; [|done]. pose proof (IH Jnull y I Hx Ey) as Hy. intros [= <-].
    case_decide; cbn; [|done]. split; [unfold array_max_size; cbn; lia|done].
  - destruct (put p x _) as [y|] eqn:Ey; cbn; [|done]. intros [= <-]. apply allocated_put; [done|].
    eapply IH; [|done..]. destruct (obj_get t ms) eqn:E; [by eapply allocated_get|done].
  - destruct (array_index t) as [i|] eqn:Ei; [|done]. apply array_index_Some in Ei as [_ Hi]. case_match eqn:Hlt; [done|].
    destruct (put p x _) as [y|] eqn:Ey; cbn; [|done]. intros [= <-]. apply allocated_array in Hv as [Hm Hvs].
    assert (allocated y).
    { eapply IH; [|done..]. destruct (vs !! Z.to_nat i) eqn:E; [by eapply Forall_lookup_1 in Hvs|done]. }
    apply allocated_array. rewrite length_insert, length_app, length_replicate. split; [lia|].
    apply Forall_insert; [|done]. apply Forall_app. split; [done|]. by apply Forall_replicate.
Qed.

(** [get_and_create] and the assignment to the place, as [put]. *)
Lemma create_put p x : forall this d v v',
  allocated v -> get_at this d = Some v -> put p x v = Some v' ->
  exists d', (r ← get_and_create p this; assign r x) d = Ok (tt, d') /\ set_at this v' d = Some d'.
Proof.
  unfold get_and_create. induction p as [|t p IH]; intros this d v v' Ha Hg Hp.
  { injection Hp as <-. destruct (set_at_Some this x _ _ Hg) as [d' Hd']. exists d'. split; [by apply assign_ok|done]. }
  cbn [walk].
  assert (forall s d1 w w' vp (* the place, what it holds and becomes *),
    create_step this t d = Ok (this ++ [s], d1) -> get_at (this ++ [s]) d1 = Some w -> allocated w -> put p x w = Some w' ->
    (forall d', set_at (this ++ [s]) w' d1 = Some d' -> set_at this vp d = Some d') ->
    exists d', (r ← (this ← create_step this t; walk create_step p this); assign r x) d = Ok (tt, d') /\
      set_at this vp d = Some d') as Hstep.
  { intros s d1 w w' vp Hc Hw Haw Hput Hset. destruct (IH _ d1 w w' Haw Hw Hput) as (d' & Hr & Hs).
    exists d'. split; [|by apply Hset]. rewrite <- Hr. unfold mbind at 1 2, M_bind at 1 2. by rewrite Hc. }
  cbn [put] in Hp. destruct v as [|ms|vs| | | | | | |]; try done.
  - destruct (put p x Jnull) as [y|] eqn:Ey; [|done]. cbn in Hp. injection Hp as <-. case_decide as Ht.
    + destruct (index_ok this 0 d Jnull [] Hg ltac:(by right) ltac:(done)) as (d1 & Hi & Hs1). cbn in Hi, Hs1.
      pose proof (get_set_at _ _ _ _ Hs1) as Hg1.
      eapply (Hstep (AtIndex 0) d1 Jnull y); [|by rewrite (get_at_app _ _ _ _ Hg1)|done|done|].
      * unfold create_step. rewrite (load_bind _ _ _ _ Hg), decide_True by done. exact Hi.
      * intros d' Hd'. apply (set_at_app _ _ _ _ _ _ Hg1) in Hd' as (z & Hz & Hd'). cbn in Hz. injection Hz as <-.
        by rewrite <- (set_set_at _ _ _ _ _ Hs1).
    + destruct (index_key_ok this t d Jnull [] Hg ltac:(by right)) as (d1 & Hi & Hs1). cbn in Hs1.
      pose proof (get_set_at _ _ _ _ Hs1) as Hg1.
      eapply (Hstep (AtKey t) d1 Jnull y); [| |done|done|].
      * unfold create_step. rewrite (load_bind _ _ _ _ Hg), decide_False by done. exact Hi.
      * rewrite (get_at_app _ _ _ _ Hg1). cbn. by rewrite decide_True.
      * intros d' Hd'. apply (set_at_app _ _ _ _ _ _ Hg1) in Hd' as (z & Hz & Hd'). cbn in Hz.
        rewrite decide_True in Hz by done. cbn in Hz. rewrite decide_True in Hz by done. injection Hz as <-.
        by rewrite <- (set_set_at _ _ _ _ _ Hs1).
  - destruct (put p x _) as [y|] eqn:Ey; [|done]. cbn in Hp. injection Hp as <-.
    destruct (index_key_ok this t d (Jobject ms) ms Hg ltac:(by left)) as (d1 & Hi & Hs1).
    pose proof (get_set_at _ _ _ _ Hs1) as Hg1. apply allocated_object in Ha as Ha'. destruct Ha' as [Hasc _].
    assert (obj_get t (obj_index t ms) = Some (default Jnull (obj_get t ms))) as Hgi by by rewrite obj_get_index, decide_True.
    eapply (Hstep (AtKey t) d1 _ y); [| | |exact Ey|].
    + unfold create_step. rewrite (load_bind _ _ _ _ Hg). exact Hi.
    + rewrite (get_at_app _ _ _ _ Hg1). cbn. by rewrite Hgi.
    + destruct (obj_get t ms) eqn:E; [by eapply allocated_get|done].
    + intros d' Hd'. apply (set_at_app _ _ _ _ _ _ Hg1) in Hd' as (z & Hz & Hd'). cbn in Hz.
      rewrite Hgi in Hz. cbn in Hz. injection Hz as <-. by rewrite <- (set_set_at _ _ _ _ _ Hs1).
  - destruct (array_index t) as [i|] eqn:Ei; [|done]. case_match eqn:Hlt; [done|].
    destruct (put p x _) as [y|] eqn:Ey; [|done]. cbn in Hp. injection Hp as <-.
    apply array_index_Some in Ei as Hi. destruct Hi as [_ Hi].
    destruct (index_ok this (Z.to_nat i) d (Jarray vs) vs Hg ltac:(by left) ltac:(lia)) as (d1 & Hix & Hs1).
    rewrite Z2Nat.id in Hix by lia. pose proof (get_set_at _ _ _ _ Hs1) as Hg1.
    assert ((vs ++ replicate (S (Z.to_nat i) - length vs) Jnull) !! Z.to_nat i = Some (default Jnull (vs !! Z.to_nat i))) as Hgi.
    { destruct (decide (Z.to_nat i < length vs)%nat) as [Hl|Hl].
      - rewrite lookup_app_l by done. by destruct (lookup_lt_is_Some_2 _ _ Hl) as [z ->].
      - rewrite lookup_app_r, (lookup_ge_None_2 vs) by lia. apply lookup_replicate_2. lia. }
    eapply (Hstep (AtIndex (Z.to_nat i)) d1 _ y); [| | |exact Ey|].
    + unfold create_step. rewrite (load_bind _ _ _ _ Hg), (lift_bind _ _ _ _ Ei). exact Hix.
    + rewrite (get_at_app _ _ _ _ Hg1). cbn. by rewrite Hgi.
    + apply allocated_array in Ha as [_ Ha]. destruct (vs !! Z.to_nat i) eqn:E; [by eapply Forall_lookup_1 in Ha|done].
    + intros d' Hd'. apply (set_at_app _ _ _ _ _ _ Hg1) in Hd' as (z & Hz & Hd'). cbn in Hz.
      rewrite Hgi in Hz. cbn in Hz. injection Hz as <-. by rewrite <- (set_set_at _ _ _ _ _ Hs1).
Qed.

(** The entries of a flattened object. *)
Definition entries (es : list (json_pointer * json F)) : list (list Z * json F) := (fun e => (ptr e.1, e.2)) <$> es.

Lemma unflatten_loop_ok es : forall v v',
  allocated v -> Forall (fun e => allocated e.2 /\ is_primitive e.2 = true) es -> puts es v = Some v' ->
  unflatten_loop (entries es) v = Ok (tt, v').
Proof.
  induction es as [|[p x] es IH]; intros v v' Hv Hes Hp; [by injection Hp as <-|].
  apply Forall_cons in Hes as [[Hx Hpr] Hes]. cbn [puts] in Hp. destruct (put p x v) as [v1|] eqn:E1; [|done]. cbn in Hp.
  cbn [entries fmap list_fmap unflatten_loop fst snd]. cbn [snd] in Hpr. rewrite Hpr. cbn [negb].
  rewrite (lift_bind _ _ _ _ (split_pointer_to_string p)).
  destruct (create_put p x [] v v v1 Hv eq_refl E1) as (d' & Hr & Hs). cbn in Hs. injection Hs as <-.
  apply bind_ok_inv in Hr as (r & v2 & Hr1 & Hr2). rewrite (bind_ok _ _ _ _ _ Hr1), (bind_ok _ _ _ _ _ Hr2).
  apply IH; [|done..]. by apply (put_allocated p x v).
Qed.

(** Storing leaves under new keys. *)
Lemma obj_put_new k x ms : k ∉ ms.*1 -> obj_put k x ms ≡ₚ (k, x) :: ms.
Proof.
  intros Hk. unfold obj_put. induction ms as [|[k1 v1] ms IH]; cbn; [by rewrite decide_True|].
  apply not_elem_of_cons in Hk as [Hne Hk]. destruct (key_ltb k k1) eqn:E1; [|destruct (key_ltb k1 k) eqn:E2].
  - cbn. by rewrite decide_True.
  - cbn. rewrite decide_False, IH by done. by constructor.
  - by destruct Hne; apply key_ltb_antisym.
Qed.

Lemma store_leaves_perm es ms :
  NoDup ((fun e => ptr e.1) <$> es) -> (forall e, e ∈ es -> ptr e.1 ∉ ms.*1) ->
  store_leaves [] es ms ≡ₚ entries es ++ ms.
Proof.
  revert ms; induction es as [|[p x] es IH]; intros ms Hnd Hms; [done|]. cbn [fmap list_fmap fst] in Hnd.
  apply NoDup_cons in Hnd as [Hp Hnd]. change (store_leaves [] es (obj_put (ptr p) x ms) ≡ₚ (ptr p, x) :: entries es ++ ms).
  pose proof (obj_put_new (ptr p) x ms ltac:(apply (Hms (p, x)); by left)) as Hput. rewrite IH; [|done|].
  - rewrite Hput. by rewrite <- Permutation_middle.
  - intros e He. rewrite Hput. cbn. apply not_elem_of_cons. split; [|apply Hms; by right].
    intros E. apply Hp. rewrite <- E. by apply (list_elem_of_fmap_2 (fun e => ptr e.1)).
Qed.

Lemma leaves_primitive v : flattenable v -> allocated v -> Forall (fun e => allocated e.2 /\ is_primitive e.2 = true) (leaves v).
Proof.
  induction v as [|ms IH|vs IH|s|b|n|n|x|bs st|] using json_ind; intros Hf Ha; try (by repeat constructor).
  - apply flattenable_object in Hf as [_ Hf]. apply allocated_object in Ha as [_ Ha]. rewrite leaves_object.
    induction ms as [|[k v] ms IHms]; [constructor|]. apply Forall_cons in IH as [Hv IH], Hf as [[_ Hfv] Hf], Ha as [Hav Ha].
    cbn [member_leaves]. apply Forall_app. split; [apply Forall_fmap; by apply Hv|by apply IHms].
  - apply flattenable_array in Hf as [_ Hf]. apply allocated_array in Ha as [_ Ha]. rewrite leaves_array. generalize 0 as i.
    induction vs as [|v vs IHvs]; intros i; [constructor|]. apply Forall_cons in IH as [Hv IH], Hf as [Hfv Hf], Ha as [Hav Ha].
    cbn [element_leaves]. apply Forall_app. split; [apply Forall_fmap; by apply Hv|by apply IHvs].
Qed.

Lemma ptr_inj p q : ptr p = ptr q -> p = q.
Proof. intros E. pose proof (split_pointer_to_string p) as H. rewrite E, split_pointer_to_string in H. by injection H. Qed.

(** C18 [unflatten] undoes [flatten]: for a value without empty arrays, empty objects
    and members of the key "0", at any depth, both succeed and give the value back,
    although [flatten] orders the leaves by their pointers as strings, where element 10
    of an array precedes element 2. *)
Theorem flatten_unflatten v :
  allocated v -> flattenable v -> exists w, flatten v = Ok w /\ unflatten w = Ok v.
Proof.
  intros Ha Hf. unfold flatten. change (@nil Z) with (ptr []). rewrite flatten_into_ok by done.
  set (ms := store_leaves [] (leaves v) []). eexists. split; [done|]. cbn [unflatten].
  assert (NoDup ((fun e => ptr e.1) <$> leaves v)) as Hnd.
  { change (fun e : json_pointer * json F => ptr e.1) with (pointer_to_string ∘ fst (A := json_pointer) (B := json F)).
    rewrite list_fmap_compose. apply NoDup_fmap_2; [exact ptr_inj|by apply leaves_NoDup]. }
  assert (ms ≡ₚ entries (leaves v)) as Hms.
  { unfold ms. rewrite store_leaves_perm; [by rewrite app_nil_r|done|]. intros e _. apply not_elem_of_nil. }
  destruct (Permutation_map_inv _ _ Hms) as (es & E & Hes). change (ms = entries es) in E. rewrite E.
  rewrite (unflatten_loop_ok es Jnull v); [done|done| |].
  - rewrite <- Hes. by apply leaves_primitive.
  - apply puts_leaves; [done..|]. unfold in_order.
    assert ((fun e => ptr e.1) <$> es = ms.*1) as ->
      by (rewrite E; unfold entries; by rewrite <- list_fmap_compose).
    by apply store_leaves_ascending.
Qed.
End unflatten.

Lemma flatten_unflatten_witness :
  exists w, flatten (Jobject [(str "a", Jarray (F := list Z) (replicate 11 Jnull)); (str "b", Jnumber_unsigned 1)]) = Ok w /\
    unflatten w = Ok (Jobject [(str "a", Jarray (replicate 11 Jnull)); (str "b", Jnumber_unsigned 1)]) /\
    json_size w = 12.
Proof.
  destruct (flatten_unflatten (Jobject [(str "a", Jarray (F := list Z) (replicate 11 Jnull)); (str "b", Jnumber_unsigned 1)]))
    as (w & Hw & Hu).
  - repeat (first [split | done]).
  - repeat (first [split | done]).
  - exists w. split; [exact Hw|]. split; [exact Hu|]. vm_compute in Hw. by injection Hw as <-.
Defined.

(** A member with the key "0" that is created first comes back as an element. *)
Example unflatten_key_zero :
  flatten (Jobject [(str "0", Jboolean (F := list Z) true)]) = Ok (Jobject [(str "/0", Jboolean true)]) /\
  unflatten (Jobject [(str "/0", Jboolean (F := list Z) true)]) = Ok (Jarray [Jboolean true]).
Proof. split; reflexivity. Qed.
