(* ===== verification/JsonBinary.v ===== *)
(** JsonBinary: what the binary formats of json.hpp share: the classes
    [binary_reader] and [binary_writer] without the formats themselves, and the
    conversions between [double], [float] and half precision.

    number_float_t is [double], as its 64-bit representation.  The reader runs over
    an input held in memory, on a little-endian machine; its methods return [true]
    or [false], or, where the code fills a reference parameter, a result or [None] for
    [false], which is what [parse_error] gives in both handlers.  The writer to its output, so each of its methods is the bytes it writes. *)

From S2P Require Import Prelude Json JsonLexer JsonParser JsonAccess.

(** ** Floating-point representations *)

(** [float] to [double], both as their representations; a NaN comes out quiet. *)
Definition widen (f : Z) : Z :=
  let sign := Z.shiftr f 31 in
  let e := Z.land (Z.shiftr f 23) 0xFF in
  let m := Z.land f 0x7FFFFF in
  Z.shiftl sign 63 +
  if e =? 0xFF then (if m =? 0 then 0x7FF0000000000000 else Z.lor 0x7FF8000000000000 (Z.shiftl m 29))
  else if e =? 0 then
    (if m =? 0 then 0 else let k := Z.log2 m in Z.shiftl (k - 149 + 1023) 52 + (Z.shiftl m (52 - k) - 2 ^ 52))
  else Z.shiftl (e - 127 + 1023) 52 + Z.shiftl m 29.

(** [x / 2 ^ n] rounded to nearest, ties to even; exact for [n <= 0]. *)
Definition round_shift (x n : Z) : Z :=
  if n <=? 0 then x * 2 ^ (- n)
  else
    let q := x / 2 ^ n in
    let r := x mod 2 ^ n in
    if (2 ^ (n - 1) <? r) || ((r =? 2 ^ (n - 1)) && Z.odd q) then q + 1 else q.

(** [double] to [float], rounded to nearest. *)
Definition narrow (d : Z) : Z :=
  let sign := Z.shiftr d 63 in
  let e := Z.land (Z.shiftr d 52) 0x7FF in
  let m := Z.land d (2 ^ 52 - 1) in
  Z.shiftl sign 31 +
  if e =? 0x7FF then (if m =? 0 then 0x7F800000 else Z.lor 0x7FC00000 (Z.shiftr m 29))
  else
    let x := if e =? 0 then m else m + 2 ^ 52 in       (* the number is [x * 2 ^ p] *)
    let p := if e =? 0 then -1074 else e - 1075 in
    let f := Z.max (p + Z.log2 x - 23) (-149) in       (* and the [float] [_ * 2 ^ f] *)
    Z.min 0x7F800000 (Z.shiftl (f + 149) 23 + round_shift x (f - p)).

Definition double_isnan (d : Z) : bool :=
  (Z.land (Z.shiftr d 52) 0x7FF =? 0x7FF) && negb (Z.land d (2 ^ 52 - 1) =? 0).
Definition double_isinf (d : Z) : bool := (Z.land d (2 ^ 63 - 1) =? 0x7FF0000000000000).

(** The representations in the order of the numbers; both zeros are 0. *)
Definition double_key (d : Z) : Z := if 2 ^ 63 <=? d then 2 ^ 63 - d else d.
Definition double_leb (a b : Z) : bool := negb (double_isnan a) && negb (double_isnan b) && (double_key a <=? double_key b).
Definition double_eqb (a b : Z) : bool := negb (double_isnan a) && negb (double_isnan b) && (double_key a =? double_key b).

(** [std::numeric_limits<float>::lowest()] and [max()], as [double]s *)
Definition float_lowest : Z := 0xC7EFFFFFE0000000.
Definition float_max : Z := 0x47EFFFFFE0000000.

(** [std::ldexp(m, e)] for an integer [m] below [2 ^ 53] and a result that is normal *)
Definition ldexp (m e : Z) : Z :=
  if m =? 0 then 0 else let k := Z.log2 m in Z.shiftl (k + e + 1023) 52 + (Z.shiftl m (52 - k) - 2 ^ 52).

(** [-val] *)
Definition negate_double (d : Z) : Z := Z.lxor d (2 ^ 63).

(** ** [binary_reader] *)

Inductive input_format_t := format_cbor | format_msgpack | format_ubjson | format_bson | format_bjdata.

Definition format_name (format : input_format_t) : string :=
  match format with
  | format_cbor => "CBOR"
  | format_msgpack => "MessagePack"
  | format_ubjson => "UBJSON"
  | format_bson => "BSON"
  | format_bjdata => "BJData"
  end.

(** [exception_message] *)
Definition binary_message (format : input_format_t) (detail context : list Z) : list Z :=
  str "syntax error while parsing " ++ str (format_name format) ++ str " " ++ context ++ str ": " ++ detail.

(** Case labels: a range of bytes, and bytes of a group that differ in the number of
    bytes that follow, where [2 ^ (c - first)] bytes follow the byte [c]. *)
Definition within (lo c hi : Z) : bool := (lo <=? c) && (c <=? hi).
Definition follow_bytes (first c : Z) : nat := Z.to_nat (2 ^ (c - first)).

Section reader.
Context {S : Type} `{Sax Z S}.

Record binary_reader := Reader {
  r_ia : list Z;                 (* the bytes not yet read *)
  r_current : Z;
  chars_read : Z;
  r_sax : S
}.

Abbreviation BR := (M binary_reader).
Implicit Types (r : binary_reader) (format : input_format_t) (context : list Z) (len : Z).

(** A call of the handler. *)
Definition with_handler {A} (m : M S A) : BR A := fun r =>
  match m (r_sax r) with
  | Ok (a, s) => Ok (a, Reader (r_ia r) (r_current r) (chars_read r) s)
  | Fault f => Fault f
  end.

(** [get] *)
Definition br_get : BR Z := fun r =>
  match r_ia r with
  | [] => Ok (EOF, Reader [] EOF (chars_read r + 1) (r_sax r))
  | c :: s => Ok (c, Reader s c (chars_read r + 1) (r_sax r))
  end.

(** [snprintf("%.2hhX")] *)
Definition hex_byte (c : Z) : list Z := [hex_upper (u8 c / 16); hex_upper (u8 c mod 16)].
Definition br_token_string : BR (list Z) := gets (fun r => hex_byte (r_current r)).

(** [return sax->parse_error(chars_read, token, parse_error::create(id, chars_read, ...))] *)
Definition br_error format (id : Z) (token detail context : list Z) : BR bool :=
  n ← gets chars_read;
  with_handler (sax_parse_error n token (parse_error_at id n (binary_message format detail context))).

Definition unexpect_eof format context : BR bool :=
  c ← gets r_current;
  if c =? EOF then br_error format 110 (str "<end of file>") (str "unexpected end of input") context else mret true.

(** [ia.get_elements] of [n] bytes; fewer at the end of the input *)
Definition get_elements (n : nat) : BR (list Z) := fun r =>
  let bs := take n (r_ia r) in
  Ok (bs, Reader (drop n (r_ia r)) (r_current r) (chars_read r + Z.of_nat (length bs)) (r_sax r)).

(** [None]: the call returns [false]. *)
Definition get_to (n : nat) format context : BR (option (list Z)) :=
  bs ← get_elements n;
  if bool_decide (length bs < n)%nat then
    modify (fun r => Reader (r_ia r) (r_current r) (chars_read r + 1) (r_sax r));;
    br_error format 110 (str "<end of file>") (str "unexpected end of input") context;;
    mret None
  else mret (Some bs).

(** [get_number] of an unsigned type of [n] bytes; the bytes are in network order,
    but for [InputIsLittleEndian] and BJData. *)
Definition get_number (little : bool) (n : nat) format : BR (option Z) :=
  b ← get_to n format (str "number");
  mret (bs ← b; Some (le_val (if little || (if format is format_bjdata then true else false) then bs else rev bs))).

(** [get_number(format, x) && k x] *)
Definition br_and {A} (m : BR (option A)) (k : A -> BR bool) : BR bool :=
  x ← m;
  match x with Some a => k a | None => mret false end.

(** Fuel for a loop whose rounds read a byte each. *)
Definition br_fuel : BR nat := gets (fun r => Datatypes.S (Datatypes.S (length (r_ia r)))).

(** The loop of [get_string] and [get_binary], appending to [result]. *)
Fixpoint get_chars_loop (fuel : nat) format context (i len : Z) (result : list Z) : BR (option (list Z)) :=
  match fuel with
  | O => fail OutOfFuel
  | Datatypes.S fuel =>
      if i <? len then
        br_get;;
        ok ← unexpect_eof format context;
        if negb ok then mret None
        else
          c ← gets r_current;
          get_chars_loop fuel format context (i + 1) len (result ++ [u8 c])
      else mret (Some result)
  end.

Definition br_get_string format len (result : list Z) : BR (option (list Z)) :=
  fuel ← br_fuel; get_chars_loop fuel format (str "string") 0 len result.
Definition br_get_binary format len (result : list Z) : BR (option (list Z)) :=
  fuel ← br_fuel; get_chars_loop fuel format (str "binary") 0 len result.

(** [for (i = 0; i < len; ++i) if (!body) return false;] *)
Fixpoint times_loop (body : BR bool) (fuel : nat) (i len : Z) : BR bool :=
  match fuel with
  | O => fail OutOfFuel
  | Datatypes.S fuel =>
      if i <? len then
        ok ← body;
        if ok : bool then times_loop body fuel (i + 1) len else mret false
      else mret true
  end.
Definition br_times len (body : BR bool) : BR bool := fuel ← br_fuel; times_loop body fuel 0 len.

(** [while (get() != 0xFF) if (!body) return false;] with a result that the rounds
    extend *)
Fixpoint break_loop {A} (body : A -> BR (option A)) (fuel : nat) (a : A) : BR (option A) :=
  match fuel with
  | O => fail OutOfFuel
  | Datatypes.S fuel =>
      c ← br_get;
      if c =? 0xFF then mret (Some a)
      else
        x ← body a;
        match x with Some a => break_loop body fuel a | None => mret None end
  end.
Definition br_until_break {A} (body : A -> BR (option A)) (a : A) : BR (option A) := fuel ← br_fuel; break_loop body fuel a.

(** The same with a body that only succeeds or fails. *)
Definition while_not_break (body : BR bool) : BR bool :=
  x ← br_until_break (fun _ : unit => ok ← body; mret (if ok : bool then Some tt else None)) tt;
  mret (bool_decide (is_Some x)).

(** [sax_parse], with the reader of the format and what gets the next byte *)
Definition br_sax_parse (parse : BR bool) (next : BR Z) format (strict : bool) : BR bool :=
  result ← parse;
  if result && strict then
    next;;
    c ← gets r_current;
    if negb (c =? EOF) then
      token ← br_token_string;
      br_error format 110 token (str "expected end of input; last byte: 0x" ++ token) (str "value")
    else mret result
  else mret result.
End reader.

(** [from_cbor] and the others: the value read, or [discarded] *)
Definition br_from (parse : M (binary_reader (S := dom (F := Z))) bool) (next : M binary_reader Z) (format : input_format_t)
    (strict exceptions : bool) (s : list Z) : res (json Z) :=
  match br_sax_parse parse next format strict (Reader s EOF 0 (dom_init exceptions)) with
  | Ok (result, r) => Ok (if result : bool then root (r_sax r) else Jdiscarded)
  | Fault f => Fault f
  end.

(** ** [binary_writer] *)

(** [write_number] of [n] bytes, in network order unless [little] *)
Definition write_number (little : bool) (n : nat) (x : Z) : list Z := if little then le_bytes n x else rev (le_bytes n x).

(** The choice of [write_compact_float]. *)
Definition fits_float (x : Z) : bool := double_leb float_lowest x && double_leb x float_max && double_eqb (widen (narrow x)) x.

Definition write_compact_float (x : Z) (prefix32 prefix64 : Z) : list Z :=
  if fits_float x then prefix32 :: write_number false 4 (narrow x) else prefix64 :: write_number false 8 x.
