(* ===== verification/JsonCbor.v ===== *)
(** JsonCbor: CBOR (RFC 8949): [parse_cbor_internal] and the functions it calls,
    [write_cbor], [from_cbor], [to_cbor].

    Case labels that differ in the number of bytes of a length or a number are one
    case here: the byte [0x18 + k] of a group is followed by [2 ^ k] bytes. *)

From S2P Require Import Prelude Json JsonLexer JsonParser JsonAccess JsonBinary.

Inductive cbor_tag_handler_t := tag_error | tag_ignore | tag_store.

(** ** The reader *)

Section reader.
Context {S : Type} `{Sax Z S}.
Abbreviation BR := (M (binary_reader (S := S))).
Implicit Types (c : Z) (tag_handler : cbor_tag_handler_t) (len : Z).

Abbreviation cbor_number n := (get_number false n format_cbor).

(** The part [get_cbor_string] and [get_cbor_binary] share: a length in the byte
    [base + _] or after it, then [get_chars] of that many bytes. *)
Definition cbor_chars (base c : Z) (get_chars : Z -> list Z -> BR (option (list Z))) (result : list Z) : BR (option (list Z)) :=
  if within base c (base + 0x17) then get_chars (Z.land c 0x1F) result
  else
    x ← cbor_number (follow_bytes (base + 0x18) c);
    match x with Some len => get_chars len result | None => mret None end.

(** [sax->parse_error] of a call that returns a string, hence [None] *)
Definition length_error_at (detail : string) (context : string) : BR (option (list Z)) :=
  token ← br_token_string;
  br_error format_cbor 113 token (str detail ++ token) (str context);;
  mret None.

(** [get_cbor_string], to the end of [result] *)
Fixpoint get_cbor_string (fuel : nat) (result : list Z) : BR (option (list Z)) :=
  match fuel with
  | O => fail OutOfFuel
  | Datatypes.S fuel =>
      ok ← unexpect_eof format_cbor (str "string");
      if negb ok then mret None
      else
        c ← gets r_current;
        if within 0x60 c 0x7B then cbor_chars 0x60 c (br_get_string format_cbor) result
        else if c =? 0x7F then
          br_until_break (fun result =>
            chunk ← get_cbor_string fuel [];
            mret (chunk ← chunk; Some (result ++ chunk))) result
        else
          length_error_at
            "expected length specification (0x60-0x7B) or indefinite string type (0x7F); last byte: 0x" "string"
  end.

(** [get_cbor_binary] *)
Fixpoint get_cbor_binary (fuel : nat) (result : list Z) : BR (option (list Z)) :=
  match fuel with
  | O => fail OutOfFuel
  | Datatypes.S fuel =>
      ok ← unexpect_eof format_cbor (str "binary");
      if negb ok then mret None
      else
        c ← gets r_current;
        if within 0x40 c 0x5B then cbor_chars 0x40 c (br_get_binary format_cbor) result
        else if c =? 0x5F then
          br_until_break (fun result =>
            chunk ← get_cbor_binary fuel [];
            mret (chunk ← chunk; Some (result ++ chunk))) result
        else
          length_error_at
            "expected length specification (0x40-0x5B) or indefinite binary array type (0x5F); last byte: 0x" "binary"
  end.

Definition cbor_string : BR (option (list Z)) := fuel ← br_fuel; get_cbor_string fuel [].
Definition cbor_binary : BR (option (list Z)) := fuel ← br_fuel; get_cbor_binary fuel [].

(** The value of a half-precision number. *)
Definition half_value (half : Z) : Z :=
  let exp := Z.land (Z.shiftr half 10) 0x1F in
  let mant := Z.land half 0x3FF in
  let val :=
    if exp =? 0 then ldexp mant (-24)
    else if exp =? 31 then (if mant =? 0 then 0x7FF0000000000000 else 0x7FF8000000000000)
    else ldexp (mant + 1024) (exp - 25) in
  if Z.land half 0x8000 =? 0 then val else negate_double val.

(** The case 0xF9. *)
Definition cbor_half : BR bool :=
  byte1 ← br_get;
  ok ← unexpect_eof format_cbor (str "number");
  if negb ok then mret false
  else
    byte2 ← br_get;
    ok ← unexpect_eof format_cbor (str "number");
    if negb ok then mret false
    else with_handler (sax_number_float (half_value (Z.shiftl (u8 byte1) 8 + u8 byte2)) []).

Section value.
(** [parse_cbor_internal] on a smaller input *)
Variable parse_cbor : bool -> BR bool.

Definition get_cbor_array len : BR bool :=
  ok ← with_handler (sax_start_array len);
  if negb ok then mret false
  else
    ok ← (if len =? unknown_size
          then while_not_break (parse_cbor false)
          else br_times len (parse_cbor true));
    if ok : bool then with_handler sax_end_array else mret false.

(** A key, whose first byte was read, and its value. *)
Definition cbor_member : BR bool :=
  br_and cbor_string (fun key =>
    ok ← with_handler (sax_key key);
    if ok : bool then parse_cbor true else mret false).

Definition get_cbor_object len : BR bool :=
  ok ← with_handler (sax_start_object len);
  if negb ok then mret false
  else
    ok ← (if len =? 0 then mret true
          else if len =? unknown_size
          then while_not_break cbor_member
          else br_times len (br_get;; cbor_member));
    if ok : bool then with_handler sax_end_object else mret false.

(** The byte is none that begins a value. *)
Definition cbor_invalid : BR bool :=
  token ← br_token_string;
  br_error format_cbor 112 token (str "invalid byte: 0x" ++ token) (str "value").

(** A tagged item. *)
Definition cbor_tag tag_handler c : BR bool :=
  match tag_handler with
  | tag_error => cbor_invalid
  | tag_ignore =>
      (if within 0xD8 c 0xDB then cbor_number (follow_bytes 0xD8 c);; mret tt else mret tt);;
      parse_cbor true
  | tag_store =>
      if within 0xD8 c 0xDB then
        subtype ← cbor_number (follow_bytes 0xD8 c);
        br_get;;
        (* where the subtype could not be read the input is at its end, and this fails *)
        br_and cbor_binary (fun b => with_handler (sax_binary b (Some (default 0 subtype))))
      else parse_cbor true
  end.

(** The switch of [parse_cbor_internal]. *)
Definition cbor_value tag_handler c : BR bool :=
  if c =? EOF then unexpect_eof format_cbor (str "value")
  else if within 0x00 c 0x17 then with_handler (sax_number_unsigned c)
  else if within 0x18 c 0x1B then
    br_and (cbor_number (follow_bytes 0x18 c)) (fun number => with_handler (sax_number_unsigned number))
  else if within 0x20 c 0x37 then with_handler (sax_number_integer (swrap 8 (0x20 - 1 - c)))
  else if within 0x38 c 0x3B then
    br_and (cbor_number (follow_bytes 0x38 c)) (fun number => with_handler (sax_number_integer (-1 - swrap 64 number)))
  else if within 0x40 c 0x5B || (c =? 0x5F) then br_and cbor_binary (fun b => with_handler (sax_binary b None))
  else if within 0x60 c 0x7B || (c =? 0x7F) then br_and cbor_string (fun s => with_handler (sax_string s))
  else if within 0x80 c 0x97 then get_cbor_array (Z.land c 0x1F)
  else if within 0x98 c 0x9B then br_and (cbor_number (follow_bytes 0x98 c)) get_cbor_array
  else if c =? 0x9F then get_cbor_array unknown_size
  else if within 0xA0 c 0xB7 then get_cbor_object (Z.land c 0x1F)
  else if within 0xB8 c 0xBB then br_and (cbor_number (follow_bytes 0xB8 c)) get_cbor_object
  else if c =? 0xBF then get_cbor_object unknown_size
  else if within 0xC6 c 0xD4 || within 0xD8 c 0xDB then cbor_tag tag_handler c
  else if c =? 0xF4 then with_handler (sax_boolean false)
  else if c =? 0xF5 then with_handler (sax_boolean true)
  else if c =? 0xF6 then with_handler sax_null
  else if c =? 0xF9 then cbor_half
  else if c =? 0xFA then br_and (cbor_number 4) (fun number => with_handler (sax_number_float (widen number) []))
  else if c =? 0xFB then br_and (cbor_number 8) (fun number => with_handler (sax_number_float number []))
  else cbor_invalid.
End value.

Fixpoint parse_cbor_internal (fuel : nat) tag_handler (get_char : bool) : BR bool :=
  match fuel with
  | O => fail OutOfFuel
  | Datatypes.S fuel =>
      c ← (if get_char then br_get else gets r_current);
      cbor_value (parse_cbor_internal fuel tag_handler) tag_handler c
  end.

Definition parse_cbor tag_handler : BR bool := fuel ← br_fuel; parse_cbor_internal fuel tag_handler true.
End reader.

(** [basic_json::from_cbor] *)
Definition from_cbor (strict exceptions : bool) (tag_handler : cbor_tag_handler_t) (s : list Z) : res (json Z) :=
  br_from (parse_cbor tag_handler) br_get format_cbor strict exceptions s.

(** ** The writer *)

(** A number or a length after the major type [base]: in the byte itself, or in the
    1, 2, 4 or 8 bytes after it. *)
Definition write_head (base n : Z) : list Z :=
  if n <=? 0x17 then write_number false 1 (base + n)
  else if n <=? 0xFF then (base + 0x18) :: write_number false 1 n
  else if n <=? 0xFFFF then (base + 0x19) :: write_number false 2 n
  else if n <=? 0xFFFFFFFF then (base + 0x1A) :: write_number false 4 n
  else (base + 0x1B) :: write_number false 8 n.

(** The tag of a subtype. *)
Definition write_subtype (t : Z) : list Z :=
  if t <=? 0xFF then write_number false 1 0xD8 ++ write_number false 1 t
  else if t <=? 0xFFFF then write_number false 1 0xD9 ++ write_number false 2 t
  else if t <=? 0xFFFFFFFF then write_number false 1 0xDA ++ write_number false 4 t
  else write_number false 1 0xDB ++ write_number false 8 t.

Definition write_cbor_string (s : list Z) : list Z := write_head 0x60 (Z.of_nat (length s)) ++ s.

Definition write_cbor_integer (n : Z) : list Z := if 0 <=? n then write_head 0x00 n else write_head 0x20 (-1 - n).

Definition write_cbor_float (x : Z) : list Z :=
  if double_isnan x then [0xF9; 0x7E; 0x00]
  else if double_isinf x then [0xF9; if 0 <? double_key x then 0x7C else 0xFC; 0x00]
  else write_compact_float x 0xFA 0xFB.

Definition write_cbor_binary (b : list Z) (subtype : option Z) : list Z :=
  match subtype with Some t => write_subtype t | None => [] end ++
  write_head 0x40 (Z.of_nat (length b)) ++ b.

Fixpoint write_cbor (j : json Z) : list Z :=
  match j with
  | Jnull => [0xF6]
  | Jboolean b => [if b then 0xF5 else 0xF4]
  | Jnumber_integer n => write_cbor_integer n
  | Jnumber_unsigned n => write_head 0x00 n
  | Jnumber_float x => write_cbor_float x
  | Jstring s => write_cbor_string s
  | Jarray vs => write_head 0x80 (Z.of_nat (length vs)) ++ concat (map write_cbor vs)
  | Jbinary b subtype => write_cbor_binary b subtype
  | Jobject ms =>
      write_head 0xA0 (Z.of_nat (length ms)) ++ concat (map (fun m => write_cbor_string m.1 ++ write_cbor m.2) ms)
  | Jdiscarded => []
  end.

(** [basic_json::to_cbor] *)
Definition to_cbor (j : json Z) : list Z := write_cbor j.

(** ** Examples *)

Example cbor_read :
  from_cbor true true tag_error [0x83; 0x01; 0x20; 0xA1; 0x61; 0x61; 0xF9; 0x3C; 0x00] =
    Ok (Jarray [Jnumber_unsigned 1; Jnumber_integer (-1); Jobject [(str "a", Jnumber_float 0x3FF0000000000000)]]).
Proof. reflexivity. Qed.
