(* ===== verification/JsonMsgpack.v ===== *)
(** JsonMsgpack: MessagePack: [parse_msgpack_internal] and the functions it calls,
    [write_msgpack], [from_msgpack], [to_msgpack].

    Case labels that differ in the number of bytes of a length or a number are one
    case here, as in JsonCbor.v. *)

From S2P Require Import Prelude Json JsonLexer JsonParser JsonAccess JsonBinary.

(** ** The reader *)

Section reader.
Context {S : Type} `{Sax Z S}.
Abbreviation BR := (M (binary_reader (S := S))).
Implicit Types (c : Z) (len : Z).

Abbreviation msgpack_number n := (get_number false n format_msgpack).

(** A number after its byte, then what is read of that length. *)
Definition then_read {A} (n : nat) (k : Z -> BR (option A)) : BR (option A) :=
  x ← msgpack_number n;
  match x with Some x => k x | None => mret None end.

Definition get_msgpack_string : BR (option (list Z)) :=
  ok ← unexpect_eof format_msgpack (str "string");
  if negb ok then mret None
  else
    c ← gets r_current;
    if within 0xA0 c 0xBF then br_get_string format_msgpack (Z.land c 0x1F) []
    else if within 0xD9 c 0xDB then then_read (follow_bytes 0xD9 c) (fun len => br_get_string format_msgpack len [])
    else
      token ← br_token_string;
      br_error format_msgpack 113 token
        (str "expected length specification (0xA0-0xBF, 0xD9-0xDB); last byte: 0x" ++ token) (str "string");;
      mret None.

(** [get_number(format, subtype) && get_binary(format, len, result) &&
    assign_and_return_true(subtype)] *)
Definition get_ext len : BR (option (list Z * option Z)) :=
  then_read 1 (fun subtype =>
    b ← br_get_binary format_msgpack len [];
    mret (b ← b; Some (b, Some (u8 (swrap 8 subtype))))).

Definition get_msgpack_binary : BR (option (list Z * option Z)) :=
  c ← gets r_current;
  if within 0xC4 c 0xC6 then
    then_read (follow_bytes 0xC4 c) (fun len =>
      b ← br_get_binary format_msgpack len [];
      mret (b ← b; Some (b, None)))
  else if within 0xC7 c 0xC9 then then_read (follow_bytes 0xC7 c) get_ext
  else if within 0xD4 c 0xD8 then get_ext (2 ^ (c - 0xD4))
  else mret None.

Section value.
(** [parse_msgpack_internal] on a smaller input *)
Variable parse_msgpack : BR bool.

Definition get_msgpack_array len : BR bool :=
  ok ← with_handler (sax_start_array len);
  if negb ok then mret false
  else
    ok ← br_times len parse_msgpack;
    if ok : bool then with_handler sax_end_array else mret false.

Definition get_msgpack_object len : BR bool :=
  ok ← with_handler (sax_start_object len);
  if negb ok then mret false
  else
    ok ← br_times len (
      br_get;;
      br_and get_msgpack_string (fun key =>
        ok ← with_handler (sax_key key);
        if ok : bool then parse_msgpack else mret false));
    if ok : bool then with_handler sax_end_object else mret false.

(** The switch of [parse_msgpack_internal]. *)
Definition msgpack_value c : BR bool :=
  if c =? EOF then unexpect_eof format_msgpack (str "value")
  else if within 0x00 c 0x7F then with_handler (sax_number_unsigned c)
  else if within 0x80 c 0x8F then get_msgpack_object (Z.land c 0x0F)
  else if within 0x90 c 0x9F then get_msgpack_array (Z.land c 0x0F)
  else if within 0xA0 c 0xBF || within 0xD9 c 0xDB then br_and get_msgpack_string (fun s => with_handler (sax_string s))
  else if c =? 0xC0 then with_handler sax_null
  else if c =? 0xC2 then with_handler (sax_boolean false)
  else if c =? 0xC3 then with_handler (sax_boolean true)
  else if within 0xC4 c 0xC9 || within 0xD4 c 0xD8 then
    br_and get_msgpack_binary (fun b => with_handler (sax_binary b.1 b.2))
  else if c =? 0xCA then br_and (msgpack_number 4) (fun number => with_handler (sax_number_float (widen number) []))
  else if c =? 0xCB then br_and (msgpack_number 8) (fun number => with_handler (sax_number_float number []))
  else if within 0xCC c 0xCF then
    br_and (msgpack_number (follow_bytes 0xCC c)) (fun number => with_handler (sax_number_unsigned number))
  else if within 0xD0 c 0xD3 then
    br_and (msgpack_number (follow_bytes 0xD0 c)) (fun number =>
      with_handler (sax_number_integer (swrap (8 * Z.of_nat (follow_bytes 0xD0 c)) number)))
  else if within 0xDC c 0xDD then br_and (msgpack_number (follow_bytes 0xDB c)) get_msgpack_array
  else if within 0xDE c 0xDF then br_and (msgpack_number (follow_bytes 0xDD c)) get_msgpack_object
  else if within 0xE0 c 0xFF then with_handler (sax_number_integer (swrap 8 c))
  else
    token ← br_token_string;
    br_error format_msgpack 112 token (str "invalid byte: 0x" ++ token) (str "value").
End value.

Fixpoint parse_msgpack_internal (fuel : nat) : BR bool :=
  match fuel with
  | O => fail OutOfFuel
  | Datatypes.S fuel =>
      c ← br_get;
      msgpack_value (parse_msgpack_internal fuel) c
  end.

Definition parse_msgpack : BR bool := fuel ← br_fuel; parse_msgpack_internal fuel.
End reader.

(** [basic_json::from_msgpack] *)
Definition from_msgpack (strict exceptions : bool) (s : list Z) : res (json Z) :=
  br_from parse_msgpack br_get format_msgpack strict exceptions s.

(** ** The writer *)

Definition write_msgpack_unsigned (n : Z) : list Z :=
  if n <? 128 then write_number false 1 n
  else if n <=? 0xFF then 0xCC :: write_number false 1 n
  else if n <=? 0xFFFF then 0xCD :: write_number false 2 n
  else if n <=? 0xFFFFFFFF then 0xCE :: write_number false 4 n
  else 0xCF :: write_number false 8 n.

Definition write_msgpack_negative (n : Z) : list Z :=
  if -32 <=? n then write_number false 1 n
  else if - 2 ^ 7 <=? n then 0xD0 :: write_number false 1 n
  else if - 2 ^ 15 <=? n then 0xD1 :: write_number false 2 n
  else if - 2 ^ 31 <=? n then 0xD2 :: write_number false 4 n
  else 0xD3 :: write_number false 8 n.

(** Where the length does not fit 32 bits, nothing is written for it. *)
Definition write_msgpack_string (s : list Z) : list Z :=
  let N := Z.of_nat (length s) in
  (if N <=? 31 then write_number false 1 (Z.lor 0xA0 N)
   else if N <=? 0xFF then 0xD9 :: write_number false 1 N
   else if N <=? 0xFFFF then 0xDA :: write_number false 2 N
   else if N <=? 0xFFFFFFFF then 0xDB :: write_number false 4 N
   else []) ++ s.

(** The control byte and the number of elements of an array or an object. *)
Definition write_msgpack_length (fix_byte byte16 N : Z) : list Z :=
  if N <=? 15 then write_number false 1 (Z.lor fix_byte N)
  else if N <=? 0xFFFF then byte16 :: write_number false 2 N
  else if N <=? 0xFFFFFFFF then (byte16 + 1) :: write_number false 4 N
  else [].

Definition write_msgpack_binary (b : list Z) (subtype : option Z) : list Z :=
  let N := Z.of_nat (length b) in
  let use_ext := bool_decide (is_Some subtype) in
  (if N <=? 0xFF then
     if use_ext then
       if N =? 1 then [0xD4]
       else if N =? 2 then [0xD5]
       else if N =? 4 then [0xD6]
       else if N =? 8 then [0xD7]
       else if N =? 16 then [0xD8]
       else 0xC7 :: write_number false 1 N
     else 0xC4 :: write_number false 1 N
   else if N <=? 0xFFFF then (if use_ext then 0xC8 else 0xC5) :: write_number false 2 N
   else if N <=? 0xFFFFFFFF then (if use_ext then 0xC9 else 0xC6) :: write_number false 4 N
   else []) ++
  match subtype with Some t => write_number false 1 t | None => [] end ++ b.

Fixpoint write_msgpack (j : json Z) : list Z :=
  match j with
  | Jnull => [0xC0]
  | Jboolean b => [if b then 0xC3 else 0xC2]
  | Jnumber_integer n => if 0 <=? n then write_msgpack_unsigned n else write_msgpack_negative n
  | Jnumber_unsigned n => write_msgpack_unsigned n
  | Jnumber_float x => write_compact_float x 0xCA 0xCB
  | Jstring s => write_msgpack_string s
  | Jarray vs => write_msgpack_length 0x90 0xDC (Z.of_nat (length vs)) ++ concat (map write_msgpack vs)
  | Jbinary b subtype => write_msgpack_binary b subtype
  | Jobject ms =>
      write_msgpack_length 0x80 0xDE (Z.of_nat (length ms)) ++
      concat (map (fun m => write_msgpack_string m.1 ++ write_msgpack m.2) ms)
  | Jdiscarded => []
  end.

(** [basic_json::to_msgpack] *)
Definition to_msgpack (j : json Z) : list Z := write_msgpack j.

(** ** Examples *)

Example msgpack_read :
  from_msgpack true true [0x93; 0x01; 0xFF; 0x81; 0xA1; 0x61; 0xD1; 0xFF; 0x00] =
    Ok (Jarray [Jnumber_unsigned 1; Jnumber_integer (-1); Jobject [(str "a", Jnumber_integer (-256))]]).
Proof. reflexivity. Qed.

(** The subtype is written in eight bits. *)
Example msgpack_subtype_truncated : from_msgpack true true (to_msgpack (Jbinary [7] (Some 257))) = Ok (Jbinary [7] (Some 1)).
Proof. reflexivity. Qed.
