(* ===== verification/JsonBinaryProps.v ===== *)
(** JsonBinaryProps: the conversions between [double] and [float], and what the
    methods of [binary_reader] do on an input that goes on long enough. *)

From S2P Require Import Prelude Json JsonLexer JsonParser JsonDump JsonUtf8 JsonDom JsonTotal JsonParse JsonRead JsonBuild JsonRound JsonAccess JsonBinary.

(** Whether a byte is in a range. *)
Ltac in_range :=
  unfold within;
  repeat match goal with
  | |- context[?a <=? ?b] => first
      [ rewrite (proj2 (Z.leb_le a b)) by lia | rewrite (proj2 (Z.leb_gt a b)) by lia ]
  | |- context[?a =? ?b] => first
      [ rewrite (proj2 (Z.eqb_eq a b)) by lia | rewrite (proj2 (Z.eqb_neq a b)) by lia ]
  end; cbn [andb orb negb].

(** A bound on a number after a given byte. *)
Ltac follow_lia :=
  match goal with
  | |- context[follow_bytes ?a ?b] => let x := eval vm_compute in (follow_bytes a b) in change (follow_bytes a b) with x
  end; simpl; lia.

(** ** Representations *)

Lemma sign_bit w k z : 0 <= k -> w = k + 1 -> in_u w z -> Z.shiftr z k = if 2 ^ k <=? z then 1 else 0.
Proof.
  intros Hk Hw [H0 H1]. replace k with (w - 1) in * by lia. rewrite Z.shiftr_div_pow2 by lia. assert (2 ^ w = 2 * 2 ^ (w - 1)) as Hp by (rewrite <- Z.pow_succ_r by lia; f_equal; lia).
  pose proof (Z.pow_pos_nonneg 2 (w - 1) ltac:(lia) ltac:(lia)). destruct (Z.leb_spec (2 ^ (w - 1)) z).
  - symmetry. apply Z.div_unique with (z - 2 ^ (w - 1)); lia.
  - apply Z.div_small. lia.
Qed.

Lemma land_low base k n mask : 0 <= k -> mask = Z.ones k -> base mod 2 ^ k = 0 -> 0 <= n < 2 ^ k -> Z.land (base + n) mask = n.
Proof.
  intros Hk -> Hb Hn. rewrite Z.land_ones by lia. rewrite Z.add_mod by lia. rewrite Hb, Z.add_0_l, Z.mod_mod by lia.
  by apply Z.mod_small.
Qed.

Lemma land_ones_range x n : 0 <= n -> 0 <= Z.land x (Z.ones n) < 2 ^ n.
Proof. intros Hn. rewrite Z.land_ones by done. apply Z.mod_pos_bound. lia. Qed.

Lemma lor_range w a b : 0 <= w -> in_u w a -> in_u w b -> 0 <= Z.lor a b < 2 ^ w.
Proof. intros Hw Ha Hb. by apply in_u_lor. Qed.

(** A number below [2 ^ w], normalised to [k + 1] binary digits. *)
Lemma normalised_range m k : 0 < m < 2 ^ (k + 1) -> 0 <= k -> 2 ^ k <= Z.shiftl m (k - Z.log2 m) < 2 ^ (k + 1).
Proof.
  intros Hm Hk. assert (Z.log2 m <= k) by (assert (Z.log2 m < k + 1) by (apply Z.log2_lt_pow2; lia); lia).
  pose proof (Z.log2_nonneg m). rewrite Z.shiftl_mul_pow2 by lia. pose proof (Z.log2_spec m ltac:(lia)) as [H1 H2].
  replace (2 ^ k) with (2 ^ Z.log2 m * 2 ^ (k - Z.log2 m)) by (rewrite <- Z.pow_add_r by lia; f_equal; lia).
  replace (2 ^ (k + 1)) with (2 ^ Z.succ (Z.log2 m) * 2 ^ (k - Z.log2 m)) by (rewrite <- Z.pow_add_r by lia; f_equal; lia).
  pose proof (Z.pow_pos_nonneg 2 (k - Z.log2 m) ltac:(lia) ltac:(lia)). split; [nia|]. by apply Z.mul_lt_mono_pos_r.
Qed.

(** The magnitude of a widened [float]. *)
Lemma widen_split f : in_u 32 f -> exists m, widen f = (if 2 ^ 31 <=? f then 2 ^ 63 else 0) + m /\ 0 <= m < 2 ^ 63.
Proof.
  intros Hf. unfold widen. rewrite (sign_bit 32 31 f ltac:(lia) eq_refl Hf).
  set (e := Z.land (Z.shiftr f 23) 0xFF). set (m := Z.land f 0x7FFFFF).
  assert (0 <= e < 2 ^ 8) as He by (apply (land_ones_range _ 8); lia).
  assert (0 <= m < 2 ^ 23) as Hm by (apply (land_ones_range _ 23); lia).
  assert (Z.shiftl (if 2 ^ 31 <=? f then 1 else 0) 63 = if 2 ^ 31 <=? f then 2 ^ 63 else 0) as ->.
  { by destruct (2 ^ 31 <=? f). }
  assert (0 <= Z.shiftl m 29 < 2 ^ 52) as Hs by (rewrite Z.shiftl_mul_pow2 by lia; lia).
  eexists. split; [reflexivity|]. destruct (Z.eqb_spec e 0xFF) as [|He1].
  { destruct (m =? 0); [lia|]. apply lor_range; [lia|unfold in_u; lia|unfold in_u; lia]. }
  destruct (Z.eqb_spec e 0) as [|He0].
  - destruct (Z.eqb_spec m 0); [lia|]. pose proof (normalised_range m 52 ltac:(lia) ltac:(lia)).
    assert (0 <= Z.log2 m <= 22) by (split; [apply Z.log2_nonneg|]; assert (Z.log2 m < 23) by (apply Z.log2_lt_pow2; lia); lia).
    rewrite (Z.shiftl_mul_pow2 (_ + 1023)) by lia. lia.
  - rewrite (Z.shiftl_mul_pow2 (_ + 1023)) by lia. lia.
Qed.

Lemma widen_range f : in_u 32 f -> in_u 64 (widen f).
Proof. intros Hf. destruct (widen_split f Hf) as (m & -> & Hm). unfold in_u. destruct (_ <=? f); lia. Qed.

Lemma round_shift_nonneg x n : 0 <= x -> 0 <= round_shift x n.
Proof.
  intros Hx. unfold round_shift. destruct (Z.leb_spec n 0).
  - pose proof (Z.pow_nonneg 2 (- n)). nia.
  - pose proof (Z.div_pos x (2 ^ n) Hx ltac:(apply Z.pow_pos_nonneg; lia)). destruct (_ || _); lia.
Qed.

(** The magnitude of a narrowed [double]. *)
Lemma narrow_split d : in_u 64 d -> exists m, narrow d = (if 2 ^ 63 <=? d then 2 ^ 31 else 0) + m /\ 0 <= m < 2 ^ 31.
Proof.
  intros Hd. unfold narrow. rewrite (sign_bit 64 63 d ltac:(lia) eq_refl Hd).
  set (e := Z.land (Z.shiftr d 52) 0x7FF). set (m := Z.land d (2 ^ 52 - 1)).
  assert (0 <= e < 2 ^ 11) as He by (apply (land_ones_range _ 11); lia).
  assert (0 <= m < 2 ^ 52) as Hm by (apply (land_ones_range _ 52); lia).
  assert (Z.shiftl (if 2 ^ 63 <=? d then 1 else 0) 31 = if 2 ^ 63 <=? d then 2 ^ 31 else 0) as ->.
  { by destruct (2 ^ 63 <=? d). }
  eexists. split; [reflexivity|]. destruct (e =? 0x7FF).
  { destruct (m =? 0); [lia|]. apply lor_range; [lia|unfold in_u; lia|]. unfold in_u. rewrite Z.shiftr_div_pow2 by lia.
    split; [apply Z.div_pos; lia|]. apply Z.div_lt_upper_bound; lia. }
  cbv zeta. set (p := if e =? 0 then -1074 else e - 1075). set (x := if e =? 0 then m else m + 2 ^ 52).
  assert (0 <= x) as Hx by (unfold x; destruct (e =? 0); lia). set (f := Z.max _ (-149)).
  assert (0 <= Z.shiftl (f + 149) 23) by (apply Z.shiftl_nonneg; lia). pose proof (round_shift_nonneg x (f - p) Hx). lia.
Qed.

Lemma narrow_range d : in_u 64 d -> in_u 32 (narrow d).
Proof. intros Hd. destruct (narrow_split d Hd) as (m & -> & Hm). unfold in_u. destruct (_ <=? d); lia. Qed.

(** A number that is written as a [float] is read back. *)
Lemma fits_float_widen x : in_u 64 x -> fits_float x = true -> widen (narrow x) = x.
Proof.
  intros Hx Hf. unfold fits_float, double_eqb in Hf. rewrite !andb_true_iff in Hf. destruct Hf as [_ [_ Hk%Z.eqb_eq]].
  destruct (narrow_split x Hx) as (m & Hn & Hm). destruct (widen_split (narrow x) (narrow_range x Hx)) as (m' & Hw & Hm').
  assert ((2 ^ 31 <=? narrow x) = (2 ^ 63 <=? x)) as Hs by (rewrite Hn; destruct (2 ^ 63 <=? x) eqn:E; lia).
  rewrite Hs in Hw. rewrite Hw in *. unfold double_key in Hk. unfold in_u in Hx.
  destruct (Z.leb_spec (2 ^ 63) x); [destruct (Z.leb_spec (2 ^ 63) (2 ^ 63 + m'))|destruct (Z.leb_spec (2 ^ 63) (0 + m'))]; lia.
Qed.

Lemma inf_cases x : in_u 64 x -> double_isinf x = true -> x = 0x7FF0000000000000 \/ x = 0xFFF0000000000000.
Proof.
  intros [H0 H1]. unfold double_isinf. change (2 ^ 63 - 1) with (Z.ones 63). rewrite Z.land_ones by lia. intros Hx%Z.eqb_eq.
  pose proof (Z.div_mod x (2 ^ 63) ltac:(lia)) as Hd. rewrite Hx in Hd.
  assert (0 <= x / 2 ^ 63 < 2) by (split; [apply Z.div_pos; lia|apply Z.div_lt_upper_bound; lia]). lia.
Qed.

Lemma ldexp_range m e : 0 <= m < 2 ^ 53 -> 0 < e + 1023 <= 1100 -> 0 <= ldexp m e < 2 ^ 63.
Proof.
  intros Hm He. unfold ldexp. destruct (Z.eqb_spec m 0); [lia|]. pose proof (normalised_range m 52 ltac:(lia) ltac:(lia)).
  assert (0 <= Z.log2 m <= 52) by (split; [apply Z.log2_nonneg|]; assert (Z.log2 m < 53) by (apply Z.log2_lt_pow2; lia); lia).
  rewrite (Z.shiftl_mul_pow2 (_ + 1023)) by lia. lia.
Qed.

(** ** The reader on an input that goes on *)

Section exact.
Context {S : Type} `{Sax Z S}.
Abbreviation BR := (M (binary_reader (S := S))).
Implicit Types (t rest result : list Z) (s : S) (cur k : Z).

(** [m] reads [t], whatever follows, answers [a], and brings the handler from [s] to
    [s']. *)
Definition takes {A} (m : BR A) t s (a : A) s' : Prop :=
  forall rest cur k, exists cur' k', m (Reader (t ++ rest) cur k s) = Ok (a, Reader rest cur' k' s').

(** The same for a method that looks at the last byte read, [c]. *)
Definition takes_at {A} (c : Z) (m : BR A) t s (a : A) s' : Prop :=
  forall rest k, exists cur' k', m (Reader (t ++ rest) c k s) = Ok (a, Reader rest cur' k' s').

Lemma takes_any {A} (m : BR A) t s a s' c : takes m t s a s' -> takes_at c m t s a s'.
Proof. intros Hm rest k. apply Hm. Qed.

Lemma takes_bind {A B} (m : BR A) (f : A -> BR B) t1 t2 s1 s2 s3 a b :
  takes m t1 s1 a s2 -> takes (f a) t2 s2 b s3 -> takes (m ≫= f) (t1 ++ t2) s1 b s3.
Proof.
  intros Hm Hf rest cur k. destruct (Hm (t2 ++ rest) cur k) as (cur1 & k1 & H1). rewrite <- app_assoc.
  rewrite (bind_ok _ _ _ _ _ H1). apply Hf.
Qed.

Lemma takes_at_bind {A B} c (m : BR A) (f : A -> BR B) t1 t2 s1 s2 s3 a b :
  takes_at c m t1 s1 a s2 -> takes (f a) t2 s2 b s3 -> takes_at c (m ≫= f) (t1 ++ t2) s1 b s3.
Proof.
  intros Hm Hf rest k. destruct (Hm (t2 ++ rest) k) as (cur1 & k1 & H1). rewrite <- app_assoc.
  rewrite (bind_ok _ _ _ _ _ H1). apply Hf.
Qed.

Lemma takes_ret {A} (a : A) s : takes (mret a) [] s a s.
Proof. intros rest cur k. by exists cur, k. Qed.

Lemma takes_handler {A} (m : M S A) s a s' : m s = Ok (a, s') -> takes (with_handler m) [] s a s'.
Proof. intros Hm rest cur k. exists cur, k. unfold with_handler. simpl. by rewrite Hm. Qed.

(** After the first byte. *)
Lemma takes_get {A} c (f : Z -> BR A) t s a s' : takes_at c (f c) t s a s' -> takes (br_get ≫= f) (c :: t) s a s'.
Proof. intros Hf rest cur k. unfold mbind, M_bind. simpl. apply Hf. Qed.

Lemma takes_current {A} c (f : Z -> BR A) t s a s' : takes_at c (f c) t s a s' -> takes_at c (gets r_current ≫= f) t s a s'.
Proof. intros Hf rest k. apply Hf. Qed.

Lemma takes_not_eof {A} c format context (f : bool -> BR A) t s a s' :
  c <> EOF -> takes_at c (f true) t s a s' -> takes_at c (unexpect_eof format context ≫= f) t s a s'.
Proof.
  intros Hc Hf rest k. unfold unexpect_eof, mbind, M_bind, gets. simpl. rewrite (proj2 (Z.eqb_neq c EOF)) by done. apply Hf.
Qed.

Lemma takes_and {A} (m : BR (option A)) (f : A -> BR bool) t1 t2 s1 s2 s3 a b :
  takes m t1 s1 (Some a) s2 -> takes (f a) t2 s2 b s3 -> takes (br_and m f) (t1 ++ t2) s1 b s3.
Proof. intros Hm Hf. eapply takes_bind; [exact Hm|exact Hf]. Qed.

(** A fixed number of bytes. *)
Lemma get_elements_take n t s : length t = n -> takes (get_elements n) t s t s.
Proof.
  intros <- rest cur k. unfold get_elements. simpl. rewrite take_app_length, drop_app_length. by eexists _, _.
Qed.

Lemma get_to_take n format context t s : length t = n -> takes (get_to n format context) t s (Some t) s.
Proof.
  intros Hn. rewrite <- (app_nil_r t) at 1. eapply takes_bind; [by apply get_elements_take|].
  rewrite bool_decide_false by lia. apply takes_ret.
Qed.

Lemma get_number_take little n format x s :
  format <> format_bjdata \/ little = true -> takes (get_number little n format) (write_number little n x) s (Some (x mod 256 ^ Z.of_nat n)) s.
Proof.
  intros Hf. unfold get_number. rewrite <- (app_nil_r (write_number little n x)). eapply takes_bind.
  { apply get_to_take. unfold write_number. destruct little; by rewrite ?length_rev, length_le_bytes. }
  simpl. assert (little || match format with format_bjdata => true | _ => false end = little) as ->.
  { destruct little; [done|]. destruct Hf as [Hf|?]; [|done]. by destruct format. }
  unfold write_number. destruct little; rewrite ?rev_involutive, le_val_le_bytes; apply takes_ret.
Qed.

(** A number that was written, and what is made of it. *)
Lemma number_and_take little format (k : nat) n (f : Z -> BR bool) t s1 s2 (b : bool) :
  format <> format_bjdata \/ little = true -> 0 <= n < 256 ^ Z.of_nat k -> takes (f n) t s1 b s2 ->
  takes (br_and (get_number little k format) f) (write_number little k n ++ t) s1 b s2.
Proof.
  intros Hf Hn Ht. eapply takes_and; [|exact Ht]. rewrite <- (Z.mod_small n (256 ^ Z.of_nat k)) at 2 by done.
  by apply get_number_take.
Qed.

(** A signed number. *)
Lemma signed_and_take little format (k : nat) n (f : Z -> BR bool) t s1 s2 (b : bool) :
  format <> format_bjdata \/ little = true -> (0 < k)%nat -> in_s (8 * Z.of_nat k) n -> takes (f n) t s1 b s2 ->
  takes (br_and (get_number little k format) (fun x => f (swrap (8 * Z.of_nat k) x))) (write_number little k n ++ t) s1 b s2.
Proof.
  intros Hfmt Hk Hn Hf. eapply takes_and; [by apply get_number_take|].
  replace (256 ^ Z.of_nat k) with (2 ^ (8 * Z.of_nat k)) by (by rewrite Z.pow_mul_r by lia).
  change (n mod 2 ^ (8 * Z.of_nat k)) with (uwrap (8 * Z.of_nat k) n). rewrite swrap_uwrap by lia. by rewrite swrap_small by (done || lia).
Qed.

(** The position in the input does not matter. *)
Lemma takes_position {A} (f : Z -> BR A) t s a s' : (forall pos, takes (f pos) t s a s') -> takes (gets chars_read ≫= f) t s a s'.
Proof. intros Hf rest cur k. apply Hf. Qed.

(** The number after the byte of a group. *)
Lemma number_take format n k s base :
  format <> format_bjdata -> 0 <= k <= 3 -> 0 <= n < 256 ^ 2 ^ k ->
  takes (get_number false (follow_bytes base (base + k)) format) (write_number false (follow_bytes base (base + k)) n) s (Some n) s.
Proof.
  intros Hf Hk Hn. rewrite <- (Z.mod_small n (256 ^ Z.of_nat (follow_bytes base (base + k)))) at 2.
  - apply get_number_take. by left.
  - unfold follow_bytes. replace (base + k - base) with k by lia. rewrite Z2Nat.id by (apply Z.pow_nonneg; lia). done.
Qed.

(** The characters of a string or a byte string. *)
Lemma get_chars_take fuel format context i len result t s :
  Forall is_byte t -> len = i + Z.of_nat (length t) -> (length t < fuel)%nat ->
  takes (get_chars_loop fuel format context i len result) t s (Some (result ++ t)) s.
Proof.
  intros Ht. revert fuel i result. induction Ht as [|c t Hc _ IH]; intros fuel i result Hl Hf; (destruct fuel as [|fuel]; [simpl in Hf; lia|]);
    cbn [get_chars_loop]; cbn [length] in Hl, Hf.
  - rewrite (proj2 (Z.ltb_ge i len)) by lia. rewrite app_nil_r. apply takes_ret.
  - rewrite (proj2 (Z.ltb_lt i len)) by lia. apply takes_get, takes_not_eof; [unfold is_byte, in_u in Hc; lia|].
    cbn [negb]. apply takes_current, takes_any. unfold u8. rewrite uwrap_small by done.
    pose proof (IH fuel (i + 1) (result ++ [c]) ltac:(lia) ltac:(lia)) as Hr. by rewrite <- app_assoc in Hr.
Qed.

(** Fuel taken from the input is at least the bytes to be read. *)
Lemma takes_fuel {A} (f : nat -> BR A) t s a s' :
  (forall fuel, (length t + 1 < fuel)%nat -> takes (f fuel) t s a s') -> takes (br_fuel ≫= f) t s a s'.
Proof.
  intros Hf rest cur k. unfold br_fuel, mbind, M_bind, gets. cbn [r_ia]. apply Hf. rewrite length_app. lia.
Qed.

Lemma takes_at_fuel {A} c (f : nat -> BR A) t s a s' :
  (forall fuel, (length t + 1 < fuel)%nat -> takes_at c (f fuel) t s a s') -> takes_at c (br_fuel ≫= f) t s a s'.
Proof.
  intros Hf rest k. unfold br_fuel, mbind, M_bind, gets. cbn [r_ia]. apply Hf. rewrite length_app. lia.
Qed.

Lemma br_string_take format t s : Forall is_byte t -> takes (br_get_string format (Z.of_nat (length t)) []) t s (Some t) s.
Proof. intros Ht. apply takes_fuel. intros fuel Hf. apply (get_chars_take _ _ _ _ _ []); [done|lia|lia]. Qed.

Lemma br_binary_take format t s : Forall is_byte t -> takes (br_get_binary format (Z.of_nat (length t)) []) t s (Some t) s.
Proof. intros Ht. apply takes_fuel. intros fuel Hf. apply (get_chars_take _ _ _ _ _ []); [done|lia|lia]. Qed.
End exact.

(** ** Values the formats carry

    Strings are bytes, not UTF-8: the binary readers do not look. *)

#[export] Instance binary_rules : Rules Z :=
  {| string_rule := Forall is_byte; float_rule := in_u 64;
     binary_rule b subtype := Forall is_byte b /\ match subtype with Some t => in_u 64 t | None => True end |}.

Lemma wf_denoted {F} {R : Rules F} (v : json F) : wf_json v -> denoted v.
Proof.
  induction v as [|ms IH|vs IH|s|b|n|n|x|bs subtype|] using json_ind; try done.
  - intros [_ Hv]%wf_object. apply denoted_object. rewrite !Forall_forall in *. intros m Hm.
    split; [by apply Hv|]. apply IH; [done|by apply Hv].
  - intros Hv%wf_array. apply denoted_array. rewrite !Forall_forall in *. auto.
Qed.

Lemma wf_build {F} {R : Rules F} (v : json F) : wf_json v -> build v = v.
Proof.
  induction v as [|ms IH|vs IH|s|b|n|n|x|bs subtype|] using json_ind; try done.
  - intros [Ha Hv]%wf_object. cbn [build]. f_equal. transitivity (foldl insert_member [] ms); [f_equal|by rewrite insert_all].
    apply map_eq_id. rewrite !Forall_forall in *. intros [k v] Hm. simpl. f_equal. by apply (IH _ Hm), (Hv _ Hm).
  - intros Hv%wf_array. cbn [build]. f_equal. apply map_eq_id. rewrite !Forall_forall in *. auto.
Qed.

Lemma length_in_concat {X} (enc : X -> list Z) x xs : x ∈ xs -> (length (enc x) <= length (concat (map enc xs)))%nat.
Proof.
  induction 1 as [x xs|x y xs _ IH]; cbn [map concat]; rewrite length_app; lia.
Qed.

(** ** Images

    What a format keeps of a value: its containers, and an image of its scalars. *)

Fixpoint map_scalars (f : json Z -> json Z) (j : json Z) : json Z :=
  match j with
  | Jarray vs => Jarray (map (map_scalars f) vs)
  | Jobject ms => Jobject (map (fun m => (m.1, map_scalars f m.2)) ms)
  | j => f j
  end.

Definition is_scalar (j : json Z) : bool := match j with Jarray _ | Jobject _ => false | _ => true end.

Definition scalar_image (f : json Z -> json Z) : Prop :=
  forall j, is_scalar j = true -> wf_json j -> wf_json (f j) /\ is_scalar (f j) = true.

Lemma scalar_image_wf f (Hf : scalar_image f) v :
  wf_json v -> wf_json (map_scalars f v) /\ (fits v -> fits (map_scalars f v)).
Proof.
  assert (forall v, is_scalar v = true -> wf_json v -> wf_json (f v) /\ (fits v -> fits (f v))) as Hscalar.
  { intros v' Hs Hv. destruct (Hf v' Hs Hv) as [Hw Hs']. split; [done|]. intros _. by destruct (f v'). }
  induction v as [|ms IH|vs IH|s|b|n|n|x|bs subtype|] using json_ind; try (by apply Hscalar); cbn [map_scalars].
  - intros [Ha Hv]%wf_object. rewrite Forall_forall in IH, Hv.
    assert (forall m, m ∈ ms -> wf_json (map_scalars f m.2) /\ (fits m.2 -> fits (map_scalars f m.2))) as Hm
      by (intros m Hm; apply IH, Hv; done).
    rewrite wf_object, !fits_object, !length_map. split.
    + split; [by rewrite <- list_fmap_compose|]. rewrite Forall_map, Forall_forall. intros m Hin. split; [by destruct (Hv m Hin)|by apply Hm].
    + intros [Hl Hfs]. split; [done|]. rewrite Forall_map. rewrite Forall_forall in Hfs |- *. intros m Hin. apply Hm; auto.
  - intros Hv%wf_array. rewrite Forall_forall in IH, Hv. rewrite wf_array, !fits_array, !length_map. split.
    + rewrite Forall_map, Forall_forall. intros v Hin. apply IH; auto.
    + intros [Hl Hfs]. split; [done|]. rewrite Forall_map. rewrite Forall_forall in Hfs |- *. intros v Hin. apply IH; auto.
Qed.

(** A format that has no signed numbers above zero. *)
Definition unsigned_image (n : Z) : json Z := if 0 <=? n then Jnumber_unsigned n else Jnumber_integer n.

Lemma unsigned_image_image n : in_s 64 n -> wf_json (unsigned_image n) /\ is_scalar (unsigned_image n) = true.
Proof.
  intros Hn. unfold unsigned_image. destruct (Z.leb_spec 0 n); split; try done. unfold in_s in Hn. simpl. unfold in_u. lia.
Qed.

(** No string, byte string or container has [limit] elements. *)
Fixpoint sizes_below (limit : Z) (v : json Z) : Prop :=
  match v with
  | Jstring s => Z.of_nat (length s) < limit
  | Jbinary b _ => Z.of_nat (length b) < limit
  | Jarray vs => Z.of_nat (length vs) < limit /\ foldr (fun v P => sizes_below limit v /\ P) True vs
  | Jobject ms =>
      Z.of_nat (length ms) < limit /\
      foldr (fun m P => (Z.of_nat (length m.1) < limit /\ sizes_below limit m.2) /\ P) True ms
  | _ => True
  end.

(** ** Containers whose length is known *)

Section containers.
Context {S : Type} `{Sax Z S}.
Abbreviation BR := (M (binary_reader (S := S))).
Implicit Types (s : S) (t : list Z) (body : BR bool).

Lemma takes_event (m : M S bool) s s' : event m s = Ok (tt, s') -> takes (with_handler m) [] s true s'.
Proof. intros Hm%event_inv. by apply takes_handler. Qed.

(** An event that ends a value. *)
Lemma takes_at_event c (m : M S bool) s s' : event m s = Ok (tt, s') -> takes_at c (with_handler m) [] s true s'.
Proof. intros Hm. by apply takes_any, takes_event. Qed.

(** The elements [xs], each encoded by [enc] in a byte or more and given to the
    handler by [ev]. *)
Lemma times_take {X} (enc : X -> list Z) (ev : X -> M S unit) body xs s s' :
  Forall (fun x => enc x <> [] /\ forall s s', ev x s = Ok (tt, s') -> takes body (enc x) s true s') xs ->
  foldr (fun x k => ev x;; k) (mret tt) xs s = Ok (tt, s') ->
  takes (br_times (Z.of_nat (length xs)) body) (concat (map enc xs)) s true s'.
Proof.
  intros Hxs He. apply takes_fuel. intros fuel Hf.
  assert (exists i, i = 0 /\ Z.of_nat (length xs) = i + Z.of_nat (length xs)) as (i & Hi & Hl) by (exists 0; lia).
  rewrite <- Hi. rewrite Hl. clear Hi Hl. revert fuel i s Hf He. induction Hxs as [|x xs [Hne Hx] _ IH]; intros fuel i s Hf He.
  - destruct fuel; [lia|]. cbn [times_loop]. rewrite (proj2 (Z.ltb_ge _ _)) by (simpl; lia). injection He as <-. apply takes_ret.
  - destruct fuel as [|fuel]; [lia|]. cbn [times_loop]. rewrite (proj2 (Z.ltb_lt _ _)) by (simpl; lia).
    cbn [foldr] in He. apply bind_ok_inv in He as ([] & s1 & H1 & H2). cbn [map concat] in Hf |- *. rewrite length_app in Hf.
    eapply takes_bind; [by apply Hx|]. cbn [length]. replace (i + Z.of_nat (Datatypes.S (length xs))) with (i + 1 + Z.of_nat (length xs)) by lia.
    apply IH; [|done]. destruct (enc x); [done|]. simpl in Hf. lia.
Qed.

(** [start], the elements, [end]. *)
Lemma container_take c (start stop : M S bool) (loop : BR bool) t (evs : M S unit) s s' :
  (event start;; evs;; event stop) s = Ok (tt, s') ->
  (forall s1 s2, evs s1 = Ok (tt, s2) -> takes loop t s1 true s2) ->
  takes_at c (ok ← with_handler start;
    if negb ok then mret false
    else ok ← loop; if ok : bool then with_handler stop else mret false) t s true s'.
Proof.
  intros He Hl. apply bind_ok_inv in He as ([] & s1 & H1 & He). apply bind_ok_inv in He as ([] & s2 & H2 & H3).
  rewrite <- (app_nil_l t). eapply takes_at_bind; [by apply takes_at_event|]. cbn [negb].
  rewrite <- (app_nil_r t). eapply takes_bind; [by apply Hl|]. cbn [negb]. by apply takes_event.
Qed.

(** The events of the members, each as one. *)
Lemma emit_members_events sized (ms : list (list Z * json Z)) s :
  emit_members (S := S) sized ms s = foldr (fun m k => (event (sax_key m.1);; emit sized m.2);; k) (mret tt) ms s.
Proof.
  revert s. induction ms as [|m ms IH]; intros s; [done|]. cbn [emit_members foldr]. unfold mbind, M_bind.
  destruct (event _ s) as [[[] s1]|f]; [|done]. destruct (emit _ _ s1) as [[[] s2]|f]; [|done]. apply IH.
Qed.
End containers.

(** A reader that gives the handler the events of [v] leads to [v]. *)
Lemma from_take sized parse format strict exceptions t (v : json Z) :
  wf_json v -> (sized = true -> fits v) ->
  (forall s s', emit sized v s = Ok (tt, s') -> takes (S := dom) parse t s true s') ->
  br_from parse br_get format strict exceptions t = Ok v.
Proof.
  intros Hv Hf Hp.
  destruct (emit_dom exceptions sized v (wf_denoted v Hv) Hf [] (dom_init exceptions)) as (d & He & Hr & _ & _);
    [by repeat constructor|]. injection Hr as Hr. rewrite wf_build in Hr by done.
  destruct (Hp _ _ He [] EOF 0) as (cur & k & Hrun). rewrite app_nil_r in Hrun.
  unfold br_from, br_sax_parse. rewrite (bind_ok _ _ _ _ _ Hrun). cbn [andb]. by destruct strict; simpl; rewrite Hr.
Qed.
