(* ===== verification/JsonCborProps.v ===== *)
(** JsonCborProps: what [to_cbor] writes, [from_cbor] reads, and [from_cbor] on any
    bytes. *)

From S2P Require Import Prelude Json JsonLexer JsonParser JsonDump JsonUtf8 JsonDom JsonTotal JsonParse JsonRead JsonBuild JsonRound JsonAccess JsonBinary JsonCbor JsonBinaryProps.

(** ** The value read back

    CBOR does not tell [number_unsigned] from a [number_integer] that is not
    negative, there is one NaN, and a tag is skipped by [tag_ignore]. *)

Definition cbor_scalar (tag_handler : cbor_tag_handler_t) (j : json Z) : json Z :=
  match j with
  | Jnumber_integer n => unsigned_image n
  | Jnumber_float x => Jnumber_float (if double_isnan x then 0x7FF8000000000000 else x)
  | Jbinary b subtype => Jbinary b (match tag_handler with tag_store => subtype | _ => None end)
  | j => j
  end.
Definition cbor_image (tag_handler : cbor_tag_handler_t) : json Z -> json Z := map_scalars (cbor_scalar tag_handler).

(** With [tag_error] a subtype, written as a tag, cannot be read. *)
Fixpoint tags_read (tag_handler : cbor_tag_handler_t) (j : json Z) : Prop :=
  match j with
  | Jarray vs => foldr (fun v P => tags_read tag_handler v /\ P) True vs
  | Jobject ms => foldr (fun m P => tags_read tag_handler m.2 /\ P) True ms
  | Jbinary _ subtype => tag_handler = tag_error -> subtype = None
  | _ => True
  end.

Lemma cbor_scalar_image h : scalar_image (cbor_scalar h).
Proof.
  intros v Hs Hv. destruct v as [| | |s|b|n|n|x|bs subtype|]; try done.
  - by apply unsigned_image_image.
  - split; [|done]. change (in_u 64 (if double_isnan x then 0x7FF8000000000000 else x)). by destruct (double_isnan x).
  - split; [|done]. destruct Hv as [Hb Ht]. split; [exact Hb|]. by destruct h.
Qed.

(** ** Heads *)

(** The byte [c] and the bytes [t] hold [n] after the major type [base]. *)
Inductive head (base n : Z) : Z -> list Z -> Prop :=
  | head_byte : 0 <= n <= 0x17 -> head base n (base + n) []
  | head_follow k : 0 <= k <= 3 -> 0 <= n < 256 ^ 2 ^ k ->
      head base n (base + 0x18 + k) (write_number false (follow_bytes (base + 0x18) (base + 0x18 + k)) n).

Lemma write_head_head base n :
  0 <= n < 2 ^ 64 -> 0 <= base <= 0xE0 -> exists c t, write_head base n = c :: t /\ head base n c t.
Proof.
  intros Hn Hb. unfold write_head.
  assert (forall k m, 0 <= k <= 3 -> 0 <= n < 256 ^ 2 ^ k -> Z.to_nat (2 ^ k) = m ->
    exists c t, (base + 0x18 + k) :: write_number false m n = c :: t /\ head base n c t) as Hk.
  { intros k m Hk Hr <-. eexists _, _. split; [reflexivity|]. unfold follow_bytes in *.
    replace (Z.to_nat (2 ^ k)) with (follow_bytes (base + 0x18) (base + 0x18 + k)) by (unfold follow_bytes; do 2 f_equal; lia).
    by constructor. }
  destruct (Z.leb_spec n 0x17).
  { exists (base + n), []. split; [|constructor; lia]. unfold write_number. cbn [le_bytes rev app]. f_equal. apply Z.mod_small. lia. }
  destruct (Z.leb_spec n 0xFF); [|destruct (Z.leb_spec n 0xFFFF); [|destruct (Z.leb_spec n 0xFFFFFFFF)]].
  - replace (base + 0x18) with (base + 0x18 + 0) by lia. apply Hk; [lia|simpl; lia|done].
  - replace (base + 0x19) with (base + 0x18 + 1) by lia. apply Hk; [lia|simpl; lia|done].
  - replace (base + 0x1A) with (base + 0x18 + 2) by lia. apply Hk; [lia|simpl; lia|done].
  - replace (base + 0x1B) with (base + 0x18 + 3) by lia. apply Hk; [lia|simpl; lia|done].
Qed.

Lemma write_head_nonempty base n : (1 <= length (write_head base n))%nat.
Proof.
  unfold write_head. repeat (destruct (_ <=? _); [try (simpl; lia)|]); try (simpl; lia).
Qed.

Section take.
Context {S : Type} `{Sax Z S}.
Abbreviation BR := (M (binary_reader (S := S))).
Implicit Types (s : S) (t : list Z) (c n : Z).

(** A string or the bytes of a byte string. *)
Lemma chars_take base c (get_chars : Z -> list Z -> BR (option (list Z))) t u s :
  base mod 32 = 0 -> head base (Z.of_nat (length u)) c t ->
  takes (get_chars (Z.of_nat (length u)) []) u s (Some u) s ->
  takes_at c (cbor_chars base c get_chars []) (t ++ u) s (Some u) s.
Proof.
  intros Hb Hh Hu. unfold cbor_chars. inversion Hh as [Hn|k Hk Hn]; subst.
  - in_range. rewrite (land_low _ 5) by (done || lia). by apply takes_any.
  - in_range. eapply takes_any, takes_bind; [by apply number_take|done].
Qed.

Lemma head_byte_range base n c t : head base n c t -> base <= c <= base + 0x1B.
Proof. intros []; lia. Qed.

Lemma cbor_string_take c t u s :
  head 0x60 (Z.of_nat (length u)) c t -> Forall is_byte u -> takes_at c cbor_string (t ++ u) s (Some u) s.
Proof.
  intros Hh Hu. pose proof (head_byte_range _ _ _ _ Hh). apply takes_at_fuel. intros [|fuel] Hf; [lia|].
  apply takes_not_eof; [lia|]. cbn [negb]. apply takes_current. in_range.
  apply chars_take; [done..|]. by apply br_string_take.
Qed.

Lemma cbor_binary_take c t u s :
  head 0x40 (Z.of_nat (length u)) c t -> Forall is_byte u -> takes_at c cbor_binary (t ++ u) s (Some u) s.
Proof.
  intros Hh Hu. pose proof (head_byte_range _ _ _ _ Hh). apply takes_at_fuel. intros [|fuel] Hf; [lia|].
  apply takes_not_eof; [lia|]. cbn [negb]. apply takes_current. in_range.
  apply chars_take; [done..|]. by apply br_binary_take.
Qed.

Lemma write_string_head u :
  Z.of_nat (length u) < 2 ^ 64 -> exists c t, write_cbor_string u = c :: t ++ u /\ head 0x60 (Z.of_nat (length u)) c t.
Proof.
  intros Hu. destruct (write_head_head 0x60 (Z.of_nat (length u))) as (c & t & Hw & Hh); [lia..|].
  exists c, t. unfold write_cbor_string. by rewrite Hw.
Qed.

(** The values a number, a string or a byte string that follows its head. *)
Section values.
Context (parse : bool -> BR bool) (tag_handler : cbor_tag_handler_t).

Lemma cbor_value_unsigned n c t s s' :
  head 0x00 n c t -> event (sax_number_unsigned n) s = Ok (tt, s') -> takes_at c (cbor_value parse tag_handler c) t s true s'.
Proof.
  intros Hh He. inversion Hh as [Hn|k Hk Hn]; subst; unfold cbor_value; in_range.
  - replace (0 + n) with n by lia. by apply takes_at_event.
  - rewrite <- (app_nil_r (write_number _ _ _)). eapply takes_any, takes_and; [by apply (number_take _ n k s 0x18)|]. by apply takes_event.
Qed.

Lemma cbor_value_negative n c t s s' :
  0 <= n < 2 ^ 63 -> head 0x20 n c t -> event (sax_number_integer (-1 - n)) s = Ok (tt, s') ->
  takes_at c (cbor_value parse tag_handler c) t s true s'.
Proof.
  intros Hb Hh He. inversion Hh as [Hn|k Hk Hn]; subst; unfold cbor_value; in_range.
  - replace (0x20 - 1 - (0x20 + n)) with (-1 - n) by lia. rewrite swrap_small by (unfold in_s; lia). by apply takes_at_event.
  - rewrite <- (app_nil_r (write_number _ _ _)). eapply takes_any, takes_and; [by apply (number_take _ n k s 0x38)|].
    rewrite swrap_small by (unfold in_s; lia). by apply takes_event.
Qed.

Lemma cbor_value_string u c t s s' :
  head 0x60 (Z.of_nat (length u)) c t -> Forall is_byte u -> event (sax_string u) s = Ok (tt, s') ->
  takes_at c (cbor_value parse tag_handler c) (t ++ u) s true s'.
Proof.
  intros Hh Hu He. assert ((0x60 <= c <= 0x7B)) as Hc by (inversion Hh; subst; lia). unfold cbor_value; in_range.
  rewrite <- (app_nil_r (t ++ u)). eapply takes_at_bind; [by apply cbor_string_take|]. by apply takes_event.
Qed.

Lemma cbor_value_binary u c t s s' :
  head 0x40 (Z.of_nat (length u)) c t -> Forall is_byte u -> event (sax_binary u None) s = Ok (tt, s') ->
  takes_at c (cbor_value parse tag_handler c) (t ++ u) s true s'.
Proof.
  intros Hh Hu He. assert ((0x40 <= c <= 0x5B)) as Hc by (inversion Hh; subst; lia). unfold cbor_value; in_range.
  rewrite <- (app_nil_r (t ++ u)). eapply takes_at_bind; [by apply cbor_binary_take|]. by apply takes_event.
Qed.

(** A length and the elements or members. *)
Lemma cbor_value_array n c t body s s' :
  head 0x80 n c t -> (forall c, takes_at c (get_cbor_array parse n) body s true s') ->
  takes_at c (cbor_value parse tag_handler c) (t ++ body) s true s'.
Proof.
  intros Hh He. inversion Hh as [Hn|k Hk Hn]; subst; unfold cbor_value; in_range.
  - rewrite (land_low _ 5) by (done || lia). apply He.
  - eapply takes_any, takes_and; [by apply (number_take _ n k s 0x98)|]. intros rest cur j. apply He.
Qed.

Lemma cbor_value_object n c t body s s' :
  head 0xA0 n c t -> (forall c, takes_at c (get_cbor_object parse n) body s true s') ->
  takes_at c (cbor_value parse tag_handler c) (t ++ body) s true s'.
Proof.
  intros Hh He. inversion Hh as [Hn|k Hk Hn]; subst; unfold cbor_value; in_range.
  - rewrite (land_low _ 5) by (done || lia). apply He.
  - eapply takes_any, takes_and; [by apply (number_take _ n k s 0xB8)|]. intros rest cur j. apply He.
Qed.

(** Floating-point numbers: half precision for what is no number, then [float] where
    it holds the number, then [double]. *)
Lemma cbor_value_float x s s' :
  in_u 64 x -> event (sax_number_float (if double_isnan x then 0x7FF8000000000000 else x) []) s = Ok (tt, s') ->
  exists c t, write_cbor (Jnumber_float x) = c :: t /\ takes_at c (cbor_value parse tag_handler c) t s true s'.
Proof.
  intros Hx He. cbn [write_cbor]. unfold write_cbor_float.
  assert (forall b1 b2, is_byte b1 -> is_byte b2 -> half_value (Z.shiftl (u8 b1) 8 + u8 b2) = (if double_isnan x then 0x7FF8000000000000 else x) ->
    takes_at 0xF9 (cbor_value parse tag_handler 0xF9) [b1; b2] s true s') as Hhalf.
  { intros b1 b2 H1 H2 Hv. unfold is_byte, in_u in H1, H2. change (cbor_value _ _ _) with (cbor_half (S := S)).
    apply takes_any, takes_get, takes_not_eof; [lia|]. cbn [negb]. apply takes_any, takes_get, takes_not_eof; [lia|]. cbn [negb].
    rewrite Hv. by apply takes_at_event. }
  destruct (double_isnan x) eqn:En; [eexists _, _; split; [reflexivity|]; by apply Hhalf|].
  destruct (double_isinf x) eqn:Ei.
  { destruct (inf_cases x Hx Ei) as [-> | ->]; (eexists _, _; split; [reflexivity|]); by apply Hhalf. }
  unfold write_compact_float. destruct (fits_float x) eqn:Ef; (eexists _, _; split; [reflexivity|]).
  - rewrite <- (app_nil_r (write_number _ _ _)). eapply takes_any, takes_and.
    { apply (get_number_take false 4 format_cbor (narrow x) s). by left. }
    rewrite (Z.mod_small (narrow x)) by (pose proof (narrow_range x Hx) as Hr; unfold in_u in Hr; simpl; lia).
    rewrite fits_float_widen by done. by apply takes_event.
  - rewrite <- (app_nil_r (write_number _ _ _)). eapply takes_any, takes_and.
    { apply (get_number_take false 8 format_cbor x s). by left. }
    rewrite (Z.mod_small x) by (unfold in_u in Hx; simpl; lia). by apply takes_event.
Qed.

(** A byte string after the tag of its subtype. *)
Lemma write_subtype_head n :
  in_u 64 n -> exists k, 0 <= k <= 3 /\ 0 <= n < 256 ^ 2 ^ k /\
    write_subtype n = (0xD8 + k) :: write_number false (follow_bytes 0xD8 (0xD8 + k)) n.
Proof.
  intros [H0 H1]. unfold write_subtype.
  destruct (Z.leb_spec n 0xFF); [exists 0|destruct (Z.leb_spec n 0xFFFF); [exists 1|destruct (Z.leb_spec n 0xFFFFFFFF); [exists 2|exists 3]]];
    (split; [lia|]); (split; [simpl; lia|]); reflexivity.
Qed.

Lemma value_tagged n u s s' :
  in_u 64 n -> Forall is_byte u -> Z.of_nat (length u) < 2 ^ 64 -> tag_handler <> tag_error ->
  let b := write_head 0x40 (Z.of_nat (length u)) ++ u in
  (tag_handler = tag_ignore -> takes (parse true) b s true s') ->
  (tag_handler = tag_store -> event (sax_binary u (Some n)) s = Ok (tt, s')) ->
  exists c t, write_subtype n ++ b = c :: t /\ takes_at c (cbor_value parse tag_handler c) t s true s'.
Proof.
  intros Hn Hu Hl Ht b Hig Hst. destruct (write_subtype_head n Hn) as (k & Hk & Hr & ->). eexists _, _. split; [reflexivity|].
  unfold cbor_value. in_range. unfold cbor_tag. destruct tag_handler; [done|..]; in_range.
  - eapply takes_any, takes_bind; [|by apply Hig]. rewrite <- (app_nil_r (write_number _ _ _)).
    eapply takes_bind; [by apply (number_take _ n k s 0xD8)|]. apply takes_ret.
  - eapply takes_any, takes_bind; [by apply (number_take _ n k s 0xD8)|]. cbn [default from_option id].
    destruct (write_head_head 0x40 (Z.of_nat (length u))) as (c & t & Hw & Hh); [lia..|]. unfold b. rewrite Hw. cbn [app].
    apply (takes_get c (fun _ => br_and cbor_binary _)). rewrite <- (app_nil_r (t ++ u)).
    eapply takes_at_bind; [by apply cbor_binary_take|]. by apply takes_event, Hst.
Qed.
End values.

Lemma write_cbor_nonempty v : wf_json v -> (1 <= length (write_cbor v))%nat.
Proof.
  destruct v as [|ms|vs|s|b|n|n|x|bs subtype|]; intros Hv; cbn [write_cbor]; try (cbn [length]; lia); try done.
  - rewrite length_app. pose proof (write_head_nonempty 0xA0 (Z.of_nat (length ms))). lia.
  - rewrite length_app. pose proof (write_head_nonempty 0x80 (Z.of_nat (length vs))). lia.
  - unfold write_cbor_string. rewrite length_app. pose proof (write_head_nonempty 0x60 (Z.of_nat (length s))). lia.
  - unfold write_cbor_integer. destruct (0 <=? n); apply write_head_nonempty.
  - apply write_head_nonempty.
  - unfold write_cbor_float, write_compact_float. destruct (double_isnan x), (double_isinf x), (fits_float x); cbn [length]; lia.
  - unfold write_cbor_binary. rewrite !length_app. pose proof (write_head_nonempty 0x40 (Z.of_nat (length bs))). lia.
Qed.

(** A key and its value. *)
Lemma cbor_member_take parse k t s s' (ev : M S unit) :
  Z.of_nat (length k) < 2 ^ 64 -> Forall is_byte k -> (event (sax_key k);; ev) s = Ok (tt, s') ->
  (forall s s', ev s = Ok (tt, s') -> takes (parse true) t s true s') ->
  takes (br_get;; cbor_member parse) (write_cbor_string k ++ t) s true s'.
Proof.
  intros Hl Hk He Hv. apply bind_ok_inv in He as ([] & s1 & H1 & H2).
  destruct (write_string_head k Hl) as (c & u & -> & Hh). cbn [app]. apply (takes_get c (fun _ => cbor_member parse)).
  eapply takes_at_bind; [by apply cbor_string_take|]. rewrite <- (app_nil_l t).
  eapply takes_bind; [by apply takes_event|]. cbn [negb]. by apply Hv.
Qed.

(** The reader on what was written. *)
Lemma cbor_take h v fuel s s' :
  wf_json v -> fits v -> sizes_below (2 ^ 64) v -> tags_read h v -> (length (write_cbor v) < fuel)%nat ->
  emit true (cbor_image h v) s = Ok (tt, s') -> takes (parse_cbor_internal fuel h true) (write_cbor v) s true s'.
Proof.
  revert v s s'. induction fuel as [|fuel IH]; [lia|]. intros v s s' Hv Hf Hs Ht Hl He. cbn [parse_cbor_internal].
  set (parse := parse_cbor_internal fuel h). 
  assert (forall c t, write_cbor v = c :: t -> takes_at c (cbor_value parse h c) t s true s' ->
    takes (c ← br_get; cbor_value parse h c) (write_cbor v) s true s') as Hget by (intros c t -> Hc; by apply takes_get).
  destruct v as [|ms|vs|u|b|n|n|x|u subtype|]; unfold cbor_image in He; cbn [map_scalars cbor_scalar emit] in He; fold (cbor_image h) in He; try done.
  - apply (Hget 0xF6 []); [done|]. by apply takes_at_event.
  - apply wf_object in Hv as [_ Hv]. apply fits_object in Hf as [Hn Hf]. cbn [sizes_below tags_read] in Hs, Ht.
    destruct Hs as [_ Hs]. rewrite foldr_and in Hs, Ht. cbn [write_cbor] in *. rewrite length_map in He.
    destruct (write_head_head 0xA0 (Z.of_nat (length ms))) as (c & t & Hw & Hh); [unfold object_max_size in Hn; lia|lia|].
    rewrite Hw in *. apply (Hget c (t ++ concat (map (fun m => write_cbor_string m.1 ++ write_cbor m.2) ms))); [done|].
    apply (cbor_value_object _ _ _ _ _ _ _ _ Hh). intros c'. clear Hget. 
    eapply container_take; [exact He|]. clear He s s'. intros s s' He. rewrite (proj2 (Z.eqb_neq _ unknown_size)) by (unfold object_max_size, unknown_size in *; lia).
    destruct ms as [|m0 ms0] eqn:Ems; [injection He as <-; apply takes_ret|]. rewrite <- Ems in *.
    rewrite (proj2 (Z.eqb_neq _ 0)) by (rewrite Ems; cbn [length]; lia). clear Ems.
    fold (emit_members (S := S) true (map (fun m => (m.1, cbor_image h m.2)) ms)) in He.
    rewrite emit_members_events, foldr_fmap in He. eapply times_take; [|exact He].
    rewrite Forall_forall in *. intros [k v] Hin. destruct (Hv _ Hin) as [Hk Hw1], (Hs _ Hin) as [Hkl Hsv].
    pose proof (length_in_concat (fun m : list Z * json Z => write_cbor_string m.1 ++ write_cbor m.2) (k, v) ms Hin) as Hlen. cbn [fst snd] in *.
    pose proof (write_cbor_nonempty v Hw1). cbn [app length] in Hl. rewrite length_app in Hl, Hlen.
    split; [intros E; apply (f_equal length) in E; rewrite length_app in E; cbn [length] in E; lia|].
    intros s1 s2 Hm. eapply cbor_member_take; [done|exact Hk|exact Hm|]. intros s3 s4 He34. apply IH; auto; [apply (Hf _ Hin)|apply (Ht _ Hin)|lia].
  - apply wf_array in Hv. apply fits_array in Hf as [Hn Hf]. cbn [sizes_below tags_read] in Hs, Ht.
    destruct Hs as [_ Hs]. rewrite foldr_and in Hs, Ht. cbn [write_cbor] in *. rewrite length_map in He.
    destruct (write_head_head 0x80 (Z.of_nat (length vs))) as (c & t & Hw & Hh); [unfold array_max_size in Hn; lia|lia|].
    rewrite Hw in *. apply (Hget c (t ++ concat (map write_cbor vs))); [done|].
    apply (cbor_value_array _ _ _ _ _ _ _ _ Hh). intros c'. clear Hget.
    eapply container_take; [exact He|]. clear He s s'. intros s s' He.
    rewrite (proj2 (Z.eqb_neq _ unknown_size)) by (unfold array_max_size, unknown_size in *; lia).
    apply (times_take _ (fun v => emit true (cbor_image h v))).
    + rewrite Forall_forall in *. intros v Hin. split; [intros E; pose proof (write_cbor_nonempty v (Hv _ Hin)); rewrite E in *; simpl in *; lia|].
      intros s1 s2. apply IH; auto. pose proof (length_in_concat write_cbor v vs Hin). cbn [app length] in Hl. rewrite length_app in Hl. lia.
    + by rewrite foldr_fmap in He.
  - cbn [sizes_below] in Hs. destruct (write_string_head u Hs) as (c & t & Hw & Hh). apply (Hget c (t ++ u)); [exact Hw|]. by apply cbor_value_string.
  - destruct b; [apply (Hget 0xF5 [])|apply (Hget 0xF4 [])]; try done; by apply takes_at_event.
  - cbn [wf_json] in Hv. unfold in_s in Hv. unfold unsigned_image in He. cbn [write_cbor] in *. unfold write_cbor_integer in *. destruct (Z.leb_spec 0 n).
    + destruct (write_head_head 0x00 n) as (c & t & Hw & Hh); [lia..|]. apply (Hget c t); [done|]. by eapply cbor_value_unsigned.
    + destruct (write_head_head 0x20 (-1 - n)) as (c & t & Hw & Hh); [lia..|]. apply (Hget c t); [done|].
      eapply cbor_value_negative; [|exact Hh|]; [lia|]. by replace (-1 - (-1 - n)) with n by lia.
  - destruct (write_head_head 0x00 n) as (c & t & Hw & Hh); [done|lia|]. apply (Hget c t); [done|]. by eapply cbor_value_unsigned.
  - destruct (cbor_value_float parse h x s s' Hv He) as (c & t & Hw & Hc). by apply (Hget c t).
  - destruct Hv as [Hb Htag]. cbn [sizes_below] in Hs. cbn [write_cbor] in *. unfold write_cbor_binary in *.
    assert (forall fuel' s s', event (sax_binary u None) s = Ok (tt, s') ->
      takes (parse_cbor_internal (Datatypes.S fuel') h true) (write_head 0x40 (Z.of_nat (length u)) ++ u) s true s') as Hbytes.
    { intros fuel' s1 s2 Hev. destruct (write_head_head 0x40 (Z.of_nat (length u))) as (c & t & Hw & Hh); [lia..|]. rewrite Hw.
      cbn [parse_cbor_internal app]. apply takes_get. by apply cbor_value_binary. }
    destruct subtype as [n|]; [|apply Hbytes; by destruct h].
    destruct fuel as [|fuel].
    { destruct (write_subtype_head n Htag) as (k & _ & _ & Hw). rewrite Hw in Hl. simpl in Hl. lia. }
    destruct (value_tagged parse h n u s s') as (c & t & Hw & Hc); try done.
    + intros Hh. by specialize (Ht Hh).
    + intros ->. by apply Hbytes.
    + intros ->. done.
    + rewrite Hw in *. by apply (Hget c t).
Qed.
End take.

(** ** The round trip *)

(** C20 What [to_cbor] writes for a value with strings of bytes, numbers of 64 bits and
    containers that fit memory, [from_cbor] reads as the same value, under any
    setting: but that an integer that is not negative comes back unsigned and a NaN
    as the quiet one, and that a subtype is kept by [tag_handler] [store], dropped by
    [ignore], and must not be there with [error]. *)
Theorem cbor_roundtrip (v : json Z) tag_handler (strict exceptions : bool) :
  wf_json v -> fits v -> sizes_below (2 ^ 64) v -> tags_read tag_handler v ->
  from_cbor strict exceptions tag_handler (to_cbor v) = Ok (cbor_image tag_handler v).
Proof.
  intros Hv Hf Hs Ht. destruct (scalar_image_wf _ (cbor_scalar_image tag_handler) v Hv) as [Hwi Hfi].
  apply (from_take true); [done|intros _; by apply Hfi|]. intros s s' He.
  apply takes_fuel. intros fuel Hl. apply cbor_take; try done. unfold to_cbor in Hl. lia.
Qed.

Definition cbor_sample : json Z :=
  Jarray [Jnull; Jnumber_integer (-500); Jnumber_integer 7; Jnumber_float 0x3FF8000000000000; Jnumber_float 0x7FF0000000000001;
    Jobject [(str "k", Jbinary [1; 255] (Some 300)); (str "l", Jstring (str "s"))]].

Lemma cbor_roundtrip_witness :
  from_cbor true true tag_store (to_cbor cbor_sample) = Ok (cbor_image tag_store cbor_sample) /\
  length (to_cbor cbor_sample) = 27%nat /\
  cbor_image tag_store cbor_sample =
    Jarray [Jnull; Jnumber_integer (-500); Jnumber_unsigned 7; Jnumber_float 0x3FF8000000000000; Jnumber_float 0x7FF8000000000000;
      Jobject [(str "k", Jbinary [1; 255] (Some 300)); (str "l", Jstring (str "s"))]].
Proof.
  split; [|split; vm_compute; reflexivity].
  apply cbor_roundtrip; [|vm_compute; repeat split; discriminate|vm_compute; repeat split; discriminate|vm_compute; repeat split; discriminate].
  unfold cbor_sample. simpl. repeat split; try lia; repeat constructor; done.
Defined.
