(* ===== verification/JsonMsgpackProps.v ===== *)
(** JsonMsgpackProps: what [to_msgpack] writes, [from_msgpack] reads. *)

From S2P Require Import Prelude Json JsonLexer JsonParser JsonDump JsonUtf8 JsonDom JsonTotal JsonParse JsonRead JsonBuild JsonRound JsonAccess JsonBinary JsonBinaryProps JsonMsgpack.

(** ** The value read back

    MessagePack does not tell [number_unsigned] from a [number_integer] that is not
    negative, and the subtype of a byte string has eight bits. *)

Definition msgpack_scalar (j : json Z) : json Z :=
  match j with
  | Jnumber_integer n => unsigned_image n
  | Jbinary b subtype => Jbinary b (u8 <$> subtype)
  | j => j
  end.
Definition msgpack_image : json Z -> json Z := map_scalars msgpack_scalar.

Lemma msgpack_scalar_image : scalar_image msgpack_scalar.
Proof.
  intros v Hs Hv. destruct v as [| | |s|b|n|n|x|bs subtype|]; try done.
  - by apply unsigned_image_image.
  - split; [|done]. destruct Hv as [Hb Ht]. split; [exact Hb|]. destruct subtype as [t|]; [|done]. simpl.
    pose proof (uwrap_range 8 t ltac:(lia)) as Hr. change (in_u 64 (uwrap 8 t)). unfold in_u in *. lia.
Qed.

Lemma write_number_1 n : write_number false 1 n = [u8 n].
Proof. done. Qed.

Section take.
Context {S : Type} `{Sax Z S}.
Abbreviation BR := (M (binary_reader (S := S))).
Implicit Types (s : S) (t : list Z) (c n : Z).

(** A number that ends a value. *)
Lemma signed_take (k : nat) n (f : Z -> BR bool) s1 s2 :
  (0 < k)%nat -> in_s (8 * Z.of_nat k) n -> takes (f n) [] s1 true s2 ->
  takes (br_and (get_number false k format_msgpack) (fun x => f (swrap (8 * Z.of_nat k) x))) (write_number false k n) s1 true s2.
Proof. intros Hk Hn Hf. rewrite <- (app_nil_r (write_number _ _ _)). apply signed_and_take; [by left|done..]. Qed.

Lemma unsigned_take (k : nat) n (f : Z -> BR bool) s1 s2 :
  0 <= n < 256 ^ Z.of_nat k -> takes (f n) [] s1 true s2 ->
  takes (br_and (get_number false k format_msgpack) f) (write_number false k n) s1 true s2.
Proof. intros Hn Hf. rewrite <- (app_nil_r (write_number _ _ _)). apply number_and_take; [by left|done..]. Qed.

Section values.
Context (parse : BR bool).

(** [parse_msgpack_internal] on a text that begins with [c]. *)
Definition value_takes (t : list Z) s s' : Prop := exists c u, t = c :: u /\ takes_at c (msgpack_value parse c) u s true s'.

Lemma msgpack_value_unsigned n s s' :
  in_u 64 n -> event (sax_number_unsigned n) s = Ok (tt, s') -> value_takes (write_msgpack_unsigned n) s s'.
Proof.
  intros [H0 H1] He. unfold write_msgpack_unsigned. apply takes_event in He.
  destruct (Z.ltb_spec n 128); [|destruct (Z.leb_spec n 0xFF); [|destruct (Z.leb_spec n 0xFFFF); [|destruct (Z.leb_spec n 0xFFFFFFFF)]]];
    (eexists _, _; split; [reflexivity|]); apply takes_any.
  - rewrite Z.mod_small by lia. unfold msgpack_value. in_range. exact He.
  - by apply (unsigned_take 1); [simpl; lia|].
  - by apply (unsigned_take 2); [simpl; lia|].
  - by apply (unsigned_take 4); [simpl; lia|].
  - by apply (unsigned_take 8); [simpl; lia|].
Qed.

Lemma msgpack_value_negative n s s' :
  - 2 ^ 63 <= n < 0 -> event (sax_number_integer n) s = Ok (tt, s') -> value_takes (write_msgpack_negative n) s s'.
Proof.
  intros Hn He. unfold write_msgpack_negative. apply takes_event in He.
  destruct (Z.leb_spec (-32) n); [|destruct (Z.leb_spec (- 2 ^ 7) n); [|destruct (Z.leb_spec (- 2 ^ 15) n); [|destruct (Z.leb_spec (- 2 ^ 31) n)]]];
    (eexists _, _; split; [reflexivity|]); apply takes_any.
  - assert (n mod 256 = n + 256) as -> by (symmetry; apply Z.mod_unique with (-1); lia).
    unfold msgpack_value. in_range. replace (n + 256) with (uwrap 8 n) by (unfold uwrap; symmetry; apply Z.mod_unique with (-1); simpl; lia).
    rewrite swrap_uwrap, swrap_small by (unfold in_s; lia). exact He.
  - apply (signed_take 1 n (fun x => with_handler (sax_number_integer x))); [lia|unfold in_s; simpl; lia|exact He].
  - apply (signed_take 2 n (fun x => with_handler (sax_number_integer x))); [lia|unfold in_s; simpl; lia|exact He].
  - apply (signed_take 4 n (fun x => with_handler (sax_number_integer x))); [lia|unfold in_s; simpl; lia|exact He].
  - apply (signed_take 8 n (fun x => with_handler (sax_number_integer x))); [lia|unfold in_s; simpl; lia|exact He].
Qed.

Lemma msgpack_value_float x s s' :
  in_u 64 x -> event (sax_number_float x []) s = Ok (tt, s') -> value_takes (write_compact_float x 0xCA 0xCB) s s'.
Proof.
  intros Hx He. unfold write_compact_float. apply takes_event in He.
  destruct (fits_float x) eqn:Ef; (eexists _, _; split; [reflexivity|]); apply takes_any.
  - apply (unsigned_take 4 (narrow x) (fun n => with_handler (sax_number_float (widen n) []))).
    + pose proof (narrow_range x Hx) as Hr. unfold in_u in Hr. simpl. lia.
    + by rewrite fits_float_widen.
  - apply (unsigned_take 8 x (fun n => with_handler (sax_number_float n []))); [|exact He]. unfold in_u in Hx. simpl. lia.
Qed.

(** ** Strings *)

Lemma then_read_take {A} (k : nat) n (f : Z -> BR (option A)) t s1 s2 a :
  0 <= n < 256 ^ Z.of_nat k -> takes (f n) t s1 a s2 -> takes (then_read k f) (write_number false k n ++ t) s1 a s2.
Proof.
  intros Hn Ht. eapply (takes_bind _ _ _ _ _ s1 _ (Some n) a); [|exact Ht]. rewrite <- (Z.mod_small n (256 ^ Z.of_nat k)) at 2 by done.
  apply get_number_take. by left.
Qed.

(** A string after its first byte, which begins no other value. *)
Lemma string_take u s :
  Z.of_nat (length u) < 2 ^ 32 -> Forall is_byte u ->
  exists c t, write_msgpack_string u = c :: t /\ 0xA0 <= c <= 0xDB /\ within 0xA0 c 0xBF || within 0xD9 c 0xDB = true /\
    takes_at c get_msgpack_string t s (Some u) s.
Proof.
  intros Hu Hb. unfold write_msgpack_string. set (N := Z.of_nat (length u)) in *. assert (0 <= N) by lia.
  assert (forall c t, 0xA0 <= c <= 0xDB ->
    takes_at c (if within 0xA0 c 0xBF then br_get_string format_msgpack (Z.land c 0x1F) []
      else if within 0xD9 c 0xDB then then_read (follow_bytes 0xD9 c) (fun len => br_get_string format_msgpack len [])
      else token ← br_token_string;
        br_error format_msgpack 113 token
          (str "expected length specification (0xA0-0xBF, 0xD9-0xDB); last byte: 0x" ++ token) (str "string");;
        mret None) t s (Some u) s ->
    takes_at c get_msgpack_string t s (Some u) s) as Hget.
  { intros c t Hc Ht. apply takes_not_eof; [lia|]. cbn [negb]. by apply takes_current. }
  destruct (Z.leb_spec N 31); [|destruct (Z.leb_spec N 0xFF); [|destruct (Z.leb_spec N 0xFFFF); [|destruct (Z.leb_spec N 0xFFFFFFFF); [|lia]]]];
    (eexists _, _; split; [reflexivity|]).
  - assert (Z.lor 0xA0 N mod 256 = 0xA0 + N) as -> by (change 0xA0 with (5 * 2 ^ 5); rewrite lor_lead by lia; apply Z.mod_small; lia).
    split; [lia|]. split; [unfold within; lia|]. apply Hget; [lia|]. in_range. rewrite (land_low _ 5) by (done || lia).
    apply takes_any. by apply br_string_take.
  - split; [lia|]. split; [done|]. apply Hget; [lia|]. apply takes_any, (then_read_take 1); [simpl; lia|]. by apply br_string_take.
  - split; [lia|]. split; [done|]. apply Hget; [lia|]. apply takes_any, (then_read_take 2); [simpl; lia|]. by apply br_string_take.
  - split; [lia|]. split; [done|]. apply Hget; [lia|]. apply takes_any, (then_read_take 4); [simpl; lia|]. by apply br_string_take.
Qed.

Lemma msgpack_value_string u s s' :
  Z.of_nat (length u) < 2 ^ 32 -> Forall is_byte u -> event (sax_string u) s = Ok (tt, s') -> value_takes (write_msgpack_string u) s s'.
Proof.
  intros Hu Hb He. destruct (string_take u s Hu Hb) as (c & t & Hw & Hc & Hor & Ht). exists c, t. split; [done|].
  unfold msgpack_value. rewrite Hor. rewrite <- (app_nil_r t).
  rewrite (proj2 (Z.eqb_neq c EOF)) by lia.
  assert (within 0x00 c 0x7F = false) as -> by (unfold within; lia). assert (within 0x80 c 0x8F = false) as -> by (unfold within; lia).
  assert (within 0x90 c 0x9F = false) as -> by (unfold within; lia).
  eapply takes_at_bind; [exact Ht|]. by apply takes_event.
Qed.

(** ** Byte strings *)

Lemma bytes_take b s (st : option Z) :
  Forall is_byte b ->
  takes (b ← br_get_binary format_msgpack (Z.of_nat (length b)) []; mret (b ← b; Some (b, st))) b s (Some (b, st)) s.
Proof.
  intros Hb. rewrite <- (app_nil_r b) at 2. eapply takes_bind; [by apply br_binary_take|]. apply takes_ret.
Qed.

Lemma ext_take n b s :
  Forall is_byte b -> takes (get_ext (Z.of_nat (length b))) (write_number false 1 n ++ b) s (Some (b, Some (u8 n))) s.
Proof.
  intros Hb. eapply (takes_bind _ _ _ _ _ s _ (Some (n mod 256 ^ Z.of_nat 1)) _); [apply get_number_take; by left|].
  assert (u8 (swrap 8 (n mod 256 ^ Z.of_nat 1)) = u8 n) as <-; [|by apply bytes_take].
  unfold u8. rewrite uwrap_swrap by lia. apply Z.mod_mod. lia.
Qed.

(** The three groups of first bytes. *)
Lemma bin_at c b s :
  0xC4 <= c <= 0xC6 -> Z.of_nat (length b) < 256 ^ Z.of_nat (follow_bytes 0xC4 c) -> Forall is_byte b ->
  takes_at c get_msgpack_binary (write_number false (follow_bytes 0xC4 c) (Z.of_nat (length b)) ++ b) s (Some (b, None)) s.
Proof. intros Hc Hl Hb. apply takes_current. in_range. apply takes_any, then_read_take; [lia|]. by apply bytes_take. Qed.

Lemma ext_at c n b s :
  0xC7 <= c <= 0xC9 -> Z.of_nat (length b) < 256 ^ Z.of_nat (follow_bytes 0xC7 c) -> Forall is_byte b ->
  takes_at c get_msgpack_binary
    (write_number false (follow_bytes 0xC7 c) (Z.of_nat (length b)) ++ write_number false 1 n ++ b) s (Some (b, Some (u8 n))) s.
Proof. intros Hc Hl Hb. apply takes_current. in_range. apply takes_any, then_read_take; [lia|]. by apply ext_take. Qed.

Lemma fixext_at c n b s :
  0xD4 <= c <= 0xD8 -> Z.of_nat (length b) = 2 ^ (c - 0xD4) -> Forall is_byte b ->
  takes_at c get_msgpack_binary (write_number false 1 n ++ b) s (Some (b, Some (u8 n))) s.
Proof. intros Hc Hl Hb. apply takes_current. in_range. rewrite <- Hl. by apply takes_any, ext_take. Qed.

Lemma msgpack_value_binary b (st : option Z) s s' :
  Z.of_nat (length b) < 2 ^ 32 -> Forall is_byte b -> event (sax_binary b (u8 <$> st)) s = Ok (tt, s') ->
  value_takes (write_msgpack_binary b st) s s'.
Proof.
  intros Hl Hb He.
  assert (forall c t, within 0xC4 c 0xC9 || within 0xD4 c 0xD8 = true ->
    takes_at c get_msgpack_binary t s (Some (b, u8 <$> st)) s -> value_takes (c :: t) s s') as Hv.
  { intros c t Hw Ht. exists c, t. split; [done|]. assert (0xC4 <= c <= 0xD8 /\ (c <= 0xC9 \/ 0xD4 <= c)) as Hc by (unfold within in Hw; lia).
    unfold msgpack_value. rewrite Hw. in_range.
    rewrite <- (app_nil_r t). eapply takes_at_bind; [exact Ht|]. by apply takes_event. }
  unfold write_msgpack_binary. destruct st as [n|]; cbn [fmap option_fmap option_map] in Hv |- *.
  - rewrite bool_decide_true by done.
    repeat match goal with |- context[if ?a <=? ?b then _ else _] => destruct (Z.leb_spec a b); [|] end; [| | |lia].
    + repeat match goal with |- context[if ?a =? ?b then _ else _] => destruct (Z.eqb_spec a b); [|] end;
        cbn [app]; (apply Hv; [done|]).
      1-5: (apply fixext_at; [lia|simpl; lia|done]).
      apply (ext_at 0xC7); [lia|follow_lia|done].
    + apply (Hv 0xC8); [done|]. apply (ext_at 0xC8); [lia|follow_lia|done].
    + apply (Hv 0xC9); [done|]. apply (ext_at 0xC9); [lia|follow_lia|done].
  - rewrite bool_decide_false by (by intros []).
    repeat match goal with |- context[if ?a <=? ?b then _ else _] => destruct (Z.leb_spec a b); [|] end; [| | |lia].
    + apply (Hv 0xC4); [done|]. apply (bin_at 0xC4); [lia|follow_lia|done].
    + apply (Hv 0xC5); [done|]. apply (bin_at 0xC5); [lia|follow_lia|done].
    + apply (Hv 0xC6); [done|]. apply (bin_at 0xC6); [lia|follow_lia|done].
Qed.

(** ** Containers *)

Lemma write_length_cases k base byte16 N :
  0 <= N < 2 ^ 32 -> base = k * 2 ^ 4 -> 0 <= base < 2 ^ 8 - 2 ^ 4 ->
  exists c t, write_msgpack_length base byte16 N = c :: t /\
    (c = base + N /\ N <= 15 /\ t = [] \/ c = byte16 /\ N < 2 ^ 16 /\ t = write_number false 2 N \/ c = byte16 + 1 /\ t = write_number false 4 N).
Proof.
  intros HN Hk Hb. unfold write_msgpack_length.
  destruct (Z.leb_spec N 15); [|destruct (Z.leb_spec N 0xFFFF); [|destruct (Z.leb_spec N 0xFFFFFFFF); [|lia]]]; (eexists _, _; split; [reflexivity|]).
  - left. split; [|done]. rewrite Hk, lor_lead by lia. apply Z.mod_small. lia.
  - right. left. split; [done|]. split; [lia|done].
  - right. by right.
Qed.

Lemma msgpack_value_array N body s s' :
  0 <= N < 2 ^ 32 -> (forall c, takes_at c (get_msgpack_array parse N) body s true s') ->
  value_takes (write_msgpack_length 0x90 0xDC N ++ body) s s'.
Proof.
  intros HN He. destruct (write_length_cases 9 0x90 0xDC N) as (c & t & -> & Hc); [done|done|lia|].
  exists c, (t ++ body). split; [done|]. destruct Hc as [(-> & Hl & ->)|[(-> & Hl & ->)|(-> & ->)]].
  - unfold msgpack_value. in_range. rewrite (land_low _ 4) by (done || lia). apply He.
  - apply takes_any, (number_and_take _ _ 2 N); [by left|simpl; lia|]. intros rest cur j. apply He.
  - apply takes_any, (number_and_take _ _ 4 N); [by left|simpl; lia|]. intros rest cur j. apply He.
Qed.

Lemma msgpack_value_object N body s s' :
  0 <= N < 2 ^ 32 -> (forall c, takes_at c (get_msgpack_object parse N) body s true s') ->
  value_takes (write_msgpack_length 0x80 0xDE N ++ body) s s'.
Proof.
  intros HN He. destruct (write_length_cases 8 0x80 0xDE N) as (c & t & -> & Hc); [done|done|lia|].
  exists c, (t ++ body). split; [done|]. destruct Hc as [(-> & Hl & ->)|[(-> & Hl & ->)|(-> & ->)]].
  - unfold msgpack_value. in_range. rewrite (land_low _ 4) by (done || lia). apply He.
  - apply takes_any, (number_and_take _ _ 2 N); [by left|simpl; lia|]. intros rest cur j. apply He.
  - apply takes_any, (number_and_take _ _ 4 N); [by left|simpl; lia|]. intros rest cur j. apply He.
Qed.

(** A key and its value. *)
Lemma msgpack_member_take k t s s' (ev : M S unit) :
  Z.of_nat (length k) < 2 ^ 32 -> Forall is_byte k -> (event (sax_key k);; ev) s = Ok (tt, s') ->
  (forall s s', ev s = Ok (tt, s') -> takes parse t s true s') ->
  takes (br_get;; br_and get_msgpack_string (fun key =>
    ok ← with_handler (sax_key key); if ok : bool then parse else mret false)) (write_msgpack_string k ++ t) s true s'.
Proof.
  intros Hl Hk He Hv. apply bind_ok_inv in He as ([] & s1 & H1 & H2).
  destruct (string_take k s Hl Hk) as (c & u & -> & _ & _ & Hs). cbn [app].
  apply (takes_get c (fun _ => br_and get_msgpack_string _)). eapply takes_at_bind; [exact Hs|]. rewrite <- (app_nil_l t).
  eapply takes_bind; [by apply takes_event|]. by apply Hv.
Qed.
End values.

Lemma msgpack_nonempty v : wf_json v -> fits v -> sizes_below (2 ^ 32) v -> write_msgpack v <> [].
Proof.
  destruct v as [|ms|vs|u|b|n|n|x|u st|]; cbn [write_msgpack sizes_below]; try done.
  - intros _ _ [Hl _]. destruct (write_length_cases 8 0x80 0xDE (Z.of_nat (length ms))) as (? & ? & -> & _); [lia|done|lia|done].
  - intros _ _ [Hl _]. destruct (write_length_cases 9 0x90 0xDC (Z.of_nat (length vs))) as (? & ? & -> & _); [lia|done|lia|done].
  - intros _ _ Hl. unfold write_msgpack_string.
    destruct (Z.leb_spec (Z.of_nat (length u)) 31); [done|destruct (Z.leb_spec (Z.of_nat (length u)) 0xFF); [done|]].
    destruct (Z.leb_spec (Z.of_nat (length u)) 0xFFFF); [done|destruct (Z.leb_spec (Z.of_nat (length u)) 0xFFFFFFFF); [done|lia]].
  - intros _ _ _. unfold write_msgpack_unsigned, write_msgpack_negative. repeat (match goal with |- context[if ?b then _ else _] => destruct b eqn:? end; try done).
  - intros _ _ _. unfold write_msgpack_unsigned. repeat (match goal with |- context[if ?b then _ else _] => destruct b eqn:? end; try done).
  - intros _ _ _. unfold write_compact_float. by destruct (fits_float x).
  - intros _ _ Hl. unfold write_msgpack_binary.
    repeat (match goal with |- context[if ?b then _ else _] => destruct b eqn:? end; try done). lia.
Qed.

(** The reader on what was written. *)
Lemma msgpack_take v fuel s s' :
  wf_json v -> fits v -> sizes_below (2 ^ 32) v -> (length (write_msgpack v) < fuel)%nat ->
  emit true (msgpack_image v) s = Ok (tt, s') ->
  takes (parse_msgpack_internal fuel) (write_msgpack v) s true s'.
Proof.
  revert v s s'. induction fuel as [|fuel IH]; [lia|]. intros v s s' Hv Hf Hs Hl He.
  assert (value_takes (parse_msgpack_internal fuel) (write_msgpack v) s s' ->
    takes (parse_msgpack_internal (Datatypes.S fuel)) (write_msgpack v) s true s') as Hget
    by (intros (c & u & -> & Hc); by apply takes_get).
  apply Hget. clear Hget.
  destruct v as [|ms|vs|u|b|n|n|x|u st|]; unfold msgpack_image in He; cbn [map_scalars msgpack_scalar emit write_msgpack] in *;
    fold msgpack_image in He; try done.
  - exists 0xC0, []. split; [done|]. by apply takes_at_event.
  - apply wf_object in Hv as [_ Hv]. apply fits_object in Hf as [Hn Hf]. cbn [sizes_below] in Hs. destruct Hs as [Hlen Hs].
    rewrite foldr_and in Hs. rewrite length_map in He. rewrite length_app in Hl. apply msgpack_value_object; [lia|]. intros c.
    eapply container_take; [exact He|]. clear He s s'. intros s s' He.
    fold (emit_members (S := S) true (map (fun m => (m.1, msgpack_image m.2)) ms)) in He.
    rewrite emit_members_events, foldr_fmap in He. eapply times_take; [|exact He].
    rewrite Forall_forall in *. intros [k v] Hin. destruct (Hv _ Hin) as [Hk Hw1], (Hs _ Hin) as [Hkl Hsv].
    pose proof (length_in_concat (fun m : list Z * json Z => write_msgpack_string m.1 ++ write_msgpack m.2) (k, v) ms Hin) as Hlm.
    cbn [fst snd] in *. rewrite length_app in Hlm. destruct (string_take k s Hkl Hk) as (c' & t & Hwk & _).
    split; [by rewrite Hwk|]. intros s1 s2 Hm. eapply msgpack_member_take; [done|exact Hk|exact Hm|].
    intros s3 s4 He34. apply IH; auto; [apply (Hf _ Hin)|]. assert (1 <= length (write_msgpack_string k))%nat by (rewrite Hwk; simpl; lia). lia.
  - apply wf_array in Hv. apply fits_array in Hf as [Hn Hf]. cbn [sizes_below] in Hs. destruct Hs as [Hlen Hs].
    rewrite foldr_and in Hs. rewrite length_map in He. rewrite length_app in Hl. apply msgpack_value_array; [lia|]. intros c.
    assert (1 <= length (write_msgpack_length 0x90 0xDC (Z.of_nat (length vs))))%nat as Hhead.
    { destruct (write_length_cases 9 0x90 0xDC (Z.of_nat (length vs))) as (? & ? & -> & _); [lia|done|lia|simpl; lia]. }
    eapply container_take; [exact He|]. clear He s s'. intros s s' He. rewrite foldr_fmap in He.
    eapply (times_take _ (fun v => emit true (msgpack_image v))); [|exact He].
    rewrite Forall_forall in *. intros v Hin. pose proof (length_in_concat write_msgpack v vs Hin).
    split; [by apply msgpack_nonempty; auto|]. intros s1 s2 H12. apply IH; auto. lia.
  - by apply msgpack_value_string.
  - destruct b; [exists 0xC3, []|exists 0xC2, []]; (split; [done|]); by apply takes_at_event.
  - unfold unsigned_image in He. cbn [wf_json] in Hv. unfold in_s in Hv. destruct (Z.leb_spec 0 n).
    + apply msgpack_value_unsigned; [unfold in_u; lia|exact He].
    + apply msgpack_value_negative; [lia|exact He].
  - by apply msgpack_value_unsigned.
  - by apply msgpack_value_float.
  - destruct Hv as [Hb _]. by apply msgpack_value_binary.
Qed.
End take.

(** ** The round trip *)

(** C21 What [to_msgpack] writes for a value with strings of bytes, numbers of 64 bits
    and strings and containers of less than 2 ^ 32 elements, [from_msgpack] reads as
    the same value, under any setting: but that an integer that is not negative comes
    back unsigned and that a subtype is cut to eight bits. *)
Theorem msgpack_roundtrip (v : json Z) (strict exceptions : bool) :
  wf_json v -> fits v -> sizes_below (2 ^ 32) v ->
  from_msgpack strict exceptions (to_msgpack v) = Ok (msgpack_image v).
Proof.
  intros Hv Hf Hs. destruct (scalar_image_wf _ msgpack_scalar_image v Hv) as [Hwi Hfi].
  apply (from_take true); [done|intros _; by apply Hfi|]. intros s s' He.
  apply takes_fuel. intros fuel Hl. apply msgpack_take; try done. unfold to_msgpack in Hl. lia.
Qed.

Definition msgpack_sample : json Z :=
  Jarray [Jnull; Jnumber_integer (-500); Jnumber_integer 7; Jnumber_float 0x3FF8000000000000; Jnumber_float 0x3FB999999999999A;
    Jobject [(str "k", Jbinary [1; 255] (Some 300)); (str "l", Jstring (str "s"))]].

Lemma msgpack_roundtrip_witness :
  from_msgpack true true (to_msgpack msgpack_sample) = Ok (msgpack_image msgpack_sample) /\
  length (to_msgpack msgpack_sample) = 31%nat /\
  msgpack_image msgpack_sample =
    Jarray [Jnull; Jnumber_integer (-500); Jnumber_unsigned 7; Jnumber_float 0x3FF8000000000000; Jnumber_float 0x3FB999999999999A;
      Jobject [(str "k", Jbinary [1; 255] (Some 44)); (str "l", Jstring (str "s"))]].
Proof.
  split; [|split; vm_compute; reflexivity].
  apply msgpack_roundtrip; [|vm_compute; repeat split; discriminate|vm_compute; repeat split; discriminate].
  unfold msgpack_sample. simpl. repeat split; try lia; repeat constructor; done.
Defined.
