(* ===== verification/JsonBinaryTotal.v ===== *)
(** JsonBinaryTotal: the methods of [binary_reader] on any bytes, against the
    interface [SaxSpec] of a handler: they return, with the input no longer than it
    was, or they throw what the reader may throw. *)

From S2P Require Import Prelude Json JsonLexer JsonParser JsonDump JsonUtf8 JsonDom JsonTotal JsonParse JsonRead JsonBuild JsonAccess JsonBinary JsonBinaryProps.

(** What a binary reader may throw: its own errors, when exceptions are allowed, and,
    where lengths are announced ([sized]), that a container is larger than memory,
    always. *)
Definition binary_thrown (codes : Z -> Prop) (exceptions sized : bool) (f : fault) : Prop :=
  thrown_by codes exceptions f \/ sized = true /\ exists what, f = Thrown 408 what.

Lemma follow_range first c : first <= c <= first + 3 -> 256 ^ Z.of_nat (follow_bytes first c) <= 2 ^ 64.
Proof.
  intros Hc. unfold follow_bytes. assert (c - first = 0 \/ c - first = 1 \/ c - first = 2 \/ c - first = 3) as [-> | [-> | [-> | ->]]] by lia;
    vm_compute; discriminate.
Qed.

(** A signed number of up to eight bytes. *)
Lemma signed_range w x : 0 < w <= 64 -> in_s 64 (swrap w x).
Proof.
  intros Hw. pose proof (swrap_range w x ltac:(lia)) as Hr. unfold in_s in *.
  pose proof (Z.pow_le_mono_r 2 (w - 1) (64 - 1) ltac:(lia) ltac:(lia)). lia.
Qed.

Section total.
Context {S : Type} `{Sax Z S} {codes : Z -> Prop} {exceptions : bool}.
Context {ready after : list bool -> S -> Prop} {failed : S -> Prop}.
Context {HS : SaxSpec codes exceptions ready after failed} (H110 : codes 110).
Context {sized : bool}.
Abbreviation reader := (binary_reader (S := S)).
Abbreviation BR := (M reader).
Abbreviation E := (binary_thrown codes exceptions sized).
Implicit Types (r : reader) (s : S) (n m : nat) (states : list bool) (format : input_format_t) (c : Z).

(** At most [n] bytes are left and the handler is [s]. *)
Record reads n s r : Prop := Reads {
  reads_bytes : Forall is_byte (r_ia r);
  reads_length : (length (r_ia r) <= n)%nat;
  reads_sax : r_sax r = s
}.

(** The reader reported an error, which was not thrown. *)
Record stopped n r : Prop := Stopped {
  stopped_bytes : Forall is_byte (r_ia r);
  stopped_length : (length (r_ia r) <= n)%nat;
  stopped_failed : failed (r_sax r)
}.

(** A handler an error may be reported to. *)
Definition settled s : Prop := (exists states, after states s) \/ failed s.

(** The last byte read. *)
Definition at_char (c : Z) r : Prop := r_current r = c /\ (c = EOF /\ r_ia r = [] \/ is_byte c).

(** The outcome of a call: a result and the handler as it was, or a reported error. *)
Definition outcome {A} (P : A -> Prop) n s (x : option A) r : Prop :=
  match x with Some a => P a /\ reads n s r | None => stopped n r end.

Lemma reads_more n m s r : reads n s r -> (n <= m)%nat -> reads m s r.
Proof. intros [] ?. split; auto with lia. Qed.
Lemma stopped_more n m r : stopped n r -> (n <= m)%nat -> stopped m r.
Proof. intros [] ?. split; auto with lia. Qed.

Lemma outcome_more {A} (P Q : A -> Prop) n m s x r :
  outcome P n s x r -> (forall a, P a -> Q a) -> (n <= m)%nat -> outcome Q m s x r.
Proof.
  intros Ho HPQ Hl. destruct x as [a|]; simpl in *; [|by eapply stopped_more].
  destruct Ho as [? ?]. split; [auto|by eapply reads_more].
Qed.

(** An error is reported to a handler that then is in [Q]. *)
Lemma error_gen (Q : S -> Prop) format id token detail context n s r :
  (forall pos t what, wp (thrown_by codes exceptions) (sax_parse_error pos t (Thrown id what)) s (fun ok s' => ok = false /\ Q s')) ->
  reads n s r ->
  wp E (br_error format id token detail context) r (fun b r' => b = false /\ r_ia r' = r_ia r /\ Q (r_sax r')).
Proof.
  intros HQ [Hb Hl <-]. unfold br_error. apply wp_bind, wp_gets. unfold with_handler, parse_error_at.
  match goal with |- context[sax_parse_error ?a ?b (Thrown ?c ?d)] => pose proof (HQ a b d) as Hw end.
  unfold wp in *. destruct (sax_parse_error _ _ _ (r_sax r)) as [[ok s']|f]; [|by left]. by destruct Hw.
Qed.

Lemma settled_error id s pos t what :
  codes id -> settled s -> wp (thrown_by codes exceptions) (sax_parse_error pos t (Thrown id what)) s (fun ok s' => ok = false /\ failed s').
Proof. intros Hid [[states Ha]|Hf]; [by apply (spec_error _ _ _ _ states)|by apply spec_error_again]. Qed.

Lemma error_ok format id token detail context n s r :
  codes id -> settled s -> reads n s r -> wp E (br_error format id token detail context) r (fun b r' => b = false /\ stopped n r').
Proof.
  intros Hid Hs Hr. eapply wp_mono; [by apply (error_gen failed _ _ _ _ _ n s); [intros; apply settled_error|]|].
  intros b r' (-> & Hia & Hf). destruct Hr. split; [done|]. split; rewrite ?Hia; done.
Qed.

Lemma get_ok n s r (Q : Z -> reader -> Prop) :
  reads n s r ->
  (forall c r', at_char c r' -> (c <> EOF -> (0 < n)%nat) -> reads (n - 1) s r' -> Q c r') ->
  wp E br_get r Q.
Proof.
  intros [Hb Hl Hs] HQ. unfold wp, br_get. destruct (r_ia r) as [|c l] eqn:El.
  - apply HQ; [split; [done|by left]|done|]. split; [done|simpl; lia|done].
  - apply Forall_cons in Hb as [Hc Hb]. simpl in Hl. apply HQ; [split; [done|by right]|lia|].
    split; simpl; [done|lia|done].
Qed.

Lemma eof_ok format context c n s r (Q : bool -> reader -> Prop) :
  at_char c r -> reads n s r -> settled s ->
  (c = EOF -> forall r', stopped 0 r' -> Q false r') -> (c <> EOF -> is_byte c -> Q true r) ->
  wp E (unexpect_eof format context) r Q.
Proof.
  intros [Hc Hor] Hr Hs HF HT. unfold unexpect_eof. apply wp_bind, wp_gets. rewrite Hc. destruct (Z.eqb_spec c EOF) as [He|He].
  - eapply wp_mono; [apply (error_ok _ _ _ _ _ 0 s); [done..|]|].
    + destruct Hr as [Hb Hl Hs']. split; [done| |done]. destruct Hor as [[_ ->]|Hx]; [done|]. unfold is_byte, in_u in Hx. lia.
    + intros b r' [-> Hst]. auto.
  - apply wp_ret, HT; [done|]. by destruct Hor as [[? _]|?].
Qed.

(** A number of [k] bytes; where there are fewer, the input is at its end. *)
Lemma get_number_gen (Q : S -> Prop) little k format n s r :
  (forall pos t what, wp (thrown_by codes exceptions) (sax_parse_error pos t (Thrown 110 what)) s (fun ok s' => ok = false /\ Q s')) ->
  reads n s r ->
  wp E (get_number little k format) r (fun x r' =>
    match x with Some a => 0 <= a < 256 ^ Z.of_nat k /\ reads n s r' | None => r_ia r' = [] /\ Q (r_sax r') end).
Proof.
  intros HQ [Hb Hl Hs]. unfold get_number, get_to, get_elements. apply wp_bind, wp_bind. unfold wp at 1. cbn beta iota.
  assert (Forall is_byte (drop k (r_ia r))) as Hd by by apply Forall_drop.
  pose proof (length_drop (r_ia r) k) as Hld. pose proof (length_take (r_ia r) k) as Hlt.
  case_bool_decide as Ht.
  - apply wp_bind, wp_modify, wp_bind. eapply wp_mono; [apply (error_gen Q _ _ _ _ _ 0 s); [done|]|].
    + split; simpl; [done|lia|done].
    + intros b r' (_ & Hia & Hq). apply wp_ret, wp_ret. split; [|done]. rewrite Hia. simpl. apply nil_length_inv. lia.
  - apply wp_ret, wp_ret. simpl. split; [|split; simpl; [done|lia|done]].
    assert (Z.of_nat k = Z.of_nat (length (take k (r_ia r)))) as -> by lia.
    pose proof (Forall_take is_byte k _ Hb) as Ht'. destruct (_ || _); [by apply le_val_range|].
    rewrite <- length_rev. by apply le_val_range, Forall_rev.
Qed.

Lemma get_number_end little k format n s r :
  reads n s r -> settled s ->
  wp E (get_number little k format) r (fun x r' =>
    match x with Some a => 0 <= a < 256 ^ Z.of_nat k /\ reads n s r' | None => stopped 0 r' end).
Proof.
  intros Hr Hset. eapply wp_mono; [apply (get_number_gen failed _ _ _ n s); [intros; by apply settled_error|done]|].
  intros [a|] r' Hx; [done|]. destruct Hx as [Hia Hf]. by split; rewrite ?Hia.
Qed.

Lemma get_number_ok little k format n s r :
  reads n s r -> settled s ->
  wp E (get_number little k format) r (outcome (fun x => 0 <= x < 256 ^ Z.of_nat k) n s).
Proof.
  intros Hr Hs. eapply wp_mono; [by apply (get_number_end little k format n s)|].
  intros [a|] r' Hx; [done|]. eapply stopped_more; [done|lia].
Qed.

(** The characters of a string. *)
Lemma get_chars_ok fuel format context i len result n s r :
  reads n s r -> settled s -> Forall is_byte result -> (n < fuel)%nat ->
  wp E (get_chars_loop fuel format context i len result) r (outcome (Forall is_byte) n s).
Proof.
  revert i result n r. induction fuel as [|fuel IH]; [lia|]. intros i result n r Hr Hs Hres Hf. cbn [get_chars_loop].
  destruct (i <? len); [|by apply wp_ret]. apply wp_bind, (get_ok n s); [done|]. intros c r1 Hc Hn Hr1.
  apply wp_bind, (eof_ok _ _ c (n - 1) s); [done..| |].
  - intros _ r2 Hst. apply wp_ret. eapply stopped_more; [done|lia].
  - intros Hne Hbyte. cbn [negb]. specialize (Hn Hne).
    apply wp_bind, wp_gets. destruct Hc as [-> _]. eapply wp_mono; [apply (IH _ _ (n - 1)%nat); [done..| |lia]|].
    + apply Forall_app. split; [done|]. constructor; [|done]. apply uwrap_range. lia.
    + intros x r2 Hx. eapply outcome_more; [exact Hx|done|lia].
Qed.

Lemma br_string_ok format len result n s r :
  reads n s r -> settled s -> Forall is_byte result -> wp E (br_get_string format len result) r (outcome (Forall is_byte) n s).
Proof.
  intros [Hb Hl Hsx] Hs Hres. apply wp_bind, wp_gets. eapply wp_mono; [apply (get_chars_ok _ _ _ _ _ _ (length (r_ia r)) s); [by split|done..|lia]|].
  intros x r' Hx. by eapply outcome_more.
Qed.

Lemma br_binary_ok format len result n s r :
  reads n s r -> settled s -> Forall is_byte result -> wp E (br_get_binary format len result) r (outcome (Forall is_byte) n s).
Proof.
  intros [Hb Hl Hsx] Hs Hres. apply wp_bind, wp_gets. eapply wp_mono; [apply (get_chars_ok _ _ _ _ _ _ (length (r_ia r)) s); [by split|done..|lia]|].
  intros x r' Hx. by eapply outcome_more.
Qed.

(** ** Values *)

(** The outcome of a method that reads a value, or some of them: the handler is in
    [I]. *)
Record holds_after (I : S -> Prop) n r : Prop := HoldsAfter {
  after_bytes : Forall is_byte (r_ia r);
  after_length : (length (r_ia r) <= n)%nat;
  after_handler : I (r_sax r)
}.
Definition valued (I : S -> Prop) n (b : bool) r : Prop := if b then holds_after I n r else stopped n r.

Lemma valued_more (I J : S -> Prop) n m b r :
  valued I n b r -> (forall s, I s -> J s) -> (n <= m)%nat -> valued J m b r.
Proof.
  intros Hv HIJ Hl. destruct b; simpl in *; [|by eapply stopped_more]. destruct Hv. split; [done|lia|auto].
Qed.

(** An event that the handler agrees to. *)
Lemma event_ok (m : M S bool) (I : S -> Prop) n s r :
  reads n s r -> wp nofault m s (fun ok s' => ok = true /\ I s') -> wp E (with_handler m) r (valued I n).
Proof.
  intros [Hb Hl <-] Hm. unfold with_handler, wp in *. destruct (m (r_sax r)) as [[ok s']|f]; [|done].
  destruct Hm as [-> Hi]. by split.
Qed.

Lemma start_ok (m : M S bool) (I : S -> Prop) len n s r :
  (sized = false -> len = unknown_size) -> reads n s r -> wp (excessive len) m s (fun ok s' => ok = true /\ I s') -> wp E (with_handler m) r (valued I n).
Proof.
  intros Hsz [Hb Hl <-] Hm. unfold with_handler, wp in *. destruct (m (r_sax r)) as [[ok s']|f].
  - destruct Hm as [-> Hi]. by split.
  - destruct Hm as [Hne Hx]. right. destruct sized; [done|]. by destruct Hne; apply Hsz.
Qed.

Lemma and_ok {A} (m : BR (option A)) (k : A -> BR bool) (P : A -> Prop) (I : S -> Prop) n s r :
  wp E m r (outcome P n s) -> (forall a r', P a -> reads n s r' -> wp E (k a) r' (valued I n)) ->
  wp E (br_and m k) r (valued I n).
Proof.
  intros Hm Hk. apply wp_bind. eapply wp_mono; [exact Hm|]. intros [a|] r' Hx; [|by apply wp_ret]. destruct Hx. by apply Hk.
Qed.

(** A body that reads a byte or more. *)
Definition body_ok (I : S -> Prop) n (body : BR bool) : Prop :=
  forall m s r, (m <= n)%nat -> I s -> reads m s r ->
    wp E body r (fun b r' => if b then (0 < m)%nat /\ holds_after I (m - 1) r' else stopped m r').

Lemma times_ok I body len n s r :
  body_ok I n body -> I s -> reads n s r -> wp E (br_times len body) r (valued I n).
Proof.
  intros Hbody Hs Hr. pose proof Hr as [Hb Hl Hsx]. apply wp_bind, wp_gets.
  assert (forall fuel m i s r, (m <= n)%nat -> (m < fuel)%nat -> I s -> reads m s r ->
    wp E (times_loop body fuel i len) r (valued I m)) as Hloop.
  { induction fuel as [|fuel IH]; [lia|]. intros m i s1 r1 Hm Hf Hi Hr1. cbn [times_loop].
    destruct (i <? len); [|destruct Hr1 as [? ? <-]; by apply wp_ret].
    apply wp_bind. eapply wp_mono; [by apply (Hbody m s1)|]. intros [] r2 Hr2; [|by apply wp_ret]. destruct Hr2 as [Hm0 []].
    eapply wp_mono; [apply (IH (m - 1)%nat _ (r_sax r2)); [lia|lia|done|by split]|].
    intros b r3 Hr3. eapply valued_more; [exact Hr3|done|lia]. }
  eapply wp_mono; [apply (Hloop _ (length (r_ia r)) 0 s); [done|lia|done|by split]|].
  intros b r3 Hr3. by eapply valued_more.
Qed.

(** A body that looks at a byte that was read; at the end of the input it fails. *)
Definition break_round_ok {A} (P : A -> Prop) (I : S -> Prop) n (body : A -> BR (option A)) : Prop :=
  forall c a m s r, (m <= n)%nat -> (c <> EOF -> (m < n)%nat) -> P a -> I s -> at_char c r -> reads m s r ->
    wp E (body a) r (fun x r' =>
      match x with Some a => c <> EOF /\ P a /\ holds_after I m r' | None => stopped m r' end).

Lemma until_break_ok {A} P I (body : A -> BR (option A)) a n s r :
  break_round_ok P I n body -> P a -> I s -> reads n s r ->
  wp E (br_until_break body a) r (fun x r' => match x with Some a => P a /\ holds_after I n r' | None => stopped n r' end).
Proof.
  intros Hbody Ha Hs Hr. pose proof Hr as [Hb Hl Hsx]. apply wp_bind, wp_gets.
  assert (forall fuel m a s r, (m <= n)%nat -> (m < fuel)%nat -> P a -> I s -> reads m s r ->
    wp E (break_loop body fuel a) r (fun x r' => match x with Some a => P a /\ holds_after I m r' | None => stopped m r' end)) as Hloop.
  { induction fuel as [|fuel IH]; [lia|]. intros m a1 s1 r1 Hm Hf Ha1 Hi Hr1. cbn [break_loop].
    apply wp_bind, (get_ok m s1); [done|]. intros c r2 Hc Hm0 Hr2. destruct (Z.eqb_spec c 0xFF) as [->|Hne].
    { destruct Hr2 as [? ? <-]. apply wp_ret. split; [done|]. split; [done|lia|done]. }
    apply wp_bind. eapply wp_mono; [apply (Hbody c a1 (m - 1)%nat s1); [lia|intros Hce; specialize (Hm0 Hce); lia|done..]|]. intros [a2|] r3 Hx.
    - destruct Hx as (Hce & Ha2 & []). specialize (Hm0 Hce).
      eapply wp_mono; [apply (IH (m - 1)%nat _ (r_sax r3)); [lia|lia|done..|by split]|].
      intros [a3|] r4 Hr4; [|eapply stopped_more; [done|lia]]. destruct Hr4 as [? []]. split; [done|]. split; [done|lia|done].
    - apply wp_ret. eapply stopped_more; [done|lia]. }
  eapply wp_mono; [apply (Hloop _ (length (r_ia r)) a s); [done|lia|done..|by split]|].
  intros [a3|] r4 Hr4; [|by eapply stopped_more]. destruct Hr4 as [? []]. split; [done|]. split; [done|lia|done].
Qed.

Lemma while_break_ok I (body : BR bool) n s r :
  (forall c m s r, (m <= n)%nat -> (c <> EOF -> (m < n)%nat) -> I s -> at_char c r -> reads m s r ->
    wp E body r (fun b r' => if b then c <> EOF /\ holds_after I m r' else stopped m r')) ->
  I s -> reads n s r -> wp E (while_not_break body) r (valued I n).
Proof.
  intros Hbody Hs Hr. apply wp_bind. eapply wp_mono.
  - apply (until_break_ok (fun _ : unit => True) I _ tt n s); [|done..]. intros c [] m s1 r1 Hm Hm0 _ Hi Hc Hr1. apply wp_bind.
    eapply wp_mono; [by apply (Hbody c m s1)|]. intros [] r2 Hr2; apply wp_ret; [|done]. by destruct Hr2.
  - intros [[]|] r' Hx; apply wp_ret; [by destruct Hx|exact Hx].
Qed.

(** [start], the elements, [end]; the handler does not touch the byte read last. *)
Lemma container_at (start stop : M S bool) (loop : BR bool) (I J : S -> Prop) len n s r :
  (sized = false -> len = unknown_size) -> reads n s r -> wp (excessive len) start s (fun ok s' => ok = true /\ I s') ->
  (forall s' r', I s' -> reads n s' r' -> r_current r' = r_current r -> wp E loop r' (valued I n)) ->
  (forall s, I s -> wp nofault stop s (fun ok s' => ok = true /\ J s')) ->
  wp E (ok ← with_handler start;
    if negb ok then mret false
    else ok ← loop; if ok : bool then with_handler stop else mret false) r (valued J n).
Proof.
  intros Hsz Hr Hstart Hloop Hstop. apply wp_bind.
  apply (wp_mono _ _ _ (fun b r' => valued I n b r' /\ r_current r' = r_current r)).
  { pose proof (start_ok start I len n s r Hsz Hr Hstart) as Hw. unfold wp, with_handler in *.
    destruct (start (r_sax r)) as [[b s']|f]; [by split|done]. }
  intros [] r1 [Hr1 Hc1]; [|by apply wp_ret]. cbn [negb]. destruct Hr1 as [Hb Hl Hi]. apply wp_bind.
  eapply wp_mono; [by apply (Hloop (r_sax r1))|]. intros [] r2 Hr2; [|by apply wp_ret]. destruct Hr2 as [Hb2 Hl2 Hi2].
  apply (event_ok _ J n (r_sax r2)); [by split|by apply Hstop].
Qed.

Lemma container_ok (start stop : M S bool) (loop : BR bool) (I J : S -> Prop) len n s r :
  (sized = false -> len = unknown_size) -> reads n s r -> wp (excessive len) start s (fun ok s' => ok = true /\ I s') ->
  (forall s r, I s -> reads n s r -> wp E loop r (valued I n)) ->
  (forall s, I s -> wp nofault stop s (fun ok s' => ok = true /\ J s')) ->
  wp E (ok ← with_handler start;
    if negb ok then mret false
    else ok ← loop; if ok : bool then with_handler stop else mret false) r (valued J n).
Proof. intros Hsz Hr Hstart Hloop Hstop. apply (container_at _ _ _ I J len n s); try done. intros s' r' Hs' Hr' _. by apply (Hloop s'). Qed.

(** ** After the byte [c] *)

Lemma ready_settled states s : ready states s -> settled s.
Proof. intros Hs. left. exists states. by apply spec_ready. Qed.
Lemma after_settled states s : after states s -> settled s.
Proof. intros Hs. left. by exists states. Qed.

(** What a string function promises after the byte [c]. *)
Definition chunk {A} (P : A -> Prop) c n s (x : option A) r : Prop :=
  match x with Some a => c <> EOF /\ P a /\ reads n s r | None => stopped n r end.

Lemma outcome_chunk {A} (m : BR (option A)) P c n s r :
  c <> EOF -> wp E m r (outcome P n s) -> wp E m r (chunk P c n s).
Proof. intros Hc Hm. eapply wp_mono; [exact Hm|]. intros [a|] r' Hx; [|done]. by destruct Hx. Qed.

(** What a value function promises after the byte [c]. *)
Definition item (I : S -> Prop) c n (b : bool) r : Prop := if b then c <> EOF /\ holds_after I n r else stopped n r.

Lemma valued_item (m : BR bool) (I : S -> Prop) c n r : c <> EOF -> wp E m r (valued I n) -> wp E m r (item I c n).
Proof. intros Hc Hm. eapply wp_mono; [exact Hm|]. by intros [] r' Hx. Qed.

(** [k] on what a string function read. *)
Lemma chunk_and {A} (m : BR (option A)) k P c (I : S -> Prop) n s r :
  wp E m r (chunk P c n s) -> (forall a r', c <> EOF -> P a -> reads n s r' -> wp E (k a) r' (item I c n)) ->
  wp E (br_and m k) r (item I c n).
Proof.
  intros Hm Hk. apply wp_bind. eapply wp_mono; [exact Hm|]. intros [a|] r' Hx; [|by apply wp_ret].
  destruct Hx as (? & ? & ?). by apply Hk.
Qed.

(** A reader whose input has ended. *)
Lemma get_stopped r (Q : Z -> reader -> Prop) :
  stopped 0 r -> (forall r', at_char EOF r' -> stopped 0 r' -> Q EOF r') -> wp E br_get r Q.
Proof.
  intros [Hb Hl Hf] HQ. unfold wp, br_get. destruct (r_ia r) eqn:El; [|simpl in Hl; lia].
  apply HQ; [split; [done|by left]|by split].
Qed.

(** A number after its byte, and what is done with it. *)
Lemma number_and format first c (k : Z -> BR bool) states n s r :
  reads n s r -> ready states s -> first <= c <= first + 3 ->
  (forall x r', in_u 64 x -> reads n s r' -> wp E (k x) r' (valued (after states) n)) ->
  wp E (br_and (get_number false (follow_bytes first c) format) k) r (valued (after states) n).
Proof.
  intros Hr Hs Hf Hk. eapply and_ok; [apply (get_number_ok _ _ _ n s); [exact Hr|by eapply ready_settled]|].
  intros x r' Hx Hr'. apply Hk; [|done]. pose proof (follow_range first c Hf). cbv beta in Hx. unfold in_u. lia.
Qed.

End total.

(** ** [from_cbor] and the others

    A reader that behaves on any bytes gives a well-formed value; [Q] is what it says of
    the handler where it fails. *)
Definition gets_next (codes : Z -> Prop) (exceptions sized : bool) (next : M (binary_reader (S := dom (F := Z))) Z) : Prop :=
  forall n d r (Q : Z -> _ -> Prop), reads n d r -> (forall c r', reads n d r' -> Q c r') ->
    wp (binary_thrown codes exceptions sized) next r Q.

Lemma br_get_next codes exceptions sized : gets_next codes exceptions sized br_get.
Proof.
  intros n d r Q Hr HQ. apply (get_ok n d); [done|]. intros c r' _ _ Hr'. apply HQ. eapply reads_more; [exact Hr'|lia].
Qed.

Lemma from_run (codes : Z -> Prop) (Q : dom (F := Z) -> Prop) parse next format (strict exceptions sized : bool) (s : list Z) :
  codes 110 -> Forall is_byte s -> gets_next codes exceptions sized next -> (forall d, dom_failed exceptions d -> Q d) ->
  (forall n d r, reads n d r -> ready exceptions [] d ->
    wp (binary_thrown codes exceptions sized) parse r (fun (b : bool) r' => if b then holds_after (dom_ok exceptions []) n r' else Q (r_sax r'))) ->
  match br_from parse next format strict exceptions s with
  | Ok v => wf_json v \/ (v = Jdiscarded /\ exists d, Q d)
  | Fault f => binary_thrown codes exceptions sized f
  end.
Proof.
  intros H110 Hb Hnext HQ Hp. unfold br_from. set (r0 := Reader s EOF 0 (dom_init exceptions)).
  assert (wp (binary_thrown codes exceptions sized) (br_sax_parse parse next format strict) r0
    (fun b r => if b then dom_ok exceptions [] (r_sax r) else Q (r_sax r))) as Hw.
  { apply wp_bind. eapply wp_mono; [apply (Hp (length s) (dom_init exceptions)); [by split|by repeat constructor]|].
    intros [] r Hx; cbn [andb]; [|by apply wp_ret]. destruct Hx as [Hrb Hrl Hri]. destruct strict; [|by apply wp_ret].
    apply wp_bind, (Hnext (length s) (r_sax r)); [by split|]. intros c r1 Hr1.
    apply wp_bind, wp_gets. destruct (negb _); [|apply wp_ret; by rewrite (reads_sax _ _ _ Hr1)].
    apply wp_bind, wp_gets.
    eapply wp_mono; [apply (error_ok (HS := dom_spec exceptions codes) _ _ _ _ _ (length s) (r_sax r)); [done|left; by exists []|done]|].
    intros b r2 [-> []]. by apply HQ. }
  unfold wp in Hw. destruct (br_sax_parse _ _ _ _ r0) as [[[] r]|f]; [left|right|done].
  - by destruct Hw.
  - split; [done|by eexists].
Qed.

Lemma from_total (codes : Z -> Prop) parse next format (strict exceptions sized : bool) (s : list Z) :
  codes 110 -> Forall is_byte s -> gets_next codes exceptions sized next ->
  (forall n d r, reads n d r -> ready exceptions [] d ->
    wp (binary_thrown codes exceptions sized) parse r (valued (failed := dom_failed exceptions) (dom_ok exceptions []) n)) ->
  match br_from parse next format strict exceptions s with
  | Ok v => wf_json v \/ (v = Jdiscarded /\ exceptions = false)
  | Fault f => binary_thrown codes exceptions sized f
  end.
Proof.
  intros H110 Hb Hnext Hp.
  assert (forall d : dom (F := Z), dom_failed exceptions d -> dom_failed exceptions d) as Hid by done.
  assert (forall n d r, reads n d r -> ready exceptions [] d -> wp (binary_thrown codes exceptions sized) parse r
    (fun (b : bool) r' => if b then holds_after (dom_ok exceptions []) n r' else dom_failed exceptions (r_sax r'))) as Hp'.
  { intros n d r Hr Hd. eapply wp_mono; [by apply (Hp n d)|]. intros [] r' Hx; [done|by destruct Hx]. }
  pose proof (from_run codes _ parse next format strict exceptions sized s H110 Hb Hnext Hid Hp') as Hw. case_match; [|done].
  destruct Hw as [?|(-> & d & _ & _ & ->)]; [by left|by right].
Qed.
