(* ===== verification/JsonCborTotal.v ===== *)
(** JsonCborTotal: [from_cbor] on any bytes. *)

From S2P Require Import Prelude Json JsonLexer JsonParser JsonDump JsonUtf8 JsonDom JsonTotal JsonParse JsonRead JsonBuild JsonAccess JsonBinary JsonCbor JsonBinaryProps JsonBinaryTotal.

(** The errors of [parse_cbor_internal]: the input ends, a byte begins no value, a
    byte begins no string. *)
Definition cbor_codes (id : Z) : Prop := id = 110 \/ id = 112 \/ id = 113.

(** ** Numbers *)

Lemma ldexp_in_u m e : 0 <= m < 2 ^ 53 -> 0 < e + 1023 <= 1100 -> in_u 64 (ldexp m e).
Proof. intros Hm He. pose proof (ldexp_range m e Hm He). unfold in_u. lia. Qed.

Lemma negate_in_u d : in_u 64 d -> in_u 64 (negate_double d).
Proof. intros Hd. unfold negate_double. apply in_u_lxor; [lia|done|unfold in_u; lia]. Qed.

Lemma half_value_range h : in_u 64 (half_value h).
Proof.
  assert (0 <= Z.land h 0x3FF < 2 ^ 10) as Hm by (apply (land_ones_range h 10); lia).
  assert (0 <= Z.land (Z.shiftr h 10) 0x1F < 2 ^ 5) as He by (apply (land_ones_range _ 5); lia).
  unfold half_value. set (e := Z.land (Z.shiftr h 10) 0x1F) in *. set (m := Z.land h 0x3FF) in *.
  match goal with |- context[negate_double ?v] => assert (in_u 64 v) as Hv end.
  - destruct (e =? 0); [apply ldexp_in_u; lia|]. destruct (e =? 31); [by destruct (m =? 0)|]. apply ldexp_in_u; lia.
  - destruct (Z.land h 0x8000 =? 0); [exact Hv|]. by apply negate_in_u.
Qed.

Section total.
Context {S : Type} `{Sax Z S} {codes : Z -> Prop} {exceptions : bool}.
Context {ready after : list bool -> S -> Prop} {failed : S -> Prop}.
Context {HS : SaxSpec codes exceptions ready after failed} (Hcodes : forall id, cbor_codes id -> codes id).
Abbreviation reader := (binary_reader (S := S)).
Abbreviation BR := (M reader).
Abbreviation E := (binary_thrown codes exceptions true).
Abbreviation stopped := (stopped (failed := failed)).
Abbreviation settled := (settled (after := after) (failed := failed)).
Abbreviation outcome := (outcome (failed := failed)).
Abbreviation valued := (valued (failed := failed)).
Abbreviation chunk := (chunk (failed := failed)).
Abbreviation item := (item (failed := failed)).
Implicit Types (r : reader) (s : S) (n m : nat) (states : list bool) (tag_handler : cbor_tag_handler_t) (c : Z).

Lemma cbor_codes_eof : codes 110.
Proof. apply Hcodes. by left. Qed.

#[local] Hint Resolve cbor_codes_eof ready_settled after_settled : core.

(** ** Strings and byte strings *)

Lemma cbor_chars_ok base c get_chars result n s r :
  (forall len m r, (m <= n)%nat -> reads m s r -> wp E (get_chars len result) r (outcome (Forall is_byte) m s)) ->
  reads n s r -> settled s -> wp E (cbor_chars base c get_chars result) r (outcome (Forall is_byte) n s).
Proof.
  intros Hg Hr Hs. unfold cbor_chars. destruct (within _ _ _); [by apply Hg|]. apply wp_bind.
  eapply wp_mono; [by apply (get_number_ok cbor_codes_eof _ _ _ n s)|]. intros [len|] r1 Hx; [|by apply wp_ret]. by apply Hg, Hx.
Qed.

Lemma length_error_ok detail context n s r :
  reads n s r -> settled s -> wp E (length_error_at detail context) r (fun x r' => x = None /\ stopped n r').
Proof.
  intros Hr Hs. apply wp_bind, wp_gets, wp_bind. eapply wp_mono; [apply (error_ok _ _ _ _ _ n s); [apply Hcodes; right; by right|done..]|].
  intros b r1 [_ Hst]. by apply wp_ret.
Qed.

Lemma chunks_ok (get : BR (option (list Z))) c n s r result :
  c <> EOF ->
  (forall c m r, (c <> EOF -> (m < n)%nat) -> at_char c r -> reads m s r -> wp E get r (chunk (Forall is_byte) c m s)) ->
  Forall is_byte result -> reads n s r ->
  wp E (br_until_break (fun result => x ← get; mret (x ← x; Some (result ++ x))) result) r (chunk (Forall is_byte) c n s).
Proof.
  intros Hc Hg Hres Hr. eapply wp_mono; [apply (until_break_ok (failed := failed) (Forall is_byte) (fun s' => s' = s) _ result n s); try done|].
  - intros c' a m s' r1 Hm Hm0 Ha -> Hc' Hr1. apply wp_bind. eapply wp_mono; [by apply (Hg c' m)|].
    intros [x|] r2 Hx; apply wp_ret; [|done]. destruct Hx as (He & Hx & []). split; [done|]. split; [by apply Forall_app|by split].
  - intros [a|] r2 Hx; [|done]. destruct Hx as [Ha []]. by split_and!.
Qed.

Lemma get_cbor_string_ok fuel result c n s r :
  (0 < fuel)%nat -> (c <> EOF -> (n + 1 < fuel)%nat) -> at_char c r -> reads n s r -> settled s -> Forall is_byte result ->
  wp E (get_cbor_string fuel result) r (chunk (Forall is_byte) c n s).
Proof.
  revert result c n r. induction fuel as [|fuel IH]; [lia|]. intros result c n r _ Hf Hc Hr Hs Hres. cbn [get_cbor_string].
  apply wp_bind, (eof_ok cbor_codes_eof _ _ c n s); [done..| |].
  - intros _ r1 Hst. apply wp_ret. eapply stopped_more; [done|lia].
  - intros Hne Hbyte. specialize (Hf Hne). cbn [negb]. apply wp_bind, wp_gets. destruct (within _ _ _); [|destruct (_ =? _)].
    + apply outcome_chunk; [done|]. apply cbor_chars_ok; [|done..]. intros len m r1 _ Hr1. by apply br_string_ok.
    + apply chunks_ok; [done| |done..]. intros c' m r1 Hm Hc' Hr1. apply IH; try done; [lia|]. intros He. specialize (Hm He). lia.
    + eapply wp_mono; [by apply (length_error_ok _ _ n s)|]. by intros x r1 [-> Hst].
Qed.

Lemma get_cbor_binary_ok fuel result c n s r :
  (0 < fuel)%nat -> (c <> EOF -> (n + 1 < fuel)%nat) -> at_char c r -> reads n s r -> settled s -> Forall is_byte result ->
  wp E (get_cbor_binary fuel result) r (chunk (Forall is_byte) c n s).
Proof.
  revert result c n r. induction fuel as [|fuel IH]; [lia|]. intros result c n r _ Hf Hc Hr Hs Hres. cbn [get_cbor_binary].
  apply wp_bind, (eof_ok cbor_codes_eof _ _ c n s); [done..| |].
  - intros _ r1 Hst. apply wp_ret. eapply stopped_more; [done|lia].
  - intros Hne Hbyte. specialize (Hf Hne). cbn [negb]. apply wp_bind, wp_gets. destruct (within _ _ _); [|destruct (_ =? _)].
    + apply outcome_chunk; [done|]. apply cbor_chars_ok; [|done..]. intros len m r1 _ Hr1. by apply br_binary_ok.
    + apply chunks_ok; [done| |done..]. intros c' m r1 Hm Hc' Hr1. apply IH; try done; [lia|]. intros He. specialize (Hm He). lia.
    + eapply wp_mono; [by apply (length_error_ok _ _ n s)|]. by intros x r1 [-> Hst].
Qed.

Lemma cbor_string_ok c n s r :
  at_char c r -> reads n s r -> settled s -> wp E cbor_string r (chunk (Forall is_byte) c n s).
Proof.
  intros Hc [Hb Hl Hsx] Hs. apply wp_bind, wp_gets.
  eapply wp_mono; [apply (get_cbor_string_ok _ [] c (length (r_ia r)) s); [lia|lia|done|by split|done..]|].
  intros [a|] r1 Hx; [destruct Hx as (? & ? & ?); split_and!; [done..|by eapply reads_more]|by eapply stopped_more].
Qed.

Lemma cbor_binary_ok c n s r :
  at_char c r -> reads n s r -> settled s -> wp E cbor_binary r (chunk (Forall is_byte) c n s).
Proof.
  intros Hc [Hb Hl Hsx] Hs. apply wp_bind, wp_gets.
  eapply wp_mono; [apply (get_cbor_binary_ok _ [] c (length (r_ia r)) s); [lia|lia|done|by split|done..]|].
  intros [a|] r1 Hx; [destruct Hx as (? & ? & ?); split_and!; [done..|by eapply reads_more]|by eapply stopped_more].
Qed.

(** ** Values *)

Lemma half_ok states n s r : reads n s r -> ready states s -> wp E cbor_half r (valued (after states) n).
Proof.
  intros Hr Hs. unfold cbor_half. apply wp_bind, (get_ok n s); [done|]. intros c1 r1 Hc1 _ Hr1.
  apply wp_bind, (eof_ok cbor_codes_eof _ _ c1 (n - 1) s); [done|done|eauto|..].
  { intros _ r2 Hst. apply wp_ret. eapply stopped_more; [done|lia]. }
  intros _ _. apply wp_bind, (get_ok (n - 1) s); [done|]. intros c2 r2 Hc2 _ Hr2.
  apply wp_bind, (eof_ok cbor_codes_eof _ _ c2 (n - 1 - 1) s); [done|done|eauto|..].
  { intros _ r3 Hst. apply wp_ret. eapply stopped_more; [done|lia]. }
  intros _ _. eapply wp_mono; [apply (event_ok (failed := failed) _ (after states) (n - 1 - 1) s); [done|]|].
  - apply spec_float; [|done]. apply half_value_range.
  - intros b r3 Hx. eapply valued_more; [exact Hx|done|lia].
Qed.

Section value.
Context (parse : bool -> BR bool) (tag_handler : cbor_tag_handler_t) (n : nat).

(** [parse_cbor_internal] on fewer bytes *)
Hypothesis parse_get : forall states m s r, (m <= n)%nat -> ready states s -> reads m s r ->
  wp E (parse true) r (fun b r' => if b then (0 < m)%nat /\ holds_after (after states) (m - 1) r' else stopped m r').
Hypothesis parse_current : forall states c m s r, (m <= n)%nat -> (c <> EOF -> (m < n)%nat) -> ready states s -> at_char c r -> reads m s r ->
  wp E (parse false) r (item (after states) c m).

Lemma cbor_array_ok len states s r :
  reads n s r -> ready states s -> wp E (get_cbor_array parse len) r (valued (after states) n).
Proof.
  intros Hr Hs. apply (container_ok _ _ _ (ready (true :: states)) _ len n s); [done|done| | |by intros; apply spec_end_array, spec_ready].
  { eapply wp_mono; [by apply (spec_start_array len states)|]. intros ok s1 [-> Hs1]. split; [done|by apply spec_next]. }
  intros s1 r1 Hs1 Hr1.
  destruct (len =? unknown_size).
  - apply (while_break_ok (failed := failed) (ready (true :: states)) _ n s1); [|done..].
    intros c m s2 r2 Hm Hm0 Hs2 Hc Hr2. eapply wp_mono; [by apply (parse_current (true :: states) c m s2)|].
    intros [] r3 Hx; [|done]. destruct Hx as [? []]. split; [done|]. split; [done..|by apply spec_next].
  - apply (times_ok (failed := failed) (ready (true :: states)) _ len n s1); [|done..].
    intros m s2 r2 Hm Hs2 Hr2. eapply wp_mono; [by apply (parse_get (true :: states) m s2)|].
    intros [] r3 Hx; [|done]. destruct Hx as [? []]. split; [done|]. split; [done..|by apply spec_next].
Qed.

Lemma cbor_member_ok states c m s r :
  (m <= n)%nat -> after (false :: states) s -> at_char c r -> reads m s r ->
  wp E (cbor_member parse) r (item (after (false :: states)) c m).
Proof.
  intros Hm Hs Hc Hr. eapply chunk_and; [apply cbor_string_ok; eauto|]. intros k r1 Hne Hk Hr1. apply wp_bind.
  eapply wp_mono; [apply (event_ok (failed := failed) _ (ready (false :: states)) m s); [done|by apply spec_key]|].
  intros [] r2 Hx; [|by apply wp_ret]. destruct Hx as [? ? Hx].
  eapply wp_mono; [apply (parse_get (false :: states) m (r_sax r2)); [done..|by split]|].
  intros [] r3 Hr3; [|done]. destruct Hr3 as [? []]. split; [done|]. split; [done|lia|done].
Qed.

Lemma cbor_object_ok len states s r :
  reads n s r -> ready states s -> wp E (get_cbor_object parse len) r (valued (after states) n).
Proof.
  intros Hr Hs. apply (container_ok _ _ _ (after (false :: states)) _ len n s); [done|done|by apply spec_start_object| |by intros; apply spec_end_object].
  intros s1 r1 Hs1 Hr1.
  destruct (len =? 0); [apply wp_ret; by destruct Hr1 as [? ? <-]|]. destruct (len =? unknown_size).
  - apply (while_break_ok (failed := failed) (after (false :: states)) _ n s1); [|done..].
    intros c m s2 r2 Hm Hm0 Hs2 Hc Hr2. by apply (cbor_member_ok states c m s2).
  - apply (times_ok (failed := failed) (after (false :: states)) _ len n s1); [|done..].
    intros m s2 r2 Hm Hs2 Hr2. apply wp_bind, (get_ok m s2); [done|]. intros c r3 Hc Hm0 Hr3.
    eapply wp_mono; [apply (cbor_member_ok states c (m - 1) s2); [lia|done..]|].
    intros [] r4 Hx; [|eapply stopped_more; [done|lia]]. destruct Hx as [Hne Hx]. by split; [apply Hm0|].
Qed.

Lemma cbor_invalid_ok s r : reads n s r -> settled s -> wp E cbor_invalid r (fun b r' => b = false /\ stopped n r').
Proof.
  intros Hr Hs. unfold cbor_invalid. apply wp_bind, wp_gets. apply (error_ok _ _ _ _ _ n s); [|done..]. apply Hcodes. right. by left.
Qed.

(** After an error: the input is at its end, and the next read reports it again. *)
Hypothesis parse_stopped : forall r, stopped 0 r -> wp E (parse true) r (fun b r' => b = false /\ stopped 0 r').

Lemma binary_stopped r (k : list Z -> BR bool) :
  stopped 0 r -> wp E (br_get;; br_and cbor_binary k) r (fun b r' => b = false /\ stopped 0 r').
Proof.
  intros Hr. apply wp_bind, (get_stopped (failed := failed)); [done|]. intros r1 Hc [Hb Hl Hf].
  apply wp_bind. eapply wp_mono; [apply (cbor_binary_ok EOF 0 (r_sax r1)); [done|by split|by right]|].
  intros [b|] r2 Hx; [by destruct Hx|]. by apply wp_ret.
Qed.

Lemma tag_ok c states s r :
  reads n s r -> ready states s -> c <> EOF ->
  wp E (cbor_tag parse tag_handler c) r (item (after states) c n).
Proof.
  intros Hr Hs Hc.
  assert (forall m s r, (m <= n)%nat -> ready states s -> reads m s r -> wp E (parse true) r (item (after states) c n)) as Hparse.
  { intros m s1 r1 Hm Hs1 Hr1. eapply wp_mono; [by apply (parse_get states m s1)|].
    intros [] r2 Hx; [|by eapply stopped_more]. destruct Hx as [? []]. split; [done|]. split; [done|lia|done]. }
  assert (forall b r', b = false /\ stopped 0 r' -> item (after states) c n b r') as Hstop.
  { intros b r' [-> Hst]. eapply stopped_more; [exact Hst|lia]. }
  unfold cbor_tag. destruct tag_handler.
  - eapply wp_mono; [apply (cbor_invalid_ok s); [done|eauto]|]. by intros b r1 [-> Hst].
  - destruct (within _ _ _); [|apply wp_bind, wp_ret; by apply (Hparse n s)]. apply wp_bind, wp_bind.
    eapply wp_mono; [apply (get_number_end cbor_codes_eof _ _ _ n s); [done|eauto]|].
    intros [a|] r1 Hx; apply wp_ret; [destruct Hx; by apply (Hparse n s)|]. eapply wp_mono; [by apply parse_stopped|]. auto.
  - destruct (within 0xD8 c 0xDB) eqn:Ew; [|by apply (Hparse n s)]. apply wp_bind.
    eapply wp_mono; [apply (get_number_end cbor_codes_eof _ _ _ n s); [done|eauto]|].
    intros [a|] r1 Hx; [|eapply wp_mono; [by apply binary_stopped|auto]]. destruct Hx as [Ha Hr1].
    apply wp_bind, (get_ok n s); [done|]. intros c1 r2 Hc1 _ Hr2. apply wp_bind.
    eapply wp_mono; [apply (cbor_binary_ok c1 (n - 1) s); [done..|eauto]|].
    intros [b|] r3 Hx; [|apply wp_ret; eapply stopped_more; [done|lia]]. destruct Hx as (_ & Hb & Hr3).
    apply valued_item; [done|]. eapply wp_mono; [apply (event_ok (failed := failed) _ (after states) (n - 1) s); [done|]|].
    + apply spec_binary; [|done]. split; [done|]. unfold within in Ew. pose proof (follow_range 0xD8 c ltac:(lia)). unfold in_u. simpl. lia.
    + intros b' r4 Hx. eapply valued_more; [exact Hx|done|lia].
Qed.

Lemma cbor_value_ok c states s r :
  at_char c r -> reads n s r -> ready states s -> wp E (cbor_value parse tag_handler c) r (item (after states) c n).
Proof.
  intros Hc Hr Hs. unfold cbor_value. destruct (Z.eqb_spec c EOF) as [He|He].
  { apply (eof_ok cbor_codes_eof _ _ c n s); [done..|eauto| |done]. intros _ r1 Hst. eapply stopped_more; [done|lia]. }
  assert (forall lo hi, within lo c hi = true -> lo <= c <= hi) as Hin by (unfold within; lia).
  assert (is_byte c) as Hb by (by destruct Hc as [_ [[? _]|?]]). unfold is_byte, in_u in Hb.
  assert (forall (m : M S bool), wp nofault m s (fun ok s' => ok = true /\ after states s') ->
    wp E (with_handler m) r (item (after states) c n)) as Hev by (intros m Hm; apply valued_item; [done|by apply (event_ok _ _ n s)]).
  assert (forall (m : BR (option (list Z))) (k : list Z -> BR bool), wp E m r (chunk (Forall is_byte) c n s) ->
    (forall a r', Forall is_byte a -> reads n s r' -> wp E (k a) r' (valued (after states) n)) ->
    wp E (br_and m k) r (item (after states) c n)) as Hchunk.
  { intros m k Hm Hk. eapply chunk_and; [exact Hm|]. intros a r' _ Ha Hr'. apply valued_item; [done|by apply Hk]. }
  assert (forall first (k : Z -> BR bool), within first c (first + 3) = true ->
    (forall x r', in_u 64 x -> reads n s r' -> wp E (k x) r' (valued (after states) n)) ->
    wp E (br_and (get_number false (follow_bytes first c) format_cbor) k) r (item (after states) c n)) as Hnum.
  { intros first k Hw Hk. apply valued_item; [done|]. apply (number_and cbor_codes_eof _ first c k states n s); try done. by apply Hin. }
  assert (forall x, in_u 64 x -> forall r', reads n s r' -> wp E (with_handler (sax_number_float x [])) r' (valued (after states) n)) as Hfloat
    by (intros x Hx r' Hr'; apply (event_ok _ _ n s); [done|by apply spec_float]).
  assert (forall k format (f : Z -> BR bool), (forall a r', 0 <= a < 256 ^ Z.of_nat k -> reads n s r' -> wp E (f a) r' (valued (after states) n)) ->
    wp E (br_and (get_number false k format) f) r (item (after states) c n)) as Hnum'.
  { intros k format f Hf. apply valued_item; [done|]. eapply and_ok; [apply (get_number_ok cbor_codes_eof); [exact Hr|eauto]|done]. }
  repeat match goal with |- wp _ (if ?b then _ else _) _ _ => destruct b eqn:?Hw end.
  - apply Hev, spec_unsigned; [|done]. apply Hin in Hw. unfold in_u. lia.
  - apply Hnum; [done|]. intros x r' Hx Hr'. apply (event_ok _ _ n s); [done|]. by apply spec_unsigned.
  - apply Hev, spec_integer; [|done]. apply Hin in Hw1. unfold in_s. rewrite swrap_small by (unfold in_s; lia). lia.
  - apply Hnum; [done|]. intros x r' Hx Hr'. apply (event_ok _ _ n s); [done|]. apply spec_integer; [|done].
    pose proof (swrap_range 64 x ltac:(lia)). unfold in_s in *. lia.
  - apply Hchunk; [apply cbor_binary_ok; eauto|]. intros b r' Hx Hr'. apply (event_ok _ _ n s); [done|]. by apply spec_binary.
  - apply Hchunk; [apply cbor_string_ok; eauto|]. intros b r' Hx Hr'. apply (event_ok _ _ n s); [done|]. by apply spec_string.
  - apply valued_item; [done|]. by apply (cbor_array_ok _ states s).
  - apply Hnum; [done|]. intros x r' _ Hr'. by apply (cbor_array_ok _ states s).
  - apply valued_item; [done|]. by apply (cbor_array_ok _ states s).
  - apply valued_item; [done|]. by apply (cbor_object_ok _ states s).
  - apply Hnum; [done|]. intros x r' _ Hr'. by apply (cbor_object_ok _ states s).
  - apply valued_item; [done|]. by apply (cbor_object_ok _ states s).
  - by apply (tag_ok c states s).
  - by apply Hev, spec_boolean.
  - by apply Hev, spec_boolean.
  - by apply Hev, spec_null.
  - apply valued_item; [done|]. by apply (half_ok states n s).
  - apply Hnum'. intros a r' Ha Hr'. apply Hfloat; [|done]. apply widen_range. exact Ha.
  - apply Hnum'. intros a r' Ha Hr'. by apply Hfloat.
  - eapply wp_mono; [apply (cbor_invalid_ok s); [done|eauto]|]. by intros b r1 [-> Hst].
Qed.
End value.

(** The recursion: the fuel is more than the bytes left. *)
Lemma parse_stopped_ok fuel tag_handler r :
  (0 < fuel)%nat -> stopped 0 r -> wp E (parse_cbor_internal fuel tag_handler true) r (fun b r' => b = false /\ stopped 0 r').
Proof.
  destruct fuel as [|fuel]; [lia|]. intros _ Hr. cbn [parse_cbor_internal]. apply wp_bind, (get_stopped (failed := failed)); [done|].
  intros r1 Hc [Hb Hl Hf]. unfold cbor_value. simpl (_ =? _). cbv iota.
  apply (eof_ok cbor_codes_eof _ _ EOF 0 (r_sax r1)); [done|by split|by right| |done]. by intros _ r2 Hst.
Qed.

Lemma cbor_parse_internal_ok fuel tag_handler :
  (forall states n s r, (n < fuel)%nat -> ready states s -> reads n s r ->
    wp E (parse_cbor_internal fuel tag_handler true) r (fun b r' => if b then (0 < n)%nat /\ holds_after (after states) (n - 1) r' else stopped n r')) /\
  (forall states c n s r, (0 < fuel)%nat -> (c <> EOF -> (n + 1 < fuel)%nat) -> ready states s -> at_char c r -> reads n s r ->
    wp E (parse_cbor_internal fuel tag_handler false) r (item (after states) c n)).
Proof.
  induction fuel as [|fuel [IHt IHf]]; [split; intros; lia|].
  assert (forall states c n s r, (n <= fuel)%nat -> (c <> EOF -> (0 < fuel)%nat) -> (c <> EOF -> (n < fuel)%nat) -> ready states s -> at_char c r -> reads n s r ->
    wp E (cbor_value (parse_cbor_internal fuel tag_handler) tag_handler c) r (item (after states) c n)) as Hvalue.
  { intros states c n s r Hn H0 Hlt Hs Hc Hr. destruct (Z.eq_dec c EOF) as [->|He].
    - unfold cbor_value. simpl (_ =? _). cbv iota. apply (eof_ok cbor_codes_eof _ _ EOF n s); [done|done|eauto| |done].
      intros _ r2 Hst. eapply stopped_more; [done|lia].
    - specialize (H0 He). specialize (Hlt He). apply (cbor_value_ok _ _ n) with (s := s); [| | |done..].
      + intros states' m s' r' Hm. apply IHt. lia.
      + intros states' c' m s' r' Hm Hm0. apply IHf; [done|]. intros He'. specialize (Hm0 He'). lia.
      + intros r'. by apply parse_stopped_ok. }
  split.
  - intros states n s r Hn Hs Hr. cbn [parse_cbor_internal]. apply wp_bind, (get_ok n s); [done|]. intros c r1 Hc Hn0 Hr1.
    eapply wp_mono; [apply (Hvalue states c (n - 1)%nat s); [lia|intros He; specialize (Hn0 He); lia|intros He; specialize (Hn0 He); lia|done..]|].
    intros [] r2 Hx; [|eapply stopped_more; [done|lia]]. destruct Hx as [He Hx]. by split; [apply Hn0|].
  - intros states c n s r _ Hn Hs Hc Hr. cbn [parse_cbor_internal]. apply wp_bind, wp_gets.
    pose proof Hc as [-> _]. destruct (Z.eq_dec c EOF) as [->|He].
    + unfold cbor_value. simpl (_ =? _). cbv iota. apply (eof_ok cbor_codes_eof _ _ EOF n s); [done|done|eauto| |done].
      intros _ r2 Hst. eapply stopped_more; [done|lia].
    + specialize (Hn He). apply (Hvalue states c n s); [lia|lia|lia|done..].
Qed.

Lemma parse_cbor_ok tag_handler states n s r :
  reads n s r -> ready states s -> wp E (parse_cbor tag_handler) r (valued (after states) n).
Proof.
  intros [Hb Hl Hsx] Hs. apply wp_bind, wp_gets.
  eapply wp_mono; [apply (proj1 (cbor_parse_internal_ok _ tag_handler) states (length (r_ia r)) s); [lia|done|by split]|].
  intros [] r' Hx; [|by eapply stopped_more]. destruct Hx as [_ []]. split; [done|lia|done].
Qed.
End total.

(** ** [from_cbor] *)

(** C22 [from_cbor] on any bytes and under any setting: it terminates, no pointer of
    the handler dangles, and it returns a value whose numbers fit their types and
    whose keys ascend, or, when exceptions are off, the discarded value; or it throws
    a [parse_error] 110, 112 or 113 when exceptions are on, or, also when they are off,
    [out_of_range] 408 for a container announced larger than memory. *)
Theorem from_cbor_total tag_handler (strict exceptions : bool) (s : list Z) :
  Forall is_byte s ->
  match from_cbor strict exceptions tag_handler s with
  | Ok v => wf_json v \/ (v = Jdiscarded /\ exceptions = false)
  | Fault f => binary_thrown cbor_codes exceptions true f
  end.
Proof.
  intros Hs. apply from_total; [by left|done|apply br_get_next|]. intros n d r Hr Hd.
  by apply (parse_cbor_ok (HS := dom_spec exceptions cbor_codes) (fun id H => H) tag_handler [] n d).
Qed.

Lemma from_cbor_total_witness :
  Forall is_byte [0x9B; 255; 255; 255; 255; 255; 255; 255; 254] /\
  match from_cbor true false tag_error [0x9B; 255; 255; 255; 255; 255; 255; 255; 254] with
  | Ok v => wf_json v \/ (v = Jdiscarded /\ false = false)
  | Fault f => binary_thrown cbor_codes false true f
  end /\
  from_cbor true false tag_error [0x9B; 255; 255; 255; 255; 255; 255; 255; 254] =
    Fault (out_of_range 408 (str "excessive array size: 18446744073709551614")).
Proof.
  assert (Forall is_byte [0x9B; 255; 255; 255; 255; 255; 255; 255; 254]) as Hs by (by repeat constructor).
  split; [exact Hs|]. split; [|reflexivity]. apply from_cbor_total, Hs.
Defined.

(** The argument of a negative integer is not checked: -1 - (2 ^ 64 - 1) comes out as 0. *)
Example cbor_negative_wraps :
  from_cbor true true tag_error (0x3B :: replicate 8 0xFF) = Ok (Jnumber_integer 0).
Proof. reflexivity. Qed.

(** An array announced with 2 ^ 64 - 1 elements is read as one of unknown length. *)
Example cbor_length_taken_as_indefinite :
  from_cbor true true tag_error ([0x9B] ++ replicate 8 0xFF ++ [0x01; 0xFF]) = Ok (Jarray [Jnumber_unsigned 1]).
Proof. reflexivity. Qed.
