(* ===== verification/JsonMsgpackTotal.v ===== *)
(** JsonMsgpackTotal: [from_msgpack] on any bytes. *)

From S2P Require Import Prelude Json JsonLexer JsonParser JsonDump JsonUtf8 JsonDom JsonTotal JsonParse JsonRead JsonBuild JsonAccess JsonBinary JsonBinaryProps JsonBinaryTotal JsonMsgpack.

(** The errors of [parse_msgpack_internal]. *)
Definition msgpack_codes (id : Z) : Prop := id = 110 \/ id = 112 \/ id = 113.

Section total.
Context {S : Type} `{Sax Z S} {codes : Z -> Prop} {exceptions : bool}.
Context {ready after : list bool -> S -> Prop} {failed : S -> Prop}.
Context {HS : SaxSpec codes exceptions ready after failed} (Hcodes : forall id, msgpack_codes id -> codes id).
Abbreviation reader := (binary_reader (S := S)).
Abbreviation BR := (M reader).
Abbreviation E := (binary_thrown codes exceptions true).
Abbreviation stopped := (stopped (failed := failed)).
Abbreviation settled := (settled (after := after) (failed := failed)).
Abbreviation outcome := (outcome (failed := failed)).
Abbreviation valued := (valued (failed := failed)).
Abbreviation chunk := (chunk (failed := failed)).
Abbreviation item := (item (failed := failed)).
Implicit Types (r : reader) (s : S) (n m : nat) (states : list bool) (c : Z).

Lemma msgpack_codes_eof : codes 110.
Proof. apply Hcodes. by left. Qed.
#[local] Hint Resolve msgpack_codes_eof ready_settled after_settled : core.

(** ** Strings and byte strings *)

Lemma then_read_ok {A} (k : nat) (f : Z -> BR (option A)) P n s r :
  reads n s r -> settled s -> (forall x r, reads n s r -> wp E (f x) r (outcome P n s)) ->
  wp E (then_read k f) r (outcome P n s).
Proof.
  intros Hr Hs Hf. apply wp_bind. eapply wp_mono; [by apply (get_number_ok msgpack_codes_eof _ _ _ n s)|].
  intros [x|] r1 Hx; [apply Hf, Hx|by apply wp_ret].
Qed.

Lemma msgpack_string_ok c n s r :
  at_char c r -> reads n s r -> settled s -> wp E get_msgpack_string r (chunk (Forall is_byte) c n s).
Proof.
  intros Hc Hr Hs. apply wp_bind, (eof_ok msgpack_codes_eof _ _ c n s); [done..| |].
  - intros _ r1 Hst. apply wp_ret. eapply stopped_more; [done|lia].
  - intros Hne _. cbn [negb]. apply wp_bind, wp_gets. apply outcome_chunk; [done|].
    destruct (within _ _ _); [by apply br_string_ok|destruct (within _ _ _)].
    + apply then_read_ok; [done..|]. intros len r1 Hr1. by apply br_string_ok.
    + apply wp_bind, wp_gets, wp_bind.
      eapply wp_mono; [apply (error_ok _ _ _ _ _ n s); [apply Hcodes; right; by right|done..]|]. intros b r1 [_ Hst]. by apply wp_ret.
Qed.

(** The bytes and a subtype. *)
Definition bytes_result (b : list Z * option Z) : Prop := binary_rule b.1 b.2.

Lemma ext_ok len n s r : reads n s r -> settled s -> wp E (get_ext len) r (outcome bytes_result n s).
Proof.
  intros Hr Hs. apply then_read_ok; [done..|]. intros x r1 Hr1. apply wp_bind.
  eapply wp_mono; [by apply (br_binary_ok msgpack_codes_eof _ _ _ n s)|]. intros [b|] r2 Hx; apply wp_ret; [|done].
  destruct Hx as [Hb Hr2]. split; [|done]. split; [done|]. pose proof (uwrap_range 8 (swrap 8 x) ltac:(lia)) as Hu.
  change (in_u 64 (uwrap 8 (swrap 8 x))). unfold in_u in *. lia.
Qed.

(** After the byte of a byte string; where there is none the code ends in [false]. *)
Lemma msgpack_binary_ok c n s r :
  within 0xC4 c 0xC9 || within 0xD4 c 0xD8 = true -> at_char c r -> reads n s r -> settled s ->
  wp E get_msgpack_binary r (outcome bytes_result n s).
Proof.
  intros Hw [Hc _] Hr Hs. apply wp_bind, wp_gets. rewrite Hc.
  destruct (within 0xC4 c 0xC6) eqn:E1; [|destruct (within 0xC7 c 0xC9) eqn:E2; [|destruct (within 0xD4 c 0xD8) eqn:E3]].
  - apply then_read_ok; [done..|]. intros len r1 Hr1. apply wp_bind.
    eapply wp_mono; [by apply (br_binary_ok msgpack_codes_eof _ _ _ n s)|]. intros [b|] r2 Hx; apply wp_ret; [|done]. by destruct Hx.
  - apply then_read_ok; [done..|]. intros len r1 Hr1. by apply ext_ok.
  - by apply ext_ok.
  - unfold within in *. lia.
Qed.

(** ** Values *)

Section value.
Context (parse : BR bool) (n : nat).

(** [parse_msgpack_internal] on fewer bytes *)
Hypothesis parse_get : forall states m s r, (m <= n)%nat -> ready states s -> reads m s r ->
  wp E parse r (fun b r' => if b then (0 < m)%nat /\ holds_after (after states) (m - 1) r' else stopped m r').

Lemma msgpack_array_ok len states s r :
  reads n s r -> ready states s -> wp E (get_msgpack_array parse len) r (valued (after states) n).
Proof.
  intros Hr Hs. apply (container_ok _ _ _ (ready (true :: states)) _ len n s); [done|done| | |by intros; apply spec_end_array, spec_ready].
  { eapply wp_mono; [by apply (spec_start_array len states)|]. intros ok s1 [-> Hs1]. split; [done|by apply spec_next]. }
  intros s1 r1 Hs1 Hr1. apply (times_ok (failed := failed) (ready (true :: states)) _ len n s1); [|done..].
  intros m s2 r2 Hm Hs2 Hr2. eapply wp_mono; [by apply (parse_get (true :: states) m s2)|].
  intros [] r3 Hx; [|done]. destruct Hx as [? []]. split; [done|]. split; [done..|by apply spec_next].
Qed.

Lemma msgpack_object_ok len states s r :
  reads n s r -> ready states s -> wp E (get_msgpack_object parse len) r (valued (after states) n).
Proof.
  intros Hr Hs. apply (container_ok _ _ _ (after (false :: states)) _ len n s); [done|done|by apply spec_start_object| |by intros; apply spec_end_object].
  intros s1 r1 Hs1 Hr1. apply (times_ok (failed := failed) (after (false :: states)) _ len n s1); [|done..].
  intros m s2 r2 Hm Hs2 Hr2. apply wp_bind, (get_ok m s2); [done|]. intros c r3 Hc Hm0 Hr3.
  assert (wp E (br_and get_msgpack_string (fun key => ok ← with_handler (sax_key key); if ok : bool then parse else mret false)) r3
    (item (after (false :: states)) c (m - 1))) as Hw.
  { eapply chunk_and; [apply msgpack_string_ok; eauto|]. intros k r4 Hne Hk Hr4. apply wp_bind.
    eapply wp_mono; [apply (event_ok (failed := failed) _ (ready (false :: states)) (m - 1) s2); [done|by apply spec_key]|].
    intros [] r5 Hx; [|by apply wp_ret]. destruct Hx as [? ? Hx].
    eapply wp_mono; [apply (parse_get (false :: states) (m - 1)%nat (r_sax r5)); [lia|done|by split]|].
    intros [] r6 Hr6; [|done]. destruct Hr6 as [? []]. split; [done|]. split; [done|lia|done]. }
  eapply wp_mono; [exact Hw|]. intros [] r4 Hx; [|eapply stopped_more; [done|lia]]. destruct Hx as [Hne Hx]. by split; [apply Hm0|].
Qed.

Lemma msgpack_value_ok c states s r :
  at_char c r -> reads n s r -> ready states s -> wp E (msgpack_value parse c) r (item (after states) c n).
Proof.
  intros Hc Hr Hs. unfold msgpack_value. destruct (Z.eqb_spec c EOF) as [He|He].
  { apply (eof_ok msgpack_codes_eof _ _ c n s); [done..|eauto| |done]. intros _ r1 Hst. eapply stopped_more; [done|lia]. }
  assert (forall lo hi, within lo c hi = true -> lo <= c <= hi) as Hin by (unfold within; lia).
  assert (forall (m : M S bool) r', reads n s r' -> wp nofault m s (fun ok s' => ok = true /\ after states s') ->
    wp E (with_handler m) r' (valued (after states) n)) as Hev by (intros m r' Hr' Hm; by apply (event_ok _ _ n s)).
  assert (forall (k : nat) (f : Z -> BR bool), (forall a r', 0 <= a < 256 ^ Z.of_nat k -> reads n s r' -> wp E (f a) r' (valued (after states) n)) ->
    wp E (br_and (get_number false k format_msgpack) f) r (valued (after states) n)) as Hnum.
  { intros k f Hf. eapply and_ok; [apply (get_number_ok msgpack_codes_eof); [exact Hr|eauto]|done]. }
  repeat match goal with |- wp _ (if ?b then _ else _) _ _ => destruct b eqn:?Hw end.
  - apply valued_item, Hev; [done..|]. apply spec_unsigned; [|done]. apply Hin in Hw. unfold in_u. lia.
  - apply valued_item; [done|]. by apply (msgpack_object_ok _ states s).
  - apply valued_item; [done|]. by apply (msgpack_array_ok _ states s).
  - eapply chunk_and; [apply msgpack_string_ok; eauto|]. intros x r' _ Hx Hr'. by apply valued_item, Hev, spec_string.
  - by apply valued_item, Hev, spec_null.
  - by apply valued_item, Hev, spec_boolean.
  - by apply valued_item, Hev, spec_boolean.
  - apply valued_item; [done|]. eapply and_ok; [apply (msgpack_binary_ok c); eauto|]. intros b r' Hb Hr'. by apply Hev, spec_binary.
  - apply valued_item; [done|]. apply Hnum. intros a r' Ha Hr'. apply Hev; [done|]. apply spec_float; [|done]. apply widen_range. exact Ha.
  - apply valued_item; [done|]. apply Hnum. intros a r' Ha Hr'. apply Hev; [done|]. by apply spec_float.
  - apply valued_item; [done|]. eapply (number_and msgpack_codes_eof _ _ _ _ states n s); [done|done|apply Hin in Hw9; lia|]. intros x r' Hx Hr'.
    by apply Hev, spec_unsigned.
  - apply valued_item; [done|]. apply Hnum. intros a r' Ha Hr'. apply Hev; [done|]. apply spec_integer; [|done].
    apply Hin in Hw10. apply signed_range. unfold follow_bytes.
    assert (c - 208 = 0 \/ c - 208 = 1 \/ c - 208 = 2 \/ c - 208 = 3) as [-> | [-> | [-> | ->]]] by lia; simpl; lia.
  - apply valued_item; [done|]. apply Hnum. intros a r' _ Hr'. by apply (msgpack_array_ok _ states s).
  - apply valued_item; [done|]. apply Hnum. intros a r' _ Hr'. by apply (msgpack_object_ok _ states s).
  - apply valued_item, Hev; [done..|]. apply spec_integer; [|done]. pose proof (swrap_range 8 c ltac:(lia)). unfold in_s in *. lia.
  - apply wp_bind, wp_gets. eapply wp_mono; [apply (error_ok _ _ _ _ _ n s); [apply Hcodes; right; by left|eauto|done]|].
    by intros b r1 [-> Hst].
Qed.
End value.

(** The recursion: the fuel is more than the bytes left. *)
Lemma msgpack_parse_internal_ok fuel states n s r :
  (n < fuel)%nat -> ready states s -> reads n s r ->
  wp E (parse_msgpack_internal fuel) r (fun b r' => if b then (0 < n)%nat /\ holds_after (after states) (n - 1) r' else stopped n r').
Proof.
  revert states n s r. induction fuel as [|fuel IH]; [lia|]. intros states n s r Hn Hs Hr. cbn [parse_msgpack_internal].
  apply wp_bind, (get_ok n s); [done|]. intros c r1 Hc Hn0 Hr1. destruct (Z.eq_dec c EOF) as [->|He].
  - unfold msgpack_value. simpl (_ =? _). cbv iota. apply (eof_ok msgpack_codes_eof _ _ EOF (n - 1) s); [done|done|eauto| |done].
    intros _ r2 Hst. eapply stopped_more; [done|lia].
  - specialize (Hn0 He). eapply wp_mono; [apply (msgpack_value_ok _ (n - 1)) with (s := s); [|done..]|].
    + intros states' m s' r' Hm. apply IH. lia.
    + intros [] r2 Hx; [by destruct Hx|]. eapply stopped_more; [done|lia].
Qed.

Lemma parse_msgpack_ok states n s r :
  reads n s r -> ready states s -> wp E parse_msgpack r (valued (after states) n).
Proof.
  intros [Hb Hl Hsx] Hs. apply wp_bind, wp_gets.
  eapply wp_mono; [apply (msgpack_parse_internal_ok _ states (length (r_ia r)) s); [lia|done|by split]|].
  intros [] r' Hx; [|by eapply stopped_more]. destruct Hx as [_ []]. split; [done|lia|done].
Qed.
End total.

(** ** [from_msgpack] *)

(** C23 [from_msgpack] on any bytes and under any setting: it terminates, no pointer of
    the handler dangles, and it returns a value whose numbers fit their types and
    whose keys ascend, or, when exceptions are off, the discarded value; or it throws
    a [parse_error] 110, 112 or 113 when exceptions are on, or, also when they are off,
    [out_of_range] 408 for a container announced larger than memory. *)
Theorem from_msgpack_total (strict exceptions : bool) (s : list Z) :
  Forall is_byte s ->
  match from_msgpack strict exceptions s with
  | Ok v => wf_json v \/ (v = Jdiscarded /\ exceptions = false)
  | Fault f => binary_thrown msgpack_codes exceptions true f
  end.
Proof.
  intros Hs. apply from_total; [by left|done|apply br_get_next|]. intros n d r Hr Hd.
  by apply (parse_msgpack_ok (HS := dom_spec exceptions msgpack_codes) (fun id H => H) [] n d).
Qed.

Lemma from_msgpack_total_witness :
  Forall is_byte [0x92; 0x01; 0xC1] /\
  match from_msgpack true false [0x92; 0x01; 0xC1] with
  | Ok v => wf_json v \/ (v = Jdiscarded /\ false = false)
  | Fault f => binary_thrown msgpack_codes false true f
  end /\
  from_msgpack true false [0x92; 0x01; 0xC1] = Ok Jdiscarded.
Proof.
  assert (Forall is_byte [0x92; 0x01; 0xC1]) as Hs by (by repeat constructor).
  split; [exact Hs|]. split; [|reflexivity]. apply from_msgpack_total, Hs.
Defined.
