(* ===== verification/JsonBson.v ===== *)
(** JsonBson: BSON: [parse_bson_internal] and the functions it calls, [write_bson]
    with the sizes it calculates first, [from_bson], [to_bson].

    A document, an object or an array, is read by [parse_bson_document], which is
    [parse_bson_internal] and [parse_bson_array].  The writer may throw before it
    writes, so it gives [res (list Z)]. *)

From S2P Require Import Prelude Json JsonLexer JsonParser JsonAccess JsonBinary.

(** [std::to_string] of a signed number *)
Definition to_string_signed (n : Z) : list Z := if n <? 0 then str "-" ++ to_string (- n) else to_string n.

(** ** The reader *)

Section reader.
Context {S : Type} `{Sax Z S}.
Abbreviation BR := (M (binary_reader (S := S))).
Implicit Types (c len : Z) (is_array : bool).

(** [get_bson_cstr], to the end of [result] *)
Fixpoint cstr_loop (fuel : nat) (result : list Z) : BR (option (list Z)) :=
  match fuel with
  | O => fail OutOfFuel
  | Datatypes.S fuel =>
      br_get;;
      ok ← unexpect_eof format_bson (str "cstring");
      if negb ok then mret None
      else
        c ← gets r_current;
        if c =? 0x00 then mret (Some result) else cstr_loop fuel (result ++ [u8 c])
  end.
Definition get_bson_cstr : BR (option (list Z)) := fuel ← br_fuel; cstr_loop fuel [].

(** [get_bson_string]; where the terminating byte is missing it fails without a report *)
Definition get_bson_string len : BR (option (list Z)) :=
  if len <? 1 then
    token ← br_token_string;
    br_error format_bson 112 token (str "string length must be at least 1, is " ++ to_string_signed len) (str "string");;
    mret None
  else
    s ← br_get_string format_bson (len - 1) [];
    match s with
    | None => mret None
    | Some s => c ← br_get; mret (if negb (c =? EOF) then Some s else None)
    end.

(** [get_bson_binary]; the result of reading the subtype is not looked at *)
Definition get_bson_binary len : BR (option (list Z * option Z)) :=
  if len <? 0 then
    token ← br_token_string;
    br_error format_bson 112 token (str "byte array length cannot be negative, is " ++ to_string_signed len) (str "binary");;
    mret None
  else
    subtype ← get_number false 1 format_bson;
    b ← br_get_binary format_bson len [];
    mret (b ← b; Some (b, Some (default 0 subtype))).

Section document.
(** [parse_bson_internal], [parse_bson_array] on a smaller input *)
Variable parse_document : bool -> BR bool.

(** A number of [n] bytes, least significant first. *)
Abbreviation bson_number n := (get_number true n format_bson).

Definition unsupported c (pos : Z) : BR bool :=
  let cr := hex_byte c in
  with_handler (sax_parse_error pos cr (parse_error_at 114 pos (str "Unsupported BSON record type 0x" ++ cr))).

Definition parse_bson_element_internal c (pos : Z) : BR bool :=
  if c =? 0x01 then br_and (bson_number 8) (fun number => with_handler (sax_number_float number []))
  else if c =? 0x02 then
    br_and (bson_number 4) (fun len => br_and (get_bson_string (swrap 32 len)) (fun value => with_handler (sax_string value)))
  else if c =? 0x03 then parse_document false
  else if c =? 0x04 then parse_document true
  else if c =? 0x05 then
    br_and (bson_number 4) (fun len => br_and (get_bson_binary (swrap 32 len)) (fun value => with_handler (sax_binary value.1 value.2)))
  else if c =? 0x08 then b ← br_get; with_handler (sax_boolean (negb (b =? 0)))
  else if c =? 0x0A then with_handler sax_null
  else if c =? 0x10 then br_and (bson_number 4) (fun value => with_handler (sax_number_integer (swrap 32 value)))
  else if c =? 0x12 then br_and (bson_number 8) (fun value => with_handler (sax_number_integer (swrap 64 value)))
  else if c =? 0x11 then br_and (bson_number 8) (fun value => with_handler (sax_number_unsigned value))
  else unsupported c pos.

(** [parse_bson_element_list] *)
Fixpoint element_loop (fuel : nat) is_array : BR bool :=
  match fuel with
  | O => fail OutOfFuel
  | Datatypes.S fuel =>
      c ← br_get;
      if c =? 0 then mret true
      else
        ok ← unexpect_eof format_bson (str "element list");
        if negb ok then mret false
        else
          pos ← gets chars_read;
          br_and get_bson_cstr (fun key =>
            ok ← (if is_array then mret true else with_handler (sax_key key));
            if negb ok then mret false
            else
              ok ← parse_bson_element_internal c pos;
              if ok : bool then element_loop fuel is_array else mret false)
  end.
Definition parse_bson_element_list is_array : BR bool := fuel ← br_fuel; element_loop fuel is_array.

(** The result of reading the size is not looked at. *)
Definition bson_document is_array : BR bool :=
  bson_number 4;;
  ok ← with_handler (if is_array then sax_start_array unknown_size else sax_start_object unknown_size);
  if negb ok then mret false
  else
    ok ← parse_bson_element_list is_array;
    if ok : bool then with_handler (if is_array then sax_end_array else sax_end_object) else mret false.
End document.

Fixpoint parse_bson_document (fuel : nat) is_array : BR bool :=
  match fuel with
  | O => fail OutOfFuel
  | Datatypes.S fuel => bson_document (parse_bson_document fuel) is_array
  end.

Definition parse_bson : BR bool := fuel ← br_fuel; parse_bson_document fuel false.
End reader.

(** [basic_json::from_bson] *)
Definition from_bson (strict exceptions : bool) (s : list Z) : res (json Z) :=
  br_from parse_bson br_get format_bson strict exceptions s.

(** ** The writer *)

#[export] Instance res_ret : MRet res := fun A a => Ok a.
#[export] Instance res_bind : MBind res := fun A B k r => match r with Ok a => k a | Fault f => Fault f end.

(** [name.find(0)] *)
Fixpoint find_zero (i : Z) (name : list Z) : option Z :=
  match name with
  | [] => None
  | c :: name => if c =? 0 then Some i else find_zero (i + 1) name
  end.

Definition calc_bson_entry_header_size (name : list Z) : res Z :=
  match find_zero 0 name with
  | Some it => Fault (out_of_range 409 (str "BSON key cannot contain code point U+0000 (at byte " ++ to_string it ++ str ")"))
  | None => Ok (1 + Z.of_nat (length name) + 1)
  end.

Definition fits_int32 (value : Z) : bool := (- 2 ^ 31 <=? value) && (value <=? 2 ^ 31 - 1).

Definition calc_bson_string_size (value : list Z) : Z := 4 + Z.of_nat (length value) + 1.
Definition calc_bson_integer_size (value : Z) : Z := if fits_int32 value then 4 else 8.
Definition calc_bson_unsigned_size (value : Z) : Z := if value <=? 2 ^ 31 - 1 then 4 else 8.
Definition calc_bson_binary_size (value : list Z) : Z := 4 + Z.of_nat (length value) + 1.

(** The sum over the elements of an array, whose names are their indices from [i]. *)
Definition sum_elements (size : list Z -> json Z -> res Z) : Z -> list (json Z) -> res Z :=
  fix go i vs :=
    match vs with
    | [] => Ok 0
    | v :: vs => n ← size (to_string i) v; rest ← go (i + 1) vs; mret (n + rest)
    end.

(** ... and over the members of an object. *)
Definition sum_members (size : list Z -> json Z -> res Z) : list (list Z * json Z) -> res Z :=
  fix go ms :=
    match ms with
    | [] => Ok 0
    | (k, v) :: ms => n ← size k v; rest ← go ms; mret (n + rest)
    end.

(** [calc_bson_element_size] with [calc_bson_object_size] and [calc_bson_array_size] *)
Fixpoint calc_bson_element_size (name : list Z) (j : json Z) {struct j} : res Z :=
  header ← calc_bson_entry_header_size name;
  match j with
  | Jobject ms => n ← sum_members calc_bson_element_size ms; mret (header + (4 + n + 1))
  | Jarray vs => n ← sum_elements calc_bson_element_size 0 vs; mret (header + (4 + n + 1))
  | Jbinary b _ => mret (header + calc_bson_binary_size b)
  | Jboolean _ => mret (header + 1)
  | Jnumber_float _ => mret (header + 8)
  | Jnumber_integer n => mret (header + calc_bson_integer_size n)
  | Jnumber_unsigned n => mret (header + calc_bson_unsigned_size n)
  | Jstring s => mret (header + calc_bson_string_size s)
  | Jnull => mret (header + 0)
  | Jdiscarded => Fault AssertFailed
  end.

Definition calc_bson_object_size (ms : list (list Z * json Z)) : res Z :=
  n ← sum_members calc_bson_element_size ms; mret (4 + n + 1).
Definition calc_bson_array_size (vs : list (json Z)) : res Z :=
  n ← sum_elements calc_bson_element_size 0 vs; mret (4 + n + 1).

(** The zero that ends the name is that of [c_str()]. *)
Definition write_bson_entry_header (name : list Z) (element_type : Z) : list Z := element_type :: name ++ [0].

Abbreviation write_little n x := (write_number true n x) (only parsing).

Definition write_bson_boolean name (value : bool) : list Z := write_bson_entry_header name 0x08 ++ [if value then 0x01 else 0x00].
Definition write_bson_double name (value : Z) : list Z := write_bson_entry_header name 0x01 ++ write_little 8 value.
Definition write_bson_string name (value : list Z) : list Z :=
  write_bson_entry_header name 0x02 ++ write_little 4 (Z.of_nat (length value) + 1) ++ value ++ [0].
Definition write_bson_null name : list Z := write_bson_entry_header name 0x0A.
Definition write_bson_integer name (value : Z) : list Z :=
  if fits_int32 value then write_bson_entry_header name 0x10 ++ write_little 4 value
  else write_bson_entry_header name 0x12 ++ write_little 8 value.
Definition write_bson_unsigned name (value : Z) : list Z :=
  if value <=? 2 ^ 31 - 1 then write_bson_entry_header name 0x10 ++ write_little 4 value
  else if value <=? 2 ^ 63 - 1 then write_bson_entry_header name 0x12 ++ write_little 8 value
  else write_bson_entry_header name 0x11 ++ write_little 8 value.
Definition write_bson_binary name (value : list Z) (subtype : option Z) : list Z :=
  write_bson_entry_header name 0x05 ++ write_little 4 (Z.of_nat (length value)) ++
  write_number false 1 (default 0x00 subtype) ++ value.

Definition write_elements (write : list Z -> json Z -> res (list Z)) : Z -> list (json Z) -> res (list Z) :=
  fix go i vs :=
    match vs with
    | [] => Ok []
    | v :: vs => t ← write (to_string i) v; rest ← go (i + 1) vs; mret (t ++ rest)
    end.
Definition write_members (write : list Z -> json Z -> res (list Z)) : list (list Z * json Z) -> res (list Z) :=
  fix go ms :=
    match ms with
    | [] => Ok []
    | (k, v) :: ms => t ← write k v; rest ← go ms; mret (t ++ rest)
    end.

(** [write_bson_element] with [write_bson_object_entry] and [write_bson_array] *)
Fixpoint write_bson_element (name : list Z) (j : json Z) {struct j} : res (list Z) :=
  match j with
  | Jobject ms =>
      n ← calc_bson_object_size ms;
      t ← write_members write_bson_element ms;
      mret (write_bson_entry_header name 0x03 ++ write_little 4 n ++ t ++ [0x00])
  | Jarray vs =>
      n ← calc_bson_array_size vs;
      t ← write_elements write_bson_element 0 vs;
      mret (write_bson_entry_header name 0x04 ++ write_little 4 n ++ t ++ [0x00])
  | Jbinary b subtype => mret (write_bson_binary name b subtype)
  | Jboolean b => mret (write_bson_boolean name b)
  | Jnumber_float x => mret (write_bson_double name x)
  | Jnumber_integer n => mret (write_bson_integer name n)
  | Jnumber_unsigned n => mret (write_bson_unsigned name n)
  | Jstring s => mret (write_bson_string name s)
  | Jnull => mret (write_bson_null name)
  | Jdiscarded => Fault AssertFailed
  end.

Definition write_bson_object (ms : list (list Z * json Z)) : res (list Z) :=
  n ← calc_bson_object_size ms;
  t ← write_members write_bson_element ms;
  mret (write_little 4 n ++ t ++ [0x00]).

Definition write_bson (j : json Z) : res (list Z) :=
  match j with
  | Jobject ms => write_bson_object ms
  | j => Fault (type_error 317 (str "to serialize to BSON, top-level type must be object, but is " ++ type_name j))
  end.

(** [basic_json::to_bson] *)
Definition to_bson (j : json Z) : res (list Z) := write_bson j.

(** ** Examples *)

Example bson_written :
  to_bson (Jobject [(str "a", Jarray [Jnumber_integer (-1); Jnull]); (str "b", Jstring (str "x"))]) =
    Ok [32;0;0;0; 4;97;0; 15;0;0;0; 16;48;0;255;255;255;255; 10;49;0; 0; 2;98;0; 2;0;0;0;120;0; 0].
Proof. reflexivity. Qed.

(** The byte after a string is missing: no value, and no exception. *)
Example bson_silent : from_bson true true [14;0;0;0; 2;98;0; 2;0;0;0;120] = Ok Jdiscarded.
Proof. reflexivity. Qed.
