(* ===== verification/JsonBsonProps.v ===== *)
(** JsonBsonProps: the size [to_bson] writes first is that of the document, and what
    [to_bson] writes, [from_bson] reads. *)

From S2P Require Import Prelude Json JsonLexer JsonParser JsonDump JsonUtf8 JsonDom JsonTotal JsonParse JsonRead JsonBuild JsonRound JsonNumeral JsonNumber JsonAccess JsonBinary JsonBinaryProps JsonBson.

(** ** Keys *)

(** No zero byte in a name. *)
Definition name_ok (name : list Z) : Prop := Forall (fun c => c <> 0) name.

Lemma find_zero_None i name : find_zero i name = None <-> name_ok name.
Proof.
  revert i. induction name as [|c name IH]; intros i; simpl; [by split; [constructor|]|].
  unfold name_ok. rewrite Forall_cons. destruct (Z.eqb_spec c 0); [by split; [|intros [? _]]|]. rewrite IH. by split; [split|intros [_ ?]].
Qed.

Lemma header_size_ok name n :
  calc_bson_entry_header_size name = Ok n -> name_ok name /\ n = 1 + Z.of_nat (length name) + 1.
Proof.
  unfold calc_bson_entry_header_size. destruct (find_zero 0 name) eqn:E; [done|]. intros [= <-]. split; [by eapply find_zero_None|done].
Qed.

Lemma header_length name c : length (write_bson_entry_header name c) = (length name + 2)%nat.
Proof. simpl. rewrite length_app. simpl. lia. Qed.

Lemma res_bind_ok {A B} (r : res A) (k : A -> res B) b : r ≫= k = Ok b -> exists a, r = Ok a /\ k a = Ok b.
Proof. destruct r as [a|f]; [|done]. intros Hk. by exists a. Qed.

Lemma length_number little n x : length (write_number little n x) = n.
Proof. unfold write_number. destruct little; by rewrite ?length_rev, length_le_bytes. Qed.

(** ** The size of a document *)

Definition sized_as (v : json Z) : Prop :=
  forall name n, calc_bson_element_size name v = Ok n -> exists t, write_bson_element name v = Ok t /\ Z.of_nat (length t) = n.

Lemma elements_size vs i n :
  Forall sized_as vs -> sum_elements calc_bson_element_size i vs = Ok n ->
  exists t, write_elements write_bson_element i vs = Ok t /\ Z.of_nat (length t) = n.
Proof.
  intros Hvs. revert i n. induction Hvs as [|v vs Hv _ IH]; intros i n Hn; [injection Hn as <-; by exists []|].
  cbn [sum_elements] in Hn. apply res_bind_ok in Hn as (n1 & H1 & Hn). apply res_bind_ok in Hn as (n2 & H2 & [= <-]).
  destruct (Hv _ _ H1) as (t1 & Ht1 & Hl1), (IH _ _ H2) as (t2 & Ht2 & Hl2). exists (t1 ++ t2).
  cbn [write_elements]. rewrite Ht1. cbn [mbind res_bind]. rewrite Ht2. split; [done|]. rewrite length_app. lia.
Qed.

Lemma members_size ms n :
  Forall (fun m => sized_as m.2) ms -> sum_members calc_bson_element_size ms = Ok n ->
  exists t, write_members write_bson_element ms = Ok t /\ Z.of_nat (length t) = n.
Proof.
  intros Hms. revert n. induction Hms as [|[k v] ms Hv _ IH]; intros n Hn; [injection Hn as <-; by exists []|].
  cbn [sum_members] in Hn. apply res_bind_ok in Hn as (n1 & H1 & Hn). apply res_bind_ok in Hn as (n2 & H2 & [= <-]).
  destruct (Hv _ _ H1) as (t1 & Ht1 & Hl1), (IH _ H2) as (t2 & Ht2 & Hl2). exists (t1 ++ t2).
  cbn [write_members]. cbn [snd] in Ht1. rewrite Ht1. cbn [mbind res_bind]. rewrite Ht2. split; [done|]. rewrite length_app. lia.
Qed.

Lemma element_size v : sized_as v.
Proof.
  induction v as [|ms IH|vs IH|s|b|n|n|x|bs subtype|] using json_ind; intros name n' Hn; cbn [calc_bson_element_size] in Hn;
    apply res_bind_ok in Hn as (h & [_ ->]%header_size_ok & Hn); cbn [write_bson_element].
  - injection Hn as <-. eexists. split; [done|]. unfold write_bson_null. rewrite header_length. lia.
  - apply res_bind_ok in Hn as (m & Hm & [= <-]). destruct (members_size ms m IH Hm) as (t & Ht & Hl).
    unfold calc_bson_object_size. rewrite Hm. cbn [mbind res_bind mret res_ret]. rewrite Ht. eexists. split; [done|].
    rewrite !length_app, header_length, length_number. simpl. lia.
  - apply res_bind_ok in Hn as (m & Hm & [= <-]). destruct (elements_size vs 0 m IH Hm) as (t & Ht & Hl).
    unfold calc_bson_array_size. rewrite Hm. cbn [mbind res_bind mret res_ret]. rewrite Ht. eexists. split; [done|].
    rewrite !length_app, header_length, length_number. simpl. lia.
  - injection Hn as <-. eexists. split; [done|]. unfold write_bson_string, calc_bson_string_size.
    rewrite !length_app, header_length, length_number. simpl. lia.
  - injection Hn as <-. eexists. split; [done|]. unfold write_bson_boolean. rewrite !length_app, header_length. simpl. lia.
  - injection Hn as <-. eexists. split; [done|]. unfold write_bson_integer, calc_bson_integer_size.
    destruct (fits_int32 n); rewrite !length_app, header_length, length_number; lia.
  - injection Hn as <-. eexists. split; [done|]. unfold write_bson_unsigned, calc_bson_unsigned_size.
    destruct (n <=? 2 ^ 31 - 1); [|destruct (n <=? 2 ^ 63 - 1)]; rewrite !length_app, header_length, length_number; lia.
  - injection Hn as <-. eexists. split; [done|]. unfold write_bson_double. rewrite !length_app, header_length, length_number. lia.
  - injection Hn as <-. eexists. split; [done|]. unfold write_bson_binary, calc_bson_binary_size.
    rewrite !length_app, header_length, !length_number. lia.
  - done.
Qed.

(** ** When it throws *)

(** No key has a zero byte. *)
Fixpoint keys_ok (v : json Z) : Prop :=
  match v with
  | Jobject ms => foldr (fun m P => (name_ok m.1 /\ keys_ok m.2) /\ P) True ms
  | Jarray vs => foldr (fun v P => keys_ok v /\ P) True vs
  | _ => True
  end.

Definition bad_key (f : fault) : Prop := exists what, f = Thrown 409 what.

(** The outcome of a calculation: a size and [P], or a key that is not allowed. *)
Definition size_or (P : Prop) (r : res Z) : Prop := match r with Ok _ => P | Fault f => bad_key f /\ ~ P end.

Lemma size_or_bind P1 P2 (P : Prop) r (k : Z -> res Z) :
  size_or P1 r -> (forall n, size_or P2 (k n)) -> (P <-> P1 /\ P2) -> size_or P (r ≫= k).
Proof.
  intros Hr Hk HP. destruct r as [n|f]; simpl in *; [|by destruct Hr; split; [|tauto]].
  specialize (Hk n). destruct (k n); simpl in *; tauto.
Qed.

Lemma size_or_ret (P : Prop) n : P -> size_or P (mret n).
Proof. done. Qed.

Lemma header_or name : size_or (name_ok name) (calc_bson_entry_header_size name).
Proof.
  unfold calc_bson_entry_header_size. pose proof (find_zero_None 0 name) as Hz. destruct (find_zero 0 name); simpl; [|by apply Hz].
  split; [by eexists|]. intros Hn%Hz. done.
Qed.

Lemma index_name_ok i : 0 <= i -> name_ok (to_string i).
Proof. intros Hi. pose proof (to_string_digits i Hi) as Hd. eapply Forall_impl; [exact Hd|]. intros c Hc ->. done. Qed.

Lemma elements_or vs i :
  0 <= i -> Forall (fun v => forall name, size_or (name_ok name /\ keys_ok v) (calc_bson_element_size name v)) vs ->
  size_or (Forall keys_ok vs) (sum_elements calc_bson_element_size i vs).
Proof.
  intros Hi Hvs. revert i Hi. induction Hvs as [|v vs Hv _ IH]; intros i Hi; [by apply size_or_ret|].
  cbn [sum_elements]. eapply (size_or_bind _ (Forall keys_ok vs)); [apply Hv| |].
  - intros n. eapply (size_or_bind _ True); [apply (IH (i + 1)); lia|by intros; apply size_or_ret|tauto].
  - rewrite Forall_cons. pose proof (index_name_ok i Hi). tauto.
Qed.

Lemma members_or ms :
  Forall (fun m => forall name, size_or (name_ok name /\ keys_ok m.2) (calc_bson_element_size name m.2)) ms ->
  size_or (Forall (fun m => name_ok m.1 /\ keys_ok m.2) ms) (sum_members calc_bson_element_size ms).
Proof.
  intros Hms. induction Hms as [|[k v] ms Hv _ IH]; [by apply size_or_ret|].
  cbn [sum_members]. eapply (size_or_bind _ (Forall (fun m => name_ok m.1 /\ keys_ok m.2) ms)); [apply Hv| |].
  - intros n. eapply (size_or_bind _ True); [apply IH|by intros; apply size_or_ret|tauto].
  - rewrite Forall_cons. done.
Qed.

Lemma element_or v : wf_json v -> forall name, size_or (name_ok name /\ keys_ok v) (calc_bson_element_size name v).
Proof.
  induction v as [|ms IH|vs IH|s|b|n|n|x|bs subtype|] using json_ind; intros Hv name; cbn [calc_bson_element_size];
    try (by eapply (size_or_bind _ True); [apply header_or|intros; by apply size_or_ret|simpl; tauto]).
  - apply wf_object in Hv as [_ Hv]. eapply (size_or_bind _ (Forall (fun m => name_ok m.1 /\ keys_ok m.2) ms)); [apply header_or| |].
    + intros h. eapply (size_or_bind _ True); [apply members_or|intros; by apply size_or_ret|tauto].
      rewrite Forall_forall in *. intros m Hm. apply IH; [done|]. by destruct (Hv m Hm).
    + cbn [keys_ok]. rewrite (foldr_and (fun m => name_ok m.1 /\ keys_ok m.2)). tauto.
  - apply wf_array in Hv. eapply (size_or_bind _ (Forall keys_ok vs)); [apply header_or| |].
    + intros h. eapply (size_or_bind _ True); [apply elements_or; [lia|]|intros; by apply size_or_ret|tauto].
      rewrite Forall_forall in *. intros v Hin. apply IH; [done|by apply Hv].
    + cbn [keys_ok]. rewrite foldr_and. tauto.
Qed.


(** ** The value read back

    A number that fits [int64] comes back signed, and every byte string has a subtype
    of eight bits. *)

Definition bson_scalar (j : json Z) : json Z :=
  match j with
  | Jnumber_unsigned n => if n <=? 2 ^ 63 - 1 then Jnumber_integer n else Jnumber_unsigned n
  | Jbinary b subtype => Jbinary b (Some (u8 (default 0 subtype)))
  | j => j
  end.
Definition bson_image : json Z -> json Z := map_scalars bson_scalar.

Lemma bson_scalar_image : scalar_image bson_scalar.
Proof.
  intros v Hs Hv. destruct v as [| | |s|b|n|n|x|bs subtype|]; try done; cbn [bson_scalar].
  - destruct (Z.leb_spec n (2 ^ 63 - 1)); split; try done. simpl in Hv |- *. unfold in_u in Hv. unfold in_s. lia.
  - split; [|done]. destruct Hv as [Hb Ht]. split; [exact Hb|]. pose proof (uwrap_range 8 (default 0 subtype) ltac:(lia)) as Hr.
    change (in_u 64 (uwrap 8 (default 0 subtype))). unfold in_u in *. lia.
Qed.

(** The lengths of strings fit [int32]. *)
Fixpoint bson_fits (v : json Z) : Prop :=
  match v with
  | Jstring s => Z.of_nat (length s) + 1 < 2 ^ 31
  | Jbinary b _ => Z.of_nat (length b) < 2 ^ 31
  | Jarray vs => foldr (fun v P => bson_fits v /\ P) True vs
  | Jobject ms => foldr (fun m P => bson_fits m.2 /\ P) True ms
  | _ => True
  end.

Section take.
Context {S : Type} `{Sax Z S}.
Abbreviation BR := (M (binary_reader (S := S))).
Implicit Types (s : S) (t body : list Z) (c n : Z) (is_array : bool).

Lemma cstr_loop_take fuel name result s :
  name_ok name -> Forall is_byte name -> (length name < fuel)%nat ->
  takes (cstr_loop fuel result) (name ++ [0]) s (Some (result ++ name)) s.
Proof.
  intros Hn. revert fuel result. induction Hn as [|c name Hc Hn IH]; intros fuel result Hb Hf; (destruct fuel as [|fuel]; [simpl in Hf; lia|]);
    cbn [cstr_loop app]; apply takes_get.
  - apply takes_not_eof; [lia|]. cbn [negb]. apply takes_current. rewrite app_nil_r. apply takes_any, takes_ret.
  - apply Forall_cons in Hb as [Hcb Hb]. apply takes_not_eof; [unfold is_byte, in_u in Hcb; lia|]. cbn [negb]. apply takes_current.
    rewrite (proj2 (Z.eqb_neq c 0x00)) by done. apply takes_any. unfold u8. rewrite uwrap_small by done.
    assert (result ++ c :: name = (result ++ [c]) ++ name) as -> by (by rewrite <- app_assoc).
    apply IH; [done|]. simpl in Hf. lia.
Qed.

Lemma cstr_take name s : name_ok name -> Forall is_byte name -> takes get_bson_cstr (name ++ [0]) s (Some name) s.
Proof. intros Hn Hb. apply takes_fuel. intros fuel Hf. rewrite length_app in Hf. apply (cstr_loop_take fuel name []); [done..|lia]. Qed.

Lemma bson_string_take u s :
  Forall is_byte u -> takes (get_bson_string (Z.of_nat (length u) + 1)) (u ++ [0]) s (Some u) s.
Proof.
  intros Hu. unfold get_bson_string. rewrite (proj2 (Z.ltb_ge _ 1)) by lia.
  replace (Z.of_nat (length u) + 1 - 1) with (Z.of_nat (length u)) by lia.
  eapply takes_bind; [by apply br_string_take|]. apply takes_get, takes_any, takes_ret.
Qed.

Lemma bson_binary_take u (st : option Z) s :
  Forall is_byte u ->
  takes (get_bson_binary (Z.of_nat (length u))) (write_number false 1 (default 0 st) ++ u) s (Some (u, Some (u8 (default 0 st)))) s.
Proof.
  intros Hu. unfold get_bson_binary. rewrite (proj2 (Z.ltb_ge _ 0)) by lia.
  eapply takes_bind; [apply get_number_take; by left|]. rewrite <- (app_nil_r u) at 2.
  eapply takes_bind; [by apply br_binary_take|]. apply takes_ret.
Qed.

Section element.
Context (parse : bool -> BR bool).

(** What [write_bson_element] wrote, [t], is an element of the given name, whose value
    is read by [parse_bson_element_internal]. *)
Definition element_takes (name t : list Z) s s' : Prop :=
  exists c body, t = c :: name ++ [0] ++ body /\ is_byte c /\ c <> 0 /\
    forall pos, takes (parse_bson_element_internal parse c pos) body s true s'.

Lemma element_intro name c body s s' :
  is_byte c -> c <> 0 -> (forall pos, takes (parse_bson_element_internal parse c pos) body s true s') ->
  element_takes name (write_bson_entry_header name c ++ body) s s'.
Proof.
  intros Hc H0 Ht. exists c, body. split_and!; [|done..]. unfold write_bson_entry_header. cbn [app]. by rewrite <- app_assoc.
Qed.

(** A value without elements. *)
Lemma scalar_take v name t s s' :
  is_scalar v = true -> wf_json v -> bson_fits v -> write_bson_element name v = Ok t -> emit false (bson_image v) s = Ok (tt, s') ->
  element_takes name t s s'.
Proof.
  intros Hsc Hv Hf Ht He. destruct v as [|ms|vs|u|b|n|n|x|u st|]; try done; cbn [write_bson_element mret res_ret] in Ht; injection Ht as <-;
    unfold bson_image in He; cbn [map_scalars bson_scalar emit bson_fits] in He, Hf.
  - unfold write_bson_null. rewrite <- (app_nil_r (write_bson_entry_header _ _)). apply element_intro; [done..|]. intros pos. by apply takes_event.
  - apply element_intro; [done..|]. intros pos. apply (number_and_take true _ 4); [by right|simpl; lia|].
    rewrite swrap_small by (unfold in_s; lia). rewrite <- (app_nil_r (u ++ [0])).
    eapply takes_bind; [by apply bson_string_take|]. by apply takes_event.
  - apply element_intro; [done..|]. intros pos. apply takes_get, takes_any. destruct b; by apply takes_event.
  - cbn [wf_json] in Hv. unfold write_bson_integer. destruct (fits_int32 n) eqn:Ef; (apply element_intro; [done..|]); intros pos;
      rewrite <- (app_nil_r (write_number _ _ _)).
    + apply (signed_and_take true _ 4 n (fun x => with_handler (sax_number_integer x))); [by right|lia| |by apply takes_event].
      unfold fits_int32 in Ef. unfold in_s. simpl. lia.
    + apply (signed_and_take true _ 8 n (fun x => with_handler (sax_number_integer x))); [by right|lia|exact Hv|by apply takes_event].
  - cbn [wf_json] in Hv. unfold in_u in Hv. unfold write_bson_unsigned.
    destruct (Z.leb_spec n (2 ^ 31 - 1)); [|destruct (Z.leb_spec n (2 ^ 63 - 1))]; (apply element_intro; [done..|]); intros pos;
      rewrite <- (app_nil_r (write_number _ _ _)).
    + rewrite (proj2 (Z.leb_le n _)) in He by lia.
      apply (signed_and_take true _ 4 n (fun x => with_handler (sax_number_integer x))); [by right|lia|unfold in_s; simpl; lia|by apply takes_event].
    + apply (signed_and_take true _ 8 n (fun x => with_handler (sax_number_integer x))); [by right|lia|unfold in_s; simpl; lia|by apply takes_event].
    + apply (number_and_take true _ 8 n); [by right|simpl; lia|by apply takes_event].
  - apply element_intro; [done..|]. intros pos. rewrite <- (app_nil_r (write_number _ _ _)).
    apply (number_and_take true _ 8 x); [by right|unfold wf_json, float_rule in Hv; simpl in Hv; unfold in_u in Hv; simpl; lia|by apply takes_event].
  - apply element_intro; [done..|]. intros pos. destruct Hv as [Hb _].
    apply (number_and_take true _ 4); [by right|simpl; lia|].
    rewrite swrap_small by (unfold in_s; lia). rewrite <- (app_nil_r (_ ++ u)).
    eapply takes_bind; [by apply bson_binary_take|]. by apply takes_event.
Qed.

(** The loop over the elements: the text of each, and its events. *)
Lemma step_take fuel is_array name t rest s s1 s2 s3 :
  name_ok name -> Forall is_byte name ->
  (if is_array then Ok (tt, s) else event (sax_key name) s) = Ok (tt, s1) ->
  element_takes name t s1 s2 -> takes (element_loop parse fuel is_array) rest s2 true s3 ->
  takes (element_loop parse (Datatypes.S fuel) is_array) (t ++ rest) s true s3.
Proof.
  intros Hn Hb Hk (c & body & -> & Hc & H0 & Hbody) Hrest. cbn [element_loop app]. apply takes_get.
  rewrite (proj2 (Z.eqb_neq c 0)) by done. apply takes_not_eof; [unfold is_byte, in_u in Hc; lia|]. cbn [negb].
  apply takes_any, takes_position. intros pos.
  assert ((name ++ 0 :: body) ++ rest = (name ++ [0]) ++ (body ++ rest)) as -> by (by rewrite <- !app_assoc).
  eapply takes_and; [by apply cstr_take|]. rewrite <- (app_nil_l (body ++ rest)).
  eapply (takes_bind _ _ [] _ s s1 s3 true); [destruct is_array; [injection Hk as <-; apply takes_ret|by apply takes_event]|]. cbn [negb].
  eapply takes_bind; [apply Hbody|]. exact Hrest.
Qed.

Lemma loop_end fuel is_array s : takes (element_loop parse (Datatypes.S fuel) is_array) [0] s true s.
Proof. cbn [element_loop]. apply takes_get, takes_any, takes_ret. Qed.

(** [v] is read under any name, when it was written in at most [l] bytes. *)
Definition value_takes (l : nat) v : Prop :=
  forall name t s s', (length t <= l)%nat -> write_bson_element name v = Ok t -> emit false (bson_image v) s = Ok (tt, s') ->
    element_takes name t s s'.

Lemma elements_take l vs i t fuel s s' :
  0 <= i -> (length t < fuel)%nat -> (length t <= l)%nat -> write_elements write_bson_element i vs = Ok t ->
  Forall (value_takes l) vs -> foldr (fun v k => emit false (bson_image v);; k) (mret tt) vs s = Ok (tt, s') ->
  takes (element_loop parse fuel true) (t ++ [0]) s true s'.
Proof.
  intros Hi Hf Hl Ht Hvs. revert i t fuel s Hi Hf Hl Ht. induction Hvs as [|v vs Hv _ IH]; intros i t fuel s Hi Hf Hl Ht He;
    (destruct fuel as [|fuel]; [simpl in Hf; lia|]).
  { injection Ht as <-. injection He as <-. apply loop_end. }
  cbn [write_elements] in Ht. apply res_bind_ok in Ht as (t1 & H1 & Ht). apply res_bind_ok in Ht as (t2 & H2 & [= <-]).
  cbn [foldr] in He. apply bind_ok_inv in He as ([] & s1 & He1 & He2). rewrite length_app in Hf, Hl.
  assert (element_takes (to_string i) t1 s s1) as Ht1 by (apply Hv; [lia|done..]).
  assert (1 <= length t1)%nat by (destruct Ht1 as (? & ? & -> & _); simpl; lia). rewrite <- app_assoc.
  eapply (step_take fuel true (to_string i)); [by apply index_name_ok|by apply digits_all_bytes, to_string_digits|done|exact Ht1|].
  apply (IH (i + 1)); [lia..|done|done].
Qed.

Lemma members_take l ms t fuel s s' :
  (length t < fuel)%nat -> (length t <= l)%nat -> write_members write_bson_element ms = Ok t ->
  Forall (fun m => (name_ok m.1 /\ Forall is_byte m.1) /\ value_takes l m.2) ms ->
  foldr (fun m k => (event (sax_key m.1);; emit false (bson_image m.2));; k) (mret tt) ms s = Ok (tt, s') ->
  takes (element_loop parse fuel false) (t ++ [0]) s true s'.
Proof.
  intros Hf Hl Ht Hms. revert t fuel s Hf Hl Ht. induction Hms as [|[name v] ms [[Hn Hb] Hv] _ IH]; intros t fuel s Hf Hl Ht He;
    (destruct fuel as [|fuel]; [simpl in Hf; lia|]).
  { injection Ht as <-. injection He as <-. apply loop_end. }
  cbn [write_members] in Ht. apply res_bind_ok in Ht as (t1 & H1 & Ht). apply res_bind_ok in Ht as (t2 & H2 & [= <-]).
  cbn [foldr fst snd] in He, Hn, Hb, Hv. apply bind_ok_inv in He as ([] & s1 & He1 & He2).
  apply bind_ok_inv in He1 as ([] & s0 & Hkey & He1). rewrite length_app in Hf, Hl.
  assert (element_takes name t1 s0 s1) as Ht1 by (apply Hv; [lia|done..]).
  assert (1 <= length t1)%nat by (destruct Ht1 as (? & ? & -> & _); simpl; lia). rewrite <- app_assoc.
  eapply (step_take fuel false name); [done|done|exact Hkey|exact Ht1|].
  apply IH; [lia|lia|done|done].
Qed.
End element.

Lemma takes_of_at {A} (m : BR A) t s a s' : (forall c, takes_at c m t s a s') -> takes m t s a s'.
Proof. intros Hm rest cur k. apply Hm. Qed.

(** A document: its size, which is not looked at, the elements and the zero. *)
Lemma document_take parse is_array n t (evs : M S unit) s s' :
  (event (if is_array then sax_start_array unknown_size else sax_start_object unknown_size);; evs;;
   event (if is_array then sax_end_array else sax_end_object)) s = Ok (tt, s') ->
  (forall fuel s1 s2, (length t < fuel)%nat -> evs s1 = Ok (tt, s2) -> takes (element_loop parse fuel is_array) (t ++ [0]) s1 true s2) ->
  takes (bson_document parse is_array) (write_number true 4 n ++ t ++ [0]) s true s'.
Proof.
  intros He Hl. eapply takes_bind; [apply get_number_take; by right|]. apply takes_of_at. intros c. eapply container_take; [exact He|].
  intros s1 s2 H12. apply takes_fuel. intros fuel Hf. rewrite length_app in Hf. cbn [length] in Hf. apply Hl; [lia|done].
Qed.

(** The members of an object that was written. *)
Lemma object_take l parse ms n t s s' :
  (length t <= l)%nat -> write_members write_bson_element ms = Ok t ->
  Forall (fun m => (name_ok m.1 /\ Forall is_byte m.1) /\ value_takes parse l m.2) ms ->
  emit false (bson_image (Jobject ms)) s = Ok (tt, s') ->
  takes (bson_document parse false) (write_number true 4 n ++ t ++ [0]) s true s'.
Proof.
  intros Hl Ht Hms He. unfold bson_image in He. cbn [map_scalars emit] in He. fold bson_image in He.
  eapply (document_take parse false); [exact He|]. intros fuel s1 s2 Hf H12.
  fold (emit_members (S := S) false (map (fun m => (m.1, bson_image m.2)) ms)) in H12. rewrite emit_members_events, foldr_fmap in H12.
  by apply (members_take parse l ms t).
Qed.

Lemma array_take l parse vs n t s s' :
  (length t <= l)%nat -> write_elements write_bson_element 0 vs = Ok t -> Forall (value_takes parse l) vs ->
  emit false (bson_image (Jarray vs)) s = Ok (tt, s') ->
  takes (bson_document parse true) (write_number true 4 n ++ t ++ [0]) s true s'.
Proof.
  intros Hl Ht Hvs He. unfold bson_image in He. cbn [map_scalars emit] in He. fold bson_image in He.
  eapply (document_take parse true); [exact He|]. intros fuel s1 s2 Hf H12. rewrite foldr_fmap in H12.
  by apply (elements_take parse l vs 0 t).
Qed.

(** Values, by induction on the fuel of the nesting. *)
Lemma bson_take l fuel v :
  (l < fuel)%nat -> wf_json v -> bson_fits v -> keys_ok v -> value_takes (parse_bson_document fuel) l v.
Proof.
  revert l v. induction fuel as [|fuel IH]; [lia|]. intros l v Hl Hv Hf Hk name t s s' Hlen Ht He.
  destruct (is_scalar v) eqn:Hsc; [by eapply scalar_take|]. destruct v as [|ms|vs| | | | | | |]; try done; cbn [write_bson_element] in Ht.
  - apply res_bind_ok in Ht as (n & _ & Ht). apply res_bind_ok in Ht as (u & Hu & Ht).
    assert (t = write_bson_entry_header name 0x03 ++ write_number true 4 n ++ u ++ [0]) as -> by (by injection Ht as <-).
    rewrite !length_app, header_length in Hlen. apply wf_object in Hv as [_ Hv].
    cbn [bson_fits keys_ok] in Hf, Hk. rewrite (foldr_and (fun m => bson_fits m.2)) in Hf. rewrite (foldr_and (fun m => name_ok m.1 /\ keys_ok m.2)) in Hk.
    apply element_intro; [done..|]. intros pos. change (parse_bson_element_internal _ _ _) with (bson_document (parse_bson_document (S := S) fuel) false).
    apply (object_take (l - 1) _ ms); [lia|done| |done]. rewrite Forall_forall in *. intros m Hm. destruct (Hv m Hm), (Hk m Hm).
    split; [done|]. apply IH; auto. lia.
  - apply res_bind_ok in Ht as (n & _ & Ht). apply res_bind_ok in Ht as (u & Hu & Ht).
    assert (t = write_bson_entry_header name 0x04 ++ write_number true 4 n ++ u ++ [0]) as -> by (by injection Ht as <-).
    rewrite !length_app, header_length in Hlen. apply wf_array in Hv.
    cbn [bson_fits keys_ok] in Hf, Hk. rewrite foldr_and in Hf, Hk.
    apply element_intro; [done..|]. intros pos. change (parse_bson_element_internal _ _ _) with (bson_document (parse_bson_document (S := S) fuel) true).
    apply (array_take (l - 1) _ vs); [lia|done| |done]. rewrite Forall_forall in *. intros v Hin. apply IH; auto. lia.
Qed.
End take.

(** ** The round trip *)

(** C24 What [to_bson] writes for an object with keys without zero bytes, strings of
    bytes whose lengths fit [int32] and numbers of 64 bits, [from_bson] reads as the
    same value, under any setting: but that an unsigned number that fits [int64]
    comes back signed, and that a byte string has a subtype of eight bits. *)
Theorem bson_roundtrip (v : json Z) (strict exceptions : bool) :
  wf_json v -> is_object v = true -> keys_ok v -> bson_fits v ->
  exists t, to_bson v = Ok t /\ from_bson strict exceptions t = Ok (bson_image v).
Proof.
  intros Hv Ho Hk Hf. pose proof (element_or v Hv []) as Hs.
  destruct v as [|ms| | | | | | | |]; try done. unfold to_bson, write_bson, write_bson_object, calc_bson_object_size.
  cbn [calc_bson_element_size calc_bson_entry_header_size find_zero mbind res_bind] in Hs.
  destruct (sum_members calc_bson_element_size ms) as [n|f] eqn:Es; [|destruct Hs as [_ Hs]; destruct Hs; by split; [constructor|]].
  destruct (members_size ms n) as (t & Ht & Hl); [rewrite Forall_forall; intros; apply element_size|done|].
  cbn [mbind res_bind mret res_ret]. rewrite Ht. eexists. split; [reflexivity|].
  destruct (scalar_image_wf _ bson_scalar_image _ Hv) as [Hwi _]. apply (from_take false); [done|done|]. intros s s' He.
  apply takes_fuel. intros [|fuel] Hfuel; [lia|]. cbn [parse_bson_document]. rewrite !length_app in Hfuel.
  apply wf_object in Hv as [_ Hv]. cbn [bson_fits keys_ok] in Hf, Hk.
  rewrite (foldr_and (fun m => bson_fits m.2)) in Hf. rewrite (foldr_and (fun m => name_ok m.1 /\ keys_ok m.2)) in Hk.
  apply (object_take (length t) _ ms); [done|done| |done]. rewrite Forall_forall in *. intros m Hm. destruct (Hv m Hm), (Hk m Hm).
  split; [done|]. apply bson_take; auto. rewrite length_number in Hfuel. lia.
Qed.

Definition bson_sample : json Z :=
  Jobject [(str "a", Jarray [Jnull; Jnumber_integer (-5000000000); Jnumber_unsigned 7; Jnumber_float 0x3FF8000000000000; Jboolean true]);
    (str "k", Jbinary [1; 255] None); (str "l", Jstring (str "s"))].

Lemma bson_roundtrip_witness :
  exists t, to_bson bson_sample = Ok t /\ length t = 68%nat /\ from_bson true true t = Ok (bson_image bson_sample) /\
  bson_image bson_sample =
    Jobject [(str "a", Jarray [Jnull; Jnumber_integer (-5000000000); Jnumber_integer 7; Jnumber_float 0x3FF8000000000000; Jboolean true]);
      (str "k", Jbinary [1; 255] (Some 0)); (str "l", Jstring (str "s"))].
Proof.
  destruct (bson_roundtrip bson_sample true true) as (t & Ht & Hr); [|done| |vm_compute; repeat split; discriminate|].
  - unfold bson_sample. simpl. repeat split; try lia; repeat constructor; done.
  - unfold bson_sample. simpl. repeat split; repeat constructor; done.
  - exists t. split; [exact Ht|]. vm_compute in Ht. injection Ht as <-. split; [reflexivity|]. split; [exact Hr|]. vm_compute. reflexivity.
Defined.

