(* ===== verification/JsonBsonTotal.v ===== *)
(** JsonBsonTotal: [from_bson] on any bytes.

    The reader goes on after two errors it does not look at: the size of a document
    and the subtype of a byte string that could not be read.  [BrokenSpec] is what
    that asks of a handler. *)

From S2P Require Import Prelude Json JsonLexer JsonParser JsonDump JsonUtf8 JsonDom JsonTotal JsonParse JsonAccess JsonBinary JsonBinaryProps JsonBinaryTotal JsonBson.

(** The errors of [parse_bson_internal]. *)
Definition bson_codes (id : Z) : Prop := id = 110 \/ id = 112 \/ id = 114.

(** A handler in [broken] got an error where it was ready for a value, and takes the
    beginning of a container, or a byte string, all the same. *)
Class BrokenSpec {F S} `{Sax F S} (codes : Z -> Prop) (exceptions : bool)
    (ready : list bool -> S -> Prop) (failed broken : S -> Prop) : Prop := {
  broken_error pos t id what states s : codes id -> ready states s ->
    wp (thrown_by codes exceptions) (sax_parse_error pos t (Thrown id what)) s (fun ok s' => ok = false /\ broken s');
  broken_start_object s : broken s -> wp nofault (sax_start_object unknown_size) s (fun ok s' => ok = true /\ failed s');
  broken_start_array s : broken s -> wp nofault (sax_start_array unknown_size) s (fun ok s' => ok = true /\ failed s');
  broken_binary b subtype s : broken s -> wp nofault (sax_binary b subtype) s (fun ok s' => ok = true /\ failed s');
  broken_failed s : broken s -> failed s
}.

Section total.
Context {S : Type} `{Sax Z S} {codes : Z -> Prop} {exceptions : bool}.
Context {ready after : list bool -> S -> Prop} {failed broken : S -> Prop}.
Context {HS : SaxSpec codes exceptions ready after failed} {HB : BrokenSpec codes exceptions ready failed broken} (Hcodes : forall id, bson_codes id -> codes id).
Abbreviation reader := (binary_reader (S := S)).
Abbreviation BR := (M reader).
Abbreviation E := (binary_thrown codes exceptions false).
Abbreviation stopped := (stopped (failed := failed)).
Abbreviation settled := (settled (after := after) (failed := failed)).
Abbreviation outcome := (outcome (failed := failed)).
Implicit Types (r : reader) (s : S) (n m : nat) (states : list bool) (c : Z) (is_array : bool).

Lemma bson_codes_eof : codes 110.
Proof. apply Hcodes. by left. Qed.
#[local] Hint Resolve bson_codes_eof ready_settled after_settled : core.

(** What a part of a value promises: where it fails nothing more is asked of the
    handler. *)
Definition part {A} (P : A -> Prop) n s (x : option A) r : Prop :=
  match x with Some a => P a /\ reads n s r | None => True end.
Definition finished (I : S -> Prop) n (b : bool) r : Prop := if b then holds_after I n r else True.

(** A value may also be an error that was not looked at, at the end of the input. *)
Definition finished_or (I : S -> Prop) n (b : bool) r : Prop := if b then holds_after I n r \/ stopped 0 r else True.

Lemma outcome_part {A} (m : BR (option A)) P n s r : wp E m r (outcome P n s) -> wp E m r (part P n s).
Proof. intros Hm. eapply wp_mono; [exact Hm|]. by intros [a|] r' Hx. Qed.

Lemma part_and {A} (m : BR (option A)) (k : A -> BR bool) P (Q : bool -> reader -> Prop) n s r :
  wp E m r (part P n s) -> (forall r, Q false r) -> (forall a r', P a -> reads n s r' -> wp E (k a) r' Q) -> wp E (br_and m k) r Q.
Proof.
  intros Hm Hq Hk. apply wp_bind. eapply wp_mono; [exact Hm|]. intros [a|] r' Hx; [|by apply wp_ret]. by apply Hk; destruct Hx.
Qed.

Lemma number_part (k : nat) little n s r :
  reads n s r -> settled s -> wp E (get_number little k format_bson) r (part (fun x => 0 <= x < 256 ^ Z.of_nat k) n s).
Proof. intros Hr Hs. apply outcome_part. by apply (get_number_ok bson_codes_eof). Qed.

Lemma event_finished (m : M S bool) (I : S -> Prop) n s r :
  reads n s r -> wp nofault m s (fun ok s' => ok = true /\ I s') -> wp E (with_handler m) r (finished I n).
Proof. intros Hr Hm. eapply wp_mono; [by apply (event_ok (failed := failed) _ I n s)|]. by intros [] r' Hx. Qed.

Lemma finished_left (m : BR bool) I n r : wp E m r (finished I n) -> wp E m r (finished_or I n).
Proof. intros Hm. eapply wp_mono; [exact Hm|]. intros [] r' Hx; [by left|done]. Qed.

(** ** Strings *)

Lemma cstr_ok n s r : reads n s r -> settled s -> wp E get_bson_cstr r (part (Forall is_byte) n s).
Proof.
  intros [Hb Hl Hsx] Hs. apply wp_bind, wp_gets.
  assert (forall fuel m result r, (m < fuel)%nat -> (m <= n)%nat -> Forall is_byte result -> reads m s r ->
    wp E (cstr_loop fuel result) r (part (Forall is_byte) n s)) as Hloop.
  { induction fuel as [|fuel IH]; [lia|]. intros m result r1 Hm Hmn Hres Hr1. cbn [cstr_loop].
    apply wp_bind, (get_ok m s); [done|]. intros c r2 Hc Hm0 Hr2. apply wp_bind, (eof_ok bson_codes_eof _ _ c (m - 1) s); [done..| |].
    { intros _ r3 _. by apply wp_ret. }
    intros Hne Hbyte. specialize (Hm0 Hne). cbn [negb]. apply wp_bind, wp_gets. destruct (_ =? 0x00).
    - apply wp_ret. split; [done|]. eapply reads_more; [exact Hr2|lia].
    - apply (IH (m - 1)%nat); [lia|lia| |done]. apply Forall_app. split; [done|]. constructor; [|done]. apply uwrap_range. lia. }
  apply (Hloop _ (length (r_ia r))); [lia|done|done|by split].
Qed.

Lemma report_part {A} id detail context n s r (P : A -> Prop) :
  codes id -> reads n s r -> settled s ->
  wp E (token ← br_token_string; br_error format_bson id token (detail) context;; mret None) r (part P n s).
Proof.
  intros Hid Hr Hs. apply wp_bind, wp_gets, wp_bind. eapply wp_mono; [by apply (error_ok _ _ _ _ _ n s)|]. intros b r' _. by apply wp_ret.
Qed.

Lemma bson_string_ok len n s r : reads n s r -> settled s -> wp E (get_bson_string len) r (part (Forall is_byte) n s).
Proof.
  intros Hr Hs. unfold get_bson_string. destruct (len <? 1).
  - apply report_part; [apply Hcodes; right; by left|done..].
  - apply wp_bind. eapply wp_mono; [by apply (br_string_ok bson_codes_eof _ _ _ n s)|]. intros [a|] r1 Hx; [|by apply wp_ret].
    destruct Hx as [Ha Hr1]. apply wp_bind, (get_ok n s); [done|]. intros c r2 _ _ Hr2. apply wp_ret.
    destruct (negb _); [|done]. split; [done|]. eapply reads_more; [exact Hr2|lia].
Qed.

(** A byte string: read, or empty after an error that was not looked at. *)
Lemma bson_binary_ok len states n s r :
  reads n s r -> ready states s ->
  wp E (get_bson_binary len) r (fun x r' =>
    match x with
    | Some a => binary_rule a.1 a.2 /\ reads n s r' \/ r_ia r' = [] /\ broken (r_sax r')
    | None => True
    end).
Proof.
  intros Hr Hs. unfold get_bson_binary. destruct (len <? 0).
  - eapply wp_mono; [apply (report_part _ _ _ n s _ (fun _ => False)); [apply Hcodes; right; by left|done|eauto]|].
    intros [a|] r' Hx; [by destruct Hx|done].
  - apply wp_bind. eapply wp_mono; [apply (get_number_gen broken _ _ _ n s); [intros; by apply (broken_error _ _ _ _ states)|done]|].
    intros [x|] r1 Hx; apply wp_bind.
    + destruct Hx as [Hx Hr1]. eapply wp_mono; [apply (br_binary_ok bson_codes_eof _ _ _ n s); [done|eauto|done]|].
      intros [b|] r2 Hb; apply wp_ret; [|done]. left. destruct Hb as [Hb Hr2]. split; [|done]. split; [done|].
      change (0 <= x < 2 ^ 64). change (256 ^ Z.of_nat 1) with 256 in Hx. lia.
    + destruct Hx as [Hia Hbr].
      eapply wp_mono; [apply (br_binary_ok bson_codes_eof _ _ _ 0 (r_sax r1)); [split; rewrite ?Hia; done|right; by apply broken_failed|done]|].
      intros [b|] r2 Hb; apply wp_ret; [|done]. right. destruct Hb as [_ [_ Hl2 Hs2]]. split; [by apply nil_length_inv; lia|by rewrite Hs2].
Qed.

(** ** Elements *)

Lemma unsupported_ok c pos n s r (Q : bool -> reader -> Prop) :
  settled s -> reads n s r -> (forall r', Q false r') -> wp E (unsupported c pos) r Q.
Proof.
  intros Hs [Hb Hl <-] HQ. unfold unsupported, with_handler, parse_error_at.
  match goal with |- context[sax_parse_error ?a ?b (Thrown ?c ?d)] =>
    pose proof (settled_error c (r_sax r) a b d ltac:(apply Hcodes; right; by right) Hs) as Hw end.
  unfold wp in *. destruct (sax_parse_error _ _ _ (r_sax r)) as [[ok s']|f]; [|by left]. by destruct Hw as [-> _].
Qed.

Section element.
Context (parse : bool -> BR bool) (n : nat).

(** A document in fewer bytes *)
Hypothesis parse_document : forall is_array states m s r, (m < n)%nat -> ready states s -> reads m s r ->
  wp E (parse is_array) r (finished (after states) m).

Lemma element_ok c pos states m s r :
  (m < n)%nat -> ready states s -> reads m s r ->
  wp E (parse_bson_element_internal parse c pos) r (finished_or (after states) m).
Proof.
  intros Hm Hs Hr. unfold parse_bson_element_internal.
  assert (forall (m' : M S bool) r', reads m s r' -> wp nofault m' s (fun ok s' => ok = true /\ after states s') ->
    wp E (with_handler m') r' (finished_or (after states) m)) as Hev by (intros m' r' Hr' Hm'; by apply finished_left, (event_finished _ _ m s)).
  assert (forall (k : nat) (f : Z -> BR bool), (forall a r', 0 <= a < 256 ^ Z.of_nat k -> reads m s r' -> wp E (f a) r' (finished_or (after states) m)) ->
    wp E (br_and (get_number true k format_bson) f) r (finished_or (after states) m)) as Hnum.
  { intros k f Hf. eapply part_and; [apply number_part; eauto|done|done]. }
  repeat match goal with |- wp _ (if ?b then _ else _) _ _ => destruct b end.
  - apply Hnum. intros a r' Ha Hr'. apply Hev; [done|]. by apply spec_float.
  - apply Hnum. intros a r' _ Hr'. eapply part_and; [apply bson_string_ok; eauto|done|]. intros u r2 Hu Hr2. by apply Hev, spec_string.
  - by apply finished_left, (parse_document false states m s).
  - by apply finished_left, (parse_document true states m s).
  - apply Hnum. intros a r' _ Hr'. apply wp_bind. eapply wp_mono; [by apply (bson_binary_ok _ states m s)|].
    intros [b|] r2 Hb; [|by apply wp_ret]. destruct Hb as [[Hb Hr2]|[Hia Hbr]]; [by apply Hev, spec_binary|].
    eapply wp_mono; [apply (event_finished _ failed 0 (r_sax r2)); [split; rewrite ?Hia; done|by apply broken_binary]|].
    intros [] r3 Hx; [|done]. right. destruct Hx. by split.
  - apply wp_bind, (get_ok m s); [done|]. intros b r2 _ _ Hr2. apply Hev; [eapply reads_more; [exact Hr2|lia]|by apply spec_boolean].
  - by apply Hev, spec_null.
  - apply Hnum. intros a r' Ha Hr'. apply Hev; [done|]. apply spec_integer; [|done]. apply signed_range. lia.
  - apply Hnum. intros a r' Ha Hr'. apply Hev; [done|]. apply spec_integer; [|done]. apply signed_range. lia.
  - apply Hnum. intros a r' Ha Hr'. apply Hev; [done|]. by apply spec_unsigned.
  - apply (unsupported_ok _ _ m s); [eauto|done..].
Qed.

(** What the list of elements keeps. *)
Definition between is_array states : S -> Prop := if is_array then ready (true :: states) else after (false :: states).

Lemma between_settled is_array states s : between is_array states s -> settled s.
Proof. destruct is_array; simpl; eauto. Qed.

Lemma between_after is_array states s : after (is_array :: states) s -> between is_array states s.
Proof. destruct is_array; simpl; [apply spec_next|done]. Qed.

(** An error that was not looked at is found at the next element. *)
Lemma element_loop_stopped fuel is_array r : (0 < fuel)%nat -> stopped 0 r -> wp E (element_loop parse fuel is_array) r (fun b _ => b = false).
Proof.
  destruct fuel as [|fuel]; [lia|]. intros _ Hr. cbn [element_loop]. apply wp_bind, (get_stopped (failed := failed)); [done|].
  intros r1 Hc [Hb Hl Hf]. simpl (_ =? _). cbv iota. apply wp_bind, (eof_ok bson_codes_eof _ _ EOF 0 (r_sax r1)); [done|by split|by right| |done].
  intros _ r2 _. by apply wp_ret.
Qed.

Lemma element_loop_ok fuel is_array states m s r :
  (m < fuel)%nat -> (m <= n)%nat -> between is_array states s -> reads m s r ->
  wp E (element_loop parse fuel is_array) r (finished (after (is_array :: states)) m).
Proof.
  revert m s r. induction fuel as [|fuel IH]; [lia|]. intros m s r Hf Hm Hs Hr. cbn [element_loop].
  assert (after (is_array :: states) s) as Ha by (destruct is_array; simpl in Hs; [by apply spec_ready|done]).
  apply wp_bind, (get_ok m s); [done|]. intros c r1 Hc Hm0 Hr1. destruct (c =? 0).
  { apply wp_ret. destruct Hr1 as [Hb Hl <-]. split; [done|lia|done]. }
  apply wp_bind, (eof_ok bson_codes_eof _ _ c (m - 1) s); [done|done|eauto|intros _ r2 _; by apply wp_ret|].
  intros Hne _. specialize (Hm0 Hne). cbn [negb]. apply wp_bind, wp_gets.
  eapply part_and; [apply cstr_ok; [exact Hr1|eauto]|done|]. intros key r2 Hkey Hr2. apply wp_bind.
  eapply (wp_mono _ _ _ (finished (ready (is_array :: states)) (m - 1))).
  { destruct is_array; [destruct Hr2 as [? ? <-]; by apply wp_ret|].
    apply (event_finished _ _ _ s); [done|]. by apply spec_key. }
  intros [] r3 Hr3; [|by apply wp_ret]. cbn [negb]. destruct Hr3 as [Hb3 Hl3 Hs3]. apply wp_bind.
  eapply wp_mono; [apply (element_ok c _ (is_array :: states) (m - 1) (r_sax r3)); [lia|done|by split]|].
  intros [] r4 Hr4; [|by apply wp_ret]. destruct Hr4 as [[Hb4 Hl4 Hs4]|Hst].
  - eapply wp_mono; [apply (IH (m - 1)%nat (r_sax r4)); [lia|lia|by apply between_after|by split]|].
    intros [] r5 Hr5; [|done]. destruct Hr5. split; [done|lia|done].
  - eapply wp_mono; [apply element_loop_stopped; [lia|done]|]. by intros b r5 ->.
Qed.

(** [start], the elements, [end], after the size. *)
Lemma document_ok is_array states m s r :
  (m <= n)%nat -> ready states s -> reads m s r -> wp E (bson_document parse is_array) r (finished (after states) m).
Proof.
  intros Hm Hs Hr. unfold bson_document. apply wp_bind.
  eapply wp_mono; [apply (get_number_gen broken _ _ _ m s); [intros; by apply (broken_error _ _ _ _ states)|done]|].
  intros [x|] r1 Hx; apply wp_bind.
  - destruct Hx as [_ Hr1]. eapply wp_mono; [apply (event_finished _ (after (is_array :: states)) m s); [done|]|].
    { destruct is_array; apply start_unknown; [by apply spec_start_array|by apply spec_start_object]. }
    intros [] r2 Hr2; [|by apply wp_ret]. cbn [negb]. destruct Hr2 as [Hb2 Hl2 Hs2]. apply wp_bind, wp_bind, wp_gets.
    eapply wp_mono; [apply (element_loop_ok _ is_array states (length (r_ia r2)) (r_sax r2)); [lia|lia|by apply between_after|by split]|].
    intros [] r3 Hr3; [|by apply wp_ret]. destruct Hr3 as [Hb3 Hl3 Hs3]. apply (event_finished _ _ _ (r_sax r3)).
    + split; [done|lia|done].
    + destruct is_array; [by apply spec_end_array|by apply spec_end_object].
  - destruct Hx as [Hia Hbr]. eapply wp_mono; [apply (event_finished _ failed 0 (r_sax r1)); [split; rewrite ?Hia; done|]|].
    { destruct is_array; [by apply broken_start_array|by apply broken_start_object]. }
    intros [] r2 Hr2; [|by apply wp_ret]. cbn [negb]. destruct Hr2 as [Hb2 Hl2 Hs2]. apply wp_bind, wp_bind, wp_gets.
    eapply wp_mono; [apply element_loop_stopped; [lia|by split]|]. intros b r3 ->. by apply wp_ret.
Qed.
End element.

Lemma parse_bson_document_ok fuel is_array states n s r :
  (n < fuel)%nat -> ready states s -> reads n s r -> wp E (parse_bson_document fuel is_array) r (finished (after states) n).
Proof.
  revert is_array states n s r. induction fuel as [|fuel IH]; [lia|]. intros is_array states n s r Hn Hs Hr. cbn [parse_bson_document].
  apply (document_ok _ n) with (s := s); [|lia|done..]. intros is_array' states' m s' r' Hm. apply IH. lia.
Qed.

Lemma parse_bson_ok states n s r : ready states s -> reads n s r -> wp E parse_bson r (finished (after states) n).
Proof.
  intros Hs [Hb Hl Hsx]. apply wp_bind, wp_gets.
  eapply wp_mono; [apply (parse_bson_document_ok _ false states (length (r_ia r)) s); [lia|done|by split]|].
  intros [] r' Hx; [|done]. destruct Hx. split; [done|lia|done].
Qed.
End total.

(** ** The handler that builds a value *)

Section dom.
Context {F : Type} {R : Rules F}.
Implicit Types (d : dom (F := F)) (v : json F).
Context (ex : bool).

Definition set_errored d : dom := Dom (root d) (ref_stack d) (object_element d) true (allow_exceptions d).

(** A value goes to its place whether or not there was an error. *)
Lemma handle_value_errored v d :
  handle_value v (set_errored d) = match handle_value v d with Ok (p, d') => Ok (p, set_errored d') | Fault f => Fault f end.
Proof.
  unfold handle_value, mbind, M_bind, gets, deref, store. simpl. destruct (ref_stack d) as [|p ps]; [done|]. simpl.
  destruct (get_at p (root d)) as [c|]; [|done]. destruct c; try done; simpl.
  - destruct (object_element d) as [q|]; [|done].
    change (root (set_errored d)) with (root d). by destruct (set_at q v (root d)).
  - change (root (set_errored d)) with (root d). by destruct (set_at p _ (root d)).
Qed.

Definition dom_broken d : Prop := ex = false /\ exists states d0, ready ex states d0 /\ d = set_errored d0.

Lemma broken_handle v d :
  dom_broken d -> exists p d', handle_value v d = Ok (p, d') /\ dom_failed ex d'.
Proof.
  intros (-> & states & d0 & Hr & ->). rewrite handle_value_errored.
  destruct (handle_exact false states d0 v Hr) as (r & _ & -> & _).
  eexists _, _. split; [done|]. destruct Hr as [[] _]. by split_and!.
Qed.

#[export] Instance dom_broken_spec codes : BrokenSpec codes ex (ready ex) (dom_failed ex) dom_broken.
Proof.
  split; simpl.
  - intros pos t id what states d Hid Hr. pose proof Hr as [[_ _ _ _ Hex] _]. unfold dom_parse_error.
    apply wp_bind, wp_modify, wp_bind, wp_gets. simpl. rewrite Hex. destruct ex eqn:Eex; [apply wp_fail; by exists id, what|].
    apply wp_ret. split; [done|]. split; [done|]. exists states, d.
    rewrite Eex. split; [done|]. unfold set_errored. by rewrite Hex.
  - intros d (p & d' & He & Hf)%(broken_handle (Jobject [])). unfold dom_start. apply wp_bind. eapply wp_run; [exact He|].
    apply wp_bind, wp_modify, ret_after, wp_ret. done.
  - intros d (p & d' & He & Hf)%(broken_handle (Jarray [])). unfold dom_start. apply wp_bind. eapply wp_run; [exact He|].
    apply wp_bind, wp_modify, ret_after, wp_ret. done.
  - intros b subtype d (p & d' & He & Hf)%(broken_handle (Jbinary b subtype)). unfold handle. apply ret_after.
    eapply wp_run; [exact He|]. done.
  - intros d (-> & states & d0 & [[_ _ _ _ Hex] _] & ->). by split_and!.
Qed.
End dom.

(** C26 [from_bson] on any bytes and under any setting: it terminates, no pointer of
    the handler dangles, also where the reader goes on after an error it did not look
    at, and it returns a value whose numbers fit their types and whose keys ascend, or
    the discarded value; or, only when exceptions are on, it throws a [parse_error]
    110, 112 or 114. *)
Theorem from_bson_total (strict exceptions : bool) (s : list Z) :
  Forall is_byte s ->
  match from_bson strict exceptions s with
  | Ok v => wf_json v \/ v = Jdiscarded
  | Fault f => exceptions = true /\ exists id what, f = Thrown id what /\ bson_codes id
  end.
Proof.
  intros Hb. assert (match from_bson strict exceptions s with
    | Ok v => wf_json v \/ (v = Jdiscarded /\ exists d : dom (F := Z), True)
    | Fault f => binary_thrown bson_codes exceptions false f end) as Hw.
  { apply (from_run bson_codes (fun _ => True)); [by left|done|apply br_get_next|done|]. intros n d r Hr Hd.
    by apply (parse_bson_ok (HS := dom_spec exceptions bson_codes) (fun id H => H) [] n d). }
  case_match; [destruct Hw as [?|[-> _]]; auto|]. destruct Hw as [(id & what & -> & -> & Hid)|[Hx _]]; [|done].
  split; [done|]. by exists id, what.
Qed.

Lemma from_bson_total_witness :
  Forall is_byte [5; 0] /\
  match from_bson true false [5; 0] with
  | Ok v => wf_json v \/ v = Jdiscarded
  | Fault f => false = true /\ exists id what, f = Thrown id what /\ bson_codes id
  end /\
  from_bson true false [5; 0] = Ok Jdiscarded.
Proof.
  assert (Forall is_byte [5; 0]) as Hs by (by repeat constructor).
  split; [exact Hs|]. split; [|reflexivity]. apply from_bson_total, Hs.
Defined.
