(* ===== verification/JsonUbjson.v ===== *)
(** JsonUbjson: UBJSON and BJData: [parse_ubjson_internal] and the functions it calls,
    [write_ubjson], [from_ubjson], [to_ubjson], [from_bjdata], [to_bjdata].

    The two formats are the same code with a flag, here [bj].  A reader of sizes gives,
    besides the size, what the code leaves in its parameter [is_ndarray].  The writer
    may fail an assertion or throw, so it gives [res (list Z)]. *)

From S2P Require Import Prelude Json JsonLexer JsonParser JsonDump JsonAccess JsonBinary JsonCbor JsonBson.

(** ** Markers *)

Abbreviation mT := 84 (only parsing).       (* 'T' *)
Abbreviation mF := 70 (only parsing).
Abbreviation mZ := 90 (only parsing).
Abbreviation mN := 78 (only parsing).
Abbreviation mB := 66 (only parsing).
Abbreviation mU := 85 (only parsing).
Abbreviation m_i := 105 (only parsing).     (* 'i' *)
Abbreviation mI := 73 (only parsing).
Abbreviation m_l := 108 (only parsing).
Abbreviation mL := 76 (only parsing).
Abbreviation m_u := 117 (only parsing).
Abbreviation m_m := 109 (only parsing).
Abbreviation mM := 77 (only parsing).
Abbreviation m_h := 104 (only parsing).
Abbreviation m_d := 100 (only parsing).
Abbreviation mD := 68 (only parsing).
Abbreviation mH := 72 (only parsing).
Abbreviation mC := 67 (only parsing).
Abbreviation mS := 83 (only parsing).
Abbreviation mDOLLAR := 36 (only parsing).
Abbreviation mHASH := 35 (only parsing).

(** [std::size_t(-1)] *)
Abbreviation size_npos := unknown_size.

(** [bjd_optimized_type_markers], and [bjdx] of the writer, in another order *)
Definition bjd_optimized_type_markers : list Z := [mF; mH; mN; mS; mT; mZ; cLBRACKET; cLBRACE].

Definition bjd_types_map : list (Z * list Z) :=
  [(mB, str "byte"); (mC, str "char"); (mD, str "double"); (mI, str "int16"); (mL, str "int64"); (mM, str "uint64");
   (mU, str "uint8"); (m_d, str "single"); (m_i, str "int8"); (m_l, str "int32"); (m_m, str "uint32"); (m_u, str "uint16")].

(** The [std::lower_bound] and the test after it. *)
Fixpoint bjd_type (c : Z) (types : list (Z * list Z)) : option (list Z) :=
  match types with
  | [] => None
  | (c', t) :: types => if c' =? c then Some t else bjd_type c types
  end.

(** The integer types: how many bytes, and whether signed. *)
Definition int_type (bj : bool) (c : Z) : option (nat * bool) :=
  if c =? mU then Some (1%nat, false)
  else if c =? m_i then Some (1%nat, true)
  else if c =? mI then Some (2%nat, true)
  else if c =? m_l then Some (4%nat, true)
  else if c =? mL then Some (8%nat, true)
  else if bj && (c =? m_u) then Some (2%nat, false)
  else if bj && (c =? m_m) then Some (4%nat, false)
  else if bj && (c =? mM) then Some (8%nat, false)
  else None.

Definition ubjson_format (bj : bool) : input_format_t := if bj then format_bjdata else format_ubjson.

(** ** Loops *)

Section loops.
Context {S : Type} `{Sax Z S}.
Abbreviation BR := (M (binary_reader (S := S))).
Context {A : Type} (body : A -> BR (option A)).

(** [body] as many times as [p] says, until it fails.  A round need not read anything,
    so the input does not bound the rounds. *)
Fixpoint pos_loop (p : positive) (a : A) : BR (option A) :=
  match p with
  | xH => body a
  | xO p => x ← pos_loop p a; match x with Some a => pos_loop p a | None => mret None end
  | xI p =>
      x ← body a;
      match x with
      | Some a => x ← pos_loop p a; match x with Some a => pos_loop p a | None => mret None end
      | None => mret None
      end
  end.

(** [for (i = 0; i < len; ++i) if (!body) return false;] *)
Definition for_loop (len : Z) (a : A) : BR (option A) :=
  match len with Zpos p => pos_loop p a | _ => mret (Some a) end.

(** [while (current != stop) if (!body) return false;] *)
Fixpoint while_loop (stop : Z) (fuel : nat) (a : A) : BR (option A) :=
  match fuel with
  | O => fail OutOfFuel
  | Datatypes.S fuel =>
      c ← gets r_current;
      if c =? stop then mret (Some a)
      else
        x ← body a;
        match x with Some a => while_loop stop fuel a | None => mret None end
  end.
Definition while_not (stop : Z) (a : A) : BR (option A) := fuel ← br_fuel; while_loop stop fuel a.
End loops.

(** A body that only succeeds or fails. *)
Definition once {S} (body : M S bool) (_ : unit) : M S (option unit) := ok ← body; mret (if ok : bool then Some tt else None).
Definition all_rounds {S} (m : M S (option unit)) : M S bool := x ← m; mret (bool_decide (is_Some x)).

(** ** The reader *)

Section reader.
Context {S : Type} `{Sax Z S} `{NumberFloat Z} (dp : Z) (bj : bool).
Abbreviation BR := (M (binary_reader (S := S))).
Abbreviation format := (ubjson_format bj).
Implicit Types (c prefix size type : Z).

Fixpoint noop_loop (fuel : nat) : BR Z :=
  match fuel with
  | O => fail OutOfFuel
  | Datatypes.S fuel => c ← br_get; if c =? mN then noop_loop fuel else mret c
  end.
Definition get_ignore_noop : BR Z := fuel ← br_fuel; noop_loop fuel.

(** [get_number] of an integer type *)
Definition get_integer (t : nat * bool) : BR (option Z) :=
  x ← get_number false t.1 format;
  mret (x ← x; Some (if t.2 then swrap (8 * Z.of_nat t.1) x else x)).

(** An error at the last byte read, whose hexadecimal digits end the message... *)
Definition last_byte_error (id : Z) (before after context : list Z) : BR unit :=
  token ← br_token_string;
  br_error format id token (before ++ token ++ after) context;;
  mret tt.
(** ...or are not part of it. *)
Definition token_error (id : Z) (detail context : list Z) : BR unit :=
  token ← br_token_string;
  br_error format id token detail context;;
  mret tt.
(** [sax->parse_error] with an [out_of_range] exception *)
Definition range_error (detail context : list Z) : BR unit :=
  token ← br_token_string;
  pos ← gets chars_read;
  with_handler (sax_parse_error pos token (out_of_range 408 (binary_message format detail context)));;
  mret tt.

Definition length_types : list Z := if bj then str "U, i, u, I, m, l, M, L" else str "U, i, I, l, L".

Definition get_ubjson_string (get_char : bool) : BR (option (list Z)) :=
  (if get_char then br_get;; mret tt else mret tt);;
  ok ← unexpect_eof format (str "value");
  if negb ok then mret None
  else
    c ← gets r_current;
    match int_type bj c with
    | Some t =>
        len ← get_integer t;
        match len with Some len => br_get_string format len [] | None => mret None end
    | None =>
        last_byte_error 113 (str "expected length type specification (" ++ length_types ++ str "); last byte: 0x") [] (str "string");;
        mret None
    end.

(** *** Sizes *)

Section sizes.
(** [get_ubjson_size_value] on a smaller input *)
Variable size_value : bool -> Z -> BR (option Z * bool).

(** The size, or [size_npos] where there is none, and the type, or 0; the bit 256 of the
    type says that the container is an n-dimensional array. *)
Definition get_ubjson_size_type (inside_ndarray : bool) : BR (option (Z * Z)) :=
  get_ignore_noop;;
  c ← gets r_current;
  if c =? mDOLLAR then
    type ← br_get;
    if bj && bool_decide (type ∈ bjd_optimized_type_markers) then
      last_byte_error 112 (str "marker 0x") (str " is not a permitted optimized array type") (str "type");;
      mret None
    else
      ok ← unexpect_eof format (str "type");
      if negb ok then mret None
      else
        get_ignore_noop;;
        c ← gets r_current;
        if negb (c =? mHASH) then
          ok ← unexpect_eof format (str "value");
          if negb ok then mret None
          else
            last_byte_error 112 (str "expected '#' after type information; last byte: 0x") [] (str "size");;
            mret None
        else
          r ← size_value false 0;
          if bj && r.2 then
            if inside_ndarray then token_error 112 (str "ndarray can not be recursive") (str "size");; mret None
            else mret (n ← r.1; Some (n, Z.lor type 256))
          else mret (n ← r.1; Some (n, type))
  else if c =? mHASH then
    r ← size_value false 0;
    if bj && r.2 then token_error 112 (str "ndarray requires both type and size") (str "size");; mret None
    else mret (n ← r.1; Some (n, 0))
  else mret (Some (size_npos, 0)).

(** A dimension, after those in [dim]. *)
Definition dimension (prefix : Z) (dim : list Z) : BR (option (list Z)) :=
  r ← size_value true prefix;
  mret (n ← r.1; Some (dim ++ [n])).

Definition get_ubjson_ndarray_size : BR (option (list Z)) :=
  st ← get_ubjson_size_type true;
  match st with
  | None => mret None
  | Some (size, type) =>
      if negb (size =? size_npos) then
        if negb (type =? 0) then
          if negb (type =? mN) then for_loop (dimension type) size [] else mret (Some [])
        else for_loop (dimension 0) size []
      else
        while_not (fun dim =>
          c ← gets r_current;
          dim ← dimension c dim;
          match dim with Some dim => get_ignore_noop;; mret (Some dim) | None => mret None end) cRBRACKET []
  end.

(** The product of the dimensions, each given to the handler. *)
Fixpoint dim_numbers (dim : list Z) (result : Z) : BR (option Z) :=
  match dim with
  | [] => mret (Some result)
  | i :: dim =>
      let result := u64 (result * i) in
      if (result =? 0) || (result =? size_npos) then
        range_error (str "excessive ndarray size caused overflow") (str "size");; mret None
      else
        ok ← with_handler (sax_number_unsigned i);
        if negb ok then mret None else dim_numbers dim result
  end.

(** The head of an n-dimensional array in the annotated format of JData. *)
Definition ndarray_head (dim : list Z) : BR (option Z * bool) :=
  ok ← with_handler (sax_start_object 3);
  ok ← (if ok : bool then with_handler (sax_key (str "_ArraySize_")) else mret false);
  ok ← (if ok : bool then with_handler (sax_start_array (Z.of_nat (length dim))) else mret false);
  if negb ok then mret (None, false)
  else
    result ← dim_numbers dim 1;
    match result with
    | None => mret (None, false)
    | Some result => ok ← with_handler sax_end_array; mret (if ok : bool then Some result else None, true)
    end.

(** [get_ubjson_size_value]; [prefix] is 0 where it is to be read. *)
Definition ubjson_size_value (is_ndarray : bool) prefix : BR (option Z * bool) :=
  prefix ← (if prefix =? 0 then get_ignore_noop else mret prefix);
  match int_type bj prefix with
  | Some t =>
      number ← get_integer t;
      match number with
      | None => mret (None, is_ndarray)
      | Some number =>
          if t.2 && (number <? 0) then
            token_error 113 (str "count in an optimized container must be positive") (str "size");;
            mret (None, is_ndarray)
          else mret (Some number, is_ndarray)
      end
  | None =>
      if bj && (prefix =? cLBRACKET) then
        if is_ndarray then
          token_error 113 (str "ndarray dimensional vector is not allowed") (str "size");;
          mret (None, is_ndarray)
        else
          dim ← get_ubjson_ndarray_size;
          match dim with
          | None => mret (None, is_ndarray)
          | Some dim =>
              match dim with
              | [] => mret (Some 0, is_ndarray)
              | [n] => mret (Some n, is_ndarray)
              | [1; n] => mret (Some n, is_ndarray)
              | _ => if existsb (Z.eqb 0) dim then mret (Some 0, is_ndarray) else ndarray_head dim
              end
          end
      else
        last_byte_error 113 (str "expected length type specification (" ++ length_types ++ str ") after '#'; last byte: 0x") [] (str "size");;
        mret (None, is_ndarray)
  end.
End sizes.

(** The recursion: a vector of dimensions may have a size that is a vector. *)
Fixpoint size_value_loop (fuel : nat) (is_ndarray : bool) prefix : BR (option Z * bool) :=
  match fuel with
  | O => fail OutOfFuel
  | Datatypes.S fuel => ubjson_size_value (size_value_loop fuel) is_ndarray prefix
  end.
Definition get_ubjson_size_value (is_ndarray : bool) prefix : BR (option Z * bool) :=
  fuel ← br_fuel; size_value_loop fuel is_ndarray prefix.

(** *** Values *)

(** The case 'h'. *)
Definition bjdata_half : BR bool :=
  byte1 ← br_get;
  ok ← unexpect_eof format (str "number");
  if negb ok then mret false
  else
    byte2 ← br_get;
    ok ← unexpect_eof format (str "number");
    if negb ok then mret false
    else with_handler (sax_number_float (half_value (Z.shiftl (u8 byte2) 8 + u8 byte1)) []).

(** The lexer on the text of a number: the first token with its text, the token after
    it with its text, and the lexer. *)
Definition scan_number_text (text : list Z) : res ((token_type * list Z) * (token_type * list Z) * lexer (F := Z)) :=
  match (t ← scan; s ← get_token_string; t' ← scan; s' ← get_token_string; mret ((t, s), (t', s'))) (lexer_init text false dp) with
  | Ok (r, lx) => Ok (r, lx)
  | Fault f => Fault f
  end.

Definition get_ubjson_high_precision_number : BR bool :=
  r ← get_ubjson_size_value true 0;
  match r.1 with
  | None => mret false
  | Some size =>
      fuel ← br_fuel;
      text ← get_chars_loop fuel format (str "number") 0 size [];
      match text with
      | None => mret false
      | Some text =>
          match scan_number_text text with
          | Fault f => fail f
          | Ok ((result_number, number_string), (result_remainder, remainder_string), lx) =>
              let invalid :=
                pos ← gets chars_read;
                br_error format 115 number_string (str "invalid number text: " ++ remainder_string) (str "high-precision number");;
                mret false in
              if bool_decide (result_remainder = end_of_input) then
                match result_number with
                | value_integer => with_handler (sax_number_integer (number_integer lx))
                | value_unsigned => with_handler (sax_number_unsigned (number_unsigned lx))
                | value_float => with_handler (sax_number_float (number_float lx) number_string)
                | _ => invalid
                end
              else invalid
          end
      end
  end.

(** The case 'C'. *)
Definition ubjson_char : BR bool :=
  br_get;;
  ok ← unexpect_eof format (str "char");
  if negb ok then mret false
  else
    c ← gets r_current;
    if 127 <? c then
      last_byte_error 113 (str "byte after 'C' must be in range 0x00..0x7F; last byte: 0x") [] (str "char");;
      mret false
    else with_handler (sax_string [u8 c]).

Section value.
(** [get_ubjson_value] on a smaller input *)
Variable value : Z -> BR bool.

(** [parse_ubjson_internal] *)
Definition parse_internal (get_char : bool) : BR bool := c ← (if get_char then get_ignore_noop else gets r_current); value c.

(** [start], the elements, [end]. *)
Definition ubjson_container (start stop : M S bool) (elements : BR bool) : BR bool :=
  ok ← with_handler start;
  if negb ok then mret false
  else ok ← elements; if ok : bool then with_handler stop else mret false.

(** An n-dimensional array, after the head that was given to the handler with its size. *)
Definition ubjson_ndarray size type : BR bool :=
  match bjd_type type bjd_types_map with
  | None => last_byte_error 112 (str "invalid byte: 0x") [] (str "type");; mret false
  | Some name =>
      ok ← with_handler (sax_key (str "_ArrayType_"));
      ok ← (if ok : bool then with_handler (sax_string name) else mret false);
      if negb ok then mret false
      else
        let type := if (type =? mC) || (type =? mB) then mU else type in
        ok ← with_handler (sax_key (str "_ArrayData_"));
        if negb ok then mret false
        else
          ok ← ubjson_container (sax_start_array size) sax_end_array (all_rounds (for_loop (once (value type)) size tt));
          if ok : bool then with_handler sax_end_object else mret false
  end.

Definition get_ubjson_array : BR bool :=
  st ← get_ubjson_size_type get_ubjson_size_value false;
  match st with
  | None => mret false
  | Some (size, type) =>
      if bj && negb (size =? size_npos) && negb (Z.land type 256 =? 0) then ubjson_ndarray size (Z.ldiff type 256)
      else if bj && negb (size =? size_npos) && (type =? mB) then
        br_and (br_get_binary format size []) (fun result => with_handler (sax_binary result None))
      else if negb (size =? size_npos) then
        ubjson_container (sax_start_array size) sax_end_array (
          if negb (type =? 0) then
            if negb (type =? mN) then all_rounds (for_loop (once (value type)) size tt) else mret true
          else all_rounds (for_loop (once (parse_internal true)) size tt))
      else
        ubjson_container (sax_start_array unknown_size) sax_end_array (
          all_rounds (while_not (once (
            ok ← parse_internal false;
            if ok : bool then get_ignore_noop;; mret true else mret false)) cRBRACKET tt))
  end.

(** A key and its value. *)
Definition ubjson_member (get_char : bool) (v : BR bool) : BR bool :=
  br_and (get_ubjson_string get_char) (fun key =>
    ok ← with_handler (sax_key key);
    if ok : bool then v else mret false).

Definition get_ubjson_object : BR bool :=
  st ← get_ubjson_size_type get_ubjson_size_value false;
  match st with
  | None => mret false
  | Some (size, type) =>
      if bj && negb (size =? size_npos) && negb (Z.land type 256 =? 0) then
        token_error 112 (str "BJData object does not support ND-array size in optimized format") (str "object");; mret false
      else if negb (size =? size_npos) then
        ubjson_container (sax_start_object size) sax_end_object (
          if negb (type =? 0) then all_rounds (for_loop (once (ubjson_member true (value type))) size tt)
          else all_rounds (for_loop (once (ubjson_member true (parse_internal true))) size tt))
      else
        ubjson_container (sax_start_object unknown_size) sax_end_object (
          all_rounds (while_not (once (
            ok ← ubjson_member false (parse_internal true);
            if ok : bool then get_ignore_noop;; mret true else mret false)) cRBRACE tt))
  end.

(** An integer type, and what it is given as. *)
Definition ubjson_number (t : nat * bool) : BR bool :=
  br_and (get_integer t) (fun n => with_handler (if t.2 then sax_number_integer n else sax_number_unsigned n)).

(** [get_ubjson_value] *)
Definition ubjson_value prefix : BR bool :=
  if prefix =? EOF then unexpect_eof format (str "value")
  else if prefix =? mT then with_handler (sax_boolean true)
  else if prefix =? mF then with_handler (sax_boolean false)
  else if prefix =? mZ then with_handler sax_null
  else if bj && (prefix =? mB) then ubjson_number (1%nat, false)
  else
    match int_type bj prefix with
    | Some t => ubjson_number t
    | None =>
        if bj && (prefix =? m_h) then bjdata_half
        else if prefix =? m_d then br_and (get_number false 4 format) (fun x => with_handler (sax_number_float (widen x) []))
        else if prefix =? mD then br_and (get_number false 8 format) (fun x => with_handler (sax_number_float x []))
        else if prefix =? mH then get_ubjson_high_precision_number
        else if prefix =? mC then ubjson_char
        else if prefix =? mS then br_and (get_ubjson_string true) (fun s => with_handler (sax_string s))
        else if prefix =? cLBRACKET then get_ubjson_array
        else if prefix =? cLBRACE then get_ubjson_object
        else last_byte_error 112 (str "invalid byte: 0x") [] (str "value");; mret false
    end.
End value.

Fixpoint get_ubjson_value (fuel : nat) prefix : BR bool :=
  match fuel with
  | O => fail OutOfFuel
  | Datatypes.S fuel => ubjson_value (get_ubjson_value fuel) prefix
  end.

(** [parse_ubjson_internal()] *)
Definition parse_ubjson : BR bool := fuel ← br_fuel; parse_internal (get_ubjson_value fuel) true.
End reader.

(** [basic_json::from_ubjson] and [basic_json::from_bjdata] *)
Definition from_ubjson_format `{NumberFloat Z} (dp : Z) (bj strict exceptions : bool) (s : list Z) : res (json Z) :=
  br_from (parse_ubjson dp bj) get_ignore_noop (ubjson_format bj) strict exceptions s.
Definition from_ubjson `{NumberFloat Z} (dp : Z) := from_ubjson_format dp false.
Definition from_bjdata `{NumberFloat Z} (dp : Z) := from_ubjson_format dp true.

(** ** The writer *)

Definition in_range_of (lo hi n : Z) : bool := (lo <=? n) && (n <=? hi).
Abbreviation fits_int8 n := (in_range_of (- 2 ^ 7) (2 ^ 7 - 1) n) (only parsing).
Abbreviation fits_uint8 n := (in_range_of 0 (2 ^ 8 - 1) n) (only parsing).
Abbreviation fits_int16 n := (in_range_of (- 2 ^ 15) (2 ^ 15 - 1) n) (only parsing).
Abbreviation fits_uint16 n := (in_range_of 0 (2 ^ 16 - 1) n) (only parsing).
Abbreviation fits_sint32 n := (in_range_of (- 2 ^ 31) (2 ^ 31 - 1) n) (only parsing).
Abbreviation fits_uint32 n := (in_range_of 0 (2 ^ 32 - 1) n) (only parsing).
Abbreviation fits_int64 n := (in_range_of (- 2 ^ 63) (2 ^ 63 - 1) n) (only parsing).

Section writer.
Context `{NumberFloat Z} (sep dp : Z) (bj : bool).
Implicit Types (n c : Z) (j : json Z) (add_prefix : bool).

Definition prefixed add_prefix c (t : list Z) : list Z := if add_prefix then c :: t else t.

(** [dump()] *)
Definition dump_number j : res (list Z) := json_dump sep dp j (-1) cSPACE false strict.

(** [write_number_with_ubjson_prefix] of an unsigned number.  It calls itself on the
    length of a decimal text, at most 20, so a fuel of 2 is enough. *)
Fixpoint write_unsigned (fuel : nat) n add_prefix : res (list Z) :=
  match fuel with
  | O => Fault OutOfFuel
  | S fuel =>
      if n <=? 2 ^ 7 - 1 then Ok (prefixed add_prefix m_i (write_number bj 1 n))
      else if n <=? 2 ^ 8 - 1 then Ok (prefixed add_prefix mU (write_number bj 1 n))
      else if n <=? 2 ^ 15 - 1 then Ok (prefixed add_prefix mI (write_number bj 2 n))
      else if bj && (n <=? 2 ^ 16 - 1) then Ok (prefixed add_prefix m_u (write_number bj 2 n))
      else if n <=? 2 ^ 31 - 1 then Ok (prefixed add_prefix m_l (write_number bj 4 n))
      else if bj && (n <=? 2 ^ 32 - 1) then Ok (prefixed add_prefix m_m (write_number bj 4 n))
      else if n <=? 2 ^ 63 - 1 then Ok (prefixed add_prefix mL (write_number bj 8 n))
      else if bj && (n <=? 2 ^ 64 - 1) then Ok (prefixed add_prefix mM (write_number bj 8 n))
      else
        number ← dump_number (Jnumber_unsigned n);
        size ← write_unsigned fuel (Z.of_nat (length number)) true;
        mret (prefixed add_prefix mH (size ++ number))
  end.
Definition write_number_unsigned n add_prefix : res (list Z) := write_unsigned 2 n add_prefix.
Definition write_size (n : nat) : res (list Z) := write_number_unsigned (Z.of_nat n) true.

(** ...of a signed number *)
Definition write_number_signed n add_prefix : res (list Z) :=
  if fits_int8 n then Ok (prefixed add_prefix m_i (write_number bj 1 n))
  else if fits_uint8 n then Ok (prefixed add_prefix mU (write_number bj 1 n))
  else if fits_int16 n then Ok (prefixed add_prefix mI (write_number bj 2 n))
  else if bj && fits_uint16 n then Ok (prefixed add_prefix m_u (write_number bj 2 n))
  else if fits_sint32 n then Ok (prefixed add_prefix m_l (write_number bj 4 n))
  else if bj && fits_uint32 n then Ok (prefixed add_prefix m_m (write_number bj 4 n))
  else if fits_int64 n then Ok (prefixed add_prefix mL (write_number bj 8 n))
  else
    number ← dump_number (Jnumber_integer n);
    size ← write_size (length number);
    mret (prefixed add_prefix mH (size ++ number)).

(** ...of a [double] *)
Definition write_number_float x add_prefix : list Z := prefixed add_prefix mD (write_number bj 8 x).

(** [ubjson_prefix] *)
Definition ubjson_prefix j : Z :=
  match j with
  | Jnull => mZ
  | Jboolean b => if b then mT else mF
  | Jnumber_integer n =>
      if fits_int8 n then m_i
      else if fits_uint8 n then mU
      else if fits_int16 n then mI
      else if bj && fits_uint16 n then m_u
      else if fits_sint32 n then m_l
      else if bj && fits_uint32 n then m_m
      else if fits_int64 n then mL
      else mH
  | Jnumber_unsigned n =>
      if n <=? 2 ^ 7 - 1 then m_i
      else if n <=? 2 ^ 8 - 1 then mU
      else if n <=? 2 ^ 15 - 1 then mI
      else if bj && (n <=? 2 ^ 16 - 1) then m_u
      else if n <=? 2 ^ 31 - 1 then m_l
      else if bj && (n <=? 2 ^ 32 - 1) then m_m
      else if n <=? 2 ^ 63 - 1 then mL
      else if bj && (n <=? 2 ^ 64 - 1) then mM
      else mH
  | Jnumber_float _ => mD
  | Jstring _ => mS
  | Jarray _ | Jbinary _ _ => cLBRACKET
  | Jobject _ => cLBRACE
  | Jdiscarded => mN
  end.

(** The type in the head of a container with the elements [vs]. *)
Definition common_type (use_count use_type : bool) (vs : list (json Z)) : res (option Z) :=
  match vs with
  | v :: _ =>
      if use_type then
        if use_count then
          let first_prefix := ubjson_prefix v in
          Ok (if forallb (fun v => ubjson_prefix v =? first_prefix) vs
                && negb (bj && bool_decide (first_prefix ∈ bjd_optimized_type_markers))
              then Some first_prefix else None)
        else Fault AssertFailed
      else Ok None
  | [] => Ok None
  end.
Definition write_type (type : option Z) : list Z := match type with Some c => [mDOLLAR; c] | None => [] end.

Definition write_count (use_count : bool) (n : nat) : res (list Z) :=
  if use_count then size ← write_size n; mret (mHASH :: size) else mret [].

Definition write_end (use_count : bool) c : list Z := if use_count then [] else [c].

(** The elements, or members, in their order. *)
Definition write_all {X} (write : X -> res (list Z)) : list X -> res (list Z) :=
  fix go xs :=
    match xs with
    | [] => mret []
    | x :: xs => t ← write x; rest ← go xs; mret (t ++ rest)
    end.

(** *** The n-dimensional arrays of BJData *)

Definition array_type : list Z := str "_ArrayType_".
Definition array_size : list Z := str "_ArraySize_".
Definition array_data : list Z := str "_ArrayData_".

(** [value.find(key)], written *)
Definition write_member {A} (write : json Z -> A) (k : list Z) : list (list Z * json Z) -> option A :=
  fix go ms :=
    match ms with
    | [] => None
    | (k', v) :: ms => if decide (k = k') then Some (write v) else go ms
    end.

Definition is_annotated (ms : list (list Z * json Z)) : bool :=
  bool_decide (length ms = 3%nat) && bool_decide (is_Some (obj_get array_type ms)) &&
  bool_decide (is_Some (obj_get array_size ms)) && bool_decide (is_Some (obj_get array_data ms)).

(** What [for (const auto& el : j)] visits. *)
Definition visited j : list (json Z) :=
  match j with
  | Jnull => []
  | Jarray vs => vs
  | Jobject ms => ms.*2
  | j => [j]
  end.

(** The number in the union of a value; what is there instead of another value, a pointer
    for example, is no number of the model. *)
Definition union_bits j : res Z :=
  match j with
  | Jnumber_integer n => Ok (u64 n)
  | Jnumber_unsigned n => Ok n
  | Jnumber_float x => Ok x
  | Jnull => Ok 0
  | _ => Fault Uninitialised
  end.

(** [static_cast<string_t>(j)] *)
Definition cast_string j : res (list Z) :=
  match j with
  | Jstring s => Ok s
  | j => Fault (type_error 302 (str "type must be string, but is " ++ type_name j))
  end.

Fixpoint bjd_marker (name : list Z) (types : list (Z * list Z)) : option Z :=
  match types with
  | [] => None
  | (c, t) :: types => if decide (t = name) then Some c else bjd_marker name types
  end.

Fixpoint dimensions_product (vs : list (json Z)) (len : Z) : res Z :=
  match vs with
  | [] => Ok len
  | v :: vs => n ← union_bits v; dimensions_product vs (u64 (len * n))
  end.

(** The bytes of an element of the type [c]; signed and unsigned numbers of a width have
    the same. *)
Definition write_datum c j : res (list Z) :=
  x ← union_bits j;
  mret (if (c =? mU) || (c =? mC) || (c =? mB) || (c =? m_i) then write_number true 1 x
        else if (c =? m_u) || (c =? mI) then write_number true 2 x
        else if (c =? m_m) || (c =? m_l) then write_number true 4 x
        else if (c =? mM) || (c =? mL) then write_number true 8 x
        else if c =? m_d then write_number true 4 (narrow x)
        else write_number true 8 x).

(** [write_bjdata_ndarray], given the dimensions written; [None] where it writes
    nothing and returns [true] *)
Definition write_bjdata_ndarray (ms : list (list Z * json Z)) (sizes : res (list Z)) : res (option (list Z)) :=
  match obj_get array_type ms, obj_get array_size ms, obj_get array_data ms with
  | Some type, Some size, Some data =>
      name ← cast_string type;
      match bjd_marker name bjd_types_map with
      | None => mret None
      | Some dtype =>
          len ← dimensions_product (visited size) (if json_empty size then 0 else 1);
          if negb (json_size data =? len) then mret None
          else
            sizes ← sizes;
            t ← write_all (write_datum dtype) (visited data);
            mret (Some ([cLBRACKET; mDOLLAR; dtype; mHASH] ++ sizes ++ t))
      end
  | _, _, _ => Fault AssertFailed
  end.

(** [write_ubjson] *)
Section write.
Context (use_count use_type draft3 : bool).

Definition write_string (s : list Z) : res (list Z) := size ← write_size (length s); mret (size ++ s).

Definition write_ubjson_binary (b : list Z) add_prefix : res (list Z) :=
  let c := if draft3 then mB else mU in
  head ← (if use_type && (draft3 || negb (bool_decide (b = []))) then
            if use_count then mret [mDOLLAR; c] else Fault AssertFailed
          else mret []);
  count ← write_count use_count (length b);
  mret (prefixed add_prefix cLBRACKET (head ++ count ++
    (if use_type then b else b ≫= fun x => [c; x]) ++ write_end use_count cRBRACKET)).

Fixpoint write_ubjson add_prefix j {struct j} : res (list Z) :=
  match j with
  | Jnull => mret (prefixed add_prefix mZ [])
  | Jboolean b => mret (prefixed add_prefix (if b then mT else mF) [])
  | Jnumber_integer n => write_number_signed n add_prefix
  | Jnumber_unsigned n => write_number_unsigned n add_prefix
  | Jnumber_float x => mret (write_number_float x add_prefix)
  | Jstring s => t ← write_string s; mret (prefixed add_prefix mS t)
  | Jarray vs =>
      type ← common_type use_count use_type vs;
      count ← write_count use_count (length vs);
      t ← write_all (write_ubjson (bool_decide (type = None))) vs;
      mret (prefixed add_prefix cLBRACKET (write_type type ++ count ++ t ++ write_end use_count cRBRACKET))
  | Jbinary b _ => write_ubjson_binary b add_prefix
  | Jobject ms =>
      ndarray ← (if bj && is_annotated ms
                 then write_bjdata_ndarray ms (default (Ok []) (write_member (write_ubjson true) array_size ms))
                 else mret None);
      match ndarray with
      | Some t => mret t
      | None =>
          type ← common_type use_count use_type ms.*2;
          count ← write_count use_count (length ms);
          t ← write_all (fun m => k ← write_string m.1; v ← write_ubjson (bool_decide (type = None)) m.2; mret (k ++ v)) ms;
          mret (prefixed add_prefix cLBRACE (write_type type ++ count ++ t ++ write_end use_count cRBRACE))
      end
  | Jdiscarded => mret []
  end.
End write.
End writer.

(** [basic_json::to_ubjson] and [basic_json::to_bjdata] *)
Definition to_ubjson `{NumberFloat Z} (sep dp : Z) (j : json Z) (use_size use_type : bool) : res (list Z) :=
  write_ubjson sep dp false use_size use_type false true j.
Definition to_bjdata `{NumberFloat Z} (sep dp : Z) (j : json Z) (use_size use_type draft3 : bool) : res (list Z) :=
  write_ubjson sep dp true use_size use_type draft3 true j.
