(* ===== verification/JsonUbjsonScan.v ===== *)
(** JsonUbjsonScan: the lexer on the text of a high-precision number.

    On any text its numbers fit their types; on the digits of a number it gives the
    number. *)

From S2P Require Import Prelude Json JsonLexer JsonParser JsonDump JsonUtf8 JsonLexProps JsonScan JsonNumeral JsonNumber JsonDumpText JsonText JsonParse JsonBinaryProps JsonUbjson.

(** ** The numbers of the lexer *)

Create HintDb kept.

Section numbers.
Context `{NumberFloat Z}.
Implicit Types (st : lexer (F := Z)).

Definition same_numbers st st' : Prop :=
  number_integer st' = number_integer st /\ number_unsigned st' = number_unsigned st /\ number_float st' = number_float st.

(** [m] keeps a property of the numbers. *)
Section kept.
Context (P : lexer (F := Z) -> Prop) (P_same : forall st st', same_numbers st st' -> P st -> P st').
Definition kept {A} (m : M (lexer (F := Z)) A) : Prop := forall st, P st -> wp (fun _ => True) m st (fun _ => P).

Lemma kept_bind {A B} (m : M _ A) (f : A -> M _ B) : kept m -> (forall a, kept (f a)) -> kept (m ≫= f).
Proof. intros Hm Hf st Hst. apply wp_bind. eapply wp_mono; [by apply Hm|]. intros a st' Hst'. by apply Hf. Qed.
Lemma kept_ret {A} (a : A) : kept (mret a).
Proof. intros st Hst. by apply wp_ret. Qed.
Lemma kept_fail {A} f : kept (A := A) (fail f).
Proof. intros st Hst. by apply wp_fail. Qed.
Lemma kept_gets {A} (f : _ -> A) : kept (gets f).
Proof. intros st Hst. by apply wp_gets. Qed.
Lemma kept_modify f : (forall st, same_numbers st (f st)) -> kept (modify f).
Proof. intros Hf st Hst. apply wp_modify. by eapply P_same. Qed.
#[local] Hint Resolve kept_ret kept_fail kept_gets : kept.
Ltac kept_steps :=
  repeat first
    [ solve [eauto with kept]
    | progress intros
    | apply kept_bind
    | apply kept_modify; [intros st0; repeat case_match; done]
    | match goal with |- kept (match ?x with _ => _ end) => destruct x end
    | match goal with |- kept (let x := _ in _) => cbv zeta end ].

Lemma kept_get : kept get.
Proof. unfold get, get_character, record_char. kept_steps. Qed.
Lemma kept_unget : kept unget.
Proof. unfold unget, assert. kept_steps. Qed.
Lemma kept_add c : kept (add c).
Proof. unfold add. kept_steps. Qed.
Lemma kept_error {A} e (t : A) : kept (error_return e t).
Proof. unfold error_return. kept_steps. Qed.
Lemma kept_assert b : kept (assert b).
Proof. unfold assert. kept_steps. Qed.
Lemma kept_reset : kept reset.
Proof. unfold reset. kept_steps. Qed.
#[local] Hint Resolve kept_get kept_unget kept_add kept_error kept_assert kept_reset : kept.

Lemma kept_codepoint : kept get_codepoint.
Proof. unfold get_codepoint. kept_steps. Qed.
Lemma kept_range ranges : kept (range_loop ranges).
Proof. induction ranges as [|[lo hi] ranges IH]; cbn [range_loop]; kept_steps. Qed.
#[local] Hint Resolve kept_codepoint kept_range : kept.

Lemma kept_add_codepoint n : kept (add_codepoint n).
Proof. unfold add_codepoint. kept_steps. Qed.
#[local] Hint Resolve kept_add_codepoint : kept.

Lemma kept_string : kept scan_string.
Proof.
  unfold scan_string. kept_steps. match goal with |- kept (string_loop ?n) => induction n as [|n IH]; cbn [string_loop] end; [kept_steps|].
  unfold string_round, scan_escape, scan_unicode, get_two, scan_utf8, next_byte_in_range. kept_steps.
Qed.

Lemma kept_state l : kept (number_state l).
Proof.
  destruct l; unfold number_state, scan_number_minus, scan_number_zero, scan_number_any1, scan_number_decimal1,
    scan_number_decimal2, scan_number_exponent, scan_number_sign, scan_number_any2, add_goto, add_point; kept_steps.
Qed.

#[local] Hint Resolve kept_string kept_state : kept.

Lemma kept_literal text t : kept (scan_literal text t).
Proof.
  unfold scan_literal. kept_steps. generalize (drop 1 text). induction l as [|x l IH]; cbn [literal_loop]; kept_steps.
Qed.

Lemma kept_whitespace : kept skip_whitespace.
Proof. unfold skip_whitespace. kept_steps. match goal with |- kept (whitespace_loop ?n) => induction n as [|n IH]; cbn [whitespace_loop] end; kept_steps. Qed.
#[local] Hint Resolve kept_literal kept_whitespace : kept.

Lemma kept_comment : kept scan_comment.
Proof.
  unfold scan_comment. kept_steps.
  - match goal with |- kept (line_comment ?n) => induction n as [|n IH]; cbn [line_comment] end; kept_steps.
  - match goal with |- kept (block_comment ?n) => induction n as [|n IH]; cbn [block_comment] end; kept_steps.
Qed.
#[local] Hint Resolve kept_comment : kept.

(** The parts of [scan], [scan_number] apart. *)
Lemma kept_number (numbers : forall t, kept (scan_number_done t)) : kept scan_number.
Proof.
  unfold scan_number, scan_number_init, add_goto. kept_steps. match goal with |- kept (number_loop ?n ?l ?t) => generalize l, t; induction n as [|n IH]; intros l' t'; cbn [number_loop] end; kept_steps.
Qed.

Lemma kept_bom : kept skip_bom.
Proof. unfold skip_bom, get_two. kept_steps. Qed.
Lemma kept_comments fuel : kept (comments_loop fuel).
Proof. induction fuel as [|fuel IH]; cbn [comments_loop]; kept_steps. Qed.
#[local] Hint Resolve kept_bom kept_comments : kept.

Lemma kept_scan (numbers : forall t, kept (scan_number_done t)) : kept scan.
Proof. pose proof (kept_number numbers). unfold scan, scan_token. kept_steps. Qed.
End kept.

(** ** Numbers in their range *)

Context (strtof_range : forall s, in_u 64 (strtof s)).

Definition numbers_fit st : Prop := in_s 64 (number_integer st) /\ in_u 64 (number_unsigned st) /\ in_u 64 (number_float st).

Lemma fit_same st st' : same_numbers st st' -> numbers_fit st -> numbers_fit st'.
Proof. intros (Hi & Hu & Hx). unfold numbers_fit. by rewrite Hi, Hu, Hx. Qed.

Lemma fit_numbers fi fu fx :
  (forall st, numbers_fit st -> in_s 64 (fi st) /\ in_u 64 (fu st) /\ in_u 64 (fx st)) ->
  kept numbers_fit (modify (fun st => set_numbers (fi st) (fu st) (fx st) st)).
Proof. intros Hf st Hst. apply wp_modify. by apply (Hf st). Qed.

Lemma fit_float : kept numbers_fit number_as_float.
Proof.
  unfold number_as_float, assert_end, assert. repeat (apply kept_bind; [|intros]); try apply kept_gets; try apply kept_ret.
  - apply fit_numbers. intros st (? & ? & _). by split_and!.
  - apply kept_assert.
Qed.

Lemma fit_done t : kept numbers_fit (scan_number_done t).
Proof.
  pose proof fit_float. pose proof fit_same. unfold scan_number_done, assert_end.
  repeat first [assumption | apply kept_gets | apply kept_ret | apply kept_assert | by apply kept_unget
    | apply kept_bind; [|intros] | match goal with |- kept _ (match ?x with _ => _ end) => destruct x end | progress cbv zeta];
    apply fit_numbers; intros st (? & ? & ?); split_and!; try done.
  - by apply uwrap_range.
  - apply swrap_range. lia.
Qed.

(** The lexer on any text: it ends, and its numbers fit their types. *)
Lemma scan_number_text_ok dp text :
  point_ok dp -> in_u 64 float_zero -> Forall is_byte text ->
  exists r lx, scan_number_text dp text = Ok (r, lx) /\ numbers_fit lx.
Proof.
  intros Hdp Hz Hb. assert (numbers_fit (lexer_init text false dp)) as Hn by (by split_and!).
  pose proof (kept_scan _ fit_same fit_done _ Hn) as Hk. pose proof (scan_ok false dp Hdp 0 npos text [] _ (lexer_init_lx dp text false Hb)) as Hs.
  unfold scan_number_text, mbind, M_bind, wp in *. destruct (scan _) as [[t st]|f]; [|by destruct Hs].
  destruct Hs as (n & d & p & b & _ & _ & _ & _ & Hl & _). simpl.
  pose proof (kept_scan _ fit_same fit_done _ Hk) as Hk'. pose proof (scan_ok false dp Hdp n d p b _ Hl) as Hs'. unfold wp in *.
  destruct (scan st) as [[t' st']|f]; [|by destruct Hs']. simpl. by eexists _, _.
Qed.

(** ** Digits *)

(** At the end of the text the numbers stay. *)
Lemma scan_end dp n d b st m :
  1 <= n -> lx false dp n d [] b st -> number_unsigned st = m ->
  wp nofault scan st (fun t st' => t = end_of_input /\ number_unsigned st' = m).
Proof.
  intros Hn L Hm. set (P := fun st => number_unsigned st = m).
  assert (forall st st', same_numbers st st' -> P st -> P st') as HP by (intros st1 st2 (_ & Hu & _); unfold P; by rewrite Hu).
  unfold scan. wp_steps. rewrite (proj2 (Z.eqb_neq _ 0)) by (destruct L; lia). wp_steps. cbn [negb].
  pose proof (skip_whitespace_ok false dp n d [] b st L) as Hw. pose proof (kept_whitespace P HP st Hm) as Hk.
  apply wp_bind, (wp_mono _ _ _ (fun _ st' => (lx false dp (n + 1) d [] b st' /\ fresh EOF st') /\ P st')).
  { unfold wp in *. by destruct (skip_whitespace st) as [[[] st1]|f]. }
  intros _ st1 [[L1 Fr1] Hm1]. wp_steps. eapply loop_fuel_lx; [exact L1|]. intros k Hlk. wp_steps.
  eapply comments_none; [exact Hlk|exact L1|exact Fr1|done|]. wp_steps. unfold scan_token. wp_steps.
  rewrite (lx_current _ _ _ _ _ _ _ _ L1 Fr1). by apply wp_ret.
Qed.

Lemma scan_digits dp n :
  point_ok dp -> in_u 64 n ->
  exists s s' lx, scan_number_text dp (to_string n) = Ok ((value_unsigned, s), (end_of_input, s'), lx) /\ number_unsigned lx = n.
Proof.
  intros Hdp [H0 H1]. pose proof (integer_kind false n H0 H1) as Hk. pose proof (integer_value false n H0) as Hv.
  assert (Forall is_byte (to_string n)) as Hb.
  { eapply Forall_impl; [by apply to_string_digits|]. intros c Hc. unfold is_digit in Hc. unfold is_byte, in_u. lia. }
  pose proof (lexer_init_lx dp (to_string n) false Hb) as L.
  assert (scan_text : [] ++ lexeme_text (Lnumber (integer false n)) ++ [] = to_string n)
    by (cbn [lexeme_text app]; by rewrite integer_text, app_nil_r).
  rewrite <- scan_text in L at 1.
  pose proof (scan_exact false dp Hdp (Lnumber (integer false n)) [] [] 0 npos [] _ ltac:(constructor) (integer_ok false n H0) ltac:(done) L) as Hs.
  pose proof (scan_ok false dp Hdp 0 npos _ [] _ L) as Hs0.
  unfold scan_number_text, mbind, M_bind, wp in *. destruct (scan (lexer_init (to_string n) false dp)) as [[t st]|f]; [|by destruct Hs].
  destruct Hs as [-> (n' & d & b & L' & Hh & _)]. destruct Hs0 as (n2 & d2 & p2 & b2 & _ & Hn2 & _ & _ & L2 & _). cbn [lexeme_type]. rewrite Hk.
  unfold number_holds in Hh. rewrite Hk, Hv in Hh. simpl.
  assert (lx false dp (Z.max n' 1) d [] b st) as L3.
  { clear - L' L2 Hn2. destruct L', L2. split; try done. by lia. }
  pose proof (scan_end dp (Z.max n' 1) d b st n ltac:(lia) L3 Hh) as He. unfold wp in He. destruct (scan st) as [[t' st']|f]; [|by destruct He].
  destruct He as [-> Hn]. simpl. by eexists _, _, _.
Qed.
End numbers.
