(* ===== verification/JsonUbjsonTotal.v ===== *)
(** JsonUbjsonTotal: [from_ubjson] and [from_bjdata] on any bytes.

    The readers of strings, sizes and values, against the interface [SaxSpec] of a
    handler. *)

From S2P Require Import Prelude Json JsonLexer JsonParser JsonDump JsonUtf8 JsonLexProps JsonScan JsonDom JsonTotal JsonParse JsonToChars JsonStrtod JsonAccess JsonBinary JsonBinaryProps JsonBinaryTotal JsonCbor JsonCborTotal JsonUbjson JsonUbjsonScan.

(** The errors of [parse_ubjson_internal]. *)
Definition ubjson_codes (id : Z) : Prop := id = 110 \/ id = 112 \/ id = 113 \/ id = 115 \/ id = 408.

Section total.
Context {S : Type} `{Sax Z S} `{NumberFloat Z} {codes : Z -> Prop} {exceptions : bool} (dp : Z) (bj : bool).
Context {ready after : list bool -> S -> Prop} {failed : S -> Prop}.
Context {HS : SaxSpec codes exceptions ready after failed} (Hcodes : forall id, ubjson_codes id -> codes id).
Abbreviation reader := (binary_reader (S := S)).
Abbreviation BR := (M reader).
Abbreviation E := (binary_thrown codes exceptions true).
Abbreviation stopped := (stopped (failed := failed)).
Abbreviation settled := (settled (after := after) (failed := failed)).
Abbreviation outcome := (outcome (failed := failed)).
Abbreviation valued := (valued (failed := failed)).
Abbreviation format := (ubjson_format bj).
Implicit Types (r : reader) (s : S) (n m : nat) (states : list bool) (c prefix size type : Z) (is_ndarray : bool).

Lemma ubjson_codes_eof : codes 110.
Proof. apply Hcodes. by left. Qed.
#[local] Hint Resolve ubjson_codes_eof ready_settled after_settled : core.

(** ** Errors *)

(** A report of an error. *)
Definition reports (m : BR unit) : Prop := forall n s r, reads n s r -> settled s -> wp E m r (fun _ => stopped n).

Lemma last_byte_reports id before tail context : codes id -> reports (last_byte_error bj id before tail context).
Proof.
  intros Hid n s r Hr Hs. apply wp_bind, wp_gets, wp_bind. eapply wp_mono; [by apply (error_ok _ _ _ _ _ n s)|].
  intros b r' [_ Hst]. by apply wp_ret.
Qed.
Lemma token_reports id detail context : codes id -> reports (token_error bj id detail context).
Proof.
  intros Hid n s r Hr Hs. apply wp_bind, wp_gets, wp_bind. eapply wp_mono; [by apply (error_ok _ _ _ _ _ n s)|].
  intros b r' [_ Hst]. by apply wp_ret.
Qed.
Lemma range_reports detail context : reports (range_error bj detail context).
Proof.
  intros n s r [Hb Hl <-] Hs. apply wp_bind, wp_gets, wp_bind, wp_gets, wp_bind. unfold with_handler, out_of_range.
  match goal with |- context[sax_parse_error ?a ?b (Thrown ?c ?d)] =>
    pose proof (settled_error c (r_sax r) a b d ltac:(apply Hcodes; unfold ubjson_codes; lia) Hs) as Hw end.
  unfold wp in *. destruct (sax_parse_error _ _ _ (r_sax r)) as [[ok s']|f]; [|by left]. destruct Hw as [-> Hf]. by split.
Qed.

(** An error that ends a call. *)
Lemma report_then {A} (m : BR unit) (k : BR A) (Q : A -> reader -> Prop) n s r :
  reports m -> reads n s r -> settled s -> (forall r', stopped n r' -> wp E k r' Q) -> wp E (m;; k) r Q.
Proof. intros Hm Hr Hs Hk. apply wp_bind. eapply wp_mono; [by apply (Hm n s)|]. auto. Qed.

Lemma report_none {A} (m : BR unit) n k s r :
  reports m -> reads n s r -> settled s -> (n <= k)%nat -> wp E (m;; mret (M := M reader) (None : option A)) r (fun x r' => x = None /\ stopped k r').
Proof.
  intros Hm Hr Hs Hk. apply (report_then m _ _ n s); [done..|]. intros r' Hst. apply wp_ret. split; [done|by eapply stopped_more].
Qed.

Lemma code_110 : codes 110. Proof. apply Hcodes. by left. Qed.
Lemma code_112 : codes 112. Proof. apply Hcodes. right. by left. Qed.
Lemma code_113 : codes 113. Proof. apply Hcodes. right. right. by left. Qed.
Lemma code_115 : codes 115. Proof. apply Hcodes. right. right. right. by left. Qed.
#[local] Hint Resolve code_110 code_112 code_113 code_115 last_byte_reports token_reports range_reports : core.

Lemma at_eof_ok context n s r (Q : bool -> reader -> Prop) :
  reads n s r -> settled s -> (r_current r = EOF -> forall r', stopped n r' -> Q false r') -> (r_current r <> EOF -> Q true r) ->
  wp E (unexpect_eof format context) r Q.
Proof.
  intros Hr Hs HF HT. unfold unexpect_eof. apply wp_bind, wp_gets. destruct (Z.eqb_spec (r_current r) EOF) as [He|He]; [|by apply wp_ret, HT].
  eapply wp_mono; [by apply (error_ok _ _ _ _ _ n s)|]. intros b r' [-> Hst]. auto.
Qed.

(** ** Bytes *)

Lemma noop_ok n s r (Q : Z -> reader -> Prop) :
  reads n s r ->
  (forall r', at_char (r_current r') r' -> (r_current r' <> EOF -> (0 < n)%nat) -> reads (n - 1) s r' -> Q (r_current r') r') ->
  wp E get_ignore_noop r Q.
Proof.
  intros Hr HQ. apply wp_bind, wp_gets.
  assert (forall fuel m r, (length (r_ia r) < fuel)%nat -> (m <= n)%nat -> reads m s r -> wp E (noop_loop fuel) r Q) as Hloop.
  { induction fuel as [|fuel IH]; [lia|]. intros m r1 Hf Hm Hr1. cbn [noop_loop]. pose proof Hr1 as [_ Hl _].
    apply wp_bind, (get_ok (length (r_ia r1)) s); [by destruct Hr1|].
    intros c r2 Hc Hm0 Hr2. destruct (Z.eqb_spec c mN) as [->|Hne].
    - specialize (Hm0 ltac:(done)). pose proof Hr2 as [_ Hl2 _]. apply (IH (m - 1)%nat); [lia|lia|]. eapply reads_more; [exact Hr2|lia].
    - apply wp_ret. destruct Hc as [<- Hc]. apply HQ; [by split| |].
      + intros He. specialize (Hm0 He). lia.
      + destruct Hr2 as [? ? ?]. split; [done|lia|done]. }
  apply (Hloop _ n); [lia|lia|done].
Qed.

(** An integer of the type [t]. *)
Definition int_fits (t : nat * bool) x : Prop := if t.2 then in_s 64 x else in_u 64 x.

Lemma int_type_width c t : int_type bj c = Some t -> (1 <= t.1 <= 8)%nat.
Proof. unfold int_type. repeat case_match; intros; simplify_eq; simpl; lia. Qed.

Lemma get_integer_ok t n s r : (1 <= t.1 <= 8)%nat -> reads n s r -> settled s -> wp E (get_integer bj t) r (outcome (int_fits t) n s).
Proof.
  intros Ht Hr Hs. unfold get_integer. apply wp_bind. eapply wp_mono; [by apply (get_number_ok ubjson_codes_eof _ _ _ n s)|].
  intros [x|] r' Hx; apply wp_ret; [|done]. destruct Hx as [Hx Hr']. split; [|done]. unfold int_fits. destruct t.2.
  - apply signed_range. lia.
  - change 256 with (2 ^ 8) in Hx. rewrite <- Z.pow_mul_r in Hx by lia.
    pose proof (Z.pow_le_mono_r 2 (8 * Z.of_nat t.1) 64 ltac:(lia) ltac:(lia)). unfold in_u. lia.
Qed.

(** ** Loops *)

(** A body that keeps the handler in [I]. *)
Definition round_kept {A} (P : A -> Prop) (I : S -> Prop) n (body : A -> BR (option A)) : Prop :=
  forall a m s r, (m <= n)%nat -> P a -> I s -> reads m s r ->
    wp E (body a) r (fun x r' => match x with Some a => P a /\ holds_after I m r' | None => stopped m r' end).

Lemma for_loop_ok {A} P I (body : A -> BR (option A)) len a n s r :
  round_kept P I n body -> P a -> I s -> reads n s r ->
  wp E (for_loop body len a) r (fun x r' => match x with Some a => P a /\ holds_after I n r' | None => stopped n r' end).
Proof.
  intros Hbody Ha Hs Hr. destruct len as [|p|p]; simpl; [apply wp_ret; split; [done|by destruct Hr as [? ? <-]]| |apply wp_ret; split; [done|by destruct Hr as [? ? <-]]].
  assert (forall m, (m <= n)%nat -> round_kept P I m (pos_loop body p)) as Hloop; [|by apply (Hloop n) with (s := s)].
  assert (forall (f g : A -> BR (option A)) m, (m <= n)%nat -> round_kept P I m f -> round_kept P I m g ->
    round_kept P I m (fun a => x ← f a; match x with Some a => g a | None => mret None end)) as Hseq.
  { intros f g m Hm Hf Hg a1 k s1 r1 Hk Ha1 Hs1 Hr1. apply wp_bind. eapply wp_mono; [by apply (Hf a1 k s1)|].
    intros [a2|] r2 Hx; [|by apply wp_ret]. destruct Hx as [Ha2 [Hb2 Hl2 Hs2]]. by apply (Hg a2 k (r_sax r2)). }
  assert (forall m, (m <= n)%nat -> round_kept P I m body) as Hb by (intros m Hm a1 k s1 r1 Hk; apply Hbody; lia).
  induction p as [p IH|p IH|]; intros m Hm; [| |by apply Hb].
  - apply (Hseq body (fun a => x ← pos_loop body p a; match x with Some a => pos_loop body p a | None => mret None end)); auto.
  - apply (Hseq (pos_loop body p) (pos_loop body p)); auto.
Qed.

(** What a round sees: the byte that was read last, and the bytes left. *)
Definition weight r n : nat := if r_current r =? EOF then 0 else Datatypes.S n.

Lemma while_not_ok {A} stop (P : A -> Prop) (I : S -> Prop) (body : A -> BR (option A)) limit a n s r :
  (forall a m s r, (m <= n)%nat -> (r_current r <> EOF -> (m < limit)%nat) -> P a -> I s -> reads m s r ->
    wp E (body a) r (fun x r' => match x with
      | Some a => r_current r <> EOF /\ P a /\ exists m', (m' <= m)%nat /\ (weight r' m' <= m)%nat /\ holds_after I m' r'
      | None => stopped m r' end)) ->
  (r_current r <> EOF -> (n < limit)%nat) -> P a -> I s -> reads n s r ->
  wp E (while_not body stop a) r (fun x r' => match x with Some a => P a /\ holds_after I n r' | None => stopped n r' end).
Proof.
  intros Hbody Hlim Ha Hs Hr. apply wp_bind, wp_gets.
  assert (forall fuel m a s r, (m <= n)%nat -> (weight r m < fuel)%nat -> (r_current r <> EOF -> (m < limit)%nat) -> P a -> I s -> reads m s r ->
    wp E (while_loop body stop fuel a) r (fun x r' => match x with Some a => P a /\ holds_after I m r' | None => stopped m r' end)) as Hloop.
  { induction fuel as [|fuel IH]; [lia|]. intros m a1 s1 r1 Hm Hw Hlm Ha1 Hs1 Hr1. cbn [while_loop]. apply wp_bind, wp_gets.
    destruct (_ =? stop).
    { apply wp_ret. split; [done|]. by destruct Hr1 as [? ? <-]. }
    apply wp_bind.
    eapply wp_mono; [by apply (Hbody a1 m s1)|]. intros [a2|] r2 Hx; [|by apply wp_ret].
    destruct Hx as (Hc & Ha2 & m2 & Hm2 & Hw2 & [Hb2 Hl2 Hs2]). unfold weight in Hw. rewrite (proj2 (Z.eqb_neq _ _) Hc) in Hw.
    eapply wp_mono; [apply (IH m2 a2 (r_sax r2)); [lia|lia| |done|done|by split]|].
    { intros Hne. unfold weight in Hw2. rewrite (proj2 (Z.eqb_neq _ _) Hne) in Hw2. specialize (Hlm Hc). lia. }
    intros [a3|] r3 Hr3; [|eapply stopped_more; [done|lia]]. destruct Hr3 as [? []]. split; [done|]. split; [done|lia|done]. }
  pose proof Hr as [Hb Hl Hsx]. eapply wp_mono; [apply (Hloop _ (length (r_ia r)) a s); [done| | |done|done|by split]|].
  - unfold weight. destruct (_ =? EOF); lia.
  - intros Hne. specialize (Hlim Hne). lia.
  - intros [a3|] r3 Hr3; [|by eapply stopped_more]. destruct Hr3 as [? []]. split; [done|]. split; [done|lia|done].
Qed.

Lemma all_rounds_ok (m : BR (option unit)) I n r :
  wp E m r (fun x r' => match x with Some _ => True /\ holds_after I n r' | None => stopped n r' end) ->
  wp E (all_rounds m) r (valued I n).
Proof.
  intros Hm. apply wp_bind. eapply wp_mono; [exact Hm|]. intros [[]|] r' Hx; apply wp_ret; [by destruct Hx|exact Hx].
Qed.

Lemma for_times_ok (body : BR bool) I len n s r :
  (forall m s r, (m <= n)%nat -> I s -> reads m s r -> wp E body r (valued I m)) -> I s -> reads n s r ->
  wp E (all_rounds (for_loop (once body) len tt)) r (valued I n).
Proof.
  intros Hbody Hs Hr. apply all_rounds_ok, (for_loop_ok (fun _ => True) I _ _ _ n s); [|done..].
  intros [] m s1 r1 Hm _ Hs1 Hr1. apply wp_bind. eapply wp_mono; [by apply (Hbody m s1)|]. by intros [] r2 Hx; apply wp_ret.
Qed.

(** ** Strings *)

(** A string after its first byte was read or before; a byte was read. *)
Lemma ubjson_string_ok get_char n s r :
  reads n s r -> settled s ->
  wp E (get_ubjson_string bj get_char) r (fun x r' =>
    match x with
    | Some t => (get_char = false -> r_current r <> EOF) /\ Forall is_byte t /\ reads n s r'
    | None => stopped n r'
    end).
Proof.
  intros Hr Hs. unfold get_ubjson_string. apply wp_bind.
  apply (wp_mono _ _ _ (fun _ r' => reads n s r' /\ (get_char = false -> r' = r))).
  { destruct get_char; [|by apply wp_ret]. apply wp_bind, (get_ok n s); [done|]. intros c r1 _ _ Hr1. apply wp_ret.
    split; [|done]. eapply reads_more; [exact Hr1|lia]. }
  intros _ r1 [Hr1 Heq]. apply wp_bind, (at_eof_ok _ n s); [done|done|intros _ r2 Hst; by apply wp_ret|].
  intros Hne. cbn [negb]. apply wp_bind, wp_gets.
  assert (get_char = false -> r_current r <> EOF) as Hc by (intros Hf; by rewrite <- (Heq Hf)).
  destruct (int_type bj (r_current r1)) as [t|] eqn:Et.
  - apply wp_bind. eapply wp_mono; [apply (get_integer_ok t n s); [by eapply int_type_width|done..]|].
    intros [x|] r2 Hx; [|by apply wp_ret]. destruct Hx as [_ Hr2].
    eapply wp_mono; [by apply (br_string_ok ubjson_codes_eof _ _ _ n s)|]. intros [u|] r3 Hu; [|done]. by destruct Hu.
  - apply (report_then _ _ _ n s); [|done..|intros r2 Hst; by apply wp_ret]. apply last_byte_reports, Hcodes. unfold ubjson_codes. lia.
Qed.

(** ** Sizes *)

(** What a reader of sizes promises: a size, and the handler as it was, or after the
    head of an n-dimensional array. *)
Definition sized_or_head is_ndarray states n s (x : option Z * bool) r : Prop :=
  match x with
  | (Some size, b) =>
      in_u 64 size /\
      if b && negb is_ndarray then bj = true /\ size <> size_npos /\ holds_after (after (false :: states)) n r else reads n s r
  | (None, b) => stopped n r
  end.

Lemma sized_or_head_more is_ndarray states n m s x r : sized_or_head is_ndarray states n s x r -> (n <= m)%nat -> sized_or_head is_ndarray states m s x r.
Proof.
  destruct x as [[size|] b]; simpl; intros Hx Hl; [|by eapply stopped_more]. destruct Hx as [Hx Hy]. split; [done|].
  destruct (b && _); [|by eapply reads_more]. destruct Hy as (? & ? & []). split_and!; try done. split; [done|lia|done].
Qed.

(** The reader of the head of a container: at least a byte, where there is a size. *)
Definition size_and_type (inside : bool) states n s (x : option (Z * Z)) r : Prop :=
  match x with
  | Some (size, type) =>
      in_u 64 size /\ type <> EOF /\ (size <> size_npos -> (0 < n)%nat) /\ (r_current r <> EOF -> (0 < n)%nat) /\
      if bj && negb (size =? size_npos) && negb (Z.land type 256 =? 0)
      then inside = false /\ Z.ldiff type 256 <> EOF /\ holds_after (after (false :: states)) (n - 1) r
      else reads (n - 1) s r
  | None => stopped n r
  end.

(** The bit of the type for n-dimensional arrays. *)
Lemma type_bit type : is_byte type ->
  Z.land type 256 = 0 /\ Z.land (Z.lor type 256) 256 <> 0 /\ Z.lor type 256 <> EOF /\ Z.ldiff (Z.lor type 256) 256 <> EOF.
Proof.
  unfold is_byte, in_u. intros Ht. assert (Z.land type 256 = 0) as Hl.
  { apply Z.bits_inj'. intros i Hi. rewrite Z.land_spec, Z.bits_0. change 256 with (2 ^ 8). rewrite Z.pow2_bits_eqb by lia.
    destruct (Z.eqb_spec 8 i) as [<-|]; [|by rewrite andb_false_r]. rewrite andb_true_r. apply Z.bits_above_log2; [lia|].
    destruct (Z.eq_dec type 0) as [->|]; [done|]. apply Z.log2_lt_pow2; lia. }
  split; [done|]. split; [|split].
  - rewrite Z.land_comm, Z.lor_comm. rewrite Z.land_lor_distr_r, Z.land_diag, (Z.land_comm 256 type), Hl. done.
  - assert (0 <= Z.lor type 256) by (apply Z.lor_nonneg; lia). intros He. rewrite He in *. done.
  - assert (0 <= Z.ldiff (Z.lor type 256) 256) by (apply Z.ldiff_nonneg; left; apply Z.lor_nonneg; lia). intros He. rewrite He in *. done.
Qed.

Section sizes.
Context (size_value : bool -> Z -> BR (option Z * bool)) (n : nat).

(** On a smaller input *)
Hypothesis size_value_ok : forall is_ndarray prefix states m s r, (m < n)%nat -> (is_ndarray = false -> prefix = 0) ->
  ready states s -> reads m s r -> wp E (size_value is_ndarray prefix) r (fun x r' =>
    (prefix = EOF -> x.1 = None) /\ sized_or_head is_ndarray states m s x r').

(** What follows the size: an error, or the size with its type. *)
Lemma size_result_ok (error : bool) type type' states m x (b : bool) (m' : BR unit) s r :
  reports m' -> (0 < m)%nat -> type <> EOF -> type' <> EOF -> Z.ldiff type' 256 <> EOF -> Z.land type 256 = 0 -> Z.land type' 256 <> 0 ->
  sized_or_head false states (m - 1) s (x, b) r ->
  wp E (if bj && b then if error then m';; mret None else mret (n ← x; Some (n, type')) else mret (n ← x; Some (n, type)))
    r (size_and_type error states m s).
Proof.
  intros Hm' Hm Ht Ht' Htd Hl Hl' Hx. destruct x as [size|].
  - destruct Hx as [Hsize Hx]. simpl in Hx. rewrite andb_true_r in Hx. destruct b.
    + destruct Hx as (Hbj & Hnpos & [Hb1 Hl1 Hs1]). rewrite Hbj. cbn [andb]. destruct error.
      * eapply wp_mono; [apply (report_none m' (m - 1) m (r_sax r)); [done|by split|by eapply after_settled|lia]|]. by intros ? r' [-> Hst].
      * apply wp_ret. unfold size_and_type; cbn [mbind option_bind]. rewrite (proj2 (Z.eqb_neq _ _) Hnpos), (proj2 (Z.eqb_neq _ _) Hl'). rewrite Hbj. cbn [andb negb]. split_and!; done.
    + rewrite andb_false_r. apply wp_ret. unfold size_and_type; cbn [mbind option_bind]. rewrite Hl, Z.eqb_refl, !andb_false_r. by split_and!.
  - assert (stopped m r) as Hst by (eapply stopped_more; [exact Hx|lia]).
    destruct (bj && b); [destruct error|]; [|by apply wp_ret..]. destruct Hst as [Hb1 Hl1 Hf1].
    eapply wp_mono; [apply (report_none m' m m (r_sax r)); [done|by split|by right|done]|]. by intros ? r' [-> Hst].
Qed.

Lemma size_type_ok inside states m s r :
  (m <= n)%nat -> ready states s -> reads m s r -> wp E (get_ubjson_size_type bj size_value inside) r (size_and_type inside states m s).
Proof.
  intros Hm Hs Hr. unfold get_ubjson_size_type. apply wp_bind, (noop_ok m s); [done|]. intros r1 Hc1 Hm0 Hr1. apply wp_bind, wp_gets.
  assert (settled s) as Hset by (by eapply ready_settled).
  assert (forall (m' : BR unit) k r', reports m' -> (k <= m)%nat -> reads k s r' -> wp E (m';; mret (M := M reader) None) r' (size_and_type inside states m s)) as Herr.
  { intros m' k r' Hm' Hk Hr'. eapply wp_mono; [by apply (report_none m' k m s)|]. by intros x r2 [-> Hst]. }
  assert (forall size' r', (0 < m)%nat -> reads (m - 1) s r' -> (m - 1 < n)%nat) as Hlt by lia.
  destruct (Z.eqb_spec (r_current r1) mDOLLAR) as [He1|]; [|destruct (Z.eqb_spec (r_current r1) mHASH) as [He2|]].
  - assert (0 < m)%nat as Hpos by (apply Hm0; by rewrite He1). apply wp_bind, (get_ok (m - 1) s); [done|]. intros type r2 [Htype Hor] _ Hr2.
    destruct (bj && _); [by apply (Herr _ (m - 1 - 1)%nat); [eauto|lia|]|].
    apply wp_bind, (at_eof_ok _ (m - 1 - 1) s); [done..| |]; [intros _ r3 Hst; apply wp_ret; eapply stopped_more; [done|lia]|].
    intros Hne. cbn [negb]. assert (is_byte type) as Hb by (destruct Hor as [[? _]|?]; [congruence|done]).
    apply wp_bind, (noop_ok (m - 1 - 1) s); [done|]. intros r3 Hc3 _ Hr3. apply wp_bind, wp_gets. destruct (negb _) eqn:Eh.
    { apply wp_bind, (at_eof_ok _ (m - 1 - 1 - 1) s); [done..| |]; [intros _ r4 Hst; apply wp_ret; eapply stopped_more; [done|lia]|].
      intros _. cbn [negb]. by apply (Herr _ (m - 1 - 1 - 1)%nat); [eauto|lia|]. }
    apply wp_bind. eapply wp_mono; [apply (size_value_ok false 0 states (m - 1 - 1 - 1) s); [lia|done..]|].
    intros [x b] r4 [_ Hx]. apply (sized_or_head_more _ _ _ (m - 1)) in Hx; [|lia]. cbn [fst snd].
    destruct (type_bit type Hb) as (Hl0 & Hl1 & Ht1 & Ht2).
    apply size_result_ok; try done; [eauto|]. intros ->. unfold is_byte, in_u in Hb. lia.
  - assert (0 < m)%nat as Hpos by (apply Hm0; by rewrite He2). apply wp_bind.
    eapply wp_mono; [apply (size_value_ok false 0 states (m - 1) s); [lia|done..]|]. intros [x b] r2 [_ Hx]. cbn [fst snd].
    eapply wp_mono; [by apply (size_result_ok true 0 256 states m x b _ s); [eauto|..]|].
    intros [[size type]|] r3 Hy; [|done]. destruct Hy as (? & ? & ? & ? & Hy). split_and!; try done. by case_match; [destruct Hy|].
  - apply wp_ret. unfold size_and_type. rewrite Z.eqb_refl, andb_false_r. split_and!; try done.
Qed.

(** ** Dimensions *)

Lemma dimension_ok prefix dim states m s r :
  (m < n)%nat -> ready states s -> Forall (in_u 64) dim -> reads m s r ->
  wp E (dimension size_value prefix dim) r (fun x r' =>
    match x with Some dim => prefix <> EOF /\ Forall (in_u 64) dim /\ reads m s r' | None => stopped m r' end).
Proof.
  intros Hm Hs Hd Hr. apply wp_bind. eapply wp_mono; [by apply (size_value_ok true prefix states m s)|].
  intros [[size|] b] r' [He Hx]; apply wp_ret; [|exact Hx]. simpl in Hx. rewrite andb_false_r in Hx. destruct Hx as [Hsize Hr'].
  split; [intros Hp; by specialize (He Hp)|]. split; [|done]. apply Forall_app. split; [done|by apply Forall_singleton].
Qed.

Lemma ndarray_size_ok states m s r :
  (m < n)%nat -> ready states s -> reads m s r ->
  wp E (get_ubjson_ndarray_size bj size_value) r (outcome (Forall (in_u 64)) m s).
Proof.
  intros Hm Hs Hr. apply wp_bind. eapply wp_mono; [apply (size_type_ok true states m s); [lia|done..]|].
  intros [[size type]|] r1 Hx; [|by apply wp_ret]. destruct Hx as (Hsize & _ & Hpos & Hcur & Hx).
  assert (reads (m - 1) s r1) as Hr1 by (case_match; [by destruct Hx as [? _]|done]). clear Hx.
  assert (forall (k : BR (option (list Z))), wp E k r1 (fun x r' => match x with
      | Some dim => Forall (in_u 64) dim /\ holds_after (fun s' => s' = s) (m - 1) r' | None => stopped (m - 1) r' end) ->
    wp E k r1 (outcome (Forall (in_u 64)) m s)) as Hk.
  { intros k Hk. eapply wp_mono; [exact Hk|]. intros [dim|] r2 Hx; [|eapply stopped_more; [exact Hx|lia]].
    destruct Hx as [? [? ? ?]]. split; [done|]. split; [done|lia|done]. }
  assert (forall prefix, round_kept (Forall (in_u 64)) (fun s' => s' = s) (m - 1) (dimension size_value prefix)) as Hround.
  { intros prefix dim k s1 r2 Hkm Hd -> Hr2. eapply wp_mono; [apply (dimension_ok prefix dim states k s); [lia|done..]|].
    intros [d|] r3 Hx; [|done]. destruct Hx as (_ & ? & []). by repeat split. }
  destruct (negb (size =? size_npos)); [apply Hk; destruct (negb (type =? 0)); [destruct (negb (type =? mN))|]|].
  - by apply (for_loop_ok _ _ _ _ _ _ s).
  - apply wp_ret. destruct Hr1. by repeat split.
  - by apply (for_loop_ok _ _ _ _ _ _ s).
  - apply Hk, (while_not_ok _ _ _ _ m _ _ s); [|intros Hne; specialize (Hcur Hne); lia|done..]. intros dim k s1 r2 Hkm _ Hd -> Hr2. apply wp_bind, wp_gets, wp_bind.
    eapply wp_mono; [apply (dimension_ok _ dim states k s); [lia|done..]|]. intros [d|] r3 Hx; [|by apply wp_ret].
    destruct Hx as (Hne & Hd3 & Hr3). apply wp_bind, (noop_ok k s); [done|]. intros r4 _ Hk0 [Hb4 Hl4 Hs4]. apply wp_ret.
    split; [done|]. split; [done|]. exists (k - 1)%nat. split; [lia|]. split; [|by split].
    unfold weight. destruct (Z.eqb_spec (r_current r4) EOF) as [|Hne4]; [lia|]. specialize (Hk0 Hne4). lia.
Qed.

(** The head of an n-dimensional array. *)
Lemma dim_numbers_ok dim states result m s r :
  Forall (in_u 64) dim -> in_u 64 result -> result <> size_npos -> after (true :: states) s -> reads m s r ->
  wp E (dim_numbers bj dim result) r (fun x r' =>
    match x with Some size => in_u 64 size /\ size <> size_npos /\ holds_after (after (true :: states)) m r' | None => stopped m r' end).
Proof.
  intros Hd. revert result s r. induction Hd as [|i dim Hi Hd IH]; intros result s r Hu Hnpos Hs Hr; cbn [dim_numbers].
  - apply wp_ret. destruct Hr as [? ? <-]. by repeat split; try apply Hu.
  - destruct (_ || _) eqn:Eo.
    + eapply wp_mono; [apply (report_none _ m m s); [eauto|done|by eapply after_settled|done]|]. by intros x r' [-> Hst].
    + apply orb_false_iff in Eo as [_ Hne%Z.eqb_neq]. apply wp_bind.
      eapply wp_mono; [apply (event_ok (failed := failed) _ (after (true :: states)) m s); [done|]; by apply spec_unsigned, spec_next|].
      intros [] r1 Hx; [|by apply wp_ret]. destruct Hx as [Hb1 Hl1 Hs1]. apply (IH _ (r_sax r1)); [by apply uwrap_range|done|done|by split].
Qed.

Lemma ndarray_head_ok dim states m s r :
  Forall (in_u 64) dim -> bj = true -> ready states s -> reads m s r -> wp E (ndarray_head bj dim) r (sized_or_head false states m s).
Proof.
  intros Hd Hbj Hs Hr. unfold ndarray_head. apply wp_bind.
  eapply wp_mono; [apply (start_ok (failed := failed) _ (after (false :: states)) 3 m s); [done|done|by apply spec_start_object]|].
  intros [] r1 Hx; apply wp_bind; [|apply wp_ret, wp_bind, wp_ret; by apply wp_ret]. destruct Hx as [Hb1 Hl1 Hs1].
  eapply wp_mono; [apply (event_ok (failed := failed) _ (ready (false :: states)) m (r_sax r1)); [by split|]; apply spec_key; [|done]|].
  { by repeat constructor. }
  intros [] r2 Hx; apply wp_bind; [|apply wp_ret; by apply wp_ret]. destruct Hx as [Hb2 Hl2 Hs2].
  eapply wp_mono; [apply (start_ok (failed := failed) _ (after (true :: false :: states)) (Z.of_nat (length dim)) m (r_sax r2)); [done|by split|by apply spec_start_array]|].
  intros [] r3 Hx; [|by apply wp_ret]. cbn [negb]. destruct Hx as [Hb3 Hl3 Hs3]. apply wp_bind.
  eapply wp_mono; [apply (dim_numbers_ok dim (false :: states) 1 m (r_sax r3)); [done|done|done|done|by split]|].
  intros [size|] r4 Hx; [|by apply wp_ret]. destruct Hx as (Hsize & Hnpos & [Hb4 Hl4 Hs4]). apply wp_bind.
  eapply wp_mono; [apply (event_ok (failed := failed) _ (after (false :: states)) m (r_sax r4)); [by split|by apply spec_end_array]|].
  intros [] r5 Hx; apply wp_ret; [|exact Hx]. by split_and!.
Qed.

Lemma size_value_body_ok is_ndarray prefix states m s r :
  (m <= n)%nat -> (is_ndarray = false -> prefix = 0) -> ready states s -> reads m s r ->
  wp E (ubjson_size_value bj size_value is_ndarray prefix) r (fun x r' =>
    (prefix = EOF -> x.1 = None) /\ sized_or_head is_ndarray states m s x r').
Proof.
  intros Hm Hp Hs Hr. unfold ubjson_size_value. apply wp_bind.
  apply (wp_mono _ _ _ (fun c r' => reads m s r' /\ (prefix = EOF -> c = EOF) /\ (is_ndarray = false -> c <> EOF -> (0 < m)%nat /\ reads (m - 1) s r'))).
  { destruct (Z.eqb_spec prefix 0) as [->|Hne].
    - apply (noop_ok m s); [done|]. intros r1 _ Hm0 Hr1. split; [eapply reads_more; [exact Hr1|lia]|]. split; [done|]. auto.
    - apply wp_ret. split; [done|]. split; [done|]. intros Hf. by destruct Hne; apply Hp. }
  intros c r1 (Hr1 & Hce & Hstrict). assert (settled s) as Hset by (by eapply ready_settled).
  assert (forall (m' : BR unit), reports m' -> wp E (m';; mret (None, is_ndarray)) r1 (fun x r' =>
    (prefix = EOF -> x.1 = None) /\ sized_or_head is_ndarray states m s x r')) as Herr.
  { intros m' Hm'. apply (report_then m' _ _ m s); [done..|]. intros r' Hst. by apply wp_ret. }
  destruct (int_type bj c) as [t|] eqn:Et.
  - apply wp_bind. eapply wp_mono; [apply (get_integer_ok t m s); [by eapply int_type_width|done..]|].
    intros [x|] r2 Hx; [|by apply wp_ret]. destruct Hx as [Hx Hr2]. destruct (t.2 && _) eqn:Ex.
    + apply (report_then _ _ _ m s); [eauto|done..|]. intros r3 Hst. by apply wp_ret.
    + apply wp_ret. split.
      * intros ->. rewrite (Hce eq_refl) in Et. unfold int_type in Et. by destruct bj.
      * simpl. rewrite (andb_comm is_ndarray), andb_negb_l. split; [|done]. unfold int_fits in Hx. destruct t.2; [|done]. simpl in Ex.
        unfold in_s in Hx. unfold in_u. lia.
  - destruct (bj && _) eqn:Eb; [|by apply Herr; eauto]. destruct is_ndarray; [by apply Herr; eauto|].
    apply andb_prop in Eb as [Hbj Hc%Z.eqb_eq]. destruct (Hstrict eq_refl) as [Hpos Hr1']; [by rewrite Hc|].
    apply wp_bind. eapply wp_mono; [apply (ndarray_size_ok states (m - 1) s); [lia|done..]|].
    intros [dim|] r2 Hx; [|apply wp_ret; split; [done|]; eapply stopped_more; [exact Hx|lia]]. destruct Hx as [Hd Hr2].
    assert (forall size, in_u 64 size -> wp E (mret (Some size, false)) r2 (fun x r' =>
      (prefix = EOF -> x.1 = None) /\ sized_or_head false states m s x r')) as Hok.
    { intros size Hsize. apply wp_ret. split; [intros He; specialize (Hce He); congruence|]. split; [done|]. eapply reads_more; [exact Hr2|lia]. }
    assert (forall i, i ∈ dim -> in_u 64 i) as Hin by by apply Forall_forall.
    assert (wp E (if existsb (Z.eqb 0) dim then mret (Some 0, false) else ndarray_head bj dim) r2 (fun x r' =>
      (prefix = EOF -> x.1 = None) /\ sized_or_head false states m s x r')) as Hhead.
    { destruct (existsb _ _); [by apply Hok|]. eapply wp_mono; [by apply (ndarray_head_ok dim states (m - 1) s)|].
      intros x r3 Hx. split; [intros He; specialize (Hce He); congruence|]. eapply sized_or_head_more; [exact Hx|lia]. }
    repeat case_match; subst; first [apply Hhead | apply Hok; done | apply Hok, Hin; set_solver].
Qed.
End sizes.

(** The recursion: each vector of dimensions takes a byte. *)
Lemma size_value_loop_ok fuel is_ndarray prefix states n s r :
  (n < fuel)%nat -> (is_ndarray = false -> prefix = 0) -> ready states s -> reads n s r ->
  wp E (size_value_loop bj fuel is_ndarray prefix) r (fun x r' => (prefix = EOF -> x.1 = None) /\ sized_or_head is_ndarray states n s x r').
Proof.
  revert is_ndarray prefix states n s r. induction fuel as [|fuel IH]; [lia|]. intros is_ndarray prefix states n s r Hn Hp Hs Hr. cbn [size_value_loop].
  by apply (size_value_body_ok _ fuel); [|lia|..].
Qed.

Lemma size_value_ok is_ndarray prefix states n s r :
  (is_ndarray = false -> prefix = 0) -> ready states s -> reads n s r ->
  wp E (get_ubjson_size_value bj is_ndarray prefix) r (fun x r' => (prefix = EOF -> x.1 = None) /\ sized_or_head is_ndarray states n s x r').
Proof.
  intros Hp Hs [Hb Hl Hsx]. apply wp_bind, wp_gets. eapply wp_mono; [apply (size_value_loop_ok _ _ _ states (length (r_ia r)) s); [lia|done|done|by split]|].
  intros x r' [He Hx]. split; [done|]. by eapply sized_or_head_more.
Qed.

Lemma head_ok inside states n s r :
  ready states s -> reads n s r ->
  wp E (get_ubjson_size_type bj (get_ubjson_size_value bj) inside) r (size_and_type inside states n s).
Proof.
  intros Hs Hr. apply (size_type_ok _ (Datatypes.S n)); [|lia|done..]. intros is_ndarray prefix states' m s' r' _. apply size_value_ok.
Qed.

(** ** Values *)

Context (strtof_range : forall t, in_u 64 (strtof t)) (zero_range : in_u 64 float_zero) (Hdp : point_ok dp).

(** What a value function promises after the marker [prefix]. *)
Definition marked states prefix n (b : bool) r : Prop := if b then prefix <> EOF /\ holds_after (after states) n r else stopped n r.

Lemma valued_marked (m : BR bool) states prefix n r : prefix <> EOF -> wp E m r (valued (after states) n) -> wp E m r (marked states prefix n).
Proof. intros Hp Hm. eapply wp_mono; [exact Hm|]. by intros [] r' Hx. Qed.

Lemma report_valued (m : BR unit) I n s r :
  reports m -> reads n s r -> settled s -> wp E (m;; mret false) r (valued I n).
Proof. intros Hm Hr Hs. apply (report_then m _ _ n s); [done..|]. intros r' Hst. by apply wp_ret. Qed.

Lemma integer_value_ok t states n s r :
  (1 <= t.1 <= 8)%nat -> ready states s -> reads n s r -> wp E (ubjson_number bj t) r (valued (after states) n).
Proof.
  intros Ht Hs Hr. eapply and_ok; [apply (get_integer_ok t n s); [done|done|by eapply ready_settled]|].
  intros x r' Hx Hr'. apply (event_ok _ _ n s); [done|]. unfold int_fits in Hx. destruct t.2; [by apply spec_integer|by apply spec_unsigned].
Qed.

Lemma float_value_ok (k : nat) (f : Z -> Z) states n s r :
  (forall x, 0 <= x < 256 ^ Z.of_nat k -> in_u 64 (f x)) -> ready states s -> reads n s r ->
  wp E (br_and (get_number false k format) (fun x => with_handler (sax_number_float (f x) []))) r (valued (after states) n).
Proof.
  intros Hf Hs Hr. eapply and_ok; [apply (get_number_ok ubjson_codes_eof _ _ _ n s); [done|by eapply ready_settled]|].
  intros x r' Hx Hr'. apply (event_ok _ _ n s); [done|]. apply spec_float; [|done]. by apply Hf.
Qed.

Lemma bjdata_half_ok states n s r : ready states s -> reads n s r -> wp E (bjdata_half bj) r (valued (after states) n).
Proof.
  intros Hs Hr. assert (settled s) as Hset by (by eapply ready_settled).
  assert (forall m r' Q, (m <= n)%nat -> reads m s r' -> (forall c r2, at_char c r2 -> c <> EOF -> is_byte c -> reads (m - 1) s r2 -> wp E (Q c) r2 (valued (after states) n)) ->
    wp E (byte ← br_get; ok ← unexpect_eof format (str "number"); if negb ok then mret false else Q byte) r' (valued (after states) n)) as Hbyte.
  { intros m r' Q Hm Hr' HQ. apply wp_bind, (get_ok m s); [done|]. intros c r2 Hc _ Hr2.
    apply wp_bind, (eof_ok ubjson_codes_eof _ _ c (m - 1) s); [done..| |].
    - intros _ r3 Hst. apply wp_ret. eapply stopped_more; [done|lia].
    - intros Hne Hb. cbn [negb]. by apply HQ. }
  unfold bjdata_half. apply (Hbyte n); [done|done|]. intros b1 r1 _ _ Hb1 Hr1. apply (Hbyte (n - 1)%nat); [lia|done|].
  intros b2 r2 _ _ Hb2 Hr2. apply (event_ok _ _ n s); [eapply reads_more; [exact Hr2|lia]|]. apply spec_float; [|done].
  apply half_value_range.
Qed.

Lemma high_precision_ok states n s r :
  ready states s -> reads n s r -> wp E (get_ubjson_high_precision_number dp bj) r (valued (after states) n).
Proof.
  intros Hs Hr. assert (settled s) as Hset by (by eapply ready_settled). unfold get_ubjson_high_precision_number. apply wp_bind.
  eapply wp_mono; [by apply (size_value_ok true 0 states n s)|]. intros [[size|] b] r1 [_ Hx]; cbn [fst]; [|by apply wp_ret].
  simpl in Hx. rewrite andb_false_r in Hx. destruct Hx as [_ Hr1]. apply wp_bind, wp_gets, wp_bind.
  pose proof Hr1 as [Hb1 Hl1 Hs1]. eapply wp_mono; [apply (get_chars_ok ubjson_codes_eof _ _ _ _ _ _ (length (r_ia r1)) s); [by split|done|done|lia]|].
  intros [text|] r2 Hx; [|apply wp_ret; eapply stopped_more; [exact Hx|lia]]. destruct Hx as [Htext Hr2].
  destruct (scan_number_text_ok strtof_range dp text Hdp zero_range Htext) as ([[t ts] [t' ts']] & lx & -> & Hi & Hu & Hf).
  assert (reads n s r2) as Hr2' by (eapply reads_more; [exact Hr2|lia]).
  assert (wp E (pos ← gets chars_read;
    br_error format 115 ts (str "invalid number text: " ++ ts') (str "high-precision number");; mret false) r2 (valued (after states) n)) as Hinv.
  { apply wp_bind, wp_gets, wp_bind. eapply wp_mono; [apply (error_ok _ _ _ _ _ n s); [by eauto|done|done]|]. intros b' r' [_ Hst]. by apply wp_ret. }
  destruct (bool_decide _); [|exact Hinv]. destruct t; try exact Hinv.
  - apply (event_ok _ _ n s); [done|]. by apply spec_unsigned.
  - apply (event_ok _ _ n s); [done|]. by apply spec_integer.
  - apply (event_ok _ _ n s); [done|]. by apply spec_float.
Qed.

Lemma ubjson_char_ok states n s r : ready states s -> reads n s r -> wp E (ubjson_char bj) r (valued (after states) n).
Proof.
  intros Hs Hr. assert (settled s) as Hset by (by eapply ready_settled). apply wp_bind, (get_ok n s); [done|]. intros c r1 Hc _ Hr1.
  apply wp_bind, (eof_ok ubjson_codes_eof _ _ c (n - 1) s); [done..| |].
  - intros _ r2 Hst. apply wp_ret. eapply stopped_more; [done|lia].
  - intros _ Hb. cbn [negb]. apply wp_bind, wp_gets. assert (reads n s r1) as Hr1' by (eapply reads_more; [exact Hr1|lia]).
    destruct (127 <? _); [by apply (report_valued _ _ n s); eauto|]. apply (event_ok _ _ n s); [done|]. apply spec_string; [|done].
    apply Forall_singleton, uwrap_range. lia.
Qed.

Section value.
Context (value : Z -> BR bool) (k : nat).

(** On a smaller input; at its end, an error *)
Hypothesis value_ok : forall prefix states m s r,
  (0 < k)%nat -> (prefix <> EOF -> (m + 1 < k)%nat) -> (prefix = EOF -> r_current r = EOF) -> ready states s -> reads m s r ->
  wp E (value prefix) r (marked states prefix m).

Lemma typed_ok type states m s r :
  (m + 1 < k)%nat -> type <> EOF -> ready states s -> reads m s r -> wp E (value type) r (valued (after states) m).
Proof.
  intros Hm Ht Hs Hr. eapply wp_mono; [by apply (value_ok type states m s); [lia|..]|]. intros [] r' Hx; [by destruct Hx|done].
Qed.

Lemma parse_get_ok states m s r :
  (m + 1 < k)%nat -> ready states s -> reads m s r -> wp E (parse_internal value true) r (valued (after states) m).
Proof.
  intros Hm Hs Hr. apply wp_bind, (noop_ok m s); [done|]. intros r1 _ Hm0 Hr1.
  eapply wp_mono; [apply (value_ok _ states (m - 1) s); [lia|lia|done..]|].
  intros [] r2 Hx; [|eapply stopped_more; [exact Hx|lia]]. destruct Hx as [_ []]. split; [done|lia|done].
Qed.

Lemma parse_current_ok states m s r :
  (0 < k)%nat -> (r_current r <> EOF -> (m + 1 < k)%nat) -> ready states s -> reads m s r ->
  wp E (parse_internal value false) r (marked states (r_current r) m).
Proof. intros Hk Hm Hs Hr. apply wp_bind, wp_gets. by apply (value_ok _ states m s). Qed.

(** A round of the loops without a size: the next byte after it *)
Lemma round_then_noop (body : BR bool) I m r0 r :
  wp E body r (fun b r' => if b then r_current r0 <> EOF /\ holds_after I m r' else stopped m r') ->
  wp E (once (ok ← body; if ok : bool then get_ignore_noop;; mret true else mret false) tt) r (fun x r' => match x with
    | Some _ => r_current r0 <> EOF /\ True /\ exists m', (m' <= m)%nat /\ (weight r' m' <= m)%nat /\ holds_after I m' r'
    | None => stopped m r' end).
Proof.
  intros Hb. apply wp_bind, wp_bind. eapply wp_mono; [exact Hb|]. intros [] r1 Hx; [|apply wp_ret; by apply wp_ret].
  destruct Hx as [Hne [Hb1 Hl1 Hs1]]. apply wp_bind, (noop_ok m (r_sax r1)); [by split|]. intros r2 _ Hm0 [Hb2 Hl2 Hs2]. apply wp_ret, wp_ret.
  split; [done|]. split; [done|]. exists (m - 1)%nat. split; [lia|]. split; [|split; [done|lia|by rewrite Hs2]].
  unfold weight. destruct (Z.eqb_spec (r_current r2) EOF) as [|Hne2]; [lia|]. specialize (Hm0 Hne2). lia.
Qed.

(** Elements of a type, or with their markers. *)
Lemma elements_ok (body : BR bool) len states m s r :
  (forall m' s r, (m' <= m)%nat -> ready (true :: states) s -> reads m' s r -> wp E body r (valued (after (true :: states)) m')) ->
  after (true :: states) s -> reads m s r -> wp E (all_rounds (for_loop (once body) len tt)) r (valued (after (true :: states)) m).
Proof.
  intros Hbody Hs Hr. eapply wp_mono; [apply (for_times_ok body (ready (true :: states)) len m s); [|by apply spec_next|done]|].
  - intros m' s1 r1 Hm Hs1 Hr1. eapply wp_mono; [by apply (Hbody m' s1)|]. intros b r2 Hx. eapply valued_more; [exact Hx|apply spec_next|done].
  - intros b r2 Hx. eapply valued_more; [exact Hx|apply spec_ready|done].
Qed.

Lemma ndarray_ok size type states m s r :
  (m + 1 < k)%nat -> type <> EOF -> after (false :: states) s -> reads m s r ->
  wp E (ubjson_ndarray bj value size type) r (valued (after states) m).
Proof.
  intros Hm Ht Hs Hr. unfold ubjson_ndarray. destruct (bjd_type type bjd_types_map) as [name|] eqn:En.
  2: { apply (report_valued _ _ m s); [eauto|done|by eapply after_settled]. }
  assert (Forall is_byte name) as Hname.
  { unfold bjd_types_map, bjd_type in En. repeat case_match; simplify_eq; by repeat constructor. }
  apply wp_bind. eapply wp_mono; [apply (event_ok (failed := failed) _ (ready (false :: states)) m s); [done|]; apply spec_key; [by repeat constructor|done]|].
  intros [] r1 Hx; apply wp_bind; [|apply wp_ret; by apply wp_ret]. destruct Hx as [Hb1 Hl1 Hs1].
  eapply wp_mono; [apply (event_ok (failed := failed) _ (after (false :: states)) m (r_sax r1)); [by split|by apply spec_string]|].
  intros [] r2 Hx; [|by apply wp_ret]. cbn [negb]. destruct Hx as [Hb2 Hl2 Hs2]. apply wp_bind.
  eapply wp_mono; [apply (event_ok (failed := failed) _ (ready (false :: states)) m (r_sax r2)); [by split|]; apply spec_key; [by repeat constructor|done]|].
  intros [] r3 Hx; [|by apply wp_ret]. cbn [negb]. destruct Hx as [Hb3 Hl3 Hs3]. apply wp_bind.
  eapply wp_mono; [apply (container_ok (failed := failed) _ _ _ (after (true :: false :: states)) (after (false :: states)) size m (r_sax r3)); [done|by split|by apply spec_start_array| |by intros; apply spec_end_array]|].
  - intros s4 r4 Hs4 Hr4. apply (elements_ok _ _ _ _ s4); [|done..]. intros m' s5 r5 Hm' Hs5 Hr5.
    apply (typed_ok _ _ _ s5); [lia| |done..]. by destruct (_ || _).
  - intros [] r4 Hx; [|by apply wp_ret]. destruct Hx as [Hb4 Hl4 Hs4]. apply (event_ok _ _ m (r_sax r4)); [by split|by apply spec_end_object].
Qed.

Lemma array_ok states m s r :
  (m < k)%nat -> ready states s -> reads m s r -> wp E (get_ubjson_array bj value) r (valued (after states) m).
Proof.
  intros Hm Hs Hr. apply wp_bind. eapply wp_mono; [by apply (head_ok false states m s)|]. intros [[size type]|] r1 Hx; [|by apply wp_ret].
  destruct Hx as (Hsize & Ht & Hpos & Hcur & Hx). destruct (bj && negb (size =? size_npos) && negb (Z.land type 256 =? 0)) eqn:Eh.
  { destruct Hx as (_ & Hd & [Hb1 Hl1 Hs1]). rewrite !andb_true_iff in Eh. destruct Eh as [[_ Hn%negb_true_iff%Z.eqb_neq] _].
    specialize (Hpos Hn). eapply wp_mono; [apply (ndarray_ok _ _ states (m - 1) (r_sax r1)); [lia|done|done|by split]|].
    intros b r2 Hy. eapply valued_more; [exact Hy|done|lia]. }
  assert (forall (m' : BR bool), wp E m' r1 (valued (after states) (m - 1)) -> wp E m' r1 (valued (after states) m)) as Hmore.
  { intros m' Hm'. eapply wp_mono; [exact Hm'|]. intros b r2 Hy. eapply valued_more; [exact Hy|done|lia]. }
  clear Eh. destruct (bj && negb (size =? size_npos) && (type =? mB)).
  { eapply and_ok; [apply (br_binary_ok ubjson_codes_eof _ _ _ m s); [eapply reads_more; [exact Hx|lia]|by eapply ready_settled|done]|].
    intros b r2 Hb Hr2. apply (event_ok _ _ m s); [done|]. by apply spec_binary. }
  destruct (negb (size =? size_npos)) eqn:Hn.
  - apply negb_true_iff, Z.eqb_neq in Hn. specialize (Hpos Hn). apply Hmore.
    apply (container_ok _ _ _ (after (true :: states)) _ size (m - 1) s); [done|done|by apply spec_start_array| |by intros; apply spec_end_array].
    intros s2 r2 Hs2 Hr2. destruct (negb (type =? 0)); [destruct (negb (type =? mN))|].
    + apply (elements_ok _ _ _ _ s2); [|done..]. intros m' s3 r3 Hm' Hs3 Hr3. apply (typed_ok _ _ _ s3); [lia|done..].
    + destruct Hr2 as [? ? <-]. by apply wp_ret.
    + apply (elements_ok _ _ _ _ s2); [|done..]. intros m' s3 r3 Hm' Hs3 Hr3. apply (parse_get_ok _ _ s3); [lia|done..].
  - apply Hmore. apply (container_at _ _ _ (after (true :: states)) _ unknown_size (m - 1) s); [done|done|by apply spec_start_array| |by intros; apply spec_end_array].
    intros s2 r2 Hs2 Hr2 Hc2. eapply wp_mono; [apply all_rounds_ok, (while_not_ok _ _ (ready (true :: states)) _ m _ (m - 1) s2); [|rewrite Hc2; intros Hne; specialize (Hcur Hne); lia|done|by apply spec_next|done]|].
    + intros [] m' s3 r3 Hm' Hlim _ Hs3 Hr3. apply round_then_noop. eapply wp_mono; [apply (parse_current_ok (true :: states) m' s3); [lia|intros Hne; specialize (Hlim Hne); lia|done..]|].
      intros [] r4 Hy; [|done]. destruct Hy as [? []]. split; [done|]. split; [done..|by apply spec_next].
    + intros b r3 Hy. eapply valued_more; [exact Hy|apply spec_ready|done].
Qed.

(** A key and its value. *)
Lemma member_ok get_char (v : BR bool) states m s r :
  after (false :: states) s -> reads m s r ->
  (forall s r, ready (false :: states) s -> reads m s r -> wp E v r (valued (after (false :: states)) m)) ->
  wp E (ubjson_member bj get_char v) r (fun b r' =>
    if b then (get_char = false -> r_current r <> EOF) /\ holds_after (after (false :: states)) m r' else stopped m r').
Proof.
  intros Hs Hr Hv. apply wp_bind. eapply wp_mono; [apply (ubjson_string_ok get_char m s); [done|by eapply after_settled]|].
  intros [key|] r1 Hx; [|by apply wp_ret]. destruct Hx as (Hc & Hkey & Hr1). apply wp_bind.
  eapply wp_mono; [apply (event_ok (failed := failed) _ (ready (false :: states)) m s); [done|by apply spec_key]|].
  intros [] r2 Hx; [|by apply wp_ret]. destruct Hx as [Hb2 Hl2 Hs2]. eapply wp_mono; [by apply (Hv (r_sax r2))|].
  intros [] r3 Hx; [by split|done].
Qed.

Lemma object_ok states m s r :
  (m < k)%nat -> ready states s -> reads m s r -> wp E (get_ubjson_object bj value) r (valued (after states) m).
Proof.
  intros Hm Hs Hr. apply wp_bind. eapply wp_mono; [by apply (head_ok false states m s)|]. intros [[size type]|] r1 Hx; [|by apply wp_ret].
  destruct Hx as (Hsize & Ht & Hpos & Hcur & Hx).
  assert (forall (m' : BR bool), wp E m' r1 (valued (after states) (m - 1)) -> wp E m' r1 (valued (after states) m)) as Hmore.
  { intros m' Hm'. eapply wp_mono; [exact Hm'|]. intros b r2 Hy. eapply valued_more; [exact Hy|done|lia]. }
  apply Hmore. destruct (bj && negb (size =? size_npos) && negb (Z.land type 256 =? 0)).
  { destruct Hx as (_ & _ & [Hb1 Hl1 Hs1]). apply (report_valued _ _ _ (r_sax r1)); [eauto|by split|by eapply after_settled]. }
  destruct (negb (size =? size_npos)) eqn:Hn.
  - apply negb_true_iff, Z.eqb_neq in Hn. specialize (Hpos Hn).
    apply (container_ok _ _ _ (after (false :: states)) _ size (m - 1) s); [done|done|by apply spec_start_object| |by intros; apply spec_end_object].
    intros s2 r2 Hs2 Hr2.
    assert (forall v : BR bool, (forall m' s r, (m' <= m - 1)%nat -> ready (false :: states) s -> reads m' s r -> wp E v r (valued (after (false :: states)) m')) ->
      wp E (all_rounds (for_loop (once (ubjson_member bj true v)) size tt)) r2 (valued (after (false :: states)) (m - 1))) as Hv.
    { intros v Hv. apply (for_times_ok _ (after (false :: states)) _ _ s2); [|done..]. intros m' s3 r3 Hm' Hs3 Hr3.
      eapply wp_mono; [apply (member_ok true v states m' s3); [done|done|]|]; [intros s4 r4; by apply Hv|]. intros [] r4 Hy; [by destruct Hy|done]. }
    destruct (negb (type =? 0)); apply Hv; intros m' s3 r3 Hm' Hs3 Hr3; [apply (typed_ok _ _ _ s3)|apply (parse_get_ok _ _ s3)]; [lia|done..|lia|done|done].
  - apply (container_at _ _ _ (after (false :: states)) _ unknown_size (m - 1) s); [done|done|by apply spec_start_object| |by intros; apply spec_end_object].
    intros s2 r2 Hs2 Hr2 Hc2. apply all_rounds_ok, (while_not_ok _ _ (after (false :: states)) _ m _ (m - 1) s2);
      [|rewrite Hc2; intros Hne; specialize (Hcur Hne); lia|done..].
    intros [] m' s3 r3 Hm' Hlim _ Hs3 Hr3. apply round_then_noop.
    destruct (Z.eq_dec (r_current r3) EOF) as [He|Hne].
    + apply wp_bind. eapply wp_mono; [apply (ubjson_string_ok false m' s3); [done|by eapply after_settled]|].
      intros [key|] r4 Hy; [destruct Hy as [Hy _]; by destruct (Hy eq_refl)|by apply wp_ret].
    + eapply wp_mono; [apply (member_ok false _ states m' s3); [done|done|]|].
      * intros s4 r4 Hs4 Hr4. specialize (Hlim Hne). apply (parse_get_ok _ _ s4); [lia|done..].
      * intros [] r4 Hy; [by destruct Hy|done].
Qed.

(** [get_ubjson_value] with what it calls. *)
Lemma value_body_ok prefix states m s r :
  (prefix <> EOF -> (m < k)%nat) -> (prefix = EOF -> r_current r = EOF) -> ready states s -> reads m s r ->
  wp E (ubjson_value dp bj value prefix) r (marked states prefix m).
Proof.
  intros Hk Hc Hs Hr. assert (settled s) as Hset by (by eapply ready_settled). unfold ubjson_value. destruct (Z.eqb_spec prefix EOF) as [He|Hne].
  { apply (at_eof_ok _ m s); [done|done|by intros _ r' Hst|]. by specialize (Hc He). }
  specialize (Hk Hne). apply valued_marked; [done|].
  assert (forall (m' : M S bool), wp nofault m' s (fun ok s' => ok = true /\ after states s') ->
    wp E (with_handler m') r (valued (after states) m)) as Hev by (intros m' Hm'; by apply (event_ok _ _ m s)).
  do 4 match goal with |- wp _ (if ?b then _ else _) _ _ => destruct b; [solve [by apply Hev, spec_boolean | by apply Hev, spec_null | by apply (integer_value_ok _ _ _ s); [simpl; lia|..]]|] end.
  destruct (int_type bj prefix) as [t|] eqn:Et; [by apply (integer_value_ok _ _ _ s); [eapply int_type_width|..]|].
  repeat match goal with |- wp _ (if ?b then _ else _) _ _ => destruct b end.
  - by apply (bjdata_half_ok _ _ s).
  - apply (float_value_ok 4 widen _ _ s); [|done..]. intros x Hx. apply widen_range. exact Hx.
  - by apply (float_value_ok 8 (fun x => x) _ _ s).
  - by apply (high_precision_ok _ _ s).
  - by apply (ubjson_char_ok _ _ s).
  - apply wp_bind. eapply wp_mono; [by apply (ubjson_string_ok true m s)|]. intros [u|] r1 Hx; [|by apply wp_ret].
    destruct Hx as (_ & Hu & Hr1). apply (event_ok _ _ m s); [done|by apply spec_string].
  - by apply (array_ok _ _ s).
  - by apply (object_ok _ _ s).
  - by apply (report_valued _ _ _ s); eauto.
Qed.
End value.

Lemma get_ubjson_value_ok fuel prefix states n s r :
  (0 < fuel)%nat -> (prefix <> EOF -> (n + 1 < fuel)%nat) -> (prefix = EOF -> r_current r = EOF) -> ready states s -> reads n s r ->
  wp E (get_ubjson_value dp bj fuel prefix) r (marked states prefix n).
Proof.
  revert prefix states n s r. induction fuel as [|fuel IH]; [lia|]. intros prefix states n s r _ Hn Hc Hs Hr. cbn [get_ubjson_value].
  apply (value_body_ok _ fuel) with (s := s); [intros; by apply (IH _ _ _ s0)|intros Hne; specialize (Hn Hne); lia|done..].
Qed.

Lemma parse_ubjson_ok states n s r : ready states s -> reads n s r -> wp E (parse_ubjson dp bj) r (valued (after states) n).
Proof.
  intros Hs [Hb Hl Hsx]. apply wp_bind, wp_gets, wp_bind, (noop_ok (length (r_ia r)) s); [by split|]. intros r1 _ Hpos Hr1.
  eapply wp_mono; [apply (get_ubjson_value_ok _ _ states (length (r_ia r) - 1) s); [lia|intros Hne; specialize (Hpos Hne); lia|done..]|].
  intros [] r' Hx; [|eapply stopped_more; [exact Hx|lia]]. destruct Hx as [_ []]. split; [done|lia|done].
Qed.
End total.

(** ** [from_ubjson] and [from_bjdata] *)

Lemma strtod_range dp t : in_u 64 (strtod dp t).
Proof.
  unfold strtod, in_u. match goal with |- context[nearest_double ?q] => destruct (nearest_double_spec q _ eq_refl) as [Hq _] end.
  unfold inf_bits in Hq. destruct (bool_decide _); lia.
Qed.

(** C27 [from_ubjson] and [from_bjdata] on any bytes and under any setting: they
    terminate, no pointer of the handler dangles, also while the head of an
    n-dimensional array is given to the handler before its elements, and they return a
    value whose numbers fit their types and whose keys ascend, or, when exceptions are
    off, the discarded value; or they throw one of the documented errors when exceptions
    are on, or, also when they are off, [out_of_range] 408 for a container announced
    larger than memory. *)
Theorem from_ubjson_total (dp : Z) (snprintf_g : Z -> list Z) (bj strict exceptions : bool) (s : list Z) :
  point_ok dp -> Forall is_byte s ->
  match from_ubjson_format (H := double (strtod dp) snprintf_g) dp bj strict exceptions s with
  | Ok v => wf_json v \/ (v = Jdiscarded /\ exceptions = false)
  | Fault f => binary_thrown ubjson_codes exceptions true f
  end.
Proof.
  intros Hdp Hs. apply from_total; [by left|done| |].
  - intros n d r Q Hr HQ. apply (noop_ok n d); [done|].
    intros r' _ _ Hr'. apply HQ. eapply reads_more; [exact Hr'|lia].
  - intros n d r Hr Hd. by apply (parse_ubjson_ok (H0 := double (strtod dp) snprintf_g) (HS := dom_spec exceptions ubjson_codes) dp bj (fun id H => H) (strtod_range dp) ltac:(done) Hdp [] n d).
Qed.

Lemma from_ubjson_total_witness :
  point_ok cDOT /\ Forall is_byte (str "[$U#[i") /\
  match from_ubjson_format (H := double (strtod cDOT) (fun _ => [])) cDOT true true false (str "[$U#[i") with
  | Ok v => wf_json v \/ (v = Jdiscarded /\ false = false)
  | Fault f => binary_thrown ubjson_codes false true f
  end /\
  from_ubjson_format (H := double (strtod cDOT) (fun _ => [])) cDOT true true false (str "[$U#[i") = Ok Jdiscarded.
Proof.
  assert (Forall is_byte (str "[$U#[i")) as Hs by (by repeat constructor).
  assert (point_ok cDOT) as Hdp by by split_and!. split; [exact Hdp|]. split; [exact Hs|]. split; [|reflexivity].
  by apply from_ubjson_total.
Defined.

(** A string of negative length is read as an empty one. *)
Example ubjson_negative_length :
  from_ubjson (H := double (strtod cDOT) (fun _ => [])) cDOT true true [83; 105; 255] = Ok (Jstring []).
Proof. reflexivity. Qed.

(** A few bytes announce any number of values that take none: here 100 nulls. *)
Example ubjson_values_of_no_bytes :
  from_ubjson (H := double (strtod cDOT) (fun _ => [])) cDOT true true (str "[$Z#i" ++ [100]) = Ok (Jarray (replicate 100 Jnull)).
Proof. vm_compute. reflexivity. Qed.

(** The elements of type 'N' are announced and not there. *)
Example ubjson_no_elements :
  from_ubjson (H := double (strtod cDOT) (fun _ => [])) cDOT true true (str "[$N#i" ++ [3]) = Ok (Jarray []).
Proof. reflexivity. Qed.

(** A high-precision number need not be finite. *)
Example ubjson_infinite_number :
  from_ubjson (H := double (strtod cDOT) (fun _ => [])) cDOT true true (str "Hi" ++ [5] ++ str "1e999") = Ok (Jnumber_float inf_bits).
Proof. vm_compute. reflexivity. Qed.

(** A count of 2 ^ 64 - 1 is taken for an unknown one, and the byte read last, here the
    marker of the count, for the first element. *)
Example bjdata_count_taken_as_unknown :
  from_bjdata (H := double (strtod cDOT) (fun _ => [])) cDOT true true (str "[#M" ++ replicate 8 255 ++ replicate 8 7 ++ str "]") =
    Ok (Jarray [Jnumber_unsigned (le_val (replicate 8 7))]).
Proof. vm_compute. reflexivity. Qed.
